(* ===== verification/_CoqProject ===== *)
-Q . S2P
Prelude.v
HashSpec.v
Md5.v
Sha1.v
Sha2Core.v
Sha2.v
Rmd160.v
SipHash.v
ChaCha.v
Uuid.v
Calendar.v
LeapTime.v
Utf8.v
AtExit.v
Tsearch.v
Base64.v
Hsearch.v
Futex.v
Lock.v
Rwlock.v
Strtol.v
Order.v
Heapsort.v
Smoothsort.v
SmoothTrees.v
SmoothsortProof.v
Semaphore.v
Once.v
Mutex.v
DesTables.v
Des.v
DesCrypt.v
DnsName.v
MbString.v
MbStringN.v
WcString.v
Vis.v
Ber.v
BerOctets.v
BerWrite.v
BerRead.v
BerSafe.v
BerAdd.v
