(* ===== verification/Prelude.v ===== *)
(** * A verification library for this fork of the musl C library

    The repository is musl (a C standard library for Linux) merged with code
    of OpenBSD's libc.  This library models parts of src/src as executable
    Rocq functions and step relations, translated from the C text, and proves
    what makes each part correct.  This file is the root: its header
    documents the whole, the rest of it holds what the components share
    (machine words, bit-level automation, byte strings and their codecs, array
    cells, loops with fuel, errno values).

    ** Configuration

    The model takes an LP64 little-endian target compiled by a GNU C compiler
    (x86_64, aarch64): int is 32 bits, long, long long and size_t are 64, and
    unsigned arithmetic wraps ([wrap], [u32], [u64]).  Signed arithmetic is
    not wrapped where the code cannot overflow it, and the theorems or the
    invariants bound it; where an input can make it overflow the result is
    [None] (the counter of dn_expand, sums of time_t) or wrapped, and the
    theorem has the bound.  A conversion to a signed type, a length returned as
    an int among them, is [sgn].  Buffers and
    arrays are lists, a pointer into one is an index; [l.[i]] reads a cell.
    Loops are recursive functions on fuel ([while_]); the theorems state the
    results, so that each loop ending within its fuel is part of them.

    ** Parts

    Digests (src/src/crypt/hash_*.c).  [HashSpec] is the abstract
    Merkle-Damgard hash, and the class [BlockHash], the interface an
    incremental implementation (Init, Update, Final on a context with a
    partial block and a bit count) satisfies; the streaming theorem is proved
    once against it.  [Md5] (hash_md5.c), [Sha1] (hash_sha1.c), [Sha2Core] and
    [Sha2] (hash_sha2.c: the code shared by the two word sizes, then the five
    variants) and [Rmd160] (hash_rmd160.c) translate the unrolled transforms
    and the context operations, state RFC 1321, FIPS 180-4 and RIPEMD-160
    from their definitions, and discharge the interface: any sequence of
    Updates followed by Final gives the digest of the concatenation.  Sha2
    also proves that the unrolled and the rolled loops agree and that the
    constants are the roots of primes the standard says.  [SipHash]
    (hash_siphash.c) is the keyed hash, the same way.

    [ChaCha] (internal/crypt_chacha.c): the generator behind arc4random writes
    the ChaCha20 key stream and keeps the block counter.

    [Uuid] (misc/uuid_*.c): codecs, order and text form of UUIDs.

    [Calendar] and [LeapTime] (time/): seconds and broken-down UTC time
    against the proleptic Gregorian calendar; leap-second conversions and
    their search.

    [Utf8] (multibyte/): the bit-packed decoder of mbrtowc and mbtowc, wcrtomb
    and the UTF-16 and UTF-32 functions, against well-formed UTF-8 of the
    Unicode standard, restarting at every split of the input included.

    [MbString] (mbsrtowcs.c, mbstowcs.c), [MbStringN] (mbsnrtowcs.c) and
    [WcString] (wcsrtombs.c, wcsnrtombs.c, wcstombs.c) are the string
    functions over it: what ISO C defines as a call of the character function
    for each character is the reference ([chars], [emit]), the code with its
    two loops, its words of four ASCII bytes and its jumps into the middle of
    a loop is proved to do the same, and the two directions are inverse.

    [AtExit] (exit/): registration and the run of the handlers, with
    registrations in between, refine a stack.

    [Tsearch] (search/t*.c): AVL trees on a heap of nodes, with dangling and
    null dereferences and the overrun of the array of pointers as errors that
    the theorems exclude; histories refine a sorted list of keys.

    [Hsearch] (search/hsearch.c): open addressing refines a finite map.

    [Base64] (misc/base64.c): encoder and decoder into bounded buffers.

    [Strtol] (internal/intscan.c, stdlib/strtol.c, stdlib/strtonum.c): integer
    parsing with saturation, errno and end pointer.

    Sorting (stdlib/).  [Order] is what sorts share: the array, the comparison
    function of the caller as a parameter with the class of its laws (a total
    preorder).  [Heapsort] (heapsort.c) is the bottom-up heapsort.
    [Smoothsort] (qsort.c) is qsort_r, with the heap sizes as two words of
    bits; [SmoothTrees] has the Leonardo trees as pure data, [SmoothsortProof]
    relates the two and proves that qsort sorts and permutes.

    DES (crypt/crypt_des.c, crypt/encrypt.c).  [DesTables] has the tables of
    masks as they stand, [Des] proves them to be the standard's permutations
    and S-boxes, the key schedule and the rounds to be FIPS 46-3, setkey and
    encrypt to be inverse; [DesCrypt] has the traditional and extended password hashes.

    [DnsName] (network/dn_*.c): compression and expansion of domain names in
    messages, pointer loops included.

    BER (misc/ber.c).  [Ber] is the whole file: elements are cells of a heap
    that malloc may refuse, a monad carries the heap, errno, the struct ber
    worked on, the write callbacks made and the string buffers allocated and
    not freed, and is undefined where C is (a dangling pointer, an access
    beyond an object, a second free).  [BerOctets] has the octets
    of X.690 (identifiers, lengths, two's complement) and how the code reads
    them.  [BerWrite] has the trees behind the cells ([forest], [rep]) and their
    encoding ([encode]), and proves the length and the writer against it;
    [BerRead] proves that the reader takes back what is written, [BerSafe] that
    on any input whatever it is safe, ends, leaks no element and no buffer and
    leaves well-typed elements, [BerAdd] that numbers get their shortest length and object
    identifiers are read as they were added.

    [Vis] (misc/vis.c, misc/unvis.c): the encoder of unprintable bytes and its
    decoder, a state machine that pushes characters back, with their bounded
    forms over arrays of bytes.

    Concurrency (src/src/thread).  [Futex] is the layer the locks share: a
    program is what a thread does at each control point, a step interleaves
    the threads, FUTEX_WAIT and FUTEX_WAKE are steps of the kernel; invariants
    are sums over the threads.  [Lock] (__lock.c), [Rwlock]
    (pthread_rwlock_*.c), [Semaphore] (sem_*.c), [Once] (pthread_once.c) and
    [Mutex] (pthread_mutex_*.c, the normal type) are programs over it, with
    exclusion, the refinement of a counter or a single initialisation (safety)
    and no lost wake-up (progress) for any number of threads and interleaving.

    ** What the theorems show

    Functional correctness and equivalence with a reference definition:
    digests, DES, ChaCha, calendar, UTF-8 decoding, multibyte strings, sorting.  Refinement of an
    abstract specification: exit handlers (stack), trees (sorted list), hash
    tables (map), semaphores (counter), the BER writer (X.690).
    Round trips: UUID codecs and text, calendar, leap seconds,
    UTF-8, UTF-16, multibyte strings, Base64, DES, domain names, BER messages
    and object identifiers, visual encoding.  Types: the elements the BER reader accepts.  Invariants and safety: AVL balance and order, no
    use after free, probe sequences, mutual exclusion, one initialisation, the BER reader on hostile
    input.  Bounds and errors:
    saturation of strtol, buffer limits of Base64, of domain names, of visual
    encoding and of the string conversions, shortest BER integers, array of MAXH pointers, results of the try-lock
    functions.  Termination: name expansion on every message, leap seconds.  Liveness: no lost wake-up.

    ** Fuel and bounds

    A loop over a string, buffer or array has the length as fuel, one
    iteration consuming at least one cell.  Trees have fuel 98 and MAXH = 96
    slots: an AVL tree in a 64-bit address space has height at most 95.  A
    probe loop of a table of 2^n entries has fuel 2^n: triangular probing
    visits every entry.  qsort is
    proved for fewer than 34335360355129 elements (a Leonardo number) and
    fewer than 2^62 bytes: beyond, its count of trailing zeros fails, as a
    finding says.  dn_expand has as fuel the length of
    the message, half of which bounds its steps, and is proved for messages
    shorter than 2^31 - 1, b64_pton for strings shorter than 2^31, stravis for
    encodings shorter than 2^31 - 1, posix2time for times as many seconds from
    the limits of time_t as there are leap seconds; the BER reader needs as much as there
    are octets left and two (an element takes two octets at least), the BER
    writer more than there are elements; in C their recursion is on the stack,
    the depth of which is not modelled.  The count of the internal lock needs fewer than
    2^31 - 2 threads, the readers-writer lock and the semaphore fewer than
    2^31 - 1, mutexes and once fewer than 2^31.

    ** Not modelled

    Floating point (no model of IEEE arithmetic here), stdio buffers, system
    calls and their wrappers, assembly, dynamic linking, locale tables, the
    regular expression matcher and the memory allocators: the last is an
    argument of the models that allocate (memory or not).  The futex calls and
    the comparison function of the sort are parameters with their documented
    behaviour.  The mutex
    types that track an owner keep robust lists the kernel walks: only the
    normal type is modelled.  Left for a development that goes on from here,
    for want of room and not of a model: condition variables and barriers over [Futex],
    mergesort, getopt, fnmatch, the address codecs of network/, two-way string
    search, the other crypt_* password hashes over [HashSpec], rand48 and
    random.  Of ber.c the callbacks are modelled by their calls (the write
    callback is recorded, the application callback is a function of the header
    of the element), a string buffer belongs to the one element that points to
    it and is tracked by its bytes from its allocation to its free, and the
    buffer that ober_free frees is not looked at again. *)

From stdpp Require Export base numbers list gmap strings.
From Stdlib Require Export ZArith Lia.
From Stdlib Require String Ascii.
From coqutil Require Export Z.bitblast.

#[global] Open Scope Z_scope.

(** ** Notation scope of the development *)

Declare Scope musl_scope.
Delimit Scope musl_scope with musl.
#[global] Open Scope musl_scope.

(** ** errno.h, the generic Linux values *)
Notation "'EINTR'" := 4 : musl_scope.
Notation "'EAGAIN'" := 11 : musl_scope.
Notation "'ENOMEM'" := 12 : musl_scope.
Notation "'EBUSY'" := 16 : musl_scope.
Notation "'EINVAL'" := 22 : musl_scope.
Notation "'ERANGE'" := 34 : musl_scope.
Notation "'EOVERFLOW'" := 75 : musl_scope.
Notation "'ETIMEDOUT'" := 110 : musl_scope.

(** ** Machine words

    An unsigned [w]-bit integer is a [Z] in [0, 2^w); [wrap w] is the
    conversion C performs on every unsigned arithmetic result. *)

Definition wrap (w x : Z) : Z := x mod 2 ^ w.
Definition u8 (x : Z) : Z := wrap 8 x.
Definition u16 (x : Z) : Z := wrap 16 x.
Definition u32 (x : Z) : Z := wrap 32 x.
Definition u64 (x : Z) : Z := wrap 64 x.

(** Conversion to a signed [w]-bit integer (two's complement). *)
Definition sgn (w x : Z) : Z :=
  let y := wrap w x in if y <? 2 ^ (w - 1) then y else y - 2 ^ w.

(** Bit operations in infix form; the shifts [x ≪ n] and [x ≫ n] are stdpp's. *)
Notation "x .& y" := (Z.land x y) (at level 40, left associativity) : musl_scope.
Notation "x .| y" := (Z.lor x y) (at level 50, left associativity) : musl_scope.
Notation "x .^ y" := (Z.lxor x y) (at level 45, left associativity) : musl_scope.

(** Complement, rotation and shift on words of a fixed width. *)
Definition not32 (x : Z) : Z := u32 (Z.lnot x).
Definition not64 (x : Z) : Z := u64 (Z.lnot x).
Definition shl32 (x n : Z) : Z := u32 (x ≪ n).
Definition shl64 (x n : Z) : Z := u64 (x ≪ n).
Definition rol32 (x n : Z) : Z := shl32 x n .| (x ≫ (32 - n)).
Definition ror32 (x n : Z) : Z := (x ≫ n) .| shl32 x (32 - n).
Definition rol64 (x n : Z) : Z := shl64 x n .| (x ≫ (64 - n)).
Definition ror64 (x n : Z) : Z := (x ≫ n) .| shl64 x (64 - n).

(** Unsigned addition at each width. *)
Definition add32 (x y : Z) : Z := u32 (x + y).
Definition add64 (x y : Z) : Z := u64 (x + y).

Definition word (w x : Z) : Prop := 0 <= x < 2 ^ w.
Abbreviation byte_ok := (word 8).
Abbreviation bytes := (Forall byte_ok).

Lemma wrap_word w x : 0 <= w -> word w (wrap w x).
Proof. intros. unfold word, wrap. apply Z.mod_pos_bound. lia. Qed.

Lemma wrap_small w x : word w x -> wrap w x = x.
Proof. intros. unfold word, wrap in *. by apply Z.mod_small. Qed.

Lemma wrap_wrap w x : wrap w (wrap w x) = wrap w x.
Proof. unfold wrap. by rewrite Zmod_mod. Qed.

Lemma wrap_testbit w x i : 0 <= w -> 0 <= i ->
  Z.testbit (wrap w x) i = (i <? w) && Z.testbit x i.
Proof.
  intros. unfold wrap. rewrite <- Z.land_ones by lia.
  rewrite Z.land_spec, Z.testbit_ones_nonneg by lia. apply andb_comm.
Qed.

Lemma word_testbit w x i : word w x -> w <= i -> Z.testbit x i = false.
Proof.
  intros [H1 H2] Hi. destruct (Z.eq_dec x 0) as [->|]; [apply Z.bits_0|].
  apply Z.bits_above_log2; [lia|].
  enough (Z.log2 x < w) by lia. apply Z.log2_lt_pow2; lia.
Qed.

Lemma wrap_add_l w x y : wrap w (wrap w x + y) = wrap w (x + y).
Proof. unfold wrap. by rewrite Zplus_mod_idemp_l. Qed.
Lemma wrap_add_r w x y : wrap w (x + wrap w y) = wrap w (x + y).
Proof. unfold wrap. by rewrite Zplus_mod_idemp_r. Qed.
Lemma wrap_mul_l w x y : wrap w (wrap w x * y) = wrap w (x * y).
Proof. unfold wrap. by rewrite Zmult_mod_idemp_l. Qed.
Lemma wrap_mul_r w x y : wrap w (x * wrap w y) = wrap w (x * y).
Proof. unfold wrap. by rewrite Zmult_mod_idemp_r. Qed.

(** Congruence of the wrapped sum in each argument, the form in which hash
    round functions use it. *)
Lemma wrap_add_cong w x x' y y' :
  wrap w x = wrap w x' -> wrap w y = wrap w y' -> wrap w (x + y) = wrap w (x' + y').
Proof. intros Hx Hy. rewrite <- wrap_add_l, <- wrap_add_r, Hx, Hy, wrap_add_l, wrap_add_r. done. Qed.

Lemma word_land w x y : word w x -> word w y -> word w (Z.land x y).
Proof.
  intros Hx Hy. unfold word in *. split; [apply Z.land_nonneg; lia|].
  destruct (Z.eq_dec (Z.land x y) 0) as [->|]; [lia|].
  apply Z.log2_lt_cancel. destruct (Z.eq_dec w 0) as [->|].
  { change (2 ^ 0) with 1 in *. assert (x = 0) by lia. subst. by rewrite Z.land_0_l in n. }
  assert (0 <= w) by (destruct (Z.neg_nonneg_cases w); [rewrite Z.pow_neg_r in Hx; lia|lia]).
  rewrite Z.log2_pow2 by lia.
  eapply Z.le_lt_trans; [apply Z.log2_land; lia|].
  destruct (Z.eq_dec x 0) as [->|]; [rewrite Z.land_0_l in n; lia|].
  assert (Z.log2 x < w) by (apply Z.log2_lt_pow2; lia). lia.
Qed.

Lemma word_of_bits w x : 0 <= w -> 0 <= x ->
  (forall i, w <= i -> Z.testbit x i = false) -> word w x.
Proof.
  intros Hw Hx Hb. replace x with (wrap w x); [by apply wrap_word|].
  apply Z.bits_inj'. intros i Hi. rewrite wrap_testbit by lia.
  destruct (Z.ltb_spec i w); [done|]. rewrite Hb by lia. done.
Qed.

Lemma word_lor w x y : 0 <= w -> word w x -> word w y -> word w (Z.lor x y).
Proof.
  intros Hw Hx Hy. apply word_of_bits; [done|apply Z.lor_nonneg; unfold word in *; lia|].
  intros i Hi. rewrite Z.lor_spec, !(word_testbit w) by done. done.
Qed.

Lemma word_lxor w x y : 0 <= w -> word w x -> word w y -> word w (Z.lxor x y).
Proof.
  intros Hw Hx Hy. apply word_of_bits; [done|apply Z.lxor_nonneg; unfold word in *; lia|].
  intros i Hi. rewrite Z.lxor_spec, !(word_testbit w) by done. done.
Qed.

Lemma word_shiftr w x n : 0 <= n -> word w x -> word w (Z.shiftr x n).
Proof.
  intros Hn [H1 H2]. split; [by apply Z.shiftr_nonneg|].
  rewrite Z.shiftr_div_pow2 by done. eapply Z.le_lt_trans; [|apply H2].
  apply Z.div_le_upper_bound; [lia|].
  assert (1 <= 2 ^ n) by (apply (Z.pow_le_mono_r 2 0); lia). nia.
Qed.

(** Signed conversion: the identity on what the type can hold. *)
Lemma sgn_small w x : 0 < w -> - 2 ^ (w - 1) <= x < 2 ^ (w - 1) -> sgn w x = x.
Proof.
  intros Hw H. unfold sgn, wrap.
  assert (E : 2 ^ w = 2 * 2 ^ (w - 1)) by (rewrite <- Z.pow_succ_r by lia; f_equal; lia).
  destruct (Z.leb_spec 0 x).
  - rewrite Z.mod_small by lia. destruct (Z.ltb_spec x (2 ^ (w - 1))); lia.
  - rewrite <- (Z.mod_unique x (2 ^ w) (-1) (x + 2 ^ w)) by lia.
    destruct (Z.ltb_spec (x + 2 ^ w) (2 ^ (w - 1))); lia.
Qed.

Lemma sgn_wrap w x : sgn w (wrap w x) = sgn w x.
Proof. unfold sgn. by rewrite wrap_wrap. Qed.

Lemma u32_word x : word 32 (u32 x).
Proof. by apply wrap_word. Qed.
Lemma u64_word x : word 64 (u64 x).
Proof. by apply wrap_word. Qed.
Lemma u8_word x : word 8 (u8 x).
Proof. by apply wrap_word. Qed.

Lemma u8_land255 x : u8 (x .& 255) = u8 x.
Proof. change 255 with (Z.ones 8). rewrite Z.land_ones by lia. apply wrap_wrap. Qed.

Lemma land_255 x : x .& 255 = x mod 256.
Proof. change 255 with (Z.ones 8). by rewrite Z.land_ones by lia. Qed.

Create HintDb words.
#[export] Hint Resolve wrap_word u8_word u32_word u64_word word_land word_lor word_lxor word_shiftr : words.
#[export] Hint Extern 1 (0 <= _) => lia : words.

(** Bitwise equality of words: compare bit by bit, splitting on the bits of
    the atoms. *)
Ltac zbits :=
  apply Z.bits_inj'; let i := fresh "i" in let Hi := fresh "Hi" in intros i Hi;
  unfold not32, not64, shl32, shl64, u8, u16, u32, u64 in *;
  repeat first
    [ rewrite Z.lor_spec | rewrite Z.land_spec | rewrite Z.lxor_spec
    | rewrite Z.lnot_spec by lia
    | rewrite wrap_testbit by lia ];
  repeat match goal with
  | |- context [Z.testbit ?x i] =>
      lazymatch x with
      | Z.shiftl _ _ => fail
      | Z.shiftr _ _ => fail
      | _ => destruct (Z.testbit x i)
      end
  end;
  repeat match goal with |- context [?a <? ?b] => destruct (Z.ltb_spec a b) end;
  simpl; try done; try lia.

(** Bit specifications without a side condition on the index. *)
Lemma shl_bit x n i : 0 <= n -> Z.testbit (x ≪ n) i = (n <=? i) && Z.testbit x (i - n).
Proof.
  intros Hn. destruct (Z.leb_spec n i); [apply Z.shiftl_spec; lia|].
  destruct (Z.lt_ge_cases i 0); [by rewrite Z.testbit_neg_r|].
  by rewrite Z.shiftl_spec_low.
Qed.
Lemma shr_bit x n i : Z.testbit (x ≫ n) i = (0 <=? i) && Z.testbit x (i + n).
Proof.
  destruct (Z.leb_spec 0 i); [by apply Z.shiftr_spec|]. by rewrite Z.testbit_neg_r.
Qed.
Lemma wrap_bit w x i : 0 <= w -> Z.testbit (wrap w x) i = (0 <=? i) && (i <? w) && Z.testbit x i.
Proof.
  intros. destruct (Z.leb_spec 0 i); [by apply wrap_testbit|]. by rewrite Z.testbit_neg_r.
Qed.

(** Bitwise equality by cases on the bit index: [bit_cases n] compares bits
    0 .. n-1 one by one and the bits from [n] on at once, reading the bits of
    a word beyond its width as zero. *)
Ltac bit_specs :=
  repeat first
    [ rewrite Z.lor_spec | rewrite Z.land_spec | rewrite Z.lxor_spec
    | rewrite wrap_bit by lia | rewrite shl_bit by lia | rewrite shr_bit ].
Ltac bit_high :=
  repeat match goal with
  | H : word ?w ?x |- context [Z.testbit ?x ?k] => rewrite (word_testbit w x k H) by lia
  end.
Ltac bit_eval :=
  repeat match goal with
  | |- context [?a <=? ?b] =>
      let v := eval vm_compute in (a <=? b) in change (a <=? b) with v
  | |- context [?a <? ?b] =>
      let v := eval vm_compute in (a <? b) in change (a <? b) with v
  | |- context [Z.testbit ?x ?k] =>
      is_var x; let k' := eval vm_compute in k in
      progress change (Z.testbit x k) with (Z.testbit x k')
  | |- context [Z.testbit ?x ?k] =>
      let v := eval vm_compute in (Z.testbit x k) in
      lazymatch v with true => idtac | false => idtac end;
      change (Z.testbit x k) with v
  end.
Ltac bit_close :=
  repeat match goal with
  | |- context [?a <? ?b] => destruct (Z.ltb_spec a b); try lia
  | |- context [?a <=? ?b] => destruct (Z.leb_spec a b); try lia
  end; cbn [andb orb xorb negb];
  repeat match goal with |- context [Z.testbit ?x ?k] =>
    generalize (Z.testbit x k); intros [|] end; reflexivity.
Ltac bit_cases n :=
  let i := fresh "i" in let Hi := fresh "Hi" in let Hc := fresh "Hc" in
  apply Z.bits_inj'; intros i Hi;
  unfold rol32, ror32, rol64, ror64, shl32, shl64, u8, u16, u32, u64;
  bit_specs;
  destruct (Z.lt_ge_cases i n) as [Hc|Hc];
  [ let Hin := fresh "Hin" in
    assert (Hin : In i (map Z.of_nat (seq 0 (Z.to_nat n))))
      by (apply in_map_iff; exists (Z.to_nat i); rewrite in_seq; lia);
    cbv [Z.to_nat Pos.to_nat Pos.iter_op Nat.add seq map Z.of_nat Pos.of_succ_nat Pos.succ] in Hin;
    clear Hi Hc;
    repeat (destruct Hin as [<-|Hin]; [bit_eval; bit_high; bit_close|]); destruct Hin
  | bit_high; bit_close ].

(** Assignment in straight-line code.  It is a [let] that conversion does not
    substitute, so that a long unrolled routine keeps its sharing in proofs. *)
Definition assign {A B} (v : A) (k : A -> B) : B := k v.
Notation "x '::=' v ; k" := (assign v (fun x => k))
  (at level 20, v at level 100, k at level 200, format "x  ::=  v ; '//' k") : musl_scope.
Notation "' p '::=' v ; k" := (assign v (fun p => k))
  (at level 20, p pattern, v at level 100, k at level 200,
   format "' p  ::=  v ; '//' k") : musl_scope.

Lemma assign_elim {A B} (v : A) (k : A -> B) r : k v = r -> assign v k = r.
Proof. done. Qed.
Lemma assign_eq {A B} (v : A) (k : A -> B) : assign v k = k v.
Proof. done. Qed.
Lemma assign_gen {A B} (v : A) (k : A -> B) (r : A -> B) :
  (forall w, k w = r w) -> assign v k = r v.
Proof. intros H. apply H. Qed.
Lemma assign_cong {A B} (v w : A) (k l : A -> B) :
  v = w -> (forall x, k x = l x) -> assign v k = assign w l.
Proof. intros -> H. apply H. Qed.
#[global] Opaque assign.

(** ** Byte strings *)

(** Little- and big-endian values of a byte string, and the [n]-byte
    little-endian representation of a value. *)
Fixpoint le_val (l : list Z) : Z :=
  match l with
  | [] => 0
  | b :: l => b + 256 * le_val l
  end.
Definition be_val (l : list Z) : Z := foldl (fun acc b => 256 * acc + b) 0 l.
Fixpoint le_bytes (n : nat) (x : Z) : list Z :=
  match n with
  | O => []
  | S n => x mod 256 :: le_bytes n (x / 256)
  end.
Definition be_bytes (n : nat) (x : Z) : list Z := reverse (le_bytes n x).

Lemma le_bytes_length n x : length (le_bytes n x) = n.
Proof. revert x. induction n; intros; simpl; [done|by rewrite IHn]. Qed.
Lemma be_bytes_length n x : length (be_bytes n x) = n.
Proof. unfold be_bytes. by rewrite length_reverse, le_bytes_length. Qed.

Lemma le_bytes_bytes n x : bytes (le_bytes n x).
Proof.
  revert x. induction n; intros; simpl; [done|]. constructor; [|done].
  unfold word. change (2 ^ 8) with 256. apply Z.mod_pos_bound. lia.
Qed.
Lemma be_bytes_bytes n x : bytes (be_bytes n x).
Proof. unfold be_bytes. apply Forall_reverse, le_bytes_bytes. Qed.

Lemma le_val_word l : bytes l -> word (8 * Z.of_nat (length l)) (le_val l).
Proof.
  unfold word. induction 1 as [|b l [H1 H2] Hl IH]; simpl le_val; simpl length; [lia|].
  change (2 ^ 8) with 256 in *.
  replace (8 * Z.of_nat (S (length l))) with (8 + 8 * Z.of_nat (length l)) by lia.
  rewrite Z.pow_add_r by lia. change (2 ^ 8) with 256. lia.
Qed.

Lemma le_val_bytes l : bytes l -> le_bytes (length l) (le_val l) = l.
Proof.
  induction 1 as [|b l [H1 H2] Hl IH]; [done|]. simpl. change (2 ^ 8) with 256 in *.
  rewrite (Z.mul_comm 256), Z.mod_add, Z.div_add, Z.mod_small, Z.div_small, Z.add_0_l by lia.
  by rewrite IH.
Qed.

Lemma le_bytes_val n x : le_val (le_bytes n x) = x mod 2 ^ (8 * Z.of_nat n).
Proof.
  revert x. induction n; intros x; cbn [le_bytes le_val].
  - change (2 ^ (8 * Z.of_nat 0)) with 1. by rewrite Z.mod_1_r.
  - rewrite IHn. replace (8 * Z.of_nat (S n)) with (8 + 8 * Z.of_nat n) by lia.
    rewrite Z.pow_add_r by lia. change (2 ^ 8) with 256.
    rewrite Z.rem_mul_r by lia. lia.
Qed.

(** Four bytes, little-endian, as a disjunction of shifted bytes. *)
Lemma lor_add_disjoint x y n : 0 <= n -> word n x -> x + 2 ^ n * y = x .| (y ≪ n).
Proof.
  intros Hn Hx. rewrite Z.mul_comm, <- Z.shiftl_mul_pow2 by done.
  rewrite Z.add_nocarry_lxor, Z.lxor_lor.
  all: try done.
  all: apply Z.bits_inj'; intros i Hi; rewrite Z.land_spec, Z.bits_0.
  all: destruct (Z.ltb_spec i n); [rewrite (Z.shiftl_spec_low y) by done; apply andb_false_r
    |rewrite (word_testbit n x) by done; done].
Qed.

(** Tag bits above a value of [n] bits. *)
Lemma lor_tag t x n : 0 <= n -> 0 <= x < 2 ^ n -> t mod 2 ^ n = 0 -> t .| x = t + x.
Proof.
  intros Hn Hx Ht. rewrite (Z.div_mod t (2 ^ n)), Ht, Z.add_0_r by lia.
  rewrite (Z.mul_comm (2 ^ n)), <- Z.shiftl_mul_pow2, Z.lor_comm, <- lor_add_disjoint by done.
  rewrite Z.shiftl_mul_pow2 by done. lia.
Qed.

Lemma le_val4 b0 b1 b2 b3 : bytes [b0; b1; b2; b3] ->
  le_val [b0; b1; b2; b3] = b0 .| (b1 ≪ 8) .| (b2 ≪ 16) .| (b3 ≪ 24).
Proof.
  rewrite !Forall_cons. intros (H0 & H1 & H2 & H3 & _). cbn [le_val].
  change 256 with (2 ^ 8).
  rewrite Z.mul_0_r, Z.add_0_r, !lor_add_disjoint by done.
  rewrite !Z.shiftl_lor, !Z.shiftl_shiftl by lia. by rewrite !Z.lor_assoc.
Qed.

Lemma le_val8 b0 b1 b2 b3 b4 b5 b6 b7 : bytes [b0; b1; b2; b3; b4; b5; b6; b7] ->
  le_val [b0; b1; b2; b3; b4; b5; b6; b7] =
  b0 .| (b1 ≪ 8) .| (b2 ≪ 16) .| (b3 ≪ 24) .| (b4 ≪ 32) .| (b5 ≪ 40) .| (b6 ≪ 48) .| (b7 ≪ 56).
Proof.
  rewrite !Forall_cons. intros (H0 & H1 & H2 & H3 & H4 & H5 & H6 & H7 & _). cbn [le_val].
  change 256 with (2 ^ 8).
  rewrite Z.mul_0_r, Z.add_0_r, !lor_add_disjoint by done.
  rewrite !Z.shiftl_lor, !Z.shiftl_shiftl by lia. by rewrite !Z.lor_assoc.
Qed.

(** A big-endian value is the little-endian value of the reversed bytes. *)
Lemma be_val_le l : be_val l = le_val (reverse l).
Proof.
  unfold be_val. induction l as [|b l IH] using rev_ind; [done|].
  rewrite foldl_app, reverse_snoc. cbn [foldl le_val]. rewrite <- IH. lia.
Qed.

Lemma le_bytes_app n m x :
  le_bytes (n + m) x = le_bytes n x ++ le_bytes m (x / 2 ^ (8 * Z.of_nat n)).
Proof.
  revert x. induction n as [|n IH]; intros x; simpl.
  - change (2 ^ 0) with 1. by rewrite Z.div_1_r.
  - rewrite IH. do 3 f_equal. rewrite Z.div_div by lia. f_equal.
    change 256 with (2 ^ 8). rewrite <- Z.pow_add_r by lia. f_equal. lia.
Qed.

Lemma be_val4 b0 b1 b2 b3 : bytes [b0; b1; b2; b3] ->
  be_val [b0; b1; b2; b3] = b3 .| (b2 ≪ 8) .| (b1 ≪ 16) .| (b0 ≪ 24).
Proof.
  intros H. rewrite <- le_val4.
  - unfold be_val. cbn [foldl le_val]. lia.
  - rewrite !Forall_cons in *. tauto.
Qed.

Lemma le_bytes_mod n k x : (n <= k)%nat -> le_bytes n (x mod 2 ^ (8 * Z.of_nat k)) = le_bytes n x.
Proof.
  revert k x. induction n as [|n IH]; intros k x Hk; [done|]. destruct k as [|k]; [lia|].
  cbn [le_bytes]. replace (8 * Z.of_nat (S k)) with (8 + 8 * Z.of_nat k) by lia.
  rewrite Z.pow_add_r by lia. change (2 ^ 8) with 256.
  assert (0 < 2 ^ (8 * Z.of_nat k)) by (apply Z.pow_pos_nonneg; lia).
  rewrite Z.rem_mul_r, (Z.mul_comm 256) by lia. f_equal.
  - rewrite Z.mod_add, Z.mod_mod by lia. done.
  - rewrite Z.div_add, (Z.div_small (_ mod 256)), Z.add_0_l by (try apply Z.mod_pos_bound; lia).
    apply IH. lia.
Qed.

(** The bytes of an ASCII literal, used to state test vectors. *)
Definition ascii_bytes (s : string) : list Z :=
  map (fun c => Z.of_N (Ascii.N_of_ascii c)) (String.list_ascii_of_string s).

Lemma ascii_bytes_bytes s : bytes (ascii_bytes s).
Proof.
  apply Forall_map, Forall_forall. intros a _. unfold word.
  pose proof (Ascii.N_ascii_bounded a). lia.
Qed.

(** Reading an array cell; the index is in range wherever the code reads. *)
Definition aget (l : list Z) (i : Z) : Z := default 0 (l !! Z.to_nat i).
Notation "l .[ i ]" := (aget l i) (at level 1, i at level 200, format "l .[ i ]") : musl_scope.

(** Reading the first cells in order. *)
Lemma take_aget (st : list Z) n : (n <= length st)%nat ->
  map (aget st) (seqZ 0 (Z.of_nat n)) = take n st.
Proof.
  intros Hn. apply list_eq. intros i. change (map (aget st)) with (fmap (M := list) (aget st)).
  rewrite list_lookup_fmap. destruct (Nat.lt_ge_cases i n) as [Hi|Hi].
  - rewrite lookup_seqZ_lt, lookup_take_lt by lia. cbn [fmap option_fmap option_map].
    unfold aget. rewrite Z.add_0_l, Nat2Z.id.
    destruct (lookup_lt_is_Some_2 st i) as [x ->]; [lia|done].
  - rewrite lookup_seqZ_ge, lookup_take_ge by lia. done.
Qed.

(** [memcpy] of [src] into an array at offset [off]. *)
Definition splice (l : list Z) (off : nat) (src : list Z) : list Z :=
  take off l ++ src ++ drop (off + length src) l.

Lemma splice_length l off src :
  (off + length src <= length l)%nat -> length (splice l off src) = length l.
Proof. intros. unfold splice. rewrite !length_app, length_take, length_drop. lia. Qed.

Lemma splice_take l off src :
  (off <= length l)%nat -> take (off + length src) (splice l off src) = take off l ++ src.
Proof.
  intros. unfold splice. rewrite app_assoc.
  rewrite take_app_length'; [done|]. rewrite length_app, length_take. lia.
Qed.

Lemma splice_full l off src :
  (off + length src = length l)%nat -> splice l off src = take off l ++ src.
Proof. intros. unfold splice. rewrite drop_ge by lia. by rewrite app_nil_r. Qed.

Lemma splice_splice l off a b : (off + length a + length b <= length l)%nat ->
  splice (splice l off a) (off + length a) b = splice l off (a ++ b).
Proof.
  intros H. unfold splice. rewrite (app_assoc (take off l) a).
  assert (Hl : length (take off l ++ a) = (off + length a)%nat) by (rewrite length_app, length_take; lia).
  rewrite take_app_length' by done. rewrite drop_app_ge by lia. rewrite drop_drop, Hl, length_app.
  rewrite <- !app_assoc. do 4 f_equal. lia.
Qed.

Lemma foldl_cons {A B} (f : A -> B -> A) a x l : foldl f a (x :: l) = foldl f (f a x) l.
Proof. done. Qed.

Lemma nth_map_seq {A} (f : nat -> A) n k d : (k < n)%nat -> nth k (map f (seq 0 n)) d = f k.
Proof.
  intros Hk. rewrite (nth_indep _ d (f n)) by (by rewrite length_map, length_seq).
  rewrite map_nth, seq_nth by done. done.
Qed.

(** Elements and updates at an integer index. *)
Lemma lookup_aget (l : list Z) n : 0 <= n < Z.of_nat (length l) -> l !! Z.to_nat n = Some l.[n].
Proof.
  intros H. unfold aget. destruct (lookup_lt_is_Some_2 l (Z.to_nat n)) as [x ->]; [lia|done].
Qed.

Lemma aget_insert (l : list Z) n x : 0 <= n < Z.of_nat (length l) -> (<[Z.to_nat n := x]> l).[n] = x.
Proof. intros H. unfold aget. by rewrite list_lookup_insert_eq by lia. Qed.

Lemma take_push (l : list Z) n x : 0 <= n < Z.of_nat (length l) ->
  take (Z.to_nat (n + 1)) (<[Z.to_nat n := x]> l) = take (Z.to_nat n) l ++ [x].
Proof.
  intros Hn. replace (Z.to_nat (n + 1)) with (S (Z.to_nat n)) by lia.
  rewrite (take_S_r _ _ x) by (rewrite list_lookup_insert_eq; [done|lia]).
  by rewrite take_insert_ge by lia.
Qed.

(** ** Loops

    [while_ fuel c b s] runs [b] while [c] holds, at most [fuel] times. *)
Fixpoint while_ {S} (fuel : nat) (c : S -> bool) (b : S -> S) (s : S) : S :=
  match fuel with
  | O => s
  | S fuel => if c s then while_ fuel c b (b s) else s
  end.

Lemma while_inv {S} (I : S -> Prop) (m : S -> nat) c b fuel s :
  I s -> (forall s, I s -> c s = true -> I (b s) /\ (m (b s) < m s)%nat) ->
  (m s <= fuel)%nat ->
  I (while_ fuel c b s) /\ c (while_ fuel c b s) = false.
Proof.
  intros HI Hb. revert s HI. induction fuel as [|f IH]; intros s HI Hm; simpl.
  - split; [done|]. destruct (c s) eqn:E; [|done]. destruct (Hb s HI E). lia.
  - destruct (c s) eqn:E; [|done]. destruct (Hb s HI E) as [H1 H2]. apply IH; [done|lia].
Qed.

(** [do { b } while (c)]. *)
Definition do_while {S} (fuel : nat) (b : S -> S) (c : S -> bool) (s : S) : S :=
  while_ fuel c b (b s).

(** A counted loop: [P k] holds after [k] iterations. *)
Lemma while_count {S} (P : Z -> S -> Prop) c b fuel s i n :
  i <= n -> (Z.to_nat (n - i) <= fuel)%nat -> P i s ->
  (forall k s, i <= k <= n -> P k s -> c s = (k <? n)) ->
  (forall k s, i <= k < n -> P k s -> P (k + 1) (b s)) ->
  P n (while_ fuel c b s).
Proof.
  intros Hi Hf HP Hc Hb. revert s i Hi Hf HP Hc Hb.
  induction fuel as [|f IH]; intros s i Hi Hf HP Hc Hb; simpl.
  - by replace n with i by lia.
  - rewrite (Hc i) by (done || lia). destruct (Z.ltb_spec i n).
    + apply (IH _ (i + 1)); [lia|lia|apply Hb; [lia|done]|..].
      * intros k s' Hk. apply Hc. lia.
      * intros k s' Hk. apply Hb. lia.
    + by replace n with i by lia.
Qed.

Lemma do_while_count {S} (P : Z -> S -> Prop) c b fuel s i n :
  i < n -> (Z.to_nat (n - i) <= fuel)%nat -> P i s ->
  (forall k s, i <= k <= n -> P k s -> c s = (k <? n)) ->
  (forall k s, i <= k < n -> P k s -> P (k + 1) (b s)) ->
  P n (do_while fuel b c s).
Proof.
  intros Hi Hf HP Hc Hb. unfold do_while. apply (while_count P _ _ _ _ (i + 1)).
  - lia.
  - lia.
  - apply Hb; [lia|done].
  - intros k s' Hk. apply Hc. lia.
  - intros k s' Hk. apply Hb. lia.
Qed.
