(* ===== verification/HashSpec.v ===== *)
(** * HashSpec: what a block hash of crypt/hash_*.c promises.

    The abstract Merkle-Damgard construction (fold of a compression function
    over full blocks of the padded message) and the interface [BlockHash]
    that relates an incremental implementation (Init/Update/Final over a
    context with a partial-block buffer) to it.  The implementations
    (Md5, Sha1, Sha2, Rmd160) discharge the interface; the streaming theorem
    is proved once, against the interface. *)

From S2P Require Import Prelude.

(** ** Byte-order helpers of the hash sources *)

(** A 64-byte block as 16 little-endian words ([memcpy] on a little-endian host). *)
Definition le_words (block : list Z) : list Z :=
  map (fun i => le_val (take 4 (drop (4 * i) block))) (seq 0 16).

(** A block as big-endian words of [w] bytes. *)
Definition be_words_n (n w : nat) (block : list Z) : list Z :=
  map (fun i => be_val (take w (drop (w * i) block))) (seq 0 n).
Abbreviation be_words := (be_words_n 16 4).

(** [PUT_64BIT_LE] and [PUT_32BIT_LE] store the low bytes of the value. *)
Definition PUT_64BIT_LE (value : Z) : list Z :=
  [u8 value; u8 (value ≫ 8); u8 (value ≫ 16); u8 (value ≫ 24);
   u8 (value ≫ 32); u8 (value ≫ 40); u8 (value ≫ 48); u8 (value ≫ 56)].
Definition PUT_32BIT_LE (value : Z) : list Z :=
  [u8 value; u8 (value ≫ 8); u8 (value ≫ 16); u8 (value ≫ 24)].


Lemma PUT_32BIT_LE_bytes x : PUT_32BIT_LE x = le_bytes 4 x.
Proof.
  unfold PUT_32BIT_LE, u8, wrap. simpl. rewrite !Z.shiftr_div_pow2, !Z.div_div by lia. done.
Qed.
Lemma PUT_64BIT_LE_bytes x : PUT_64BIT_LE x = le_bytes 8 x.
Proof.
  unfold PUT_64BIT_LE, u8, wrap. simpl. rewrite !Z.shiftr_div_pow2, !Z.div_div by lia. done.
Qed.

(** ** Absorbing full blocks *)

Section Absorb.
Context {St : Type} (B : nat) (compress : St -> list Z -> St).
Hypothesis HB : (0 < B)%nat.

Fixpoint absorb_n (n : nat) (s : St) (l : list Z) : St :=
  match n with
  | O => s
  | S n => absorb_n n (compress s (take B l)) (drop B l)
  end.

(** All the full blocks of [l], in order, and the bytes left over. *)
Definition absorb (s : St) (l : list Z) : St := absorb_n (length l / B) s l.
Definition leftover (l : list Z) : list Z := drop (length l / B * B) l.

Lemma leftover_length l : length (leftover l) = (length l mod B)%nat.
Proof.
  clear HB. unfold leftover. rewrite length_drop.
  pose proof (Nat.div_mod_eq (length l) B). lia.
Qed.

Lemma absorb_short s l : (length l < B)%nat -> absorb s l = s /\ leftover l = l.
Proof. clear HB. intros H. unfold absorb, leftover. by rewrite Nat.div_small by done. Qed.

Lemma absorb_step s blk l : length blk = B ->
  absorb s (blk ++ l) = absorb (compress s blk) l /\ leftover (blk ++ l) = leftover l.
Proof.
  intros H. unfold absorb, leftover. rewrite length_app, H.
  replace (B + length l)%nat with (length l + 1 * B)%nat by lia.
  rewrite Nat.div_add by lia. rewrite Nat.add_1_r. cbn [absorb_n].
  rewrite take_app_length', drop_app_length' by done. split; [done|].
  rewrite Nat.mul_succ_l, Nat.add_comm, <- drop_drop, drop_app_length' by done. done.
Qed.

Lemma absorb_app s l l' :
  absorb s (l ++ l') = absorb (absorb s l) (leftover l ++ l') /\
  leftover (l ++ l') = leftover (leftover l ++ l').
Proof.
  revert s. induction l as [l IH] using (induction_ltof1 _ (@length Z)). intros s.
  destruct (decide (length l < B)%nat) as [Hlt|Hge].
  { destruct (absorb_short s l Hlt) as [-> ->]. done. }
  rewrite <- (take_drop B l).
  assert (Hlen : length (take B l) = B) by (rewrite length_take; lia).
  rewrite <- app_assoc.
  destruct (absorb_step s (take B l) (drop B l ++ l') Hlen) as [-> ->].
  destruct (absorb_step s (take B l) (drop B l) Hlen) as [-> ->].
  apply IH. unfold ltof. rewrite length_drop. lia.
Qed.

(** Two compression functions that agree on invariant states and on blocks
    of bytes absorb the same way. *)
Lemma absorb_inv (I : St -> Prop) s l :
  (forall s blk, I s -> length blk = B -> bytes blk -> I (compress s blk)) ->
  I s -> bytes l -> I (absorb s l).
Proof.
  intros Hc. revert s. induction l as [l IH] using (induction_ltof1 _ (@length Z)).
  intros s Hs Hl. destruct (decide (length l < B)%nat) as [Hlt|Hge].
  { by rewrite (proj1 (absorb_short s l Hlt)). }
  rewrite <- (take_drop B l).
  assert (Hlen : length (take B l) = B) by (rewrite length_take; lia).
  rewrite (proj1 (absorb_step s (take B l) (drop B l) Hlen)).
  apply IH; [unfold ltof; rewrite length_drop; lia| |by apply Forall_drop].
  apply Hc; [done|done|by apply Forall_take].
Qed.
End Absorb.

Lemma absorb_ext {St} B (c c' : St -> list Z -> St) (I : St -> Prop) s l :
  (0 < B)%nat ->
  (forall s blk, I s -> length blk = B -> bytes blk -> I (c s blk) /\ c s blk = c' s blk) ->
  I s -> bytes l -> absorb B c s l = absorb B c' s l.
Proof.
  intros HB Hc. revert s. induction l as [l IH] using (induction_ltof1 _ (@length Z)).
  intros s Hs Hl. destruct (decide (length l < B)%nat) as [Hlt|Hge].
  { by rewrite (proj1 (absorb_short B c s l Hlt)), (proj1 (absorb_short B c' s l Hlt)). }
  rewrite <- (take_drop B l).
  assert (Hlen : length (take B l) = B) by (rewrite length_take; lia).
  rewrite (proj1 (absorb_step B c HB s (take B l) (drop B l) Hlen)).
  rewrite (proj1 (absorb_step B c' HB s (take B l) (drop B l) Hlen)).
  destruct (Hc s (take B l)) as [H1 <-]; [done|done|by apply Forall_take|].
  apply IH; [unfold ltof; rewrite length_drop; lia|done|by apply Forall_drop].
Qed.

(** ** The interface *)

(** Number of zero bytes between the 0x80 byte and the [lenlen]-byte length
    field that brings a message of [n] bytes to a multiple of [B]. *)
Definition pad_zeros (B lenlen n : nat) : nat :=
  ((B - (n + 1 + lenlen) mod B) mod B)%nat.

(** The padded message: the message, 0x80, zeros, the bit length. *)
Definition md_pad (B lenlen : nat) (enc : Z -> list Z) (msg : list Z) : list Z :=
  msg ++ [128] ++ replicate (pad_zeros B lenlen (length msg)) 0 ++
  enc (8 * Z.of_nat (length msg)).

Lemma md_pad_bytes B lenlen enc m :
  bytes m -> (forall x, bytes (enc x)) -> bytes (md_pad B lenlen enc m).
Proof.
  intros Hm He. unfold md_pad. rewrite !Forall_app. split_and!; [done| |..|done].
  - repeat constructor; lia.
  - apply Forall_replicate. unfold word. lia.
Qed.

Class BlockHash := {
  bh_ctx : Type;                          (* the C context struct *)
  bh_state : Type;                        (* the chaining value *)
  bh_block : nat;                         (* block length in bytes *)
  bh_lenlen : nat;                        (* bytes of the length field *)
  bh_enc : Z -> list Z;                   (* encoding of the bit length *)
  bh_iv : bh_state;                       (* initial chaining value *)
  bh_compress : bh_state -> list Z -> bh_state;  (* reference compression *)
  bh_output : bh_state -> list Z;         (* chaining value to digest *)
  bh_limit : Z;                           (* messages are shorter than this *)
  bh_update : bh_ctx -> list Z -> bh_ctx; (* the code's Update *)
  bh_final : bh_ctx -> list Z;            (* the digest the code's Final writes *)
  bh_repr : bh_ctx -> list Z -> Prop;     (* the context has absorbed a message *)
  bh_update_ok : forall c m d,
    bytes d -> Z.of_nat (length (m ++ d)) < bh_limit ->
    bh_repr c m -> bh_repr (bh_update c d) (m ++ d);
  bh_final_ok : forall c m,
    bh_repr c m -> Z.of_nat (length m) < bh_limit ->
    bh_final c =
      bh_output (absorb bh_block bh_compress bh_iv (md_pad bh_block bh_lenlen bh_enc m));
}.

(** The digest the standard prescribes for a message. *)
Definition md_digest `{H : BlockHash} (msg : list Z) : list Z :=
  bh_output (absorb bh_block bh_compress bh_iv (md_pad bh_block bh_lenlen bh_enc msg)).

(** Feeding the chunks one Update at a time gives the digest of their
    concatenation. *)
Lemma bh_stream `{H : BlockHash} c m chunks :
  Forall (fun d => bytes d) chunks -> bh_repr c m ->
  Z.of_nat (length (m ++ concat chunks)) < bh_limit ->
  bh_final (foldl bh_update c chunks) = md_digest (m ++ concat chunks).
Proof.
  intros Hb. revert c m. induction Hb as [|d ds Hd _ IH]; intros c m Hc Hlen; simpl in *.
  - rewrite app_nil_r in *. by apply bh_final_ok.
  - rewrite app_assoc in *. apply IH; [|done].
    apply bh_update_ok; [done| |done]. rewrite !length_app in *. lia.
Qed.

(** ** Buffers: the representation relation the implementations share *)

(** A context with chaining value [st], buffer [buf] has absorbed [m]. *)
Record absorbed {St} (B : nat) (compress : St -> list Z -> St) (iv st : St)
    (buf m : list Z) : Prop := {
  abs_state : st = absorb B compress iv m;
  abs_buf : take (length m mod B) buf = leftover B m;
  abs_len : length buf = B;
  abs_bytes : bytes m;
}.

Section Buffer.
Context {St : Type} (B : nat) (compress : St -> list Z -> St) (iv : St).
Hypothesis HB : (0 < B)%nat.

Lemma absorbed_init buf : length buf = B -> absorbed B compress iv iv buf [].
Proof.
  intros H. destruct (absorb_short B compress iv [] HB) as [E1 E2].
  split; [by rewrite E1| |done|by constructor].
  rewrite E2. simpl length. by rewrite Nat.Div0.mod_0_l.
Qed.

(** The data does not fill the buffer. *)
Lemma absorbed_partial st buf m d :
  absorbed B compress iv st buf m -> bytes d ->
  (length m mod B + length d < B)%nat ->
  absorbed B compress iv st (splice buf (length m mod B) d) (m ++ d).
Proof.
  intros [Hs Hb Hl Hm] Hd Hlt.
  pose proof (leftover_length B m) as Hll.
  pose proof (Nat.mod_upper_bound (length m) B ltac:(lia)) as Hmm.
  assert (Hshort : (length (leftover B m ++ d) < B)%nat) by (rewrite length_app; lia).
  destruct (absorb_app B compress HB iv m d) as [E1 E2].
  destruct (absorb_short B compress (absorb B compress iv m) _ Hshort) as [E3 E4].
  rewrite E3 in E1. rewrite E4 in E2.
  split; [congruence| | |by apply Forall_app].
  - rewrite E2, <- Hb, length_app.
    replace ((length m + length d) mod B)%nat with (length m mod B + length d)%nat.
    + rewrite (splice_take buf _ d) by lia. done.
    + rewrite <- Nat.Div0.add_mod_idemp_l, (Nat.mod_small (_ + _)); [done|lia].
  - rewrite splice_length; [done|]. lia.
Qed.

(** The data fills the buffer: one block, then the full blocks of the rest,
    then the remainder is kept. *)
Lemma absorbed_full st buf m d1 d2 :
  absorbed B compress iv st buf m -> bytes (d1 ++ d2) ->
  (length m mod B + length d1 = B)%nat ->
  absorbed B compress iv
    (absorb B compress (compress st (splice buf (length m mod B) d1)) d2)
    (splice (splice buf (length m mod B) d1) 0 (leftover B d2)) (m ++ d1 ++ d2).
Proof.
  intros [Hs Hb Hl Hm] Hd Hlen.
  destruct (absorb_app B compress HB iv m (d1 ++ d2)) as [E1 E2].
  rewrite (app_assoc (leftover B m)) in E1, E2.
  assert (Hblk : length (leftover B m ++ d1) = B).
  { rewrite length_app, leftover_length. lia. }
  destruct (absorb_step B compress HB (absorb B compress iv m) _ d2 Hblk) as [E3 E4].
  rewrite E3 in E1. rewrite E4 in E2.
  assert (Hsp : splice buf (length m mod B) d1 = leftover B m ++ d1).
  { rewrite splice_full by lia. by rewrite Hb. }
  split.
  - rewrite E1, Hsp. congruence.
  - rewrite E2. unfold splice at 1. simpl.
    rewrite !length_app. replace ((length m + (length d1 + length d2)) mod B)%nat
      with (length d2 mod B)%nat.
    + rewrite take_app_length'; [done|]. by rewrite leftover_length.
    + rewrite Nat.add_assoc, <- (Nat.Div0.add_mod_idemp_l _ (length d2)).
      rewrite <- (Nat.Div0.add_mod_idemp_l (length m)), Hlen, Nat.Div0.mod_same. done.
  - rewrite splice_length; rewrite Hsp, Hblk; [done|].
    rewrite leftover_length. pose proof (Nat.mod_upper_bound (length d2) B). lia.
  - by apply Forall_app.
Qed.

(** The same with the data cut at [k], as the code computes it. *)
Lemma absorbed_fill st buf m d k :
  absorbed B compress iv st buf m -> bytes d ->
  (length m mod B + k = B)%nat -> (k <= length d)%nat ->
  absorbed B compress iv
    (absorb B compress (compress st (splice buf (length m mod B) (take k d))) (drop k d))
    (splice (splice buf (length m mod B) (take k d)) 0 (leftover B (drop k d))) (m ++ d).
Proof.
  intros Ha Hd Hk Hlen. rewrite <- (take_drop k d) at 5.
  apply absorbed_full; [done|by rewrite take_drop|rewrite length_take; lia].
Qed.

(** The same when the buffer is empty. *)
Lemma absorbed_aligned st buf m d :
  absorbed B compress iv st buf m -> bytes d -> (length m mod B = 0)%nat ->
  absorbed B compress iv (absorb B compress st d) (splice buf 0 (leftover B d)) (m ++ d).
Proof.
  intros [Hs Hb Hl Hm] Hd Hlen. rewrite Hlen in Hb. simpl in Hb.
  destruct (absorb_app B compress HB iv m d) as [E1 E2].
  rewrite <- Hb in E1, E2. simpl in E1, E2.
  split; [congruence| | |by apply Forall_app].
  - rewrite E2. unfold splice. simpl. rewrite length_app, Nat.Div0.add_mod, Hlen, Nat.add_0_l.
    rewrite Nat.Div0.mod_mod, take_app_length'; [done|by rewrite leftover_length].
  - rewrite splice_length; [done|].
    rewrite leftover_length. pose proof (Nat.mod_upper_bound (length d) B). lia.
Qed.

Lemma absorbed_buffer_irrel st buf buf' m :
  absorbed B compress iv st buf m -> length buf' = B ->
  take (length m mod B) buf' = take (length m mod B) buf ->
  absorbed B compress iv st buf' m.
Proof. intros [????] ? E. split; try done. by rewrite E. Qed.
End Buffer.

(** Loop over full blocks of the input, as the Update functions write it: the
    state together with the rest of the input. *)
Lemma while_absorb {St} B (compress : St -> list Z -> St) fuel s l :
  (0 < B)%nat -> (length l <= fuel)%nat ->
  while_ fuel (fun '(_, l) => (B <=? length l)%nat)
    (fun '(s, l) => (compress s (take B l), drop B l)) (s, l) =
  (absorb B compress s l, leftover B l).
Proof.
  intros HB. revert s l. induction fuel as [|f IH]; intros s l Hl; simpl.
  - destruct (absorb_short B compress s l ltac:(lia)) as [-> ->]. done.
  - destruct (Nat.leb_spec B (length l)) as [Hge|Hlt].
    + rewrite IH by (rewrite length_drop; lia).
      assert (Hlen : length (take B l) = B) by (rewrite length_take; lia).
      destruct (absorb_step B compress HB s _ (drop B l) Hlen) as [E1 E2].
      rewrite take_drop in E1, E2. by rewrite E1, E2.
    + destruct (absorb_short B compress s l Hlt) as [-> ->]. done.
Qed.

(** The same loop over an index into the input: [c] is the loop guard as the
    source writes it, [i + B <= len] in each of its forms. *)
Lemma while_absorb_idx {St} B (compress : St -> list Z -> St) (c : Z -> bool) fuel s data i :
  (0 < B)%nat -> (length data - Z.to_nat i <= fuel)%nat -> 0 <= i <= Z.of_nat (length data) ->
  (forall i, 0 <= i <= Z.of_nat (length data) ->
     c i = (i + Z.of_nat B <=? Z.of_nat (length data))) ->
  exists i', while_ fuel (fun '(_, i) => c i)
    (fun '(s, i) => (compress s (take B (drop (Z.to_nat i) data)), i + Z.of_nat B)) (s, i) =
    (absorb B compress s (drop (Z.to_nat i) data), i') /\
    i <= i' <= Z.of_nat (length data) /\
    drop (Z.to_nat i') data = leftover B (drop (Z.to_nat i) data).
Proof.
  intros HB. revert s i. induction fuel as [|f IH]; intros s i Hf Hi Hc; simpl.
  - destruct (absorb_short B compress s (drop (Z.to_nat i) data)) as [-> ->];
      [rewrite length_drop; lia|]. exists i. split_and!; [done|lia|lia|done].
  - rewrite Hc by done. destruct (Z.leb_spec (i + Z.of_nat B) (Z.of_nat (length data))) as [Hle|Hgt].
    + destruct (IH (compress s (take B (drop (Z.to_nat i) data))) (i + Z.of_nat B))
        as (i' & -> & Hi' & E3); [lia|lia|done|].
      exists i'. assert (Hlen : length (take B (drop (Z.to_nat i) data)) = B)
        by (rewrite length_take, length_drop; lia).
      destruct (absorb_step B compress HB s _ (drop B (drop (Z.to_nat i) data)) Hlen) as [E1 E2].
      rewrite take_drop, drop_drop in E1, E2.
      replace (Z.to_nat (i + Z.of_nat B)) with (Z.to_nat i + B)%nat in * by lia.
      rewrite E1, E2. split_and!; [done|lia|lia|done].
    + destruct (absorb_short B compress s (drop (Z.to_nat i) data)) as [-> ->];
        [rewrite length_drop; lia|]. exists i. split_and!; [done|lia|lia|done].
Qed.

(** ** Message schedules

    [sched g ws n] extends the word list [ws] by [n] words, word [t] being
    [g] of the words before it. *)
Section Schedule.
Variable g : (nat -> Z) -> nat -> Z.
Hypothesis g_local : forall f f' t, (16 <= t)%nat ->
  (forall k, (k < t)%nat -> f k = f' k) -> g f t = g f' t.

Definition extend (ws : list Z) : list Z := ws ++ [g (fun k => nth k ws 0) (length ws)].
Definition sched (ws : list Z) (n : nat) : list Z := Nat.iter n extend ws.

Lemma sched_length ws n : length (sched ws n) = (length ws + n)%nat.
Proof.
  clear g_local. unfold sched. induction n; simpl; [lia|].
  unfold extend at 1. rewrite length_app, IHn. simpl. lia.
Qed.

Lemma sched_nth_old ws n k : (k < length ws)%nat -> nth k (sched ws n) 0 = nth k ws 0.
Proof.
  clear g_local. intros Hk. induction n; [done|]. simpl. unfold extend at 1.
  rewrite app_nth1 by (fold (sched ws n); rewrite sched_length; lia). done.
Qed.

Lemma sched_nth_mono ws n k t : (t < length ws + n)%nat ->
  nth t (sched ws (n + k)) 0 = nth t (sched ws n) 0.
Proof.
  clear g_local. intros Ht. unfold sched. rewrite Nat.add_comm, Nat.iter_add.
  fold (sched ws n). fold (sched (sched ws n) k). apply sched_nth_old.
  rewrite sched_length. done.
Qed.

Lemma sched_nth_new ws n t : (16 <= length ws <= t)%nat -> (t < length ws + n)%nat ->
  nth t (sched ws n) 0 = g (fun k => nth k (sched ws n) 0) t.
Proof.
  intros Ht Htn. set (m := (t - length ws)%nat).
  assert (Hm : forall k, (k < length ws + S m)%nat ->
      nth k (sched ws n) 0 = nth k (sched ws (S m)) 0).
  { intros k Hk. replace n with (S m + (n - S m))%nat by lia. by apply sched_nth_mono. }
  assert (Hl : length (sched ws m) = t) by (rewrite sched_length; lia).
  rewrite Hm by lia. change (sched ws (S m)) with (extend (sched ws m)). unfold extend.
  rewrite app_nth2, Hl, Nat.sub_diag by lia. cbn [nth].
  apply g_local; [lia|]. intros k Hk. rewrite Hm by lia.
  change (sched ws (S m)) with (extend (sched ws m)). unfold extend.
  rewrite app_nth1 by lia. done.
Qed.
End Schedule.

(** Writing the remaining input, guarded by the input being non-empty. *)
Lemma splice_guard buf off (d : list Z) : (off <= length buf)%nat ->
  (if negb (Z.of_nat (length d) =? 0) then splice buf off d else buf) = splice buf off d.
Proof.
  intros. destruct d as [|x d]; [|done]. simpl. unfold splice. simpl.
  by rewrite Nat.add_0_r, take_drop.
Qed.

(** Number of zero bytes in terms of the bytes already in the buffer. *)
Lemma pad_zeros_mod B lenlen n : (lenlen < B)%nat ->
  pad_zeros B lenlen n =
    (if n mod B <? B - lenlen then B - lenlen - 1 - n mod B
     else B + B - lenlen - 1 - n mod B)%nat.
Proof.
  intros HB. unfold pad_zeros.
  pose proof (Nat.mod_upper_bound n B ltac:(lia)) as Hh.
  replace (n + 1 + lenlen)%nat with (n + (1 + lenlen))%nat by lia.
  rewrite <- Nat.Div0.add_mod_idemp_l. generalize dependent (n mod B)%nat. intros h Hh.
  destruct (Nat.ltb_spec h (B - lenlen)).
  - destruct (decide (h + (1 + lenlen) = B)%nat) as [E|].
    + rewrite E, Nat.Div0.mod_same, Nat.sub_0_r, Nat.Div0.mod_same. lia.
    + rewrite (Nat.mod_small (h + _)) by lia. rewrite Nat.mod_small by lia. lia.
  - replace (h + (1 + lenlen))%nat with (h + (1 + lenlen) - B + 1 * B)%nat by lia.
    rewrite Nat.Div0.mod_add, (Nat.mod_small (_ - B)) by lia.
    rewrite Nat.mod_small by lia. lia.
Qed.

(** The byte position in the block, from a 64-bit count of bits. *)
Lemma count_have n B k : B = 2 ^ k -> 0 <= k <= 61 -> 0 <= n ->
  (u64 (8 * n) ≫ 3) .& (B - 1) = n mod B.
Proof.
  intros -> Hk Hn. replace (2 ^ k - 1) with (Z.ones k) by (rewrite Z.ones_equiv; lia).
  rewrite Z.land_ones by lia. rewrite Z.shiftr_div_pow2 by lia.
  unfold u64, wrap. change (2 ^ 64) with (2 ^ 3 * 2 ^ 61). change (8 * n) with (2 ^ 3 * n).
  rewrite Z.mul_mod_distr_l by (try apply Z.pow_nonzero; lia).
  rewrite (Z.mul_comm (2 ^ 3)), Z.div_mul by lia.
  replace 61 with (k + (61 - k)) by lia. rewrite Z.pow_add_r by lia.
  assert (0 < 2 ^ k) by (apply Z.pow_pos_nonneg; lia).
  assert (0 < 2 ^ (61 - k)) by (apply Z.pow_pos_nonneg; lia).
  rewrite Z.rem_mul_r, (Z.mul_comm (2 ^ k)), Z.mod_add, Z.mod_mod by lia. done.
Qed.

Lemma count_add c n d : c = u64 (8 * Z.of_nat n) ->
  add64 c (shl64 (Z.of_nat d) 3) = u64 (8 * Z.of_nat (n + d)).
Proof.
  intros ->. unfold add64, shl64, u64. rewrite wrap_add_l, wrap_add_r.
  rewrite Z.shiftl_mul_pow2 by lia. f_equal. change (2 ^ 3) with 8. lia.
Qed.

(** The padded message is a whole number of blocks. *)
Lemma pad_zeros_spec B lenlen n : (0 < B)%nat ->
  ((n + 1 + pad_zeros B lenlen n + lenlen) mod B = 0)%nat.
Proof.
  intros HB. unfold pad_zeros.
  replace (n + 1 + _ + lenlen)%nat with
    ((n + 1 + lenlen) + (B - (n + 1 + lenlen) mod B) mod B)%nat by lia.
  rewrite Nat.Div0.add_mod_idemp_r.
  pose proof (Nat.div_mod_eq (n + 1 + lenlen) B).
  pose proof (Nat.mod_upper_bound (n + 1 + lenlen) B).
  replace (n + 1 + lenlen + (B - (n + 1 + lenlen) mod B))%nat
    with ((1 + (n + 1 + lenlen) / B) * B)%nat by lia.
  apply Nat.Div0.mod_mul.
Qed.
