(* ===== verification/Md5.v ===== *)
(** * Md5: the MD5 message digest of crypt/hash_md5.c.

    The unrolled transform, the incremental Update/Pad/Final, the RFC 1321
    reference they implement, and the instance of [HashSpec.BlockHash]. *)

From S2P Require Import Prelude HashSpec.

Definition MD5_BLOCK_LENGTH : nat := 64.

(** [struct MD5Context]: chaining words, bit count, partial block. *)
Record MD5_CTX := mkMD5 { state : list Z; count : Z; buffer : list Z }.

Definition F1 (x y z : Z) : Z := z .^ (x .& (y .^ z)).
Definition F2 (x y z : Z) : Z := F1 z x y.
Definition F3 (x y z : Z) : Z := x .^ y .^ z.
Definition F4 (x y z : Z) : Z := y .^ (x .| not32 z).

(** [w += f(x, y, z) + data, w = w<<s | w>>(32-s), w += x]. *)
Definition MD5STEP (f : Z -> Z -> Z -> Z) (w x y z data s : Z) : Z :=
  let w := add32 w (add32 (f x y z) data) in
  let w := rol32 w s in
  add32 w x.

Definition MD5Transform (state block : list Z) : list Z :=
  in_ ::= le_words block;
  a ::= state.[0];
  b ::= state.[1];
  c ::= state.[2];
  d ::= state.[3];
  a ::= MD5STEP F1 a b c d (add32 (in_.[0]) 0xd76aa478) 7;
  d ::= MD5STEP F1 d a b c (add32 (in_.[1]) 0xe8c7b756) 12;
  c ::= MD5STEP F1 c d a b (add32 (in_.[2]) 0x242070db) 17;
  b ::= MD5STEP F1 b c d a (add32 (in_.[3]) 0xc1bdceee) 22;
  a ::= MD5STEP F1 a b c d (add32 (in_.[4]) 0xf57c0faf) 7;
  d ::= MD5STEP F1 d a b c (add32 (in_.[5]) 0x4787c62a) 12;
  c ::= MD5STEP F1 c d a b (add32 (in_.[6]) 0xa8304613) 17;
  b ::= MD5STEP F1 b c d a (add32 (in_.[7]) 0xfd469501) 22;
  a ::= MD5STEP F1 a b c d (add32 (in_.[8]) 0x698098d8) 7;
  d ::= MD5STEP F1 d a b c (add32 (in_.[9]) 0x8b44f7af) 12;
  c ::= MD5STEP F1 c d a b (add32 (in_.[10]) 0xffff5bb1) 17;
  b ::= MD5STEP F1 b c d a (add32 (in_.[11]) 0x895cd7be) 22;
  a ::= MD5STEP F1 a b c d (add32 (in_.[12]) 0x6b901122) 7;
  d ::= MD5STEP F1 d a b c (add32 (in_.[13]) 0xfd987193) 12;
  c ::= MD5STEP F1 c d a b (add32 (in_.[14]) 0xa679438e) 17;
  b ::= MD5STEP F1 b c d a (add32 (in_.[15]) 0x49b40821) 22;
  a ::= MD5STEP F2 a b c d (add32 (in_.[1]) 0xf61e2562) 5;
  d ::= MD5STEP F2 d a b c (add32 (in_.[6]) 0xc040b340) 9;
  c ::= MD5STEP F2 c d a b (add32 (in_.[11]) 0x265e5a51) 14;
  b ::= MD5STEP F2 b c d a (add32 (in_.[0]) 0xe9b6c7aa) 20;
  a ::= MD5STEP F2 a b c d (add32 (in_.[5]) 0xd62f105d) 5;
  d ::= MD5STEP F2 d a b c (add32 (in_.[10]) 0x02441453) 9;
  c ::= MD5STEP F2 c d a b (add32 (in_.[15]) 0xd8a1e681) 14;
  b ::= MD5STEP F2 b c d a (add32 (in_.[4]) 0xe7d3fbc8) 20;
  a ::= MD5STEP F2 a b c d (add32 (in_.[9]) 0x21e1cde6) 5;
  d ::= MD5STEP F2 d a b c (add32 (in_.[14]) 0xc33707d6) 9;
  c ::= MD5STEP F2 c d a b (add32 (in_.[3]) 0xf4d50d87) 14;
  b ::= MD5STEP F2 b c d a (add32 (in_.[8]) 0x455a14ed) 20;
  a ::= MD5STEP F2 a b c d (add32 (in_.[13]) 0xa9e3e905) 5;
  d ::= MD5STEP F2 d a b c (add32 (in_.[2]) 0xfcefa3f8) 9;
  c ::= MD5STEP F2 c d a b (add32 (in_.[7]) 0x676f02d9) 14;
  b ::= MD5STEP F2 b c d a (add32 (in_.[12]) 0x8d2a4c8a) 20;
  a ::= MD5STEP F3 a b c d (add32 (in_.[5]) 0xfffa3942) 4;
  d ::= MD5STEP F3 d a b c (add32 (in_.[8]) 0x8771f681) 11;
  c ::= MD5STEP F3 c d a b (add32 (in_.[11]) 0x6d9d6122) 16;
  b ::= MD5STEP F3 b c d a (add32 (in_.[14]) 0xfde5380c) 23;
  a ::= MD5STEP F3 a b c d (add32 (in_.[1]) 0xa4beea44) 4;
  d ::= MD5STEP F3 d a b c (add32 (in_.[4]) 0x4bdecfa9) 11;
  c ::= MD5STEP F3 c d a b (add32 (in_.[7]) 0xf6bb4b60) 16;
  b ::= MD5STEP F3 b c d a (add32 (in_.[10]) 0xbebfbc70) 23;
  a ::= MD5STEP F3 a b c d (add32 (in_.[13]) 0x289b7ec6) 4;
  d ::= MD5STEP F3 d a b c (add32 (in_.[0]) 0xeaa127fa) 11;
  c ::= MD5STEP F3 c d a b (add32 (in_.[3]) 0xd4ef3085) 16;
  b ::= MD5STEP F3 b c d a (add32 (in_.[6]) 0x04881d05) 23;
  a ::= MD5STEP F3 a b c d (add32 (in_.[9]) 0xd9d4d039) 4;
  d ::= MD5STEP F3 d a b c (add32 (in_.[12]) 0xe6db99e5) 11;
  c ::= MD5STEP F3 c d a b (add32 (in_.[15]) 0x1fa27cf8) 16;
  b ::= MD5STEP F3 b c d a (add32 (in_.[2]) 0xc4ac5665) 23;
  a ::= MD5STEP F4 a b c d (add32 (in_.[0]) 0xf4292244) 6;
  d ::= MD5STEP F4 d a b c (add32 (in_.[7]) 0x432aff97) 10;
  c ::= MD5STEP F4 c d a b (add32 (in_.[14]) 0xab9423a7) 15;
  b ::= MD5STEP F4 b c d a (add32 (in_.[5]) 0xfc93a039) 21;
  a ::= MD5STEP F4 a b c d (add32 (in_.[12]) 0x655b59c3) 6;
  d ::= MD5STEP F4 d a b c (add32 (in_.[3]) 0x8f0ccc92) 10;
  c ::= MD5STEP F4 c d a b (add32 (in_.[10]) 0xffeff47d) 15;
  b ::= MD5STEP F4 b c d a (add32 (in_.[1]) 0x85845dd1) 21;
  a ::= MD5STEP F4 a b c d (add32 (in_.[8]) 0x6fa87e4f) 6;
  d ::= MD5STEP F4 d a b c (add32 (in_.[15]) 0xfe2ce6e0) 10;
  c ::= MD5STEP F4 c d a b (add32 (in_.[6]) 0xa3014314) 15;
  b ::= MD5STEP F4 b c d a (add32 (in_.[13]) 0x4e0811a1) 21;
  a ::= MD5STEP F4 a b c d (add32 (in_.[4]) 0xf7537e82) 6;
  d ::= MD5STEP F4 d a b c (add32 (in_.[11]) 0xbd3af235) 10;
  c ::= MD5STEP F4 c d a b (add32 (in_.[2]) 0x2ad7d2bb) 15;
  b ::= MD5STEP F4 b c d a (add32 (in_.[9]) 0xeb86d391) 21;
  [add32 (state.[0]) a; add32 (state.[1]) b; add32 (state.[2]) c; add32 (state.[3]) d].

Definition PADDING : list Z := 128 :: replicate 63 0.

(** Init leaves the buffer as it was. *)
Definition MD5Init (ctx : MD5_CTX) : MD5_CTX :=
  {| count := 0;
     state := [0x67452301; 0xefcdab89; 0x98badcfe; 0x10325476];
     buffer := buffer ctx |}.

Definition MD5Update (ctx : MD5_CTX) (input : list Z) : MD5_CTX :=
  let len := Z.of_nat (length input) in
  let have := (count ctx ≫ 3) .& 63 in
  let need := 64 - have in
  let count' := add64 (count ctx) (shl64 len 3) in
  let '(st, buf, have, input) :=
    if need <=? len then
      let '(st, buf, have, input) :=
        if negb (have =? 0) then
          let buf := splice (buffer ctx) (Z.to_nat have) (take (Z.to_nat need) input) in
          (MD5Transform (state ctx) buf, buf, 0, drop (Z.to_nat need) input)
        else (state ctx, buffer ctx, have, input) in
      let '(st, input) :=
        while_ (length input)
          (fun '(_, input) => (MD5_BLOCK_LENGTH <=? length input)%nat)
          (fun '(st, input) => (MD5Transform st (take MD5_BLOCK_LENGTH input),
                                drop MD5_BLOCK_LENGTH input))
          (st, input) in
      (st, buf, have, input)
    else (state ctx, buffer ctx, have, input) in
  let buf := if negb (Z.of_nat (length input) =? 0)
             then splice buf (Z.to_nat have) input else buf in
  {| state := st; count := count'; buffer := buf |}.

Definition MD5Pad (ctx : MD5_CTX) : MD5_CTX :=
  let cnt := PUT_64BIT_LE (count ctx) in
  let padlen := 64 - ((count ctx ≫ 3) .& 63) in
  let padlen := if padlen <? 1 + 8 then padlen + 64 else padlen in
  let ctx := MD5Update ctx (take (Z.to_nat (padlen - 8)) PADDING) in
  MD5Update ctx cnt.

(** Final returns the digest and the context [explicit_bzero] leaves. *)
Definition MD5Final (ctx : MD5_CTX) : list Z * MD5_CTX :=
  let ctx := MD5Pad ctx in
  (flat_map (fun i => PUT_32BIT_LE ((state ctx).[i])) [0; 1; 2; 3],
   {| state := replicate 4 0; count := 0; buffer := replicate 64 0 |}).

(** ** The reference: RFC 1321 *)

Module RFC1321.
Definition F (x y z : Z) : Z := (x .& y) .| (not32 x .& z).
Definition G (x y z : Z) : Z := (x .& z) .| (y .& not32 z).
Definition H (x y z : Z) : Z := x .^ y .^ z.
Definition I (x y z : Z) : Z := y .^ (x .| not32 z).

(** T[i] = floor (2^32 * |sin i|), i = 1..64. *)
Definition T : list Z :=
[0xd76aa478; 0xe8c7b756; 0x242070db; 0xc1bdceee;
 0xf57c0faf; 0x4787c62a; 0xa8304613; 0xfd469501;
 0x698098d8; 0x8b44f7af; 0xffff5bb1; 0x895cd7be;
 0x6b901122; 0xfd987193; 0xa679438e; 0x49b40821;
 0xf61e2562; 0xc040b340; 0x265e5a51; 0xe9b6c7aa;
 0xd62f105d; 0x2441453; 0xd8a1e681; 0xe7d3fbc8;
 0x21e1cde6; 0xc33707d6; 0xf4d50d87; 0x455a14ed;
 0xa9e3e905; 0xfcefa3f8; 0x676f02d9; 0x8d2a4c8a;
 0xfffa3942; 0x8771f681; 0x6d9d6122; 0xfde5380c;
 0xa4beea44; 0x4bdecfa9; 0xf6bb4b60; 0xbebfbc70;
 0x289b7ec6; 0xeaa127fa; 0xd4ef3085; 0x4881d05;
 0xd9d4d039; 0xe6db99e5; 0x1fa27cf8; 0xc4ac5665;
 0xf4292244; 0x432aff97; 0xab9423a7; 0xfc93a039;
 0x655b59c3; 0x8f0ccc92; 0xffeff47d; 0x85845dd1;
 0x6fa87e4f; 0xfe2ce6e0; 0xa3014314; 0x4e0811a1;
 0xf7537e82; 0xbd3af235; 0x2ad7d2bb; 0xeb86d391].

(** Round of step [i], its message word and its rotation. *)
Definition fn (i : nat) : Z -> Z -> Z -> Z :=
  match (i / 16)%nat with 0%nat => F | 1%nat => G | 2%nat => H | _ => I end.
Definition k (i : nat) : nat :=
  match (i / 16)%nat with
  | 0%nat => i | 1%nat => (1 + 5 * i) mod 16 | 2%nat => (5 + 3 * i) mod 16
  | _ => (7 * i) mod 16
  end.
Definition s (i : nat) : Z :=
  nth (i mod 4) (nth (i / 16) [[7; 12; 17; 22]; [5; 9; 14; 20]; [4; 11; 16; 23];
                               [6; 10; 15; 21]] []) 0.

(** [a = b + ((a + f(b,c,d) + X[k] + T[i]) <<< s)], then the registers rotate. *)
Definition op (x : list Z) (f : Z -> Z -> Z -> Z) (k : nat) (t s a b c d : Z) : Z :=
  u32 (b + rol32 (u32 (a + f b c d + x.[Z.of_nat k] + t)) s).
Definition step (x : list Z) (st : Z * Z * Z * Z) (i : nat) : Z * Z * Z * Z :=
  let '(a, b, c, d) := st in
  (d, op x (fn i) (k i) (nth i T 0) (s i) a b c d, b, c).

Definition add_state (st : list Z) (r : Z * Z * Z * Z) : list Z :=
  let '(a, b, c, d) := r in
  [u32 (st.[0] + a); u32 (st.[1] + b); u32 (st.[2] + c); u32 (st.[3] + d)].

Definition compress (st block : list Z) : list Z :=
  add_state st
    (foldl (step (le_words block)) (st.[0], st.[1], st.[2], st.[3]) (seq 0 64)).

Definition iv : list Z := [0x67452301; 0xefcdab89; 0x98badcfe; 0x10325476].
Definition output (st : list Z) : list Z := flat_map (le_bytes 4) st.

Definition digest (msg : list Z) : list Z :=
  output (absorb 64 compress iv (md_pad 64 8 (le_bytes 8) msg)).
End RFC1321.

(** ** The transform implements RFC 1321 *)

Lemma F1_F x y z : u32 (F1 x y z) = u32 (RFC1321.F x y z).
Proof. unfold F1, RFC1321.F. zbits. Qed.
Lemma F2_G x y z : u32 (F2 x y z) = u32 (RFC1321.G x y z).
Proof. unfold F2, F1, RFC1321.G. zbits. Qed.
Lemma F3_H x y z : u32 (F3 x y z) = u32 (RFC1321.H x y z).
Proof. done. Qed.
Lemma F4_I x y z : u32 (F4 x y z) = u32 (RFC1321.I x y z).
Proof. done. Qed.

Lemma MD5STEP_op x f g k t s a b c d :
  (forall x y z, u32 (f x y z) = u32 (g x y z)) ->
  MD5STEP f a b c d (add32 (x.[Z.of_nat k]) t) s = RFC1321.op x g k t s a b c d.
Proof.
  intros H. unfold MD5STEP, RFC1321.op, add32.
  rewrite (Z.add_comm (rol32 _ _)). do 3 f_equal.
  unfold u32. rewrite (wrap_add_r 32 (f b c d)), wrap_add_r.
  rewrite <- !Z.add_assoc. apply wrap_add_cong; [done|]. apply wrap_add_cong; [apply H|done].
Qed.

(** One line of the unrolled code against one step of the reference. *)
Ltac md5_line :=
  lazymatch goal with
  | |- assign (MD5STEP ?f ?a ?b ?c ?d (add32 (?x.[?k]) ?t) ?s) ?K =
       RFC1321.add_state ?st (foldl _ _ (?i :: ?l)) =>
      let g := lazymatch f with
               | F1 => constr:(F1_F) | F2 => constr:(F2_G)
               | F3 => constr:(F3_H) | F4 => constr:(F4_I) end in
      let n := eval vm_compute in (Z.to_nat k) in
      let E := fresh "E" in let w := fresh "w" in
      pose proof (MD5STEP_op x _ _ n t s a b c d g) as E;
      change (Z.of_nat n) with k in E;
      lazymatch type of E with
      | ?lhs = ?rhs =>
          rewrite (foldl_cons (RFC1321.step x));
          change (RFC1321.step x (a, b, c, d) i) with (d, rhs, b, c);
          rewrite <- E; clear E;
          apply (assign_gen lhs _ (fun w => RFC1321.add_state st
                   (foldl (RFC1321.step x) (d, w, b, c) l))); intros w
      end
  end.

Lemma MD5Transform_rfc st block : MD5Transform st block = RFC1321.compress st block.
Proof.
  unfold MD5Transform, RFC1321.compress.
  let l := eval cbv in (seq 0 64) in change (seq 0 64) with l.
  do 5 apply assign_elim. generalize (le_words block) as x. intros x.
  do 64 md5_line. reflexivity.
Qed.

(** ** Update, Pad and Final absorb the padded message *)

Definition md5_repr (ctx : MD5_CTX) (m : list Z) : Prop :=
  absorbed 64 MD5Transform RFC1321.iv (state ctx) (buffer ctx) m /\
  count ctx = u64 (8 * Z.of_nat (length m)).

Lemma MD5Init_repr ctx : length (buffer ctx) = 64%nat -> md5_repr (MD5Init ctx) [].
Proof. intros H. split; [|done]. by apply absorbed_init; [lia|]. Qed.

Lemma MD5Update_repr ctx m d : bytes d -> md5_repr ctx m -> md5_repr (MD5Update ctx d) (m ++ d).
Proof.
  intros Hd [Ha Hc]. pose proof (abs_len _ _ _ _ _ _ Ha) as Hl.
  assert (Hhave : (count ctx ≫ 3) .& 63 = Z.of_nat (length m mod 64)).
  { rewrite Hc. rewrite (count_have _ 64 6) by lia. by rewrite Nat2Z.inj_mod. }
  unfold MD5Update. cbv zeta. rewrite Hhave. change MD5_BLOCK_LENGTH with 64%nat.
  set (h := (length m mod 64)%nat) in *.
  assert (Hh : (h < 64)%nat) by (apply Nat.mod_upper_bound; lia).
  assert (Hcnt : forall st buf, absorbed 64 MD5Transform RFC1321.iv st buf (m ++ d) ->
      md5_repr {| state := st; count := add64 (count ctx) (shl64 (Z.of_nat (length d)) 3);
        buffer := buf |} (m ++ d)).
  { intros st buf H. split; [done|]. simpl. rewrite (count_add _ (length m)) by done.
    by rewrite length_app. }
  destruct (Z.leb_spec (64 - Z.of_nat h) (Z.of_nat (length d))) as [Hge|Hlt].
  - destruct (Z.eqb_spec (Z.of_nat h) 0) as [E|E]; cbn [negb].
    + rewrite while_absorb by lia.
      rewrite E, splice_guard by lia. apply Hcnt. apply absorbed_aligned; [lia|done|done|fold h; lia].
    + rewrite while_absorb by lia.
      replace (Z.to_nat (64 - Z.of_nat h)) with (64 - h)%nat by lia.
      rewrite Nat2Z.id, splice_guard by lia. apply Hcnt.
      apply absorbed_fill; [lia|done|done|fold h; lia|lia].
  - rewrite Nat2Z.id, splice_guard by lia. apply Hcnt. apply absorbed_partial; [lia|done|done|fold h; lia].
Qed.

Lemma md5_padding n :
  take (Z.to_nat ((let padlen := 64 - Z.of_nat (n mod 64) in
                   if padlen <? 1 + 8 then padlen + 64 else padlen) - 8)) PADDING =
  [128] ++ replicate (pad_zeros 64 8 n) 0.
Proof.
  rewrite pad_zeros_mod by lia. pose proof (Nat.mod_upper_bound n 64 ltac:(lia)).
  generalize dependent (n mod 64)%nat. intros h Hh. cbv zeta. unfold PADDING.
  change (64 - 8)%nat with 56%nat.
  destruct (Z.ltb_spec (64 - Z.of_nat h) (1 + 8)), (Nat.ltb_spec h 56); try lia.
  - replace (Z.to_nat _) with (S (119 - h)) by lia. rewrite firstn_cons, take_replicate.
    simpl app. do 2 f_equal. lia.
  - replace (Z.to_nat _) with (S (55 - h)) by lia. rewrite firstn_cons, take_replicate.
    simpl app. do 2 f_equal. lia.
Qed.

Lemma MD5Pad_state ctx m : md5_repr ctx m ->
  state (MD5Pad ctx) = absorb 64 MD5Transform RFC1321.iv (md_pad 64 8 (le_bytes 8) m).
Proof.
  intros Hr. pose proof Hr as [Ha Hc]. unfold MD5Pad.
  replace ((count ctx ≫ 3) .& 63) with (Z.of_nat (length m mod 64))
    by (rewrite Hc, (count_have _ 64 6) by lia; by rewrite Nat2Z.inj_mod).
  cbv zeta. rewrite md5_padding, PUT_64BIT_LE_bytes.
  assert (Hz : bytes ([128] ++ replicate (pad_zeros 64 8 (length m)) 0)).
  { apply Forall_app. split; [repeat constructor; lia|].
    apply Forall_replicate. unfold word. lia. }
  pose proof (MD5Update_repr _ _ _ Hz Hr) as H1.
  pose proof (MD5Update_repr _ _ _ (le_bytes_bytes 8 (count ctx)) H1) as [H2 _].
  rewrite (abs_state _ _ _ _ _ _ H2). unfold md_pad. rewrite Hc, <- !app_assoc.
  do 4 f_equal. by apply (le_bytes_mod 8 8). 
Qed.

Lemma MD5Final_rfc ctx m : md5_repr ctx m -> (MD5Final ctx).1 = RFC1321.digest m.
Proof.
  intros Hr. unfold MD5Final. cbn [fst]. rewrite (MD5Pad_state ctx m Hr).
  assert (Hb : bytes (md_pad 64 8 (le_bytes 8) m)).
  { apply md_pad_bytes; [apply Hr|intros; apply le_bytes_bytes]. }
  rewrite (absorb_ext 64 MD5Transform RFC1321.compress (fun _ => True));
    [|lia| |done|done].
  2: { intros. split; [done|apply MD5Transform_rfc]. }
  unfold RFC1321.digest, RFC1321.output.
  assert (Hl : length (absorb 64 RFC1321.compress RFC1321.iv (md_pad 64 8 (le_bytes 8) m)) = 4%nat).
  { apply (absorb_inv 64 _ ltac:(lia) (fun st => length st = 4%nat)); try done. }
  destruct (absorb _ _ _ _) as [|a [|b [|c [|d [|]]]]]; try done.
  cbn [flat_map]. by rewrite !PUT_32BIT_LE_bytes.
Qed.

(** MD5 as a block hash with the RFC 1321 compression function. *)
#[export] Instance md5_hash : BlockHash := {|
  bh_ctx := MD5_CTX; bh_state := list Z; bh_block := 64; bh_lenlen := 8;
  bh_enc := le_bytes 8; bh_iv := RFC1321.iv; bh_compress := RFC1321.compress;
  bh_output := RFC1321.output; bh_limit := 2 ^ 64;
  bh_update := MD5Update; bh_final := fun ctx => (MD5Final ctx).1;
  bh_repr := md5_repr;
  bh_update_ok := fun c m d Hd _ => MD5Update_repr c m d Hd;
  bh_final_ok := fun c m Hr _ => MD5Final_rfc c m Hr;
|}.

(** Conversion unfolds the interface before the code. *)
#[global] Opaque MD5Update MD5Final MD5Transform RFC1321.compress.

(** ** Properties *)

(** Hashing a message incrementally, in chunks of any sizes, writes the
    RFC 1321 digest of the concatenation of the chunks, whatever the buffer
    held before Init. *)
Theorem md5_streaming (ctx : MD5_CTX) (chunks : list (list Z)) :
  length (buffer ctx) = 64%nat -> Forall (fun d => bytes d) chunks ->
  Z.of_nat (length (concat chunks)) < 2 ^ 64 ->
  (MD5Final (foldl MD5Update (MD5Init ctx) chunks)).1 = RFC1321.digest (concat chunks).
Proof.
  intros Hb Hd Hlen.
  pose proof (bh_stream (H := md5_hash) (MD5Init ctx) [] chunks Hd (MD5Init_repr ctx Hb)) as E.
  unfold md_digest in E. cbn [md5_hash bh_final bh_update bh_limit bh_output bh_block
    bh_lenlen bh_enc bh_iv bh_compress app] in E. exact (E Hlen).
Qed.

Lemma md5_streaming_witness :
  (MD5Final (foldl MD5Update (MD5Init (mkMD5 [] 0 (replicate 64 0)))
     [ascii_bytes "message "%string; ascii_bytes "digest"%string])).1 =
  [0xf9; 0x6b; 0x69; 0x7d; 0x7c; 0xb7; 0x93; 0x8d;
   0x52; 0x5a; 0x2f; 0x31; 0xaa; 0xf1; 0x61; 0xd0].
Proof.
  rewrite md5_streaming; [vm_compute; reflexivity|reflexivity|..|vm_compute; reflexivity].
  repeat constructor; vm_compute; congruence.
Defined.
