(* ===== verification/Sha1.v ===== *)
(** * Sha1: the SHA-1 message digest of crypt/hash_sha1.c.

    The unrolled transform over a circular 16-word block, the incremental
    Update/Pad/Final, the FIPS 180 reference they implement, and the instance
    of [HashSpec.BlockHash]. *)

From S2P Require Import Prelude HashSpec.

(** [SHA1_CTX]: chaining words, bit count, partial block. *)
Record SHA1_CTX := mkSHA1 { state : list Z; count : Z; buffer : list Z }.

(** [blk0] byte-swaps a word of the block in place (little-endian host); [blk]
    computes the next schedule word in the circular block. *)
Definition blk0 (l : list Z) (i : Z) : list Z * Z :=
  let x := (rol32 (l.[i]) 24 .& 0xFF00FF00) .| (rol32 (l.[i]) 8 .& 0x00FF00FF) in
  (<[Z.to_nat i := x]> l, x).
Definition blk (l : list Z) (i : Z) : list Z * Z :=
  let x := rol32 (l.[(i + 13) .& 15] .^ l.[(i + 8) .& 15] .^ l.[(i + 2) .& 15]
                  .^ l.[i .& 15]) 1 in
  (<[Z.to_nat (i .& 15) := x]> l, x).

(** The five round macros: they update the block, [z] and [w]. *)
Definition R0 (v w x y z i : Z) (l : list Z) : list Z * Z * Z :=
  let '(l, b) := blk0 l i in
  (l, u32 (z + (((w .& (x .^ y)) .^ y) + b + 0x5A827999 + rol32 v 5)), rol32 w 30).
Definition R1 (v w x y z i : Z) (l : list Z) : list Z * Z * Z :=
  let '(l, b) := blk l i in
  (l, u32 (z + (((w .& (x .^ y)) .^ y) + b + 0x5A827999 + rol32 v 5)), rol32 w 30).
Definition R2 (v w x y z i : Z) (l : list Z) : list Z * Z * Z :=
  let '(l, b) := blk l i in
  (l, u32 (z + ((w .^ x .^ y) + b + 0x6ED9EBA1 + rol32 v 5)), rol32 w 30).
Definition R3 (v w x y z i : Z) (l : list Z) : list Z * Z * Z :=
  let '(l, b) := blk l i in
  (l, u32 (z + ((((w .| x) .& y) .| (w .& x)) + b + 0x8F1BBCDC + rol32 v 5)), rol32 w 30).
Definition R4 (v w x y z i : Z) (l : list Z) : list Z * Z * Z :=
  let '(l, b) := blk l i in
  (l, u32 (z + ((w .^ x .^ y) + b + 0xCA62C1D6 + rol32 v 5)), rol32 w 30).

Definition SHA1Transform (state buffer : list Z) : list Z :=
  let l := le_words buffer in
  a ::= state.[0];
  b ::= state.[1];
  c ::= state.[2];
  d ::= state.[3];
  e ::= state.[4];
  '(l, e, b) ::= R0 a b c d e 0 l;
  '(l, d, a) ::= R0 e a b c d 1 l;
  '(l, c, e) ::= R0 d e a b c 2 l;
  '(l, b, d) ::= R0 c d e a b 3 l;
  '(l, a, c) ::= R0 b c d e a 4 l;
  '(l, e, b) ::= R0 a b c d e 5 l;
  '(l, d, a) ::= R0 e a b c d 6 l;
  '(l, c, e) ::= R0 d e a b c 7 l;
  '(l, b, d) ::= R0 c d e a b 8 l;
  '(l, a, c) ::= R0 b c d e a 9 l;
  '(l, e, b) ::= R0 a b c d e 10 l;
  '(l, d, a) ::= R0 e a b c d 11 l;
  '(l, c, e) ::= R0 d e a b c 12 l;
  '(l, b, d) ::= R0 c d e a b 13 l;
  '(l, a, c) ::= R0 b c d e a 14 l;
  '(l, e, b) ::= R0 a b c d e 15 l;
  '(l, d, a) ::= R1 e a b c d 16 l;
  '(l, c, e) ::= R1 d e a b c 17 l;
  '(l, b, d) ::= R1 c d e a b 18 l;
  '(l, a, c) ::= R1 b c d e a 19 l;
  '(l, e, b) ::= R2 a b c d e 20 l;
  '(l, d, a) ::= R2 e a b c d 21 l;
  '(l, c, e) ::= R2 d e a b c 22 l;
  '(l, b, d) ::= R2 c d e a b 23 l;
  '(l, a, c) ::= R2 b c d e a 24 l;
  '(l, e, b) ::= R2 a b c d e 25 l;
  '(l, d, a) ::= R2 e a b c d 26 l;
  '(l, c, e) ::= R2 d e a b c 27 l;
  '(l, b, d) ::= R2 c d e a b 28 l;
  '(l, a, c) ::= R2 b c d e a 29 l;
  '(l, e, b) ::= R2 a b c d e 30 l;
  '(l, d, a) ::= R2 e a b c d 31 l;
  '(l, c, e) ::= R2 d e a b c 32 l;
  '(l, b, d) ::= R2 c d e a b 33 l;
  '(l, a, c) ::= R2 b c d e a 34 l;
  '(l, e, b) ::= R2 a b c d e 35 l;
  '(l, d, a) ::= R2 e a b c d 36 l;
  '(l, c, e) ::= R2 d e a b c 37 l;
  '(l, b, d) ::= R2 c d e a b 38 l;
  '(l, a, c) ::= R2 b c d e a 39 l;
  '(l, e, b) ::= R3 a b c d e 40 l;
  '(l, d, a) ::= R3 e a b c d 41 l;
  '(l, c, e) ::= R3 d e a b c 42 l;
  '(l, b, d) ::= R3 c d e a b 43 l;
  '(l, a, c) ::= R3 b c d e a 44 l;
  '(l, e, b) ::= R3 a b c d e 45 l;
  '(l, d, a) ::= R3 e a b c d 46 l;
  '(l, c, e) ::= R3 d e a b c 47 l;
  '(l, b, d) ::= R3 c d e a b 48 l;
  '(l, a, c) ::= R3 b c d e a 49 l;
  '(l, e, b) ::= R3 a b c d e 50 l;
  '(l, d, a) ::= R3 e a b c d 51 l;
  '(l, c, e) ::= R3 d e a b c 52 l;
  '(l, b, d) ::= R3 c d e a b 53 l;
  '(l, a, c) ::= R3 b c d e a 54 l;
  '(l, e, b) ::= R3 a b c d e 55 l;
  '(l, d, a) ::= R3 e a b c d 56 l;
  '(l, c, e) ::= R3 d e a b c 57 l;
  '(l, b, d) ::= R3 c d e a b 58 l;
  '(l, a, c) ::= R3 b c d e a 59 l;
  '(l, e, b) ::= R4 a b c d e 60 l;
  '(l, d, a) ::= R4 e a b c d 61 l;
  '(l, c, e) ::= R4 d e a b c 62 l;
  '(l, b, d) ::= R4 c d e a b 63 l;
  '(l, a, c) ::= R4 b c d e a 64 l;
  '(l, e, b) ::= R4 a b c d e 65 l;
  '(l, d, a) ::= R4 e a b c d 66 l;
  '(l, c, e) ::= R4 d e a b c 67 l;
  '(l, b, d) ::= R4 c d e a b 68 l;
  '(l, a, c) ::= R4 b c d e a 69 l;
  '(l, e, b) ::= R4 a b c d e 70 l;
  '(l, d, a) ::= R4 e a b c d 71 l;
  '(l, c, e) ::= R4 d e a b c 72 l;
  '(l, b, d) ::= R4 c d e a b 73 l;
  '(l, a, c) ::= R4 b c d e a 74 l;
  '(l, e, b) ::= R4 a b c d e 75 l;
  '(l, d, a) ::= R4 e a b c d 76 l;
  '(l, c, e) ::= R4 d e a b c 77 l;
  '(l, b, d) ::= R4 c d e a b 78 l;
  '(l, a, c) ::= R4 b c d e a 79 l;
  [add32 (state.[0]) a; add32 (state.[1]) b; add32 (state.[2]) c;
   add32 (state.[3]) d; add32 (state.[4]) e].

Definition SHA1Init (ctx : SHA1_CTX) : SHA1_CTX :=
  {| count := 0;
     state := [0x67452301; 0xEFCDAB89; 0x98BADCFE; 0x10325476; 0xC3D2E1F0];
     buffer := buffer ctx |}.

Definition SHA1Update (ctx : SHA1_CTX) (data : list Z) : SHA1_CTX :=
  let len := Z.of_nat (length data) in
  let j := (count ctx ≫ 3) .& 63 in
  let count' := add64 (count ctx) (shl64 len 3) in
  let '(st, buf, i, j) :=
    if u64 (j + len) >? 63 then
      let i := 64 - j in
      let buf := splice (buffer ctx) (Z.to_nat j) (take (Z.to_nat i) data) in
      let st := SHA1Transform (state ctx) buf in
      let '(st, i) :=
        while_ (length data) (fun '(_, i) => u64 (i + 63) <? len)
          (fun '(st, i) => (SHA1Transform st (take 64 (drop (Z.to_nat i) data)), i + 64))
          (st, i) in
      (st, buf, i, 0)
    else (state ctx, buffer ctx, 0, j) in
  {| state := st; count := count';
     buffer := splice buf (Z.to_nat j) (take (Z.to_nat (len - i)) (drop (Z.to_nat i) data)) |}.

Definition SHA1Pad (ctx : SHA1_CTX) : SHA1_CTX :=
  let finalcount :=
    map (fun i => u8 ((count ctx ≫ ((7 - (i .& 7)) * 8)) .& 255)) [0; 1; 2; 3; 4; 5; 6; 7] in
  let ctx := SHA1Update ctx [128] in
  let ctx := while_ 64 (fun ctx => negb (count ctx .& 504 =? 448))
               (fun ctx => SHA1Update ctx [0]) ctx in
  SHA1Update ctx finalcount.

Definition SHA1Final (ctx : SHA1_CTX) : list Z * SHA1_CTX :=
  let ctx := SHA1Pad ctx in
  (map (fun i => u8 (((state ctx).[i ≫ 2] ≫ ((3 - (i .& 3)) * 8)) .& 255)) (seqZ 0 20),
   {| state := replicate 5 0; count := 0; buffer := replicate 64 0 |}).

(** ** The reference: FIPS 180-4, section 6.1 *)

Module FIPS.
Definition Ch (x y z : Z) : Z := (x .& y) .^ (not32 x .& z).
Definition Parity (x y z : Z) : Z := x .^ y .^ z.
Definition Maj (x y z : Z) : Z := (x .& y) .^ (x .& z) .^ (y .& z).
Definition f (t : nat) : Z -> Z -> Z -> Z :=
  match (t / 20)%nat with 0%nat => Ch | 1%nat => Parity | 2%nat => Maj | _ => Parity end.
Definition K (t : nat) : Z :=
  match (t / 20)%nat with
  | 0%nat => 0x5A827999 | 1%nat => 0x6ED9EBA1 | 2%nat => 0x8F1BBCDC | _ => 0xCA62C1D6
  end.

(** Message schedule: 16 big-endian words, then
    W_t = ROTL1 (W_(t-3) ^ W_(t-8) ^ W_(t-14) ^ W_(t-16)). *)
Definition next (W : nat -> Z) (t : nat) : Z :=
  rol32 (W (t - 3)%nat .^ W (t - 8)%nat .^ W (t - 14)%nat .^ W (t - 16)%nat) 1.
Definition W (block : list Z) (t : nat) : Z :=
  nth t (sched next (be_words block) 64) 0.

Definition op (f : Z -> Z -> Z -> Z) (k w a b c d e : Z) : Z :=
  u32 (rol32 a 5 + f b c d + e + k + w).
Definition step (W : nat -> Z) (st : Z * Z * Z * Z * Z) (t : nat) : Z * Z * Z * Z * Z :=
  let '(a, b, c, d, e) := st in
  (op (f t) (K t) (W t) a b c d e, a, rol32 b 30, c, d).

Definition add_state (st : list Z) (r : Z * Z * Z * Z * Z) : list Z :=
  let '(a, b, c, d, e) := r in
  [u32 (st.[0] + a); u32 (st.[1] + b); u32 (st.[2] + c); u32 (st.[3] + d); u32 (st.[4] + e)].
Definition compress (st block : list Z) : list Z :=
  add_state st (foldl (step (W block)) (st.[0], st.[1], st.[2], st.[3], st.[4]) (seq 0 80)).

Definition iv : list Z := [0x67452301; 0xEFCDAB89; 0x98BADCFE; 0x10325476; 0xC3D2E1F0].
Definition output (st : list Z) : list Z := flat_map (be_bytes 4) st.
Definition digest (msg : list Z) : list Z :=
  output (absorb 64 compress iv (md_pad 64 8 (be_bytes 8) msg)).
End FIPS.

(** ** The transform implements FIPS 180 *)

(** The byte swap of [blk0] reads the word big-endian. *)
Definition bswap (x : Z) : Z := (rol32 x 24 .& 0xFF00FF00) .| (rol32 x 8 .& 0x00FF00FF).

Lemma bswap_le_val b0 b1 b2 b3 : bytes [b0; b1; b2; b3] ->
  bswap (le_val [b0; b1; b2; b3]) = be_val [b0; b1; b2; b3].
Proof.
  intros H. rewrite le_val4, be_val4 by done. unfold bswap.
  rewrite !Forall_cons in H. destruct H as (H0 & H1 & H2 & H3 & _).
  bit_cases 32; try lia.
Qed.

(** The schedule words of a block. *)
Lemma sha1_next_local f f' t : (16 <= t)%nat -> (forall k, (k < t)%nat -> f k = f' k) ->
  FIPS.next f t = FIPS.next f' t.
Proof. intros Ht H. unfold FIPS.next. by rewrite !H by lia. Qed.

Lemma sha1_W_new block t : (16 <= t < 80)%nat -> FIPS.W block t = FIPS.next (FIPS.W block) t.
Proof.
  intros Ht. unfold FIPS.W. apply sched_nth_new.
  - intros. by apply sha1_next_local.
  - unfold be_words_n. rewrite length_map, length_seq. lia.
  - unfold be_words_n. rewrite length_map, length_seq. lia.
Qed.

Lemma sha1_W_old block k : (k < 16)%nat -> length block = 64%nat -> bytes block ->
  bswap (nth k (le_words block) 0) = FIPS.W block k.
Proof.
  intros Hk Hl Hb. unfold FIPS.W. rewrite sched_nth_old by done.
  unfold le_words, be_words_n. rewrite !nth_map_seq by done.
  assert (Hx : bytes (take 4 (drop (4 * k) block))) by (by apply Forall_take, Forall_drop).
  assert (Hlen : length (take 4 (drop (4 * k) block)) = 4%nat)
    by (rewrite length_take, length_drop; lia).
  destruct (take _ _) as [|b0 [|b1 [|b2 [|b3 [|]]]]]; try done. by apply bswap_le_val.
Qed.

Lemma op_eq F G r z k w : u32 F = u32 G -> u32 (z + (F + w + k + r)) = u32 (r + G + z + k + w).
Proof.
  intros H. replace (z + (F + w + k + r)) with (F + (z + w + k + r)) by lia.
  replace (r + G + z + k + w) with (G + (z + w + k + r)) by lia. by apply wrap_add_cong.
Qed.

Lemma ch_eq w x y : u32 ((w .& (x .^ y)) .^ y) = u32 (FIPS.Ch w x y).
Proof. unfold FIPS.Ch. zbits. Qed.
Lemma maj_eq w x y : u32 (((w .| x) .& y) .| (w .& x)) = u32 (FIPS.Maj w x y).
Proof. unfold FIPS.Maj. zbits. Qed.

(** Each round macro, given the schedule word it computes. *)
Section Lines.
Variables (W : nat -> Z) (v w x y z i : Z) (l : list Z) (wt : Z).

Lemma R0_line : bswap (l.[i]) = wt ->
  R0 v w x y z i l =
    (<[Z.to_nat i := wt]> l, FIPS.op FIPS.Ch 0x5A827999 wt v w x y z, rol32 w 30).
Proof.
  intros Hx. unfold R0, blk0. fold (bswap (l.[i])). rewrite Hx.
  unfold FIPS.op. by rewrite (op_eq _ _ _ _ _ _ (ch_eq w x y)).
Qed.

Variable t : nat.
Hypothesis Hnew : FIPS.next W t = wt.
Hypothesis (H3 : l.[(i + 13) .& 15] = W (t - 3)%nat) (H8 : l.[(i + 8) .& 15] = W (t - 8)%nat)
  (H14 : l.[(i + 2) .& 15] = W (t - 14)%nat) (H16 : l.[i .& 15] = W (t - 16)%nat).

Lemma blk_line : blk l i = (<[Z.to_nat (i .& 15) := wt]> l, wt).
Proof. unfold blk. rewrite H3, H8, H14, H16. fold (FIPS.next W t). by rewrite Hnew. Qed.

Lemma R1_line : R1 v w x y z i l =
  (<[Z.to_nat (i .& 15) := wt]> l, FIPS.op FIPS.Ch 0x5A827999 wt v w x y z, rol32 w 30).
Proof.
  unfold R1. rewrite blk_line. unfold FIPS.op. by rewrite (op_eq _ _ _ _ _ _ (ch_eq w x y)).
Qed.
Lemma R2_line : R2 v w x y z i l =
  (<[Z.to_nat (i .& 15) := wt]> l, FIPS.op FIPS.Parity 0x6ED9EBA1 wt v w x y z, rol32 w 30).
Proof. unfold R2. rewrite blk_line. unfold FIPS.op. by rewrite (op_eq _ (FIPS.Parity w x y)). Qed.
Lemma R3_line : R3 v w x y z i l =
  (<[Z.to_nat (i .& 15) := wt]> l, FIPS.op FIPS.Maj 0x8F1BBCDC wt v w x y z, rol32 w 30).
Proof.
  unfold R3. rewrite blk_line. unfold FIPS.op. by rewrite (op_eq _ _ _ _ _ _ (maj_eq w x y)).
Qed.
Lemma R4_line : R4 v w x y z i l =
  (<[Z.to_nat (i .& 15) := wt]> l, FIPS.op FIPS.Parity 0xCA62C1D6 wt v w x y z, rol32 w 30).
Proof. unfold R4. rewrite blk_line. unfold FIPS.op. by rewrite (op_eq _ (FIPS.Parity w x y)). Qed.
End Lines.

(** One line of the unrolled code against one step of the reference. *)
Lemma sha1_line_assign {A} (r : list Z * Z * Z) W v w x y z t ts l0 l' F kk (k : _ -> A) (fin : _ -> A) :
  r = (l0, FIPS.op F kk (W t) v w x y z, rol32 w 30) -> l0 = l' ->
  FIPS.f t = F -> FIPS.K t = kk ->
  (forall T B, k (l', T, B) = fin (foldl (FIPS.step W) (T, v, B, x, y) ts)) ->
  assign r k = fin (foldl (FIPS.step W) (v, w, x, y, z) (t :: ts)).
Proof.
  intros -> -> <- <- H. apply assign_elim. rewrite H, foldl_cons. done.
Qed.

Ltac sha1_line H :=
  lazymatch goal with
  | |- assign (?R ?v ?w ?x ?y ?z ?i ?l) ?K =
       FIPS.add_state ?st (foldl (FIPS.step ?W) _ (?t :: ?ts)) =>
      let i' := eval vm_compute in (Z.to_nat (i .& 15)) in
      let l'' := eval cbv in (<[i' := W t]> l) in
      let Ht := constr:(H t ltac:(lia)) in
      let E := lazymatch R with
        | R0 => constr:(R0_line v w x y z i l (W t) Ht)
        | R1 => constr:(R1_line W v w x y z i l (W t) t Ht eq_refl eq_refl eq_refl eq_refl)
        | R2 => constr:(R2_line W v w x y z i l (W t) t Ht eq_refl eq_refl eq_refl eq_refl)
        | R3 => constr:(R3_line W v w x y z i l (W t) t Ht eq_refl eq_refl eq_refl eq_refl)
        | R4 => constr:(R4_line W v w x y z i l (W t) t Ht eq_refl eq_refl eq_refl eq_refl)
        end in
      refine (sha1_line_assign _ W v w x y z t ts _ l'' _ _ K (FIPS.add_state st)
                E eq_refl eq_refl eq_refl _);
      intros ? ?; cbv beta iota
  end.

Lemma SHA1Transform_fips st block : length block = 64%nat -> bytes block ->
  SHA1Transform st block = FIPS.compress st block.
Proof.
  intros Hl Hb. unfold SHA1Transform, FIPS.compress.
  let l := eval cbv in (seq 0 80) in change (seq 0 80) with l.
  do 5 apply assign_elim.
  pose proof (fun k Hk => sha1_W_old block k Hk Hl Hb) as Hold.
  pose proof (fun t Ht => eq_sym (sha1_W_new block t Ht)) as Hnew.
  revert Hold Hnew. generalize (FIPS.W block). intros W Hold Hnew.
  assert (Hx : length (le_words block) = 16%nat) by done.
  generalize dependent (le_words block). intros x Hold Hx.
  do 16 (destruct x as [|? x]; [done|]). destruct x; [|done]. clear Hx Hl Hb block.
  do 16 sha1_line Hold.
  do 64 sha1_line Hnew.
  reflexivity.
Qed.

(** ** Update, Pad and Final absorb the padded message *)

Definition sha1_limit : Z := 2 ^ 61.

Definition sha1_repr (ctx : SHA1_CTX) (m : list Z) : Prop :=
  absorbed 64 SHA1Transform FIPS.iv (state ctx) (buffer ctx) m /\
  count ctx = u64 (8 * Z.of_nat (length m)).

Lemma SHA1Init_repr ctx : length (buffer ctx) = 64%nat -> sha1_repr (SHA1Init ctx) [].
Proof. intros H. split; [|done]. by apply absorbed_init; [lia|]. Qed.

Lemma SHA1Update_repr ctx m d :
  bytes d -> Z.of_nat (length (m ++ d)) < sha1_limit ->
  sha1_repr ctx m -> sha1_repr (SHA1Update ctx d) (m ++ d).
Proof.
  intros Hd Hlim [Ha Hc]. pose proof (abs_len _ _ _ _ _ _ Ha) as Hl.
  unfold sha1_limit in Hlim. rewrite length_app in Hlim.
  assert (Hhave : (count ctx ≫ 3) .& 63 = Z.of_nat (length m mod 64)).
  { rewrite Hc. rewrite (count_have _ 64 6) by lia. by rewrite Nat2Z.inj_mod. }
  unfold SHA1Update. cbv zeta. rewrite Hhave.
  set (h := (length m mod 64)%nat) in *.
  assert (Hh : (h < 64)%nat) by (apply Nat.mod_upper_bound; lia).
  assert (Hcnt : forall st buf, absorbed 64 SHA1Transform FIPS.iv st buf (m ++ d) ->
      sha1_repr {| state := st; count := add64 (count ctx) (shl64 (Z.of_nat (length d)) 3);
        buffer := buf |} (m ++ d)).
  { intros st buf H. split; [done|]. simpl. rewrite (count_add _ (length m)) by done.
    by rewrite length_app. }
  unfold u64. rewrite (wrap_small 64 (Z.of_nat h + Z.of_nat (length d))) by (unfold word; lia).
  destruct (Z.gtb_spec (Z.of_nat h + Z.of_nat (length d)) 63) as [Hge|Hlt].
  - rewrite Nat2Z.id. set (buf := splice _ _ _).
    destruct (while_absorb_idx 64 SHA1Transform
      (fun i => wrap 64 (i + 63) <? Z.of_nat (length d)) (length d)
      (SHA1Transform (state ctx) buf) d (64 - Z.of_nat h)) as (i' & E & Hi' & Hdrop); [lia..| |].
    { intros i Hi. rewrite wrap_small by (unfold word; lia).
      destruct (Z.ltb_spec (i + 63) (Z.of_nat (length d))),
        (Z.leb_spec (i + Z.of_nat 64) (Z.of_nat (length d))); lia. }
    change (Z.of_nat 64) with 64 in E. rewrite E, take_ge, Hdrop by (rewrite length_drop; lia).
    apply Hcnt. subst buf.
    replace (Z.to_nat (64 - Z.of_nat h)) with (64 - h)%nat by lia.
    apply absorbed_fill; [lia|done|done|fold h; lia|lia].
  - rewrite Z.sub_0_r, !Nat2Z.id. rewrite drop_0, firstn_all.
    apply Hcnt. apply absorbed_partial; [lia|done|done|fold h; lia].
Qed.

(** The padding loop appends zero bytes up to 56 modulo 64. *)
Lemma count_and_504 c : c .& 504 = 8 * ((c ≫ 3) .& 63).
Proof.
  rewrite Z.mul_comm. change 8 with (2 ^ 3). rewrite <- Z.shiftl_mul_pow2 by lia.
  change 504 with (63 ≪ 3). apply Z.bits_inj'. intros i Hi.
  bit_specs. destruct (Z.leb_spec 3 i).
  - destruct (Z.leb_spec 0 (i - 3)); [|lia]. replace (i - 3 + 3) with i by lia. done.
  - by rewrite andb_false_r.
Qed.

Lemma sha1_pad_loop k : forall fuel ctx m,
  (k <= fuel)%nat -> ((120 - length m mod 64) mod 64 = k)%nat ->
  Z.of_nat (length m + k) < sha1_limit ->
  sha1_repr ctx m ->
  sha1_repr (while_ fuel (fun ctx => negb (count ctx .& 504 =? 448))
               (fun ctx => SHA1Update ctx [0]) ctx) (m ++ replicate k 0).
Proof.
  assert (Hguard : forall ctx m, sha1_repr ctx m ->
    (count ctx .& 504 =? 448) = (length m mod 64 =? 56)%nat).
  { intros ctx m [_ Hc]. rewrite count_and_504, Hc, (count_have _ 64 6) by lia.
    change 64 with (Z.of_nat 64). rewrite <- Nat2Z.inj_mod.
    destruct (Z.eqb_spec (8 * Z.of_nat (length m mod 64)) 448),
      (Nat.eqb_spec (length m mod 64) 56); lia. }
  induction k as [|k IH]; intros fuel ctx m Hf Hk Hlim Hr;
    pose proof (Nat.mod_upper_bound (length m) 64 ltac:(lia)) as Hh.
  - simpl. rewrite app_nil_r.
    assert (length m mod 64 = 56)%nat.
    { revert Hk. generalize dependent (length m mod 64)%nat. intros h Hh Hk.
      apply Nat.Div0.mod_divides in Hk as [q Hq]. lia. }
    destruct fuel; simpl; [done|]. rewrite (Hguard _ m), H by done. done.
  - destruct fuel as [|fuel]; [lia|]. simpl. rewrite (Hguard _ m) by done.
    destruct (Nat.eqb_spec (length m mod 64) 56) as [E|E].
    { rewrite E in Hk. done. }
    cbn [negb]. change (0 :: replicate k 0) with ([0] ++ replicate k 0).
    rewrite app_assoc.
    apply IH; [lia| | |].
    + rewrite length_app. simpl length. rewrite <- Nat.Div0.add_mod_idemp_l.
      revert Hh Hk E. generalize (length m mod 64)%nat. intros h Hh Hk E.
      destruct (decide (h = 63%nat)) as [->|]; [simpl in *; lia|].
      rewrite (Nat.mod_small (h + 1)) by lia.
      destruct (Nat.lt_ge_cases h 56).
      * replace (120 - h)%nat with (56 - h + 1 * 64)%nat in Hk by lia.
        rewrite Nat.Div0.mod_add, Nat.mod_small in Hk by lia.
        replace (120 - (h + 1))%nat with (56 - (h + 1) + 1 * 64)%nat by lia.
        rewrite Nat.Div0.mod_add, Nat.mod_small by lia. lia.
      * rewrite Nat.mod_small in Hk by lia. rewrite Nat.mod_small by lia. lia.
    + rewrite length_app. simpl. lia.
    + apply SHA1Update_repr; [repeat constructor; lia| |done].
      rewrite length_app. simpl. lia.
Qed.

Lemma finalcount_bytes c :
  map (fun i => u8 ((c ≫ ((7 - (i .& 7)) * 8)) .& 255)) [0; 1; 2; 3; 4; 5; 6; 7] = be_bytes 8 c.
Proof.
  cbn [map]. unfold be_bytes. rewrite <- PUT_64BIT_LE_bytes. unfold PUT_64BIT_LE.
  rewrite !u8_land255. reflexivity.
Qed.

Lemma SHA1Pad_state ctx m : Z.of_nat (length m) + 128 < sha1_limit -> sha1_repr ctx m ->
  state (SHA1Pad ctx) = absorb 64 SHA1Transform FIPS.iv (md_pad 64 8 (be_bytes 8) m).
Proof.
  intros Hlim Hr. pose proof Hr as [Ha Hc]. unfold SHA1Pad. rewrite finalcount_bytes.
  cbv zeta. pose proof (Nat.mod_upper_bound (length m) 64 ltac:(lia)) as Hh.
  assert (Hz : pad_zeros 64 8 (length m) = ((120 - length (m ++ [128]%Z) mod 64) mod 64)%nat).
  { rewrite pad_zeros_mod, length_app by lia. simpl length.
    rewrite <- Nat.Div0.add_mod_idemp_l. revert Hh. generalize (length m mod 64)%nat.
    intros h Hh. change (64 - 8)%nat with 56%nat.
    destruct (decide (h = 63%nat)) as [->|]; [done|]. rewrite (Nat.mod_small (h + 1)) by lia.
    destruct (Nat.ltb_spec h 56).
    - replace (120 - (h + 1))%nat with (55 - h + 1 * 64)%nat by lia.
      rewrite Nat.Div0.mod_add, Nat.mod_small by lia. lia.
    - rewrite Nat.mod_small by lia. lia. }
  assert (Hb : (pad_zeros 64 8 (length m) < 64)%nat).
  { rewrite Hz. apply Nat.mod_upper_bound. lia. }
  assert (H1 : sha1_repr (SHA1Update ctx [128]) (m ++ [128])).
  { apply SHA1Update_repr; [repeat constructor; lia| |done]. rewrite length_app. simpl. lia. }
  apply (sha1_pad_loop _ 64 _ _ (Nat.lt_le_incl _ _ Hb) (eq_sym Hz)) in H1;
    [|rewrite length_app; simpl; lia].
  apply (SHA1Update_repr _ _ (be_bytes 8 (count ctx)) (be_bytes_bytes _ _)) in H1 as [H2 _];
    [|rewrite !length_app, be_bytes_length, length_replicate; simpl; lia].
  rewrite (abs_state _ _ _ _ _ _ H2). unfold md_pad. rewrite Hc, <- !app_assoc.
  do 4 f_equal. unfold be_bytes. f_equal. by apply (le_bytes_mod 8 8).
Qed.

Lemma SHA1Final_fips ctx m : Z.of_nat (length m) + 128 < sha1_limit -> sha1_repr ctx m ->
  (SHA1Final ctx).1 = FIPS.digest m.
Proof.
  intros Hlim Hr. unfold SHA1Final. cbn [fst]. rewrite (SHA1Pad_state ctx m Hlim Hr).
  assert (Hb : bytes (md_pad 64 8 (be_bytes 8) m)).
  { apply md_pad_bytes; [apply Hr|intros; apply be_bytes_bytes]. }
  rewrite (absorb_ext 64 SHA1Transform FIPS.compress (fun _ => True));
    [|lia| |done|done].
  2: { intros. split; [done|by apply SHA1Transform_fips]. }
  unfold FIPS.digest, FIPS.output.
  assert (Hl : length (absorb 64 FIPS.compress FIPS.iv (md_pad 64 8 (be_bytes 8) m)) = 5%nat).
  { apply (absorb_inv 64 _ ltac:(lia) (fun st => length st = 5%nat)); [|done|done].
    intros s blk _ _ _. unfold FIPS.compress. by destruct (foldl _ _ _) as [[[[? ?] ?] ?] ?]. }
  destruct (absorb _ _ _ _) as [|a [|b [|c [|d [|e [|]]]]]]; try done.
  unfold be_bytes. cbn [flat_map]. rewrite <- !PUT_32BIT_LE_bytes. unfold PUT_32BIT_LE.
  change (seqZ 0 20) with (map Z.of_nat (seq 0 20)). cbn [seq map].
  rewrite !u8_land255. reflexivity.
Qed.

(** SHA-1 as a block hash with the FIPS 180 compression function. *)
#[export] Instance sha1_hash : BlockHash := {|
  bh_ctx := SHA1_CTX; bh_state := list Z; bh_block := 64; bh_lenlen := 8;
  bh_enc := be_bytes 8; bh_iv := FIPS.iv; bh_compress := FIPS.compress;
  bh_output := FIPS.output; bh_limit := sha1_limit - 128;
  bh_update := SHA1Update; bh_final := fun ctx => (SHA1Final ctx).1;
  bh_repr := sha1_repr;
  bh_update_ok := fun c m d Hd Hl => SHA1Update_repr c m d Hd ltac:(lia);
  bh_final_ok := fun c m Hr Hl => SHA1Final_fips c m ltac:(lia) Hr;
|}.

(** Conversion unfolds the interface before the code. *)
#[global] Opaque SHA1Update SHA1Final SHA1Transform FIPS.compress.

(** ** Properties *)

(** Hashing a message incrementally, in chunks of any sizes, writes the
    FIPS 180 SHA-1 digest of the concatenation of the chunks. *)
Theorem sha1_streaming (ctx : SHA1_CTX) (chunks : list (list Z)) :
  length (buffer ctx) = 64%nat -> Forall (fun d => bytes d) chunks ->
  Z.of_nat (length (concat chunks)) < 2 ^ 61 - 128 ->
  (SHA1Final (foldl SHA1Update (SHA1Init ctx) chunks)).1 = FIPS.digest (concat chunks).
Proof.
  intros Hb Hd Hlen.
  pose proof (bh_stream (H := sha1_hash) (SHA1Init ctx) [] chunks Hd (SHA1Init_repr ctx Hb)) as E.
  unfold md_digest in E. cbn [sha1_hash bh_final bh_update bh_limit bh_output bh_block
    bh_lenlen bh_enc bh_iv bh_compress app] in E. exact (E Hlen).
Qed.

Lemma sha1_streaming_witness :
  (SHA1Final (foldl SHA1Update (SHA1Init (mkSHA1 [] 0 (replicate 64 0)))
     [ascii_bytes "a"; ascii_bytes "bc"])).1 =
  [0xa9; 0x99; 0x3e; 0x36; 0x47; 0x06; 0x81; 0x6a; 0xba; 0x3e;
   0x25; 0x71; 0x78; 0x50; 0xc2; 0x6c; 0x9c; 0xd0; 0xd8; 0x9d].
Proof.
  rewrite sha1_streaming; [vm_compute; reflexivity|reflexivity|..|vm_compute; reflexivity].
  repeat constructor; vm_compute; congruence.
Defined.
