(* ===== verification/Sha2Core.v ===== *)
(** * Sha2Core: the code the SHA-2 variants of crypt/hash_sha2.c share.

    hash_sha2.c writes the same routines twice, once over 32-bit words
    (SHA-224, SHA-256) and once over 64-bit words (SHA-384, SHA-512,
    SHA-512/256).  The routines are stated here once, over a variant's word
    operations, with the FIPS 180-4 compression function they implement and
    the proofs; Sha2 instantiates both copies. *)

From S2P Require Import Prelude HashSpec.

(** [SHA2_CTX]: the member of the state union the variant uses (8 words), the
    two words of the bit count, the 128-byte buffer. *)
Record SHA2_CTX := mkSHA2 { state : list Z; bitcount : Z * Z; buffer : list Z }.

(** The macros a copy of the code is written with. *)
Class Sha2Variant := {
  sv_w : Z;                              (* word width *)
  sv_wb : nat;                           (* bytes in a word *)
  sv_rounds : Z;
  sv_K : list Z;                         (* K256, K512 *)
  sv_Sigma0 : Z -> Z;
  sv_Sigma1 : Z -> Z;
  sv_sigma0 : Z -> Z;
  sv_sigma1 : Z -> Z;
  sv_load : list Z -> Z;                 (* BE_8_TO_32, BE_8_TO_64 *)
  sv_addcount : Z * Z -> Z -> Z * Z;     (* bitcount += n *)
  sv_lenlen : nat;                       (* bytes of the length field *)
  sv_putlen : Z * Z -> list Z;           (* the length field *)
  sv_clear : nat;                        (* bytes cleared before the last block *)
}.

Section Code.
Context `{V : Sha2Variant}.

Definition BLOCK_LENGTH : nat := (16 * sv_wb)%nat.
Definition SHORT_BLOCK_LENGTH : nat := (BLOCK_LENGTH - sv_lenlen)%nat.

Definition Ch (x y z : Z) : Z := (x .& y) .^ (wrap sv_w (Z.lnot x) .& z).
Definition Maj (x y z : Z) : Z := (x .& y) .^ (x .& z) .^ (y .& z).

Abbreviation regs := (Z * Z * Z * Z * Z * Z * Z * Z)%type.

(** The local state of a transform: the circular schedule, the data pointer,
    the registers a..h and the round counter j. *)
Abbreviation local := (list Z * list Z * regs * Z)%type.

(** *** The rolled transform *)

(** One iteration of the first loop (rounds 0 to 15). *)
Definition step_0_15 (s : local) : local :=
  let '(W, data, (a, b, c, d, e, f, g, h), j) := s in
  let W := <[Z.to_nat j := sv_load data]> W in
  let data := drop sv_wb data in
  let T1 := wrap sv_w (h + sv_Sigma1 e + Ch e f g + sv_K.[j] + W.[j]) in
  let T2 := wrap sv_w (sv_Sigma0 a + Maj a b c) in
  (W, data, (wrap sv_w (T1 + T2), a, b, c, wrap sv_w (d + T1), e, f, g), j + 1).

(** One iteration of the second loop: the message block expansion in place
    and the compression step. *)
Definition step_16 (s : local) : local :=
  let '(W, data, (a, b, c, d, e, f, g, h), j) := s in
  let s0 := W.[(j + 1) .& 15] in
  let s0 := sv_sigma0 s0 in
  let s1 := W.[(j + 14) .& 15] in
  let s1 := sv_sigma1 s1 in
  let Wj := wrap sv_w (W.[j .& 15] + (s1 + W.[(j + 9) .& 15] + s0)) in
  let W := <[Z.to_nat (j .& 15) := Wj]> W in
  let T1 := wrap sv_w (h + sv_Sigma1 e + Ch e f g + sv_K.[j] + Wj) in
  let T2 := wrap sv_w (sv_Sigma0 a + Maj a b c) in
  (W, data, (wrap sv_w (T1 + T2), a, b, c, wrap sv_w (d + T1), e, f, g), j + 1).

(** Registers from the state words, and the final addition into the state;
    the schedule array holds anything when the function is entered. *)
Definition load_regs (state : list Z) : regs :=
  (state.[0], state.[1], state.[2], state.[3], state.[4], state.[5], state.[6], state.[7]).
Definition add_regs (state : list Z) (r : regs) : list Z :=
  let '(a, b, c, d, e, f, g, h) := r in
  [wrap sv_w (state.[0] + a); wrap sv_w (state.[1] + b); wrap sv_w (state.[2] + c);
   wrap sv_w (state.[3] + d); wrap sv_w (state.[4] + e); wrap sv_w (state.[5] + f);
   wrap sv_w (state.[6] + g); wrap sv_w (state.[7] + h)].
Definition uninit : list Z := replicate 16 0.

Definition counter_lt (n : Z) (s : local) : bool := let '(_, _, _, j) := s in j <? n.

Definition TransformRolled (state data : list Z) : list Z :=
  let s := do_while 16 step_0_15 (counter_lt 16) (uninit, data, load_regs state, 0) in
  let s := do_while 80 step_16 (counter_lt sv_rounds) s in
  let '(_, _, r, _) := s in add_regs state r.

(** *** The unrolled transform

    The ROUND macros update [d], [h], the schedule, the data pointer and j. *)
Definition ROUND_0_TO_15 (a b c d e f g h : Z) (W data : list Z) (j : Z) :
    list Z * list Z * Z * Z * Z :=
  let W := <[Z.to_nat j := sv_load data]> W in
  let data := drop sv_wb data in
  let T1 := wrap sv_w (h + sv_Sigma1 e + Ch e f g + sv_K.[j] + W.[j]) in
  let d := wrap sv_w (d + T1) in
  let h := wrap sv_w (T1 + sv_Sigma0 a + Maj a b c) in
  (W, data, d, h, j + 1).

Definition ROUND (a b c d e f g h : Z) (W data : list Z) (j : Z) :
    list Z * list Z * Z * Z * Z :=
  let s0 := W.[(j + 1) .& 15] in
  let s0 := sv_sigma0 s0 in
  let s1 := W.[(j + 14) .& 15] in
  let s1 := sv_sigma1 s1 in
  let Wj := wrap sv_w (W.[j .& 15] + (s1 + W.[(j + 9) .& 15] + s0)) in
  let W := <[Z.to_nat (j .& 15) := Wj]> W in
  let T1 := wrap sv_w (h + sv_Sigma1 e + Ch e f g + sv_K.[j] + Wj) in
  let d := wrap sv_w (d + T1) in
  let h := wrap sv_w (T1 + sv_Sigma0 a + Maj a b c) in
  (W, data, d, h, j + 1).

(** The body of both unrolled loops, over the macro it repeats. *)
Definition eight_rounds (R : Z -> Z -> Z -> Z -> Z -> Z -> Z -> Z -> list Z -> list Z -> Z ->
    list Z * list Z * Z * Z * Z) (s : local) : local :=
  let '(W, data, (a, b, c, d, e, f, g, h), j) := s in
  '(W, data, d, h, j) ::= R a b c d e f g h W data j;
  '(W, data, c, g, j) ::= R h a b c d e f g W data j;
  '(W, data, b, f, j) ::= R g h a b c d e f W data j;
  '(W, data, a, e, j) ::= R f g h a b c d e W data j;
  '(W, data, h, d, j) ::= R e f g h a b c d W data j;
  '(W, data, g, c, j) ::= R d e f g h a b c W data j;
  '(W, data, f, b, j) ::= R c d e f g h a b W data j;
  '(W, data, e, a, j) ::= R b c d e f g h a W data j;
  (W, data, (a, b, c, d, e, f, g, h), j).

Definition Transform (state data : list Z) : list Z :=
  let s := do_while 16 (eight_rounds ROUND_0_TO_15) (counter_lt 16)
             (uninit, data, load_regs state, 0) in
  let s := do_while 80 (eight_rounds ROUND) (counter_lt sv_rounds) s in
  let '(_, _, r, _) := s in add_regs state r.

(** *** Init, Update, Pad *)

Definition Init (iv : list Z) (clear_count : Z * Z -> Z * Z) (ctx : SHA2_CTX) : SHA2_CTX :=
  {| state := iv; buffer := replicate 128 0; bitcount := clear_count (bitcount ctx) |}.

Definition usedspace (ctx : SHA2_CTX) : nat :=
  Z.to_nat ((fst (bitcount ctx) ≫ 3) mod Z.of_nat BLOCK_LENGTH).

Definition shl_size (n : nat) : Z := shl64 (Z.of_nat n) 3.

(** [while (len >= BLOCK_LENGTH)] and the left-overs. *)
Definition Update_blocks (s : SHA2_CTX * list Z) : SHA2_CTX * list Z :=
  while_ (length s.2) (fun '(_, data) => (BLOCK_LENGTH <=? length data)%nat)
    (fun '(ctx, data) =>
       ({| state := Transform (state ctx) data;
           bitcount := sv_addcount (bitcount ctx) (shl_size BLOCK_LENGTH);
           buffer := buffer ctx |}, drop BLOCK_LENGTH data)) s.

Definition Update_rest (s : SHA2_CTX * list Z) : SHA2_CTX :=
  let '(ctx, data) := s in
  if (0 <? length data)%nat then
    {| state := state ctx;
       buffer := splice (buffer ctx) 0 data;
       bitcount := sv_addcount (bitcount ctx) (shl_size (length data)) |}
  else ctx.

Definition Update (ctx : SHA2_CTX) (data : list Z) : SHA2_CTX :=
  let len := length data in
  if (len =? 0)%nat then ctx else
  let used := usedspace ctx in
  if (0 <? used)%nat then
    let freespace := (BLOCK_LENGTH - used)%nat in
    if (freespace <=? len)%nat then
      let buf := splice (buffer ctx) used (take freespace data) in
      let ctx := {| buffer := buf;
                    bitcount := sv_addcount (bitcount ctx) (shl_size freespace);
                    state := Transform (state ctx) buf |} in
      Update_rest (Update_blocks (ctx, drop freespace data))
    else
      {| state := state ctx;
         buffer := splice (buffer ctx) used data;
         bitcount := sv_addcount (bitcount ctx) (shl_size len) |}
  else Update_rest (Update_blocks (ctx, data)).

Definition memset0 (buf : list Z) (off n : nat) : list Z := splice buf off (replicate n 0).

Definition Pad (ctx : SHA2_CTX) : SHA2_CTX :=
  let used := usedspace ctx in
  let '(st, buf) :=
    if (0 <? used)%nat then
      let buf := splice (buffer ctx) used [128] in
      let used := (used + 1)%nat in
      if (used <=? SHORT_BLOCK_LENGTH)%nat then
        (state ctx, memset0 buf used (SHORT_BLOCK_LENGTH - used))
      else
        let buf := if (used <? BLOCK_LENGTH)%nat
                   then memset0 buf used (BLOCK_LENGTH - used) else buf in
        let st := Transform (state ctx) buf in
        (st, memset0 buf 0 sv_clear)
    else
      let buf := memset0 (buffer ctx) 0 SHORT_BLOCK_LENGTH in
      (state ctx, splice buf 0 [128]) in
  let buf := splice buf SHORT_BLOCK_LENGTH (sv_putlen (bitcount ctx)) in
  {| state := Transform st buf; bitcount := bitcount ctx; buffer := buf |}.
End Code.

(** ** The FIPS 180-4 compression function *)

Module FIPS.
Section FIPS.
Context `{V : Sha2Variant}.

Definition next (f : nat -> Z) (t : nat) : Z :=
wrap sv_w (sv_sigma1 (f (t - 2)%nat) + f (t - 7)%nat + sv_sigma0 (f (t - 15)%nat)
           + f (t - 16)%nat).
Definition W (block : list Z) (t : nat) : Z :=
nth t (sched next (be_words_n 16 sv_wb block) (Z.to_nat sv_rounds - 16)) 0.

Definition step (W : nat -> Z) (r : Z * Z * Z * Z * Z * Z * Z * Z) (t : nat) :=
let '(a, b, c, d, e, f, g, h) := r in
let T1 := h + sv_Sigma1 e + Ch e f g + nth t sv_K 0 + W t in
let T2 := sv_Sigma0 a + Maj a b c in
(wrap sv_w (T1 + T2), a, b, c, wrap sv_w (d + T1), e, f, g).

Definition rounds (block : list Z) (n : nat) r := foldl (step (W block)) r (seq 0 n).

Definition compress (st block : list Z) : list Z :=
add_regs st (rounds block (Z.to_nat sv_rounds) (load_regs st)).
End FIPS.
End FIPS.

(** ** What an instance owes to the shared proofs *)

Class Sha2Laws (V : Sha2Variant) := {
  sl_w : 0 <= sv_w;
  sl_wb : (0 < sv_wb <= 8)%nat;
  sl_rounds : exists q, sv_rounds = 16 + 8 * q /\ 0 < q <= 8;
  sl_load : forall l, (sv_wb <= length l)%nat -> bytes (take sv_wb l) ->
    sv_load l = be_val (take sv_wb l);
  sl_lenlen : (0 < sv_lenlen < BLOCK_LENGTH)%nat;
  sl_clear : (SHORT_BLOCK_LENGTH <= sv_clear <= BLOCK_LENGTH)%nat;
  (** the bit count stands for a number of bytes *)
  sl_count : Z * Z -> nat -> Prop;
  sl_count_used : forall c n, sl_count c n ->
    (c.1 ≫ 3) mod Z.of_nat BLOCK_LENGTH = Z.of_nat (n mod BLOCK_LENGTH);
  sl_count_add : forall c n d, sl_count c n -> (d <= 128)%nat ->
    sl_count (sv_addcount c (shl_size d)) (n + d);
  sl_putlen : forall c n, sl_count c n ->
    sv_putlen c = be_bytes sv_lenlen (8 * Z.of_nat n);
}.

Lemma aget_nth l i : aget l i = nth (Z.to_nat i) l 0.
Proof. unfold aget. rewrite nth_lookup. done. Qed.

Section Proofs.
Context `{L : Sha2Laws}.

Local Lemma block_bounds : (0 < BLOCK_LENGTH <= 128)%nat.
Proof. unfold BLOCK_LENGTH. pose proof sl_wb. lia. Qed.

(** *** The rolled transform computes the FIPS compression *)

Lemma next_local f f' t : (16 <= t)%nat ->
  (forall k, (k < t)%nat -> f k = f' k) -> FIPS.next f t = FIPS.next f' t.
Proof. intros Ht H. unfold FIPS.next. rewrite !H by lia. done. Qed.

Lemma W_new block t : (16 <= t < Z.to_nat sv_rounds)%nat ->
  FIPS.W block t = FIPS.next (FIPS.W block) t.
Proof.
  intros Ht. unfold FIPS.W. apply sched_nth_new; [intros; by apply next_local|..].
  all: unfold be_words_n; rewrite length_map, length_seq; lia.
Qed.

Lemma W_old block t : (t < 16)%nat ->
  FIPS.W block t = be_val (take sv_wb (drop (sv_wb * t) block)).
Proof.
  intros Ht. unfold FIPS.W. rewrite sched_nth_old
    by (unfold be_words_n; rewrite length_map, length_seq; lia).
  unfold be_words_n. by rewrite nth_map_seq.
Qed.

(** Index arithmetic of the circular schedule. *)
Lemma land15 j : 0 <= j -> j .& 15 = j mod 16.
Proof. intros. change 15 with (Z.ones 4). by rewrite Z.land_ones by lia. Qed.

Local Lemma mod16_inj k j : 0 <= k -> k <= j < k + 16 -> Z.to_nat (j mod 16) = Z.to_nat (k mod 16) -> j = k.
Proof.
  intros Hk Hj H.
  assert (j mod 16 = k mod 16) as E.
  { pose proof (Z.mod_pos_bound j 16). pose proof (Z.mod_pos_bound k 16). lia. }
  pose proof (Z.div_mod j 16). pose proof (Z.div_mod k 16).
  pose proof (Z.mod_pos_bound k 16). nia.
Qed.

(** The circular array holds the last 16 schedule words before round [j]. *)
Definition window (f : nat -> Z) (W : list Z) (j : Z) : Prop :=
  length W = 16%nat /\
  forall k, 0 <= k -> j - 16 <= k < j -> nth (Z.to_nat (k mod 16)) W 0 = f (Z.to_nat k).

Lemma nth_insert_eq (W : list Z) n x : (n < length W)%nat -> nth n (<[n := x]> W) 0 = x.
Proof. intros. rewrite nth_lookup, list_lookup_insert. by rewrite decide_True by done. Qed.
Lemma nth_insert_ne (W : list Z) n m x : n <> m -> nth n (<[m := x]> W) 0 = nth n W 0.
Proof. intros. rewrite !nth_lookup, list_lookup_insert_ne by done. done. Qed.

Lemma window_insert f W j x : 0 <= j -> window f W j -> x = f (Z.to_nat j) ->
  window f (<[Z.to_nat (j mod 16) := x]> W) (j + 1).
Proof.
  intros Hj [Hl HW] ->. split; [by rewrite length_insert|]. intros k Hk1 Hk2.
  destruct (Z.eq_dec k j) as [->|Hne].
  - apply nth_insert_eq. rewrite Hl. pose proof (Z.mod_pos_bound j 16). lia.
  - rewrite nth_insert_ne; [apply HW; lia|].
    intros E. apply Hne. symmetry. apply (mod16_inj k j); [lia|lia|done].
Qed.

Lemma window_get f W j o k : window f W j -> 0 <= j - k -> 0 < k <= 16 -> o = 16 - k -> 0 <= o ->
  W.[(j + o) .& 15] = f (Z.to_nat j - Z.to_nat k)%nat.
Proof.
  intros [Hl HW] Hj Hk -> Ho. rewrite aget_nth, land15 by lia.
  replace (j + (16 - k)) with (j - k + 1 * 16) by lia. rewrite Z.mod_add by lia.
  rewrite HW by lia. f_equal. lia.
Qed.

(** The state of the transform before round [j]. *)
Definition at_round (block rest : list Z) (r0 : _) (j : Z) (s : _) : Prop :=
  exists W, s = (W, drop (sv_wb * Z.to_nat (Z.min j 16)) (block ++ rest),
                 FIPS.rounds block (Z.to_nat j) r0, j) /\ window (FIPS.W block) W j.

Lemma rounds_succ block n r0 :
  FIPS.rounds block (S n) r0 = FIPS.step (FIPS.W block) (FIPS.rounds block n r0) n.
Proof. unfold FIPS.rounds. rewrite seq_S, foldl_app. done. Qed.

Local Lemma wrap_plus_l x y : wrap sv_w (x + wrap sv_w y) = wrap sv_w (x + y).
Proof. apply wrap_add_r. Qed.

(** One step of either loop from the schedule word it uses. *)
Lemma step_eq K W (w : nat -> Z) a b c d e f g h j :
  0 <= j -> K = nth (Z.to_nat j) sv_K 0 -> W = w (Z.to_nat j) ->
  (let T1 := wrap sv_w (h + sv_Sigma1 e + Ch e f g + K + W) in
   let T2 := wrap sv_w (sv_Sigma0 a + Maj a b c) in
   (wrap sv_w (T1 + T2), a, b, c, wrap sv_w (d + T1), e, f, g)) =
  FIPS.step w (a, b, c, d, e, f, g, h) (Z.to_nat j).
Proof.
  intros Hj -> ->. cbv zeta. unfold FIPS.step. rewrite !wrap_add_r, wrap_add_l. done.
Qed.

Lemma step_0_15_round block rest r0 j s :
  length block = BLOCK_LENGTH -> bytes block -> 0 <= j < 16 ->
  at_round block rest r0 j s -> at_round block rest r0 (j + 1) (step_0_15 s).
Proof.
  intros Hl Hb Hj (W & -> & HW). unfold step_0_15.
  destruct (FIPS.rounds block (Z.to_nat j) r0) as [[[[[[[a b] c] d] e] f] g] h] eqn:Er.
  assert (Hw : sv_load (drop (sv_wb * Z.to_nat (Z.min j 16)) (block ++ rest)) =
               FIPS.W block (Z.to_nat j)).
  { rewrite W_old by lia. rewrite Z.min_l by lia. pose proof sl_wb. unfold BLOCK_LENGTH in Hl.
    assert (E : take sv_wb (drop (sv_wb * Z.to_nat j) (block ++ rest)) =
                take sv_wb (drop (sv_wb * Z.to_nat j) block)).
    { rewrite drop_app_le by nia. rewrite take_app_le; [done|]. rewrite length_drop. nia. }
    rewrite sl_load, E; [done| |].
    - rewrite length_drop, length_app. nia.
    - rewrite E. by apply Forall_take, Forall_drop. }
  exists (<[Z.to_nat (j mod 16) := FIPS.W block (Z.to_nat j)]> W). split.
  2: { by apply window_insert; [lia|..]. }
  rewrite Hw, !(Z.mod_small j) by lia. rewrite drop_drop.
  replace (Z.to_nat (j + 1)) with (S (Z.to_nat j)) by lia.
  rewrite rounds_succ, Er.
  replace (sv_wb * Z.to_nat (Z.min j 16) + sv_wb)%nat
    with (sv_wb * Z.to_nat (Z.min (j + 1) 16))%nat by (rewrite <- Nat.mul_succ_r; f_equal; lia).
  rewrite <- (step_eq (sv_K.[j]) ((<[Z.to_nat j := FIPS.W block (Z.to_nat j)]> W).[j]));
    [done|lia|by rewrite aget_nth|].
  rewrite aget_nth. apply nth_insert_eq. destruct HW as [-> _]. lia.
Qed.

Lemma step_16_round block rest r0 j s : 16 <= j < sv_rounds ->
  at_round block rest r0 j s -> at_round block rest r0 (j + 1) (step_16 s).
Proof.
  intros Hj (W & -> & HW). unfold step_16.
  destruct (FIPS.rounds block (Z.to_nat j) r0) as [[[[[[[a b] c] d] e] f] g] h] eqn:Er.
  assert (Hj0 : j .& 15 = (j + 0) .& 15) by (by rewrite Z.add_0_r).
  assert (Hw : wrap sv_w (W.[j .& 15] + (sv_sigma1 (W.[(j + 14) .& 15]) + W.[(j + 9) .& 15]
                 + sv_sigma0 (W.[(j + 1) .& 15]))) = FIPS.W block (Z.to_nat j)).
  { rewrite Hj0. rewrite W_new by lia. unfold FIPS.next.
    rewrite (window_get _ W j 0 16 HW), (window_get _ W j 14 2 HW),
      (window_get _ W j 9 7 HW), (window_get _ W j 1 15 HW) by lia.
    change (Z.to_nat 16) with 16%nat. change (Z.to_nat 2) with 2%nat.
    change (Z.to_nat 7) with 7%nat. change (Z.to_nat 15) with 15%nat.
    unfold wrap. f_equal. lia. }
  cbv zeta. rewrite Hw.
  exists (<[Z.to_nat (j mod 16) := FIPS.W block (Z.to_nat j)]> W). split.
  2: { by apply window_insert; [lia|..]. }
  rewrite land15 by lia. rewrite !Z.min_r by lia.
  replace (Z.to_nat (j + 1)) with (S (Z.to_nat j)) by lia.
  rewrite rounds_succ, Er.
  rewrite <- (step_eq (sv_K.[j]) (FIPS.W block (Z.to_nat j)));
    [done|lia|by rewrite aget_nth|done].
Qed.

Lemma at_round_counter block rest r0 j s n :
  at_round block rest r0 j s -> counter_lt n s = (j <? n).
Proof. intros (W & -> & _). done. Qed.

Lemma rounds_bounds : 16 < sv_rounds <= 80.
Proof. destruct sl_rounds as (q & -> & Hq). lia. Qed.

Lemma TransformRolled_compress st block rest :
  length block = BLOCK_LENGTH -> bytes block ->
  TransformRolled st (block ++ rest) = FIPS.compress st block.
Proof.
  intros Hl Hb. unfold TransformRolled. pose proof rounds_bounds as Hr.
  assert (H0 : at_round block rest (load_regs st) 0 (uninit, block ++ rest, load_regs st, 0)).
  { exists uninit. split; [|split; [done|intros; lia]].
    change (Z.to_nat (Z.min 0 16)) with 0%nat. rewrite Nat.mul_0_r, drop_0. done. }
  apply (do_while_count (at_round block rest (load_regs st)) (counter_lt 16) step_0_15 16
    _ 0 16) in H0; [|lia|lia|intros k s _ Hk; exact (at_round_counter _ _ _ _ _ _ Hk)|].
  2: { intros k s Hk. apply step_0_15_round; [done|done|lia]. }
  apply (do_while_count (at_round block rest (load_regs st)) (counter_lt sv_rounds) step_16 80
    _ 16 sv_rounds) in H0; [|lia|lia|intros k s _ Hk; exact (at_round_counter _ _ _ _ _ _ Hk)|].
  2: { intros k s Hk. apply step_16_round. lia. }
  destruct H0 as (W & -> & _). done.
Qed.

(** *** The unrolled transform is the rolled one *)

(** A ROUND macro does one step of the loop, on permuted registers. *)
Definition macro_of (step : list Z * list Z * _ * Z -> list Z * list Z * _ * Z)
    (R : Z -> Z -> Z -> Z -> Z -> Z -> Z -> Z -> list Z -> list Z -> Z ->
       list Z * list Z * Z * Z * Z) : Prop :=
  forall a b c d e f g h W data j, exists W' data' d' h',
    R a b c d e f g h W data j = (W', data', d', h', j + 1) /\
    step (W, data, (a, b, c, d, e, f, g, h), j) =
      (W', data', (h', a, b, c, d', e, f, g), j + 1).

Lemma ROUND_0_TO_15_step : macro_of step_0_15 ROUND_0_TO_15.
Proof.
  intros a b c d e f g h W data j. unfold ROUND_0_TO_15, step_0_15. do 4 eexists.
  split; [reflexivity|]. rewrite wrap_plus_l, (Z.add_assoc _ (sv_Sigma0 a)). reflexivity.
Qed.

Lemma ROUND_step : macro_of step_16 ROUND.
Proof.
  intros a b c d e f g h W data j. unfold ROUND, step_16. do 4 eexists.
  split; [reflexivity|]. cbv zeta. rewrite wrap_plus_l, (Z.add_assoc _ (sv_Sigma0 a)). reflexivity.
Qed.

Lemma eight_rounds_iter step R s : macro_of step R -> eight_rounds R s = Nat.iter 8 step s.
Proof.
  intros H. destruct s as [[[W data] [[[[[[[a b] c] d] e] f] g] h]] j].
  rewrite !Nat.iter_succ_r. unfold eight_rounds.
  do 8 (match goal with |- assign (R ?a ?b ?c ?d ?e ?f ?g ?h ?W ?data ?j) _ = _ =>
    let E1 := fresh in let E2 := fresh in
    destruct (H a b c d e f g h W data j) as (? & ? & ? & ? & E1 & E2);
    rewrite E1, E2; apply assign_elim; cbv beta iota; clear E1 E2 end).
  reflexivity.
Qed.

(** Iterating a step that counts. *)
Definition counts (step : list Z * list Z * (Z * Z * Z * Z * Z * Z * Z * Z) * Z ->
    list Z * list Z * (Z * Z * Z * Z * Z * Z * Z * Z) * Z) : Prop :=
  forall s, (step s).2 = s.2 + 1.

Lemma macro_counts step R : macro_of step R -> counts step.
Proof.
  intros H [[[W data] [[[[[[[a b] c] d] e] f] g] h]] j].
  destruct (H a b c d e f g h W data j) as (? & ? & ? & ? & _ & ->). done.
Qed.

Lemma iter_counts step n s : counts step -> (Nat.iter n step s).2 = s.2 + Z.of_nat n.
Proof. intros H. induction n; simpl; [lia|]. rewrite H, IHn. lia. Qed.

Lemma do_while_iter (m : nat) step fuel n s k :
  counts step -> (0 < m)%nat -> 0 < k -> n = s.2 + Z.of_nat m * k -> (Z.to_nat k <= fuel)%nat ->
  do_while fuel (Nat.iter m step) (counter_lt n) s = Nat.iter (m * Z.to_nat k) step s.
Proof.
  intros Hs Hm Hk Hn Hf.
  apply (do_while_count (fun i s' => s' = Nat.iter (m * Z.to_nat i) step s) _ _ _ _ 0 k).
  - lia.
  - lia.
  - change (Z.to_nat 0) with 0%nat. by rewrite Nat.mul_0_r.
  - intros i s' Hi ->. pose proof (iter_counts step (m * Z.to_nat i) s Hs) as E.
    destruct (Nat.iter _ _ s) as [[[? ?] ?] j]. simpl in *. subst j n.
    destruct (Z.ltb_spec i k), (Z.ltb_spec (s.2 + Z.of_nat (m * Z.to_nat i))
      (s.2 + Z.of_nat m * k)); try done; nia.
  - intros i s' Hi ->. rewrite <- Nat.iter_add. f_equal.
    replace (Z.to_nat (i + 1)) with (S (Z.to_nat i)) by lia. lia.
Qed.

Lemma do_while_body_ext {S} fuel (b b' : S -> S) c s :
  (forall s, b s = b' s) -> do_while fuel b c s = do_while fuel b' c s.
Proof.
  intros H. unfold do_while. rewrite H. generalize (b' s). clear s.
  induction fuel; intros s; simpl; [done|]. destruct (c s); [by rewrite H|done].
Qed.

Lemma Transform_rolled st data : Transform st data = TransformRolled st data.
Proof.
  unfold Transform, TransformRolled. destruct sl_rounds as (q & Hq & Hq').
  assert (H1 := macro_counts _ _ ROUND_0_TO_15_step).
  assert (H2 := macro_counts _ _ ROUND_step).
  rewrite (do_while_body_ext 16 (eight_rounds ROUND_0_TO_15) (Nat.iter 8 step_0_15)) by
    (intros; apply eight_rounds_iter, ROUND_0_TO_15_step).
  rewrite (do_while_iter 8 step_0_15 16 16 _ 2 H1) by (simpl; lia).
  rewrite (do_while_body_ext 16 step_0_15 (Nat.iter 1 step_0_15)) by done.
  rewrite (do_while_iter 1 step_0_15 16 16 _ 16 H1) by (simpl; lia).
  change (1 * Z.to_nat 16)%nat with 16%nat. change (8 * Z.to_nat 2)%nat with 16%nat.
  set (s := Nat.iter 16 step_0_15 _).
  assert (Hs : s.2 = 16) by (unfold s; rewrite iter_counts by done; done).
  rewrite (do_while_body_ext 80 (eight_rounds ROUND) (Nat.iter 8 step_16)) by
    (intros; apply eight_rounds_iter, ROUND_step).
  rewrite (do_while_iter 8 step_16 80 sv_rounds s q H2) by lia.
  rewrite (do_while_body_ext 80 step_16 (Nat.iter 1 step_16)) by done.
  rewrite (do_while_iter 1 step_16 80 sv_rounds s (8 * q) H2) by lia.
  replace (1 * Z.to_nat (8 * q))%nat with (8 * Z.to_nat q)%nat by lia. done.
Qed.

Lemma Transform_compress st data :
  (BLOCK_LENGTH <= length data)%nat -> bytes (take BLOCK_LENGTH data) ->
  Transform st data = FIPS.compress st (take BLOCK_LENGTH data).
Proof.
  intros Hl Hb. rewrite Transform_rolled. rewrite <- (take_drop BLOCK_LENGTH data) at 1.
  apply TransformRolled_compress; [rewrite length_take; lia|done].
Qed.

(** *** Update and Pad absorb the padded message *)

Variable iv : list Z.

(** The context has absorbed [m]; only the first block of the buffer is used. *)
Definition repr (ctx : SHA2_CTX) (m : list Z) : Prop :=
  absorbed BLOCK_LENGTH FIPS.compress iv (state ctx) (take BLOCK_LENGTH (buffer ctx)) m /\
  sl_count (bitcount ctx) (length m) /\ length (buffer ctx) = 128%nat.

Lemma take_splice n (l d : list Z) off : (off + length d <= n)%nat -> (n <= length l)%nat ->
  take n (splice l off d) = splice (take n l) off d.
Proof.
  intros H1 H2. unfold splice. rewrite take_take, Nat.min_l by lia.
  rewrite !take_app, length_take, Nat.min_l by lia. rewrite (take_ge (take off l))
    by (rewrite length_take; lia). rewrite (take_ge d) by lia. do 2 f_equal.
  rewrite take_drop_commute. do 2 f_equal. lia.
Qed.

Lemma Init_repr clear ctx :
  sl_count (clear (bitcount ctx)) 0 -> repr (Init iv clear ctx) [].
Proof.
  intros Hc. pose proof block_bounds. split_and!; [|done|done].
  apply absorbed_init; [lia|]. rewrite length_take. cbn [Init buffer]. rewrite length_replicate. lia.
Qed.

Lemma usedspace_repr ctx m : repr ctx m -> usedspace ctx = (length m mod BLOCK_LENGTH)%nat.
Proof.
  intros (_ & Hc & _). unfold usedspace. rewrite (sl_count_used _ _ Hc). apply Nat2Z.id.
Qed.

(** One full block of input, at a block boundary. *)
Lemma block_repr st cnt buf m data :
  repr (mkSHA2 st cnt buf) m -> bytes data -> (length m mod BLOCK_LENGTH = 0)%nat ->
  (BLOCK_LENGTH <= length data)%nat ->
  repr (mkSHA2 (Transform st data) (sv_addcount cnt (shl_size BLOCK_LENGTH)) buf)
    (m ++ take BLOCK_LENGTH data).
Proof.
  intros (Ha & Hc & Hl) Hd Hm Hlen. simpl in *. pose proof block_bounds.
  assert (Hb : bytes (take BLOCK_LENGTH data)) by (by apply Forall_take).
  assert (Ht : length (take BLOCK_LENGTH data) = BLOCK_LENGTH) by (rewrite length_take; lia).
  split_and!; simpl; [|rewrite length_app, Ht; by apply sl_count_add; [|lia]|done].
  rewrite Transform_compress by done.
  pose proof (absorbed_aligned BLOCK_LENGTH FIPS.compress iv ltac:(lia) _ _ _ _ Ha Hb Hm) as H1.
  destruct (absorb_step BLOCK_LENGTH FIPS.compress ltac:(lia) st _ [] Ht) as [E1 E2].
  rewrite app_nil_r in E1, E2.
  destruct (absorb_short BLOCK_LENGTH FIPS.compress
    (FIPS.compress st (take BLOCK_LENGTH data)) []) as [E3 E4]; [simpl; lia|].
  rewrite E1, E2, E3, E4 in H1. unfold splice in H1. simpl in H1.
  by rewrite drop_0 in H1.
Qed.

Lemma Update_blocks_repr ctx m data :
  repr ctx m -> bytes data -> (length m mod BLOCK_LENGTH = 0)%nat ->
  exists ctx' m' rest, Update_blocks (ctx, data) = (ctx', rest) /\ repr ctx' m' /\
    m ++ data = m' ++ rest /\ (length m' mod BLOCK_LENGTH = 0)%nat /\
    (length rest < BLOCK_LENGTH)%nat /\ bytes rest.
Proof.
  unfold Update_blocks. cbn [snd]. pose proof block_bounds.
  assert (Hf : (length data <= length data)%nat) by lia. revert Hf.
  generalize (length data) at 2 3. intros fuel. revert ctx m data.
  induction fuel as [|fuel IH]; intros ctx m data Hf Hr Hd Hm; simpl.
  - exists ctx, m, data. split_and!; try done. lia.
  - destruct (Nat.leb_spec BLOCK_LENGTH (length data)) as [Hle|Hgt].
    + destruct ctx as [st cnt buf].
      pose proof (block_repr st cnt buf m data Hr Hd Hm Hle) as Hr'.
      destruct (IH _ _ (drop BLOCK_LENGTH data)
        ltac:(rewrite length_drop; lia) Hr') as (ctx' & m' & rest & E & H1 & H2 & H3).
      * by apply Forall_drop.
      * rewrite length_app, length_take, Nat.min_l by lia.
        rewrite <- Nat.Div0.add_mod_idemp_l, Hm. apply Nat.Div0.mod_same.
      * exists ctx', m', rest. rewrite <- app_assoc, take_drop in H2. done.
    + exists ctx, m, data. split_and!; done.
Qed.

Lemma Update_rest_repr ctx m data :
  repr ctx m -> bytes data -> (length m mod BLOCK_LENGTH = 0)%nat ->
  (length data < BLOCK_LENGTH)%nat -> repr (Update_rest (ctx, data)) (m ++ data).
Proof.
  intros Hr Hd Hm Hlen. pose proof Hr as (Ha & Hc & Hl). pose proof block_bounds.
  unfold Update_rest. destruct (Nat.ltb_spec 0 (length data)) as [Hp|Hz].
  - split_and!; simpl.
    + rewrite take_splice by (rewrite ?length_app; lia).
      pose proof (absorbed_partial BLOCK_LENGTH FIPS.compress iv ltac:(lia) _ _ _ _ Ha Hd) as H1.
      rewrite Hm in H1. apply H1. lia.
    + rewrite length_app. apply sl_count_add; [done|lia].
    + rewrite splice_length; [done|lia].
  - destruct data; [|simpl in *; lia]. by rewrite app_nil_r.
Qed.

Lemma Update_repr ctx m data : bytes data -> repr ctx m -> repr (Update ctx data) (m ++ data).
Proof.
  intros Hd Hr. unfold Update. pose proof block_bounds as HB.
  destruct (Nat.eqb_spec (length data) 0) as [Hz|Hz].
  { destruct data; [|done]. by rewrite app_nil_r. }
  assert (Haligned : forall c m d, repr c m -> bytes d -> (length m mod BLOCK_LENGTH = 0)%nat ->
    repr (Update_rest (Update_blocks (c, d))) (m ++ d)).
  { intros c m0 d Hr0 Hd0 Hm0.
    destruct (Update_blocks_repr c m0 d Hr0 Hd0 Hm0) as (c' & m' & rest & -> & H1 & -> & H3 & H4 & H5).
    by apply Update_rest_repr. }
  rewrite (usedspace_repr _ _ Hr). pose proof Hr as (Ha & Hc & Hl).
  pose proof (Nat.mod_upper_bound (length m) BLOCK_LENGTH ltac:(lia)) as Hu.
  set (used := (length m mod BLOCK_LENGTH)%nat) in *. cbv zeta.
  destruct (Nat.ltb_spec 0 used) as [Hp|Hz0]; [|apply Haligned; [done..|lia]].
  destruct (Nat.leb_spec (BLOCK_LENGTH - used) (length data)) as [Hle|Hgt].
  - assert (Hcut : m ++ data = (m ++ take (BLOCK_LENGTH - used) data) ++
                      drop (BLOCK_LENGTH - used) data) by (by rewrite <- app_assoc, take_drop).
    rewrite Hcut.
    set (d1 := take (BLOCK_LENGTH - used) data).
    assert (Hd1 : length d1 = (BLOCK_LENGTH - used)%nat) by (unfold d1; rewrite length_take; lia).
    assert (Hb1 : bytes d1) by (by apply Forall_take).
    assert (Hm : (length (m ++ d1) mod BLOCK_LENGTH = 0)%nat).
    { rewrite length_app, Hd1, <- Nat.Div0.add_mod_idemp_l. fold used.
      replace (used + (BLOCK_LENGTH - used))%nat with BLOCK_LENGTH by lia.
      apply Nat.Div0.mod_same. }
    apply Haligned; [|by apply Forall_drop|done].
    split_and!; simpl.
    + assert (Htk : take BLOCK_LENGTH (splice (buffer ctx) used d1) =
        splice (take BLOCK_LENGTH (buffer ctx)) used d1) by (apply take_splice; lia).
      pose proof (absorbed_full BLOCK_LENGTH FIPS.compress iv ltac:(lia) _ _ _ d1 [] Ha) as H1.
      rewrite !app_nil_r in H1. fold used in H1. specialize (H1 Hb1 ltac:(lia)).
      destruct (absorb_short BLOCK_LENGTH FIPS.compress (FIPS.compress (state ctx)
        (splice (take BLOCK_LENGTH (buffer ctx)) used d1)) []) as [E3 E4]; [simpl; lia|].
      rewrite E3, E4 in H1. unfold splice at 2 in H1. simpl in H1. rewrite drop_0 in H1.
      rewrite Transform_compress, Htk; [done| |].
      * rewrite splice_length; lia.
      * rewrite Htk. rewrite splice_full by (rewrite length_take; lia).
        apply Forall_app. split; [|done].
        pose proof (abs_buf _ _ _ _ _ _ Ha) as E. fold used in E. rewrite E.
        apply Forall_drop, (abs_bytes _ _ _ _ _ _ Ha).
    + rewrite length_app, Hd1. apply sl_count_add; [done|lia].
    + rewrite splice_length; [done|lia].
  - split_and!; simpl.
    + rewrite take_splice by lia. by apply absorbed_partial; [lia| | |fold used; lia].
    + rewrite length_app. apply sl_count_add; [done|lia].
    + rewrite splice_length; [done|lia].
Qed.

(** Pad leaves the chaining value of the padded message. *)
Lemma memset0_take buf off n : (off <= length buf)%nat ->
  take (off + n) (memset0 buf off n) = take off buf ++ replicate n 0.
Proof.
  intros H. unfold memset0. rewrite <- (length_replicate n 0) at 1. by apply splice_take.
Qed.

Lemma set_first buf k :
  take (S k) (splice (memset0 buf 0 (S k)) 0 [128]) = 128 :: replicate k 0.
Proof.
  unfold memset0, splice. rewrite !take_0, length_replicate. simpl. f_equal.
  rewrite drop_0. rewrite take_app_length'; [done|by rewrite length_replicate].
Qed.

(** The last block: the length field written after [X]. *)
Lemma last_block st (X buf lf : list Z) :
  take SHORT_BLOCK_LENGTH buf = X -> bytes X -> bytes lf -> length lf = sv_lenlen ->
  (BLOCK_LENGTH <= length buf)%nat ->
  Transform st (splice buf SHORT_BLOCK_LENGTH lf) = absorb BLOCK_LENGTH FIPS.compress st (X ++ lf).
Proof.
  intros <- Hb Hlf Hl Hlen. pose proof block_bounds. pose proof sl_lenlen.
  assert (E : take BLOCK_LENGTH (splice buf SHORT_BLOCK_LENGTH lf) =
              take SHORT_BLOCK_LENGTH buf ++ lf).
  { rewrite <- splice_take by (unfold SHORT_BLOCK_LENGTH; lia). f_equal.
    unfold SHORT_BLOCK_LENGTH. lia. }
  assert (Hx : length (take SHORT_BLOCK_LENGTH buf ++ lf) = BLOCK_LENGTH).
  { rewrite length_app, length_take. unfold SHORT_BLOCK_LENGTH. lia. }
  rewrite Transform_compress, E; [|rewrite splice_length; unfold SHORT_BLOCK_LENGTH; lia|
    rewrite E; by apply Forall_app].
  destruct (absorb_step BLOCK_LENGTH FIPS.compress ltac:(lia) st _ [] Hx) as [E1 _].
  rewrite app_nil_r in E1. rewrite E1. symmetry. apply absorb_short. simpl. lia.
Qed.

Lemma Pad_state ctx m : repr ctx m ->
  state (Pad ctx) = absorb BLOCK_LENGTH FIPS.compress iv
    (md_pad BLOCK_LENGTH sv_lenlen (be_bytes sv_lenlen) m).
Proof.
  intros Hr. unfold Pad. rewrite (usedspace_repr _ _ Hr).
  destruct Hr as (Ha & Hc & Hl). rewrite (sl_putlen _ _ Hc).
  pose proof block_bounds as HB. pose proof sl_lenlen as HL. pose proof sl_clear as HC.
  pose proof (Nat.mod_upper_bound (length m) BLOCK_LENGTH ltac:(lia)) as Hu.
  pose proof (abs_buf _ _ _ _ _ _ Ha) as Hlo. pose proof (abs_bytes _ _ _ _ _ _ Ha) as Hm.
  rewrite take_take, Nat.min_l in Hlo by lia.
  unfold md_pad. rewrite (proj1 (absorb_app BLOCK_LENGTH FIPS.compress ltac:(lia) iv m _)).
  rewrite <- (abs_state _ _ _ _ _ _ Ha), <- Hlo, pad_zeros_mod by lia.
  assert (Hlb : bytes (take (length m mod BLOCK_LENGTH) (buffer ctx))).
  { rewrite Hlo. by apply Forall_drop. }
  generalize dependent (length m mod BLOCK_LENGTH)%nat. intros used Hu Hlo Hlb.
  set (lf := be_bytes sv_lenlen _).
  assert (Hlfb : bytes lf) by apply be_bytes_bytes.
  assert (Hlfl : length lf = sv_lenlen) by apply be_bytes_length.
  assert (Hzb : forall n, bytes (replicate n 0)).
  { intros n. apply Forall_replicate. unfold word. lia. }
  assert (H80 : bytes [128]) by (repeat constructor; lia).
  assert (HS : SHORT_BLOCK_LENGTH = (BLOCK_LENGTH - sv_lenlen)%nat) by done.
  assert (H1 : take (used + 1) (splice (buffer ctx) used [128]) =
               take used (buffer ctx) ++ [128]) by (apply (splice_take _ _ [128]); lia).
  assert (Hl1 : length (splice (buffer ctx) used [128]) = 128%nat)
    by (rewrite splice_length; simpl; lia).
  destruct (Nat.ltb_spec 0 used) as [Hp|Hz].
  - set (buf1 := splice (buffer ctx) used [128]) in *.
    destruct (Nat.leb_spec (used + 1) SHORT_BLOCK_LENGTH) as [Hle|Hgt].
    + rewrite (proj2 (Nat.ltb_lt used _)) by lia.
      replace (BLOCK_LENGTH - sv_lenlen - 1 - used)%nat
        with (SHORT_BLOCK_LENGTH - (used + 1))%nat by lia.
      rewrite !app_assoc. apply last_block; [|by repeat apply Forall_app_2|done..|].
      * rewrite <- H1, <- memset0_take by lia. f_equal. lia.
      * unfold memset0. rewrite splice_length; [lia|]. rewrite length_replicate. lia.
    + rewrite (proj2 (Nat.ltb_ge used _)) by lia.
      set (buf2 := if (used + 1 <? BLOCK_LENGTH)%nat
                   then memset0 buf1 (used + 1) (BLOCK_LENGTH - (used + 1)) else buf1).
      assert (H2 : take BLOCK_LENGTH buf2 = take used (buffer ctx) ++ [128] ++
                     replicate (BLOCK_LENGTH - (used + 1)) 0).
      { rewrite app_assoc, <- H1. unfold buf2. destruct (Nat.ltb_spec (used + 1) BLOCK_LENGTH).
        - rewrite <- memset0_take by lia. f_equal. lia.
        - replace (BLOCK_LENGTH - (used + 1))%nat with 0%nat by lia. simpl.
          rewrite app_nil_r. f_equal. lia. }
      assert (Hl2 : length buf2 = 128%nat).
      { unfold buf2. destruct (Nat.ltb_spec (used + 1) BLOCK_LENGTH); [|done].
        unfold memset0. rewrite splice_length; [lia|]. rewrite length_replicate. lia. }
      replace (BLOCK_LENGTH + BLOCK_LENGTH - sv_lenlen - 1 - used)%nat with
        (BLOCK_LENGTH - (used + 1) + SHORT_BLOCK_LENGTH)%nat by lia.
      rewrite replicate_add, <- !app_assoc.
      rewrite (app_assoc [128]), (app_assoc (take used (buffer ctx))), <- H2.
      assert (Htk2 : length (take BLOCK_LENGTH buf2) = BLOCK_LENGTH)
        by (rewrite length_take; lia).
      rewrite (proj1 (absorb_step BLOCK_LENGTH FIPS.compress ltac:(lia) _ _ _ Htk2)).
      assert (Hb2 : bytes (take BLOCK_LENGTH buf2)) by (rewrite H2; by repeat apply Forall_app_2).
      rewrite (Transform_compress (state ctx) buf2) by (done || lia).
      apply last_block; [|done..|].
      * rewrite <- (Nat.min_l SHORT_BLOCK_LENGTH sv_clear) by lia.
        rewrite <- take_take. pose proof (memset0_take buf2 0 sv_clear ltac:(lia)) as E.
        rewrite take_0 in E. cbn [Nat.add app] in E. rewrite E. rewrite take_replicate. by rewrite Nat.min_l by lia.
      * unfold memset0. rewrite splice_length; [lia|]. rewrite length_replicate. lia.
  - assert (used = 0)%nat as -> by lia. rewrite (proj2 (Nat.ltb_lt 0 _)) by lia.
    rewrite take_0. cbn [app].
    apply (last_block (state ctx) (128 :: replicate (BLOCK_LENGTH - sv_lenlen - 1 - 0) 0));
      [|constructor; [unfold word; lia|done]|done..|].
    + rewrite <- (set_first (buffer ctx)). f_equal; [lia|do 2 f_equal; lia].
    + unfold memset0. rewrite splice_length; rewrite splice_length;
        rewrite ?length_replicate; simpl; lia.
Qed.
End Proofs.
