(* ===== verification/Sha2.v ===== *)
(** * Sha2: SHA-224/256/384/512 and SHA-512/256 of crypt/hash_sha2.c.

    The two copies of the code as instances of Sha2Core, the initial values
    and round constants with the numbers FIPS 180-4 derives them from, Final
    for each digest length, and the instances of [HashSpec.BlockHash]. *)

From S2P Require Import Prelude HashSpec Sha2Core.

(** ** Macros *)

(** [BE_8_TO_32], [BE_8_TO_64] assemble big-endian words. *)
Definition BE_8_TO_32 (cp : list Z) : Z :=
  cp.[3] .| (cp.[2] ≪ 8) .| (cp.[1] ≪ 16) .| (cp.[0] ≪ 24).
Definition BE_8_TO_64 (cp : list Z) : Z :=
  cp.[7] .| (cp.[6] ≪ 8) .| (cp.[5] ≪ 16) .| (cp.[4] ≪ 24) .|
  (cp.[3] ≪ 32) .| (cp.[2] ≪ 40) .| (cp.[1] ≪ 48) .| (cp.[0] ≪ 56).

Definition BE_32_TO_8 (src : Z) : list Z :=
  [u8 (src ≫ 24); u8 (src ≫ 16); u8 (src ≫ 8); u8 src].
Definition BE_64_TO_8 (src : Z) : list Z :=
  [u8 (src ≫ 56); u8 (src ≫ 48); u8 (src ≫ 40); u8 (src ≫ 32);
   u8 (src ≫ 24); u8 (src ≫ 16); u8 (src ≫ 8); u8 src].

(** [ADDINC128]: add to the low word, carry into the high word. *)
Definition ADDINC128 (w : Z * Z) (n : Z) : Z * Z :=
  let w0 := add64 (fst w) n in
  (w0, if w0 <? n then add64 (snd w) 1 else snd w).

Definition R (b x : Z) : Z := x ≫ b.
Definition S32 (b x : Z) : Z := (x ≫ b) .| shl32 x (32 - b).
Definition S64 (b x : Z) : Z := (x ≫ b) .| shl64 x (64 - b).

Definition Sigma0_256 (x : Z) : Z := S32 2 x .^ S32 13 x .^ S32 22 x.
Definition Sigma1_256 (x : Z) : Z := S32 6 x .^ S32 11 x .^ S32 25 x.
Definition sigma0_256 (x : Z) : Z := S32 7 x .^ S32 18 x .^ R 3 x.
Definition sigma1_256 (x : Z) : Z := S32 17 x .^ S32 19 x .^ R 10 x.

Definition Sigma0_512 (x : Z) : Z := S64 28 x .^ S64 34 x .^ S64 39 x.
Definition Sigma1_512 (x : Z) : Z := S64 14 x .^ S64 18 x .^ S64 41 x.
Definition sigma0_512 (x : Z) : Z := S64 1 x .^ S64 8 x .^ R 7 x.
Definition sigma1_512 (x : Z) : Z := S64 19 x .^ S64 61 x .^ R 6 x.

(** ** Constants *)

Definition K256 : list Z :=
  [0x428a2f98; 0x71374491; 0xb5c0fbcf; 0xe9b5dba5] ++
  [0x3956c25b; 0x59f111f1; 0x923f82a4; 0xab1c5ed5] ++
  [0xd807aa98; 0x12835b01; 0x243185be; 0x550c7dc3] ++
  [0x72be5d74; 0x80deb1fe; 0x9bdc06a7; 0xc19bf174] ++
  [0xe49b69c1; 0xefbe4786; 0x0fc19dc6; 0x240ca1cc] ++
  [0x2de92c6f; 0x4a7484aa; 0x5cb0a9dc; 0x76f988da] ++
  [0x983e5152; 0xa831c66d; 0xb00327c8; 0xbf597fc7] ++
  [0xc6e00bf3; 0xd5a79147; 0x06ca6351; 0x14292967] ++
  [0x27b70a85; 0x2e1b2138; 0x4d2c6dfc; 0x53380d13] ++
  [0x650a7354; 0x766a0abb; 0x81c2c92e; 0x92722c85] ++
  [0xa2bfe8a1; 0xa81a664b; 0xc24b8b70; 0xc76c51a3] ++
  [0xd192e819; 0xd6990624; 0xf40e3585; 0x106aa070] ++
  [0x19a4c116; 0x1e376c08; 0x2748774c; 0x34b0bcb5] ++
  [0x391c0cb3; 0x4ed8aa4a; 0x5b9cca4f; 0x682e6ff3] ++
  [0x748f82ee; 0x78a5636f; 0x84c87814; 0x8cc70208] ++
  [0x90befffa; 0xa4506ceb; 0xbef9a3f7; 0xc67178f2].

Definition K512 : list Z :=
  [0x428a2f98d728ae22; 0x7137449123ef65cd; 0xb5c0fbcfec4d3b2f; 0xe9b5dba58189dbbc;
   0x3956c25bf348b538; 0x59f111f1b605d019; 0x923f82a4af194f9b; 0xab1c5ed5da6d8118;
   0xd807aa98a3030242; 0x12835b0145706fbe; 0x243185be4ee4b28c; 0x550c7dc3d5ffb4e2;
   0x72be5d74f27b896f; 0x80deb1fe3b1696b1; 0x9bdc06a725c71235; 0xc19bf174cf692694;
   0xe49b69c19ef14ad2; 0xefbe4786384f25e3; 0x0fc19dc68b8cd5b5; 0x240ca1cc77ac9c65;
   0x2de92c6f592b0275; 0x4a7484aa6ea6e483; 0x5cb0a9dcbd41fbd4; 0x76f988da831153b5;
   0x983e5152ee66dfab; 0xa831c66d2db43210; 0xb00327c898fb213f; 0xbf597fc7beef0ee4;
   0xc6e00bf33da88fc2; 0xd5a79147930aa725; 0x06ca6351e003826f; 0x142929670a0e6e70;
   0x27b70a8546d22ffc; 0x2e1b21385c26c926; 0x4d2c6dfc5ac42aed; 0x53380d139d95b3df;
   0x650a73548baf63de; 0x766a0abb3c77b2a8; 0x81c2c92e47edaee6; 0x92722c851482353b;
   0xa2bfe8a14cf10364; 0xa81a664bbc423001; 0xc24b8b70d0f89791; 0xc76c51a30654be30;
   0xd192e819d6ef5218; 0xd69906245565a910; 0xf40e35855771202a; 0x106aa07032bbd1b8;
   0x19a4c116b8d2d0c8; 0x1e376c085141ab53; 0x2748774cdf8eeb99; 0x34b0bcb5e19b48a8;
   0x391c0cb3c5c95a63; 0x4ed8aa4ae3418acb; 0x5b9cca4f7763e373; 0x682e6ff3d6b2b8a3;
   0x748f82ee5defb2fc; 0x78a5636f43172f60; 0x84c87814a1f0ab72; 0x8cc702081a6439ec;
   0x90befffa23631e28; 0xa4506cebde82bde9; 0xbef9a3f7b2c67915; 0xc67178f2e372532b;
   0xca273eceea26619c; 0xd186b8c721c0c207; 0xeada7dd6cde0eb1e; 0xf57d4f7fee6ed178;
   0x06f067aa72176fba; 0x0a637dc5a2c898a6; 0x113f9804bef90dae; 0x1b710b35131c471b;
   0x28db77f523047d84; 0x32caab7b40c72493; 0x3c9ebe0a15c9bebc; 0x431d67c49c100d4c;
   0x4cc5d4becb3e42b6; 0x597f299cfc657e2a; 0x5fcb6fab3ad6faec; 0x6c44198c4a475817].

Definition sha256_initial_hash_value : list Z :=
  [0x6a09e667; 0xbb67ae85; 0x3c6ef372; 0xa54ff53a;
   0x510e527f; 0x9b05688c; 0x1f83d9ab; 0x5be0cd19].

Definition sha512_initial_hash_value : list Z :=
  [0x6a09e667f3bcc908; 0xbb67ae8584caa73b; 0x3c6ef372fe94f82b; 0xa54ff53a5f1d36f1;
   0x510e527fade682d1; 0x9b05688c2b3e6c1f; 0x1f83d9abfb41bd6b; 0x5be0cd19137e2179].

Definition sha224_initial_hash_value : list Z :=
  [0xc1059ed8; 0x367cd507; 0x3070dd17; 0xf70e5939;
   0xffc00b31; 0x68581511; 0x64f98fa7; 0xbefa4fa4].

Definition sha384_initial_hash_value : list Z :=
  [0xcbbb9d5dc1059ed8; 0x629a292a367cd507; 0x9159015a3070dd17; 0x152fecd8f70e5939;
   0x67332667ffc00b31; 0x8eb44a8768581511; 0xdb0c2e0d64f98fa7; 0x47b5481dbefa4fa4].

Definition sha512_256_initial_hash_value : list Z :=
  [0x22312194fc2bf72c; 0x9f555fa3c84c64c2; 0x2393b86b6f53b151; 0x963877195940eabd;
   0x96283ee2a88effe3; 0xbe5e1e2553863992; 0x2b0199fc2c85b8aa; 0x0eb72ddc81c52ca2].

(** ** The two copies of the code *)

#[export] Instance sha256_variant : Sha2Variant := {|
  sv_w := 32; sv_wb := 4; sv_rounds := 64; sv_K := K256;
  sv_Sigma0 := Sigma0_256; sv_Sigma1 := Sigma1_256;
  sv_sigma0 := sigma0_256; sv_sigma1 := sigma1_256;
  sv_load := BE_8_TO_32;
  sv_addcount := fun c n => (add64 (fst c) n, snd c);
  sv_lenlen := 8;
  sv_putlen := fun c => BE_64_TO_8 (fst c);
  sv_clear := 64 - 8;
|}.

#[export] Instance sha512_variant : Sha2Variant := {|
  sv_w := 64; sv_wb := 8; sv_rounds := 80; sv_K := K512;
  sv_Sigma0 := Sigma0_512; sv_Sigma1 := Sigma1_512;
  sv_sigma0 := sigma0_512; sv_sigma1 := sigma1_512;
  sv_load := BE_8_TO_64;
  sv_addcount := ADDINC128;
  sv_lenlen := 16;
  sv_putlen := fun c => BE_64_TO_8 (snd c) ++ BE_64_TO_8 (fst c);
  sv_clear := 128 - 2;
|}.

Definition SHA256Transform := Transform (V := sha256_variant).
Definition SHA256TransformRolled := TransformRolled (V := sha256_variant).
Definition SHA512Transform := Transform (V := sha512_variant).
Definition SHA512TransformRolled := TransformRolled (V := sha512_variant).

(** SHA-224 and SHA-256 reset only the low word of the count. *)
Definition SHA224Init := Init sha224_initial_hash_value (fun c => (0, snd c)).
Definition SHA256Init := Init sha256_initial_hash_value (fun c => (0, snd c)).
Definition SHA512Init := Init sha512_initial_hash_value (fun _ => (0, 0)).
Definition SHA384Init := Init sha384_initial_hash_value (fun _ => (0, 0)).
Definition SHA512_256Init := Init sha512_256_initial_hash_value (fun _ => (0, 0)).

(** SHA-224 shares the Update and Pad of SHA-256; SHA-384 and SHA-512/256
    share those of SHA-512. *)
Definition SHA256Update := Update (V := sha256_variant).
Definition SHA512Update := Update (V := sha512_variant).
Definition SHA256Pad := Pad (V := sha256_variant).
Definition SHA512Pad := Pad (V := sha512_variant).

(** [explicit_bzero(context, sizeof *context)]. *)
Definition bzero_ctx : SHA2_CTX :=
  {| state := replicate 8 0; bitcount := (0, 0); buffer := replicate 128 0 |}.

(** The digest written, and the context afterwards. *)
Definition SHA224Final (ctx : SHA2_CTX) : list Z * SHA2_CTX :=
  let ctx := SHA256Pad ctx in
  (flat_map (fun i => BE_32_TO_8 ((state ctx).[i])) (seqZ 0 7), bzero_ctx).
Definition SHA256Final (ctx : SHA2_CTX) : list Z * SHA2_CTX :=
  let ctx := SHA256Pad ctx in
  (flat_map (fun i => BE_32_TO_8 ((state ctx).[i])) (seqZ 0 8), bzero_ctx).
Definition SHA512Final (ctx : SHA2_CTX) : list Z * SHA2_CTX :=
  let ctx := SHA512Pad ctx in
  (flat_map (fun i => BE_64_TO_8 ((state ctx).[i])) (seqZ 0 8), bzero_ctx).
Definition SHA384Final (ctx : SHA2_CTX) : list Z * SHA2_CTX :=
  let ctx := SHA512Pad ctx in
  (flat_map (fun i => BE_64_TO_8 ((state ctx).[i])) (seqZ 0 6), bzero_ctx).
Definition SHA512_256Final (ctx : SHA2_CTX) : list Z * SHA2_CTX :=
  let ctx := SHA512Pad ctx in
  (flat_map (fun i => BE_64_TO_8 ((state ctx).[i])) (seqZ 0 4), bzero_ctx).

Example sha256_abc :
  (SHA256Final (SHA256Update (SHA256Init bzero_ctx) (ascii_bytes "abc"))).1 =
  be_bytes 32 0xba7816bf8f01cfea414140de5dae2223b00361a396177a9cb410ff61f20015ad.
Proof. vm_compute. reflexivity. Qed.
Example sha512_abc :
  (SHA512Final (SHA512Update (SHA512Init bzero_ctx) (ascii_bytes "abc"))).1 =
  be_bytes 64 0xddaf35a193617abacc417349ae20413112e6fa4e89a97ea20a9eeee64b55d39a2192992a274fc1a836ba3c23a3feebbd454d4423643ce80e2a9ac94fa54ca49f.
Proof. vm_compute. reflexivity. Qed.

(** ** The instances obey the laws of the shared proofs *)

Lemma BE_32_TO_8_bytes x : BE_32_TO_8 x = be_bytes 4 x.
Proof. unfold be_bytes. by rewrite <- PUT_32BIT_LE_bytes. Qed.
Lemma BE_64_TO_8_bytes x : BE_64_TO_8 x = be_bytes 8 x.
Proof. unfold be_bytes. by rewrite <- PUT_64BIT_LE_bytes. Qed.

Lemma BE_8_TO_32_val l : (4 <= length l)%nat -> bytes (take 4 l) -> BE_8_TO_32 l = be_val (take 4 l).
Proof.
  intros Hl Hb. do 4 (destruct l as [|? l]; [simpl in Hl; lia|]).
  cbn [take] in *. by rewrite be_val4.
Qed.

Lemma BE_8_TO_64_val l : (8 <= length l)%nat -> bytes (take 8 l) -> BE_8_TO_64 l = be_val (take 8 l).
Proof.
  intros Hl Hb. do 8 (destruct l as [|? l]; [simpl in Hl; lia|]).
  cbn [take] in *. rewrite take_0 in *. rewrite be_val_le. apply Forall_reverse in Hb.
  unfold reverse in *. cbn [rev_append] in *.
  rewrite le_val8 by done. reflexivity.
Qed.

Lemma count_used n k : 0 <= k <= 61 -> 0 <= n -> (u64 (8 * n) ≫ 3) mod 2 ^ k = n mod 2 ^ k.
Proof.
  intros Hk Hn. rewrite <- (count_have n (2 ^ k) k) by done.
  replace (2 ^ k - 1) with (Z.ones k) by (rewrite Z.ones_equiv; lia). by rewrite Z.land_ones by lia.
Qed.

Lemma be_bytes_u64 x : be_bytes 8 (u64 x) = be_bytes 8 x.
Proof. unfold be_bytes, u64, wrap. f_equal. by apply (le_bytes_mod 8 8). Qed.

#[export] Instance sha256_laws : Sha2Laws sha256_variant.
Proof.
  refine {| sl_count := fun c n => c.1 = u64 (8 * Z.of_nat n) |}; cbn.
  - lia.
  - lia.
  - exists 6. lia.
  - apply BE_8_TO_32_val.
  - lia.
  - lia.
  - intros c n ->. exact (eq_trans (count_used (Z.of_nat n) 6 ltac:(lia) ltac:(lia)) (eq_sym (Nat2Z.inj_mod n 64))).
  - intros c n d Hc _. exact (count_add c.1 n d Hc).
  - intros c n Hc. change (BE_64_TO_8 c.1 = be_bytes 8 (8 * Z.of_nat n)).
    rewrite Hc, BE_64_TO_8_bytes. apply be_bytes_u64.
Defined.

(** The two words of the count are the low and the high half of the bit length. *)
Lemma ADDINC128_add c x n : 0 <= x -> 0 <= n < 2 ^ 64 ->
  c = (u64 x, u64 (x / 2 ^ 64)) -> ADDINC128 c n = (u64 (x + n), u64 ((x + n) / 2 ^ 64)).
Proof.
  intros Hx Hn ->. unfold ADDINC128, add64, u64. cbn [fst snd].
  rewrite wrap_add_l. f_equal. unfold wrap.
  pose proof (Z.div_mod x (2 ^ 64)) as Hd. pose proof (Z.mod_pos_bound x (2 ^ 64)) as Hb.
  set (q := x / 2 ^ 64) in *. set (r := x mod 2 ^ 64) in *.
  replace ((x + n) mod 2 ^ 64) with ((r + n) mod 2 ^ 64).
  2: { replace (x + n) with (r + n + q * 2 ^ 64) by lia. by rewrite Z.mod_add by lia. }
  replace ((x + n) / 2 ^ 64) with ((r + n) / 2 ^ 64 + q).
  2: { replace (x + n) with (r + n + q * 2 ^ 64) by lia. by rewrite Z.div_add by lia. }
  destruct (Z.lt_ge_cases (r + n) (2 ^ 64)).
  - rewrite (Z.mod_small (r + n)), (Z.div_small (r + n)), Z.add_0_l by lia.
    destruct (Z.ltb_spec (r + n) n); [lia|done].
  - replace (r + n) with (r + n - 2 ^ 64 + 1 * 2 ^ 64) by lia.
    rewrite Z.mod_add, Z.div_add, Z.mod_small, Z.div_small, Z.add_0_l by lia.
    destruct (Z.ltb_spec (r + n - 2 ^ 64) n); [|lia].
    rewrite Zplus_mod_idemp_l. f_equal. lia.
Qed.

#[export] Instance sha512_laws : Sha2Laws sha512_variant.
Proof.
  refine {| sl_count := fun c n =>
    c = (u64 (8 * Z.of_nat n), u64 (8 * Z.of_nat n / 2 ^ 64)) |}; cbn.
  - lia.
  - lia.
  - exists 8. lia.
  - apply BE_8_TO_64_val.
  - lia.
  - lia.
  - intros c n ->. exact (eq_trans (count_used (Z.of_nat n) 7 ltac:(lia) ltac:(lia)) (eq_sym (Nat2Z.inj_mod n 128))).
  - intros c n d Hc Hd. change (ADDINC128 c (shl_size d) =
      (u64 (8 * Z.of_nat (n + d)), u64 (8 * Z.of_nat (n + d) / 2 ^ 64))). unfold shl_size, shl64, u64. rewrite Z.shiftl_mul_pow2 by lia.
    rewrite wrap_small by (unfold word; lia). rewrite (ADDINC128_add c (8 * Z.of_nat n)) by (done || lia).
    replace (8 * Z.of_nat n + Z.of_nat d * 2 ^ 3) with (8 * Z.of_nat (n + d)) by lia. done.
  - intros c n ->. change (BE_64_TO_8 (u64 (8 * Z.of_nat n / 2 ^ 64)) ++
      BE_64_TO_8 (u64 (8 * Z.of_nat n)) = be_bytes 16 (8 * Z.of_nat n)). rewrite !BE_64_TO_8_bytes, !be_bytes_u64.
    unfold be_bytes. change 16%nat with (8 + 8)%nat.
    by rewrite (le_bytes_app 8 8), reverse_app.
Defined.

(** ** FIPS 180-4: the constants and the digests *)

Module FIPS180.
(** Integer roots, one bit of the result at a time from bit [n] down. *)
Definition iroot (p : Z -> Z) (n : nat) (x : Z) : Z :=
  foldl (fun r i => let r' := r + 2 ^ (Z.of_nat n - Z.of_nat i) in
           if p r' <=? x then r' else r) 0 (seq 0 (S n)).
Definition prime (n : Z) : bool :=
  (2 <=? n) && forallb (fun d => negb (n mod d =? 0)) (seqZ 2 (n - 2)).
(** The first 80 prime numbers. *)
Definition primes : list Z := List.filter prime (seqZ 2 408).

(** The first [w] bits of the fractional part of a cube or square root. *)
Definition cbrt_frac (w n : Z) : Z := iroot (fun r => r ^ 3) 70 (n * 2 ^ (3 * w)) mod 2 ^ w.
Definition sqrt_frac (w n : Z) : Z := Z.sqrt (n * 2 ^ (2 * w)) mod 2 ^ w.

Definition K (w : Z) (n : nat) : list Z := map (cbrt_frac w) (take n primes).
Definition H256 : list Z := map (sqrt_frac 32) (take 8 primes).
Definition H512 : list Z := map (sqrt_frac 64) (take 8 primes).
Definition H384 : list Z := map (sqrt_frac 64) (take 8 (drop 8 primes)).
(** the second 32 bits of the same roots *)
Definition H224 : list Z := map (fun n => sqrt_frac 64 n mod 2 ^ 32) (take 8 (drop 8 primes)).

Definition chaining (V : Sha2Variant) (iv msg : list Z) : list Z :=
  absorb BLOCK_LENGTH FIPS.compress iv
    (md_pad BLOCK_LENGTH sv_lenlen (be_bytes sv_lenlen) msg).
(** The IV generation function of SHA-512/t. *)
Definition H512_256 : list Z :=
  chaining sha512_variant (map (fun h => h .^ 0xa5a5a5a5a5a5a5a5) H512)
    (ascii_bytes "SHA-512/256").

Definition output (V : Sha2Variant) (n : nat) (st : list Z) : list Z :=
  flat_map (be_bytes sv_wb) (take n st).
End FIPS180.

(** The five algorithms of the file. *)
Inductive algo := SHA224 | SHA256 | SHA384 | SHA512 | SHA512_256.

Definition algo_variant (a : algo) : Sha2Variant :=
  match a with SHA224 | SHA256 => sha256_variant | _ => sha512_variant end.
Definition algo_iv (a : algo) : list Z :=
  match a with
  | SHA224 => FIPS180.H224 | SHA256 => FIPS180.H256 | SHA384 => FIPS180.H384
  | SHA512 => FIPS180.H512 | SHA512_256 => FIPS180.H512_256
  end.
Definition algo_words (a : algo) : nat :=
  match a with SHA224 => 7 | SHA256 => 8 | SHA384 => 6 | SHA512 => 8 | SHA512_256 => 4 end.
Definition algo_limit (a : algo) : Z :=
  match a with SHA224 | SHA256 => 2 ^ 61 | _ => 2 ^ 125 end.
Definition FIPS180_digest (a : algo) (msg : list Z) : list Z :=
  FIPS180.output (algo_variant a) (algo_words a)
    (FIPS180.chaining (algo_variant a) (algo_iv a) msg).

Definition algo_Init (a : algo) : SHA2_CTX -> SHA2_CTX :=
  match a with
  | SHA224 => SHA224Init | SHA256 => SHA256Init | SHA384 => SHA384Init
  | SHA512 => SHA512Init | SHA512_256 => SHA512_256Init
  end.
Definition algo_Update (a : algo) : SHA2_CTX -> list Z -> SHA2_CTX :=
  match a with SHA224 | SHA256 => SHA256Update | _ => SHA512Update end.
Definition algo_Final (a : algo) : SHA2_CTX -> list Z * SHA2_CTX :=
  match a with
  | SHA224 => SHA224Final | SHA256 => SHA256Final | SHA384 => SHA384Final
  | SHA512 => SHA512Final | SHA512_256 => SHA512_256Final
  end.

Lemma iv_values :
  sha256_initial_hash_value = FIPS180.H256 /\ sha224_initial_hash_value = FIPS180.H224 /\
  sha512_initial_hash_value = FIPS180.H512 /\ sha384_initial_hash_value = FIPS180.H384 /\
  sha512_256_initial_hash_value = FIPS180.H512_256.
Proof. split_and!; vm_compute; reflexivity. Qed.

Lemma K_values : K256 = FIPS180.K 32 64 /\ K512 = FIPS180.K 64 80.
Proof. split; vm_compute; reflexivity. Qed.

(** ** Each algorithm as a block hash *)

(** The digest of the code's state: the first words, big-endian. *)
Lemma store_words (f : Z -> list Z) (V : Sha2Variant) n st :
  (forall x, f x = be_bytes sv_wb x) -> (n <= length st)%nat ->
  flat_map (fun i => f (st.[i])) (seqZ 0 (Z.of_nat n)) = FIPS180.output V n st.
Proof.
  intros Hf Hn. unfold FIPS180.output. rewrite <- take_aget by done.
  rewrite !flat_map_concat_map, map_map. f_equal. apply map_ext. intros i. apply Hf.
Qed.

Definition algo_repr (a : algo) : SHA2_CTX -> list Z -> Prop :=
  match a with
  | SHA224 | SHA256 => repr (L := sha256_laws) (algo_iv a)
  | _ => repr (L := sha512_laws) (algo_iv a)
  end.

Lemma compress_length (V : Sha2Variant) st blk : length (FIPS.compress st blk) = 8%nat.
Proof.
  unfold FIPS.compress, add_regs.
  by destruct (FIPS.rounds _ _ _) as [[[[[[[? ?] ?] ?] ?] ?] ?] ?].
Qed.

Lemma chaining_length V (L : Sha2Laws V) iv msg :
  length iv = 8%nat -> bytes msg -> length (FIPS180.chaining V iv msg) = 8%nat.
Proof.
  intros Hl Hm. pose proof sl_wb. apply (absorb_inv BLOCK_LENGTH FIPS.compress
    ltac:(unfold BLOCK_LENGTH; lia) (fun st => length st = 8%nat)); [|done|].
  - intros. apply compress_length.
  - apply md_pad_bytes; [done|]. intros. apply be_bytes_bytes.
Qed.

Lemma algo_iv_length a : length (algo_iv a) = 8%nat.
Proof. destruct a; vm_compute; reflexivity. Qed.

Lemma algo_Init_repr a ctx : algo_repr a (algo_Init a ctx) [].
Proof.
  destruct iv_values as (E1 & E2 & E3 & E4 & E5).
  destruct a; cbn [algo_repr algo_Init algo_iv]; rewrite <- ?E1, <- ?E2, <- ?E3, <- ?E4, <- ?E5;
    first [ apply (Init_repr (L := sha256_laws)) | apply (Init_repr (L := sha512_laws)) ];
    exact eq_refl.
Qed.

Lemma algo_Update_repr a ctx m d :
  bytes d -> algo_repr a ctx m -> algo_repr a (algo_Update a ctx d) (m ++ d).
Proof.
  intros Hd Hr. destruct a; (apply (Update_repr (L := sha256_laws)) ||
    apply (Update_repr (L := sha512_laws))); done.
Qed.

Lemma final_words (V : Sha2Variant) (L : Sha2Laws V) f iv n ctx m :
  (forall x, f x = be_bytes sv_wb x) -> length iv = 8%nat -> (n <= 8)%nat -> repr iv ctx m ->
  flat_map (fun i => f ((state (Pad ctx)).[i])) (seqZ 0 (Z.of_nat n)) =
  FIPS180.output V n (FIPS180.chaining V iv m).
Proof.
  intros Hf Hiv Hn Hr. rewrite (Pad_state iv ctx m Hr). apply store_words; [done|].
  fold (FIPS180.chaining V iv m).
  rewrite chaining_length; [done..|]. apply (abs_bytes _ _ _ _ _ _ (proj1 Hr)).
Qed.

Lemma algo_Final_fips a ctx m : algo_repr a ctx m -> (algo_Final a ctx).1 = FIPS180_digest a m.
Proof.
  intros Hr. pose proof (algo_iv_length a) as Hiv. unfold FIPS180_digest.
  assert (Hn : (algo_words a <= 8)%nat) by (destruct a; cbn; lia).
  destruct a;
    first [ exact (final_words _ sha256_laws _ _ _ _ _ BE_32_TO_8_bytes Hiv Hn Hr)
          | exact (final_words _ sha512_laws _ _ _ _ _ BE_64_TO_8_bytes Hiv Hn Hr) ].
Qed.

#[export] Instance sha2_hash (a : algo) : BlockHash := {|
  bh_ctx := SHA2_CTX; bh_state := list Z;
  bh_block := BLOCK_LENGTH (V := algo_variant a);
  bh_lenlen := sv_lenlen (Sha2Variant := algo_variant a);
  bh_enc := be_bytes (sv_lenlen (Sha2Variant := algo_variant a));
  bh_iv := algo_iv a; bh_compress := FIPS.compress (V := algo_variant a);
  bh_output := FIPS180.output (algo_variant a) (algo_words a); bh_limit := algo_limit a;
  bh_update := algo_Update a; bh_final := fun ctx => (algo_Final a ctx).1;
  bh_repr := algo_repr a;
  bh_update_ok := fun c m d Hd _ => algo_Update_repr a c m d Hd;
  bh_final_ok := fun c m Hr _ => algo_Final_fips a c m Hr;
|}.

(** Conversion unfolds the interface before the code. *)
#[global] Opaque algo_Update algo_Final algo_Init FIPS.compress.

(** ** Properties *)

(** C20: for each of SHA-224, SHA-256, SHA-384, SHA-512 and SHA-512/256, Init,
    any sequence of Updates and Final write the FIPS 180-4 digest of the
    concatenated chunks, whatever the context held before Init. *)
Theorem sha2_streaming (a : algo) (ctx : SHA2_CTX) (chunks : list (list Z)) :
  Forall (fun d => bytes d) chunks -> Z.of_nat (length (concat chunks)) < algo_limit a ->
  (algo_Final a (foldl (algo_Update a) (algo_Init a ctx) chunks)).1 =
  FIPS180_digest a (concat chunks).
Proof.
  intros Hd Hlen.
  exact (bh_stream (H := sha2_hash a) (algo_Init a ctx) [] chunks Hd (algo_Init_repr a ctx) Hlen).
Qed.

Lemma sha2_streaming_witness :
  (algo_Final SHA224 (foldl (algo_Update SHA224) (algo_Init SHA224 bzero_ctx)
     [ascii_bytes "a"; ascii_bytes "bc"])).1 =
  be_bytes 28 0x23097d223405d8228642a477bda255b32aadbce4bda0b3f7e36c9da7.
Proof.
  rewrite sha2_streaming; [vm_compute; reflexivity|..|vm_compute; reflexivity].
  repeat constructor; vm_compute; congruence.
Defined.

(** The unrolled transforms, the ones compiled, and the rolled ones under
    the other branch of SHA2_UNROLL_TRANSFORM compute the same state from any
    state and any data. *)
Theorem sha2_unrolled_rolled (st data : list Z) :
  SHA256Transform st data = SHA256TransformRolled st data /\
  SHA512Transform st data = SHA512TransformRolled st data.
Proof.
  split; [exact (Transform_rolled (L := sha256_laws) st data)|
          exact (Transform_rolled (L := sha512_laws) st data)].
Qed.

(** The round constants are the fractional parts of the cube roots of the
    first 64 and 80 primes; the initial values are the fractional parts of
    square roots of primes, and for SHA-512/256 the SHA-512/t generation
    function's value. *)
Theorem sha2_constants :
  K256 = FIPS180.K 32 64 /\ K512 = FIPS180.K 64 80 /\
  sha256_initial_hash_value = FIPS180.H256 /\ sha224_initial_hash_value = FIPS180.H224 /\
  sha512_initial_hash_value = FIPS180.H512 /\ sha384_initial_hash_value = FIPS180.H384 /\
  sha512_256_initial_hash_value = FIPS180.H512_256.
Proof. exact (conj (proj1 K_values) (conj (proj2 K_values) iv_values)). Qed.
