(* ===== verification/Rmd160.v ===== *)
(** * Rmd160: the RIPEMD-160 message digest of crypt/hash_rmd160.c.

    The two unrolled lines of the transform, the incremental
    Update/Pad/Final, the RIPEMD-160 definition they implement, and the
    instance of [HashSpec.BlockHash]. *)

From S2P Require Import Prelude HashSpec.

Definition RMD160_BLOCK_LENGTH : Z := 64.

(** [RMD160_CTX]: chaining words, bit count, partial block. *)
Record RMD160_CTX := mkRMD160 { state : list Z; count : Z; buffer : list Z }.

Definition H0 : Z := 0x67452301.
Definition H1 : Z := 0xEFCDAB89.
Definition H2 : Z := 0x98BADCFE.
Definition H3 : Z := 0x10325476.
Definition H4 : Z := 0xC3D2E1F0.

Definition K0 : Z := 0x00000000.
Definition K1 : Z := 0x5A827999.
Definition K2 : Z := 0x6ED9EBA1.
Definition K3 : Z := 0x8F1BBCDC.
Definition K4 : Z := 0xA953FD4E.

Definition KK0 : Z := 0x50A28BE6.
Definition KK1 : Z := 0x5C4DD124.
Definition KK2 : Z := 0x6D703EF3.
Definition KK3 : Z := 0x7A6D76E9.
Definition KK4 : Z := 0x00000000.

(** [ROL(n, x)], and the five functions. *)
Definition ROL (n x : Z) : Z := shl32 x n .| (x ≫ (32 - n)).
Definition F0 (x y z : Z) : Z := x .^ y .^ z.
Definition F1 (x y z : Z) : Z := (x .& y) .| (not32 x .& z).
Definition F2 (x y z : Z) : Z := (x .| not32 y) .^ z.
Definition F3 (x y z : Z) : Z := (x .& z) .| (y .& not32 z).
Definition F4 (x y z : Z) : Z := x .^ (y .| not32 z).

(** The step macro: it updates [a] and [c]. *)
Definition R (a b c d e : Z) (Fj : Z -> Z -> Z -> Z) (Kj sj rj : Z) (x : list Z) : Z * Z :=
  (u32 (ROL sj (u32 (a + Fj b c d + x.[rj] + Kj)) + e), ROL 10 c).

(** [0x80] and 63 zero bytes. *)
Definition PADDING : list Z := 128 :: replicate 63 0.

Definition RMD160Init (ctx : RMD160_CTX) : RMD160_CTX :=
  {| count := 0; state := [H0; H1; H2; H3; H4]; buffer := buffer ctx |}.

(** Rounds 1 to 5 of the transform. *)
Definition left_line (a b c d e : Z) (x : list Z) : Z * Z * Z * Z * Z :=
  '(a, c) ::= R a b c d e F0 K0 11 0 x;
  '(e, b) ::= R e a b c d F0 K0 14 1 x;
  '(d, a) ::= R d e a b c F0 K0 15 2 x;
  '(c, e) ::= R c d e a b F0 K0 12 3 x;
  '(b, d) ::= R b c d e a F0 K0 5 4 x;
  '(a, c) ::= R a b c d e F0 K0 8 5 x;
  '(e, b) ::= R e a b c d F0 K0 7 6 x;
  '(d, a) ::= R d e a b c F0 K0 9 7 x;
  '(c, e) ::= R c d e a b F0 K0 11 8 x;
  '(b, d) ::= R b c d e a F0 K0 13 9 x;
  '(a, c) ::= R a b c d e F0 K0 14 10 x;
  '(e, b) ::= R e a b c d F0 K0 15 11 x;
  '(d, a) ::= R d e a b c F0 K0 6 12 x;
  '(c, e) ::= R c d e a b F0 K0 7 13 x;
  '(b, d) ::= R b c d e a F0 K0 9 14 x;
  '(a, c) ::= R a b c d e F0 K0 8 15 x;
  '(e, b) ::= R e a b c d F1 K1 7 7 x;
  '(d, a) ::= R d e a b c F1 K1 6 4 x;
  '(c, e) ::= R c d e a b F1 K1 8 13 x;
  '(b, d) ::= R b c d e a F1 K1 13 1 x;
  '(a, c) ::= R a b c d e F1 K1 11 10 x;
  '(e, b) ::= R e a b c d F1 K1 9 6 x;
  '(d, a) ::= R d e a b c F1 K1 7 15 x;
  '(c, e) ::= R c d e a b F1 K1 15 3 x;
  '(b, d) ::= R b c d e a F1 K1 7 12 x;
  '(a, c) ::= R a b c d e F1 K1 12 0 x;
  '(e, b) ::= R e a b c d F1 K1 15 9 x;
  '(d, a) ::= R d e a b c F1 K1 9 5 x;
  '(c, e) ::= R c d e a b F1 K1 11 2 x;
  '(b, d) ::= R b c d e a F1 K1 7 14 x;
  '(a, c) ::= R a b c d e F1 K1 13 11 x;
  '(e, b) ::= R e a b c d F1 K1 12 8 x;
  '(d, a) ::= R d e a b c F2 K2 11 3 x;
  '(c, e) ::= R c d e a b F2 K2 13 10 x;
  '(b, d) ::= R b c d e a F2 K2 6 14 x;
  '(a, c) ::= R a b c d e F2 K2 7 4 x;
  '(e, b) ::= R e a b c d F2 K2 14 9 x;
  '(d, a) ::= R d e a b c F2 K2 9 15 x;
  '(c, e) ::= R c d e a b F2 K2 13 8 x;
  '(b, d) ::= R b c d e a F2 K2 15 1 x;
  '(a, c) ::= R a b c d e F2 K2 14 2 x;
  '(e, b) ::= R e a b c d F2 K2 8 7 x;
  '(d, a) ::= R d e a b c F2 K2 13 0 x;
  '(c, e) ::= R c d e a b F2 K2 6 6 x;
  '(b, d) ::= R b c d e a F2 K2 5 13 x;
  '(a, c) ::= R a b c d e F2 K2 12 11 x;
  '(e, b) ::= R e a b c d F2 K2 7 5 x;
  '(d, a) ::= R d e a b c F2 K2 5 12 x;
  '(c, e) ::= R c d e a b F3 K3 11 1 x;
  '(b, d) ::= R b c d e a F3 K3 12 9 x;
  '(a, c) ::= R a b c d e F3 K3 14 11 x;
  '(e, b) ::= R e a b c d F3 K3 15 10 x;
  '(d, a) ::= R d e a b c F3 K3 14 0 x;
  '(c, e) ::= R c d e a b F3 K3 15 8 x;
  '(b, d) ::= R b c d e a F3 K3 9 12 x;
  '(a, c) ::= R a b c d e F3 K3 8 4 x;
  '(e, b) ::= R e a b c d F3 K3 9 13 x;
  '(d, a) ::= R d e a b c F3 K3 14 3 x;
  '(c, e) ::= R c d e a b F3 K3 5 7 x;
  '(b, d) ::= R b c d e a F3 K3 6 15 x;
  '(a, c) ::= R a b c d e F3 K3 8 14 x;
  '(e, b) ::= R e a b c d F3 K3 6 5 x;
  '(d, a) ::= R d e a b c F3 K3 5 6 x;
  '(c, e) ::= R c d e a b F3 K3 12 2 x;
  '(b, d) ::= R b c d e a F4 K4 9 4 x;
  '(a, c) ::= R a b c d e F4 K4 15 0 x;
  '(e, b) ::= R e a b c d F4 K4 5 5 x;
  '(d, a) ::= R d e a b c F4 K4 11 9 x;
  '(c, e) ::= R c d e a b F4 K4 6 7 x;
  '(b, d) ::= R b c d e a F4 K4 8 12 x;
  '(a, c) ::= R a b c d e F4 K4 13 2 x;
  '(e, b) ::= R e a b c d F4 K4 12 10 x;
  '(d, a) ::= R d e a b c F4 K4 5 14 x;
  '(c, e) ::= R c d e a b F4 K4 12 1 x;
  '(b, d) ::= R b c d e a F4 K4 13 3 x;
  '(a, c) ::= R a b c d e F4 K4 14 8 x;
  '(e, b) ::= R e a b c d F4 K4 11 11 x;
  '(d, a) ::= R d e a b c F4 K4 8 6 x;
  '(c, e) ::= R c d e a b F4 K4 5 15 x;
  '(b, d) ::= R b c d e a F4 K4 6 13 x;
  (a, b, c, d, e).

(** Parallel rounds 1 to 5. *)
Definition right_line (a b c d e : Z) (x : list Z) : Z * Z * Z * Z * Z :=
  '(a, c) ::= R a b c d e F4 KK0 8 5 x;
  '(e, b) ::= R e a b c d F4 KK0 9 14 x;
  '(d, a) ::= R d e a b c F4 KK0 9 7 x;
  '(c, e) ::= R c d e a b F4 KK0 11 0 x;
  '(b, d) ::= R b c d e a F4 KK0 13 9 x;
  '(a, c) ::= R a b c d e F4 KK0 15 2 x;
  '(e, b) ::= R e a b c d F4 KK0 15 11 x;
  '(d, a) ::= R d e a b c F4 KK0 5 4 x;
  '(c, e) ::= R c d e a b F4 KK0 7 13 x;
  '(b, d) ::= R b c d e a F4 KK0 7 6 x;
  '(a, c) ::= R a b c d e F4 KK0 8 15 x;
  '(e, b) ::= R e a b c d F4 KK0 11 8 x;
  '(d, a) ::= R d e a b c F4 KK0 14 1 x;
  '(c, e) ::= R c d e a b F4 KK0 14 10 x;
  '(b, d) ::= R b c d e a F4 KK0 12 3 x;
  '(a, c) ::= R a b c d e F4 KK0 6 12 x;
  '(e, b) ::= R e a b c d F3 KK1 9 6 x;
  '(d, a) ::= R d e a b c F3 KK1 13 11 x;
  '(c, e) ::= R c d e a b F3 KK1 15 3 x;
  '(b, d) ::= R b c d e a F3 KK1 7 7 x;
  '(a, c) ::= R a b c d e F3 KK1 12 0 x;
  '(e, b) ::= R e a b c d F3 KK1 8 13 x;
  '(d, a) ::= R d e a b c F3 KK1 9 5 x;
  '(c, e) ::= R c d e a b F3 KK1 11 10 x;
  '(b, d) ::= R b c d e a F3 KK1 7 14 x;
  '(a, c) ::= R a b c d e F3 KK1 7 15 x;
  '(e, b) ::= R e a b c d F3 KK1 12 8 x;
  '(d, a) ::= R d e a b c F3 KK1 7 12 x;
  '(c, e) ::= R c d e a b F3 KK1 6 4 x;
  '(b, d) ::= R b c d e a F3 KK1 15 9 x;
  '(a, c) ::= R a b c d e F3 KK1 13 1 x;
  '(e, b) ::= R e a b c d F3 KK1 11 2 x;
  '(d, a) ::= R d e a b c F2 KK2 9 15 x;
  '(c, e) ::= R c d e a b F2 KK2 7 5 x;
  '(b, d) ::= R b c d e a F2 KK2 15 1 x;
  '(a, c) ::= R a b c d e F2 KK2 11 3 x;
  '(e, b) ::= R e a b c d F2 KK2 8 7 x;
  '(d, a) ::= R d e a b c F2 KK2 6 14 x;
  '(c, e) ::= R c d e a b F2 KK2 6 6 x;
  '(b, d) ::= R b c d e a F2 KK2 14 9 x;
  '(a, c) ::= R a b c d e F2 KK2 12 11 x;
  '(e, b) ::= R e a b c d F2 KK2 13 8 x;
  '(d, a) ::= R d e a b c F2 KK2 5 12 x;
  '(c, e) ::= R c d e a b F2 KK2 14 2 x;
  '(b, d) ::= R b c d e a F2 KK2 13 10 x;
  '(a, c) ::= R a b c d e F2 KK2 13 0 x;
  '(e, b) ::= R e a b c d F2 KK2 7 4 x;
  '(d, a) ::= R d e a b c F2 KK2 5 13 x;
  '(c, e) ::= R c d e a b F1 KK3 15 8 x;
  '(b, d) ::= R b c d e a F1 KK3 5 6 x;
  '(a, c) ::= R a b c d e F1 KK3 8 4 x;
  '(e, b) ::= R e a b c d F1 KK3 11 1 x;
  '(d, a) ::= R d e a b c F1 KK3 14 3 x;
  '(c, e) ::= R c d e a b F1 KK3 14 11 x;
  '(b, d) ::= R b c d e a F1 KK3 6 15 x;
  '(a, c) ::= R a b c d e F1 KK3 14 0 x;
  '(e, b) ::= R e a b c d F1 KK3 6 5 x;
  '(d, a) ::= R d e a b c F1 KK3 9 12 x;
  '(c, e) ::= R c d e a b F1 KK3 12 2 x;
  '(b, d) ::= R b c d e a F1 KK3 9 13 x;
  '(a, c) ::= R a b c d e F1 KK3 12 9 x;
  '(e, b) ::= R e a b c d F1 KK3 5 7 x;
  '(d, a) ::= R d e a b c F1 KK3 15 10 x;
  '(c, e) ::= R c d e a b F1 KK3 8 14 x;
  '(b, d) ::= R b c d e a F0 KK4 8 12 x;
  '(a, c) ::= R a b c d e F0 KK4 5 15 x;
  '(e, b) ::= R e a b c d F0 KK4 12 10 x;
  '(d, a) ::= R d e a b c F0 KK4 9 4 x;
  '(c, e) ::= R c d e a b F0 KK4 12 1 x;
  '(b, d) ::= R b c d e a F0 KK4 5 5 x;
  '(a, c) ::= R a b c d e F0 KK4 14 8 x;
  '(e, b) ::= R e a b c d F0 KK4 6 7 x;
  '(d, a) ::= R d e a b c F0 KK4 8 6 x;
  '(c, e) ::= R c d e a b F0 KK4 13 2 x;
  '(b, d) ::= R b c d e a F0 KK4 6 13 x;
  '(a, c) ::= R a b c d e F0 KK4 5 14 x;
  '(e, b) ::= R e a b c d F0 KK4 15 0 x;
  '(d, a) ::= R d e a b c F0 KK4 13 3 x;
  '(c, e) ::= R c d e a b F0 KK4 11 9 x;
  '(b, d) ::= R b c d e a F0 KK4 11 11 x;
  (a, b, c, d, e).

Definition RMD160Transform (state block : list Z) : list Z :=
  let x := le_words block in
  let '(aa, bb, cc, dd, ee) :=
    left_line (state.[0]) (state.[1]) (state.[2]) (state.[3]) (state.[4]) x in
  let '(a, b, c, d, e) :=
    right_line (state.[0]) (state.[1]) (state.[2]) (state.[3]) (state.[4]) x in
  let t := u32 (state.[1] + cc + d) in
  let s1 := u32 (state.[2] + dd + e) in
  let s2 := u32 (state.[3] + ee + a) in
  let s3 := u32 (state.[4] + aa + b) in
  let s4 := u32 (state.[0] + bb + c) in
  [t; s1; s2; s3; s4].

Definition RMD160Update (ctx : RMD160_CTX) (input : list Z) : RMD160_CTX :=
  let len := Z.of_nat (length input) in
  let have := (count ctx / 8) mod RMD160_BLOCK_LENGTH in
  let need := RMD160_BLOCK_LENGTH - have in
  let count' := add64 (count ctx) (u64 (8 * len)) in
  let off := 0 in
  let '(st, buf, have, off) :=
    if need <=? len then
      let '(st, buf, have, off) :=
        if negb (have =? 0) then
          let buf := splice (buffer ctx) (Z.to_nat have) (take (Z.to_nat need) input) in
          (RMD160Transform (state ctx) buf, buf, 0, need)
        else (state ctx, buffer ctx, have, off) in
      (* now the buffer is empty *)
      let '(st, off) :=
        while_ (length input)
          (fun '(_, off) => u64 (off + RMD160_BLOCK_LENGTH) <=? len)
          (fun '(st, off) =>
             (RMD160Transform st (take 64 (drop (Z.to_nat off) input)),
              off + RMD160_BLOCK_LENGTH))
          (st, off) in
      (st, buf, have, off)
    else (state ctx, buffer ctx, have, off) in
  let buf := if off <? len
             then splice buf (Z.to_nat have) (drop (Z.to_nat off) input) else buf in
  {| state := st; count := count'; buffer := buf |}.

Definition RMD160Pad (ctx : RMD160_CTX) : RMD160_CTX :=
  let size := PUT_64BIT_LE (count ctx) in
  let padlen := RMD160_BLOCK_LENGTH - ((count ctx / 8) mod RMD160_BLOCK_LENGTH) in
  let padlen := if padlen <? 1 + 8 then padlen + RMD160_BLOCK_LENGTH else padlen in
  let ctx := RMD160Update ctx (take (Z.to_nat (padlen - 8)) PADDING) in
  RMD160Update ctx size.

(** Final returns the digest and the context [explicit_bzero] leaves. *)
Definition RMD160Final (ctx : RMD160_CTX) : list Z * RMD160_CTX :=
  let ctx := RMD160Pad ctx in
  (flat_map (fun i => PUT_32BIT_LE ((state ctx).[i])) (seqZ 0 5),
   {| state := replicate 5 0; count := 0; buffer := replicate 64 0 |}).

(** ** The reference: Dobbertin, Bosselaers and Preneel *)

Module RIPEMD.
(** The word permutations: the left line selects word i, rho i, rho rho i, ...;
    the right line pi i, rho pi i, ..., with pi i = 9 i + 5 mod 16. *)
Definition rho (i : nat) : nat :=
  nth i [7; 4; 13; 1; 10; 6; 15; 3; 12; 0; 9; 5; 2; 14; 11; 8]%nat 0%nat.
Definition pi (i : nat) : nat := ((9 * i + 5) mod 16)%nat.
Definition left_word (j i : nat) : nat := Nat.iter j rho i.
Definition right_word (j i : nat) : nat := Nat.iter j rho (pi i).

(** The rotation of a message word in each round, in both lines. *)
Definition shifts : list (list Z) :=
  [[11; 14; 15; 12; 5; 8; 7; 9; 11; 13; 14; 15; 6; 7; 9; 8];
   [12; 13; 11; 15; 6; 9; 9; 7; 12; 15; 11; 13; 7; 8; 7; 7];
   [13; 15; 14; 11; 7; 7; 6; 8; 13; 14; 13; 12; 5; 5; 6; 9];
   [14; 11; 12; 14; 8; 6; 5; 5; 15; 12; 15; 14; 9; 9; 8; 6];
   [15; 12; 13; 13; 9; 5; 8; 6; 14; 11; 12; 11; 8; 6; 5; 5]].
Definition shift (j word : nat) : Z := nth word (nth j shifts []) 0.

(** 2^30 times square and cube roots of 2, 3, 5 and 7. *)
Definition sqrt30 (n : Z) : Z := Z.sqrt (n * 2 ^ 60).
Definition cbrt30 (n : Z) : Z :=
  foldl (fun r i => let r' := r + 2 ^ (40 - Z.of_nat i) in
           if r' ^ 3 <=? n * 2 ^ 90 then r' else r) 0 (seq 0 41).
Definition left_K (j : nat) : Z := nth j (0 :: map sqrt30 [2; 3; 5; 7]) 0.
Definition right_K (j : nat) : Z := nth j (map cbrt30 [2; 3; 5; 7] ++ [0]) 0.

Definition f (j : nat) : Z -> Z -> Z -> Z :=
  match j with
  | 0%nat => fun x y z => x .^ y .^ z
  | 1%nat => fun x y z => (x .& y) .| (not32 x .& z)
  | 2%nat => fun x y z => (x .| not32 y) .^ z
  | 3%nat => fun x y z => (x .& z) .| (y .& not32 z)
  | _ => fun x y z => x .^ (y .| not32 z)
  end.

(** One step: function, constant, word and rotation. *)
Definition op : Type := nat * Z * nat * Z.
Definition left_ops : list op :=
  flat_map (fun j => map (fun i => let w := left_word j i in (j, left_K j, w, shift j w))
                         (seq 0 16)) (seq 0 5).
Definition right_ops : list op :=
  flat_map (fun j => map (fun i => let w := right_word j i in
                            ((4 - j)%nat, right_K j, w, shift j w))
                         (seq 0 16)) (seq 0 5).

Definition step (x : list Z) (r : Z * Z * Z * Z * Z) (o : op) : Z * Z * Z * Z * Z :=
  let '(A, B, C, D, E) := r in
  let '(j, k, w, s) := o in
  let T := u32 (rol32 (u32 (A + f j B C D + x.[Z.of_nat w] + k)) s + E) in
  (E, T, B, rol32 C 10, D).

Definition compress (st block : list Z) : list Z :=
  let x := le_words block in
  let r0 := (st.[0], st.[1], st.[2], st.[3], st.[4]) in
  let '(A, B, C, D, E) := foldl (step x) r0 left_ops in
  let '(A', B', C', D', E') := foldl (step x) r0 right_ops in
  [u32 (st.[1] + C + D'); u32 (st.[2] + D + E'); u32 (st.[3] + E + A');
   u32 (st.[4] + A + B'); u32 (st.[0] + B + C')].

Definition iv : list Z := [0x67452301; 0xefcdab89; 0x98badcfe; 0x10325476; 0xc3d2e1f0].
Definition output (st : list Z) : list Z := flat_map (le_bytes 4) st.
Definition digest (msg : list Z) : list Z :=
  output (absorb 64 compress iv (md_pad 64 8 (le_bytes 8) msg)).
End RIPEMD.

(** ** The transform implements the reference *)

Lemma line_assign {A} (r : Z * Z) x a b c d e o ts (k : _ -> A) (fin : _ -> A) T C :
  r = (T, C) -> RIPEMD.step x (a, b, c, d, e) o = (e, T, b, C, d) ->
  (forall T C, k (T, C) = fin (foldl (RIPEMD.step x) (e, T, b, C, d) ts)) ->
  assign r k = fin (foldl (RIPEMD.step x) (a, b, c, d, e) (o :: ts)).
Proof. intros -> E H. apply assign_elim. rewrite H, foldl_cons, E. done. Qed.

Ltac rmd_line :=
  lazymatch goal with
  | |- assign (R ?a ?b ?c ?d ?e ?F ?K ?s ?r ?x) _ = foldl _ _ (?o :: ?ts) =>
      refine (line_assign (R a b c d e F K s r x) x a b c d e o ts _ (fun res => res)
                _ _ eq_refl eq_refl _); intros ? ?; cbv beta iota
  end.

Lemma left_line_ref a b c d e x :
  left_line a b c d e x = foldl (RIPEMD.step x) (a, b, c, d, e) RIPEMD.left_ops.
Proof.
  unfold left_line.
  let l := eval vm_compute in RIPEMD.left_ops in replace RIPEMD.left_ops with l
    by (vm_compute; reflexivity).
  do 80 rmd_line. reflexivity.
Qed.

Lemma right_line_ref a b c d e x :
  right_line a b c d e x = foldl (RIPEMD.step x) (a, b, c, d, e) RIPEMD.right_ops.
Proof.
  unfold right_line.
  let l := eval vm_compute in RIPEMD.right_ops in replace RIPEMD.right_ops with l
    by (vm_compute; reflexivity).
  do 80 rmd_line. reflexivity.
Qed.

Lemma RMD160Transform_ref st block : RMD160Transform st block = RIPEMD.compress st block.
Proof.
  unfold RMD160Transform, RIPEMD.compress. by rewrite left_line_ref, right_line_ref.
Qed.

#[global] Opaque RMD160Transform RIPEMD.compress.

(** ** Update, Pad and Final absorb the padded message *)

Definition rmd160_repr (ctx : RMD160_CTX) (m : list Z) : Prop :=
  absorbed 64 RIPEMD.compress RIPEMD.iv (state ctx) (buffer ctx) m /\
  count ctx = u64 (8 * Z.of_nat (length m)).

Lemma RMD160Init_repr ctx : length (buffer ctx) = 64%nat -> rmd160_repr (RMD160Init ctx) [].
Proof. intros H. split; [|done]. by apply absorbed_init; [lia|]. Qed.

Lemma have_repr ctx m : rmd160_repr ctx m ->
  (count ctx / 8) mod RMD160_BLOCK_LENGTH = Z.of_nat (length m mod 64).
Proof.
  intros [_ ->]. change 8 with (2 ^ 3) at 2. rewrite <- Z.shiftr_div_pow2 by lia.
  change RMD160_BLOCK_LENGTH with (2 ^ 6). rewrite <- Z.land_ones by lia.
  change (Z.ones 6) with (64 - 1). rewrite (count_have _ 64 6) by lia.
  by rewrite Nat2Z.inj_mod.
Qed.

Lemma RMD160Update_repr ctx m d :
  bytes d -> Z.of_nat (length d) < 2 ^ 64 - 64 ->
  rmd160_repr ctx m -> rmd160_repr (RMD160Update ctx d) (m ++ d).
Proof.
  intros Hd Hlim Hr. pose proof Hr as [Ha Hc]. pose proof (abs_len _ _ _ _ _ _ Ha) as Hl.
  unfold RMD160Update. cbv zeta. rewrite (have_repr ctx m Hr). change RMD160_BLOCK_LENGTH with 64.
  set (h := (length m mod 64)%nat) in *.
  assert (Hh : (h < 64)%nat) by (apply Nat.mod_upper_bound; lia).
  assert (Hcnt : forall st buf, absorbed 64 RIPEMD.compress RIPEMD.iv st buf (m ++ d) ->
      rmd160_repr {| state := st; count := add64 (count ctx) (u64 (8 * Z.of_nat (length d)));
        buffer := buf |} (m ++ d)).
  { intros st buf H. split; [done|]. simpl. rewrite Hc. unfold add64, u64.
    rewrite wrap_add_l, wrap_add_r, length_app. f_equal. lia. }
  assert (Hloop : forall st off, 0 <= off <= Z.of_nat (length d) -> exists off',
    while_ (length d) (fun '(_, off) => u64 (off + 64) <=? Z.of_nat (length d))
      (fun '(st, off) => (RMD160Transform st (take 64 (drop (Z.to_nat off) d)), off + 64)) (st, off) =
    (absorb 64 RIPEMD.compress st (drop (Z.to_nat off) d), off') /\
    drop (Z.to_nat off') d = leftover 64 (drop (Z.to_nat off) d) /\ off <= off' <= Z.of_nat (length d)).
  { intros st off Hoff.
    destruct (while_absorb_idx 64 RMD160Transform (fun off => u64 (off + 64) <=? Z.of_nat (length d))
      (length d) st d off) as (o & E & Ho & Hdrop); [lia|lia|lia| |].
    - intros i Hi. unfold u64. by rewrite wrap_small by (unfold word; lia).
    - exists o. split; [|done]. rewrite (absorb_ext 64 RIPEMD.compress RMD160Transform (fun _ => True));
        [exact E|lia| |done|by apply Forall_drop].
      intros st0 blk _ _ _. exact (conj I (eq_sym (RMD160Transform_ref st0 blk))). }
  assert (Hguard : forall (b : list Z) have off, 0 <= off <= Z.of_nat (length d) -> (have <= 64)%nat ->
    length b = 64%nat ->
    (if off <? Z.of_nat (length d) then splice b have (drop (Z.to_nat off) d) else b) =
    splice b have (drop (Z.to_nat off) d)).
  { intros b hv off Hoff Hv Hb. destruct (Z.ltb_spec off (Z.of_nat (length d))); [done|].
    rewrite drop_ge by lia. unfold splice. simpl. by rewrite Nat.add_0_r, take_drop. }
  destruct (Z.leb_spec (64 - Z.of_nat h) (Z.of_nat (length d))) as [Hge|Hlt].
  - destruct (Z.eqb_spec (Z.of_nat h) 0) as [E|E]; cbn [negb].
    + destruct (Hloop (state ctx) 0 ltac:(lia)) as (o & -> & Hdrop & Ho).
      rewrite E. change (Z.to_nat 0) with 0%nat in *. rewrite Hguard, Hdrop, drop_0 by lia.
      apply Hcnt. apply absorbed_aligned; [lia|done|done|fold h; lia].
    + replace (Z.to_nat (64 - Z.of_nat h)) with (64 - h)%nat by lia. rewrite Nat2Z.id.
      set (buf := splice (buffer ctx) h (take (64 - h) d)).
      destruct (Hloop (RMD160Transform (state ctx) buf) (64 - Z.of_nat h) ltac:(lia))
        as (o & -> & Hdrop & Ho).
      assert (Hb : length buf = 64%nat).
      { unfold buf. rewrite splice_length; [done|]. rewrite length_take. lia. }
      rewrite Hguard, Hdrop by lia. apply Hcnt. change (Z.to_nat 0) with 0%nat.
      replace (Z.to_nat (64 - Z.of_nat h)) with (64 - h)%nat by lia.
      rewrite RMD160Transform_ref. apply absorbed_fill; [lia|done|done|fold h; lia|lia].
  - rewrite Hguard by lia. apply Hcnt. change (Z.to_nat 0) with 0%nat. rewrite drop_0, Nat2Z.id.
    apply absorbed_partial; [lia|done|done|fold h; lia].
Qed.

Lemma rmd160_padding n :
  take (Z.to_nat ((let padlen := RMD160_BLOCK_LENGTH - Z.of_nat (n mod 64) in
                   if padlen <? 1 + 8 then padlen + RMD160_BLOCK_LENGTH else padlen) - 8)) PADDING =
  [128] ++ replicate (pad_zeros 64 8 n) 0.
Proof.
  rewrite pad_zeros_mod by lia. pose proof (Nat.mod_upper_bound n 64 ltac:(lia)).
  generalize dependent (n mod 64)%nat. intros h Hh. cbv zeta. unfold PADDING.
  change RMD160_BLOCK_LENGTH with 64. change (64 - 8)%nat with 56%nat.
  destruct (Z.ltb_spec (64 - Z.of_nat h) (1 + 8)), (Nat.ltb_spec h 56); try lia.
  all: match goal with |- take (Z.to_nat ?z) _ = _ =>
         replace (Z.to_nat z) with (S (Z.to_nat z - 1)) by lia end;
       rewrite firstn_cons, take_replicate; simpl app; do 2 f_equal; lia.
Qed.

Lemma RMD160Pad_state ctx m : Z.of_nat (length m) + 128 < 2 ^ 64 -> rmd160_repr ctx m ->
  state (RMD160Pad ctx) = absorb 64 RIPEMD.compress RIPEMD.iv (md_pad 64 8 (le_bytes 8) m).
Proof.
  intros Hlim Hr. pose proof Hr as [Ha Hc]. unfold RMD160Pad. rewrite (have_repr ctx m Hr).
  cbv zeta. rewrite rmd160_padding, PUT_64BIT_LE_bytes.
  assert (Hz : bytes ([128] ++ replicate (pad_zeros 64 8 (length m)) 0)).
  { apply Forall_app. split; [repeat constructor; lia|].
    apply Forall_replicate. unfold word. lia. }
  assert (Hp : (pad_zeros 64 8 (length m) < 64)%nat) by (apply Nat.mod_upper_bound; lia).
  assert (Hzl : Z.of_nat (length ([128] ++ replicate (pad_zeros 64 8 (length m)) 0)) < 2 ^ 64 - 64)
    by (rewrite length_app, length_replicate; simpl length; lia).
  pose proof (RMD160Update_repr _ _ _ Hz Hzl Hr) as H1.
  assert (Hel : Z.of_nat (length (le_bytes 8 (count ctx))) < 2 ^ 64 - 64)
    by (rewrite le_bytes_length; lia).
  pose proof (RMD160Update_repr _ _ _ (le_bytes_bytes 8 (count ctx)) Hel H1) as [H2 _].
  rewrite (abs_state _ _ _ _ _ _ H2). unfold md_pad. rewrite Hc, <- !app_assoc.
  do 4 f_equal. by apply (le_bytes_mod 8 8).
Qed.

Lemma RMD160Final_ref ctx m : Z.of_nat (length m) + 128 < 2 ^ 64 -> rmd160_repr ctx m ->
  (RMD160Final ctx).1 = RIPEMD.digest m.
Proof.
  intros Hlim Hr. unfold RMD160Final. cbn [fst]. rewrite (RMD160Pad_state ctx m Hlim Hr).
  unfold RIPEMD.digest, RIPEMD.output.
  assert (Hl : length (absorb 64 RIPEMD.compress RIPEMD.iv (md_pad 64 8 (le_bytes 8) m)) = 5%nat).
  { apply (absorb_inv 64 _ ltac:(lia) (fun st => length st = 5%nat)); [|done|].
    - intros s blk _ _ _. Transparent RIPEMD.compress. unfold RIPEMD.compress.
      destruct (foldl _ _ RIPEMD.left_ops) as [[[[? ?] ?] ?] ?].
      by destruct (foldl _ _ RIPEMD.right_ops) as [[[[? ?] ?] ?] ?].
    - apply md_pad_bytes; [apply Hr|intros; apply le_bytes_bytes]. }
  destruct (absorb _ _ _ _) as [|a [|b [|c [|d [|e [|]]]]]]; try done.
  change (seqZ 0 5) with [0; 1; 2; 3; 4]. cbn [flat_map]. by rewrite !PUT_32BIT_LE_bytes.
Qed.

(** RIPEMD-160 as a block hash. *)
#[export] Instance rmd160_hash : BlockHash := {|
  bh_ctx := RMD160_CTX; bh_state := list Z; bh_block := 64; bh_lenlen := 8;
  bh_enc := le_bytes 8; bh_iv := RIPEMD.iv; bh_compress := RIPEMD.compress;
  bh_output := RIPEMD.output; bh_limit := 2 ^ 64 - 128;
  bh_update := RMD160Update; bh_final := fun ctx => (RMD160Final ctx).1;
  bh_repr := rmd160_repr;
  bh_update_ok := fun c m d Hd Hl => RMD160Update_repr c m d Hd
    ltac:(rewrite length_app in Hl; lia);
  bh_final_ok := fun c m Hr Hl => RMD160Final_ref c m ltac:(lia) Hr;
|}.

#[global] Opaque RMD160Update RMD160Final RMD160Transform RIPEMD.compress.

(** ** Properties *)

(** Hashing a message incrementally, in chunks of any sizes, writes the
    RIPEMD-160 digest of the concatenation of the chunks. *)
Theorem rmd160_streaming (ctx : RMD160_CTX) (chunks : list (list Z)) :
  length (buffer ctx) = 64%nat -> Forall (fun d => bytes d) chunks ->
  Z.of_nat (length (concat chunks)) < 2 ^ 64 - 128 ->
  (RMD160Final (foldl RMD160Update (RMD160Init ctx) chunks)).1 = RIPEMD.digest (concat chunks).
Proof.
  intros Hb Hd Hlen.
  exact (bh_stream (H := rmd160_hash) (RMD160Init ctx) [] chunks Hd (RMD160Init_repr ctx Hb) Hlen).
Qed.

Lemma rmd160_streaming_witness :
  (RMD160Final (foldl RMD160Update (RMD160Init (mkRMD160 [] 0 (replicate 64 0)))
     [ascii_bytes "message "; ascii_bytes "digest"])).1 =
  be_bytes 20 0x5d0689ef49d2fae572b881b123a85ffa21595f36.
Proof.
  rewrite rmd160_streaming; [vm_compute; reflexivity|reflexivity|..|vm_compute; reflexivity].
  repeat constructor; vm_compute; congruence.
Defined.
