(* ===== verification/SipHash.v ===== *)
(** * SipHash: the keyed hash of crypt/hash_siphash.c.

    SipHash-c-d over an incremental context, against the definition of the
    paper (Aumasson and Bernstein): compression of the little-endian words of
    the padded message, then finalisation. *)

From S2P Require Import Prelude HashSpec.

Abbreviation vec := (Z * Z * Z * Z)%type.

(** [SIPHASH_CTX]: the four words, the partial block, the byte count (32 bits). *)
Record SIPHASH_CTX := mkSip { v : vec; buf : list Z; count : Z }.
Record SIPHASH_KEY := mkKey { k0 : Z; k1 : Z }.

Definition SIP_ROTL (x b : Z) : Z := shl64 x b .| (x ≫ (64 - b)).

(** One iteration of [SipHash_Rounds], statement by statement. *)
Definition SipRound (s : vec) : vec :=
  let '(v0, v1, v2, v3) := s in
  let v0 := add64 v0 v1 in
  let v2 := add64 v2 v3 in
  let v1 := SIP_ROTL v1 13 in
  let v3 := SIP_ROTL v3 16 in
  let v1 := v1 .^ v0 in
  let v3 := v3 .^ v2 in
  let v0 := SIP_ROTL v0 32 in
  let v2 := add64 v2 v1 in
  let v0 := add64 v0 v3 in
  let v1 := SIP_ROTL v1 17 in
  let v3 := SIP_ROTL v3 21 in
  let v1 := v1 .^ v2 in
  let v3 := v3 .^ v0 in
  let v2 := SIP_ROTL v2 32 in
  (v0, v1, v2, v3).

(** [while (rounds--)]. *)
Definition SipHash_Rounds (rounds : nat) (s : vec) : vec := Nat.iter rounds SipRound s.

(** The compression of the block in the buffer. *)
Definition SipHash_CRounds (rounds : nat) (s : vec) (buf : list Z) : vec :=
  let m := le_val buf in
  let '(v0, v1, v2, v3) := s in
  let v3 := v3 .^ m in
  let '(v0, v1, v2, v3) := SipHash_Rounds rounds (v0, v1, v2, v3) in
  (v0 .^ m, v1, v2, v3).

Definition SipHash_Init (key : SIPHASH_KEY) : SIPHASH_CTX :=
  {| v := (0x736f6d6570736575 .^ k0 key, 0x646f72616e646f6d .^ k1 key,
           0x6c7967656e657261 .^ k0 key, 0x7465646279746573 .^ k1 key);
     buf := replicate 8 0; count := 0 |}.

Definition SIPHASH_BLOCK_LENGTH : nat := 8.

Definition SipHash_used (ctx : SIPHASH_CTX) : nat := Z.to_nat (count ctx mod 8).

(** [while (len >= sizeof ctx->buf)], and the rest kept in the buffer. *)
Definition SipHash_blocks (rc : nat) (s : SIPHASH_CTX * list Z) : SIPHASH_CTX * list Z :=
  while_ (length s.2) (fun '(_, ptr) => (SIPHASH_BLOCK_LENGTH <=? length ptr)%nat)
    (fun '(ctx, ptr) =>
       let b := take SIPHASH_BLOCK_LENGTH ptr in
       ({| buf := b; v := SipHash_CRounds rc (v ctx) b; count := count ctx |},
        drop SIPHASH_BLOCK_LENGTH ptr)) s.
Definition SipHash_rest (s : SIPHASH_CTX * list Z) : SIPHASH_CTX :=
  let '(ctx, ptr) := s in
  if (0 <? length ptr)%nat then
    {| v := v ctx; buf := splice (buf ctx) 0 ptr; count := count ctx |}
  else ctx.

Definition SipHash_Update (ctx : SIPHASH_CTX) (rc rf : nat) (src : list Z) : SIPHASH_CTX :=
  let len := length src in
  if (len =? 0)%nat then ctx else
  let used := SipHash_used ctx in
  let ctx := {| v := v ctx; buf := buf ctx; count := u32 (count ctx + Z.of_nat len) |} in
  if (0 <? used)%nat then
    let left := (SIPHASH_BLOCK_LENGTH - used)%nat in
    if (left <=? len)%nat then
      let b := splice (buf ctx) used (take left src) in
      let ctx := {| buf := b; v := SipHash_CRounds rc (v ctx) b; count := count ctx |} in
      SipHash_rest (SipHash_blocks rc (ctx, drop left src))
    else {| v := v ctx; buf := splice (buf ctx) used src; count := count ctx |}
  else SipHash_rest (SipHash_blocks rc (ctx, src)).

Definition SipHash_End (ctx : SIPHASH_CTX) (rc rf : nat) : Z * SIPHASH_CTX :=
  let used := SipHash_used ctx in
  let left := (SIPHASH_BLOCK_LENGTH - used)%nat in
  let b := splice (buf ctx) used (replicate (left - 1) 0) in
  let b := <[7%nat := u8 (count ctx)]> b in
  let '(v0, v1, v2, v3) := SipHash_CRounds rc (v ctx) b in
  let v2 := v2 .^ 0xff in
  let '(v0, v1, v2, v3) := SipHash_Rounds rf (v0, v1, v2, v3) in
  let r := (v0 .^ v1) .^ (v2 .^ v3) in
  (r, {| v := (0, 0, 0, 0); buf := replicate 8 0; count := 0 |}).

Definition SipHash_Final (ctx : SIPHASH_CTX) (rc rf : nat) : list Z * SIPHASH_CTX :=
  let '(r, ctx) := SipHash_End ctx rc rf in (le_bytes 8 r, ctx).

Definition SipHash (key : SIPHASH_KEY) (rc rf : nat) (src : list Z) : Z :=
  let ctx := SipHash_Init key in
  let ctx := SipHash_Update ctx rc rf src in
  (SipHash_End ctx rc rf).1.

(** ** The reference: SipHash-c-d of the paper *)

Module Paper.
Definition rotl (x b : Z) : Z := shl64 x b .| (x ≫ (64 - b)).
(** The ARX network as the paper orders it. *)
Definition SipRound (s : vec) : vec :=
  let '(v0, v1, v2, v3) := s in
  let v0 := add64 v0 v1 in let v1 := rotl v1 13 in let v1 := v1 .^ v0 in
  let v0 := rotl v0 32 in
  let v2 := add64 v2 v3 in let v3 := rotl v3 16 in let v3 := v3 .^ v2 in
  let v0 := add64 v0 v3 in let v3 := rotl v3 21 in let v3 := v3 .^ v0 in
  let v2 := add64 v2 v1 in let v1 := rotl v1 17 in let v1 := v1 .^ v2 in
  let v2 := rotl v2 32 in
  (v0, v1, v2, v3).
Definition compress (c : nat) (s : vec) (block : list Z) : vec :=
  let m := le_val block in
  let '(v0, v1, v2, v3) := s in
  let '(v0, v1, v2, v3) := Nat.iter c SipRound (v0, v1, v2, v3 .^ m) in
  (v0 .^ m, v1, v2, v3).
Definition init (key : SIPHASH_KEY) : vec :=
  (k0 key .^ 0x736f6d6570736575, k1 key .^ 0x646f72616e646f6d,
   k0 key .^ 0x6c7967656e657261, k1 key .^ 0x7465646279746573).
(** Zero bytes up to the last byte of a word, which is the length mod 256. *)
Definition pad (m : list Z) : list Z :=
  m ++ replicate (7 - length m mod 8) 0 ++ [Z.of_nat (length m) mod 256].
Definition siphash (c d : nat) (key : SIPHASH_KEY) (m : list Z) : Z :=
  let '(v0, v1, v2, v3) := absorb 8 (compress c) (init key) (pad m) in
  let '(v0, v1, v2, v3) := Nat.iter d SipRound (v0, v1, v2 .^ 0xff, v3) in
  v0 .^ v1 .^ v2 .^ v3.
End Paper.

(** The 15-byte example of the paper's appendix. *)
Example siphash_paper :
  SipHash (mkKey (le_val (seqZ 0 8)) (le_val (seqZ 8 8))) 2 4 (seqZ 0 15) = 0xa129ca6149be45e5.
Proof. vm_compute. reflexivity. Qed.

Lemma SipRound_paper s : SipRound s = Paper.SipRound s.
Proof. by destruct s as [[[? ?] ?] ?]. Qed.

Lemma Rounds_paper n s : SipHash_Rounds n s = Nat.iter n Paper.SipRound s.
Proof. unfold SipHash_Rounds. induction n; simpl; [done|]. by rewrite IHn, SipRound_paper. Qed.

Lemma CRounds_paper c s b : SipHash_CRounds c s b = Paper.compress c s b.
Proof.
  destruct s as [[[? ?] ?] ?]. unfold SipHash_CRounds, Paper.compress. by rewrite Rounds_paper.
Qed.

(** ** The context represents the message absorbed *)

Section Stream.
Variables (rc rf : nat) (key : SIPHASH_KEY).

Definition repr (ctx : SIPHASH_CTX) (m : list Z) : Prop :=
  absorbed 8 (Paper.compress rc) (Paper.init key) (v ctx) (buf ctx) m /\
  count ctx = u32 (Z.of_nat (length m)).

Lemma used_repr ctx m : repr ctx m -> SipHash_used ctx = (length m mod 8)%nat.
Proof.
  intros [_ Hc]. unfold SipHash_used. rewrite Hc. unfold u32, wrap.
  change (2 ^ 32) with (8 * 2 ^ 29). rewrite Z.rem_mul_r by lia.
  rewrite (Z.mul_comm 8), Z.mod_add, Z.mod_mod by lia.
  change 8 with (Z.of_nat 8). by rewrite <- Nat2Z.inj_mod, Nat2Z.id.
Qed.

Lemma sip_Init_repr : repr (SipHash_Init key) [].
Proof.
  split; [|done]. unfold SipHash_Init. cbn [v buf].
  rewrite (Z.lxor_comm _ (k0 key)), (Z.lxor_comm _ (k1 key)).
  rewrite (Z.lxor_comm _ (k0 key)), (Z.lxor_comm _ (k1 key)).
  by apply absorbed_init; [lia|].
Qed.

(** The part of the representation Update works on, the count aside. *)
Abbreviation repr0 ctx m :=
  (absorbed 8 (Paper.compress rc) (Paper.init key) (v ctx) (buf ctx) m).

Lemma absorb_block s b : length b = 8%nat ->
  absorb 8 (Paper.compress rc) s b = Paper.compress rc s b /\ leftover 8 b = [].
Proof.
  intros Hb. pose proof (absorb_step 8 (Paper.compress rc) ltac:(lia) s b [] Hb) as [E1 E2].
  rewrite app_nil_r in E1, E2. rewrite E1, E2.
  apply absorb_short. simpl. lia.
Qed.

Lemma sip_block_repr vv bb cc m b :
  repr0 (mkSip vv bb cc) m -> bytes b -> length b = 8%nat -> (length m mod 8 = 0)%nat ->
  repr0 (mkSip (SipHash_CRounds rc vv b) b cc) (m ++ b).
Proof.
  intros Ha Hb Hl Hm. cbn [v buf] in *.
  pose proof (absorbed_aligned 8 (Paper.compress rc) _ ltac:(lia) _ _ _ _ Ha Hb Hm) as H.
  destruct (absorb_block vv b Hl) as [E1 E2]. rewrite E1, E2 in H. rewrite CRounds_paper.
  eapply absorbed_buffer_irrel; [exact H|done|].
  rewrite length_app, Hl, <- Nat.Div0.add_mod_idemp_l, Hm. done.
Qed.

Lemma blocks_repr ctx m ptr :
  repr0 ctx m -> bytes ptr -> (length m mod 8 = 0)%nat ->
  repr0 (SipHash_rest (SipHash_blocks rc (ctx, ptr))) (m ++ ptr) /\
  count (SipHash_rest (SipHash_blocks rc (ctx, ptr))) = count ctx.
Proof.
  unfold SipHash_blocks. cbn [snd].
  assert (Hrest : forall ctx m ptr, repr0 ctx m -> bytes ptr -> (length m mod 8 = 0)%nat ->
    (length ptr < 8)%nat -> repr0 (SipHash_rest (ctx, ptr)) (m ++ ptr) /\
    count (SipHash_rest (ctx, ptr)) = count ctx).
  { clear ctx m ptr. intros ctx m ptr Ha Hd Hm Hlt. unfold SipHash_rest.
    destruct (Nat.ltb_spec 0 (length ptr)); [|destruct ptr; [by rewrite app_nil_r|simpl in *; lia]].
    split; [|done]. cbn [v buf].
    pose proof (absorbed_partial 8 (Paper.compress rc) _ ltac:(lia) _ _ _ _ Ha Hd) as H1.
    rewrite Hm in H1. apply H1. lia. }
  match goal with |- context [while_ _ ?c ?b _] =>
    enough (Hloop : forall fuel ctx m ptr, (length ptr <= fuel)%nat -> repr0 ctx m -> bytes ptr ->
      (length m mod 8 = 0)%nat ->
      repr0 (SipHash_rest (while_ fuel c b (ctx, ptr))) (m ++ ptr) /\
      count (SipHash_rest (while_ fuel c b (ctx, ptr))) = count ctx)
      by (intros; by apply Hloop) end.
  clear ctx m ptr. induction fuel as [|fuel IH]; intros ctx m ptr Hf Ha Hd Hm; cbn [while_].
  - apply Hrest; [done..|lia].
  - change SIPHASH_BLOCK_LENGTH with 8%nat. destruct (Nat.leb_spec 8 (length ptr)) as [Hge|Hlt].
    + destruct ctx as [vv bb cc].
      pose proof (sip_block_repr vv bb cc m (take 8 ptr) Ha ltac:(by apply Forall_take)
        ltac:(rewrite length_take; lia) Hm) as Hb.
      destruct (IH _ _ (drop 8 ptr) ltac:(rewrite length_drop; lia) Hb) as [H1 H2].
      * by apply Forall_drop.
      * rewrite length_app, length_take, Nat.min_l by lia.
        rewrite <- Nat.Div0.add_mod_idemp_l, Hm. done.
      * rewrite <- app_assoc, take_drop in H1. split; [exact H1|exact H2].
    + by apply Hrest.
Qed.

Lemma sip_Update_repr ctx m d : bytes d -> repr ctx m -> repr (SipHash_Update ctx rc rf d) (m ++ d).
Proof.
  intros Hd Hr. unfold SipHash_Update. pose proof Hr as [Ha Hc].
  destruct (Nat.eqb_spec (length d) 0) as [Hz|Hz].
  { destruct d; [|done]. by rewrite app_nil_r. }
  assert (Hcnt : u32 (count ctx + Z.of_nat (length d)) = u32 (Z.of_nat (length (m ++ d)))).
  { rewrite Hc, length_app. unfold u32. rewrite wrap_add_l. f_equal. lia. }
  rewrite (used_repr ctx m Hr). change SIPHASH_BLOCK_LENGTH with 8%nat.
  pose proof (Nat.mod_upper_bound (length m) 8 ltac:(lia)) as Hu.
  pose proof (abs_len _ _ _ _ _ _ Ha) as Hl. cbv zeta. cbn [v buf count].
  destruct (Nat.ltb_spec 0 (length m mod 8)) as [Hp|H0].
  - destruct (Nat.leb_spec (8 - length m mod 8) (length d)) as [Hge|Hlt].
    + set (d1 := take (8 - length m mod 8) d).
      assert (Hl1 : (length m mod 8 + length d1 = 8)%nat) by (unfold d1; rewrite length_take; lia).
      assert (Hd1 : bytes (d1 ++ [])) by (rewrite app_nil_r; by apply Forall_take).
      pose proof (absorbed_full 8 (Paper.compress rc) _ ltac:(lia) _ _ _ d1 [] Ha Hd1 Hl1) as Hf.
      rewrite (proj1 (absorb_short 8 _ _ [] ltac:(simpl; lia))) in Hf.
      rewrite (proj2 (absorb_short 8 (Paper.compress rc) (v ctx) [] ltac:(simpl; lia))) in Hf.
      rewrite app_nil_r in Hf. unfold splice at 2 in Hf. cbn [take app length Nat.add] in Hf.
      rewrite take_0, drop_0 in Hf. cbn [app] in Hf. rewrite <- CRounds_paper in Hf.
      assert (Hm1 : (length (m ++ d1) mod 8 = 0)%nat).
      { rewrite length_app, <- Nat.Div0.add_mod_idemp_l, Hl1. done. }
      destruct (blocks_repr (mkSip (SipHash_CRounds rc (v ctx) (splice (buf ctx) (length m mod 8) d1))
        (splice (buf ctx) (length m mod 8) d1) (u32 (count ctx + Z.of_nat (length d))))
        (m ++ d1) (drop (8 - length m mod 8) d) Hf ltac:(by apply Forall_drop) Hm1) as [H1 H2].
      assert (Ed : d1 ++ drop (8 - length m mod 8) d = d) by apply take_drop.
      rewrite <- app_assoc, Ed in H1.
      split; [exact H1|]. etransitivity; [exact H2|exact Hcnt].
    + split; cbn [v buf count]; [|exact Hcnt]. apply absorbed_partial; [lia|done|done|lia].
  - destruct (blocks_repr (mkSip (v ctx) (buf ctx) (u32 (count ctx + Z.of_nat (length d)))) m d
      Ha Hd ltac:(lia)) as [H1 H2].
    split; [exact H1|]. etransitivity; [exact H2|exact Hcnt].
Qed.

Lemma End_repr ctx m : repr ctx m -> (SipHash_End ctx rc rf).1 = Paper.siphash rc rf key m.
Proof.
  intros Hr. unfold SipHash_End, Paper.siphash. rewrite (used_repr ctx m Hr).
  destruct Hr as [Ha Hc]. pose proof (abs_len _ _ _ _ _ _ Ha) as Hl.
  pose proof (Nat.mod_upper_bound (length m) 8 ltac:(lia)) as Hu.
  change SIPHASH_BLOCK_LENGTH with 8%nat. unfold Paper.pad.
  rewrite (proj1 (absorb_app 8 (Paper.compress rc) ltac:(lia) _ m _)).
  rewrite <- (abs_state _ _ _ _ _ _ Ha), <- (abs_buf _ _ _ _ _ _ Ha).
  set (used := (length m mod 8)%nat) in *. cbv zeta.
  assert (Hb : <[7%nat := u8 (count ctx)]> (splice (buf ctx) used (replicate (8 - used - 1) 0)) =
    take used (buf ctx) ++ replicate (7 - used) 0 ++ [Z.of_nat (length m) mod 256]).
  { assert (Hz : u8 (count ctx) = Z.of_nat (length m) mod 256).
    { rewrite Hc. unfold u8, u32, wrap. change (2 ^ 32) with (2 ^ 8 * 2 ^ 24).
      rewrite Z.rem_mul_r, (Z.mul_comm (2 ^ 8)), Z.mod_add, Z.mod_mod by lia. done. }
    rewrite Hz. unfold splice. rewrite length_replicate.
    replace (used + (8 - used - 1))%nat with 7%nat by lia.
    replace (8 - used - 1)%nat with (7 - used)%nat by lia.
    assert (Hdr : exists x, drop 7 (buf ctx) = [x]).
    { clear - Hl. destruct (buf ctx) as [|? l]. { done. }
      do 8 (destruct l as [|? l]; try done). by eexists. }
    destruct Hdr as [x ->]. rewrite !app_assoc.
    rewrite insert_app_r_alt by (rewrite length_app, length_take, length_replicate; lia).
    rewrite length_app, length_take, length_replicate.
    replace (7 - (used `min` length (buf ctx) + (7 - used)))%nat with 0%nat by lia. done. }
  rewrite Hb, CRounds_paper.
  match type of Hb with _ = ?b => set (blk := b) end.
  assert (Hbl : length blk = 8%nat).
  { unfold blk. rewrite !length_app, length_take, length_replicate. simpl length. lia. }
  rewrite (proj1 (absorb_block (v ctx) blk Hbl)).
  destruct (Paper.compress rc (v ctx) blk) as [[[a b] c] d]. rewrite Rounds_paper.
  destruct (Nat.iter rf _ _) as [[[a' b'] c'] d']. cbn [fst]. by rewrite !Z.lxor_assoc.
Qed.
End Stream.

(** ** Properties *)

(** Init, any sequence of Updates and End compute SipHash-c-d of the
    concatenated chunks, for every number of compression and finalisation
    rounds; [SipHash] is the one-chunk case. *)
Theorem siphash_streaming (key : SIPHASH_KEY) (rc rf : nat) (chunks : list (list Z)) (m : list Z) :
  Forall (fun d => bytes d) chunks -> bytes m ->
  (SipHash_End (foldl (fun ctx d => SipHash_Update ctx rc rf d) (SipHash_Init key) chunks) rc rf).1 =
    Paper.siphash rc rf key (concat chunks) /\
  SipHash key rc rf m = Paper.siphash rc rf key m.
Proof.
  intros Hd Hm. split.
  - apply End_repr. pose proof (sip_Init_repr rc key) as Hr. revert Hr.
    change (concat chunks) with ([] ++ concat chunks).
    generalize (SipHash_Init key) ([] : list Z).
    induction Hd as [|d ds Hd _ IH]; intros ctx m0 Hr; simpl; [by rewrite app_nil_r|].
    rewrite app_assoc. apply IH. by apply sip_Update_repr.
  - unfold SipHash. apply End_repr. apply (sip_Update_repr rc rf key _ [] m Hm). apply sip_Init_repr.
Qed.

Lemma siphash_streaming_witness :
  (SipHash_End (foldl (fun ctx d => SipHash_Update ctx 2 4 d)
     (SipHash_Init (mkKey (le_val (seqZ 0 8)) (le_val (seqZ 8 8)))) [seqZ 0 5; seqZ 5 10]) 2 4).1 =
  0xa129ca6149be45e5.
Proof.
  rewrite (proj1 (siphash_streaming _ 2 4 [seqZ 0 5; seqZ 5 10] []
    ltac:(repeat constructor; vm_compute; congruence) ltac:(constructor))).
  vm_compute. reflexivity.
Defined.
