(* ===== verification/ChaCha.v ===== *)
(** * ChaCha: the ChaCha20 generator of internal/crypt_chacha.c.

    Key and nonce setup, the block function and the byte stream, against
    Bernstein's definition.  The routine is the keystream-only variant: it
    writes the keystream to its output and never adds the message. *)

From S2P Require Import Prelude HashSpec.

(** [struct __chacha_ctx]: sixteen words. *)
Record chacha_ctx := mkChaCha { input : list Z }.

Definition SIGMA : list Z := ascii_bytes "expand 32-byte k".
Definition TAU : list Z := ascii_bytes "expand 16-byte k".

Definition u32v (v : Z) : Z := v .& 0xFFFFFFFF.
Definition u8v (v : Z) : Z := v .& 0xFF.
Definition u32to8_little (v : Z) : list Z := [u8v v; u8v (v ≫ 8); u8v (v ≫ 16); u8v (v ≫ 24)].
Definition u8to32_little (p : list Z) : Z :=
  p.[0] .| (p.[1] ≪ 8) .| (p.[2] ≪ 16) .| (p.[3] ≪ 24).
Definition plus32 (v w : Z) : Z := u32v (u32 (v + w)).
Definition plusone32 (v : Z) : Z := plus32 v 1.
Definition rotl32 (v n : Z) : Z := u32v (shl32 v n .| (v ≫ (32 - n))).
Definition xor32 (v w : Z) : Z := v .^ w.

Definition quarterround32 (a b c d : Z) : Z * Z * Z * Z :=
  a ::= plus32 a b;
  d ::= rotl32 (xor32 d a) 16;
  c ::= plus32 c d;
  b ::= rotl32 (xor32 b c) 12;
  a ::= plus32 a b;
  d ::= rotl32 (xor32 d a) 8;
  c ::= plus32 c d;
  b ::= rotl32 (xor32 b c) 7;
  (a, b, c, d).

(** The local variables x0 .. x15 are the cells of a list. *)
Definition QR (i j k l : nat) (x : list Z) : list Z :=
  let '(a, b, c, d) := quarterround32 (x.[Z.of_nat i]) (x.[Z.of_nat j]) (x.[Z.of_nat k])
                         (x.[Z.of_nat l]) in
  <[i := a]> (<[j := b]> (<[k := c]> (<[l := d]> x))).

(** The body of [for (i = 20; i > 0; i -= 2)], and the loop. *)
Definition double_round (x : list Z) : list Z :=
  let x := QR 0 4 8 12 x in
  let x := QR 1 5 9 13 x in
  let x := QR 2 6 10 14 x in
  let x := QR 3 7 11 15 x in
  let x := QR 0 5 10 15 x in
  let x := QR 1 6 11 12 x in
  let x := QR 2 7 8 13 x in
  QR 3 4 9 14 x.
Definition rounds (x : list Z) : list Z :=
  (while_ 20 (fun '(_, i) => 0 <? i) (fun '(x, i) => (double_round x, i - 2)) (x, 20)).1.

(** One iteration of [for (;;)]: the keystream block, and the words j0 .. j15
    with the counter advanced. *)
Definition chacha_block (j : list Z) : list Z * list Z :=
  let x := rounds j in
  let x := zip_with plus32 x j in
  let j12 := plusone32 (j.[12]) in
  let j := <[12%nat := j12]> j in
  let j := if j12 =? 0 then <[13%nat := plusone32 (j.[13])]> j else j in
  (flat_map u32to8_little x, j).

(** The loop.  [c] is the output buffer from which [off] bytes are written;
    [tmp] is the local block a short last block goes through. *)
Fixpoint encrypt_loop (fuel : nat) (j : list Z) (m c : list Z) (off : nat) (bytes : Z) :
    list Z * list Z :=
  match fuel with
  | O => (j, c)
  | S fuel =>
      let tmp := if bytes <? 64 then take (Z.to_nat bytes) m else [] in
      let '(block, j) := chacha_block j in
      if bytes <=? 64 then
        let c := if bytes <? 64
                 then splice c off (take (Z.to_nat bytes) (splice tmp 0 block))
                 else splice c off block in
        (j, c)
      else encrypt_loop fuel j m (splice c off block) (off + 64) (bytes - 64)
  end.

Definition chacha_encrypt_bytes (x : chacha_ctx) (m c : list Z) (bytes : Z) : chacha_ctx * list Z :=
  if bytes =? 0 then (x, c)
  else
    let '(j, c) := encrypt_loop (Z.to_nat (bytes / 64) + 1) (input x) m c 0 bytes in
    ({| input := <[13%nat := j.[13]]> (<[12%nat := j.[12]]> (input x)) |}, c).

Definition chacha_ivsetup (x : chacha_ctx) (iv : list Z) : chacha_ctx :=
  {| input := <[15%nat := u8to32_little (drop 4 iv)]> (<[14%nat := u8to32_little iv]>
              (<[13%nat := 0]> (<[12%nat := 0]> (input x)))) |}.

Definition chacha_keysetup (x : chacha_ctx) (k : list Z) (kbits : Z) : chacha_ctx :=
  if negb (kbits =? 128) && negb (kbits =? 256) then x
  else
    let set i v (l : list Z) := <[i%nat := v]> l in
    let l := input x in
    let l := set 4%nat (u8to32_little k) l in
    let l := set 5%nat (u8to32_little (drop 4 k)) l in
    let l := set 6%nat (u8to32_little (drop 8 k)) l in
    let l := set 7%nat (u8to32_little (drop 12 k)) l in
    let '(k, constants) := if kbits =? 256 then (drop 16 k, SIGMA) else (k, TAU) in
    let l := set 8%nat (u8to32_little k) l in
    let l := set 9%nat (u8to32_little (drop 4 k)) l in
    let l := set 10%nat (u8to32_little (drop 8 k)) l in
    let l := set 11%nat (u8to32_little (drop 12 k)) l in
    let l := set 0%nat (u8to32_little constants) l in
    let l := set 1%nat (u8to32_little (drop 4 constants)) l in
    let l := set 2%nat (u8to32_little (drop 8 constants)) l in
    let l := set 3%nat (u8to32_little (drop 12 constants)) l in
    {| input := l |}.

(** ** The reference: Bernstein's ChaCha20 *)

Module Spec.
Definition rotl (x n : Z) : Z := u32 (rol32 x n).
Definition quarter (s : Z * Z * Z * Z) : Z * Z * Z * Z :=
  let '(a, b, c, d) := s in
  a ::= add32 a b; d ::= rotl (d .^ a) 16; c ::= add32 c d; b ::= rotl (b .^ c) 12;
  a ::= add32 a b; d ::= rotl (d .^ a) 8; c ::= add32 c d; b ::= rotl (b .^ c) 7;
  (a, b, c, d).
(** A quarter round on the cells [p] of the matrix. *)
Definition at_cells (p : nat * nat * nat * nat) (x : list Z) : list Z :=
  let '(i, j, k, l) := p in
  let '(a, b, c, d) := quarter (x.[Z.of_nat i], x.[Z.of_nat j], x.[Z.of_nat k],
                         x.[Z.of_nat l]) in
  <[i := a]> (<[j := b]> (<[k := c]> (<[l := d]> x))).
(** Column [i] of the 4x4 matrix, and its diagonals. *)
Definition column (i : nat) := (i, 4 + i, 8 + i, 12 + i)%nat.
Definition diagonal (i : nat) :=
  (i, 4 + (i + 1) mod 4, 8 + (i + 2) mod 4, 12 + (i + 3) mod 4)%nat.
Definition doubleround (x : list Z) : list Z :=
  foldl (fun x p => at_cells p x) x (map column (seq 0 4) ++ map diagonal (seq 0 4)).
Definition block (x : list Z) : list Z :=
  flat_map (le_bytes 4) (zip_with add32 (Nat.iter 10 doubleround x) x).

(** The matrix: four constants, eight key words, the 64-bit block counter,
    two nonce words. *)
Definition matrix (const key : list Z) (ctr : Z) (nonce : list Z) : list Z :=
  const ++ key ++ [ctr mod 2 ^ 32; ctr / 2 ^ 32 mod 2 ^ 32] ++ nonce.
(** [n] keystream blocks from block [ctr] on. *)
Fixpoint blocks (const key nonce : list Z) (ctr : Z) (n : nat) : list Z :=
  match n with
  | O => []
  | S n => block (matrix const key ctr nonce) ++ blocks const key nonce (ctr + 1) n
  end.
End Spec.

Lemma u32v_u32 x : u32v x = u32 x.
Proof. unfold u32v. change 0xFFFFFFFF with (Z.ones 32). by rewrite Z.land_ones by lia. Qed.
Lemma plus32_add v w : plus32 v w = add32 v w.
Proof. unfold plus32. rewrite u32v_u32. apply wrap_wrap. Qed.
Lemma rotl32_rotl v n : rotl32 v n = Spec.rotl v n.
Proof. unfold rotl32. by rewrite u32v_u32. Qed.

Lemma quarter_ref a b c d : quarterround32 a b c d = Spec.quarter (a, b, c, d).
Proof.
  unfold quarterround32, Spec.quarter.
  do 4 (apply assign_cong; [apply plus32_add|intros ?];
        apply assign_cong; [apply rotl32_rotl|intros ?]).
  exact eq_refl.
Qed.

Lemma QR_ref i j k l x : QR i j k l x = Spec.at_cells (i, j, k, l) x.
Proof. unfold QR, Spec.at_cells. rewrite quarter_ref. exact eq_refl. Qed.

Lemma double_round_ref x : double_round x = Spec.doubleround x.
Proof.
  unfold double_round, Spec.doubleround.
  change (map Spec.column (seq 0 4) ++ map Spec.diagonal (seq 0 4)) with
    [(0, 4, 8, 12); (1, 5, 9, 13); (2, 6, 10, 14); (3, 7, 11, 15);
     (0, 5, 10, 15); (1, 6, 11, 12); (2, 7, 8, 13); (3, 4, 9, 14)]%nat.
  cbv zeta. rewrite !QR_ref, !foldl_cons. reflexivity.
Qed.

Lemma while_double_round n : forall x fuel, (n <= fuel)%nat ->
  while_ fuel (fun '(_, i) => 0 <? i) (fun '(x, i) => (double_round x, i - 2))
    (x, 2 * Z.of_nat n) = (Nat.iter n Spec.doubleround x, 0).
Proof.
  induction n as [|n IH]; intros x fuel Hf.
  - destruct fuel; reflexivity.
  - destruct fuel as [|fuel]; [lia|]. cbn [while_].
    destruct (Z.ltb_spec 0 (2 * Z.of_nat (S n))); [|lia].
    replace (2 * Z.of_nat (S n) - 2) with (2 * Z.of_nat n) by lia.
    rewrite IH by lia. rewrite Nat.iter_succ_r, double_round_ref. reflexivity.
Qed.

Lemma rounds_ref x : rounds x = Nat.iter 10 Spec.doubleround x.
Proof. exact (f_equal fst (while_double_round 10 x 20 ltac:(lia))). Qed.

(** ** The stream *)

Lemma u32to8_le v : u32to8_little v = le_bytes 4 v.
Proof.
  unfold u32to8_little, u8v. cbn [le_bytes].
  by rewrite !land_255, !Z.shiftr_div_pow2, !Z.div_div by lia.
Qed.

Lemma at_cells_length p x : length (Spec.at_cells p x) = length x.
Proof.
  destruct p as [[[i j] k] l]. unfold Spec.at_cells.
  destruct (Spec.quarter _) as [[[a b] c] d]. by rewrite !length_insert.
Qed.

Lemma doubleround_length x : length (Spec.doubleround x) = length x.
Proof.
  unfold Spec.doubleround. generalize (map Spec.column (seq 0 4) ++ map Spec.diagonal (seq 0 4)).
  intros l. revert x. induction l as [|p l IH]; intros x; [done|].
  rewrite foldl_cons, IH. apply at_cells_length.
Qed.

Lemma block_length x : length (Spec.block x) = (4 * length x)%nat.
Proof.
  unfold Spec.block. set (y := zip_with _ _ _).
  assert (Hy : length y = length x).
  { unfold y. rewrite length_zip_with. rewrite Nat.min_r; [done|].
    assert (H : forall n, length (Nat.iter n Spec.doubleround x) = length x).
    { induction n as [|n IH]; [done|]. rewrite Nat.iter_succ, doubleround_length. done. }
    rewrite H. lia. }
  rewrite <- Hy. clear. induction y as [|a y IH]; [done|].
  cbn [flat_map]. rewrite length_app, le_bytes_length, IH. simpl. lia.
Qed.

Section Stream.
Variables (const key nonce : list Z).
Hypothesis Hc : length const = 4%nat.
Hypothesis Hk : length key = 8%nat.
Hypothesis Hn : length nonce = 2%nat.

Abbreviation matrix ctr := (Spec.matrix const key ctr nonce).
Abbreviation blocks := (Spec.blocks const key nonce).

Lemma matrix_length ctr : length (matrix ctr) = 16%nat.
Proof. unfold Spec.matrix. rewrite !length_app, Hc, Hk, Hn. done. Qed.

Lemma matrix_counter ctr : (matrix ctr).[12] = ctr mod 2 ^ 32 /\
  (matrix ctr).[13] = ctr / 2 ^ 32 mod 2 ^ 32.
Proof.
  unfold Spec.matrix, aget. rewrite !app_assoc.
  assert (H12 : length (const ++ key) = 12%nat) by (rewrite length_app; lia).
  rewrite !(lookup_app_l ((const ++ key) ++ _) nonce) by (rewrite length_app, H12; simpl; lia).
  rewrite !(lookup_app_r (const ++ key)), H12 by (rewrite H12; simpl; lia). done.
Qed.

Lemma matrix_set ctr a b :
  <[13%nat := b]> (<[12%nat := a]> (matrix ctr)) = const ++ key ++ [a; b] ++ nonce.
Proof.
  unfold Spec.matrix. rewrite !app_assoc.
  assert (H12 : length (const ++ key) = 12%nat) by (rewrite length_app; lia).
  rewrite (insert_app_l ((const ++ key) ++ _) nonce 12) by (rewrite length_app, H12; simpl; lia).
  rewrite (insert_app_r_alt (const ++ key)), H12 by (rewrite H12; lia).
  rewrite (insert_app_l ((const ++ key) ++ _) nonce 13) by (rewrite length_app, H12; simpl; lia).
  rewrite (insert_app_r_alt (const ++ key)), H12 by (rewrite H12; lia). done.
Qed.

Lemma set_13_same (l : list Z) : length l = 16%nat -> <[13%nat := l.[13]]> l = l.
Proof.
  intros Hl. apply list_insert_id. unfold aget.
  destruct (lookup_lt_is_Some_2 l 13) as [x Hx]; [lia|]. change (Z.to_nat 13) with 13%nat.
  by rewrite Hx.
Qed.

Lemma counter_step ctr : 0 <= ctr ->
  (if plusone32 (ctr mod 2 ^ 32) =? 0 then plusone32 (ctr / 2 ^ 32 mod 2 ^ 32)
   else ctr / 2 ^ 32 mod 2 ^ 32) = (ctr + 1) / 2 ^ 32 mod 2 ^ 32 /\
  plusone32 (ctr mod 2 ^ 32) = (ctr + 1) mod 2 ^ 32.
Proof.
  intros H0. unfold plusone32. rewrite !plus32_add. unfold add32, u32, wrap.
  rewrite !Zplus_mod_idemp_l. split; [|done].
  pose proof (Z.div_mod ctr (2 ^ 32)). pose proof (Z.mod_pos_bound ctr (2 ^ 32)).
  set (q := ctr / 2 ^ 32) in *. set (r := ctr mod 2 ^ 32) in *.
  replace (ctr + 1) with (r + 1 + q * 2 ^ 32) by lia. rewrite Z.mod_add, Z.div_add by lia.
  destruct (Z.eqb_spec ((r + 1) mod 2 ^ 32) 0) as [E|E].
  - assert (r + 1 = 2 ^ 32) as ->.
    { destruct (Z.lt_ge_cases (r + 1) (2 ^ 32)); [rewrite Z.mod_small in E by lia; lia|lia]. }
    rewrite Z.div_same by lia. f_equal. lia.
  - destruct (Z.eq_dec (r + 1) (2 ^ 32)) as [E'|]; [rewrite E', Z.mod_same in E by lia; lia|].
    rewrite Z.div_small by lia. done.
Qed.

Lemma chacha_block_ref ctr : 0 <= ctr ->
  chacha_block (matrix ctr) = (Spec.block (matrix ctr), matrix (ctr + 1)).
Proof.
  intros H0. unfold chacha_block. rewrite rounds_ref.
  destruct (matrix_counter ctr) as [E12 E13]. destruct (counter_step ctr H0) as [C1 C2].
  f_equal.
  - unfold Spec.block. assert (Ez : forall a b, zip_with plus32 a b = zip_with add32 a b)
      by (intros; apply zip_with_ext; [apply plus32_add|done|done]).
    rewrite Ez.
    rewrite !flat_map_concat_map. f_equal. apply map_ext. intros. apply u32to8_le.
  - rewrite E12. cbv zeta. rewrite C2 in *.
    set (j := <[12%nat := (ctr + 1) mod 2 ^ 32]> (matrix ctr)).
    assert (Hj13 : j.[13] = ctr / 2 ^ 32 mod 2 ^ 32).
    { rewrite <- E13. unfold j, aget. by rewrite list_lookup_insert_ne by done. }
    rewrite Hj13. etransitivity; [|exact (matrix_set ctr ((ctr + 1) mod 2 ^ 32) ((ctr + 1) / 2 ^ 32 mod 2 ^ 32))].
    fold j. rewrite <- C1. destruct ((ctr + 1) mod 2 ^ 32 =? 0); [done|].
    rewrite <- Hj13, set_13_same; [done|]. unfold j. by rewrite length_insert, matrix_length.
Qed.

Lemma loop_ref m fuel : forall ctr c off bytes,
  0 <= ctr -> 0 < bytes <= 64 * Z.of_nat fuel -> (off + Z.to_nat bytes <= length c)%nat ->
  encrypt_loop fuel (matrix ctr) m c off bytes =
  (matrix (ctr + (bytes + 63) / 64),
   splice c off (take (Z.to_nat bytes) (blocks ctr (Z.to_nat ((bytes + 63) / 64))))).
Proof.
  induction fuel as [|fuel IH]; intros ctr c off bytes H0 Hb Hl; [lia|].
  cbn [encrypt_loop]. rewrite chacha_block_ref by done.
  assert (Hbl : length (Spec.block (matrix ctr)) = 64%nat)
    by (rewrite block_length, matrix_length; done).
  destruct (Z.leb_spec bytes 64) as [Hle|Hgt].
  - assert ((bytes + 63) / 64 = 1) as ->.
    { symmetry. apply (Z.div_unique _ _ _ (bytes - 1)); lia. }
    change (Z.to_nat 1) with 1%nat. cbn [Spec.blocks]. rewrite app_nil_r. f_equal.
    destruct (Z.ltb_spec bytes 64).
    + do 2 f_equal. unfold splice. rewrite take_0, Hbl, drop_ge, app_nil_r; [done|].
      rewrite length_take. lia.
    + rewrite take_ge by lia. done.
  - destruct (Z.ltb_spec bytes 64); [lia|].
    rewrite IH; [|lia|lia|rewrite splice_length; lia].
    replace ((bytes + 63) / 64) with ((bytes - 64 + 63) / 64 + 1).
    2: { replace (bytes + 63) with (bytes - 64 + 63 + 1 * 64) by lia. by rewrite Z.div_add by lia. }
    assert (0 <= (bytes - 64 + 63) / 64) by (apply Z.div_pos; lia).
    replace (Z.to_nat ((bytes - 64 + 63) / 64 + 1)) with (S (Z.to_nat ((bytes - 64 + 63) / 64))) by lia.
    cbn [Spec.blocks]. f_equal; [f_equal; lia|].
    rewrite take_app, Hbl, (take_ge (Spec.block (matrix ctr))) by lia.
    replace (Z.to_nat bytes - 64)%nat with (Z.to_nat (bytes - 64)) by lia.
    set (rest := take (Z.to_nat (bytes - 64)) _).
    assert (Hr : (length rest <= Z.to_nat (bytes - 64))%nat) by (unfold rest; rewrite length_take; lia).
    pose proof (splice_splice c off (Spec.block (matrix ctr)) rest ltac:(lia)) as E.
    rewrite Hbl in E. exact E.
Qed.

Lemma encrypt_ref m c ctr bytes :
  0 <= ctr -> 0 <= bytes -> (Z.to_nat bytes <= length c)%nat ->
  chacha_encrypt_bytes (mkChaCha (matrix ctr)) m c bytes =
  (mkChaCha (matrix (ctr + (bytes + 63) / 64)),
   take (Z.to_nat bytes) (blocks ctr (Z.to_nat ((bytes + 63) / 64))) ++ drop (Z.to_nat bytes) c).
Proof.
  intros H0 Hb Hl. unfold chacha_encrypt_bytes. destruct (Z.eqb_spec bytes 0) as [->|Hne].
  { change ((0 + 63) / 64) with 0. rewrite Z.add_0_r. change (Z.to_nat 0) with 0%nat.
    by rewrite take_0, drop_0. }
  pose proof (Z.div_mod bytes 64). pose proof (Z.mod_pos_bound bytes 64).
  cbn [input]. rewrite loop_ref by lia. set (ctr' := ctr + _). f_equal.
  - destruct (matrix_counter ctr') as [-> ->]. f_equal. apply matrix_set.
  - unfold splice. rewrite take_0. cbn [app Nat.add]. do 2 f_equal.
    rewrite length_take. apply Nat.min_l.
    assert (Hbs : forall n c0, length (blocks c0 n) = (64 * n)%nat).
    { induction n as [|n IHn]; intros c0; [done|]. cbn [Spec.blocks].
      rewrite length_app, IHn, block_length, matrix_length. lia. }
    rewrite Hbs. pose proof (Z.div_mod (bytes + 63) 64). pose proof (Z.mod_pos_bound (bytes + 63) 64).
    lia.
Qed.
End Stream.

(** The words of a key or nonce. *)
Definition words (n : nat) (l : list Z) : list Z :=
  map (fun i => le_val (take 4 (drop (4 * i) l))) (seq 0 n).

Lemma u8to32_le l : bytes l -> (4 <= length l)%nat -> u8to32_little l = le_val (take 4 l).
Proof.
  intros Hb Hl. do 4 (destruct l as [|? l]; [simpl in Hl; lia|]). cbn [take]. rewrite ?take_0.
  rewrite !Forall_cons in Hb. rewrite le_val4 by (rewrite !Forall_cons, Forall_nil; tauto). done.
Qed.

(** The matrix the two setup functions leave, for both key sizes. *)
Definition initial_matrix (kbits : Z) (k iv : list Z) : list Z :=
  if kbits =? 256 then Spec.matrix (words 4 SIGMA) (words 8 k) 0 (words 2 iv)
  else Spec.matrix (words 4 TAU) (words 4 k ++ words 4 k) 0 (words 2 iv).

Lemma setup_ref x k iv kbits : kbits = 128 \/ kbits = 256 ->
  length (input x) = 16%nat -> bytes k -> (kbits = 8 * Z.of_nat (length k)) ->
  bytes iv -> length iv = 8%nat ->
  chacha_ivsetup (chacha_keysetup x k kbits) iv = mkChaCha (initial_matrix kbits k iv).
Proof.
  intros Hkb Hx Hk Hkl Hiv Hil. unfold chacha_keysetup, chacha_ivsetup, initial_matrix.
  assert (Hu : forall l n, bytes l -> (n + 4 <= length l)%nat ->
    u8to32_little (drop n l) = le_val (take 4 (drop n l))).
  { intros l n Hb Hl. apply u8to32_le; [by apply Forall_drop|rewrite length_drop; lia]. }
  assert (Hs : bytes SIGMA /\ bytes TAU) by (split; repeat constructor; vm_compute; congruence).
  assert (Hl : length SIGMA = 16%nat /\ length TAU = 16%nat) by done.
  destruct x as [l]. cbn [input] in *. do 17 (destruct l as [|? l]; try done). clear Hx.
  rewrite (u8to32_le iv), (Hu iv 4%nat) by (done || lia).
  rewrite (u8to32_le k), (Hu k 4%nat), (Hu k 8%nat), (Hu k 12%nat) by (done || lia).
  unfold words, Spec.matrix. change (seq 0 8) with [0; 1; 2; 3; 4; 5; 6; 7]%nat.
  change (seq 0 4) with [0; 1; 2; 3]%nat. change (seq 0 2) with [0; 1]%nat.
  destruct Hkb as [-> | ->]; cbn [Z.eqb Pos.eqb negb andb].
  - rewrite (u8to32_le TAU), (Hu TAU 4%nat), (Hu TAU 8%nat), (Hu TAU 12%nat) by (tauto || lia).
    rewrite (u8to32_le k), (Hu k 4%nat), (Hu k 8%nat), (Hu k 12%nat) by (done || lia). done.
  - rewrite (u8to32_le SIGMA), (Hu SIGMA 4%nat), (Hu SIGMA 8%nat), (Hu SIGMA 12%nat) by (tauto || lia).
    rewrite (Hu k 16%nat) by (done || lia). rewrite !drop_drop. cbn [Nat.add].
    rewrite (Hu k 20%nat), (Hu k 24%nat), (Hu k 28%nat) by (done || lia). done.
Qed.

(** The context [ctr] blocks into the stream of a key and a nonce. *)
Definition at_block (kbits : Z) (k iv : list Z) (ctr : Z) : chacha_ctx :=
  mkChaCha (if kbits =? 256 then Spec.matrix (words 4 SIGMA) (words 8 k) ctr (words 2 iv)
            else Spec.matrix (words 4 TAU) (words 4 k ++ words 4 k) ctr (words 2 iv)).
Definition keystream (kbits : Z) (k iv : list Z) (ctr : Z) (n : nat) : list Z :=
  if kbits =? 256 then Spec.blocks (words 4 SIGMA) (words 8 k) (words 2 iv) ctr n
  else Spec.blocks (words 4 TAU) (words 4 k ++ words 4 k) (words 2 iv) ctr n.

(** ** Properties *)

(** Key and nonce setup give the ChaCha20 matrix at block 0, and a call for
    [n] bytes from block [ctr] replaces the first [n] bytes of the output by
    the ChaCha20 keystream of the blocks from [ctr] on, whatever the message
    argument holds, and leaves the context at block [ctr + ceil (n / 64)], the
    64-bit counter wrapping. *)
Theorem chacha_stream (x : chacha_ctx) (k iv m c : list Z) (kbits ctr n : Z) :
  kbits = 128 \/ kbits = 256 -> length (input x) = 16%nat ->
  bytes k -> kbits = 8 * Z.of_nat (length k) -> bytes iv -> length iv = 8%nat ->
  0 <= ctr -> 0 <= n -> (Z.to_nat n <= length c)%nat ->
  chacha_ivsetup (chacha_keysetup x k kbits) iv = at_block kbits k iv 0 /\
  chacha_encrypt_bytes (at_block kbits k iv ctr) m c n =
    (at_block kbits k iv (ctr + (n + 63) / 64),
     take (Z.to_nat n) (keystream kbits k iv ctr (Z.to_nat ((n + 63) / 64))) ++
     drop (Z.to_nat n) c).
Proof.
  intros Hkb Hx Hk Hkl Hiv Hil H0 Hn Hl. split; [by apply setup_ref|].
  unfold at_block, keystream. destruct Hkb as [-> | ->]; cbn [Z.eqb Pos.eqb];
    by apply encrypt_ref.
Qed.

Lemma chacha_stream_witness :
  let z n := replicate n 0 in
  let x := chacha_ivsetup (chacha_keysetup (mkChaCha (z 16%nat)) (z 32%nat) 256) (z 8%nat) in
  (chacha_encrypt_bytes x [] (z 17%nat) 16).2 =
  [0x76; 0xb8; 0xe0; 0xad; 0xa0; 0xf1; 0x3d; 0x90; 0x40; 0x5d; 0x6a; 0xe5; 0x53; 0x86; 0xbd;
   0x28; 0].
Proof.
  intros z x.
  assert (Hb : forall n, bytes (z n)) by (intros; apply Forall_replicate; unfold word; lia).
  destruct (chacha_stream (mkChaCha (z 16%nat)) (z 32%nat) (z 8%nat) [] (z 17%nat) 256 0 16
    (or_intror eq_refl) eq_refl (Hb _) eq_refl (Hb _) eq_refl ltac:(lia) ltac:(lia)
    ltac:(vm_compute; lia)) as [E1 E2].
  unfold x. rewrite E1, E2. vm_compute. reflexivity.
Defined.
