(* ===== verification/Uuid.v ===== *)
(** * Uuid: the DCE UUID routines of misc/uuid_*.c.

    The [uuid_t] structure, its octet-stream codecs, comparison, the string
    form and its parser. *)

From S2P Require Import Prelude.

Record uuid_t := mkUuid {
  time_low : Z;                      (* uint32_t *)
  time_mid : Z;                      (* uint16_t *)
  time_hi_and_version : Z;           (* uint16_t *)
  clock_seq_hi_and_reserved : Z;     (* uint8_t *)
  clock_seq_low : Z;                 (* uint8_t *)
  node : list Z;                     (* uint8_t [6] *)
}.

Definition uuid_s_ok : Z := 0.
Definition uuid_s_bad_version : Z := 1.
Definition uuid_s_invalid_string_uuid : Z := 2.
Definition uuid_s_no_memory : Z := 3.
Definition UUID_STR_LEN : nat := 36.

#[global] Instance uuid_eq_dec : EqDecision uuid_t.
Proof. solve_decision. Defined.

(** Every field in the range of its C type. *)
Record uuid_wf (u : uuid_t) : Prop := {
  wf_low : word 32 (time_low u);
  wf_mid : word 16 (time_mid u);
  wf_hi : word 16 (time_hi_and_version u);
  wf_seqhi : byte_ok (clock_seq_hi_and_reserved u);
  wf_seqlow : byte_ok (clock_seq_low u);
  wf_node : bytes (node u);
  wf_node_len : length (node u) = 6%nat;
}.

(** ** Octet streams (uuid_stream.c) *)

Definition be16dec (p : list Z) : Z := (p.[0] ≪ 8) .| p.[1].
Definition be32dec (p : list Z) : Z :=
  (p.[0] ≪ 24) .| (p.[1] ≪ 16) .| (p.[2] ≪ 8) .| p.[3].
Definition le16dec (p : list Z) : Z := (p.[1] ≪ 8) .| p.[0].
Definition le32dec (p : list Z) : Z :=
  (p.[3] ≪ 24) .| (p.[2] ≪ 16) .| (p.[1] ≪ 8) .| p.[0].

Definition be16enc (u : Z) : list Z := [(u ≫ 8) .& 0xff; u .& 0xff].
Definition be32enc (u : Z) : list Z :=
  [(u ≫ 24) .& 0xff; (u ≫ 16) .& 0xff; (u ≫ 8) .& 0xff; u .& 0xff].
Definition le16enc (u : Z) : list Z := [u .& 0xff; (u ≫ 8) .& 0xff].
Definition le32enc (u : Z) : list Z :=
  [u .& 0xff; (u ≫ 8) .& 0xff; (u ≫ 16) .& 0xff; (u ≫ 24) .& 0xff].

(** The encoders fill the 16 bytes of the buffer in order. *)
Definition uuid_enc_le (uuid : uuid_t) : list Z :=
  le32enc (time_low uuid) ++ le16enc (time_mid uuid) ++ le16enc (time_hi_and_version uuid) ++
  [clock_seq_hi_and_reserved uuid; clock_seq_low uuid] ++
  map (fun i => (node uuid).[i]) (seqZ 0 6).
Definition uuid_dec_le (p : list Z) : uuid_t := {|
  time_low := le32dec p;
  time_mid := le16dec (drop 4 p);
  time_hi_and_version := le16dec (drop 6 p);
  clock_seq_hi_and_reserved := p.[8];
  clock_seq_low := p.[9];
  node := map (fun i => p.[10 + i]) (seqZ 0 6);
|}.
Definition uuid_enc_be (uuid : uuid_t) : list Z :=
  be32enc (time_low uuid) ++ be16enc (time_mid uuid) ++ be16enc (time_hi_and_version uuid) ++
  [clock_seq_hi_and_reserved uuid; clock_seq_low uuid] ++
  map (fun i => (node uuid).[i]) (seqZ 0 6).
Definition uuid_dec_be (p : list Z) : uuid_t := {|
  time_low := be32dec p;
  time_mid := be16dec (drop 4 p);
  time_hi_and_version := be16dec (drop 6 p);
  clock_seq_hi_and_reserved := p.[8];
  clock_seq_low := p.[9];
  node := map (fun i => p.[10 + i]) (seqZ 0 6);
|}.

(** ** Comparison, through pointers

    [m] maps addresses to the structures they point to; 0 is NULL. *)

Definition NULL : Z := 0.

(** [memcmp] on byte strings of the same length: the difference of the first
    bytes that differ. *)
Fixpoint memcmp (l r : list Z) : Z :=
  match l, r with
  | x :: l, y :: r => if x =? y then memcmp l r else x - y
  | _, _ => 0
  end.

(** The object representation of the structure on a little-endian machine has
    no padding: 4 + 2 + 2 + 1 + 1 + 6 bytes. *)
Definition object_bytes (u : uuid_t) : list Z :=
  le_bytes 4 (time_low u) ++ le_bytes 2 (time_mid u) ++ le_bytes 2 (time_hi_and_version u) ++
  [clock_seq_hi_and_reserved u; clock_seq_low u] ++ node u.

Definition nil_uuid : uuid_t := mkUuid 0 0 0 0 0 (replicate 6 0).

Definition uuid_is_nil (m : Z -> uuid_t) (u : Z) : Z :=
  if u =? NULL then 1
  else if memcmp (object_bytes (m u)) (object_bytes nil_uuid) =? 0 then 1 else 0.

Definition uuid_equal (m : Z -> uuid_t) (a b : Z) : Z :=
  if a =? b then 1
  else if a =? NULL then uuid_is_nil m b
  else if b =? NULL then uuid_is_nil m a
  else if negb (memcmp (object_bytes (m a)) (object_bytes (m b)) =? 0) then 0 else 1.

(** [DIFF_RETURN], with the rest of the function as its continuation. *)
Definition DIFF_RETURN (a b : Z) (rest : Z) : Z :=
  if negb (a =? b) then (if a <? b then -1 else 1) else rest.

Definition uuid_compare (m : Z -> uuid_t) (a b : Z) : Z :=
  if a =? b then 0
  else if a =? NULL then (if negb (uuid_is_nil m b =? 0) then 0 else -1)
  else if b =? NULL then (if negb (uuid_is_nil m a =? 0) then 0 else 1)
  else
    DIFF_RETURN (time_low (m a)) (time_low (m b)) (
    DIFF_RETURN (time_mid (m a)) (time_mid (m b)) (
    DIFF_RETURN (time_hi_and_version (m a)) (time_hi_and_version (m b)) (
    DIFF_RETURN (clock_seq_hi_and_reserved (m a)) (clock_seq_hi_and_reserved (m b)) (
    DIFF_RETURN (clock_seq_low (m a)) (clock_seq_low (m b)) (
    let res := memcmp (node (m a)) (node (m b)) in
    if negb (res =? 0) then (if res <? 0 then -1 else 1) else 0))))).

Definition uuid_hash (m : Z -> uuid_t) (u : Z) : Z :=
  if negb (u =? NULL) then time_low (m u) .& 0xffff else 0.

Definition uuid_create_nil : uuid_t * Z := (nil_uuid, uuid_s_ok).

(** ** Strings *)

(** [%0nx] of a value of at most [n] hexadecimal digits. *)
Definition hex_char (d : Z) : Z := if d <? 10 then 48 + d else 87 + d.
Fixpoint print_hex (n : nat) (x : Z) : list Z :=
  match n with
  | O => []
  | S n => print_hex n (x / 16) ++ [hex_char (x mod 16)]
  end.

(** The string written; the status when [asprintf] has memory ([ok]) or not. *)
Definition uuid_to_string (ok : bool) (m : Z -> uuid_t) (u : Z) : list Z * Z :=
  let v := if u =? NULL then nil_uuid else m u in
  if ok then
    (print_hex 8 (time_low v) ++ [45] ++ print_hex 4 (time_mid v) ++ [45] ++
     print_hex 4 (time_hi_and_version v) ++ [45] ++
     print_hex 2 (clock_seq_hi_and_reserved v) ++ print_hex 2 (clock_seq_low v) ++ [45] ++
     print_hex 2 ((node v).[0]) ++ print_hex 2 ((node v).[1]) ++ print_hex 2 ((node v).[2]) ++
     print_hex 2 ((node v).[3]) ++ print_hex 2 ((node v).[4]) ++ print_hex 2 ((node v).[5]),
     uuid_s_ok)
  else ([], uuid_s_no_memory).

Definition isxdigit (c : Z) : bool :=
  ((48 <=? c) && (c <=? 57)) || ((97 <=? c .| 32) && (c .| 32 <=? 102)).
Definition hex_value (c : Z) : Z := if c <=? 57 then c - 48 else (c .| 32) - 87.

(** [%nx] on input that starts with [n] hexadecimal digits. *)
Definition scan_hex (n : nat) (s : list Z) : Z :=
  foldl (fun acc c => 16 * acc + hex_value c) 0 (take n s).

(** The loop over the characters: dashes at 8, 13, 18 and 23, digits elsewhere. *)
Definition valid_char (s : list Z) (n : nat) : bool :=
  if bool_decide (n ∈ [8; 13; 18; 23]%nat) then s.[Z.of_nat n] =? 45
  else isxdigit (s.[Z.of_nat n]).

(** [s] is the string before its terminator, [None] for NULL; the structure
    is left alone when the string is rejected. *)
Definition uuid_from_string (s : option (list Z)) (u : uuid_t) : uuid_t * Z :=
  match s with
  | None | Some [] => uuid_create_nil
  | Some s =>
      if negb (length s =? UUID_STR_LEN)%nat then (u, uuid_s_invalid_string_uuid)
      else if negb (forallb (valid_char s) (seq 0 UUID_STR_LEN)) then (u, uuid_s_invalid_string_uuid)
      else
        let u := {|
          time_low := scan_hex 8 s;
          time_mid := scan_hex 4 (drop 9 s);
          time_hi_and_version := scan_hex 4 (drop 14 s);
          clock_seq_hi_and_reserved := scan_hex 2 (drop 19 s);
          clock_seq_low := scan_hex 2 (drop 21 s);
          node := map (fun i => scan_hex 2 (drop (24 + 2 * i) s)) (seq 0 6) |} in
        let n := clock_seq_hi_and_reserved u in
        if negb (n .& 0x80 =? 0x00) && negb (n .& 0xc0 =? 0x80) && negb (n .& 0xe0 =? 0xc0)
        then (u, uuid_s_bad_version)
        else (u, uuid_s_ok)
  end.

(** ** Octet-stream codecs *)

Lemma le32enc_bytes x : le32enc x = le_bytes 4 x.
Proof.
  unfold le32enc. cbn [le_bytes]. by rewrite !land_255, !Z.shiftr_div_pow2, !Z.div_div by lia.
Qed.
Lemma le16enc_bytes x : le16enc x = le_bytes 2 x.
Proof. unfold le16enc. cbn [le_bytes]. by rewrite !land_255, !Z.shiftr_div_pow2 by lia. Qed.
Lemma be32enc_bytes x : be32enc x = be_bytes 4 x.
Proof. unfold be_bytes. by rewrite <- le32enc_bytes. Qed.
Lemma be16enc_bytes x : be16enc x = be_bytes 2 x.
Proof. unfold be_bytes. by rewrite <- le16enc_bytes. Qed.

Lemma le32dec_val b0 b1 b2 b3 l : bytes [b0; b1; b2; b3] ->
  le32dec (b0 :: b1 :: b2 :: b3 :: l) = le_val [b0; b1; b2; b3].
Proof.
  intros H. rewrite le_val4 by done. unfold le32dec, aget. cbn.
  rewrite (Z.lor_comm _ b0), (Z.lor_comm _ (b1 ≪ 8)), (Z.lor_comm _ (b2 ≪ 16)).
  by rewrite !Z.lor_assoc.
Qed.
Lemma le16dec_val b0 b1 l : bytes [b0; b1] -> le16dec (b0 :: b1 :: l) = le_val [b0; b1].
Proof.
  rewrite !Forall_cons. intros (H0 & H1 & _). unfold le16dec, aget. cbn [le_val]. cbn.
  rewrite Z.mul_0_r, Z.add_0_r, Z.lor_comm. change 256 with (2 ^ 8).
  by rewrite lor_add_disjoint.
Qed.
Lemma be32dec_val b0 b1 b2 b3 l : bytes [b0; b1; b2; b3] ->
  be32dec (b0 :: b1 :: b2 :: b3 :: l) = be_val [b0; b1; b2; b3].
Proof.
  intros H. rewrite be_val_le. unfold reverse. cbn [rev_append].
  rewrite <- (le32dec_val _ _ _ _ l); [done|].
  rewrite !Forall_cons in *. tauto.
Qed.
Lemma be16dec_val b0 b1 l : bytes [b0; b1] -> be16dec (b0 :: b1 :: l) = be_val [b0; b1].
Proof.
  intros H. rewrite be_val_le. unfold reverse. cbn [rev_append].
  rewrite <- (le16dec_val _ _ l); [done|]. rewrite !Forall_cons in *. tauto.
Qed.

(** Decoding what was encoded, and encoding what was decoded, per field. *)
Lemma le32dec_enc x l : word 32 x -> le32dec (le32enc x ++ l) = x.
Proof.
  intros H. rewrite le32enc_bytes. cbn [le_bytes app].
  rewrite le32dec_val by exact (le_bytes_bytes 4 x). 
  change (le_val (le_bytes 4 x) = x). rewrite le_bytes_val. by apply (wrap_small 32).
Qed.
Lemma le16dec_enc x l : word 16 x -> le16dec (le16enc x ++ l) = x.
Proof.
  intros H. rewrite le16enc_bytes. cbn [le_bytes app].
  rewrite le16dec_val by exact (le_bytes_bytes 2 x).
  change (le_val (le_bytes 2 x) = x). rewrite le_bytes_val. by apply (wrap_small 16).
Qed.
Lemma be_val_be_bytes n x : be_val (be_bytes n x) = x mod 2 ^ (8 * Z.of_nat n).
Proof. unfold be_bytes. by rewrite be_val_le, reverse_involutive, le_bytes_val. Qed.
Lemma be32dec_enc x l : word 32 x -> be32dec (be32enc x ++ l) = x.
Proof.
  intros H. rewrite be32enc_bytes. pose proof (be_bytes_bytes 4 x) as Hb.
  pose proof (be_val_be_bytes 4 x) as E. pose proof (be_bytes_length 4 x) as Hl.
  destruct (be_bytes 4 x) as [|b0 [|b1 [|b2 [|b3 [|]]]]]; try done. cbn [app].
  rewrite be32dec_val, E by done. by apply (wrap_small 32).
Qed.
Lemma be16dec_enc x l : word 16 x -> be16dec (be16enc x ++ l) = x.
Proof.
  intros H. rewrite be16enc_bytes. pose proof (be_bytes_bytes 2 x) as Hb.
  pose proof (be_val_be_bytes 2 x) as E. pose proof (be_bytes_length 2 x) as Hl.
  destruct (be_bytes 2 x) as [|b0 [|b1 [|]]]; try done. cbn [app].
  rewrite be16dec_val, E by done. by apply (wrap_small 16).
Qed.

Lemma be_bytes_be_val l : bytes l -> be_bytes (length l) (be_val l) = l.
Proof.
  intros H. unfold be_bytes. rewrite be_val_le, <- length_reverse, le_val_bytes
    by (by apply Forall_reverse). apply reverse_involutive.
Qed.

Lemma node_map u : length (node u) = 6%nat -> map (fun i => (node u).[i]) (seqZ 0 6) = node u.
Proof.
  intros H. etransitivity; [exact (take_aget (node u) 6 ltac:(lia))|].
  apply take_ge. lia.
Qed.

Lemma node_drop p : length p = 16%nat -> map (fun i => p.[10 + i]) (seqZ 0 6) = drop 10 p.
Proof. intros H. do 17 (destruct p as [|? p]; try done). Qed.

Lemma uuid_codec u buf :
  uuid_wf u -> bytes buf -> length buf = 16%nat ->
  (uuid_dec_le (uuid_enc_le u) = u /\ uuid_dec_be (uuid_enc_be u) = u) /\
  (uuid_enc_le (uuid_dec_le buf) = buf /\ uuid_enc_be (uuid_dec_be buf) = buf).
Proof.
  intros Hu Hb Hl. split; split.
  - unfold uuid_dec_le. destruct Hu as [H1 H2 H3 _ _ _ H7]. unfold uuid_enc_le.
    rewrite node_drop by done. rewrite node_map by done.
    cbn [drop le32enc le16enc app]. fold (le32enc (time_low u)).
    destruct u; cbn in *. f_equal.
    + exact (le32dec_enc time_low0 _ H1).
    + exact (le16dec_enc time_mid0 _ H2).
    + exact (le16dec_enc time_hi_and_version0 _ H3).
  - unfold uuid_dec_be. destruct Hu as [H1 H2 H3 _ _ _ H7]. unfold uuid_enc_be.
    rewrite node_drop by done. rewrite node_map by done.
    cbn [drop be32enc be16enc app].
    destruct u; cbn in *. f_equal.
    + exact (be32dec_enc time_low0 _ H1).
    + exact (be16dec_enc time_mid0 _ H2).
    + exact (be16dec_enc time_hi_and_version0 _ H3).
  - unfold uuid_enc_le. rewrite node_map by done. unfold uuid_dec_le. cbn [time_low time_mid
      time_hi_and_version clock_seq_hi_and_reserved clock_seq_low node].
    rewrite node_drop by done. do 17 (destruct buf as [|? buf]; try done). clear Hl.
    rewrite !Forall_cons in Hb. cbn [drop].
    rewrite le32dec_val, !le16dec_val by (rewrite !Forall_cons; tauto).
    rewrite le32enc_bytes, !le16enc_bytes.
    rewrite (le_val_bytes [_; _; _; _]) by (rewrite !Forall_cons; tauto).
    rewrite !(le_val_bytes [_; _]) by (rewrite !Forall_cons; tauto). done.
  - unfold uuid_enc_be. rewrite node_map by done. unfold uuid_dec_be. cbn [time_low time_mid
      time_hi_and_version clock_seq_hi_and_reserved clock_seq_low node].
    rewrite node_drop by done. do 17 (destruct buf as [|? buf]; try done). clear Hl.
    rewrite !Forall_cons in Hb. cbn [drop].
    rewrite be32dec_val, !be16dec_val by (rewrite !Forall_cons; tauto).
    rewrite be32enc_bytes, !be16enc_bytes.
    rewrite (be_bytes_be_val [_; _; _; _]) by (rewrite !Forall_cons; tauto).
    rewrite !(be_bytes_be_val [_; _]) by (rewrite !Forall_cons; tauto). done.
Qed.

(** ** Comparison is the lexicographic order of the network octets *)

Lemma memcmp_be n : forall x y l r, word (8 * Z.of_nat n) x -> word (8 * Z.of_nat n) y ->
  Z.sgn (memcmp (be_bytes n x ++ l) (be_bytes n y ++ r)) =
  DIFF_RETURN x y (Z.sgn (memcmp l r)).
Proof.
  induction n as [|n IH]; intros x y l r Hx Hy.
  - unfold word in *. change (2 ^ (8 * Z.of_nat 0)) with 1 in *.
    assert (x = 0) as -> by lia. assert (y = 0) as -> by lia. done.
  - unfold be_bytes in *. cbn [le_bytes]. rewrite !reverse_cons, <- !app_assoc. cbn [app].
    assert (Hw : forall z, word (8 * Z.of_nat (S n)) z -> word (8 * Z.of_nat n) (z / 256)).
    { unfold word. intros z [H1 H2]. replace (8 * Z.of_nat (S n)) with (8 * Z.of_nat n + 8) in H2 by lia.
      rewrite Z.pow_add_r in H2 by lia. change (2 ^ 8) with 256 in H2.
      split; [apply Z.div_pos; lia|apply Z.div_lt_upper_bound; lia]. }
    rewrite IH by auto. unfold DIFF_RETURN. cbn [memcmp].
    destruct Hx as [Hx _], Hy as [Hy _].
    pose proof (Z.div_mod x 256). pose proof (Z.div_mod y 256).
    pose proof (Z.mod_pos_bound x 256). pose proof (Z.mod_pos_bound y 256).
    destruct (Z.eqb_spec (x / 256) (y / 256)), (Z.eqb_spec x y),
      (Z.eqb_spec (x mod 256) (y mod 256)), (Z.ltb_spec (x / 256) (y / 256)),
      (Z.ltb_spec x y); cbn [negb]; try (subst; done); try lia.
Qed.

Lemma memcmp_refl l : memcmp l l = 0.
Proof. induction l; simpl; [done|]. by rewrite Z.eqb_refl. Qed.

Lemma memcmp_eq l : forall r, length l = length r -> memcmp l r = 0 -> l = r.
Proof.
  induction l as [|x l IH]; intros [|y r] Hl H; try done. simpl in H.
  destruct (Z.eqb_spec x y) as [->|]; [|lia]. f_equal. apply IH; [by injection Hl|done].
Qed.

Lemma object_bytes_enc u : uuid_wf u -> object_bytes u = uuid_enc_le u.
Proof.
  intros [_ _ _ _ _ _ H]. unfold object_bytes, uuid_enc_le.
  by rewrite le32enc_bytes, !le16enc_bytes, node_map.
Qed.

Lemma object_bytes_eq u v : uuid_wf u -> uuid_wf v ->
  memcmp (object_bytes u) (object_bytes v) = 0 <-> u = v.
Proof.
  intros Hu Hv. split; [|intros ->; apply memcmp_refl]. intros H.
  assert (E : object_bytes u = object_bytes v).
  { apply memcmp_eq; [|done]. unfold object_bytes. rewrite !length_app, !le_bytes_length.
    by rewrite (wf_node_len _ Hu), (wf_node_len _ Hv). }
  rewrite !object_bytes_enc in E by done.
  assert (Hz : bytes (replicate 16 0)) by (apply Forall_replicate; unfold word; lia).
  pose proof (proj1 (proj1 (uuid_codec u (replicate 16 0) Hu Hz eq_refl))) as E1.
  pose proof (proj1 (proj1 (uuid_codec v (replicate 16 0) Hv Hz eq_refl))) as E2.
  congruence.
Qed.

Lemma nil_uuid_wf : uuid_wf nil_uuid.
Proof. by split; [..|repeat constructor|]. Qed.

(** What a pointer argument stands for: NULL is the nil UUID. *)
Definition pointee (m : Z -> uuid_t) (p : Z) : uuid_t := if p =? NULL then nil_uuid else m p.
Definition ptr_ok (m : Z -> uuid_t) (p : Z) : Prop := p <> NULL -> uuid_wf (m p).

Lemma pointee_wf m p : ptr_ok m p -> uuid_wf (pointee m p).
Proof. intros H. unfold pointee. destruct (Z.eqb_spec p NULL); [apply nil_uuid_wf|by apply H]. Qed.

Lemma uuid_is_nil_spec m p : ptr_ok m p ->
  uuid_is_nil m p = if decide (pointee m p = nil_uuid) then 1 else 0.
Proof.
  intros H. pose proof (pointee_wf m p H) as Hw. revert Hw. unfold uuid_is_nil, pointee.
  destruct (Z.eqb_spec p NULL) as [E|E]; intros Hw; [by rewrite decide_True|].
  pose proof (object_bytes_eq _ _ Hw nil_uuid_wf) as Hiff.
  destruct (Z.eqb_spec (memcmp (object_bytes (m p)) (object_bytes nil_uuid)) 0).
  - rewrite decide_True; tauto.
  - rewrite decide_False; tauto.
Qed.

Lemma be_bytes_1 x : byte_ok x -> be_bytes 1 x = [x].
Proof. intros H. unfold be_bytes. simpl. by rewrite Z.mod_small. Qed.

Lemma enc_be_shape u : uuid_wf u ->
  uuid_enc_be u = be_bytes 4 (time_low u) ++ be_bytes 2 (time_mid u) ++
    be_bytes 2 (time_hi_and_version u) ++ be_bytes 1 (clock_seq_hi_and_reserved u) ++
    be_bytes 1 (clock_seq_low u) ++ node u.
Proof.
  intros [_ _ _ H1 H2 _ H]. unfold uuid_enc_be. rewrite be32enc_bytes, !be16enc_bytes, node_map by done.
  by rewrite !be_bytes_1.
Qed.

(** The field-by-field comparison of two structures. *)
Lemma compare_fields u v : uuid_wf u -> uuid_wf v ->
  DIFF_RETURN (time_low u) (time_low v) (
  DIFF_RETURN (time_mid u) (time_mid v) (
  DIFF_RETURN (time_hi_and_version u) (time_hi_and_version v) (
  DIFF_RETURN (clock_seq_hi_and_reserved u) (clock_seq_hi_and_reserved v) (
  DIFF_RETURN (clock_seq_low u) (clock_seq_low v) (
  Z.sgn (memcmp (node u) (node v))))))) = Z.sgn (memcmp (uuid_enc_be u) (uuid_enc_be v)).
Proof.
  intros Hu Hv. rewrite !enc_be_shape by done. destruct Hu, Hv.
  rewrite (memcmp_be 4), !(memcmp_be 2), !(memcmp_be 1) by done. done.
Qed.

Lemma memcmp_enc_be_eq u v : uuid_wf u -> uuid_wf v ->
  memcmp (uuid_enc_be u) (uuid_enc_be v) = 0 <-> u = v.
Proof.
  intros Hu Hv. split; [|intros ->; apply memcmp_refl]. intros H.
  assert (Hz : bytes (replicate 16 0)) by (apply Forall_replicate; unfold word; lia).
  pose proof (proj2 (proj1 (uuid_codec u (replicate 16 0) Hu Hz eq_refl))) as E1.
  pose proof (proj2 (proj1 (uuid_codec v (replicate 16 0) Hv Hz eq_refl))) as E2.
  enough (uuid_enc_be u = uuid_enc_be v) by congruence.
  by apply memcmp_eq.
Qed.

(** The nil UUID is the least. *)
Lemma memcmp_zeros n r : length r = n -> bytes r ->
  Z.sgn (memcmp (replicate n 0) r) = if decide (replicate n 0 = r) then 0 else -1.
Proof.
  revert r. induction n as [|n IH]; intros [|x r] Hl Hb; try done.
  apply Forall_cons in Hb as [[Hx _] Hb]. simpl in Hl. cbn [replicate memcmp].
  destruct (Z.eqb_spec 0 x) as [<-|].
  - rewrite IH by (done || lia). destruct (decide (replicate n 0 = r)) as [->|];
      [by rewrite decide_True|rewrite decide_False; [done|congruence]].
  - rewrite decide_False by congruence. lia.
Qed.

Lemma sgn_antisym l : forall r, Z.sgn (memcmp l r) = - Z.sgn (memcmp r l).
Proof.
  induction l as [|x l IH]; intros [|y r]; try done. cbn [memcmp].
  destruct (Z.eqb_spec x y) as [->|]; [rewrite Z.eqb_refl; apply IH|].
  destruct (Z.eqb_spec y x); lia.
Qed.

Lemma nil_compare v : uuid_wf v ->
  Z.sgn (memcmp (uuid_enc_be nil_uuid) (uuid_enc_be v)) = if decide (v = nil_uuid) then 0 else -1.
Proof.
  intros Hv. pose proof (memcmp_enc_be_eq _ _ nil_uuid_wf Hv) as Hiff.
  change (uuid_enc_be nil_uuid) with (replicate 16 0) in *.
  assert (Hb : bytes (uuid_enc_be v)).
  { rewrite enc_be_shape by done. destruct Hv. repeat apply Forall_app_2; auto using be_bytes_bytes. }
  assert (Hl : length (uuid_enc_be v) = 16%nat) by done.
  rewrite memcmp_zeros by done. destruct (decide (v = nil_uuid)) as [->|Hne].
  - by rewrite decide_True.
  - rewrite decide_False; [done|]. intros E. apply Hne. symmetry. apply Hiff.
    rewrite <- E. apply memcmp_refl.
Qed.

Lemma uuid_compare_spec m a b : ptr_ok m a -> ptr_ok m b ->
  uuid_compare m a b =
    Z.sgn (memcmp (uuid_enc_be (pointee m a)) (uuid_enc_be (pointee m b))).
Proof.
  intros Ha Hb. unfold uuid_compare. pose proof (pointee_wf m a Ha) as Hwa.
  pose proof (pointee_wf m b Hb) as Hwb.
  destruct (Z.eqb_spec a b) as [->|Hab]; [by rewrite memcmp_refl|].
  destruct (Z.eqb_spec a NULL) as [->|Ha0].
  { change (pointee m NULL) with nil_uuid. rewrite (uuid_is_nil_spec m b Hb), nil_compare by done.
    by destruct (decide (pointee m b = nil_uuid)). }
  destruct (Z.eqb_spec b NULL) as [->|Hb0].
  { change (pointee m NULL) with nil_uuid. rewrite (uuid_is_nil_spec m a Ha), sgn_antisym.
    rewrite nil_compare by done. by destruct (decide (pointee m a = nil_uuid)). }
  unfold pointee in *. rewrite (proj2 (Z.eqb_neq a NULL)), (proj2 (Z.eqb_neq b NULL)) in * by done.
  rewrite <- compare_fields by done.
  assert (E : forall x, (if negb (x =? 0) then if x <? 0 then -1 else 1 else 0) = Z.sgn x).
  { intros x. destruct (Z.eqb_spec x 0), (Z.ltb_spec x 0); cbn [negb]; lia. }
  cbv zeta. by rewrite E.
Qed.

Lemma uuid_equal_spec m a b : ptr_ok m a -> ptr_ok m b ->
  uuid_equal m a b = if decide (pointee m a = pointee m b) then 1 else 0.
Proof.
  intros Ha Hb. unfold uuid_equal.
  destruct (Z.eqb_spec a b) as [->|Hab]; [by rewrite decide_True|].
  destruct (Z.eqb_spec a NULL) as [->|Ha0].
  { rewrite (uuid_is_nil_spec m b Hb). change (pointee m NULL) with nil_uuid.
    apply decide_ext. split; congruence. }
  destruct (Z.eqb_spec b NULL) as [->|Hb0].
  { rewrite (uuid_is_nil_spec m a Ha). done. }
  unfold pointee. rewrite (proj2 (Z.eqb_neq a NULL)), (proj2 (Z.eqb_neq b NULL)) by done.
  pose proof (object_bytes_eq _ _ (Ha Ha0) (Hb Hb0)) as Hiff.
  destruct (Z.eqb_spec (memcmp (object_bytes (m a)) (object_bytes (m b))) 0); cbn [negb].
  - rewrite decide_True; tauto.
  - rewrite decide_False; tauto.
Qed.

(** ** Strings *)

Definition lower (c : Z) : Z := if c <=? 57 then c else c .| 32.
Definition pow16 (n : nat) : Z := 2 ^ (4 * Z.of_nat n).

Lemma pow16_S n : pow16 (S n) = 16 * pow16 n.
Proof.
  unfold pow16. replace (4 * Z.of_nat (S n)) with (4 + 4 * Z.of_nat n) by lia.
  by rewrite Z.pow_add_r by lia.
Qed.

Lemma print_hex_length n x : length (print_hex n x) = n.
Proof. revert x. induction n; intros; simpl; [done|]. rewrite length_app, IHn. simpl. lia. Qed.

Lemma hex_char_ok d : 0 <= d < 16 ->
  isxdigit (hex_char d) = true /\ hex_value (hex_char d) = d /\ lower (hex_char d) = hex_char d.
Proof.
  intros H. assert (Hin : In d (seqZ 0 16)) by (apply list_elem_of_In, elem_of_seqZ; lia).
  repeat (destruct Hin as [<-|Hin]; [done|]). destruct Hin.
Qed.

(** Statements about the digits, checked on all 22 of them. *)
Lemma isxdigit_cases c : byte_ok c -> isxdigit c = true ->
  0 <= hex_value c < 16 /\ hex_char (hex_value c) = lower c.
Proof.
  intros [H1 H2] H. change (2 ^ 8) with 256 in H2.
  assert (Hall : forallb (fun c => implb (isxdigit c)
      ((0 <=? hex_value c) && (hex_value c <? 16) && (hex_char (hex_value c) =? lower c)))
    (seqZ 0 256) = true) by (vm_compute; reflexivity).
  rewrite forallb_forall in Hall. specialize (Hall c).
  rewrite H in Hall. cbn [implb] in Hall.
  assert (Hin : In c (seqZ 0 256)) by (apply list_elem_of_In, elem_of_seqZ; lia).
  specialize (Hall Hin). rewrite !andb_true_iff in Hall. lia.
Qed.

Lemma print_hex_digits n x : Forall (fun c => isxdigit c = true) (print_hex n x).
Proof.
  revert x. induction n as [|n IH]; intros x; simpl; [done|]. apply Forall_app. split; [done|].
  constructor; [|done]. apply hex_char_ok. apply Z.mod_pos_bound. lia.
Qed.

Definition hex_fold (acc : Z) (l : list Z) : Z := foldl (fun acc c => 16 * acc + hex_value c) acc l.

Lemma hex_fold_print n x : 0 <= x < pow16 n -> hex_fold 0 (print_hex n x) = x.
Proof.
  revert x. induction n as [|n IH]; intros x Hx.
  - change (pow16 0) with 1 in Hx. simpl. lia.
  - rewrite pow16_S in Hx. unfold hex_fold in *. simpl. rewrite foldl_app, IH.
    + simpl. rewrite (proj1 (proj2 (hex_char_ok (x mod 16) ltac:(apply Z.mod_pos_bound; lia)))).
      pose proof (Z.div_mod x 16). lia.
    + split; [apply Z.div_pos; lia|apply Z.div_lt_upper_bound; lia].
Qed.

Lemma scan_print n x l : 0 <= x < pow16 n -> scan_hex n (print_hex n x ++ l) = x.
Proof.
  intros H. unfold scan_hex. rewrite take_app_length' by (by rewrite print_hex_length).
  by apply hex_fold_print.
Qed.

Lemma print_fold l : bytes l -> Forall (fun c => isxdigit c = true) l ->
  0 <= hex_fold 0 l < pow16 (length l) /\
  print_hex (length l) (hex_fold 0 l) = map lower l.
Proof.
  induction l as [|c l IH] using rev_ind; intros Hb Hx; [done|].
  apply Forall_app in Hb as [Hb Hc], Hx as [Hx Hcx]. apply Forall_inv in Hc, Hcx.
  destruct (IH Hb Hx) as [Hr Hp]. destruct (isxdigit_cases c Hc Hcx) as [Hv Hl].
  unfold hex_fold in *. rewrite foldl_app, length_app, map_app. simpl.
  rewrite Nat.add_1_r. cbn [print_hex]. rewrite pow16_S. split; [lia|].
  rewrite (Z.mul_comm 16), Z.div_add_l, Z.div_small, Z.add_0_r, Hp by lia.
  rewrite Z.add_comm, Z.mod_add, Z.mod_small, Hl by lia. done.
Qed.

(** The shape of an accepted string: eight, four, four, four and twelve digits. *)
Definition uuid_string (h1 h2 h3 h4 h5 : list Z) : list Z :=
  h1 ++ [45] ++ h2 ++ [45] ++ h3 ++ [45] ++ h4 ++ [45] ++ h5.
Definition digits (n : nat) (l : list Z) : Prop :=
  length l = n /\ bytes l /\ Forall (fun c => isxdigit c = true) l.

Lemma digits_app n k l r : digits n l -> digits k r -> digits (n + k) (l ++ r).
Proof.
  intros (<- & H2 & H3) (<- & H5 & H6). split; [by rewrite length_app|].
  by rewrite !Forall_app.
Qed.

Lemma hex_char_byte d : 0 <= d < 16 -> byte_ok (hex_char d).
Proof. unfold hex_char, word. change (2 ^ 8) with 256. destruct (d <? 10); lia. Qed.

Lemma print_digits n x : digits n (print_hex n x).
Proof.
  split; [apply print_hex_length|]. split; [|apply print_hex_digits].
  revert x. induction n as [|n IH]; intros x; simpl; [done|]. apply Forall_app. split; [done|].
  constructor; [|done]. apply hex_char_byte. apply Z.mod_pos_bound. lia.
Qed.

Section Valid.
Local Opaque isxdigit.

Lemma valid_string h1 h2 h3 h4 h5 :
  digits 8 h1 -> digits 4 h2 -> digits 4 h3 -> digits 4 h4 -> digits 12 h5 ->
  forallb (valid_char (uuid_string h1 h2 h3 h4 h5)) (seq 0 36) = true.
Proof.
  intros (L1 & _ & H1) (L2 & _ & H2) (L3 & _ & H3) (L4 & _ & H4) (L5 & _ & H5).
  do 9 (destruct h1 as [|? h1]; try done). do 5 (destruct h2 as [|? h2]; try done).
  do 5 (destruct h3 as [|? h3]; try done). do 5 (destruct h4 as [|? h4]; try done).
  do 13 (destruct h5 as [|? h5]; try done).
  rewrite !Forall_cons in *. cbn. unfold valid_char, aget. cbn.
  repeat match goal with H : _ /\ _ |- _ => destruct H end.
  repeat (apply andb_true_intro; split); try done.
Qed.

Lemma valid_string_inv s : length s = 36%nat -> bytes s ->
  forallb (valid_char s) (seq 0 36) = true ->
  exists h1 h2 h3 h4 h5, s = uuid_string h1 h2 h3 h4 h5 /\
    digits 8 h1 /\ digits 4 h2 /\ digits 4 h3 /\ digits 4 h4 /\ digits 12 h5.
Proof.
  intros Hl Hb Hv. rewrite forallb_forall in Hv.
  assert (Hd : forall k, (k < 36)%nat -> k ∉ [8; 13; 18; 23]%nat -> isxdigit (s.[Z.of_nat k]) = true).
  { intros k Hk Hn. specialize (Hv k ltac:(apply in_seq; lia)). unfold valid_char in Hv.
    by rewrite bool_decide_eq_false_2 in Hv. }
  assert (Hdash : forall k, (k = 8 \/ k = 13 \/ k = 18 \/ k = 23)%nat -> s.[Z.of_nat k] = 45).
  { intros k Hn. assert ((k < 36)%nat) by lia.
    specialize (Hv k ltac:(apply in_seq; lia)). unfold valid_char in Hv.
    rewrite bool_decide_eq_true_2 in Hv by (rewrite !elem_of_cons; tauto).
    by apply Z.eqb_eq. }
  assert (Hdig : forall o n, (o + n <= 36)%nat -> (forall k, (o <= k < o + n)%nat -> k ∉ [8; 13; 18; 23]%nat) ->
    digits n (take n (drop o s))).
  { intros o n Hn Hk. split; [rewrite length_take, length_drop; lia|].
    split; [by apply Forall_take, Forall_drop|]. apply Forall_lookup. intros i x Hx.
    apply lookup_take_Some in Hx as [Hx Hi]. rewrite lookup_drop in Hx.
    rewrite <- (Hd (o + i)%nat) by (lia || (apply Hk; lia)). unfold aget. by rewrite Nat2Z.id, Hx. }
  exists (take 8 (drop 0 s)), (take 4 (drop 9 s)), (take 4 (drop 14 s)), (take 4 (drop 19 s)),
    (take 12 (drop 24 s)).
  assert (Hout : forall o n, (o + n <= 36)%nat ->
      (forall k, (o <= k < o + n)%nat -> k <> 8 /\ k <> 13 /\ k <> 18 /\ k <> 23)%nat ->
      digits n (take n (drop o s))).
  { intros o n Hn Hk. apply Hdig; [done|]. intros k Hok Hin. specialize (Hk k Hok).
    rewrite !elem_of_cons, elem_of_nil in Hin. lia. }
  split; [|split_and!; apply Hout; intros; lia].
  pose proof (Hdash 8%nat ltac:(lia)) as D1. pose proof (Hdash 13%nat ltac:(lia)) as D2.
  pose proof (Hdash 18%nat ltac:(lia)) as D3. pose proof (Hdash 23%nat ltac:(lia)) as D4.
  unfold aget in D1, D2, D3, D4. rewrite Nat2Z.id in D1, D2, D3, D4.
  clear Hv Hd Hdash Hdig Hout Hb. do 37 (destruct s as [|? s]; try done).
  cbn in D1, D2, D3, D4. subst. done.
Qed.
End Valid.

(** The parser's result on a well-formed string. *)
Definition parsed (h1 h2 h3 h4 h5 : list Z) : uuid_t := {|
  time_low := hex_fold 0 h1; time_mid := hex_fold 0 h2; time_hi_and_version := hex_fold 0 h3;
  clock_seq_hi_and_reserved := hex_fold 0 (take 2 h4);
  clock_seq_low := hex_fold 0 (drop 2 h4);
  node := map (fun i => hex_fold 0 (take 2 (drop (2 * i) h5))) (seq 0 6) |}.
Definition variant_status (u : uuid_t) : Z :=
  let n := clock_seq_hi_and_reserved u in
  if negb (n .& 0x80 =? 0x00) && negb (n .& 0xc0 =? 0x80) && negb (n .& 0xe0 =? 0xc0)
  then uuid_s_bad_version else uuid_s_ok.

Lemma from_string_digits h1 h2 h3 h4 h5 u :
  digits 8 h1 -> digits 4 h2 -> digits 4 h3 -> digits 4 h4 -> digits 12 h5 ->
  uuid_from_string (Some (uuid_string h1 h2 h3 h4 h5)) u =
    (parsed h1 h2 h3 h4 h5, variant_status (parsed h1 h2 h3 h4 h5)).
Proof.
  intros H1 H2 H3 H4 H5. pose proof (valid_string _ _ _ _ _ H1 H2 H3 H4 H5) as Hv.
  unfold uuid_from_string. change UUID_STR_LEN with 36%nat. rewrite Hv.
  destruct H1 as (L1 & _), H2 as (L2 & _), H3 as (L3 & _), H4 as (L4 & _), H5 as (L5 & _).
  do 9 (destruct h1 as [|? h1]; try done). do 5 (destruct h2 as [|? h2]; try done).
  do 5 (destruct h3 as [|? h3]; try done). do 5 (destruct h4 as [|? h4]; try done).
  do 13 (destruct h5 as [|? h5]; try done).
  clear. unfold variant_status, parsed. cbn [uuid_string app].
  match goal with |- context [negb (length ?l =? 36)%nat] => change (length l =? 36)%nat with true end.
  cbn [negb]. cbv zeta. by destruct (_ && _).
Qed.

Lemma from_string_invalid s u : s <> [] ->
  (length s <> 36%nat \/ forallb (valid_char s) (seq 0 36) = false) ->
  uuid_from_string (Some s) u = (u, uuid_s_invalid_string_uuid).
Proof.
  intros Hs H. unfold uuid_from_string. change UUID_STR_LEN with 36%nat.
  destruct s as [|c s]; [done|]. destruct (Nat.eqb_spec (length (c :: s)) 36); cbn [negb]; [|done].
  destruct H as [H| ->]; done.
Qed.

Lemma take_digits n k l : digits (n + k) l -> digits n (take n l) /\ digits k (drop n l).
Proof.
  intros (H1 & H2 & H3). split; (split; [rewrite ?length_take, ?length_drop; lia|]);
    split; by (apply Forall_take || apply Forall_drop).
Qed.

Lemma hex_fold_bound n l : digits n l -> 0 <= hex_fold 0 l < pow16 n.
Proof. intros (<- & H2 & H3). by apply print_fold. Qed.

Lemma pair_digits h5 i : digits 12 h5 -> (i < 6)%nat -> digits 2 (take 2 (drop (2 * i) h5)).
Proof.
  intros (H1 & H2 & H3) Hi. split; [rewrite length_take, length_drop; lia|].
  split; by apply Forall_take, Forall_drop.
Qed.

Lemma parsed_wf h1 h2 h3 h4 h5 :
  digits 8 h1 -> digits 4 h2 -> digits 4 h3 -> digits 4 h4 -> digits 12 h5 ->
  uuid_wf (parsed h1 h2 h3 h4 h5).
Proof.
  intros H1 H2 H3 H4 H5. apply (take_digits 2 2) in H4 as [H4 H4'].
  split; cbn [parsed time_low time_mid time_hi_and_version clock_seq_hi_and_reserved clock_seq_low node].
  - exact (hex_fold_bound 8 _ H1).
  - exact (hex_fold_bound 4 _ H2).
  - exact (hex_fold_bound 4 _ H3).
  - exact (hex_fold_bound 2 _ H4).
  - exact (hex_fold_bound 2 _ H4').
  - apply Forall_forall. intros x Hx%list_elem_of_In%in_map_iff.
    destruct Hx as (i & <- & Hi%in_seq). apply (hex_fold_bound 2). apply pair_digits; [done|lia].
  - done.
Qed.

Lemma to_string_shape v :
  (uuid_to_string true (fun _ => v) 1).1 =
  uuid_string (print_hex 8 (time_low v)) (print_hex 4 (time_mid v))
    (print_hex 4 (time_hi_and_version v))
    (print_hex 2 (clock_seq_hi_and_reserved v) ++ print_hex 2 (clock_seq_low v))
    (concat (map (fun i => print_hex 2 ((node v).[i])) (seqZ 0 6))).
Proof.
  unfold uuid_to_string, uuid_string. change (1 =? NULL) with false. cbv iota zeta.
  change (seqZ 0 6) with [0; 1; 2; 3; 4; 5]. cbn [map concat fst].
  by rewrite !app_assoc, app_nil_r.
Qed.

Lemma to_string_pointee m p ok :
  uuid_to_string ok m p = uuid_to_string ok (fun _ => pointee m p) 1.
Proof. done. Qed.

Lemma nodes_digits v : digits 12 (concat (map (fun i => print_hex 2 ((node v).[i])) (seqZ 0 6))).
Proof.
  change (seqZ 0 6) with [0; 1; 2; 3; 4; 5]. cbn [map concat]. rewrite app_nil_r.
  apply (digits_app 2 10), (digits_app 2 8), (digits_app 2 6), (digits_app 2 4), (digits_app 2 2);
    apply print_digits.
Qed.

Lemma print_hex_2 x : print_hex 2 x = [hex_char (x / 16 mod 16); hex_char (x mod 16)].
Proof. done. Qed.

Lemma parsed_print v : uuid_wf v ->
  parsed (print_hex 8 (time_low v)) (print_hex 4 (time_mid v)) (print_hex 4 (time_hi_and_version v))
    (print_hex 2 (clock_seq_hi_and_reserved v) ++ print_hex 2 (clock_seq_low v))
    (concat (map (fun i => print_hex 2 ((node v).[i])) (seqZ 0 6))) = v.
Proof.
  intros [H1 H2 H3 H4 H5 H6 H7]. unfold parsed.
  rewrite take_app_length', drop_app_length' by (by rewrite print_hex_length).
  rewrite !hex_fold_print by done. destruct v as [v1 v2 v3 v4 v5 nd].
  cbn [time_low time_mid time_hi_and_version clock_seq_hi_and_reserved clock_seq_low node] in *.
  f_equal.
  do 7 (destruct nd as [|? nd]; try done). clear H7.
  change (seqZ 0 6) with [0; 1; 2; 3; 4; 5]. rewrite !Forall_cons in H6.
  change (seq 0 6) with [0; 1; 2; 3; 4; 5]%nat. cbn [map].
  rewrite !print_hex_2. cbn [concat app drop take Nat.mul Nat.add]. unfold aget. cbn [lookup].
  change (?x :: nil) with [x].
  repeat match goal with |- context [hex_fold 0 [hex_char (?x / 16 mod 16); hex_char (?x mod 16)]] =>
    change [hex_char (x / 16 mod 16); hex_char (x mod 16)] with (print_hex 2 x) end.
  destruct H6 as (? & ? & ? & ? & ? & ? & _).
  rewrite !hex_fold_print; [done|assumption..].
Qed.

Lemma concat_six (g : Z -> list Z) a b c d e f :
  concat (map (fun i => g ([a; b; c; d; e; f].[i])) (seqZ 0 6)) =
  g a ++ g b ++ g c ++ g d ++ g e ++ g f ++ [].
Proof. done. Qed.

Lemma print_parsed h1 h2 h3 h4 h5 :
  digits 8 h1 -> digits 4 h2 -> digits 4 h3 -> digits 4 h4 -> digits 12 h5 ->
  (uuid_to_string true (fun _ => parsed h1 h2 h3 h4 h5) 1).1 =
  map lower (uuid_string h1 h2 h3 h4 h5).
Proof.
  intros H1 H2 H3 H4 H5. rewrite to_string_shape. unfold uuid_string. rewrite !map_app.
  pose proof (take_digits 2 2 _ H4) as [H4a H4b].
  assert (Hp : forall n h, digits n h -> print_hex n (hex_fold 0 h) = map lower h).
  { intros n h (<- & Hb & Hx). by apply print_fold. }
  cbn [parsed time_low time_mid time_hi_and_version clock_seq_hi_and_reserved clock_seq_low node].
  rewrite (Hp 8%nat h1 H1), (Hp 4%nat h2 H2), (Hp 4%nat h3 H3), (Hp 2%nat _ H4a), (Hp 2%nat _ H4b).
  rewrite <- map_app, take_drop. do 8 f_equal.
  destruct H5 as (L5 & B5 & X5). do 13 (destruct h5 as [|? h5]; try done).
  rewrite !Forall_cons in B5, X5.
  change (seq 0 6) with [0; 1; 2; 3; 4; 5]%nat. cbn [map].
  cbn [Nat.mul Nat.add drop take]. rewrite ?take_0, concat_six.
  assert (Hp2 : forall a b, (byte_ok a /\ byte_ok b) /\ (isxdigit a = true /\ isxdigit b = true) ->
    print_hex 2 (hex_fold 0 [a; b]) = [lower a; lower b]).
  { intros a b [[? ?] [? ?]]. apply (Hp 2%nat [a; b]). split; [done|].
    split; (apply Forall_cons; split; [done|apply Forall_cons; split; [done|constructor]]). }
  rewrite !Hp2 by tauto. done.
Qed.

(** ** Properties *)

(** The little- and big-endian codecs are inverse to each other: decoding
    the encoding of a UUID gives it back, and encoding the UUID decoded from
    any 16 bytes gives the bytes back. *)
Theorem uuid_codec_roundtrip (u : uuid_t) (buf : list Z) :
  uuid_wf u -> bytes buf -> length buf = 16%nat ->
  (uuid_dec_le (uuid_enc_le u) = u /\ uuid_dec_be (uuid_enc_be u) = u) /\
  (uuid_enc_le (uuid_dec_le buf) = buf /\ uuid_enc_be (uuid_dec_be buf) = buf).
Proof. apply uuid_codec. Qed.

Definition sample : uuid_t :=
  mkUuid 0x6ba7b810 0x9dad 0x11d1 0x80 0xb4 [0x00; 0xc0; 0x4f; 0xd4; 0x30; 0xc8].
Lemma sample_wf : uuid_wf sample.
Proof. by split; [..|repeat constructor|]. Qed.

Lemma uuid_codec_roundtrip_witness :
  (uuid_dec_le (uuid_enc_le sample) = sample /\ uuid_dec_be (uuid_enc_be sample) = sample) /\
  (uuid_enc_le (uuid_dec_le (seqZ 1 16)) = seqZ 1 16 /\
   uuid_enc_be (uuid_dec_be (seqZ 1 16)) = seqZ 1 16).
Proof.
  apply uuid_codec_roundtrip; [exact sample_wf| |reflexivity].
  repeat constructor; vm_compute; congruence.
Defined.

(** Comparison is the lexicographic order of the big-endian encodings, NULL
    standing for the nil UUID, and [uuid_equal] is the equality it induces. *)
Theorem uuid_compare_order (m : Z -> uuid_t) (a b : Z) :
  ptr_ok m a -> ptr_ok m b ->
  uuid_compare m a b =
    Z.sgn (memcmp (uuid_enc_be (pointee m a)) (uuid_enc_be (pointee m b))) /\
  uuid_equal m a b = (if uuid_compare m a b =? 0 then 1 else 0) /\
  (uuid_equal m a b = 1 <-> pointee m a = pointee m b).
Proof.
  intros Ha Hb. rewrite (uuid_compare_spec m a b Ha Hb), (uuid_equal_spec m a b Ha Hb).
  pose proof (memcmp_enc_be_eq _ _ (pointee_wf m a Ha) (pointee_wf m b Hb)) as Hiff.
  split; [done|]. destruct (decide (pointee m a = pointee m b)) as [E|E].
  - rewrite E, memcmp_refl. done.
  - split; [|done]. destruct (Z.eqb_spec (Z.sgn (memcmp (uuid_enc_be (pointee m a))
      (uuid_enc_be (pointee m b)))) 0) as [H|H]; [|done].
    rewrite !Z.sgn_null_iff in H. destruct (E (proj1 Hiff H)).
Qed.

Lemma uuid_compare_order_witness :
  let m := fun p => if p =? 8 then sample else nil_uuid in
  uuid_compare m 8 0 = 1 /\ uuid_equal m 8 0 = 0.
Proof.
  intros m. assert (H8 : ptr_ok m 8) by (intros _; exact sample_wf).
  assert (H0 : ptr_ok m 0) by (intros H; destruct (H eq_refl)).
  destruct (uuid_compare_order m 8 0 H8 H0) as (E1 & E2 & _).
  rewrite E2, E1. split; vm_compute; reflexivity.
Defined.

(** A printed UUID parses to itself; a non-empty string is either rejected
    with the structure left alone, or it parses to a well-formed UUID that
    prints as the string in lower case, the status being that of its variant. *)
Theorem uuid_string_roundtrip (v u0 : uuid_t) (s : list Z) :
  uuid_wf v -> bytes s -> s <> [] ->
  uuid_from_string (Some (uuid_to_string true (fun _ => v) 1).1) u0 = (v, variant_status v) /\
  (uuid_from_string (Some s) u0 = (u0, uuid_s_invalid_string_uuid) \/
   exists u, uuid_from_string (Some s) u0 = (u, variant_status u) /\ uuid_wf u /\
     (uuid_to_string true (fun _ => u) 1).1 = map lower s).
Proof.
  intros Hv Hb Hs. split.
  - rewrite to_string_shape, from_string_digits; [by rewrite parsed_print|..];
      try apply print_digits; [|apply nodes_digits].
    apply (digits_app 2 2); apply print_digits.
  - destruct (decide (length s = 36%nat)) as [Hl|Hl];
      [|left; apply from_string_invalid; auto].
    destruct (forallb (valid_char s) (seq 0 36)) eqn:E; [|left; apply from_string_invalid; auto].
    right. destruct (valid_string_inv s Hl Hb E) as (h1 & h2 & h3 & h4 & h5 & -> & H1 & H2 & H3 & H4 & H5).
    exists (parsed h1 h2 h3 h4 h5). split; [by apply from_string_digits|].
    split; [by apply parsed_wf|by apply print_parsed].
Qed.

Lemma uuid_string_roundtrip_witness :
  uuid_from_string (Some (ascii_bytes "6ba7b810-9dad-11d1-80b4-00c04fd430c8")) nil_uuid =
    (sample, uuid_s_ok).
Proof.
  pose proof (proj1 (uuid_string_roundtrip sample nil_uuid [48] sample_wf
    ltac:(repeat constructor; vm_compute; congruence) ltac:(discriminate))) as E.
  replace (ascii_bytes "6ba7b810-9dad-11d1-80b4-00c04fd430c8")
    with ((uuid_to_string true (fun _ => sample) 1).1) by (vm_compute; reflexivity).
  rewrite E. vm_compute. reflexivity.
Defined.
