(* ===== verification/Calendar.v ===== *)
(** * Calendar: broken-down UTC time of time/.

    [__year_to_secs], [__month_to_secs], [__tm_to_secs], [__secs_to_tm],
    [timegm] and [gmtime_r] over C's truncating division, against the
    proleptic Gregorian calendar. *)

From S2P Require Import Prelude.

Definition INT_MAX : Z := 2147483647.
Definition INT_MIN : Z := -2147483648.
Definition int_ok (x : Z) : Prop := INT_MIN <= x <= INT_MAX.

(** [struct tm]; the zone fields are constants for UTC. *)
Record tm := mkTm {
  tm_sec : Z; tm_min : Z; tm_hour : Z; tm_mday : Z; tm_mon : Z; tm_year : Z;
  tm_wday : Z; tm_yday : Z; tm_isdst : Z; tm_gmtoff : Z;
}.

(** C's conversion of an integer to [int], and [!x]. *)
Definition to_int (x : Z) : Z := sgn 32 x.
Definition not_ (x : Z) : Z := if x =? 0 then 1 else 0.

(** ** __year_to_secs: seconds to the start of a year, and whether it is leap *)
Definition year_to_secs (year : Z) : Z * Z :=
  if u64 (year - 2) <=? 136 then
    let y := to_int year in
    let leaps := (y - 68) ≫ 2 in
    let '(leaps, is_leap) := if (y - 68) .& 3 =? 0 then (leaps - 1, 1) else (leaps, 0) in
    (31536000 * (y - 70) + 86400 * leaps, is_leap)
  else
    let cycles := to_int (Z.quot (year - 100) 400) in
    let rem := to_int (Z.rem (year - 100) 400) in
    let '(cycles, rem) := if rem <? 0 then (cycles - 1, rem + 400) else (cycles, rem) in
    let '(is_leap, centuries, leaps) :=
      if rem =? 0 then (1, 0, 0)
      else
        let '(centuries, rem) :=
          if rem >=? 200 then
            (if rem >=? 300 then (3, rem - 300) else (2, rem - 200))
          else (if rem >=? 100 then (1, rem - 100) else (0, rem)) in
        if rem =? 0 then (0, centuries, 0)
        else (not_ (Z.rem rem 4), centuries, Z.quot rem 4) in
    let leaps := leaps + (97 * cycles + 24 * centuries - is_leap) in
    ((year - 100) * 31536000 + leaps * 86400 + 946684800 + 86400, is_leap).

(** ** __month_to_secs *)
Definition secs_through_month : list Z :=
  [0; 31 * 86400; 59 * 86400; 90 * 86400;
   120 * 86400; 151 * 86400; 181 * 86400; 212 * 86400;
   243 * 86400; 273 * 86400; 304 * 86400; 334 * 86400].
Definition month_to_secs (month is_leap : Z) : Z :=
  let t := secs_through_month.[month] in
  if negb (is_leap =? 0) && (month >=? 2) then t + 86400 else t.

(** ** __tm_to_secs *)
Definition tm_to_secs (t : tm) : Z :=
  let year := tm_year t in
  let month := tm_mon t in
  let '(month, year) :=
    if (month >=? 12) || (month <? 0) then
      let adj := Z.quot month 12 in
      let month := Z.rem month 12 in
      let '(adj, month) := if month <? 0 then (adj - 1, month + 12) else (adj, month) in
      (month, year + adj)
    else (month, year) in
  let '(s, is_leap) := year_to_secs year in
  let s := s + month_to_secs month is_leap in
  let s := s + 86400 * to_int (tm_mday t - 1) in
  let s := s + 3600 * tm_hour t in
  let s := s + 60 * tm_min t in
  s + tm_sec t.

(** ** __secs_to_tm *)
Definition LEAPOCH : Z := 946684800 + 86400 * (31 + 29).
Definition DAYS_PER_400Y : Z := 365 * 400 + 97.
Definition DAYS_PER_100Y : Z := 365 * 100 + 24.
Definition DAYS_PER_4Y : Z := 365 * 4 + 1.
Definition days_in_month : list Z := [31; 30; 31; 30; 31; 31; 30; 31; 30; 31; 31; 29].

(** [for (months=0; days_in_month[months] <= remdays; months++)]: at most
    the twelve months of a year that starts in March. *)
Definition months_loop (remdays : Z) : Z * Z :=
  while_ 12 (fun '(months, remdays) => days_in_month.[months] <=? remdays)
    (fun '(months, remdays) => (months + 1, remdays - days_in_month.[months])) (0, remdays).

(** [None] is the return value -1; the fields the function does not set keep
    their value. *)
Definition secs_to_tm (t : Z) (old : tm) : option tm :=
  if (t <? INT_MIN * 31622400) || (t >? INT_MAX * 31622400) then None
  else
    secs ::= t - LEAPOCH;
    days ::= Z.quot secs 86400;
    remsecs ::= Z.rem secs 86400;
    '(remsecs, days) ::= (if remsecs <? 0 then (remsecs + 86400, days - 1) else (remsecs, days));
    wday ::= Z.rem (3 + days) 7;
    wday ::= (if wday <? 0 then wday + 7 else wday);
    qc_cycles ::= Z.quot days DAYS_PER_400Y;
    remdays ::= Z.rem days DAYS_PER_400Y;
    '(remdays, qc_cycles) ::=
      (if remdays <? 0 then (remdays + DAYS_PER_400Y, qc_cycles - 1) else (remdays, qc_cycles));
    c_cycles ::= Z.quot remdays DAYS_PER_100Y;
    c_cycles ::= (if c_cycles =? 4 then c_cycles - 1 else c_cycles);
    remdays ::= remdays - c_cycles * DAYS_PER_100Y;
    q_cycles ::= Z.quot remdays DAYS_PER_4Y;
    q_cycles ::= (if q_cycles =? 25 then q_cycles - 1 else q_cycles);
    remdays ::= remdays - q_cycles * DAYS_PER_4Y;
    remyears ::= Z.quot remdays 365;
    remyears ::= (if remyears =? 4 then remyears - 1 else remyears);
    remdays ::= remdays - remyears * 365;
    leap ::= (if (remyears =? 0) && (negb (q_cycles =? 0) || (c_cycles =? 0)) then 1 else 0);
    yday ::= remdays + 31 + 28 + leap;
    yday ::= (if yday >=? 365 + leap then yday - (365 + leap) else yday);
    years ::= remyears + 4 * q_cycles + 100 * c_cycles + 400 * qc_cycles;
    '(months, remdays) ::= months_loop remdays;
    '(months, years) ::= (if months >=? 10 then (months - 12, years + 1) else (months, years));
    if (years + 100 >? INT_MAX) || (years + 100 <? INT_MIN) then None
    else Some {|
      tm_year := years + 100; tm_mon := months + 2; tm_mday := remdays + 1;
      tm_wday := wday; tm_yday := yday;
      tm_hour := Z.quot remsecs 3600;
      tm_min := Z.rem (Z.quot remsecs 60) 60;
      tm_sec := Z.rem remsecs 60;
      tm_isdst := tm_isdst old; tm_gmtoff := tm_gmtoff old |}.

Definition utc (t : tm) : tm :=
  {| tm_sec := tm_sec t; tm_min := tm_min t; tm_hour := tm_hour t; tm_mday := tm_mday t;
     tm_mon := tm_mon t; tm_year := tm_year t; tm_wday := tm_wday t; tm_yday := tm_yday t;
     tm_isdst := 0; tm_gmtoff := 0 |}.

(** [timegm]: the result (-1 and EOVERFLOW on failure) and the structure
    afterwards; [fresh] is the uninitialised local. *)
Definition timegm (fresh t : tm) : Z * tm :=
  let s := tm_to_secs t in
  match secs_to_tm s fresh with
  | None => (-1, t)
  | Some new => (s, utc new)
  end.

Definition gmtime_r (s : Z) (t : tm) : option tm :=
  match secs_to_tm s t with None => None | Some new => Some (utc new) end.

(** ** The Gregorian calendar *)

Module Gregorian.
Definition leap (y : Z) : bool :=
  (y mod 4 =? 0) && (negb (y mod 100 =? 0) || (y mod 400 =? 0)).
Definition b2z (b : bool) : Z := if b then 1 else 0.
Definition year_days (y : Z) : Z := 365 + b2z (leap y).
(** Days from the epoch 1970-01-01 to January 1st of year [y]; its defining
    property is [days_before_succ]. *)
Definition days_before (y : Z) : Z :=
  365 * (y - 1) + (y - 1) / 4 - (y - 1) / 100 + (y - 1) / 400 - 719162.
(** Length of a month counted from 0, and days of the year before it. *)
Definition month_len (l : bool) (m : Z) : Z :=
  if m =? 1 then 28 + b2z l
  else nth (Z.to_nat m) [31; 28; 31; 30; 31; 30; 31; 31; 30; 31; 30; 31] 0.
Definition before_month (l : bool) (m : Z) : Z :=
  foldr Z.add 0 (map (month_len l) (seqZ 0 m)).
Definition month_days (y m : Z) : Z := month_len (leap y) m.
Definition days_before_month (y m : Z) : Z := before_month (leap y) m.
(** Day number of a date, the month counted from 0. *)
Definition day_number (y m d : Z) : Z := days_before y + days_before_month y m + d - 1.

Lemma days_before_epoch : days_before 1970 = 0.
Proof. reflexivity. Qed.

Lemma div_pred y n : 0 < n -> y / n = (y - 1) / n + b2z (y mod n =? 0).
Proof.
  intros Hn. pose proof (Z.div_mod y n ltac:(lia)) as E. pose proof (Z.mod_pos_bound y n Hn) as Hb.
  unfold b2z. destruct (Z.eqb_spec (y mod n) 0) as [H0|H0].
  - assert ((y - 1) / n = y / n - 1) as ->; [|lia]. symmetry.
    apply (Z.div_unique _ _ _ (n - 1)); lia.
  - assert ((y - 1) / n = y / n) as ->; [|lia]. symmetry.
    apply (Z.div_unique _ _ _ (y mod n - 1)); lia.
Qed.

Lemma mod_divide y n m : 0 < n -> 0 < m -> y mod (n * m) = 0 -> y mod n = 0.
Proof.
  intros Hn Hm H. apply Z.mod_divide in H as [q ->]; [|nia].
  rewrite (Z.mul_comm n), Z.mul_assoc. apply Z.mod_mul. lia.
Qed.

Lemma days_before_succ y : days_before (y + 1) = days_before y + year_days y.
Proof.
  unfold days_before, year_days, leap. replace (y + 1 - 1) with y by lia.
  rewrite (div_pred y 4), (div_pred y 100), (div_pred y 400) by lia.
  pose proof (mod_divide y 4 25 ltac:(lia) ltac:(lia)) as H1.
  pose proof (mod_divide y 100 4 ltac:(lia) ltac:(lia)) as H2.
  change (4 * 25) with 100 in H1. change (100 * 4) with 400 in H2.
  destruct (Z.eqb_spec (y mod 4) 0), (Z.eqb_spec (y mod 100) 0), (Z.eqb_spec (y mod 400) 0);
    cbn [andb orb negb b2z]; try lia; exfalso; auto.
Qed.
End Gregorian.

Import Gregorian.

(** ** Truncating division corrected to floor *)

Lemma to_int_id x : int_ok x -> to_int x = x.
Proof.
  unfold int_ok, INT_MIN, INT_MAX, to_int, sgn, wrap. intros H.
  change (2 ^ 32) with 4294967296. change (2 ^ (32 - 1)) with 2147483648.
  destruct (Z.lt_ge_cases x 0).
  - replace (x mod 4294967296) with (x + 4294967296).
    + destruct (Z.ltb_spec (x + 4294967296) 2147483648); lia.
    + apply (Z.mod_unique _ _ (-1)); lia.
  - rewrite Z.mod_small by lia. destruct (Z.ltb_spec x 2147483648); lia.
Qed.

Lemma floor_div a b : 0 < b ->
  (if Z.rem a b <? 0 then (Z.rem a b + b, Z.quot a b - 1) else (Z.rem a b, Z.quot a b)) =
  (a mod b, a / b).
Proof.
  intros Hb. pose proof (Z.quot_rem a b ltac:(lia)) as E.
  pose proof (Z.rem_bound_abs a b ltac:(lia)) as Hr.
  destruct (Z.ltb_spec (Z.rem a b) 0); f_equal.
  - apply (Z.mod_unique _ _ (Z.quot a b - 1)); lia.
  - apply (Z.div_unique _ _ _ (Z.rem a b + b)); lia.
  - apply (Z.mod_unique _ _ (Z.quot a b)); lia.
  - apply (Z.div_unique _ _ _ (Z.rem a b)); lia.
Qed.

Lemma forallb_range (P : Z -> bool) lo n : forallb P (seqZ lo n) = true ->
  forall x, lo <= x < lo + n -> P x = true.
Proof.
  intros H x Hx. rewrite forallb_forall in H. apply H. apply list_elem_of_In, elem_of_seqZ. lia.
Qed.

(** ** __year_to_secs is the calendar *)

Lemma days_before_400 c y : days_before (400 * c + y) = 146097 * c + days_before y.
Proof.
  unfold days_before.
  replace ((400 * c + y - 1) / 4) with ((y - 1) / 4 + c * 100) by (rewrite <- Z.div_add by lia; f_equal; lia).
  replace ((400 * c + y - 1) / 100) with ((y - 1) / 100 + c * 4) by (rewrite <- Z.div_add by lia; f_equal; lia).
  replace ((400 * c + y - 1) / 400) with ((y - 1) / 400 + c) by (rewrite <- Z.div_add by lia; f_equal; lia).
  lia.
Qed.

Lemma leap_400 c y : leap (400 * c + y) = leap y.
Proof.
  unfold leap.
  replace ((400 * c + y) mod 4) with (y mod 4) by (rewrite <- (Z.mod_add y (c * 100)) by lia; f_equal; lia).
  replace ((400 * c + y) mod 100) with (y mod 100) by (rewrite <- (Z.mod_add y (c * 4)) by lia; f_equal; lia).
  replace ((400 * c + y) mod 400) with (y mod 400) by (rewrite <- (Z.mod_add y c) by lia; f_equal; lia).
  done.
Qed.

Definition year_rem (rem : Z) : Z * Z * Z :=
  if rem =? 0 then (1, 0, 0)
  else
    let '(centuries, rem) :=
      if rem >=? 200 then
        (if rem >=? 300 then (3, rem - 300) else (2, rem - 200))
      else (if rem >=? 100 then (1, rem - 100) else (0, rem)) in
    if rem =? 0 then (0, centuries, 0)
    else (not_ (Z.rem rem 4), centuries, Z.quot rem 4).

Lemma year_rem_ok r : 0 <= r < 400 ->
  let '(is_leap, centuries, leaps) := year_rem r in
  is_leap = b2z (leap (2000 + r)) /\
  leaps + 24 * centuries - is_leap + 365 * r + 10957 + 1 = days_before (2000 + r).
Proof.
  intros Hr. pose proof (forallb_range (fun r => let '(is_leap, centuries, leaps) := year_rem r in
    (is_leap =? b2z (leap (2000 + r))) &&
    (leaps + 24 * centuries - is_leap + 365 * r + 10957 + 1 =? days_before (2000 + r))) 0 400
    ltac:(vm_compute; reflexivity) r ltac:(lia)) as H. cbv beta in H.
  destruct (year_rem r) as [[? ?] ?]. apply andb_true_iff in H. lia.
Qed.

(** The range of years [__tm_to_secs] passes. *)
Definition year_ok (y : Z) : Prop := - 2 ^ 32 <= y <= 2 ^ 32.

Lemma year_to_secs_ok y : year_ok y ->
  year_to_secs y = (86400 * days_before (1900 + y), b2z (leap (1900 + y))).
Proof.
  intros Hy. unfold year_ok in Hy. unfold year_to_secs.
  destruct (Z.leb_spec (u64 (y - 2)) 136) as [Hs|Hs].
  - assert (Hy2 : 2 <= y < 2 + 137).
    { unfold u64, wrap in Hs. destruct (Z.lt_ge_cases y 2).
      - replace ((y - 2) mod 2 ^ 64) with (y - 2 + 2 ^ 64) in Hs; [lia|].
        apply (Z.mod_unique _ _ (-1)); lia.
      - rewrite Z.mod_small in Hs by lia. lia. }
    rewrite to_int_id by (unfold int_ok, INT_MIN, INT_MAX; lia).
    pose proof (forallb_range (fun y =>
      let leaps := (y - 68) ≫ 2 in
      let '(leaps, is_leap) := if (y - 68) .& 3 =? 0 then (leaps - 1, 1) else (leaps, 0) in
      (31536000 * (y - 70) + 86400 * leaps =? 86400 * days_before (1900 + y)) &&
      (is_leap =? b2z (leap (1900 + y)))) 2 137 ltac:(vm_compute; reflexivity) y Hy2) as H.
    cbv beta zeta in H. cbv zeta. destruct ((y - 68) .& 3 =? 0); f_equal; lia.
  - pose proof (Z.quot_rem (y - 100) 400 ltac:(lia)) as E.
    pose proof (Z.rem_bound_abs (y - 100) 400 ltac:(lia)) as Hb.
    rewrite !to_int_id by (unfold int_ok, INT_MIN, INT_MAX; lia). cbv zeta.
    assert (Hf : (if Z.rem (y - 100) 400 <? 0 then (Z.quot (y - 100) 400 - 1, Z.rem (y - 100) 400 + 400)
        else (Z.quot (y - 100) 400, Z.rem (y - 100) 400)) = ((y - 100) / 400, (y - 100) mod 400)).
    { pose proof (floor_div (y - 100) 400 ltac:(lia)) as Hf.
      destruct (Z.rem (y - 100) 400 <? 0); congruence. }
    rewrite Hf. fold (year_rem ((y - 100) mod 400)).
    pose proof (year_rem_ok ((y - 100) mod 400) ltac:(apply Z.mod_pos_bound; lia)) as H.
    destruct (year_rem _) as [[il ce] le]. destruct H as [-> H2].
    pose proof (Z.div_mod (y - 100) 400 ltac:(lia)) as E2.
    replace (1900 + y) with (400 * ((y - 100) / 400) + (2000 + (y - 100) mod 400)) by lia.
    rewrite days_before_400, leap_400. f_equal. lia.
Qed.

(** ** __month_to_secs, __tm_to_secs *)

Lemma month_to_secs_ok y m : 0 <= m < 12 ->
  month_to_secs m (b2z (leap y)) = 86400 * days_before_month y m.
Proof.
  intros Hm. unfold month_to_secs, days_before_month.
  assert (H : m ∈ seqZ 0 12) by (apply elem_of_seqZ; lia).
  change (seqZ 0 12) with [0; 1; 2; 3; 4; 5; 6; 7; 8; 9; 10; 11] in H.
  rewrite !elem_of_cons, elem_of_nil in H.
  destruct (leap y); repeat (destruct H as [-> | H]; [reflexivity|]); destruct H.
Qed.

(** Year and month of a [struct tm] with the month brought into range. *)
Definition norm_year (t : tm) : Z := 1900 + tm_year t + tm_mon t / 12.
Definition norm_month (t : tm) : Z := tm_mon t mod 12.
(** The instant a [struct tm] denotes, its fields out of range included. *)
Definition instant (t : tm) : Z :=
  86400 * day_number (norm_year t) (norm_month t) (tm_mday t) +
  3600 * tm_hour t + 60 * tm_min t + tm_sec t.

(** The fields are [int]s, and so is [tm_mday - 1], where the code computes it. *)
Record tm_ints (t : tm) : Prop := {
  ints_year : int_ok (tm_year t); ints_mon : int_ok (tm_mon t);
  ints_mday : int_ok (tm_mday t) /\ INT_MIN < tm_mday t;
  ints_hour : int_ok (tm_hour t); ints_min : int_ok (tm_min t); ints_sec : int_ok (tm_sec t);
}.

Lemma tm_to_secs_ok t : tm_ints t -> tm_to_secs t = instant t.
Proof.
  intros [Hy Hm Hd _ _ _]. unfold tm_to_secs. rewrite (to_int_id (tm_mday t - 1)) by (unfold int_ok, INT_MIN, INT_MAX in *; lia). revert Hy Hm. clear Hd. intros Hy Hm. unfold instant, norm_year, norm_month, int_ok, INT_MIN, INT_MAX in *.
  pose proof (floor_div (tm_mon t) 12 ltac:(lia)) as Hf.
  assert (Hn : (if (tm_mon t >=? 12) || (tm_mon t <? 0) then
      let adj := Z.quot (tm_mon t) 12 in let month := Z.rem (tm_mon t) 12 in
      let '(adj, month) := if month <? 0 then (adj - 1, month + 12) else (adj, month) in
      (month, tm_year t + adj) else (tm_mon t, tm_year t)) =
      (tm_mon t mod 12, tm_year t + tm_mon t / 12)).
  { cbv zeta. destruct (Z.geb_spec (tm_mon t) 12), (Z.ltb_spec (tm_mon t) 0); cbn [orb]; try lia.
    3: { rewrite Z.mod_small, Z.div_small, Z.add_0_r by lia. done. }
    all: destruct (Z.rem (tm_mon t) 12 <? 0); injection Hf as <- <-; done. }
  cbv zeta in *. rewrite Hn. cbv iota beta.
  pose proof (Z.div_mod (tm_mon t) 12 ltac:(lia)). pose proof (Z.mod_pos_bound (tm_mon t) 12 ltac:(lia)).
  rewrite year_to_secs_ok by (unfold year_ok; lia).
  rewrite month_to_secs_ok by done. unfold day_number.
  replace (1900 + (tm_year t + tm_mon t / 12)) with (1900 + tm_year t + tm_mon t / 12) by lia. lia.
Qed.

(** ** __secs_to_tm *)

(** The cycles of a day of the 400-year period that starts on March 1st 2000:
    centuries, 4-year cycles, years and the day of the year from March. *)
Record cycles (r c q y d : Z) : Prop := {
  cy_sum : r = 36524 * c + 1461 * q + 365 * y + d;
  cy_c : 0 <= c <= 3; cy_q : 0 <= q <= 24; cy_y : 0 <= y <= 3; cy_d : 0 <= d <= 365;
  cy_leap : d = 365 -> y = 3 /\ (q < 24 \/ c = 3);
}.

Lemma march_year_ok c q y : 0 <= c <= 3 -> 0 <= q <= 24 -> 0 <= y <= 3 ->
  let n := y + 4 * q + 100 * c in
  days_before (2000 + n) + 59 + b2z (leap (2000 + n)) = 11017 + 36524 * c + 1461 * q + 365 * y /\
  (if (y =? 0) && (negb (q =? 0) || (c =? 0)) then 1 else 0) = b2z (leap (2000 + n)) /\
  (y = 3 /\ (q < 24 \/ c = 3) -> leap (2000 + n + 1) = true).
Proof.
  intros Hc Hq Hy n.
  pose proof (forallb_range (fun c => forallb (fun q => forallb (fun y =>
    let n := y + 4 * q + 100 * c in
    (days_before (2000 + n) + 59 + b2z (leap (2000 + n)) =? 11017 + 36524 * c + 1461 * q + 365 * y)
    && ((if (y =? 0) && (negb (q =? 0) || (c =? 0)) then 1 else 0) =? b2z (leap (2000 + n)))
    && implb ((y =? 3) && ((q <? 24) || (c =? 3))) (leap (2000 + n + 1)))
    (seqZ 0 4)) (seqZ 0 25)) 0 4 ltac:(vm_compute; reflexivity) c ltac:(lia)) as H.
  cbv beta in H. pose proof (forallb_range _ 0 25 H q ltac:(lia)) as Hq'. cbv beta in Hq'.
  clear H. pose proof (forallb_range _ 0 4 Hq' y ltac:(lia)) as H. cbv beta zeta in H. fold n in H.
  rewrite !andb_true_iff in H. destruct H as [[H1 H2] H3].
  split; [lia|]. split; [lia|]. intros [-> Hql]. 
  destruct (leap (2000 + n + 1)); [done|]. exfalso.
  replace ((q <? 24) || (c =? 3)) with true in H3; [done|].
  symmetry. apply orb_true_iff. lia.
Qed.

(** The month loop on every day of the year. *)
Lemma months_loop_ok d : 0 <= d <= 365 ->
  let '(m, e) := months_loop d in
  0 <= m < 12 /\ 0 <= e /\ (m <? 10) = (d <? 306) /\
  (m < 10 -> forall l, before_month l (m + 2) + e = d + 59 + b2z l /\ e + 1 <= month_len l (m + 2)) /\
  (10 <= m -> forall l, (d = 365 -> l = true) ->
     before_month l (m - 10) + e = d - 306 /\ e + 1 <= month_len l (m - 10)).
Proof.
  intros Hd. pose proof (forallb_range (fun d => let '(m, e) := months_loop d in
    (0 <=? m) && (m <? 12) && (0 <=? e) && Bool.eqb (m <? 10) (d <? 306) &&
    forallb (fun l =>
      if m <? 10 then
        (before_month l (m + 2) + e =? d + 59 + b2z l) && (e + 1 <=? month_len l (m + 2))
      else implb (implb (d =? 365) l)
        ((before_month l (m - 10) + e =? d - 306) && (e + 1 <=? month_len l (m - 10))))
      [true; false]) 0 366 ltac:(vm_compute; reflexivity) d ltac:(lia)) as H. cbv beta in H.
  destruct (months_loop d) as [m e]. rewrite !andb_true_iff in H.
  destruct H as [[[[H1 H2] H3] H4] H5]. apply Bool.eqb_prop in H4. rewrite forallb_forall in H5.
  split; [lia|]. split; [lia|]. split; [done|].
  split; intros Hm l; [|intros Hl]; specialize (H5 l ltac:(destruct l; simpl; auto)).
  - rewrite (proj2 (Z.ltb_lt m 10) Hm) in H5. apply andb_true_iff in H5. lia.
  - rewrite (proj2 (Z.ltb_ge m 10) Hm) in H5.
    replace (implb (d =? 365) l) with true in H5.
    + cbn [implb] in H5. apply andb_true_iff in H5. lia.
    + destruct (Z.eqb_spec d 365); [by rewrite Hl|done].
Qed.

Ltac floor_facts a n :=
  pose proof (Z.div_mod a n ltac:(lia)); pose proof (Z.mod_pos_bound a n ltac:(lia)).

Lemma cycles_ok r : 0 <= r < 146097 ->
  let c := Z.quot r DAYS_PER_100Y in
  let c := if c =? 4 then c - 1 else c in
  let r1 := r - c * DAYS_PER_100Y in
  let q := Z.quot r1 DAYS_PER_4Y in
  let q := if q =? 25 then q - 1 else q in
  let r2 := r1 - q * DAYS_PER_4Y in
  let y := Z.quot r2 365 in
  let y := if y =? 4 then y - 1 else y in
  cycles r c q y (r2 - y * 365).
Proof.
  intros Hr. change DAYS_PER_100Y with 36524. change DAYS_PER_4Y with 1461.
  rewrite Z.quot_div_nonneg by lia. intros c0 c r1.
  assert (Hc : 0 <= c <= 3 /\ 0 <= r1 <= 36524 /\ (r1 = 36524 -> c = 3)).
  { unfold r1, c, c0. clear c r1. clear c0. floor_facts r 36524. destruct (Z.eqb_spec (r / 36524) 4); lia. }
  rewrite Z.quot_div_nonneg by lia. intros q0 q r2.
  assert (Hq : 0 <= q <= 24 /\ 0 <= r2 <= 1460 /\ (r2 = 1460 -> q < 24 \/ c = 3)).
  { unfold r2, q, q0. clear q r2. clear q0. floor_facts r1 1461. destruct (Z.eqb_spec (r1 / 1461) 25); lia. }
  rewrite Z.quot_div_nonneg by lia. intros y0 y.
  assert (Hy : 0 <= y <= 3 /\ 0 <= r2 - y * 365 <= 365 /\ (r2 - y * 365 = 365 -> y = 3 /\ r2 = 1460)).
  { unfold y, y0. clear y. clear y0. floor_facts r2 365. destruct (Z.eqb_spec (r2 / 365) 4); lia. }
  split; lia.
Qed.

(** Fields in range, the date one of the calendar. *)
Record normal (t : tm) : Prop := {
  nm_mon : 0 <= tm_mon t < 12;
  nm_mday : 1 <= tm_mday t <= month_days (1900 + tm_year t) (tm_mon t);
  nm_hour : 0 <= tm_hour t < 24;
  nm_min : 0 <= tm_min t < 60;
  nm_sec : 0 <= tm_sec t < 60;
}.
Definition tm_day (t : tm) : Z := day_number (1900 + tm_year t) (tm_mon t) (tm_mday t).

Lemma normal_instant t : normal t ->
  instant t = 86400 * tm_day t + 3600 * tm_hour t + 60 * tm_min t + tm_sec t.
Proof.
  intros [H _ _ _ _]. unfold instant, norm_year, norm_month, tm_day.
  by rewrite Z.mod_small, Z.div_small, Z.add_0_r by done.
Qed.

(** The date of a day, from its position in the 400-year period. *)
Lemma date_of_cycles qc r c q y d l :
  cycles r c q y d -> l = b2z (leap (2000 + (y + 4 * q + 100 * c))) ->
  let years := y + 4 * q + 100 * c + 400 * qc in
  let yday := d + 31 + 28 + l in
  let yday := if yday >=? 365 + l then yday - (365 + l) else yday in
  let '(m, e) := months_loop d in
  let '(m, years) := if m >=? 10 then (m - 12, years + 1) else (m, years) in
  0 <= m + 2 < 12 /\ 1 <= e + 1 <= month_days (2000 + years) (m + 2) /\
  day_number (2000 + years) (m + 2) (e + 1) = 146097 * qc + r + 11017 /\
  yday = day_number (2000 + years) (m + 2) (e + 1) - days_before (2000 + years).
Proof.
  intros Hcy Hl. destruct Hcy as [Hsum Hc Hq Hy Hd Hlp].
  destruct (march_year_ok c q y Hc Hq Hy) as (M1 & _ & M2). cbv zeta in *.
  set (n := y + 4 * q + 100 * c) in *.
  pose proof (months_loop_ok d Hd) as Hm. destruct (months_loop d) as [m e].
  destruct Hm as (H1 & H2 & H3 & H4 & H5). unfold day_number, month_days, days_before_month.
  destruct (Z.geb_spec m 10) as [Hge|Hlt].
  - assert (306 <= d). { destruct (Z.ltb_spec m 10), (Z.ltb_spec d 306); lia || done. }
    destruct (H5 ltac:(lia) (leap (2000 + (n + 400 * qc + 1)))) as [H6 H7].
    { intros E. replace (2000 + (n + 400 * qc + 1)) with (400 * qc + (2000 + n + 1)) by lia.
      rewrite leap_400. auto. }
    replace (m - 12 + 2) with (m - 10) by lia.
    assert (Hdb : days_before (2000 + (n + 400 * qc + 1)) =
                  146097 * qc + days_before (2000 + n) + 365 + l).
    { replace (2000 + (n + 400 * qc + 1)) with (400 * qc + (2000 + n + 1)) by lia.
      rewrite days_before_400, days_before_succ. unfold year_days. rewrite Hl. lia. }
    destruct (Z.geb_spec (d + 31 + 28 + l) (365 + l)); lia.
  - assert (d < 306). { destruct (Z.ltb_spec m 10), (Z.ltb_spec d 306); lia || done. }
    destruct (H4 ltac:(lia) (leap (2000 + (n + 400 * qc)))) as [H6 H7].
    assert (Hdb : days_before (2000 + (n + 400 * qc)) = 146097 * qc + days_before (2000 + n)).
    { replace (2000 + (n + 400 * qc)) with (400 * qc + (2000 + n)) by lia. apply days_before_400. }
    assert (Hle : leap (2000 + (n + 400 * qc)) = leap (2000 + n)).
    { replace (2000 + (n + 400 * qc)) with (400 * qc + (2000 + n)) by lia. apply leap_400. }
    rewrite Hle in *. destruct (Z.geb_spec (d + 31 + 28 + l) (365 + l)); lia.
Qed.

(** ** A date is determined by its day *)

Lemma days_before_lower y n : 0 <= n -> days_before y + 365 * n <= days_before (y + n).
Proof.
  revert n. apply natlike_ind; [replace (y + 0) with y by lia; lia|]. intros n Hn IH.
  replace (y + Z.succ n) with (y + n + 1) by lia. rewrite days_before_succ.
  unfold year_days, b2z. destruct (leap (y + n)); lia.
Qed.

Lemma month_tables l m m' : 0 <= m < 12 -> 0 <= m' < 12 ->
  0 <= before_month l m /\ before_month l m + month_len l m <= 365 + b2z l /\
  (m < m' -> before_month l m + month_len l m <= before_month l m').
Proof.
  intros Hm Hm'.
  pose proof (forallb_range (fun m => forallb (fun m' => forallb (fun l =>
    (0 <=? before_month l m) && (before_month l m + month_len l m <=? 365 + b2z l) &&
    implb (m <? m') (before_month l m + month_len l m <=? before_month l m')) [true; false])
    (seqZ 0 12)) 0 12 ltac:(vm_compute; reflexivity) m ltac:(lia)) as H. cbv beta in H.
  pose proof (forallb_range _ 0 12 H m' ltac:(lia)) as H'. cbv beta in H'.
  rewrite forallb_forall in H'. specialize (H' l ltac:(destruct l; simpl; auto)).
  rewrite !andb_true_iff in H'. destruct (Z.ltb_spec m m'); cbn [implb] in H'; lia.
Qed.

Lemma normal_year_range t : normal t ->
  days_before (1900 + tm_year t) <= tm_day t < days_before (1900 + tm_year t + 1).
Proof.
  intros [Hm Hd _ _ _]. unfold tm_day, day_number, days_before_month, month_days in *.
  rewrite days_before_succ. unfold year_days.
  pose proof (month_tables (leap (1900 + tm_year t)) (tm_mon t) 0 Hm ltac:(lia)). lia.
Qed.

Lemma day_year_unique y y' d :
  days_before y <= d < days_before (y + 1) -> days_before y' <= d < days_before (y' + 1) -> y = y'.
Proof.
  intros H H'. destruct (Z.lt_total y y') as [Hlt|[->|Hlt]]; [|done|]; exfalso.
  - pose proof (days_before_lower (y + 1) (y' - (y + 1)) ltac:(lia)) as E.
    replace (y + 1 + (y' - (y + 1))) with y' in E by lia. lia.
  - pose proof (days_before_lower (y' + 1) (y - (y' + 1)) ltac:(lia)) as E.
    replace (y' + 1 + (y - (y' + 1))) with y in E by lia. lia.
Qed.

Lemma instant_parts r t : normal r -> instant r = t ->
  tm_day r = t / 86400 /\ 3600 * tm_hour r + 60 * tm_min r + tm_sec r = t mod 86400.
Proof.
  intros Hn Ht. rewrite normal_instant in Ht by done. destruct Hn.
  split; [apply (Z.div_unique _ _ _ (3600 * tm_hour r + 60 * tm_min r + tm_sec r))|
          apply (Z.mod_unique _ _ (tm_day r))]; lia.
Qed.

Lemma normal_unique a b : normal a -> normal b -> instant a = instant b ->
  tm_year a = tm_year b /\ tm_mon a = tm_mon b /\ tm_mday a = tm_mday b /\
  tm_hour a = tm_hour b /\ tm_min a = tm_min b /\ tm_sec a = tm_sec b.
Proof.
  intros Ha Hb E. destruct (instant_parts a _ Ha eq_refl) as [A1 A2].
  destruct (instant_parts b _ Hb (eq_sym E)) as [B1 B2].
  pose proof (normal_year_range a Ha) as Ya. pose proof (normal_year_range b Hb) as Yb.
  assert (Ey : tm_year a = tm_year b).
  { enough (1900 + tm_year a = 1900 + tm_year b) by lia.
    apply (day_year_unique _ _ (tm_day a)); [done|]. by rewrite A1, <- B1. }
  assert (Eday : tm_day a = tm_day b) by congruence. clear Ya Yb.
  destruct Ha as [Am Ad Ah Ami As], Hb as [Bm Bd Bh Bmi Bs].
  unfold tm_day, day_number, days_before_month, month_days in *. rewrite Ey in *.
  pose proof (month_tables (leap (1900 + tm_year b)) (tm_mon a) (tm_mon b) Am Bm) as (_ & _ & M1).
  pose proof (month_tables (leap (1900 + tm_year b)) (tm_mon b) (tm_mon a) Bm Am) as (_ & _ & M2).
  assert (tm_mon a = tm_mon b) as Em by lia. rewrite Em in *.
  split_and!; lia.
Qed.

(** ** The specification of __secs_to_tm *)

Definition secs_to_tm_spec (t : Z) (old : tm) (res : option tm) : Prop :=
  match res with
  | Some r => normal r /\ int_ok (tm_year r) /\ instant r = t /\
      tm_wday r = (tm_day r + 4) mod 7 /\ tm_yday r = tm_day r - days_before (1900 + tm_year r) /\
      tm_isdst r = tm_isdst old /\ tm_gmtoff r = tm_gmtoff old
  | None => forall r, normal r -> instant r = t -> ~ int_ok (tm_year r)
  end.

Lemma secs_range t : (t <? INT_MIN * 31622400) || (t >? INT_MAX * 31622400) = true ->
  forall r, normal r -> instant r = t -> ~ int_ok (tm_year r).
Proof.
  intros Hr r Hn Ht Hy. destruct (instant_parts r t Hn Ht) as [Hd _].
  pose proof (normal_year_range r Hn) as Hyr. unfold int_ok, INT_MIN, INT_MAX in *.
  floor_facts t 86400. unfold days_before in Hyr.
  replace (1900 + tm_year r + 1 - 1) with (1900 + tm_year r) in Hyr by lia.
  floor_facts (1900 + tm_year r - 1) 4. floor_facts (1900 + tm_year r - 1) 100.
  floor_facts (1900 + tm_year r - 1) 400. floor_facts (1900 + tm_year r) 4.
  floor_facts (1900 + tm_year r) 100. floor_facts (1900 + tm_year r) 400.
  apply orb_true_iff in Hr. lia.
Qed.

(** The last step: from a date to the structure or the error. *)
Lemma assemble t old years mon e wday yday :
  0 <= mon + 2 < 12 -> 1 <= e + 1 <= month_days (2000 + years) (mon + 2) ->
  day_number (2000 + years) (mon + 2) (e + 1) = t / 86400 ->
  wday = (t / 86400 + 4) mod 7 ->
  yday = day_number (2000 + years) (mon + 2) (e + 1) - days_before (2000 + years) ->
  secs_to_tm_spec t old
    (if (years + 100 >? INT_MAX) || (years + 100 <? INT_MIN) then None
     else Some {|
       tm_year := years + 100; tm_mon := mon + 2; tm_mday := e + 1;
       tm_wday := wday; tm_yday := yday;
       tm_hour := Z.quot (t mod 86400) 3600;
       tm_min := Z.rem (Z.quot (t mod 86400) 60) 60;
       tm_sec := Z.rem (t mod 86400) 60;
       tm_isdst := tm_isdst old; tm_gmtoff := tm_gmtoff old |}).
Proof.
  intros D1 D2 D3 -> D4. floor_facts t 86400. set (S := t mod 86400) in *.
  match goal with |- context [Some ?x] => set (res := x) end.
  floor_facts S 3600. floor_facts S 60. floor_facts (S / 60) 60.
  assert (Hh : tm_hour res = S / 3600) by (apply Z.quot_div_nonneg; lia).
  assert (Hmi : tm_min res = (S / 60) mod 60).
  { cbn. rewrite Z.quot_div_nonneg by lia. apply Z.rem_mod_nonneg; [apply Z.div_pos|]; lia. }
  assert (Hs : tm_sec res = S mod 60) by (apply Z.rem_mod_nonneg; lia).
  assert (Ey : 1900 + tm_year res = 2000 + years) by (cbn; lia).
  assert (Hday : tm_day res = t / 86400) by (unfold tm_day; by rewrite Ey).
  assert (Hn : normal res).
  { split; [exact D1|rewrite Ey; exact D2|rewrite Hh; lia|rewrite Hmi; lia|rewrite Hs; lia]. }
  assert (Hi : instant res = t).
  { rewrite normal_instant by done. rewrite Hday, Hh, Hmi, Hs. lia. }
  destruct ((years + 100 >? INT_MAX) || (years + 100 <? INT_MIN)) eqn:Hy; cbn [secs_to_tm_spec].
  - intros r' Hn' Hi' Hok. rewrite <- Hi in Hi'.
    destruct (normal_unique r' res Hn' Hn Hi') as (E & _). cbn in E. rewrite E in Hok.
    unfold int_ok in Hok. apply orb_true_iff in Hy. lia.
  - apply orb_false_iff in Hy. split; [done|]. split; [unfold int_ok; cbn; lia|]. split; [done|].
    rewrite Hday, Ey. split; [done|]. split; [|done]. cbn. rewrite D4, D3. done.
Qed.

(** Execute one assignment, naming its value. *)
Ltac name_assign x :=
  lazymatch goal with
  | |- context [assign ?v ?k] =>
      pose (x := v); change (assign v k) with (assign x k); rewrite (assign_eq x k); cbv beta
  end.

Lemma secs_to_tm_ok t old : secs_to_tm_spec t old (secs_to_tm t old).
Proof.
  unfold secs_to_tm. destruct ((t <? _) || _) eqn:Hr; [exact (secs_range t Hr)|].
  do 3 rewrite assign_eq. rewrite (floor_div (t - LEAPOCH) 86400) by lia. rewrite assign_eq.
  change LEAPOCH with (11017 * 86400).
  replace ((t - 11017 * 86400) mod 86400) with (t mod 86400)
    by (rewrite <- (Z.mod_add t (-11017)) by lia; f_equal; lia).
  replace ((t - 11017 * 86400) / 86400) with (t / 86400 - 11017)
    by (replace (t - 11017 * 86400) with (t + -11017 * 86400) by lia; rewrite Z.div_add by lia; lia).
  set (days := t / 86400 - 11017). set (S := t mod 86400).
  assert (HS : 0 <= S < 86400) by (apply Z.mod_pos_bound; lia).
  rewrite assign_eq.
  assert (Hw : (if Z.rem (3 + days) 7 <? 0 then Z.rem (3 + days) 7 + 7 else Z.rem (3 + days) 7) =
               (t / 86400 + 4) mod 7).
  { pose proof (floor_div (3 + days) 7 ltac:(lia)) as E.
    transitivity ((3 + days) mod 7); [destruct (Z.rem (3 + days) 7 <? 0); congruence|].
    unfold days. rewrite <- (Z.mod_add (3 + _) 1574) by lia. f_equal. lia. }
  rewrite Hw. do 3 rewrite assign_eq. change DAYS_PER_400Y with 146097.
  rewrite (floor_div days 146097) by lia. rewrite assign_eq.
  assert (Hrd : 0 <= days mod 146097 < 146097) by (apply Z.mod_pos_bound; lia).
  assert (Hqr : days = 146097 * (days / 146097) + days mod 146097) by (apply Z.div_mod; lia).
  set (qc := days / 146097) in *. set (r := days mod 146097) in *.
  name_assign c0. name_assign c. name_assign r1. name_assign q0. name_assign q.
  name_assign r2. name_assign y0. name_assign y. name_assign d. name_assign l.
  pose proof (cycles_ok r Hrd : cycles r c q y d) as Hcy.
  pose proof (march_year_ok c q y (cy_c _ _ _ _ _ Hcy) (cy_q _ _ _ _ _ Hcy) (cy_y _ _ _ _ _ Hcy))
    as (_ & Hl & _).
  pose proof (date_of_cycles qc r c q y d l Hcy Hl) as Hdate. cbv zeta in Hdate.
  clearbody l d y. clear Hl. rewrite !assign_eq.
  destruct (months_loop d) as [m e]. rewrite assign_eq.
  destruct (m >=? 10); cbv beta iota in Hdate |- *;
    destruct Hdate as (D1 & D2 & D3 & D4).
  all: match type of D1 with 0 <= ?mm + 2 < 12 => set (mon := mm) in * end.
  all: match type of D2 with _ <= _ <= month_days (2000 + ?yy) _ => set (years := yy) in * end.
  all: assert (D3' : day_number (2000 + years) (mon + 2) (e + 1) = t / 86400) by lia.
  all: apply (assemble t old years mon e); done.
Qed.

(** ** Properties *)

(** C35: [__secs_to_tm] gives the proleptic Gregorian date and time of every
    instant whose year fits an int: fields in range, the week day and the day
    of the year right; it fails exactly when the year does not fit. *)
Theorem secs_to_tm_correct (t : Z) (old : tm) : secs_to_tm_spec t old (secs_to_tm t old).
Proof. apply secs_to_tm_ok. Qed.

(** C36: [__tm_to_secs] gives the instant a broken-down time denotes, fields out
    of range included, when every field is an int and tm_mday is not INT_MIN
    (the code subtracts 1 from it as an int); on a normalised time it is the
    inverse of [__secs_to_tm]. *)
Theorem tm_to_secs_correct (t old : tm) : tm_ints t ->
  tm_to_secs t = instant t /\
  (normal t -> exists r, secs_to_tm (tm_to_secs t) old = Some r /\
     tm_year r = tm_year t /\ tm_mon r = tm_mon t /\ tm_mday r = tm_mday t /\
     tm_hour r = tm_hour t /\ tm_min r = tm_min t /\ tm_sec r = tm_sec t).
Proof.
  intros Ht. pose proof (tm_to_secs_ok t Ht) as E. split; [done|]. intros Hn. rewrite E.
  pose proof (secs_to_tm_ok (instant t) old) as H.
  destruct (secs_to_tm (instant t) old) as [r|]; cbn [secs_to_tm_spec] in H.
  - exists r. split; [done|]. destruct H as (Hn' & _ & Hi & _). by apply normal_unique.
  - destruct (H t Hn eq_refl (ints_year _ Ht)).
Qed.

Definition sample_tm : tm := mkTm 30 59 23 29 1 124 4 59 0 0.
Ltac ints := split; vm_compute; repeat split; congruence.
Lemma tm_to_secs_correct_witness :
  tm_to_secs sample_tm = 1709251170 /\ tm_to_secs (mkTm 0 0 0 (-2147483647) 14 (-1) 0 0 0 0) = -185544791078400.
Proof.
  rewrite (proj1 (tm_to_secs_correct sample_tm sample_tm ltac:(ints))).
  rewrite (proj1 (tm_to_secs_correct (mkTm 0 0 0 (-2147483647) 14 (-1) 0 0 0 0) sample_tm ltac:(ints))).
  split; vm_compute; reflexivity.
Defined.

Lemma normal_ints t : normal t -> int_ok (tm_year t) -> tm_ints t.
Proof.
  intros [H1 H2 H3 H4 H5] Hy. assert (month_days (1900 + tm_year t) (tm_mon t) <= 31).
  { unfold month_days, month_len. destruct (Z.eqb_spec (tm_mon t) 1); [destruct (leap _); cbn; lia|].
    assert (H : tm_mon t ∈ seqZ 0 12) by (apply elem_of_seqZ; lia). revert H. generalize (tm_mon t). clear. intros m H.
    assert (Hf : forallb (fun m => nth (Z.to_nat m) [31; 28; 31; 30; 31; 30; 31; 31; 30; 31; 30; 31] 0 <=? 31) (seqZ 0 12) = true) by reflexivity.
    rewrite forallb_forall in Hf. apply Z.leb_le, Hf. by apply list_elem_of_In. }
  split; unfold int_ok, INT_MIN, INT_MAX in *; lia.
Qed.

(** [timegm] returns the instant of its argument and normalises the
    structure to the broken-down UTC time of that instant, or returns -1 and
    leaves the structure alone when the year does not fit; [gmtime_r] then
    gives the same structure. *)
Theorem timegm_correct (fresh t : tm) : tm_ints t ->
  match gmtime_r (instant t) fresh with
  | Some r => timegm fresh t = (instant t, r) /\ normal r /\ instant r = instant t /\
              timegm fresh r = (instant t, r)
  | None => timegm fresh t = (-1, t) /\
            forall r, normal r -> instant r = instant t -> ~ int_ok (tm_year r)
  end.
Proof.
  intros Ht. unfold gmtime_r, timegm. rewrite tm_to_secs_ok by done.
  pose proof (secs_to_tm_ok (instant t) fresh) as H.
  destruct (secs_to_tm (instant t) fresh) as [r|] eqn:E; cbn [secs_to_tm_spec] in H; [|done].
  destruct H as (Hn & Hy' & Hi & _).
  assert (Hn' : normal (utc r)) by (by destruct Hn).
  assert (Hi' : instant (utc r) = instant t) by done.
  split; [done|]. split; [done|]. split; [done|].
  rewrite (tm_to_secs_ok (utc r)) by (by apply normal_ints). by rewrite Hi', E.
Qed.

Lemma timegm_correct_witness : exists r, timegm sample_tm (mkTm 0 0 0 0 2 124 0 0 0 0) = (1709164800, r) /\
  normal r /\ tm_mday r = 29.
Proof.
  pose proof (timegm_correct sample_tm (mkTm 0 0 0 0 2 124 0 0 0 0) ltac:(ints)) as H.
  destruct (gmtime_r _ _) as [r|] eqn:E; [|vm_compute in E; discriminate].
  exists r. destruct H as (H1 & H2 & _). split; [exact H1|]. split; [exact H2|].
  vm_compute in E. injection E as <-. reflexivity.
Defined.
