(* ===== verification/LeapTime.v ===== *)
(** * LeapTime: leap-second conversions of time/leaptime.c.

    The lazily filled leap table, [time2posix] and the search of
    [posix2time]. *)

From S2P Require Import Prelude.

Definition MAX_LEAPS : nat := 50.

(** The file's static state: the table as (trans, corr) pairs, the first
    [leap_count] entries of it, and whether it was filled. *)
Record leap_state := mkLeap { leap_table : list (Z * Z); leap_initialized : bool }.
Definition leap_init : leap_state := mkLeap [] false.

Definition fallback_leaps : list Z :=
  [78796800; 94694400; 126230400; 157766400; 189302400;
   220924800; 252460800; 283996800; 315532800; 347068800;
   378604800; 410140800; 441676800; 489024000; 567993600;
   631152000; 662688000; 709948800; 741484800; 773020800;
   820454400; 867715200; 915148800; 1136073600; 1230768000;
   1341100800; 1435708800; 1483228800].

(** The number read is an [unsigned long]. *)
Definition tai_to_posix (tai_utc : Z) : Z := sgn 64 (sgn 64 tai_utc - 10).

(** The loop over the lines of the file.  A line is what [fgets] returns and
    [sscanf] makes of it: [None] for a comment, an empty line or one without
    a number. *)
Fixpoint read_leaps (lines : list (option Z)) (table : list (Z * Z)) : list (Z * Z) :=
  match lines with
  | [] => table
  | line :: lines =>
      if (length table <? MAX_LEAPS)%nat then
        match line with
        | None => read_leaps lines table
        | Some tai_utc =>
            read_leaps lines (table ++ [(tai_to_posix tai_utc, Z.of_nat (length table) + 1)])
        end
      else table
  end.

Definition fallback_table : list (Z * Z) :=
  imap (fun i t => (t, Z.of_nat i + 1)) fallback_leaps.

(** [file] is [None] when leap-seconds.list cannot be opened. *)
Definition update_internal_leap_table (file : option (list (option Z))) (s : leap_state) : leap_state :=
  if leap_initialized s then s
  else
    let table := match file with Some lines => read_leaps lines [] | None => [] end in
    if (0 <? length table)%nat then mkLeap table true
    else mkLeap fallback_table true.

(** [for (i = leap_count-1; i >= 0; i--) if (t >= trans[i]) return corr[i];]. *)
Definition leap_search (table : list (Z * Z)) (t : Z) : Z :=
  match List.find (fun '(trans, _) => trans <=? t) (reverse table) with
  | Some (_, corr) => corr
  | None => 0
  end.
Definition leap (file : option (list (option Z))) (s : leap_state) (t : Z) : Z * leap_state :=
  let s := update_internal_leap_table file s in (leap_search (leap_table s) t, s).

(** The value of a sum of times; overflow is undefined. *)
Definition time_t (x : Z) : option Z := if (- 2 ^ 63 <=? x) && (x <? 2 ^ 63) then Some x else None.

Definition time2posix file (s : leap_state) (t : Z) : option (Z * leap_state) :=
  let '(l, s) := leap file s t in y ← time_t (t - l); Some (y, s).

(** The loop [while (y != t)]; [None] when the fuel runs out. *)
Fixpoint posix_search (fuel : nat) file (s : leap_state) (t x y : Z) : option (Z * leap_state) :=
  if y =? t then Some (x, s)
  else
    match fuel with
    | O => None
    | S fuel =>
        x ← time_t (x + (if y <? t then 1 else -1));
        let '(l, s) := leap file s x in
        y ← time_t (x - l);
        posix_search fuel file s t x y
    end.
Definition posix2time (fuel : nat) file (s : leap_state) (t : Z) : option (Z * leap_state) :=
  let '(l, s) := leap file s t in
  x ← time_t (t + l);
  let '(l, s) := leap file s x in
  y ← time_t (x - l);
  posix_search fuel file s t x y.

(** ** Tables in increasing order count the leap seconds before an instant *)

(** Entry [i] has correction [i + 1] and the instants increase. *)
Definition table_ok (table : list (Z * Z)) : Prop :=
  table = imap (fun i t => (t, Z.of_nat i + 1)) (map fst table) /\
  forall i j a b, map fst table !! i = Some a -> map fst table !! j = Some b ->
    (i < j)%nat -> a < b.

Lemma table_snoc l a : table_ok (l ++ [a]) ->
  table_ok l /\ a.2 = Z.of_nat (length l) + 1 /\ forall b, b ∈ map fst l -> b < a.1.
Proof.
  intros [H1 H2]. rewrite map_app, imap_app in H1. cbn [map imap] in H1.
  apply app_inj_2 in H1 as [H1 H3]; [|done]. rewrite length_map in H3.
  destruct a as [a c]. cbn in H3. injection H3 as ->. split_and!.
  - split; [done|]. intros i j x y Hx Hy. apply H2; rewrite map_app; by apply lookup_app_l_Some.
  - cbn. lia.
  - intros b [i Hi]%list_elem_of_lookup. apply (H2 i (length l)).
    + rewrite map_app. by apply lookup_app_l_Some.
    + rewrite map_app, lookup_app_r by (by rewrite length_map). by rewrite length_map, Nat.sub_diag.
    + apply lookup_lt_Some in Hi. by rewrite length_map in Hi.
Qed.

(** Number of leap seconds at or before [t]. *)
Definition leaps_upto (table : list (Z * Z)) (t : Z) : Z :=
  Z.of_nat (length (filter (fun a => a.1 <= t) table)).

Lemma leaps_upto_snoc l a t : leaps_upto (l ++ [a]) t =
  leaps_upto l t + (if decide (a.1 <= t) then 1 else 0).
Proof.
  unfold leaps_upto. rewrite filter_app, length_app. cbn.
  destruct (decide (a.1 <= t)); simpl; lia.
Qed.

Lemma leaps_upto_all l t : (forall b, b ∈ map fst l -> b <= t) -> leaps_upto l t = Z.of_nat (length l).
Proof.
  induction l as [|a l IH] using rev_ind; intros H; [done|].
  rewrite leaps_upto_snoc, length_app, IH, decide_True; [simpl; lia| |].
  - apply H. rewrite map_app, elem_of_app. right. apply elem_of_cons. by left.
  - intros b Hb. apply H. rewrite map_app, elem_of_app. by left.
Qed.

Lemma leaps_upto_ext l t t' : (forall b, b ∈ map fst l -> (b <= t <-> b <= t')) ->
  leaps_upto l t = leaps_upto l t'.
Proof.
  induction l as [|a l IH] using rev_ind; intros H; [done|]. rewrite !leaps_upto_snoc, IH.
  - f_equal. apply decide_ext. apply H. rewrite map_app, elem_of_app. right. apply elem_of_cons. by left.
  - intros b Hb. apply H. rewrite map_app, elem_of_app. by left.
Qed.

Lemma leap_search_count table t : table_ok table -> leap_search table t = leaps_upto table t.
Proof.
  unfold leap_search. induction table as [|a l IH] using rev_ind; intros Hok; [done|].
  destruct (table_snoc l a Hok) as (Hl & Ha & Hlt). rewrite reverse_snoc. cbn [find].
  rewrite leaps_upto_snoc. destruct a as [x c]. cbn [fst snd] in *.
  destruct (Z.leb_spec x t) as [Hx|Hx].
  - rewrite decide_True, Ha by done. rewrite leaps_upto_all; [done|].
    intros b Hb. specialize (Hlt b Hb). lia.
  - rewrite decide_False, Z.add_0_r by lia. by apply IH.
Qed.

Lemma leaps_upto_bounds table t : 0 <= leaps_upto table t <= Z.of_nat (length table).
Proof.
  unfold leaps_upto. pose proof (length_filter (fun a : Z * Z => a.1 <= t) table). lia.
Qed.

Lemma leaps_upto_mono table t t' : t <= t' -> leaps_upto table t <= leaps_upto table t'.
Proof.
  intros Ht. induction table as [|a l IH] using rev_ind; [done|]. rewrite !leaps_upto_snoc.
  destruct (decide (a.1 <= t)), (decide (a.1 <= t')); lia.
Qed.

Lemma leaps_upto_step table t : table_ok table -> leaps_upto table (t + 1) <= leaps_upto table t + 1.
Proof.
  induction table as [|a l IH] using rev_ind; intros Hok; [unfold leaps_upto; simpl; lia|].
  destruct (table_snoc l a Hok) as (Hl & _ & Hlt). specialize (IH Hl). rewrite !leaps_upto_snoc.
  destruct (decide (a.1 <= t)), (decide (a.1 <= t + 1)); try lia.
  assert (a.1 = t + 1) as E by lia. enough (leaps_upto l (t + 1) = leaps_upto l t) by lia.
  apply leaps_upto_ext. intros b Hb. specialize (Hlt b Hb). lia.
Qed.

Lemma fallback_ok : table_ok fallback_table.
Proof.
  split; [reflexivity|]. intros i j a b Hi Hj Hij.
  assert (H : forallb (fun i => forallb (fun j => implb (i <? j)%nat
    (default 0 (map fst fallback_table !! i) <? default 0 (map fst fallback_table !! j))) (seq 0 28))
    (seq 0 28) = true) by (vm_compute; reflexivity).
  rewrite forallb_forall in H. pose proof (lookup_lt_Some _ _ _ Hi) as Li.
  pose proof (lookup_lt_Some _ _ _ Hj) as Lj. cbn in Li, Lj.
  specialize (H i ltac:(apply in_seq; lia)). rewrite forallb_forall in H.
  specialize (H j ltac:(apply in_seq; lia)). rewrite Hi, Hj, (proj2 (Nat.ltb_lt i j) Hij) in H.
  cbn in H. lia.
Qed.

(** ** The conversions *)

Section Conversions.
Variables (file : option (list (option Z))) (s0 : leap_state).
(** The table the first call leaves; the fallback has this property. *)
Let s := update_internal_leap_table file s0.
Hypothesis Hok : table_ok (leap_table s).
Abbreviation L := (leaps_upto (leap_table s)).

Lemma update_idem : update_internal_leap_table file s = s.
Proof.
  assert (H : leap_initialized s = true).
  { unfold s, update_internal_leap_table. destruct (leap_initialized s0) eqn:E; [done|].
    by destruct (0 <? _)%nat. }
  unfold update_internal_leap_table at 1. by rewrite H.
Qed.

Lemma leap_eq t : leap file s t = (L t, s).
Proof. unfold leap. by rewrite update_idem, leap_search_count. Qed.
Lemma leap_first t : leap file s0 t = (L t, s).
Proof. unfold leap. fold s. by rewrite leap_search_count. Qed.

Lemma time_t_ok x : - 2 ^ 63 <= x < 2 ^ 63 -> time_t x = Some x.
Proof. intros H. unfold time_t. destruct (Z.leb_spec (- 2 ^ 63) x), (Z.ltb_spec x (2 ^ 63)); done || lia. Qed.

(** Times so far from the limits of [time_t] that no sum overflows. *)
Definition roomy (t : Z) : Prop := - 2 ^ 63 + Z.of_nat (length (leap_table s)) <= t < 2 ^ 63 - Z.of_nat (length (leap_table s)).

Lemma posix_search_ok t fuel : roomy t -> forall x,
  t <= x -> x - L x <= t -> (Z.to_nat (t + Z.of_nat (length (leap_table s)) - x) <= fuel)%nat ->
  exists x', posix_search fuel file s t x (x - L x) = Some (x', s) /\ x' - L x' = t.
Proof.
  intros Ht. unfold roomy in Ht. induction fuel as [|fuel IH]; intros x Hx Hy Hf;
    pose proof (leaps_upto_bounds (leap_table s) x) as Hb; cbn [posix_search];
    (destruct (Z.eqb_spec (x - L x) t) as [E|E]; [by exists x|]).
  - lia.
  - destruct (Z.ltb_spec (x - L x) t); [|lia].
    pose proof (leaps_upto_mono (leap_table s) x (x + 1) ltac:(lia)).
    pose proof (leaps_upto_step (leap_table s) x Hok). pose proof (leaps_upto_bounds (leap_table s) (x + 1)).
    rewrite time_t_ok by lia. cbn [mbind option_bind]. rewrite leap_eq. rewrite time_t_ok by lia. cbn [mbind option_bind]. apply IH; lia.
Qed.

Lemma posix2time_ok t fuel : roomy t -> (length (leap_table s) <= fuel)%nat ->
  exists x, posix2time fuel file s0 t = Some (x, s) /\ time2posix file s x = Some (t, s).
Proof.
  intros Ht Hf. pose proof Ht as Ht'. unfold roomy in Ht'. unfold posix2time, time2posix. rewrite leap_first.
  pose proof (leaps_upto_bounds (leap_table s) t) as Hb. rewrite time_t_ok by lia. cbn [mbind option_bind]. rewrite leap_eq.
  pose proof (leaps_upto_mono (leap_table s) t (t + L t) ltac:(lia)). pose proof (leaps_upto_bounds (leap_table s) (t + L t)).
  rewrite time_t_ok by lia. cbn [mbind option_bind].
  destruct (posix_search_ok t fuel Ht (t + L t)) as (x & Hx & Hxt); [lia|lia|lia|].
  exists x. split; [exact Hx|]. rewrite leap_eq, Hxt, time_t_ok by lia. done.
Qed.
End Conversions.

(** ** Properties *)

(** C37: with a table of increasing instants (the built-in one is such a table)
    and for a time at least as many seconds from the limits of a 64-bit time_t
    as the table has entries, [posix2time] terminates within [leap_count]
    iterations of its search, no sum overflows, and it returns a time that
    [time2posix] converts back to its argument. *)
Theorem posix2time_inverse (file : option (list (option Z))) (s0 : leap_state) (t : Z) (fuel : nat) :
  let s := update_internal_leap_table file s0 in
  table_ok (leap_table s) -> (length (leap_table s) <= fuel)%nat ->
  - 2 ^ 63 + Z.of_nat (length (leap_table s)) <= t < 2 ^ 63 - Z.of_nat (length (leap_table s)) ->
  table_ok fallback_table /\
  exists x, posix2time fuel file s0 t = Some (x, s) /\ time2posix file s x = Some (t, s).
Proof. intros s Hok Hf Ht. split; [exact fallback_ok|]. by apply posix2time_ok. Qed.

Lemma posix2time_inverse_witness :
  exists x, posix2time 28 None leap_init 1483228800 = Some (x, update_internal_leap_table None leap_init) /\
    time2posix None (update_internal_leap_table None leap_init) x =
      Some (1483228800, update_internal_leap_table None leap_init).
Proof.
  destruct (posix2time_inverse None leap_init 1483228800 28 fallback_ok ltac:(vm_compute; lia) ltac:(vm_compute; split; congruence)) as [_ H].
  exact H.
Defined.
