(* ===== verification/Utf8.v ===== *)
(** * Utf8: the multibyte conversions of multibyte/.

    The bit-packed decoder state machine of mbrtowc and mbtowc, the encoder
    wcrtomb, the UTF-16 and UTF-32 conversions, against well-formed UTF-8 of
    the Unicode standard (table 3-7). *)

From S2P Require Import Prelude.

(** ** internal.h, internal.c *)

(** [OOB(c,b)]: the upper 6 state bits, as a negative offset, bound the next byte. *)
Definition OOB (c b : Z) : bool :=
  negb (((((b ≫ 3) - 0x10) .| ((b ≫ 3) + (sgn 32 c ≫ 26))) .& Z.lnot 7) =? 0).
Definition R (a b : Z) : Z := shl32 (if a =? 0x80 then u32 (0x40 - b) else u32 (0 - a)) 23.
Definition SA : Z := 0xc2.
Definition SB : Z := 0xf4.
(** [CODEUNIT(c)]: [signed char] conversion, then [&]. *)
Definition CODEUNIT (c : Z) : Z := 0xdfff .& sgn 8 c.
Definition IS_CODEUNIT (c : Z) : bool := u32 (u32 c - 0xdf80) <? 0x80.

Definition C (x : Z) : Z := if x <? 2 then u32 (-1) else R 0x80 0xc0 .| x.
Definition D (x : Z) : Z := C (x + 16).
Definition E (x : Z) : Z :=
  (if x =? 0 then R 0xa0 0xc0 else if x =? 0xd then R 0x80 0xa0 else R 0x80 0xc0)
  .| (R 0x80 0xc0 ≫ 6) .| x.
Definition F (x : Z) : Z :=
  (if x >=? 5 then 0 else if x =? 0 then R 0x90 0xc0 else if x =? 4 then R 0x80 0x90
   else R 0x80 0xc0)
  .| (R 0x80 0xc0 ≫ 6) .| (R 0x80 0xc0 ≫ 12) .| x.
Definition bittab : list Z :=
  map C (seqZ 2 14) ++ map D (seqZ 0 16) ++ map E (seqZ 0 16) ++ map F (seqZ 0 5).

(** [size_t] results: -1 (EILSEQ), -2 (incomplete), -3 (from a pending unit). *)
Definition ILSEQ : Z := u64 (-1).
Definition INCOMPLETE : Z := u64 (-2).
Definition PENDING : Z := u64 (-3).

(** What a conversion does: its result, the wide character it stores (if it
    stores one) and the conversion state it leaves. *)
Record conv := mkConv { ret : Z; out : option Z; st : Z }.
Definition ilseq : conv := mkConv ILSEQ None 0.

(** ** mbrtowc

    [s] holds the bytes from the source pointer on, [None] for NULL; [n] is
    the limit; [c] the state word; [single] says that MB_CUR_MAX is 1. *)

Definition high (c : Z) : bool := negb (c .& 0x80000000 =? 0).
Definition continue (c b : Z) : Z := shl32 c 6 .| u32 (b - 0x80).

Fixpoint mbr_loop (N : Z) (n : nat) (c : Z) (s : list Z) : conv :=
  match n with
  | O => mkConv INCOMPLETE None c
  | S n =>
      let c := continue c (s.[0]) in
      let s := tail s in
      if negb (high c) then mkConv (N - Z.of_nat n) (Some c) 0
      else if (0 <? n)%nat then
        if u32 (s.[0] - 0x80) >=? 0x40 then ilseq else mbr_loop N n c s
      else mkConv INCOMPLETE None c
  end.

Definition mbr_cont (N : Z) (n : nat) (c : Z) (s : list Z) : conv :=
  if (0 <? n)%nat then if OOB c (s.[0]) then ilseq else mbr_loop N n c s
  else mkConv INCOMPLETE None c.

Definition mbrtowc (single : bool) (s : option (list Z)) (n : nat) (c : Z) : conv :=
  let N := Z.of_nat n in
  match s with
  | None => if negb (c =? 0) then ilseq else mkConv 0 None c
  | Some s =>
      if (n =? 0)%nat then mkConv INCOMPLETE None c
      else if c =? 0 then
        let b := s.[0] in
        if b <? 0x80 then mkConv (if b =? 0 then 0 else 1) (Some b) c
        else if single then mkConv 1 (Some (CODEUNIT b)) c
        else if u32 (b - SA) >? SB - SA then ilseq
        else mbr_cont N (n - 1) (bittab.[b - SA]) (tail s)
      else mbr_cont N n c s
  end.

(** ** mbtowc: the result and the wide character stored; -1 with EILSEQ *)
Definition mbtowc (single : bool) (s : option (list Z)) (n : nat) : Z * option Z :=
  match s with
  | None => (0, None)
  | Some s =>
      if (n =? 0)%nat then (-1, None)
      else
        let b := s.[0] in
        if b <? 0x80 then (if b =? 0 then 0 else 1, Some b)
        else if single then (1, Some (CODEUNIT b))
        else if u32 (b - SA) >? SB - SA then (-1, None)
        else
          let c := bittab.[b - SA] in
          let s := tail s in
          if (n <? 4)%nat && high (shl32 c (6 * Z.of_nat n - 6)) then (-1, None)
          else if OOB c (s.[0]) then (-1, None)
          else
            let c := continue c (s.[0]) in
            let s := tail s in
            if negb (high c) then (2, Some c)
            else if u32 (s.[0] - 0x80) >=? 0x40 then (-1, None)
            else
              let c := continue c (s.[0]) in
              let s := tail s in
              if negb (high c) then (3, Some c)
              else if u32 (s.[0] - 0x80) >=? 0x40 then (-1, None)
              else (4, Some (continue c (s.[0])))
  end.

(** ** wcrtomb: the result and the bytes written

    [wc] is a signed [wchar_t]; [s] says that the destination is not NULL. *)
Definition wcrtomb (single s : bool) (wc : Z) : Z * list Z :=
  if negb s then (1, [])
  else if u32 wc <? 0x80 then (1, [u8 wc])
  else if single then
    if negb (IS_CODEUNIT wc) then (ILSEQ, []) else (1, [u8 wc])
  else if u32 wc <? 0x800 then
    (2, [u8 (0xc0 .| (wc ≫ 6)); u8 (0x80 .| (wc .& 0x3f))])
  else if (u32 wc <? 0xd800) || (u32 (u32 wc - 0xe000) <? 0x2000) then
    (3, [u8 (0xe0 .| (wc ≫ 12)); u8 (0x80 .| ((wc ≫ 6) .& 0x3f)); u8 (0x80 .| (wc .& 0x3f))])
  else if u32 (u32 wc - 0x10000) <? 0x100000 then
    (4, [u8 (0xf0 .| (wc ≫ 18)); u8 (0x80 .| ((wc ≫ 12) .& 0x3f));
         u8 (0x80 .| ((wc ≫ 6) .& 0x3f)); u8 (0x80 .| (wc .& 0x3f))])
  else (ILSEQ, []).

(** ** The small wrappers *)
Definition mbrlen (single : bool) (s : option (list Z)) (n : nat) (c : Z) : Z * Z :=
  let r := mbrtowc single s n c in (ret r, st r).
Definition mblen (single : bool) (s : option (list Z)) (n : nat) : Z := (mbtowc single s n).1.
Definition mbsinit (st : option Z) : bool :=
  match st with None => true | Some c => c =? 0 end.
Definition WEOF : Z := 0xffffffff.
Definition btowc (single : bool) (c : Z) : Z :=
  let b := u8 c in
  if b <? 128 then b else if single && negb (c =? -1) then u32 (CODEUNIT c) else WEOF.
Definition wctob (single : bool) (c : Z) : Z :=
  if c <? 128 then c else if single && IS_CODEUNIT c then u8 c else -1.

(** ** UTF-16: a state without the high bit is a pending low surrogate *)
Definition mbrtoc16 (single : bool) (s : option (list Z)) (n : nat) (pending : Z) : conv :=
  let '(s, n) := match s with None => ([0], 1%nat) | Some s => (s, n) end in
  if sgn 32 pending >? 0 then mkConv PENDING (Some pending) 0
  else
    let r := mbrtowc single (Some s) n pending in
    if ret r <=? 4 then
      match out r with
      | Some wc =>
          if wc >=? 0x10000 then mkConv (ret r) (Some (0xd7c0 + (wc ≫ 10))) ((wc .& 0x3ff) + 0xdc00)
          else mkConv (ret r) (Some wc) (st r)
      | None => r
      end
    else r.

(** The result, the bytes written, the state. *)
Definition c16rtomb (single s : bool) (c16 x : Z) : Z * list Z * Z :=
  if negb s then if negb (x =? 0) then (ILSEQ, [], 0) else (1, [], x)
  else if (x =? 0) && (u32 (c16 - 0xd800) <? 0x400) then (0, [], shl32 (c16 - 0xd7c0) 10)
  else if negb (x =? 0) then
    if u32 (c16 - 0xdc00) >=? 0x400 then (ILSEQ, [], 0)
    else let wc := sgn 32 (x + c16 - 0xdc00) in (wcrtomb single s wc, 0)
  else (wcrtomb single s c16, x).

Definition mbrtoc32 (single : bool) (s : option (list Z)) (n : nat) (c : Z) : conv :=
  match s with
  | None => mbrtowc single (Some [0]) 1 c
  | Some s => mbrtowc single (Some s) n c
  end.
Definition c32rtomb (single s : bool) (c32 : Z) : Z * list Z := wcrtomb single s (sgn 32 c32).

(** ** Well-formed UTF-8 *)

Module Unicode.
(** A code point that is not a surrogate. *)
Definition scalar (cp : Z) : bool :=
  (0 <=? cp) && (cp <=? 0x10ffff) && negb ((0xd800 <=? cp) && (cp <=? 0xdfff)).

Definition encode (cp : Z) : list Z :=
  if cp <? 0x80 then [cp]
  else if cp <? 0x800 then [0xc0 + cp / 64; 0x80 + cp mod 64]
  else if cp <? 0x10000 then [0xe0 + cp / 4096; 0x80 + cp / 64 mod 64; 0x80 + cp mod 64]
  else [0xf0 + cp / 262144; 0x80 + cp / 4096 mod 64; 0x80 + cp / 64 mod 64; 0x80 + cp mod 64].

(** Length and bits of a leading byte, and the range of the second byte
    (table 3-7 of the standard). *)
Definition lead (b : Z) : option (nat * Z) :=
  if (0xc2 <=? b) && (b <=? 0xdf) then Some (2%nat, b - 0xc0)
  else if (0xe0 <=? b) && (b <=? 0xef) then Some (3%nat, b - 0xe0)
  else if (0xf0 <=? b) && (b <=? 0xf4) then Some (4%nat, b - 0xf0)
  else None.
Definition second (b0 b1 : Z) : bool :=
  let lo := if b0 =? 0xe0 then 0xa0 else if b0 =? 0xf0 then 0x90 else 0x80 in
  let hi := if b0 =? 0xed then 0x9f else if b0 =? 0xf4 then 0x8f else 0xbf in
  (lo <=? b1) && (b1 <=? hi).
Definition trail (b : Z) : bool := (0x80 <=? b) && (b <=? 0xbf).

(** Decoding the first character of a byte string. *)
Inductive outcome := Done (len : nat) (cp : Z) | Partial | Bad.
Fixpoint trails (len k : nat) (acc : Z) (l : list Z) : outcome :=
  match k with
  | O => Done len acc
  | S k => match l with
           | [] => Partial
           | b :: l => if trail b then trails len k (64 * acc + (b - 0x80)) l else Bad
           end
  end.
Definition decode (l : list Z) : outcome :=
  match l with
  | [] => Partial
  | b0 :: l =>
      if b0 <? 0x80 then Done 1 b0
      else match lead b0 with
           | None => Bad
           | Some (len, v) =>
               match l with
               | [] => Partial
               | b1 :: l =>
                   if second b0 b1 then trails len (len - 2) (64 * v + (b1 - 0x80)) l else Bad
               end
           end
  end.
End Unicode.
Import Unicode.

(** ** The state word

    A state that still expects [k] bytes holds the bits read so far under a
    tag: 0xC3000000 for two bytes, 0xC0000000 for one. *)

Definition tag (k : nat) : Z :=
  match k with O => 0 | S O => 0xC0000000 | _ => 0xC3000000 end.
Definition mid (k : nat) (c v : Z) : Prop :=
  (k <= 2)%nat /\ 0 <= v < 2 ^ (22 - 6 * Z.of_nat k) /\ c = tag k + v.

Lemma high_spec c : 0 <= c < 2 ^ 32 -> high c = (2 ^ 31 <=? c).
Proof.
  intros Hc. unfold high. change 0x80000000 with (1 ≪ 31).
  assert (E : c .& (1 ≪ 31) = ((c ≫ 31) .& 1) ≪ 31).
  { apply Z.bits_inj'. intros i Hi. rewrite Z.land_spec, !shl_bit, Z.land_spec, shr_bit by lia.
    destruct (Z.leb_spec 31 i); [|by rewrite andb_false_r].
    destruct (Z.leb_spec 0 (i - 31)); [|lia]. replace (i - 31 + 31) with i by lia. done. }
  rewrite E, Z.shiftr_div_pow2 by lia. destruct (Z.leb_spec (2 ^ 31) c).
  - replace (c / 2 ^ 31) with 1; [done|]. apply (Z.div_unique _ _ _ (c - 2 ^ 31)); lia.
  - rewrite Z.div_small by lia. done.
Qed.

Lemma mid_high k c v : mid k c v -> high c = negb (k =? 0)%nat.
Proof.
  intros (Hk & Hv & ->). destruct k as [|[|[|]]]; [..|lia]; cbn [tag];
    change (2 ^ _) with (2 ^ 22) in Hv || idtac; cbn in Hv; rewrite high_spec by lia;
    match goal with |- (?a <=? ?b) = _ => destruct (Z.leb_spec a b) end; cbn; done || lia.
Qed.

Lemma trail_spec b : byte_ok b -> trail b = negb (u32 (b - 0x80) >=? 0x40).
Proof.
  intros [H1 H2]. change (2 ^ 8) with 256 in H2. unfold trail, u32, wrap.
  destruct (Z.lt_ge_cases b 0x80).
  - replace ((b - 128) mod 2 ^ 32) with (b - 128 + 2 ^ 32) by (apply (Z.mod_unique _ _ (-1)); lia).
    destruct (Z.leb_spec 128 b); [lia|]. destruct (Z.geb_spec (b - 128 + 2 ^ 32) 64); done || lia.
  - rewrite Z.mod_small by lia. destruct (Z.leb_spec 128 b); [|lia]. cbn [andb].
    destruct (Z.leb_spec b 191), (Z.geb_spec (b - 128) 64); cbn; done || lia.
Qed.

(** Shifting a byte into a tagged state. *)
Lemma continue_mid k c v b : mid (S k) c v -> byte_ok b -> trail b = true ->
  mid k (continue c b) (64 * v + (b - 0x80)).
Proof.
  intros (Hk & Hv & ->) Hb Ht. unfold trail in Ht. apply andb_true_iff in Ht.
  assert (Hb' : 0 <= b - 0x80 < 64) by lia.
  assert (Hp : 2 ^ (22 - 6 * Z.of_nat k) = 64 * 2 ^ (22 - 6 * Z.of_nat (S k))).
  { replace (22 - 6 * Z.of_nat k) with (6 + (22 - 6 * Z.of_nat (S k))) by lia.
    rewrite Z.pow_add_r by lia. done. }
  split; [lia|]. split; [lia|]. unfold continue, u32.
  rewrite (wrap_small 32) by (unfold word; lia).
  assert (Hs : shl32 (tag (S k) + v) 6 = (tag k / 64 + v) ≪ 6).
  { unfold shl32, u32, wrap. rewrite !Z.shiftl_mul_pow2 by lia. change (2 ^ 6) with 64.
    destruct k as [|[|]]; [..|lia]; cbn in Hv; cbn [tag].
    - replace ((3221225472 + v) * 64) with (v * 64 + 48 * 2 ^ 32) by lia.
      rewrite Z.mod_add, Z.mod_small by lia. done.
    - replace ((3271557120 + v) * 64) with (3221225472 + v * 64 + 48 * 2 ^ 32) by lia.
      rewrite Z.mod_add, Z.mod_small by lia. change (3221225472 / 64) with 50331648. lia. }
  rewrite Hs, Z.lor_comm, <- lor_add_disjoint by (unfold word; lia). change (2 ^ 6) with 64.
  destruct k as [|[|]]; [..|lia]; cbn [tag]; [change (0 / 64) with 0|change (3221225472 / 64) with 50331648]; lia.
Qed.

Lemma OOB_trail_256 : forallb (fun b =>
  Bool.eqb (negb (((((b ≫ 3) - 0x10) .| ((b ≫ 3) + -16)) .& Z.lnot 7) =? 0)) (negb (trail b)))
  (seqZ 0 256) = true.
Proof. vm_compute. reflexivity. Qed.

Lemma forallb_byte (P : Z -> bool) : forallb P (seqZ 0 256) = true -> forall b, byte_ok b -> P b = true.
Proof.
  intros H b [H1 H2]. rewrite forallb_forall in H. apply H.
  apply list_elem_of_In, elem_of_seqZ. change (2 ^ 8) with 256 in H2. lia.
Qed.

Lemma OOB_mid k c v b : mid (S k) c v -> byte_ok b -> OOB c b = negb (trail b).
Proof.
  intros (Hk & Hv & ->) Hb. unfold OOB.
  replace (sgn 32 (tag (S k) + v) ≫ 26) with (-16).
  { apply Bool.eqb_prop. exact (forallb_byte _ OOB_trail_256 b Hb). }
  rewrite Z.shiftr_div_pow2 by lia. unfold sgn, wrap.
  destruct k as [|[|]]; [..|lia]; cbn in Hv; cbn [tag]; rewrite Z.mod_small by lia;
    match goal with |- context [?a <? ?b] => destruct (Z.ltb_spec a b); [lia|] end.
  - apply (Z.div_unique _ _ _ v); lia.
  - apply (Z.div_unique _ _ _ (v + 50331648)); lia.
Qed.

(** The table: on every leading byte and every second byte. *)
Definition lead_check (b0 : Z) : bool :=
  match lead b0 with
  | None => implb (0x80 <=? b0) (u32 (b0 - SA) >? SB - SA)
  | Some (len, v) =>
      let c := bittab.[b0 - SA] in
      negb (u32 (b0 - SA) >? SB - SA) && negb (c =? 0) && (2 <=? len)%nat && (len <=? 4)%nat &&
      forallb (fun b1 => Bool.eqb (OOB c b1) (negb (second b0 b1)) &&
        implb (second b0 b1) ((continue c b1 =? tag (len - 2) + (64 * v + (b1 - 0x80))) &&
          (0 <=? 64 * v + (b1 - 0x80)) &&
          (64 * v + (b1 - 0x80) <? 2 ^ (22 - 6 * Z.of_nat (len - 2))) && trail b1))
        (seqZ 0 256)
  end.
Lemma lead_checks : forallb lead_check (seqZ 0 256) = true.
Proof. vm_compute. reflexivity. Qed.

Lemma lead_none b0 : byte_ok b0 -> 0x80 <= b0 -> lead b0 = None -> (u32 (b0 - SA) >? SB - SA) = true.
Proof.
  intros Hb H0 Hl. pose proof (forallb_byte _ lead_checks b0 Hb) as H. unfold lead_check in H.
  rewrite Hl in H. destruct (Z.leb_spec 0x80 b0); [exact H|lia].
Qed.

Lemma lead_some b0 len v : byte_ok b0 -> lead b0 = Some (len, v) ->
  (u32 (b0 - SA) >? SB - SA) = false /\ bittab.[b0 - SA] <> 0 /\ (2 <= len <= 4)%nat /\
  forall b1, byte_ok b1 -> OOB (bittab.[b0 - SA]) b1 = negb (second b0 b1) /\
    (second b0 b1 = true -> trail b1 = true /\
      mid (len - 2) (continue (bittab.[b0 - SA]) b1) (64 * v + (b1 - 0x80))).
Proof.
  intros Hb Hl. pose proof (forallb_byte _ lead_checks b0 Hb) as H. unfold lead_check in H.
  rewrite Hl in H. cbv zeta in H. rewrite !andb_true_iff in H.
  destruct H as [[[[H1 H2] H3] H4] H5]. apply negb_true_iff in H1, H2.
  apply Nat.leb_le in H3, H4. apply Z.eqb_neq in H2.
  split; [done|]. split; [done|]. split; [lia|]. intros b1 Hb1.
  pose proof (forallb_byte _ H5 b1 Hb1) as H6. cbv beta in H6. apply andb_true_iff in H6 as [H6 H7].
  apply Bool.eqb_prop in H6. split; [done|]. intros Hs. rewrite Hs in H7. cbn [implb] in H7.
  rewrite !andb_true_iff in H7. destruct H7 as [[[H7 H8] H9] H10].
  apply Z.eqb_eq in H7. apply Z.leb_le in H8. apply Z.ltb_lt in H9.
  split; [done|]. split; [lia|]. split; [split; [exact H8|exact H9]|exact H7].
Qed.

(** ** mbrtowc against the decoder *)

(** The state after the bytes [l] of an unfinished character. *)
Definition prefix_state (l : list Z) : Z :=
  match l with [] => 0 | b0 :: l => foldl continue (bittab.[b0 - SA]) l end.

Lemma mbr_loop_cons N n c b s : mbr_loop N (S n) c (b :: s) =
  if negb (high (continue c b)) then mkConv (N - Z.of_nat n) (Some (continue c b)) 0
  else if (0 <? n)%nat then
    if u32 (s.[0] - 0x80) >=? 0x40 then ilseq else mbr_loop N n (continue c b) s
  else mkConv INCOMPLETE None (continue c b).
Proof. done. Qed.

Lemma loop_trails N len k : forall c b v l rest,
  mid k (continue c b) v -> Forall byte_ok l ->
  mbr_loop N (S (length l)) c (b :: l ++ rest) =
    match trails len k v l with
    | Done _ cp => mkConv (N - Z.of_nat (length l - k)) (Some cp) 0
    | Partial => mkConv INCOMPLETE None (foldl continue c (b :: l))
    | Bad => ilseq
    end.
Proof.
  induction k as [|k IH]; intros c b v l rest Hm Hl; rewrite mbr_loop_cons;
    rewrite (mid_high _ _ _ Hm); cbn [Nat.eqb negb trails].
  - rewrite Nat.sub_0_r. destruct Hm as (_ & _ & ->). done.
  - destruct l as [|b' l]; [done|]. cbn [length Nat.ltb Nat.leb app].
    change ((b' :: l ++ rest).[0]) with b'. apply Forall_cons_1 in Hl as [Hb' Hl].
    pose proof (trail_spec b' Hb') as Ht. destruct (u32 (b' - 128) >=? 64); rewrite Ht; [done|].
    exact (IH _ _ _ _ _ (continue_mid k _ _ _ Hm Hb' Ht) Hl).
Qed.

(** A partial run of trailing bytes. *)
Lemma trails_partial len m : forall k c acc, mid k c acc -> Forall byte_ok m ->
  trails len k acc m = Partial ->
  exists k' acc', k = (length m + S k')%nat /\ mid (S k') (foldl continue c m) acc' /\
    forall l, trails len k acc (m ++ l) = trails len (S k') acc' l.
Proof.
  induction m as [|b m IH]; intros [|k] c acc Hm Hb Ht; try done.
  - exists k, acc. done.
  - cbn [trails app length foldl] in *. apply Forall_cons_1 in Hb as [Hb Hb'].
    destruct (trail b) eqn:Etr; [|done].
    destruct (IH _ _ _ (continue_mid k _ _ _ Hm Hb Etr) Hb' Ht) as (k' & acc' & -> & Hm' & Hl).
    exists k', acc'. done.
Qed.

Lemma trails_done len k : forall acc l len' cp,
  trails len k acc l = Done len' cp -> len' = len /\ (k <= length l)%nat.
Proof.
  induction k as [|k IH]; intros acc [|b l] len' cp H; cbn [trails] in H; try done.
  - injection H as -> ->. cbn. split; [done|lia].
  - injection H as -> ->. cbn. split; [done|lia].
  - destruct (trail b); [|done]. apply IH in H as [-> H]. cbn. split; [done|lia].
Qed.

Lemma lead_high b0 x : lead b0 = Some x -> (b0 <? 0x80) = false.
Proof. unfold lead. intros H. apply Z.ltb_ge. repeat case_match; (done || lia). Qed.

Lemma lead_cases b len v : lead b = Some (len, v) ->
  (len = 2%nat /\ v = b - 0xc0 /\ 0xc2 <= b <= 0xdf) \/
  (len = 3%nat /\ v = b - 0xe0 /\ 0xe0 <= b <= 0xef) \/
  (len = 4%nat /\ v = b - 0xf0 /\ 0xf0 <= b <= 0xf4).
Proof. unfold lead. intros H. repeat case_match; try done; injection H as <- <-; lia. Qed.

Lemma second_cases b0 b1 : second b0 b1 = true ->
  0x80 <= b1 <= 0xbf /\ (b0 = 0xe0 -> 0xa0 <= b1) /\ (b0 = 0xf0 -> 0x90 <= b1) /\
  (b0 = 0xed -> b1 <= 0x9f) /\ (b0 = 0xf4 -> b1 <= 0x8f).
Proof.
  unfold second. rewrite andb_true_iff, !Z.leb_le.
  destruct (Z.eqb_spec b0 0xe0), (Z.eqb_spec b0 0xf0), (Z.eqb_spec b0 0xed), (Z.eqb_spec b0 0xf4); lia.
Qed.

(** What mbrtowc makes of an outcome, [skip] bytes having been consumed. *)
Definition conv_of (skip : nat) (l : list Z) (o : outcome) : conv :=
  match o with
  | Done len cp => mkConv (if cp =? 0 then 0 else Z.of_nat (len - skip)) (Some cp) 0
  | Partial => mkConv INCOMPLETE None (prefix_state l)
  | Bad => ilseq
  end.

(** Decoded characters are scalar values and re-encode to the bytes read. *)
Lemma decode_done l len cp : Forall byte_ok l -> decode l = Done len cp ->
  scalar cp = true /\ encode cp = take len l.
Proof.
  intros Hl. destruct l as [|b0 l]; [done|]. cbn [decode].
  apply Forall_cons_1 in Hl as [Hb0 Hl]. destruct Hb0 as [Hb0 _].
  destruct (Z.ltb_spec b0 0x80) as [H0|H0].
  { intros [= <- <-]. unfold scalar, encode. replace (b0 <? 128) with true by lia.
    split; [lia|]. cbn [take]. by rewrite take_0. }
  destruct (lead b0) as [[k v]|] eqn:Elead; [|done]. apply lead_cases in Elead.
  destruct l as [|b1 l]; [done|]. destruct (second b0 b1) eqn:Es; [|done].
  apply second_cases in Es. destruct Elead as [(-> & -> & Hr)|[(-> & -> & Hr)|(-> & -> & Hr)]];
    cbn [Nat.sub trails].
  all: repeat match goal with |- context [match ?l with [] => Partial | _ => _ end] =>
      destruct l as [|? l]; [done|]; let H := fresh "Ht" in destruct (trail _) eqn:H; [|done];
      unfold trail in H; apply andb_true_iff in H; rewrite !Z.leb_le in H end.
  all: intros [= <- <-]; cbn [take]; rewrite ?take_0; unfold scalar, encode.
  all: repeat match goal with |- context [if ?x <? ?y then _ else _] =>
      destruct (Z.ltb_spec x y); try lia end.
  all: split; [lia|]; repeat f_equal; Z.div_mod_to_equations; lia.
Qed.

Lemma decode_zero b0 l len cp : Forall byte_ok (b0 :: l) -> (b0 <? 0x80) = false ->
  decode (b0 :: l) = Done len cp -> (cp =? 0) = false.
Proof.
  intros Hl H0 H. destruct (decode_done _ _ _ Hl H) as [_ He]. apply Z.eqb_neq. intros ->.
  destruct len; cbn in He; [done|]. injection He as <-. done.
Qed.

(** From the initial state, on the bytes [l] of a buffer [l ++ rest]. *)
Lemma mbrtowc_first l rest : Forall byte_ok l ->
  mbrtowc false (Some (l ++ rest)) (length l) 0 = conv_of 0 l (decode l).
Proof.
  intros Hl. destruct l as [|b0 l]; [done|]. pose proof (decode_zero b0 l) as Hz.
  unfold mbrtowc. cbn [length Nat.eqb app tail]. change ((b0 :: l ++ rest).[0]) with b0.
  change (0 =? 0) with true. cbv iota zeta. cbn [decode] in *.
  destruct (b0 <? 0x80) eqn:E0; [done|]. apply Forall_cons_1 in Hl as Hl'. destruct Hl' as [Hb Hl'].
  destruct (lead b0) as [[len v]|] eqn:Elead; cbn [Nat.sub]; rewrite ?Nat.sub_0_r.
  2:{ by rewrite (lead_none b0 Hb ltac:(lia) Elead). }
  destruct (lead_some b0 len v Hb Elead) as (-> & _ & Hlen & Hsec).
  destruct l as [|b1 l]; [done|]. unfold mbr_cont. cbn [length Nat.ltb Nat.leb app].
  change ((b1 :: l ++ rest).[0]) with b1. apply Forall_cons_1 in Hl' as [Hb1 Hl'].
  destruct (Hsec b1 Hb1) as [-> Hmid]. destruct (second b0 b1) eqn:Es; cbn [negb]; [|done].
  destruct (Hmid eq_refl) as [_ Hm]. rewrite (loop_trails _ len _ _ _ _ _ _ Hm Hl').
  destruct (trails _ _ _ l) as [len' cp| |] eqn:Et; [|done|done]. cbn [conv_of].
  rewrite (Hz len' cp Hl eq_refl eq_refl). apply trails_done in Et as [-> Hk].
  rewrite Nat.sub_0_r. f_equal. lia.
Qed.

(** After the bytes [l1] of an unfinished character. *)
Lemma mbrtowc_next l1 l2 rest : Forall byte_ok (l1 ++ l2) -> decode l1 = Partial ->
  mbrtowc false (Some (l2 ++ rest)) (length l2) (prefix_state l1) =
    conv_of (length l1) (l1 ++ l2) (decode (l1 ++ l2)).
Proof.
  destruct l1 as [|b0 l1]; [intros; by apply mbrtowc_first|]. intros Hl Hp.
  pose proof (decode_zero b0 (l1 ++ l2)) as Hz. change ((b0 :: l1) ++ l2) with (b0 :: (l1 ++ l2)) in *.
  cbn [decode] in *. destruct (b0 <? 0x80) eqn:E0; [done|].
  destruct (lead b0) as [[len v]|] eqn:Elead; [|done].
  apply Forall_cons_1 in Hl as Hl'. destruct Hl' as [Hb Hl'].
  destruct (lead_some b0 len v Hb Elead) as (_ & Hc0 & Hlen & Hsec).
  destruct l2 as [|b l2].
  { rewrite app_nil_r. destruct l1 as [|b1 l1]; [done|].
    destruct (second b0 b1); [|done]. by rewrite Hp. }
  apply Forall_app in Hl' as [Hl1 Hl2]. apply Forall_cons_1 in Hl2 as [Hbb Hl2].
  unfold mbrtowc. cbn [length Nat.eqb app]. destruct l1 as [|b1 l1].
  - cbn [prefix_state foldl app length]. replace (bittab.[b0 - SA] =? 0) with false by lia.
    unfold mbr_cont. cbn [Nat.ltb Nat.leb]. change ((b :: l2 ++ rest).[0]) with b.
    destruct (Hsec b Hbb) as [-> Hmid]. destruct (second b0 b) eqn:Es; cbn [negb]; [|done].
    destruct (Hmid eq_refl) as [_ Hm]. rewrite (loop_trails _ len _ _ _ _ _ _ Hm Hl2).
    destruct (trails _ _ _ l2) as [len' cp| |] eqn:Et; [|done|done]. cbn [conv_of].
    cbn [app] in Hz. rewrite Es, Et in Hz.
    rewrite (Hz len' cp Hl eq_refl eq_refl). apply trails_done in Et as [-> Hk]. f_equal. lia.
  - cbn [app] in *. apply Forall_cons_1 in Hl1 as [Hb1 Hl1].
    destruct (second b0 b1) eqn:Es; [|done]. destruct (Hsec b1 Hb1) as [_ Hmid].
    destruct (Hmid Es) as [_ Hm].
    destruct (trails_partial len l1 _ _ _ Hm Hl1 Hp) as (k' & acc' & Hk & Hm' & Happ).
    rewrite Happ in *. cbn [prefix_state foldl].
    set (c := foldl continue (continue (bittab.[b0 - SA]) b1) l1) in *.
    assert (Hps : prefix_state (b0 :: b1 :: l1 ++ b :: l2) = foldl continue c (b :: l2))
      by (unfold c; cbn [prefix_state foldl]; by rewrite foldl_app).
    replace (c =? 0) with false
      by (destruct Hm' as (? & ? & ->); destruct k' as [|[|]]; cbn [tag]; lia).
    unfold mbr_cont. cbn [Nat.ltb Nat.leb]. change ((b :: l2 ++ rest).[0]) with b.
    rewrite (OOB_mid _ _ _ _ Hm' Hbb). cbn [trails] in *.
    destruct (trail b) eqn:Etr; cbn [negb]; [|done].
    rewrite (loop_trails _ len _ _ _ _ _ _ (continue_mid _ _ _ _ Hm' Hbb Etr) Hl2).
    destruct (trails _ k' _ l2) as [len' cp| |] eqn:Et; cbn [conv_of]; [|by rewrite Hps|done].
    rewrite (Hz len' cp Hl eq_refl eq_refl). apply trails_done in Et as [-> Hk'].
    f_equal. cbn [length]. lia.
Qed.

(** ** wcrtomb against the encoder *)

Lemma trail_byte x : u8 (0x80 .| (x .& 0x3f)) = 0x80 + x mod 64.
Proof.
  change 0x3f with (Z.ones 6). rewrite Z.land_ones by lia. change (2 ^ 6) with 64.
  pose proof (Z.mod_pos_bound x 64). rewrite (lor_tag 0x80 _ 6) by (reflexivity || lia).
  unfold u8. apply wrap_small. unfold word. lia.
Qed.

Lemma lead_byte t n x : 0 <= n -> t mod 2 ^ n = 0 -> 0 <= x < 2 ^ n -> 0 <= t -> t + 2 ^ n <= 256 ->
  u8 (t .| x) = t + x.
Proof.
  intros Hn Ht Hx H0 H1. rewrite (lor_tag _ _ n) by done. unfold u8. apply wrap_small.
  unfold word. change (2 ^ 8) with 256. lia.
Qed.

Lemma u32_nonneg x : 0 <= x < 2 ^ 32 -> u32 x = x.
Proof. intros. by apply wrap_small. Qed.
Lemma u32_neg x : - 2 ^ 32 <= x < 0 -> u32 x = x + 2 ^ 32.
Proof. intros. symmetry. apply (Z.mod_unique_pos _ _ (-1)); lia. Qed.

Ltac u32_cases x :=
  destruct (Z.lt_ge_cases x 0); [rewrite (u32_neg x) by lia|rewrite (u32_nonneg x) by lia].
Ltac leb_cases := repeat match goal with
  | |- context [?x <? ?y] => destruct (Z.ltb_spec x y); try lia
  | |- context [?x <=? ?y] => destruct (Z.leb_spec x y); try lia end.

Lemma wcrtomb_encode wc : - 2 ^ 31 <= wc < 2 ^ 31 -> wcrtomb false true wc =
  if scalar wc then (Z.of_nat (length (encode wc)), encode wc) else (ILSEQ, []).
Proof.
  intros Hwc. unfold wcrtomb, scalar, encode. rewrite !Z.shiftr_div_pow2 by lia.
  rewrite !trail_byte. change (2 ^ 6) with 64; change (2 ^ 12) with 4096; change (2 ^ 18) with 262144.
  u32_cases wc; repeat match goal with |- context [u32 ?x] => u32_cases x end; try lia;
    leb_cases; cbn [andb orb negb length Z.of_nat Pos.of_succ_nat Pos.succ]; try done;
    repeat f_equal; try (by apply wrap_small; unfold word; lia).
  all: first [apply (lead_byte 192 5)|apply (lead_byte 224 4)|apply (lead_byte 240 3)]; try done; try lia.
  all: Z.div_mod_to_equations; lia.
Qed.

(** ** The encoder against the decoder *)
Lemma trail_ok x : trail (0x80 + x mod 64) = true.
Proof. pose proof (Z.mod_pos_bound x 64). unfold trail. lia. Qed.

Lemma decode_encode cp rest : scalar cp = true ->
  decode (encode cp ++ rest) = Done (length (encode cp)) cp.
Proof.
  intros Hs. assert (Hr : 0 <= cp <= 0x10ffff /\ ~ (0xd800 <= cp <= 0xdfff)).
  { unfold scalar in Hs. rewrite !andb_true_iff, negb_true_iff, andb_false_iff in Hs. lia. }
  clear Hs. unfold encode.
  destruct (Z.ltb_spec cp 0x80); [cbn; by replace (cp <? 128) with true by lia|].
  destruct (Z.ltb_spec cp 0x800); [|destruct (Z.ltb_spec cp 0x10000)];
    cbn [app decode length]; unfold lead.
  all: match goal with |- context [?x <? 128] => destruct (Z.ltb_spec x 128) end;
    [Z.div_mod_to_equations; lia|].
  all: repeat match goal with |- context [(?x <=? ?y) && (?y <=? ?z)] =>
    first [ replace ((x <=? y) && (y <=? z)) with true by (Z.div_mod_to_equations; lia)
          | replace ((x <=? y) && (y <=? z)) with false by (Z.div_mod_to_equations; lia) ] end.
  all: match goal with |- context [second ?a ?b] =>
    replace (second a b) with true by (unfold second; repeat case_match; Z.div_mod_to_equations; lia)
  end.
  all: cbn [Nat.sub trails]; rewrite ?trail_ok; f_equal; Z.div_mod_to_equations; lia.
Qed.

Lemma encode_bytes cp : scalar cp = true -> Forall byte_ok (encode cp).
Proof.
  intros Hs. assert (Hr : 0 <= cp <= 0x10ffff).
  { unfold scalar in Hs. rewrite !andb_true_iff in Hs. lia. }
  unfold encode. repeat case_match;
    repeat (apply Forall_cons; split; [split; change (2 ^ 8) with 256; Z.div_mod_to_equations; lia|]);
    apply Forall_nil; done.
Qed.

(** ** The properties *)

(** C17: mbrtowc is restartable: wherever a string of bytes is cut inside its
    first character, the call on the first part returns INCOMPLETE (size_t -2)
    leaving a state, and the call on the second part with that state stores
    exactly the character the bytes of both parts decode to by table 3-7 of
    the Unicode standard, returns how many bytes of the second part it used
    (0 for NUL) and the initial state, or asks for more, or rejects the
    sequence with EILSEQ; bytes beyond the limit have no influence. *)
Theorem mbrtowc_restartable l1 l2 rest1 rest2 : Forall byte_ok (l1 ++ l2) -> decode l1 = Partial ->
  let first := mbrtowc false (Some (l1 ++ rest1)) (length l1) 0 in
  first = mkConv INCOMPLETE None (st first) /\
  mbrtowc false (Some (l2 ++ rest2)) (length l2) (st first) =
    match decode (l1 ++ l2) with
    | Done len cp => mkConv (if cp =? 0 then 0 else Z.of_nat (len - length l1)) (Some cp) 0
    | Partial => mkConv INCOMPLETE None
        (st (mbrtowc false (Some (l1 ++ l2)) (length (l1 ++ l2)) 0))
    | Bad => mkConv ILSEQ None 0
    end.
Proof.
  intros Hb Hp first. pose proof (proj1 (Forall_app _ _ _) Hb) as [Hb1 _].
  assert (Hf : first = mkConv INCOMPLETE None (prefix_state l1)).
  { unfold first. by rewrite mbrtowc_first, Hp. }
  rewrite Hf. cbn [st]. split; [done|]. rewrite mbrtowc_next by done.
  pose proof (mbrtowc_first (l1 ++ l2) [] Hb) as Hall. rewrite app_nil_r in Hall.
  destruct (decode (l1 ++ l2)); cbn [conv_of]; [done| |done]. by rewrite Hall.
Qed.

Lemma mbrtowc_restartable_witness :
  let first := mbrtowc false (Some [0xf0; 0x9f; 0x33]) 2 0 in
  mbrtowc false (Some [0x98; 0x80; 0x41]) 3 (st first) = mkConv 2 (Some 0x1f600) 0.
Proof.
  assert (H : Forall byte_ok ([0xf0; 0x9f] ++ [0x98; 0x80; 0x41]))
    by (repeat constructor; discriminate).
  exact (proj2 (mbrtowc_restartable [0xf0; 0x9f] [0x98; 0x80; 0x41] [0x33] [] H eq_refl)).
Defined.

(** Wcrtomb and mbrtowc are inverse on exactly the Unicode scalar values:
    wcrtomb encodes a wchar_t iff it is one (else EILSEQ, no byte written);
    mbrtowc reads the bytes it wrote back as that character, whatever follows,
    and consumes them all; and a byte string mbrtowc accepts holds a
    scalar value whose encoding by wcrtomb is exactly the bytes consumed, so
    no overlong form, surrogate or value above 0x10FFFF is ever decoded. *)
Theorem utf8_roundtrip wc l rest :
  - 2 ^ 31 <= wc < 2 ^ 31 -> Forall byte_ok l -> Forall byte_ok rest ->
  let w := wcrtomb false true wc in
  (w.1 = ILSEQ <-> scalar wc = false) /\
  (scalar wc = true ->
    w = (Z.of_nat (length (w.2)), w.2) /\
    mbrtowc false (Some (w.2 ++ rest)) (length (w.2 ++ rest)) 0 =
      mkConv (if wc =? 0 then 0 else w.1) (Some wc) 0) /\
  (forall cp, out (mbrtowc false (Some l) (length l) 0) = Some cp ->
    scalar cp = true /\
    exists k, wcrtomb false true cp = (Z.of_nat k, take k l) /\ (k <= length l)%nat /\
      ret (mbrtowc false (Some l) (length l) 0) = if cp =? 0 then 0 else Z.of_nat k).
Proof.
  intros Hwc Hl Hr w. unfold w. rewrite wcrtomb_encode by done. split; [|split].
  - destruct (scalar wc); cbn; [split; [|done]|done]. unfold encode; repeat case_match; done.
  - intros Hs. rewrite Hs. cbn [fst snd]. split; [done|].
    pose proof (mbrtowc_first (encode wc ++ rest) []) as H. rewrite app_nil_r in H.
    rewrite H, decode_encode by (done || by apply Forall_app; split; [apply encode_bytes|]).
    cbn [conv_of]. by rewrite Nat.sub_0_r.
  - intros cp. pose proof (mbrtowc_first l [] Hl) as H. rewrite app_nil_r in H. rewrite H.
    destruct (decode l) as [len cp'| |] eqn:E; cbn [conv_of out ret]; try done. intros [= ->].
    destruct (decode_done _ _ _ Hl E) as [Hs He]. split; [done|].
    exists (length (encode cp)). rewrite wcrtomb_encode, Hs.
    2:{ unfold scalar in Hs. rewrite !andb_true_iff, negb_true_iff, andb_false_iff in Hs. lia. }
    assert (Hk : length (encode cp) = len).
    { pose proof (decode_encode cp (drop len l) Hs) as H'. rewrite He, take_drop, E in H'.
      injection H' as ->. by rewrite He. }
    rewrite Nat.sub_0_r, Hk, He. repeat split. rewrite He in Hk. rewrite length_take in Hk. lia.
Qed.

Lemma utf8_roundtrip_witness :
  let w := wcrtomb false true 0x20ac in
  mbrtowc false (Some (w.2 ++ [0x41])) (length (w.2 ++ [0x41])) 0 = mkConv w.1 (Some 0x20ac) 0.
Proof.
  assert (Hr : - 2 ^ 31 <= 0x20ac < 2 ^ 31) by lia.
  assert (H : Forall byte_ok [0x41]) by (repeat constructor; discriminate).
  exact (proj2 (proj1 (proj2 (utf8_roundtrip 0x20ac [] [0x41] Hr (List.Forall_nil _) H)) eq_refl)).
Defined.

(** mbtowc reads no byte beyond the limit and decodes like table 3-7. *)
Definition shift_check (b0 : Z) : bool :=
  match lead b0 with
  | None => true
  | Some (len, _) => forallb (fun n => Bool.eqb (high (shl32 (bittab.[b0 - SA]) (6 * n - 6)))
                                         (n <? Z.of_nat len)) (seqZ 1 3)
  end.
Lemma shift_checks : forallb shift_check (seqZ 0 256) = true.
Proof. vm_compute. reflexivity. Qed.

Lemma high_shift b0 len v n : byte_ok b0 -> lead b0 = Some (len, v) -> (1 <= n < 4)%nat ->
  high (shl32 (bittab.[b0 - SA]) (6 * Z.of_nat n - 6)) = (n <? len)%nat.
Proof.
  intros Hb Hl Hn. pose proof (forallb_byte _ shift_checks b0 Hb) as H. unfold shift_check in H.
  rewrite Hl, forallb_forall in H.
  assert (Hin : In (Z.of_nat n) (seqZ 1 3)) by (apply list_elem_of_In, elem_of_seqZ; lia).
  specialize (H _ Hin). apply Bool.eqb_prop in H. rewrite H.
  destruct (Nat.ltb_spec n len), (Z.ltb_spec (Z.of_nat n) (Z.of_nat len)); done || lia.
Qed.

Lemma mbtowc_first l rest : Forall byte_ok l ->
  mbtowc false (Some (l ++ rest)) (length l) =
    match decode l with
    | Done len cp => (if cp =? 0 then 0 else Z.of_nat len, Some cp)
    | _ => (-1, None)
    end.
Proof.
  intros Hl. destruct l as [|b0 l]; [done|]. pose proof (decode_zero b0 l) as Hz.
  unfold mbtowc. change (length (b0 :: l) =? 0)%nat with false. cbv iota.
  change (((b0 :: l) ++ rest).[0]) with b0. change (tail ((b0 :: l) ++ rest)) with (l ++ rest).
  cbn [decode] in *. destruct (b0 <? 0x80) eqn:E0; [done|].
  apply Forall_cons_1 in Hl as Hl'. destruct Hl' as [Hb Hl'].
  destruct (lead b0) as [[len v]|] eqn:Elead.
  2:{ rewrite (lead_none b0 Hb ltac:(lia) Elead). done. }
  destruct (lead_some b0 len v Hb Elead) as (-> & _ & Hlen & Hsec). cbv iota zeta.
  assert (Hshort : (length (b0 :: l) <? 4)%nat &&
      high (shl32 (bittab.[b0 - SA]) (6 * Z.of_nat (length (b0 :: l)) - 6)) =
      (length (b0 :: l) <? len)%nat).
  { destruct (Nat.ltb_spec (length (b0 :: l)) 4); cbn [andb].
    - apply (high_shift b0 len v); [done..|]. cbn [length] in *. lia.
    - symmetry. apply Nat.ltb_ge. lia. }
  rewrite Hshort. clear Hshort. destruct (Nat.ltb_spec (length (b0 :: l)) len) as [Hn|Hn].
  { destruct l as [|b1 l]; [done|]. destruct (second b0 b1); [|done].
    destruct (trails len _ _ l) eqn:Et; [|done|done]. apply trails_done in Et as [_ Hk].
    cbn [length] in Hn. lia. }
  destruct l as [|b1 l]; [cbn [length] in Hn; lia|]. change (((b1 :: l) ++ rest).[0]) with b1.
  apply Forall_cons_1 in Hl' as [Hb1 Hl']. destruct (Hsec b1 Hb1) as [-> Hmid].
  destruct (second b0 b1) eqn:Es; cbn [negb]; [|done]. destruct (Hmid eq_refl) as [_ Hm].
  rewrite (mid_high _ _ _ Hm). change (tail ((b1 :: l) ++ rest)) with (l ++ rest).
  destruct (Nat.eqb_spec (len - 2) 0) as [E2|E2]; cbn [negb].
  { rewrite E2 in *. cbn [trails] in *. rewrite (Hz _ _ Hl eq_refl eq_refl).
    destruct Hm as (_ & _ & ->). replace len with 2%nat by lia. done. }
  destruct l as [|b2 l]; [cbn [length] in Hn; lia|]. change (((b2 :: l) ++ rest).[0]) with b2.
  apply Forall_cons_1 in Hl' as [Hb2 Hl']. pose proof (trail_spec b2 Hb2) as Ht2.
  destruct (len - 2)%nat as [|k] eqn:Ek; [done|]. cbn [trails] in *.
  destruct (u32 (b2 - 128) >=? 64); rewrite Ht2 in *; cbn [negb] in *; [done|].
  apply continue_mid with (b := b2) in Hm; [|done|done].
  rewrite (mid_high _ _ _ Hm). change (tail ((b2 :: l) ++ rest)) with (l ++ rest).
  destruct k as [|k]; cbn [Nat.eqb negb trails] in *.
  { rewrite (Hz _ _ Hl eq_refl eq_refl). destruct Hm as (_ & _ & ->).
    replace len with 3%nat by lia. done. }
  destruct l as [|b3 l]; [cbn [length] in Hn; lia|]. change (((b3 :: l) ++ rest).[0]) with b3.
  apply Forall_cons_1 in Hl' as [Hb3 Hl']. pose proof (trail_spec b3 Hb3) as Ht3.
  destruct (u32 (b3 - 128) >=? 64); rewrite Ht3 in *; cbn [negb] in *; [done|].
  apply continue_mid with (b := b3) in Hm; [|done|done].
  replace k with 0%nat in * by lia. cbn [trails] in *. rewrite (Hz _ _ Hl eq_refl eq_refl).
  destruct Hm as (_ & _ & ->). replace len with 4%nat by lia. done.
Qed.

(** The non-restartable mbtowc agrees with mbrtowc from the initial state
    on every input and limit: the same result and character when mbrtowc
    converts one, and -1 with nothing stored when the sequence is invalid or
    incomplete; what lies beyond the limit is not looked at. *)
Theorem mbtowc_mbrtowc l rest1 rest2 : Forall byte_ok l ->
  let r := mbrtowc false (Some (l ++ rest1)) (length l) 0 in
  mbtowc false (Some (l ++ rest2)) (length l) =
    if ret r <=? 4 then (ret r, out r) else (-1, None).
Proof.
  intros Hl r. unfold r. rewrite mbrtowc_first, mbtowc_first by done.
  destruct (decode l) as [len cp| |] eqn:E; cbn [conv_of ret out]; [|done|done].
  rewrite Nat.sub_0_r. destruct (decode_done _ _ _ Hl E) as [Hs He].
  pose proof (decode_encode cp (drop len l) Hs) as Hk. rewrite He, take_drop, E in Hk.
  injection Hk as Hk. assert (length (encode cp) <= 4)%nat by (unfold encode; repeat case_match; cbn; lia).
  rewrite He in *. destruct (cp =? 0); [done|]. destruct (Z.leb_spec (Z.of_nat len) 4); [done|lia].
Qed.

Lemma mbtowc_mbrtowc_witness :
  mbtowc false (Some ([0xe2; 0x82; 0xac] ++ [0x41])) 3 = (3, Some 0x20ac).
Proof.
  assert (H : Forall byte_ok [0xe2; 0x82; 0xac]) by (repeat constructor; discriminate).
  exact (mbtowc_mbrtowc [0xe2; 0x82; 0xac] [] [0x41] H).
Defined.

(** The UTF-16 code units of a scalar value. *)
Definition units (cp : Z) : list Z :=
  if cp <? 0x10000 then [cp]
  else [0xd800 + (cp - 0x10000) / 1024; 0xdc00 + (cp - 0x10000) mod 1024].

Lemma pair_halves cp : 0x10000 <= cp <= 0x10ffff ->
  0xd7c0 + (cp ≫ 10) = 0xd800 + (cp - 0x10000) / 1024 /\
  (cp .& 0x3ff) + 0xdc00 = 0xdc00 + (cp - 0x10000) mod 1024.
Proof.
  intros H. rewrite Z.shiftr_div_pow2 by lia. change 0x3ff with (Z.ones 10).
  rewrite Z.land_ones by lia. change (2 ^ 10) with 1024. Z.div_mod_to_equations; lia.
Qed.

Lemma scalar_range cp : scalar cp = true -> 0 <= cp <= 0x10ffff /\ ~ (0xd800 <= cp <= 0xdfff).
Proof. unfold scalar. rewrite !andb_true_iff, negb_true_iff, andb_false_iff. lia. Qed.

Lemma mbrtoc16_encode cp rest : scalar cp = true -> Forall byte_ok rest ->
  let s := encode cp ++ rest in
  let len := if cp =? 0 then 0 else Z.of_nat (length (encode cp)) in
  mbrtoc16 false (Some s) (length s) 0 =
    if cp >=? 0x10000 then mkConv len (Some (0xd7c0 + (cp ≫ 10))) ((cp .& 0x3ff) + 0xdc00)
    else mkConv len (Some cp) 0.
Proof.
  intros Hs Hr s len.
  assert (Hread : mbrtowc false (Some s) (length s) 0 = mkConv len (Some cp) 0).
  { pose proof (mbrtowc_first s []) as H. rewrite app_nil_r in H. unfold s in *.
    rewrite H, decode_encode by (done || by apply Forall_app; split; [apply encode_bytes|]).
    cbn [conv_of]. by rewrite Nat.sub_0_r. }
  assert (Hlen : len <= 4) by (unfold len, encode; repeat case_match; cbn; lia).
  unfold mbrtoc16. change (sgn 32 0 >? 0) with false. cbv iota zeta. rewrite Hread.
  cbn [ret out st]. destruct (Z.leb_spec len 4); [done|lia].
Qed.

(** A pending low surrogate is delivered, whatever the input. *)
Lemma mbrtoc16_pending s n lo : 0 < lo < 2 ^ 31 -> mbrtoc16 false (Some s) n lo = mkConv PENDING (Some lo) 0.
Proof.
  intros H. unfold mbrtoc16, sgn. rewrite wrap_small by (unfold word; lia).
  change (2 ^ (32 - 1)) with (2 ^ 31). destruct (Z.ltb_spec lo (2 ^ 31)); [|lia].
  destruct (Z.gtb_spec lo 0); [done|lia].
Qed.

Lemma c16rtomb_high q : 0 <= q < 1024 -> c16rtomb false true (0xd800 + q) 0 = (0, [], (q + 64) * 1024).
Proof.
  intros Hq. unfold c16rtomb. change (0 =? 0) with true. cbn [andb negb].
  rewrite (u32_nonneg (0xd800 + q - 0xd800)) by lia.
  destruct (Z.ltb_spec (0xd800 + q - 0xd800) 0x400); [|lia].
  unfold shl32. rewrite u32_nonneg; rewrite Z.shiftl_mul_pow2 by lia; change (2 ^ 10) with 1024.
  - f_equal. lia.
  - lia.
Qed.

Lemma c16rtomb_low q r : 0 <= q < 1024 -> 0 <= r < 1024 ->
  c16rtomb false true (0xdc00 + r) ((q + 64) * 1024) = (wcrtomb false true (0x10000 + 1024 * q + r), 0).
Proof.
  intros Hq Hr. unfold c16rtomb. replace ((q + 64) * 1024 =? 0) with false by lia. cbn [andb negb].
  rewrite u32_nonneg by lia. destruct (Z.geb_spec (0xdc00 + r - 0xdc00) 0x400); [lia|].
  unfold sgn. rewrite wrap_small by (unfold word; lia). change (2 ^ (32 - 1)) with (2 ^ 31).
  match goal with |- context [?a <? ?b] => destruct (Z.ltb_spec a b); [|lia] end.
  repeat f_equal. lia.
Qed.

Lemma c16rtomb_unpaired u x : word 16 u -> ~ (0xdc00 <= u <= 0xdfff) -> x <> 0 ->
  c16rtomb false true u x = (ILSEQ, [], 0).
Proof.
  intros [Hu1 Hu2] Hu Hx. change (2 ^ 16) with 65536 in Hu2. unfold c16rtomb.
  replace (x =? 0) with false by lia. cbn [andb negb]. u32_cases (u - 0xdc00);
    match goal with |- context [?a >=? ?b] => destruct (Z.geb_spec a b); [done|lia] end.
Qed.

(** Mbrtoc16 and c16rtomb convert between UTF-8 and UTF-16 without loss:
    reading the encoding of any scalar value yields its one code unit, or its
    high surrogate and then, with result -3 and no byte consumed, the low
    surrogate kept in the state; writing these units back (nothing is written
    for the high surrogate, which goes into the state) produces the same bytes;
    a high surrogate followed by anything but a low one is EILSEQ. *)
Theorem utf16_roundtrip cp rest : scalar cp = true -> Forall byte_ok rest ->
  let s := encode cp ++ rest in
  let len := Z.of_nat (length (encode cp)) in
  match units cp with
  | [u] =>
      mbrtoc16 false (Some s) (length s) 0 = mkConv (if cp =? 0 then 0 else len) (Some u) 0 /\
      c16rtomb false true u 0 = (len, encode cp, 0)
  | [hi; lo] =>
      mbrtoc16 false (Some s) (length s) 0 = mkConv len (Some hi) lo /\
      (forall s' n, mbrtoc16 false (Some s') n lo = mkConv PENDING (Some lo) 0) /\
      exists x, c16rtomb false true hi 0 = (0, [], x) /\ c16rtomb false true lo x = (len, encode cp, 0) /\
        (forall u, word 16 u -> ~ (0xdc00 <= u <= 0xdfff) -> c16rtomb false true u x = (ILSEQ, [], 0))
  | _ => False
  end.
Proof.
  intros Hs Hr s len. destruct (scalar_range cp Hs) as [Hcp Hns].
  assert (Hw : wcrtomb false true cp = (len, encode cp)) by (by rewrite wcrtomb_encode, Hs by lia).
  unfold s. rewrite mbrtoc16_encode by done. unfold units. fold len.
  destruct (Z.ltb_spec cp 0x10000) as [Hb|Hb].
  - destruct (Z.geb_spec cp 0x10000); [lia|]. split; [done|]. unfold c16rtomb.
    assert (Hd : (u32 (cp - 0xd800) <? 0x400) = false).
    { u32_cases (cp - 0xd800); apply Z.ltb_ge; lia. }
    rewrite Hd, Hw. done.
  - destruct (Z.geb_spec cp 0x10000); [|lia]. destruct (pair_halves cp ltac:(lia)) as [Eh El].
    rewrite Eh, El. set (q := (cp - 0x10000) / 1024). set (r := (cp - 0x10000) mod 1024).
    assert (Hq : 0 <= q < 1024 /\ 0 <= r < 1024 /\ cp = 0x10000 + 1024 * q + r).
    { subst q r. Z.div_mod_to_equations; lia. }
    replace (cp =? 0) with false by lia. split; [done|].
    split; [intros; apply mbrtoc16_pending; lia|].
    exists ((q + 64) * 1024). rewrite c16rtomb_high, c16rtomb_low by lia. split; [done|].
    split; [|intros; apply c16rtomb_unpaired; (done || lia)].
    replace (0x10000 + 1024 * q + r) with cp by lia. by rewrite Hw.
Qed.

Lemma utf16_roundtrip_witness :
  exists x, c16rtomb false true 0xd83d 0 = (0, [], x) /\ c16rtomb false true 0xde00 x = (4, encode 0x1f600, 0) /\
    (forall u, word 16 u -> ~ (0xdc00 <= u <= 0xdfff) -> c16rtomb false true u x = (ILSEQ, [], 0)).
Proof. exact (proj2 (proj2 (utf16_roundtrip 0x1f600 [] eq_refl (List.Forall_nil _)))). Defined.
