(* ===== verification/AtExit.v ===== *)
(** * AtExit: the exit handlers of exit/atexit.c, exit/at_quick_exit.c, exit/exit.c.

    The functions that hold a lock from entry to return are one step each; the
    loop that runs the handlers is a step per locked stretch ([funcs_on_exit]),
    so that handlers and other threads may register between any two of them.
    Functions and their arguments are numbers; what a handler does is the
    sequence of steps that follows its call. *)

From S2P Require Import Prelude.

(** ** atexit.c *)

Definition COUNT : Z := 32.

(** [struct fl]; the list of them is the chain of [next] pointers. *)
Record fl := mkFl { f : list Z; a : list Z }.
Definition zero_fl : fl := mkFl (replicate 32 0) (replicate 32 0).

(** The static variables; [head] is [] for a null pointer. *)
Record atexit_state := mkAtexit { head : list fl; slot : Z; finished_atexit : bool }.
Definition atexit_init : atexit_state := mkAtexit [] 0 false.

(** What a locked stretch ends with. *)
Inductive outcome :=
  | Ret (r : Z)
  | Call (func arg : Z)
  | Done.

(** The loop of [__funcs_on_exit] up to the next call of a handler. *)
Fixpoint funcs_loop (head : list fl) (slot : Z) : atexit_state * outcome :=
  match head with
  | [] => (mkAtexit [] slot true, Done)
  | h :: next =>
      if slot >? 0 then
        let slot := slot - 1 in
        (mkAtexit (h :: next) slot false, Call ((f h).[slot]) ((a h).[slot]))
      else funcs_loop next COUNT
  end.
Definition funcs_on_exit (st : atexit_state) : atexit_state * outcome :=
  funcs_loop (head st) (slot st).

(** [mem]: whether calloc has memory. *)
Definition cxa_atexit (st : atexit_state) (func arg : Z) (mem : bool) : atexit_state * outcome :=
  if finished_atexit st then (st, Ret (-1))
  else
    let fls := match head st with [] => [zero_fl] | h => h end in
    let append fls slot :=
      match fls with
      | [] => (mkAtexit fls slot false, Ret 0)
      | h :: next =>
          (mkAtexit (mkFl (<[Z.to_nat slot := func]> (f h)) (<[Z.to_nat slot := arg]> (a h)) :: next)
             (slot + 1) false, Ret 0)
      end in
    if slot st =? COUNT then
      if negb mem then (mkAtexit fls (slot st) false, Ret (-1))
      else append (zero_fl :: fls) 0
    else append fls (slot st).

(** [atexit(func)] registers the wrapper [call] with the function as argument. *)
Definition atexit (call : Z) (st : atexit_state) (func : Z) (mem : bool) : atexit_state * outcome :=
  cxa_atexit st call func mem.

(** ** at_quick_exit.c *)
Record quick_state := mkQuick { funcs : list Z; count : Z }.
Definition quick_init : quick_state := mkQuick (replicate 32 0) 0.

Definition funcs_on_quick_exit (st : quick_state) : quick_state * outcome :=
  if count st >? 0 then
    (mkQuick (funcs st) (count st - 1), Call ((funcs st).[count st - 1]) 0)
  else (st, Done).
Definition at_quick_exit (st : quick_state) (func : Z) : quick_state * outcome :=
  if count st =? 32 then (st, Ret (-1))
  else (mkQuick (<[Z.to_nat (count st) := func]> (funcs st)) (count st + 1), Ret 0).

(** ** exit.c *)

(** The calls of [libc_exit_fini] on the finalizer array, then [_fini]. *)
Fixpoint fini_loop (n : nat) (fini_array : list Z) : list Z :=
  match n with
  | O => []
  | S n => fini_array.[Z.of_nat n] :: fini_loop n fini_array
  end.
Definition libc_exit_fini (fini_array : list Z) (fini : Z) : list Z :=
  fini_loop (length fini_array) fini_array ++ [fini].

(** The guard of [exit]: the lock afterwards and what the caller does. *)
Inductive entry := Crash | Pause | Proceed.
Definition exit_enter (exit_lock tid : Z) : Z * entry :=
  let prev := exit_lock in
  let exit_lock := if exit_lock =? 0 then tid else exit_lock in
  if prev =? tid then (exit_lock, Crash)
  else if negb (prev =? 0) then (exit_lock, Pause)
  else (exit_lock, Proceed).

(** ** Histories: registrations, by handlers or by other threads, between the
    stretches of the exiting thread *)
Inductive op :=
  | Register (func arg : Z) (mem : bool)
  | Next.

Definition step (st : atexit_state) (o : op) : atexit_state * outcome :=
  match o with
  | Register func arg mem => cxa_atexit st func arg mem
  | Next => funcs_on_exit st
  end.
Fixpoint trace (st : atexit_state) (ops : list op) : list outcome :=
  match ops with
  | [] => []
  | o :: ops => let '(st, r) := step st o in r :: trace st ops
  end.

Definition quick_step (st : quick_state) (o : op) : quick_state * outcome :=
  match o with
  | Register func _ _ => at_quick_exit st func
  | Next => funcs_on_quick_exit st
  end.
Fixpoint quick_trace (st : quick_state) (ops : list op) : list outcome :=
  match ops with
  | [] => []
  | o :: ops => let '(st, r) := quick_step st o in r :: quick_trace st ops
  end.

(** ** The specification: a stack and a flag *)
Record spec_state := mkSpec { stack : list (Z * Z); closed : bool }.

Inductive spec_step : spec_state -> op -> outcome -> spec_state -> Prop :=
  | spec_push s func arg mem : spec_step (mkSpec s false) (Register func arg mem) (Ret 0)
      (mkSpec ((func, arg) :: s) false)
  | spec_nomem s func arg : (32 <= length s)%nat ->
      spec_step (mkSpec s false) (Register func arg false) (Ret (-1)) (mkSpec s false)
  | spec_closed s func arg mem : spec_step (mkSpec s true) (Register func arg mem) (Ret (-1)) (mkSpec s true)
  | spec_pop func arg s : spec_step (mkSpec ((func, arg) :: s) false) Next (Call func arg) (mkSpec s false)
  | spec_done c : spec_step (mkSpec [] c) Next Done (mkSpec [] true).

Inductive spec_trace : spec_state -> list op -> list outcome -> Prop :=
  | spec_nil s : spec_trace s [] []
  | spec_cons s o r s' ops rs : spec_step s o r s' -> spec_trace s' ops rs ->
      spec_trace s (o :: ops) (r :: rs).

(** ** The representation of the stack *)
Definition entries (n : nat) (h : fl) : list (Z * Z) := reverse (zip (take n (f h)) (take n (a h))).
Definition contents (fls : list fl) (n : nat) : list (Z * Z) :=
  match fls with [] => [] | h :: next => entries n h ++ concat (map (entries 32) next) end.
Definition fl_ok (h : fl) : Prop := length (f h) = 32%nat /\ length (a h) = 32%nat.

Record rep (st : atexit_state) (s : spec_state) : Prop := mkRep {
  rep_blocks : Forall fl_ok (head st);
  rep_slot : 0 <= slot st <= 32;
  rep_stack : stack s = contents (head st) (Z.to_nat (slot st));
  rep_closed : closed s = finished_atexit st;
  rep_done : finished_atexit st = true -> head st = [];
  rep_start : head st = [] -> finished_atexit st = false -> slot st = 0
}.

(** ** Lemmas on blocks *)
Lemma zip_take {A B} n (k : list A) (l : list B) : zip (take n k) (take n l) = take n (zip k l).
Proof. revert k l. induction n as [|n IH]; intros [|x k] [|y l]; cbn; try done. by rewrite IH. Qed.

Lemma entries_pop h n : fl_ok h -> 0 <= n < 32 ->
  entries (Z.to_nat (n + 1)) h = ((f h).[n], (a h).[n]) :: entries (Z.to_nat n) h.
Proof.
  intros [Hf Ha] Hn. unfold entries. replace (Z.to_nat (n + 1)) with (S (Z.to_nat n)) by lia.
  assert (Hzip : zip (f h) (a h) !! Z.to_nat n = Some ((f h).[n], (a h).[n])).
  { apply lookup_zip_with_Some. exists (f h).[n], (a h).[n]. split; [done|].
    split; apply lookup_aget; lia. }
  rewrite !zip_take, (take_S_r _ _ _ Hzip), reverse_snoc. done.
Qed.

Lemma entries_push h n func arg : fl_ok h -> 0 <= n < 32 ->
  let h' := mkFl (<[Z.to_nat n := func]> (f h)) (<[Z.to_nat n := arg]> (a h)) in
  fl_ok h' /\ entries (Z.to_nat (n + 1)) h' = (func, arg) :: entries (Z.to_nat n) h.
Proof.
  intros [Hf Ha] Hn h'. assert (Hok : fl_ok h') by (split; cbn; by rewrite length_insert).
  split; [done|]. rewrite entries_pop by done. cbn [f a h'].
  rewrite !aget_insert by lia. f_equal.
  unfold entries. cbn [f a h']. by rewrite !take_insert_ge by lia.
Qed.

Lemma entries_length h : fl_ok h -> length (entries 32 h) = 32%nat.
Proof.
  intros [Hf Ha]. unfold entries. rewrite length_reverse, length_zip, !length_take. lia.
Qed.

Lemma zero_fl_ok : fl_ok zero_fl.
Proof. done. Qed.

(** ** Every step of the code is a step of the specification *)
Lemma rep_init : rep atexit_init (mkSpec [] false).
Proof. split; cbn; (done || lia || constructor). Qed.

(** Appending at [n] in the head block. *)
Lemma rep_append h next n s func arg : Forall fl_ok (h :: next) -> 0 <= n < 32 ->
  s = contents (h :: next) (Z.to_nat n) ->
  rep (mkAtexit (mkFl (<[Z.to_nat n := func]> (f h)) (<[Z.to_nat n := arg]> (a h)) :: next)
        (n + 1) false) (mkSpec ((func, arg) :: s) false).
Proof.
  intros Hok Hn ->. apply Forall_cons_1 in Hok as [Hh Hnext].
  destruct (entries_push h n func arg Hh Hn) as [Hok' He].
  split; cbn [head slot finished_atexit stack closed]; try done; try lia.
  - by apply Forall_cons.
  - cbn [contents]. rewrite He. done.
Qed.

Lemma register_refines st s func arg mem : rep st s ->
  exists s', spec_step s (Register func arg mem) (cxa_atexit st func arg mem).2 s' /\
    rep (cxa_atexit st func arg mem).1 s'.
Proof.
  destruct s as [s c]. intros Hr. pose proof Hr as [Hok Hslot Hs Hc Hd Hi]. cbn in Hs, Hc. subst c.
  unfold cxa_atexit. destruct (finished_atexit st) eqn:E.
  { exists (mkSpec s true). split; [constructor|exact Hr]. }
  destruct (head st) as [|h next] eqn:Eh.
  - rewrite (Hi eq_refl eq_refl) in *. cbn in Hs. subst s. change (0 =? COUNT) with false.
    cbv iota zeta. eexists. split; [constructor|].
    apply (rep_append zero_fl [] 0); [by repeat constructor|lia|done].
  - cbv zeta. destruct (Z.eqb_spec (slot st) COUNT) as [E32|E32]; unfold COUNT in *.
    + rewrite E32 in Hs. destruct mem; cbn [negb].
      * eexists. split; [constructor|]. apply (rep_append zero_fl (h :: next) 0); [|lia|].
        { apply Forall_cons. split; [apply zero_fl_ok|done]. }
        subst s. done.
      * exists (mkSpec s false). split.
        { apply spec_nomem. subst s. cbn [contents]. rewrite length_app.
          apply Forall_cons_1 in Hok as [Hh _]. change (Z.to_nat 32) with 32%nat.
          rewrite entries_length by done. lia. }
        split; cbn; rewrite ?E32; done || lia.
    + eexists. split; [constructor|]. apply rep_append; [done|lia|done].
Qed.

Lemma funcs_loop_refines fls : forall n s, Forall fl_ok fls -> 0 <= n <= 32 ->
  s = contents fls (Z.to_nat n) ->
  exists s', spec_step (mkSpec s false) Next (funcs_loop fls n).2 s' /\ rep (funcs_loop fls n).1 s'.
Proof.
  induction fls as [|h next IH]; intros n s Hok Hn ->; cbn [funcs_loop].
  { exists (mkSpec [] true). split; [constructor|]. split; cbn; (done || lia). }
  apply Forall_cons_1 in Hok as [Hh Hnext]. destruct (Z.gtb_spec n 0) as [H0|H0].
  - exists (mkSpec (contents (h :: next) (Z.to_nat (n - 1))) false). cbn [fst snd contents].
    replace n with (n - 1 + 1) at 1 by lia. rewrite entries_pop by (done || lia).
    split; [constructor|]. split; cbn; try done; [by apply Forall_cons|lia].
  - replace n with 0 by lia. cbn [contents]. unfold entries at 1. cbn [Z.to_nat take zip_with reverse].
    destruct next as [|h' next].
    + apply (IH COUNT); [done|unfold COUNT; lia|done].
    + apply (IH COUNT); [done|unfold COUNT; lia|done].
Qed.

Lemma step_refines st s o : rep st s ->
  exists s', spec_step s o (step st o).2 s' /\ rep (step st o).1 s'.
Proof.
  intros Hr. destruct o as [func arg mem|]; cbn [step]; [by apply register_refines|].
  destruct s as [s [|]], Hr as [Hok Hslot Hs Hc Hd Hi]; cbn in Hs, Hc; unfold funcs_on_exit.
  - rewrite (Hd (eq_sym Hc)) in *. cbn in *. subst s. exists (mkSpec [] true).
    split; [constructor|]. split; cbn; done.
  - by apply funcs_loop_refines.
Qed.

Lemma trace_refines ops : forall st s, rep st s -> spec_trace s ops (trace st ops).
Proof.
  induction ops as [|o ops IH]; intros st s Hr; cbn [trace]; [constructor|].
  destruct (step_refines st s o Hr) as (s' & Hs & Hr'). destruct (step st o) as [st' r].
  econstructor; [exact Hs|]. by apply IH.
Qed.

(** Without further registrations the specification empties the stack. *)
Lemma spec_drain s : forall rs, spec_trace (mkSpec s false) (replicate (length s + 1) Next) rs ->
  rs = map (fun '(func, arg) => Call func arg) s ++ [Done].
Proof.
  induction s as [|[func arg] s IH]; intros rs H; cbn in H.
  - inversion H as [|? ? ? ? ? ? Hs Ht]; subst. inversion Hs; subst. inversion Ht; subst. done.
  - inversion H as [|? ? ? ? ? ? Hs Ht]; subst. inversion Hs; subst. cbn. f_equal. by apply IH.
Qed.

(** Registrations only. *)
Lemma spec_registers regs : forall s rs, spec_trace (mkSpec s false)
    (map (fun '(func, arg) => Register func arg true) regs) rs ->
  rs = map (fun _ => Ret 0) regs /\ forall ops rs', spec_trace (mkSpec s false)
    (map (fun '(func, arg) => Register func arg true) regs ++ ops) (rs ++ rs') ->
    spec_trace (mkSpec (reverse regs ++ s) false) ops rs'.
Proof.
  induction regs as [|[func arg] regs IH]; intros s rs H; cbn in H.
  - inversion H; subst. done.
  - inversion H as [|? ? ? ? ? ? Hs Ht]; subst. inversion Hs; subst.
    destruct (IH _ _ Ht) as [-> IH']. split; [done|]. intros ops rs' Happ. cbn in Happ.
    inversion Happ as [|? ? ? ? ? ? Hs' Ht']; subst. inversion Hs'; subst.
    rewrite reverse_cons, <- app_assoc. by apply IH'.
Qed.

(** ** at_quick_exit *)
Fixpoint quick_spec (s : list Z) (ops : list op) : list outcome :=
  match ops with
  | [] => []
  | Register func _ _ :: ops =>
      if (length s =? 32)%nat then Ret (-1) :: quick_spec s ops else Ret 0 :: quick_spec (func :: s) ops
  | Next :: ops =>
      match s with
      | [] => Done :: quick_spec [] ops
      | func :: s => Call func 0 :: quick_spec s ops
      end
  end.

Lemma quick_refines ops : forall st, length (funcs st) = 32%nat -> 0 <= count st <= 32 ->
  quick_trace st ops = quick_spec (reverse (take (Z.to_nat (count st)) (funcs st))) ops.
Proof.
  induction ops as [|o ops IH]; intros st Hl Hc; [done|]. cbn [quick_trace quick_spec].
  assert (Hlen : length (reverse (take (Z.to_nat (count st)) (funcs st))) = Z.to_nat (count st)).
  { rewrite length_reverse, length_take. lia. }
  destruct o as [func arg mem|]; cbn [quick_step].
  - unfold at_quick_exit. rewrite Hlen.
    destruct (Z.eqb_spec (count st) 32), (Nat.eqb_spec (Z.to_nat (count st)) 32); try lia.
    + f_equal. by apply IH.
    + f_equal. rewrite IH; cbn [funcs count]; [|by rewrite length_insert|lia].
      by rewrite take_push, reverse_snoc by lia.
  - unfold funcs_on_quick_exit. destruct (Z.gtb_spec (count st) 0) as [H0|H0].
    + assert (E : take (Z.to_nat (count st)) (funcs st) =
        take (Z.to_nat (count st - 1)) (funcs st) ++ [(funcs st).[count st - 1]]).
      { replace (Z.to_nat (count st)) with (S (Z.to_nat (count st - 1))) by lia.
        apply take_S_r, lookup_aget. lia. }
      rewrite E, reverse_snoc. f_equal.
      apply (IH (mkQuick (funcs st) (count st - 1))); cbn; [done|lia].
    + assert (E0 : count st = 0) by lia. rewrite E0. cbn [Z.to_nat take reverse]. f_equal.
      by rewrite (IH st Hl Hc), E0.
Qed.

(** ** exit *)
Lemma libc_exit_fini_order fini_array fini :
  libc_exit_fini fini_array fini = reverse fini_array ++ [fini].
Proof.
  unfold libc_exit_fini. f_equal. induction fini_array as [|x l IH] using rev_ind; [done|].
  rewrite length_app, reverse_snoc, Nat.add_comm. cbn [length Nat.add fini_loop]. f_equal.
  - unfold aget. rewrite Nat2Z.id, lookup_app_r, Nat.sub_diag by lia. done.
  - rewrite <- IH. assert (H : forall n, (n <= length l)%nat -> fini_loop n (l ++ [x]) = fini_loop n l).
    { induction n as [|n IHn]; intros Hn; [done|]. cbn [fini_loop]. rewrite IHn by lia.
      unfold aget. rewrite lookup_app_l by lia. done. }
    apply H. lia.
Qed.

(** Threads [tids] call exit one after the other. *)
Fixpoint exit_entries (exit_lock : Z) (tids : list Z) : list entry :=
  match tids with
  | [] => []
  | tid :: tids => let '(exit_lock, e) := exit_enter exit_lock tid in e :: exit_entries exit_lock tids
  end.
Lemma exit_entries_held owner tids : owner <> 0 ->
  exit_entries owner tids = map (fun tid => if owner =? tid then Crash else Pause) tids.
Proof.
  intros H0. induction tids as [|tid tids IH]; [done|]. cbn [exit_entries map]. unfold exit_enter.
  replace (owner =? 0) with false by lia. cbn [negb].
  destruct (owner =? tid); by rewrite IH.
Qed.

(** ** The properties *)

(** C19: the exit-handler list refines a stack: in every history of
    registrations (by any thread, handlers already running included, with or
    without memory for a new block) and stretches of __funcs_on_exit,
    registering pushes and returns 0, failing with -1 and no effect only
    when the list is closed or when calloc fails with at least 32 handlers
    registered; each stretch of the exiting thread calls the handler registered
    last with its argument, removing it first, and closes the list when none
    is left. In particular handlers run in the reverse order of registration, each once. *)
Theorem atexit_refines_stack ops regs :
  spec_trace (mkSpec [] false) ops (trace atexit_init ops) /\
  trace atexit_init (map (fun '(func, arg) => Register func arg true) regs ++
                     replicate (length regs + 1) Next) =
    map (fun _ => Ret 0) regs ++
    map (fun '(func, arg) => Call func arg) (reverse regs) ++ [Done].
Proof.
  split; [apply trace_refines, rep_init|].
  set (rops := map (fun '(func, arg) => Register func arg true) regs).
  pose proof (trace_refines (rops ++ replicate (length regs + 1) Next) _ _ rep_init) as H.
  assert (Happ : forall o1 o2 st, exists st', trace st (o1 ++ o2) = trace st o1 ++ trace st' o2).
  { induction o1 as [|o o1 IH]; intros o2 st; [by exists st|]. cbn [trace app].
    destruct (step st o) as [st1 r]. destruct (IH o2 st1) as [st' ->]. by exists st'. }
  destruct (Happ rops (replicate (length regs + 1) Next) atexit_init) as [st' E].
  rewrite E in *. destruct (spec_registers regs [] (trace atexit_init rops)) as [Er Hd].
  { apply trace_refines, rep_init. }
  rewrite Er in *. f_equal. apply Hd in H. rewrite app_nil_r in H.
  apply spec_drain. by rewrite length_reverse.
Qed.

(** Quick_exit and exit: in every history of registrations and calls,
    at_quick_exit and __funcs_on_quick_exit behave as a stack of at most 32
    functions, a registration beyond that returning -1 without effect; of the
    threads that call exit the first alone proceeds, a later call traps if it
    comes from that same thread and pauses for ever otherwise; and the
    finalizers then run in reverse order, _fini last. *)
Theorem exit_order ops tid tids fini_array fini : tid <> 0 ->
  quick_trace quick_init ops = quick_spec [] ops /\
  exit_entries 0 (tid :: tids) = Proceed :: map (fun t => if tid =? t then Crash else Pause) tids /\
  libc_exit_fini fini_array fini = reverse fini_array ++ [fini].
Proof.
  intros Ht. split; [by apply quick_refines|]. split; [|apply libc_exit_fini_order].
  cbn [exit_entries]. unfold exit_enter. change (0 =? 0) with true. cbn [negb].
  replace (0 =? tid) with false by lia. by rewrite exit_entries_held.
Qed.

Lemma exit_order_witness :
  exit_entries 0 [7; 9; 7] = [Proceed; Pause; Crash] /\
  quick_trace quick_init [Register 1 0 true; Register 2 0 true; Next; Next; Next] =
    [Ret 0; Ret 0; Call 2 0; Call 1 0; Done].
Proof.
  assert (H : 7 <> 0) by lia.
  pose proof (exit_order [Register 1 0 true; Register 2 0 true; Next; Next; Next] 7 [9; 7] [] 0 H)
    as (Hq & He & _).
  split; [exact He|exact Hq].
Defined.
