(* ===== verification/Tsearch.v ===== *)
(** * Tsearch: the AVL trees of search/ (tsearch, tfind, tdelete, twalk, tdestroy).

    Nodes are cells of a heap, pointers to pointers are slots, and a null or
    dangling dereference, or an overrun of the array of slots on the stack, is
    [None]. *)

From stdpp Require Import sorting.
From S2P Require Import Prelude.

(** ** tsearch.h *)
Record node := mkNode { key : Z; a0 : Z; a1 : Z; h : Z }.
Definition MAXH : Z := 8 * 8 * 3 / 2.

(** The caller's root pointer and the heap; a [void **] is the root or a field
    [&n->a[d]]. *)
Record mem := mkMem { root : Z; nodes : gmap Z node }.
Inductive slot := Root | Field (p : Z) (d : bool).

Definition child (n : node) (d : bool) : Z := if d then a1 n else a0 n.
Definition with_child (n : node) (d : bool) (v : Z) : node :=
  if d then mkNode (key n) (a0 n) v (h n) else mkNode (key n) v (a1 n) (h n).
Definition with_h (n : node) (v : Z) : node := mkNode (key n) (a0 n) (a1 n) v.
Definition with_key (n : node) (v : Z) : node := mkNode v (a0 n) (a1 n) (h n).

(** Loads and stores. *)
Definition get (m : mem) (p : Z) : option node := nodes m !! p.
Definition get_child (m : mem) (p : Z) (d : bool) : option Z := n ← get m p; Some (child n d).
Definition put (m : mem) (p : Z) (f : node -> node) : option mem :=
  n ← get m p; Some (mkMem (root m) (<[p := f n]> (nodes m))).
Definition set_child (m : mem) (p : Z) (d : bool) (v : Z) : option mem :=
  put m p (fun n => with_child n d v).
Definition set_h (m : mem) (p v : Z) : option mem := put m p (fun n => with_h n v).
Definition read (m : mem) (s : slot) : option Z :=
  match s with Root => Some (root m) | Field p d => get_child m p d end.
Definition write (m : mem) (s : slot) (v : Z) : option mem :=
  match s with Root => Some (mkMem v (nodes m)) | Field p d => set_child m p d v end.
Definition free (m : mem) (p : Z) : option mem :=
  _ ← get m p; Some (mkMem (root m) (delete p (nodes m))).

(** ** tsearch.c *)
Definition height (m : mem) (n : Z) : option Z :=
  if n =? 0 then Some 0 else x ← get m n; Some (h x).

Definition rot (m : mem) (p : slot) (x : Z) (dir : bool) : option (mem * Z) :=
  y ← get_child m x dir;
  z ← get_child m y (negb dir);
  hx ← height m x;
  hz ← height m z;
  yd ← get_child m y dir;
  hd ← height m yd;
  '(m, z) ←
    (if hz >? hd then
      v ← get_child m z (negb dir); m ← set_child m x dir v;
      v ← get_child m z dir; m ← set_child m y (negb dir) v;
      m ← set_child m z (negb dir) x;
      m ← set_child m z dir y;
      m ← set_h m x hz;
      m ← set_h m y hz;
      m ← set_h m z (hz + 1);
      Some (m, z)
    else
      m ← set_child m x dir z;
      m ← set_child m y (negb dir) x;
      m ← set_h m x (hz + 1);
      m ← set_h m y (hz + 2);
      Some (m, y));
  m ← write m p z;
  hr ← height m z;
  Some (m, hr - hx).

(** [__tsearch_balance] *)
Definition tsearch_balance (m : mem) (p : slot) : option (mem * Z) :=
  n ← read m p;
  nd ← get m n;
  h0 ← height m (a0 nd);
  h1 ← height m (a1 nd);
  if u32 (h0 - h1 + 1) <? 3 then
    let old := h nd in
    m ← set_h m n (if h0 <? h1 then h1 + 1 else h0 + 1);
    hn ← height m n;
    Some (m, hn - old)
  else rot m p n (h0 <? h1).

(** The array [a], its top first, of [max] elements. *)
Definition push (max : Z) (a : list slot) (s : slot) : option (list slot) :=
  if Z.of_nat (length a) <? max then Some (s :: a) else None.

(** [while (i && __tsearch_balance(a[--i]));] *)
Fixpoint rebalance (m : mem) (a : list slot) : option mem :=
  match a with
  | [] => Some m
  | p :: a => '(m, r) ← tsearch_balance m p; if r =? 0 then Some m else rebalance m a
  end.

Section Compare.
(** The user's comparison of keys. *)
Context (cmp : Z -> Z -> Z).

(** The search loop: the node that holds the key, or null, and the slots. *)
Fixpoint descend (fuel : nat) (max : Z) (m : mem) (k : Z) (n : Z) (a : list slot) :
    option (Z * list slot) :=
  match fuel with
  | O => None
  | S fuel =>
      if n =? 0 then Some (n, a)
      else
        nd ← get m n;
        let c := cmp k (key nd) in
        if c =? 0 then Some (n, a)
        else
          a ← push max a (Field n (c >? 0));
          descend fuel max m k (child nd (c >? 0)) a
  end.

(** [rootp] is false for a null pointer; [r] is what malloc returns; the
    result is the memory and the node returned. The loop visits at most
    [MAXH + 2] pointers before the array is full. *)
Definition FUEL : nat := 98.
Definition tsearch (m : mem) (rootp : bool) (k r : Z) : option (mem * Z) :=
  if negb rootp then Some (m, 0)
  else
    n ← read m Root;
    a ← push MAXH [] Root;
    '(n, a) ← descend FUEL MAXH m k n a;
    if negb (n =? 0) then Some (m, n)
    else if r =? 0 then Some (m, 0)
    else
      let m := mkMem (root m) (<[r := mkNode k 0 0 1]> (nodes m)) in
      match a with
      | [] => None
      | s :: a => m ← write m s r; m ← rebalance m a; Some (m, r)
      end.

(** ** tfind.c *)
Fixpoint tfind_loop (fuel : nat) (m : mem) (k n : Z) : option Z :=
  match fuel with
  | O => None
  | S fuel =>
      if n =? 0 then Some n
      else
        nd ← get m n;
        let c := cmp k (key nd) in
        if c =? 0 then Some n else tfind_loop fuel m k (child nd (c >? 0))
  end.
Definition tfind (m : mem) (rootp : bool) (k : Z) : option Z :=
  if negb rootp then Some 0 else n ← read m Root; tfind_loop FUEL m k n.

(** ** tdelete.c *)

(** [while (n->a[1])] *)
Fixpoint rightmost (fuel : nat) (m : mem) (n : Z) (a : list slot) : option (Z * list slot) :=
  match fuel with
  | O => None
  | S fuel =>
      r ← get_child m n true;
      if r =? 0 then Some (n, a)
      else a ← push (MAXH + 1) a (Field n true); rightmost fuel m r a
  end.

(** [while (--i && __tsearch_balance(a[i]));] *)
Fixpoint rebalance_del (m : mem) (a : list slot) : option mem :=
  match a with
  | [] | [_] => Some m
  | p :: a => '(m, r) ← tsearch_balance m p; if r =? 0 then Some m else rebalance_del m a
  end.

Definition tdelete (m : mem) (rootp : bool) (k : Z) : option (mem * Z) :=
  if negb rootp then Some (m, 0)
  else
    n ← read m Root;
    a ← push (MAXH + 1) [] Root;
    a ← push (MAXH + 1) a Root;
    '(n, a) ← descend FUEL (MAXH + 1) m k n a;
    if n =? 0 then Some (m, 0)
    else
      s ← a !! 1%nat;
      parent ← read m s;
      l ← get_child m n false;
      '(m, n, a, child) ←
        (if negb (l =? 0) then
          let deleted := n in
          a ← push (MAXH + 1) a (Field n false);
          '(n, a) ← rightmost FUEL m l a;
          nd ← get m n;
          m ← put m deleted (fun d => with_key d (key nd));
          Some (m, n, a, a0 nd)
        else
          c ← get_child m n true;
          Some (m, n, a, c));
      m ← free m n;
      match a with
      | [] => None
      | s :: a => m ← write m s child; m ← rebalance_del m a; Some (m, parent)
      end.
End Compare.

(** ** twalk.c: the calls of the action, in order *)
Inductive VISIT := preorder | postorder | endorder | leaf.

Fixpoint walk (fuel : nat) (m : mem) (r : Z) (d : Z) : option (list (Z * VISIT * Z)) :=
  match fuel with
  | O => None
  | S fuel =>
      if r =? 0 then Some []
      else
        nd ← get m r;
        if h nd =? 1 then Some [(r, leaf, d)]
        else
          l1 ← walk fuel m (a0 nd) (d + 1);
          l2 ← walk fuel m (a1 nd) (d + 1);
          Some ([(r, preorder, d)] ++ l1 ++ [(r, postorder, d)] ++ l2 ++ [(r, endorder, d)])
  end.
Definition twalk (m : mem) (root : Z) : option (list (Z * VISIT * Z)) := walk FUEL m root 0.

(** ** tdestroy.c: the memory and the keys handed to freekey *)
Fixpoint tdestroy_rec (fuel : nat) (m : mem) (r : Z) (freekey : bool) : option (mem * list Z) :=
  match fuel with
  | O => None
  | S fuel =>
      if r =? 0 then Some (m, [])
      else
        l ← get_child m r false;
        '(m, k1) ← tdestroy_rec fuel m l freekey;
        g ← get_child m r true;
        '(m, k2) ← tdestroy_rec fuel m g freekey;
        nd ← get m r;
        m ← free m r;
        Some (m, k1 ++ k2 ++ (if freekey then [key nd] else []))
  end.
Definition tdestroy (m : mem) (root : Z) (freekey : bool) : option (mem * list Z) :=
  tdestroy_rec FUEL m root freekey.

(** ** Trees and contexts *)

(** A subtree: the address, key and height field of its root. *)
Inductive tree := E | T (q k hh : Z) (l r : tree).

Definition addr (t : tree) : Z := match t with E => 0 | T q _ _ _ _ => q end.
Definition ht (t : tree) : Z := match t with E => 0 | T _ _ hh _ _ => hh end.
Fixpoint inorder (t : tree) : list (Z * Z) :=
  match t with E => [] | T q k _ l r => inorder l ++ (q, k) :: inorder r end.
Definition addrs (t : tree) : list Z := map fst (inorder t).
Fixpoint avl (t : tree) : Prop :=
  match t with
  | E => True
  | T _ _ hh l r => hh = 1 + Z.max (ht l) (ht r) /\ -1 <= ht l - ht r <= 1 /\ avl l /\ avl r
  end.
Fixpoint rep (hp : gmap Z node) (t : tree) : Prop :=
  match t with
  | E => True
  | T q k hh l r => hp !! q = Some (mkNode k (addr l) (addr r) hh) /\ q <> 0 /\ rep hp l /\ rep hp r
  end.

(** The node with [s] on side [d], and a node record seen the same way. *)
Definition mk (d : bool) (q k hh : Z) (s o : tree) : tree :=
  if d then T q k hh o s else T q k hh s o.
Definition mkn (d : bool) (k cs co hh : Z) : node :=
  if d then mkNode k co cs hh else mkNode k cs co hh.

(** A path from a subtree up to the root. *)
Record frame := mkFrame { fq : Z; fk : Z; fh : Z; fd : bool; sib : tree }.
Fixpoint plug (ctx : list frame) (t : tree) : tree :=
  match ctx with
  | [] => t
  | f :: ctx => plug ctx (mk (fd f) (fq f) (fk f) (fh f) t (sib f))
  end.
Definition slot_of (ctx : list frame) : slot :=
  match ctx with [] => Root | f :: _ => Field (fq f) (fd f) end.
(** The slots of the ancestors, nearest first. *)
Fixpoint slots (ctx : list frame) : list slot :=
  match ctx with [] => [] | _ :: ctx => slot_of ctx :: slots ctx end.
Fixpoint rep_ctx (m : mem) (ctx : list frame) (p : Z) : Prop :=
  match ctx with
  | [] => root m = p
  | f :: ctx =>
      nodes m !! fq f = Some (mkn (fd f) (fk f) p (addr (sib f)) (fh f)) /\ fq f <> 0 /\
      rep (nodes m) (sib f) /\ rep_ctx m ctx (fq f)
  end.
(** The context is balanced around a subtree of height [n]. *)
Fixpoint avl_ctx (ctx : list frame) (n : Z) : Prop :=
  match ctx with
  | [] => True
  | f :: ctx => fh f = 1 + Z.max n (ht (sib f)) /\ -1 <= n - ht (sib f) <= 1 /\ avl (sib f) /\
                avl_ctx ctx (fh f)
  end.
Definition left1 (f : frame) : list (Z * Z) := if fd f then inorder (sib f) ++ [(fq f, fk f)] else [].
Definition right1 (f : frame) : list (Z * Z) := if fd f then [] else (fq f, fk f) :: inorder (sib f).
Fixpoint lefts (ctx : list frame) : list (Z * Z) :=
  match ctx with [] => [] | f :: ctx => lefts ctx ++ left1 f end.
Fixpoint rights (ctx : list frame) : list (Z * Z) :=
  match ctx with [] => [] | f :: ctx => right1 f ++ rights ctx end.
(** The addresses of a context. *)
Definition caddrs (ctx : list frame) : list Z := map fst (lefts ctx ++ rights ctx).

Lemma inorder_mk d q k hh s o : inorder (mk d q k hh s o) =
  if d then inorder o ++ (q, k) :: inorder s else inorder s ++ (q, k) :: inorder o.
Proof. by destruct d. Qed.

Lemma inorder_plug ctx : forall t, inorder (plug ctx t) = lefts ctx ++ inorder t ++ rights ctx.
Proof.
  induction ctx as [|f ctx IH]; intros t; cbn; [by rewrite app_nil_r|].
  rewrite IH, inorder_mk. unfold left1, right1.
  destruct (fd f); rewrite <- !app_assoc; cbn; by rewrite ?app_nil_r.
Qed.

Lemma rep_mk hp d q k hh s o : rep hp (mk d q k hh s o) <->
  hp !! q = Some (mkn d k (addr s) (addr o) hh) /\ q <> 0 /\ rep hp s /\ rep hp o.
Proof. destruct d; cbn; tauto. Qed.

Lemma avl_mk d q k hh s o : avl (mk d q k hh s o) <->
  hh = 1 + Z.max (ht s) (ht o) /\ -1 <= ht s - ht o <= 1 /\ avl s /\ avl o.
Proof. destruct d; cbn; intuition lia. Qed.

Lemma mk_split d t : t = E \/ exists q k hh s o, t = mk d q k hh s o.
Proof. destruct t as [|q k hh l r]; [by left|right]. destruct d; repeat eexists; done. Qed.

Lemma addr_mk d q k hh s o : addr (mk d q k hh s o) = q.
Proof. by destruct d. Qed.
Lemma ht_mk d q k hh s o : ht (mk d q k hh s o) = hh.
Proof. by destruct d. Qed.

Lemma child_mkn d k cs co hh : child (mkn d k cs co hh) d = cs.
Proof. by destruct d. Qed.
Lemma child_mkn_neg d k cs co hh : child (mkn d k cs co hh) (negb d) = co.
Proof. by destruct d. Qed.
Lemma h_mkn d k cs co hh : h (mkn d k cs co hh) = hh.
Proof. by destruct d. Qed.
Lemma with_child_mkn d k cs co hh v : with_child (mkn d k cs co hh) d v = mkn d k v co hh.
Proof. by destruct d. Qed.
Lemma with_child_mkn_neg d k cs co hh v : with_child (mkn d k cs co hh) (negb d) v = mkn d k cs v hh.
Proof. by destruct d. Qed.
Lemma with_h_mkn d k cs co hh v : with_h (mkn d k cs co hh) v = mkn d k cs co v.
Proof. by destruct d. Qed.
Create Rewrite HintDb node_db.
#[export] Hint Rewrite child_mkn child_mkn_neg h_mkn with_child_mkn with_child_mkn_neg
  with_h_mkn addr_mk ht_mk : node_db.

Lemma avl_ht t : avl t -> 0 <= ht t /\ (ht t = 0 -> t = E).
Proof.
  induction t as [|q k hh l IHl r IHr]; cbn; [done|]. intros (-> & Hb & Hl & Hr).
  destruct (IHl Hl), (IHr Hr). split; lia.
Qed.

Lemma elem_addrs q t : q ∈ addrs t <-> exists k, (q, k) ∈ inorder t.
Proof.
  unfold addrs. rewrite list_elem_of_fmap. split.
  - intros ([q' k] & -> & H). by exists k.
  - intros (k & H). by exists (q, k).
Qed.

Lemma addrs_mk q d a k hh s o : q ∈ addrs (mk d a k hh s o) <-> q = a \/ q ∈ addrs s \/ q ∈ addrs o.
Proof. unfold addrs. rewrite inorder_mk. destruct d; rewrite map_app; set_solver. Qed.

Lemma rep_frame hp hp' t : (forall q, q ∈ addrs t -> hp' !! q = hp !! q) -> rep hp t -> rep hp' t.
Proof.
  induction t as [|q k hh l IHl r IHr]; [done|]. intros H (H1 & H2 & H3 & H4).
  assert (Hin : forall x, x ∈ addrs (T q k hh l r) <-> x = q \/ x ∈ addrs l \/ x ∈ addrs r).
  { intros x. apply (addrs_mk x false). }
  split; [rewrite H; [done|apply Hin; by left]|]. split; [done|].
  split; [apply IHl|apply IHr]; try done; intros; apply H, Hin; tauto.
Qed.

Lemma caddrs_cons q f ctx : q ∈ caddrs (f :: ctx) <-> q = fq f \/ q ∈ addrs (sib f) \/ q ∈ caddrs ctx.
Proof.
  unfold caddrs, addrs. cbn [lefts rights]. unfold left1, right1.
  destruct (fd f); rewrite !map_app; set_solver.
Qed.

Lemma rep_ctx_frame m m' ctx : forall p, (forall q, q ∈ caddrs ctx -> nodes m' !! q = nodes m !! q) ->
  root m' = root m -> rep_ctx m ctx p -> rep_ctx m' ctx p.
Proof.
  induction ctx as [|f ctx IH]; intros p H Hr; cbn [rep_ctx]; [congruence|]. intros (H1 & H2 & H3 & H4).
  split; [rewrite H; [done|apply caddrs_cons; tauto]|]. split; [done|].
  split; [apply (rep_frame (nodes m)); [|done]|apply IH; try done];
    intros; apply H, caddrs_cons; tauto.
Qed.

(** Storing into the hole of a context. *)
Lemma write_ctx m ctx p v : rep_ctx m ctx p -> NoDup (caddrs ctx) ->
  exists m', write m (slot_of ctx) v = Some m' /\ rep_ctx m' ctx v /\
    (forall q, q ∉ caddrs ctx -> nodes m' !! q = nodes m !! q).
Proof.
  destruct ctx as [|f ctx]; cbn [rep_ctx slot_of write].
  - intros _ _. by exists (mkMem v (nodes m)).
  - intros (H1 & H2 & H3 & H4) Hnd. unfold set_child, put, get. rewrite H1. cbn [mbind option_bind].
    autorewrite with node_db. eexists. split; [done|]. cbn [rep_ctx nodes root].
    assert (Hf : (fq f ∉ addrs (sib f)) /\ (fq f ∉ caddrs ctx)).
    { revert Hnd. unfold caddrs, addrs. cbn [lefts rights]. unfold left1, right1.
      destruct (fd f); rewrite !map_app; cbn [map fst];
        rewrite !NoDup_app, ?NoDup_cons; set_solver. }
    split; [|intros q Hq; rewrite lookup_insert_ne; [done|];
             intros <-; apply Hq, caddrs_cons; tauto].
    rewrite lookup_insert_eq. split; [done|]. split; [done|].
    split; [apply (rep_frame (nodes m)); [|done]|apply (rep_ctx_frame m); try done];
      cbn [nodes]; intros q Hq; rewrite lookup_insert_ne; try done; intros <-; tauto.
Qed.

Lemma read_ctx m ctx p : rep_ctx m ctx p -> read m (slot_of ctx) = Some p.
Proof.
  destruct ctx as [|f ctx]; cbn [rep_ctx slot_of read]; [by intros ->|].
  intros (H1 & _). unfold get_child, get. rewrite H1. cbn. by autorewrite with node_db.
Qed.

(** ** Rotations *)
Definition inner (d : bool) (t : tree) : tree :=
  match t with E => E | T _ _ _ l r => if d then r else l end.

(** The tree [x] with [y] on its deeper side [d], after [rot]. *)
Definition rot_t (d : bool) (x kx : Z) (A : tree) (y ky : Z) (D zt : tree) : tree :=
  if ht zt >? ht D then
    match zt with
    | E => E
    | T z kz hz _ _ =>
        mk d z kz (hz + 1) (mk d y ky hz D (inner d zt)) (mk d x kx hz (inner (negb d) zt) A)
    end
  else mk d y ky (ht zt + 2) D (mk d x kx (ht zt + 1) zt A).

Lemma inner_mk d q k hh s o : inner d (mk d q k hh s o) = s /\ inner (negb d) (mk d q k hh s o) = o.
Proof. by destruct d. Qed.

Lemma height_rep m t : rep (nodes m) t -> height m (addr t) = Some (ht t).
Proof.
  destruct t as [|q k hh l r]; [done|]. intros (H & Hq & _). unfold height, get. cbn [addr ht].
  replace (q =? 0) with false by lia. by rewrite H.
Qed.

(** Loads and stores on a node seen from side [d]. *)
Section Steps.
Context (m : mem) (p : Z) (d : bool) (k cs co hh : Z).
Hypothesis Hp : nodes m !! p = Some (mkn d k cs co hh).
Lemma get_child_s : get_child m p d = Some cs.
Proof. unfold get_child, get. rewrite Hp. cbn. by rewrite child_mkn. Qed.
Lemma get_child_o : get_child m p (negb d) = Some co.
Proof. unfold get_child, get. rewrite Hp. cbn. by rewrite child_mkn_neg. Qed.
Lemma set_child_s v : set_child m p d v = Some (mkMem (root m) (<[p := mkn d k v co hh]> (nodes m))).
Proof. unfold set_child, put, get. rewrite Hp. cbn. by rewrite with_child_mkn. Qed.
Lemma set_child_o v : set_child m p (negb d) v = Some (mkMem (root m) (<[p := mkn d k cs v hh]> (nodes m))).
Proof. unfold set_child, put, get. rewrite Hp. cbn. by rewrite with_child_mkn_neg. Qed.
Lemma set_h_s v : set_h m p v = Some (mkMem (root m) (<[p := mkn d k cs co v]> (nodes m))).
Proof. unfold set_h, put, get. rewrite Hp. cbn. by rewrite with_h_mkn. Qed.
End Steps.

(** Looking a node up in a heap of stores, and running one load or store. *)
Ltac look := cbn [nodes root]; repeat (rewrite lookup_insert_eq || rewrite lookup_insert_ne by congruence);
  first [eassumption | reflexivity].
Ltac heap_step := first
  [ erewrite get_child_s by look | erewrite get_child_o by look
  | erewrite set_child_s by look | erewrite set_child_o by look | erewrite set_h_s by look ];
  cbn [mbind option_bind nodes root].

(** Steps of [rot] up to the final store: the new heap. *)
Lemma NoDup_mk d q k hh s o l : NoDup (addrs (mk d q k hh s o) ++ l) ->
  (q ∉ addrs s) /\ (q ∉ addrs o) /\ (q ∉ l) /\ NoDup (addrs s ++ l) /\ NoDup (addrs o ++ l) /\
  (forall p, p ∈ addrs s -> p ∉ addrs o).
Proof.
  unfold addrs. rewrite inorder_mk. destruct d; rewrite map_app; cbn [map fst];
    rewrite !NoDup_app, !NoDup_cons; set_solver.
Qed.

Lemma rep_insert hp q n t : q ∉ addrs t -> rep hp t -> rep (<[q := n]> hp) t.
Proof. intros Hq. apply rep_frame. intros p Hp. rewrite lookup_insert_ne; [done|set_solver]. Qed.
Create HintDb heap_db.
#[export] Hint Resolve rep_insert : heap_db.

Lemma rep_ctx_same m hp ctx p : (forall q, q ∈ caddrs ctx -> hp !! q = nodes m !! q) ->
  rep_ctx m ctx p -> rep_ctx (mkMem (root m) hp) ctx p.
Proof. intros H. by apply rep_ctx_frame. Qed.

(** The final store of [rot]. *)
Lemma rot_finish m hp ctx p t : rep hp t -> t <> E -> rep_ctx (mkMem (root m) hp) ctx p ->
  NoDup (addrs t ++ caddrs ctx) -> forall hx,
  exists m', (m' ← write (mkMem (root m) hp) (slot_of ctx) (addr t);
              hr ← height m' (addr t); Some (m', hr - hx)) = Some (m', ht t - hx) /\
    rep (nodes m') t /\ rep_ctx m' ctx (addr t) /\
    (forall q, q ∉ caddrs ctx -> nodes m' !! q = hp !! q).
Proof.
  intros Ht Hne Hc Hnd hx. apply NoDup_app in Hnd as (_ & Hd & Hnc).
  destruct (write_ctx _ _ _ (addr t) Hc Hnc) as (m' & Hw & Hc' & Hf). exists m'.
  rewrite Hw. cbn [mbind option_bind].
  assert (Ht' : rep (nodes m') t).
  { apply (rep_frame hp); [|done]. intros q Hq. apply Hf, Hd, Hq. }
  rewrite height_rep by done. done.
Qed.

Ltac finish_rot m ctx x t hx :=
  match goal with |- context [write (mkMem _ ?hp) _ _] =>
    let m' := fresh "m'" in let Hm := fresh "Hm'" in let Hrep := fresh "Hrep" in
    let Hctx := fresh "Hctx" in let Hf := fresh "Hf" in
    cut (rep hp t /\ t <> E /\ rep_ctx (mkMem (root m) hp) ctx x /\ NoDup (addrs t ++ caddrs ctx));
    [ intros (Hrep0 & Hne & Hctx0 & Hnd0);
      destruct (rot_finish m hp ctx x t Hrep0 Hne Hctx0 Hnd0 hx) as (m' & Hm & Hrep & Hctx & Hf);
      exists m'
    | split; [|split; [|split]] ]
  end.

Lemma rot_single_inorder d x kx hx y ky hy D zt A h1 h2 :
  inorder (mk d x kx hx (mk d y ky hy D zt) A) = inorder (mk d y ky h1 D (mk d x kx h2 zt A)).
Proof. rewrite !inorder_mk. destruct d; by rewrite <- !app_assoc. Qed.

Lemma rot_double_inorder d x kx hx y ky hy D z kz hz C B A h1 h2 h3 :
  inorder (mk d x kx hx (mk d y ky hy D (mk d z kz hz C B)) A) =
  inorder (mk d z kz h1 (mk d y ky h2 D C) (mk d x kx h3 B A)).
Proof. rewrite !inorder_mk. destruct d; rewrite <- !app_assoc; cbn; by rewrite <- ?app_assoc. Qed.

Lemma rot_single m ctx d x kx hx y ky hy D zt A :
  rep (nodes m) (mk d x kx hx (mk d y ky hy D zt) A) -> rep_ctx m ctx x ->
  NoDup (addrs (mk d x kx hx (mk d y ky hy D zt) A) ++ caddrs ctx) -> ht zt <= ht D ->
  let t := mk d y ky (ht zt + 2) D (mk d x kx (ht zt + 1) zt A) in
  exists m', rot m (slot_of ctx) x d = Some (m', ht t - hx) /\ rep (nodes m') t /\
    rep_ctx m' ctx (addr t) /\
    (forall q, q ∉ caddrs ctx -> q <> x -> q <> y -> nodes m' !! q = nodes m !! q).
Proof.
  intros Hr Hc Hnd Hh t. pose proof Hr as (Hx & Hx0 & Hy' & HA)%rep_mk.
  pose proof Hy' as (Hy & Hy0 & HD & Hz)%rep_mk. autorewrite with node_db in Hx.
  destruct (NoDup_mk _ _ _ _ _ _ _ Hnd) as (H1 & H2 & H3 & Hnd1 & _ & Hdis).
  destruct (NoDup_mk _ _ _ _ _ _ _ Hnd1) as (H4 & H5 & H6 & _ & _ & Hdis').
  assert (Hxy : x <> y /\ (x ∉ addrs D) /\ (x ∉ addrs zt)) by (rewrite addrs_mk in H1; tauto).
  destruct Hxy as (Hxy & HxD & Hxz).
  assert (HyA : y ∉ addrs A) by (apply Hdis, addrs_mk; by left).
  pose proof (height_rep m _ Hr) as Hhx. autorewrite with node_db in Hhx.
  unfold rot. repeat heap_step. rewrite Hhx, !height_rep by done. cbn [mbind option_bind].
  destruct (Z.gtb_spec (ht zt) (ht D)); [lia|]. repeat heap_step.
  finish_rot m ctx x t hx.
  { replace (addr t) with y in Hm' by (unfold t; by autorewrite with node_db).
    split; [exact Hm'|]. split; [exact Hrep|]. split; [exact Hctx|].
    intros q Hq Hqx Hqy. rewrite Hf by done. rewrite !lookup_insert_ne by congruence. done. }
  - unfold t. rewrite !rep_mk. autorewrite with node_db.
    repeat split; try done; try look; auto 8 with heap_db.
  - by unfold t, mk; case_match.
  - apply rep_ctx_same; [|done]. intros q Hq. rewrite !lookup_insert_ne by congruence. done.
  - unfold addrs, t. rewrite <- (rot_single_inorder d x kx hx y ky hy). exact Hnd.
Qed.

Lemma rot_double m ctx d x kx hx y ky hy D z kz hz C B A :
  let T0 := mk d x kx hx (mk d y ky hy D (mk d z kz hz C B)) A in
  rep (nodes m) T0 -> rep_ctx m ctx x -> NoDup (addrs T0 ++ caddrs ctx) -> ht D < hz ->
  let t := mk d z kz (hz + 1) (mk d y ky hz D C) (mk d x kx hz B A) in
  exists m', rot m (slot_of ctx) x d = Some (m', ht t - hx) /\ rep (nodes m') t /\
    rep_ctx m' ctx (addr t) /\
    (forall q, q ∉ caddrs ctx -> q <> x -> q <> y -> q <> z -> nodes m' !! q = nodes m !! q).
Proof.
  intros T0 Hr Hc Hnd Hh t. unfold T0 in *. pose proof Hr as (Hx & Hx0 & Hy' & HA)%rep_mk.
  pose proof Hy' as (Hy & Hy0 & HD & Hz')%rep_mk. pose proof Hz' as (Hz & Hz0 & HC & HB)%rep_mk.
  autorewrite with node_db in Hx, Hy.
  destruct (NoDup_mk _ _ _ _ _ _ _ Hnd) as (H1 & H2 & H3 & Hnd1 & _ & Hdis).
  destruct (NoDup_mk _ _ _ _ _ _ _ Hnd1) as (H4 & H5 & H6 & _ & Hnd2 & Hdis').
  destruct (NoDup_mk _ _ _ _ _ _ _ Hnd2) as (H7 & H8 & H9 & _ & _ & _).
  rewrite addrs_mk, (addrs_mk x d z) in H1. rewrite addrs_mk in H5.
  assert (Hd : x <> y /\ x <> z /\ y <> z /\ (x ∉ addrs D) /\ (x ∉ addrs C) /\ (x ∉ addrs B) /\
    (y ∉ addrs C) /\ (y ∉ addrs B) /\ (y ∉ addrs A) /\ (z ∉ addrs A) /\ (z ∉ addrs D)).
  { repeat split; try tauto.
    - apply Hdis, addrs_mk. tauto.
    - apply Hdis, addrs_mk. right; right. apply addrs_mk. tauto.
    - intros Hin. apply Hdis' in Hin. apply Hin, addrs_mk. tauto. }
  destruct Hd as (? & ? & ? & ? & ? & ? & ? & ? & ? & ? & ?).
  pose proof (height_rep m _ Hr) as Hhx. pose proof (height_rep m _ Hz') as Hhz.
  autorewrite with node_db in Hhx, Hhz.
  unfold rot. repeat heap_step. rewrite Hhx, Hhz, height_rep by done. cbn [mbind option_bind].
  destruct (Z.gtb_spec hz (ht D)); [|lia]. repeat heap_step.
  finish_rot m ctx x t hx.
  { replace (addr t) with z in Hm' by (unfold t; by autorewrite with node_db).
    split; [exact Hm'|]. split; [exact Hrep|]. split; [exact Hctx|].
    intros q Hq Hqx Hqy Hqz. rewrite Hf by done. rewrite !lookup_insert_ne by congruence. done. }
  - unfold t. rewrite !rep_mk. autorewrite with node_db.
    repeat split; try done; try look; auto 12 with heap_db.
  - by unfold t, mk; case_match.
  - apply rep_ctx_same; [|done]. intros q Hq. rewrite !lookup_insert_ne by congruence. done.
  - unfold addrs, t. rewrite <- (rot_double_inorder d x kx hx y ky hy _ _ _ hz). exact Hnd.
Qed.

(** ** Rebalancing one node *)

(** What [__tsearch_balance] makes of the subtree [t0] in the hole of [ctx]. *)
Inductive balanced (m : mem) (ctx : list frame) (t0 : tree) (old lo hi : Z) : option (mem * Z) -> Prop :=
  | mkBalanced m' t :
      rep (nodes m') t -> rep_ctx m' ctx (addr t) -> avl t -> inorder t = inorder t0 ->
      lo <= ht t <= hi ->
      (forall q, q ∉ caddrs ctx -> q ∉ addrs t0 -> nodes m' !! q = nodes m !! q) ->
      balanced m ctx t0 old lo hi (Some (m', ht t - old)).

(** The deeper side [s] exceeds the other by two. *)
Lemma rot_ok m ctx d x kx hx s o :
  rep (nodes m) (mk d x kx hx s o) -> rep_ctx m ctx x ->
  NoDup (addrs (mk d x kx hx s o) ++ caddrs ctx) -> avl s -> avl o -> ht s = ht o + 2 ->
  balanced m ctx (mk d x kx hx s o) hx (ht s) (ht s + 1) (rot m (slot_of ctx) x d).
Proof.
  intros Hr Hc Hnd Hs Ho Hh. pose proof (avl_ht o Ho) as [Ho0 _].
  destruct (mk_split d s) as [->|(y & ky & hy & D & zt & ->)]; [cbn in Hh; lia|].
  apply avl_mk in Hs as (Ehy & Hb & HD & Hz). autorewrite with node_db in *.
  destruct (Z.le_gt_cases (ht zt) (ht D)) as [Hle|Hgt].
  - destruct (rot_single m ctx d x kx hx y ky hy D zt o Hr Hc Hnd Hle) as (m' & E & Hr' & Hc' & Hf).
    rewrite E. apply mkBalanced; [exact Hr'|exact Hc'| | | |]; autorewrite with node_db.
    + apply avl_mk. rewrite avl_mk. autorewrite with node_db. repeat split; try done; lia.
    + symmetry. apply rot_single_inorder.
    + lia.
    + intros q Hq Hq'. rewrite !addrs_mk in Hq'. apply Hf; tauto.
  - destruct (mk_split d zt) as [->|(z & kz & hz & C & B & ->)].
    { cbn in Hgt. destruct (avl_ht D HD). lia. }
    apply avl_mk in Hz as (Ehz & Hbz & HC & HB). autorewrite with node_db in *.
    destruct (rot_double m ctx d x kx hx y ky hy D z kz hz C B o Hr Hc Hnd Hgt)
      as (m' & E & Hr' & Hc' & Hf).
    rewrite E. apply mkBalanced; [exact Hr'|exact Hc'| | | |]; autorewrite with node_db.
    + apply avl_mk. rewrite !avl_mk. autorewrite with node_db. repeat split; try done; lia.
    + symmetry. apply rot_double_inorder.
    + lia.
    + intros q Hq Hq'. rewrite addrs_mk, (addrs_mk q d y), (addrs_mk q d z) in Hq'. apply Hf; tauto.
Qed.

Lemma balance_ok m ctx x kx hx l r :
  let t0 := T x kx hx l r in
  rep (nodes m) t0 -> rep_ctx m ctx x -> NoDup (addrs t0 ++ caddrs ctx) ->
  avl l -> avl r -> -2 <= ht l - ht r <= 2 ->
  let top := Z.max (ht l) (ht r) in
  let lo := if (-1 <=? ht l - ht r) && (ht l - ht r <=? 1) then top + 1 else top in
  balanced m ctx t0 hx lo (top + 1) (tsearch_balance m (slot_of ctx)).
Proof.
  intros t0 Hr Hc Hnd Hl Hrr Hb top lo. unfold tsearch_balance. rewrite (read_ctx _ _ _ Hc).
  pose proof Hr as (Hx & Hx0 & Hrl & Hrr'). cbn [mbind option_bind]. unfold get. rewrite Hx.
  cbn [mbind option_bind a0 a1 h]. rewrite !height_rep by done. cbn [mbind option_bind].
  assert (Hu : (u32 (ht l - ht r + 1) <? 3) = (-1 <=? ht l - ht r) && (ht l - ht r <=? 1)).
  { unfold u32, wrap. destruct (Z.eq_dec (ht l - ht r) (-2)) as [->|];
      [done|rewrite Z.mod_small by lia; lia]. }
  rewrite Hu. unfold lo, top. clear lo top. destruct (Z.leb_spec (-1) (ht l - ht r)) as [H1|H1];
    [destruct (Z.leb_spec (ht l - ht r) 1) as [H2|H2]|]; cbn [andb].
  - set (hh := if ht l <? ht r then ht r + 1 else ht l + 1).
    assert (Ehh : hh = 1 + Z.max (ht l) (ht r)) by (unfold hh; destruct (Z.ltb_spec (ht l) (ht r)); lia).
    unfold set_h, put, get, with_h. rewrite Hx. cbn [mbind option_bind key a0 a1 h].
    destruct (NoDup_mk false x kx hx l r (caddrs ctx) Hnd) as (Hxl & Hxr & Hxc & _).
    set (hp := <[x := mkNode kx (addr l) (addr r) hh]> (nodes m)).
    assert (Hrep : rep hp (T x kx hh l r)).
    { split; [apply lookup_insert_eq|]. split; [done|]. split; by apply rep_insert. }
    pose proof (height_rep (mkMem (root m) hp) _ Hrep) as Hh. cbn [addr ht] in Hh. rewrite Hh.
    cbn [mbind option_bind].
    apply (mkBalanced _ _ _ _ _ _ (mkMem (root m) hp) (T x kx hh l r)); try done.
    + apply rep_ctx_same; [|done]. intros q Hq. unfold hp. rewrite lookup_insert_ne; [done|].
      intros <-. tauto.
    + cbn [ht]. lia.
    + intros q _ Hq. cbn [nodes]. unfold hp. rewrite lookup_insert_ne; [done|].
      intros <-. apply Hq, (addrs_mk _ false). by left.
  - replace (ht l <? ht r) with false by lia. rewrite Z.max_l by lia.
    apply (rot_ok m ctx false x kx hx l r); try done. lia.
  - replace (ht l <? ht r) with true by lia. rewrite Z.max_r by lia.
    apply (rot_ok m ctx true x kx hx r l); try done. lia.
Qed.

Lemma balance_mk m ctx d x kx hx s o :
  let t0 := mk d x kx hx s o in
  rep (nodes m) t0 -> rep_ctx m ctx x -> NoDup (addrs t0 ++ caddrs ctx) ->
  avl s -> avl o -> -2 <= ht s - ht o <= 2 ->
  let top := Z.max (ht s) (ht o) in
  let lo := if (-1 <=? ht s - ht o) && (ht s - ht o <=? 1) then top + 1 else top in
  balanced m ctx t0 hx lo (top + 1) (tsearch_balance m (slot_of ctx)).
Proof.
  destruct d; intros t0 Hr Hc Hnd Hs Ho Hb top lo; [|by apply balance_ok].
  replace lo with (if (-1 <=? ht o - ht s) && (ht o - ht s <=? 1)
    then Z.max (ht o) (ht s) + 1 else Z.max (ht o) (ht s)).
  2:{ unfold lo, top. rewrite Z.max_comm. do 2 f_equal.
      destruct (Z.leb_spec (-1) (ht o - ht s)), (Z.leb_spec (ht o - ht s) 1),
        (Z.leb_spec (-1) (ht s - ht o)), (Z.leb_spec (ht s - ht o) 1); done || lia. }
  replace (top + 1) with (Z.max (ht o) (ht s) + 1) by (unfold top; lia).
  apply balance_ok; try done. lia.
Qed.

(** ** Rebalancing the ancestors *)
Lemma addrs_plug f ctx t :
  addrs t ++ caddrs (f :: ctx) ≡ₚ addrs (mk (fd f) (fq f) (fk f) (fh f) t (sib f)) ++ caddrs ctx.
Proof.
  unfold addrs, caddrs. cbn [lefts rights]. rewrite inorder_mk. unfold left1, right1.
  destruct (fd f); rewrite !map_app; cbn [map fst]; rewrite ?map_app; cbn; solve_Permutation.
Qed.

Lemma caddrs_plug ctx : forall t, addrs (plug ctx t) ≡ₚ addrs t ++ caddrs ctx.
Proof.
  intros t. unfold addrs, caddrs. rewrite inorder_plug, !map_app. solve_Permutation.
Qed.

Lemma rep_plug ctx : forall m t, rep (nodes m) t -> rep_ctx m ctx (addr t) ->
  rep (nodes m) (plug ctx t) /\ root m = addr (plug ctx t).
Proof.
  induction ctx as [|f ctx IH]; intros m t Ht Hc; cbn [plug rep_ctx] in *; [done|].
  destruct Hc as (H1 & H2 & H3 & H4). apply IH; [by apply rep_mk|]. by rewrite addr_mk.
Qed.

Lemma plug_rep ctx : forall m t, rep (nodes m) (plug ctx t) -> root m = addr (plug ctx t) ->
  rep (nodes m) t /\ rep_ctx m ctx (addr t).
Proof.
  induction ctx as [|f ctx IH]; intros m t Ht Hc; cbn [plug rep_ctx] in *; [done|].
  destruct (IH _ _ Ht Hc) as [(H1 & H2 & H3 & H4)%rep_mk H5]. by rewrite addr_mk in H5.
Qed.

Lemma avl_plug ctx : forall t, avl t -> avl_ctx ctx (ht t) -> avl (plug ctx t).
Proof.
  induction ctx as [|f ctx IH]; intros t Ht Hc; cbn [plug avl_ctx] in *; [done|].
  destruct Hc as (H1 & H2 & H3 & H4). apply IH; [by apply avl_mk|]. by rewrite ht_mk.
Qed.

Lemma plug_avl ctx : forall t, avl (plug ctx t) -> avl t /\ avl_ctx ctx (ht t).
Proof.
  induction ctx as [|f ctx IH]; intros t Ht; cbn [plug avl_ctx] in *; [done|].
  destruct (IH _ Ht) as [(H1 & H2 & H3 & H4)%avl_mk H5]. by rewrite ht_mk in H5.
Qed.

Lemma rebalance_ok ctx : forall m t n,
  rep (nodes m) t -> rep_ctx m ctx (addr t) -> NoDup (addrs t ++ caddrs ctx) ->
  avl t -> avl_ctx ctx n -> -1 <= ht t - n <= 1 ->
  exists m' t', rebalance m (slots ctx) = Some m' /\ rep (nodes m') t' /\ root m' = addr t' /\
    avl t' /\ inorder t' = inorder (plug ctx t) /\
    (forall q, q ∉ addrs (plug ctx t) -> nodes m' !! q = nodes m !! q).
Proof.
  induction ctx as [|f ctx IH]; intros m t n Ht Hc Hnd Hav Hcx Hn; cbn [slots rebalance].
  { exists m, t. cbn in Hc. done. }
  destruct Hc as (H1 & H2 & H3 & H4), Hcx as (Hf & Hb & Hs & Hcx).
  rewrite addrs_plug in Hnd.
  assert (Hr0 : rep (nodes m) (mk (fd f) (fq f) (fk f) (fh f) t (sib f))) by (by apply rep_mk).
  pose proof (balance_mk m ctx (fd f) (fq f) (fk f) (fh f) t (sib f) Hr0 H4 Hnd Hav Hs ltac:(lia)) as HB.
  cbv zeta in HB. inversion HB as [m1 t1 Hr1 Hc1 Hav1 Hin1 Hh1 Hf1 E]. clear HB.
  cbn [mbind option_bind].
  assert (Hin : inorder (plug ctx t1) = inorder (plug (f :: ctx) t)).
  { cbn [plug]. by rewrite !inorder_plug, Hin1. }
  assert (Hfr : forall q, q ∉ addrs (plug (f :: ctx) t) -> nodes m1 !! q = nodes m !! q).
  { intros q Hq. cbn [plug] in Hq. rewrite caddrs_plug in Hq. apply Hf1; set_solver. }
  destruct (Z.eqb_spec (ht t1 - fh f) 0) as [E0|E0].
  - destruct (rep_plug ctx m1 t1 Hr1 Hc1) as [Hr Hroot].
    exists m1, (plug ctx t1). split; [done|]. split; [done|]. split; [done|].
    split; [apply avl_plug; [done|]; by replace (ht t1) with (fh f) by lia|]. done.
  - destruct (IH m1 t1 (fh f)) as (m' & t' & Hm' & Hr' & Hroot & Hav' & Hin' & Hf'); try done.
    + unfold addrs. by rewrite Hin1.
    + destruct (Z.leb_spec (-1) (ht t - ht (sib f))), (Z.leb_spec (ht t - ht (sib f)) 1);
        cbn [andb] in Hh1; lia.
    + exists m', t'. rewrite Hin', Hin. split; [done|]. split; [done|]. split; [done|]. split; [done|].
      split; [done|]. intros q Hq. rewrite Hf'; [by apply Hfr|].
      unfold addrs. by rewrite Hin.
Qed.

(** ** Height bound: an AVL tree on 64-bit addresses fits the array *)
Fixpoint nmin2 (n : nat) : Z * Z :=
  match n with O => (0, 1) | S n => let '(a, b) := nmin2 n in (b, 1 + a + b) end.
Definition nmin (n : nat) : Z := (nmin2 n).1.

Lemma nmin_S n : nmin (S (S n)) = 1 + nmin n + nmin (S n).
Proof. unfold nmin. cbn [nmin2]. destruct (nmin2 n) as [a b]. cbn. lia. Qed.
Lemma nmin_mono1 n : 0 <= nmin n <= nmin (S n).
Proof. induction n as [|n IH]; [cbn; lia|]. rewrite nmin_S. lia. Qed.
Lemma nmin_mono m n : (m <= n)%nat -> nmin m <= nmin n.
Proof. induction 1 as [|n _ IH]; [lia|]. pose proof (nmin_mono1 n). lia. Qed.

Lemma avl_size t : avl t -> nmin (Z.to_nat (ht t)) <= Z.of_nat (length (inorder t)).
Proof.
  induction t as [|q k hh l IHl r IHr]; [done|]. cbn [avl ht inorder]. intros (-> & Hb & Hl & Hr).
  specialize (IHl Hl). specialize (IHr Hr). destruct (avl_ht l Hl), (avl_ht r Hr).
  rewrite length_app. cbn [length].
  destruct (Z.to_nat (1 + ht l `max` ht r)) as [|[|n]] eqn:E; [lia|cbn; lia|].
  rewrite nmin_S. destruct (Z.max_spec (ht l) (ht r)) as [[Hm Em]|[Hm Em]]; rewrite Em in E.
  - assert (nmin n <= nmin (Z.to_nat (ht l))) by (apply nmin_mono; lia).
    replace (Z.to_nat (ht r)) with (S n) in IHr by lia. lia.
  - assert (nmin n <= nmin (Z.to_nat (ht r))) by (apply nmin_mono; lia).
    replace (Z.to_nat (ht l)) with (S n) in IHl by lia. lia.
Qed.

Lemma NoDup_bounded (l : list Z) n : 0 <= n -> NoDup l -> (forall x, x ∈ l -> 0 <= x < n) ->
  Z.of_nat (length l) <= n.
Proof.
  intros Hn Hnd Hb. assert (Hs : l ⊆+ seqZ 0 n).
  { apply NoDup_submseteq; [done|]. intros x Hx. apply elem_of_seqZ. specialize (Hb x Hx). lia. }
  apply submseteq_length in Hs. rewrite length_seqZ in Hs. lia.
Qed.

Lemma avl_bounded t : avl t -> NoDup (addrs t) -> Forall (word 64) (addrs t) -> ht t <= 95.
Proof.
  intros Ha Hnd Hw. destruct (Z.le_gt_cases (ht t) 95) as [|Hgt]; [done|].
  pose proof (avl_size t Ha) as Hs.
  assert (Hm : nmin 96 <= nmin (Z.to_nat (ht t))) by (apply nmin_mono; lia).
  assert (Hl : Z.of_nat (length (addrs t)) <= 2 ^ 64).
  { apply NoDup_bounded; [lia|done|]. intros x Hx. rewrite Forall_forall in Hw. by apply Hw. }
  unfold addrs in Hl. rewrite length_map in Hl.
  assert (Hc : 2 ^ 64 < nmin 96) by (vm_compute; reflexivity). lia.
Qed.

(** ** The order of keys *)
Class KeyOrder (cmp : Z -> Z -> Z) := {
  cmp_anti : forall a b, Z.sgn (cmp a b) = - Z.sgn (cmp b a);
  cmp_trans : forall a b c, cmp a b <= 0 -> cmp b c <= 0 -> cmp a c <= 0
}.

Section Ordered.
Context (cmp : Z -> Z -> Z) `{KO : KeyOrder cmp}.

Lemma cmp_le a b : cmp a b <= 0 <-> 0 <= cmp b a.
Proof. pose proof (cmp_anti a b). destruct (cmp a b), (cmp b a); cbn in *; lia. Qed.
Lemma cmp_lt a b : cmp a b < 0 <-> 0 < cmp b a.
Proof. pose proof (cmp_anti a b). destruct (cmp a b), (cmp b a); cbn in *; lia. Qed.
Lemma cmp_lt_le a b c : cmp a b < 0 -> cmp b c <= 0 -> cmp a c < 0.
Proof.
  intros H1 H2. destruct (Z.lt_ge_cases (cmp a c) 0) as [|H]; [done|].
  apply cmp_le in H. pose proof (cmp_trans b c a H2 H) as H3. apply cmp_le in H3. lia.
Qed.
Lemma cmp_le_lt a b c : cmp a b <= 0 -> cmp b c < 0 -> cmp a c < 0.
Proof.
  intros H1 H2. destruct (Z.lt_ge_cases (cmp a c) 0) as [|H]; [done|].
  apply cmp_le in H. pose proof (cmp_trans c a b H H1) as H3. apply cmp_le in H3. lia.
Qed.

Definition klt (a b : Z) : Prop := cmp a b < 0.
Definition sorted (l : list (Z * Z)) : Prop := StronglySorted klt (map snd l).

(** The tree as a sorted list: finding, inserting and removing a key. *)
Fixpoint find_key (k : Z) (l : list (Z * Z)) : Z :=
  match l with [] => 0 | (q, k') :: l => if cmp k k' =? 0 then q else find_key k l end.
Fixpoint insert_key (q k : Z) (l : list (Z * Z)) : list (Z * Z) :=
  match l with
  | [] => [(q, k)]
  | (q', k') :: l => if cmp k k' <? 0 then (q, k) :: (q', k') :: l else (q', k') :: insert_key q k l
  end.
Definition remove_key (k : Z) (l : list Z) : list Z := filter (fun k' => cmp k k' <> 0) l.

(** The path the search takes. *)
Fixpoint locate (k : Z) (t : tree) (ctx : list frame) : list frame * tree :=
  match t with
  | E => (ctx, E)
  | T q k' hh l r =>
      let c := cmp k k' in
      if c =? 0 then (ctx, t)
      else if c >? 0 then locate k r (mkFrame q k' hh true l :: ctx)
      else locate k l (mkFrame q k' hh false r :: ctx)
  end.

Lemma locate_plug k t : forall ctx, plug (locate k t ctx).1 (locate k t ctx).2 = plug ctx t.
Proof.
  induction t as [|q k' hh l IHl r IHr]; intros ctx; [done|]. cbn [locate].
  destruct (cmp k k' =? 0); [done|]. destruct (cmp k k' >? 0); [by rewrite IHr|by rewrite IHl].
Qed.

Lemma descend_locate m k e max t : forall fuel ctx,
  rep (nodes m) t -> avl t -> ht t < Z.of_nat fuel ->
  Z.of_nat (1 + length (slots ctx ++ e)) + ht t <= max ->
  descend cmp fuel max m k (addr t) (slot_of ctx :: slots ctx ++ e) =
    let '(ctx', t') := locate k t ctx in Some (addr t', slot_of ctx' :: slots ctx' ++ e).
Proof.
  induction t as [|q k' hh l IHl r IHr]; intros [|fuel] ctx Hr Ha Hf Hmax; cbn [ht] in *; try lia.
  { done. } { cbn in Ha. destruct Ha as (-> & _ & Hl & Hr'). destruct (avl_ht l Hl). lia. }
  destruct Hr as (Hq & Hq0 & Hl & Hr), Ha as (Hh & _ & Hal & Har).
  destruct (avl_ht l Hal), (avl_ht r Har).
  cbn [descend locate addr]. replace (q =? 0) with false by lia. unfold get. rewrite Hq.
  cbn [mbind option_bind key]. destruct (cmp k k' =? 0); [done|]. unfold push.
  cbn [length] in *. destruct (Z.ltb_spec (Z.of_nat (S (length (slots ctx ++ e)))) max); [|lia].
  cbn [mbind option_bind]. destruct (cmp k k' >? 0); cbn [child a0 a1].
  - apply (IHr fuel (mkFrame q k' hh true l :: ctx)); try done; [lia|cbn; lia].
  - apply (IHl fuel (mkFrame q k' hh false r :: ctx)); try done; [lia|cbn; lia].
Qed.

Lemma sorted_app l1 l2 : sorted (l1 ++ l2) <-> sorted l1 /\ sorted l2 /\
  (forall x y, x ∈ l1 -> y ∈ l2 -> klt x.2 y.2).
Proof.
  unfold sorted. rewrite map_app. rewrite StronglySorted_app.
  split.
  - intros (H & H1 & H2). split; [done|]. split; [done|]. intros [q k] [q' k'] Hx Hy. apply H.
    + by apply (list_elem_of_fmap_2 snd l1 (q, k)) in Hx.
    + by apply (list_elem_of_fmap_2 snd l2 (q', k')) in Hy.
  - intros (H1 & H2 & H). split; [|done]. intros x y Hx Hy.
    apply list_elem_of_fmap in Hx as ([q k] & -> & Hx). apply list_elem_of_fmap in Hy as ([q' k'] & -> & Hy).
    by apply (H (q, k) (q', k')).
Qed.

Lemma sorted_node q k hh l r : sorted (inorder (T q k hh l r)) <->
  sorted (inorder l) /\ sorted (inorder r) /\ (forall x, x ∈ inorder l -> klt x.2 k) /\
  (forall x, x ∈ inorder r -> klt k x.2) /\ (forall x y, x ∈ inorder l -> y ∈ inorder r -> klt x.2 y.2).
Proof.
  cbn [inorder]. rewrite sorted_app. change ((q, k) :: inorder r) with ([(q, k)] ++ inorder r).
  rewrite sorted_app. split.
  - intros (Hl & (_ & Hr & H1) & H2). repeat split; try done.
    + intros x Hx. apply (H2 x (q, k)); [done|set_solver].
    + intros x Hx. apply (H1 (q, k) x); [set_solver|done].
    + intros x y Hx Hy. apply (H2 x y); [done|set_solver].
  - intros (Hl & Hr & H1 & H2 & H3). repeat split; try done.
    + by repeat constructor.
    + intros x y Hx%list_elem_of_singleton Hy. subst. by apply H2.
    + intros x y Hx [->|Hy]%elem_of_cons; [by apply H1|by apply H3].
Qed.

Lemma locate_order k t : forall ctx, sorted (inorder t) ->
  (forall x, x ∈ lefts ctx -> 0 < cmp k x.2) -> (forall x, x ∈ rights ctx -> cmp k x.2 < 0) ->
  let '(ctx', t') := locate k t ctx in
  (forall x, x ∈ lefts ctx' -> 0 < cmp k x.2) /\ (forall x, x ∈ rights ctx' -> cmp k x.2 < 0) /\
  (t' = E \/ exists q k' hh l r, t' = T q k' hh l r /\ cmp k k' = 0).
Proof.
  induction t as [|q k' hh l IHl r IHr]; intros ctx Hs HL HR; cbn [locate].
  { split; [done|]. split; [done|]. by left. }
  apply sorted_node in Hs as (Hsl & Hsr & H1 & H2 & _).
  destruct (Z.eqb_spec (cmp k k') 0) as [E0|E0].
  { split; [done|]. split; [done|]. right. by exists q, k', hh, l, r. }
  destruct (Z.gtb_spec (cmp k k') 0) as [Hg|Hg].
  - apply IHr; [done| |]; cbn [lefts rights]; unfold left1, right1; cbn [fd sib fq fk]; [|done].
    intros x [Hx|[Hx|Hx%list_elem_of_singleton]%elem_of_app]%elem_of_app; [by apply HL| |by subst].
    apply cmp_lt. apply cmp_lt_le with k'; [by apply H1|]. apply cmp_le. lia.
  - apply IHl; [done| |]; cbn [lefts rights]; unfold left1, right1; cbn [fd sib fq fk];
      [by rewrite app_nil_r|].
    intros x [[->|Hx]%elem_of_cons|Hx]%elem_of_app; [cbn; lia| |by apply HR].
    apply cmp_lt_le with k'; [lia|]. pose proof (H2 x Hx) as Hlt. unfold klt in Hlt. lia.
Qed.

Lemma find_mid k L q k' R : (forall x, x ∈ L -> cmp k x.2 <> 0) -> cmp k k' = 0 ->
  find_key k (L ++ (q, k') :: R) = q.
Proof.
  intros HL Hk. induction L as [|[q1 k1] L IH]; cbn.
  - by rewrite Hk.
  - pose proof (HL (q1, k1) ltac:(set_solver)) as H. cbn in H. apply Z.eqb_neq in H. rewrite H.
    apply IH. intros x Hx. apply HL. set_solver.
Qed.

Lemma find_none k L : (forall x, x ∈ L -> cmp k x.2 <> 0) -> find_key k L = 0.
Proof.
  intros HL. induction L as [|[q1 k1] L IH]; cbn; [done|].
  pose proof (HL (q1, k1) ltac:(set_solver)) as H. cbn in H. apply Z.eqb_neq in H. rewrite H.
  apply IH. intros x Hx. apply HL. set_solver.
Qed.

Lemma insert_mid q k L R : (forall x, x ∈ L -> 0 < cmp k x.2) -> (forall x, x ∈ R -> cmp k x.2 < 0) ->
  insert_key q k (L ++ R) = L ++ (q, k) :: R.
Proof.
  intros HL HR. induction L as [|[q1 k1] L IH]; cbn.
  - destruct R as [|[q2 k2] R]; [done|]. cbn.
    pose proof (HR (q2, k2) ltac:(set_solver)) as H. cbn in H. by apply Z.ltb_lt in H as ->.
  - pose proof (HL (q1, k1) ltac:(set_solver)) as H. cbn in H.
    destruct (Z.ltb_spec (cmp k k1) 0); [lia|]. f_equal. apply IH. intros x Hx. apply HL. set_solver.
Qed.

(** ** The search functions *)

(** The memory holds the tree [t] at the root: a sorted AVL tree. *)
Record wf (m : mem) (t : tree) : Prop := mkWf {
  wf_rep : rep (nodes m) t;
  wf_root : root m = addr t;
  wf_nodup : NoDup (addrs t);
  wf_words : Forall (word 64) (addrs t);
  wf_avl : avl t;
  wf_sorted : sorted (inorder t)
}.

(** [tsearch]'s and [tfind]'s search, from the root. *)
Lemma search_ok m t k max e : wf m t -> 96 + Z.of_nat (length e) <= max ->
  exists ctx' t', locate k t [] = (ctx', t') /\ plug ctx' t' = t /\
    descend cmp FUEL max m k (root m) (Root :: e) = Some (addr t', slot_of ctx' :: slots ctx' ++ e) /\
    (forall x, x ∈ lefts ctx' -> 0 < cmp k x.2) /\ (forall x, x ∈ rights ctx' -> cmp k x.2 < 0) /\
    ((t' = E /\ find_key k (inorder t) = 0) \/
     (exists q k' hh l r, t' = T q k' hh l r /\ cmp k k' = 0 /\ find_key k (inorder t) = q)).
Proof.
  intros [Hr Hroot Hnd Hw Ha Hs] Hmax. pose proof (avl_bounded t Ha Hnd Hw) as Hh.
  pose proof (locate_plug k t []) as Hp. pose proof (descend_locate m k e max t FUEL []) as Hd.
  pose proof (locate_order k t [] Hs) as Ho.
  destruct (locate k t []) as [ctx' t'] eqn:El. cbn [fst snd plug] in Hp. exists ctx', t'.
  split; [done|]. split; [done|]. cbn [slots slot_of app] in Hd. rewrite Hroot.
  assert (HF : ht t < Z.of_nat FUEL) by (clear - Hh; change (Z.of_nat FUEL) with 98; lia).
  assert (HM : Z.of_nat (1 + length e) + ht t <= max) by (clear - Hmax Hh; lia).
  rewrite (Hd Hr Ha HF HM). split; [done|].
  destruct Ho as (HL & HR & Ht); [by intros x ?%elem_of_nil|by intros x ?%elem_of_nil|]. split; [done|]. split; [done|].
  rewrite <- Hp, inorder_plug. destruct Ht as [->|(q & k' & hh & l & r & -> & Hk)].
  - left. split; [done|]. apply find_none. cbn. intros x [Hx|Hx]%elem_of_app.
    + specialize (HL x Hx). lia.
    + specialize (HR x Hx). lia.
  - right. exists q, k', hh, l, r. split; [done|]. split; [done|]. cbn [inorder].
    rewrite <- !app_assoc. cbn [app]. rewrite app_assoc. apply find_mid; [|done].
    rewrite <- Hp, inorder_plug in Hs. apply sorted_app in Hs as (_ & Hs & _).
    apply sorted_app in Hs as (Hs & _ & _). apply sorted_node in Hs as (_ & _ & H1 & _).
    intros x [Hx|Hx]%elem_of_app; [specialize (HL x Hx); lia|].
    assert (Hlt : cmp x.2 k < 0). { apply cmp_lt_le with k'; [by apply H1|]. apply cmp_le. lia. }
    apply cmp_lt in Hlt. lia.
Qed.

Lemma wf_plug m ctx t : wf m (plug ctx t) ->
  rep (nodes m) t /\ rep_ctx m ctx (addr t) /\ avl t /\ avl_ctx ctx (ht t) /\
  NoDup (addrs t ++ caddrs ctx).
Proof.
  intros [Hr Hroot Hnd Hw Ha Hs]. destruct (plug_rep ctx m t Hr Hroot) as [H1 H2].
  destruct (plug_avl ctx t Ha) as [H3 H4]. rewrite caddrs_plug in Hnd. done.
Qed.

Lemma insert_sorted q k L R : sorted (L ++ R) -> (forall x, x ∈ L -> 0 < cmp k x.2) ->
  (forall x, x ∈ R -> cmp k x.2 < 0) -> sorted (L ++ (q, k) :: R).
Proof.
  intros (HL & HR & HLR)%sorted_app H1 H2. change ((q, k) :: R) with ([(q, k)] ++ R).
  rewrite !sorted_app. repeat split; try done.
  - by repeat constructor.
  - intros x y ->%list_elem_of_singleton Hy. by apply H2.
  - intros x y Hx [->%list_elem_of_singleton|Hy]%elem_of_app; [by apply cmp_lt, H1|by apply HLR].
Qed.

(** Linking a new leaf into the hole of a context and rebalancing. *)
Lemma link_ok m ctx k r : wf m (plug ctx E) -> word 64 r -> r <> 0 -> r ∉ addrs (plug ctx E) ->
  (forall x, x ∈ lefts ctx -> 0 < cmp k x.2) -> (forall x, x ∈ rights ctx -> cmp k x.2 < 0) ->
  exists m' t', (m' ← write (mkMem (root m) (<[r := mkNode k 0 0 1]> (nodes m))) (slot_of ctx) r;
                 rebalance m' (slots ctx)) = Some m' /\
    wf m' t' /\ inorder t' = insert_key r k (inorder (plug ctx E)) /\
    (forall q, q ∉ addrs (plug ctx E) -> q <> r -> nodes m' !! q = nodes m !! q).
Proof.
  intros Hwf Hw Hr0 Hr HL HR. destruct (wf_plug m ctx E Hwf) as (_ & Hc & _ & Hax & Hnd).
  rewrite caddrs_plug in Hr. cbn [addrs inorder map app] in Hnd, Hr.
  destruct (write_ctx (mkMem (root m) (<[r := mkNode k 0 0 1]> (nodes m))) ctx 0 r) as (m1 & Hm1 & Hc1 & Hf1);
    [|done|].
  { apply rep_ctx_same; [|done]. intros q Hq. rewrite lookup_insert_ne; [done|congruence]. }
  rewrite Hm1. cbn [mbind option_bind].
  destruct (rebalance_ok ctx m1 (T r k 1 E E) 0) as (m' & t' & Hm' & Hr' & Hroot' & Ha' & Hin' & Hf').
  - cbn. rewrite Hf1 by done. cbn [nodes]. by rewrite lookup_insert_eq.
  - done.
  - cbn. by apply NoDup_cons.
  - cbn. repeat split; lia.
  - done.
  - cbn. lia.
  - assert (Hins : inorder t' = lefts ctx ++ (r, k) :: rights ctx) by (by rewrite Hin', inorder_plug).
    assert (Hperm : addrs t' ≡ₚ r :: addrs (plug ctx E)).
    { rewrite caddrs_plug. unfold addrs, caddrs. rewrite Hins, !map_app. cbn. solve_Permutation. }
    destruct Hwf as [_ _ Hnd0 Hw0 _ Hs0]. rewrite inorder_plug in Hs0. cbn [inorder app] in Hs0.
    exists m', t'. split; [done|]. split; [|split].
    + split; try done.
      * rewrite Hperm. apply NoDup_cons. split; [|done]. by rewrite caddrs_plug.
      * rewrite Hperm. by apply Forall_cons.
      * rewrite Hins. by apply insert_sorted.
    + rewrite inorder_plug, Hins. symmetry. by apply insert_mid.
    + intros q Hq Hqr. rewrite caddrs_plug in Hq. rewrite Hf'.
      * rewrite Hf1 by done. cbn [nodes]. rewrite lookup_insert_ne; [done|congruence].
      * rewrite caddrs_plug. cbn. rewrite elem_of_cons. tauto.
Qed.

(** The result of [tsearch], its tree and its memory. *)
Lemma tsearch_ok m t k r : wf m t -> (r = 0 \/ (word 64 r /\ r ∉ addrs t)) ->
  let found := find_key k (inorder t) in
  exists m' t', tsearch cmp m true k r = Some (m', if found =? 0 then r else found) /\ wf m' t' /\
    (if (found =? 0) && negb (r =? 0) then inorder t' = insert_key r k (inorder t) else m' = m /\ t' = t) /\
    (forall q, q ∉ addrs t -> q <> r -> nodes m' !! q = nodes m !! q).
Proof.
  intros Hwf Hr found. unfold found, tsearch. cbn [negb read mbind option_bind]. unfold push at 1.
  change (Z.of_nat (length ([] : list slot)) <? MAXH) with true. cbv iota. cbn [mbind option_bind].
  destruct (search_ok m t k MAXH [] Hwf) as (ctx & t1 & _ & Hp & Hd & HL & HR & Ht); [done|].
  rewrite Hd, app_nil_r. cbn [mbind option_bind].
  destruct Ht as [[-> Hf]|(q & k' & hh & l & g & -> & Hk & Hf)]; rewrite Hf.
  - cbn [addr negb Z.eqb andb]. destruct (Z.eqb_spec r 0) as [->|Hr0]; cbn [negb].
    + exists m, t. done.
    + destruct Hr as [Hr|[Hw Hr]]; [done|]. rewrite <- Hp in *.
      destruct (link_ok m ctx k r Hwf Hw Hr0 Hr HL HR) as (m' & t' & Hm' & Hwf' & Hin & Hfr).
      exists m', t'. split; [|done].
      destruct (write _ _ r) as [m1|]; cbn [mbind option_bind] in *; [|done]. by rewrite Hm'.
  - rewrite <- Hp in Hwf. destruct (wf_plug _ _ _ Hwf) as ((_ & Hq & _) & _).
    cbn [addr]. replace (q =? 0) with false by lia. cbn [negb andb]. rewrite Hp in Hwf. by exists m, t.
Qed.

Lemma descend_tfind max m k : forall fuel n a p a',
  descend cmp fuel max m k n a = Some (p, a') -> tfind_loop cmp fuel m k n = Some p.
Proof.
  induction fuel as [|fuel IH]; intros n a p a' H; cbn [descend tfind_loop] in *; [done|].
  destruct (n =? 0); [by injection H as -> _|]. destruct (get m n) as [nd|]; cbn in *; [|done].
  destruct (cmp k (key nd) =? 0); [by injection H as -> _|]. unfold push in H.
  destruct (Z.of_nat (length a) <? max); cbn in H; [|done]. by eapply IH.
Qed.

Lemma tfind_ok m t k : wf m t -> tfind cmp m true k = Some (find_key k (inorder t)).
Proof.
  intros Hwf. unfold tfind. cbn [negb read mbind option_bind].
  destruct (search_ok m t k MAXH [] Hwf) as (ctx & t1 & _ & _ & Hd & _ & _ & Ht); [done|].
  rewrite (descend_tfind _ _ _ _ _ _ _ _ Hd).
  destruct Ht as [[-> ->]|(q & k' & hh & l & g & -> & _ & ->)]; done.
Qed.

(** ** Deletion *)
Lemma rebalance_del_slots a s : forall m, rebalance_del m (a ++ [s]) = rebalance m a.
Proof.
  induction a as [|p a IH]; intros m; [done|]. cbn [app rebalance].
  destruct (a ++ [s]) as [|b bs] eqn:Hb; [by destruct a|]. cbn [rebalance_del].
  destruct (tsearch_balance m p) as [[m' r]|]; cbn [mbind option_bind]; [|done].
  destruct (r =? 0); [done|]. apply IH.
Qed.

(** Unlinking a node [q] with at most one child [c]. *)
Lemma unlink_ok m ctx q k hh l r c : rep (nodes m) (T q k hh l r) -> rep_ctx m ctx q ->
  (l = E /\ c = r \/ r = E /\ c = l) -> NoDup (addrs (T q k hh l r) ++ caddrs ctx) ->
  avl (T q k hh l r) -> avl_ctx ctx hh ->
  exists m' t', (m1 ← free m q; m1 ← write m1 (slot_of ctx) (addr c);
                 rebalance_del m1 (slots ctx ++ [Root])) = Some m' /\
    rep (nodes m') t' /\ root m' = addr t' /\ avl t' /\
    inorder t' = lefts ctx ++ inorder c ++ rights ctx /\ nodes m' !! q = None /\
    (forall p, p ∉ addrs (plug ctx c) -> p <> q -> nodes m' !! p = nodes m !! p).
Proof.
  intros (Hq & Hq0 & Hl & Hr) Hc Hcase Hnd (Hh & Hb & Hal & Har) Hax.
  destruct (NoDup_mk false q k hh l r (caddrs ctx) Hnd) as (H1 & H2 & H3 & H4 & H5 & _).
  assert (Hrc : rep (nodes m) c /\ avl c /\ hh = 1 + ht c /\ (q ∉ addrs c) /\ NoDup (addrs c ++ caddrs ctx)).
  { destruct (avl_ht l Hal), (avl_ht r Har). destruct Hcase as [[-> ->]|[-> ->]]; cbn [ht] in *.
    - repeat split; try done. lia.
    - repeat split; try done. lia. }
  destruct Hrc as (Hrc & Hac & Ehh & Hqc & Hndc).
  unfold free, get. rewrite Hq. cbn [mbind option_bind].
  destruct (write_ctx (mkMem (root m) (delete q (nodes m))) ctx q (addr c)) as (m1 & Hm1 & Hc1 & Hf1).
  { apply rep_ctx_same; [|done]. intros p Hp. rewrite lookup_delete_ne; [done|congruence]. }
  { by apply NoDup_app in Hndc as (_ & _ & ?). }
  rewrite Hm1. cbn [mbind option_bind]. rewrite rebalance_del_slots.
  destruct (rebalance_ok ctx m1 c hh) as (m' & t' & Hm' & Hr' & Hroot' & Ha' & Hin' & Hf'); try done.
  - apply (rep_frame (nodes m)); [|done]. intros p Hp. rewrite Hf1.
    + cbn [nodes]. rewrite lookup_delete_ne; [done|congruence].
    + apply NoDup_app in Hndc as (_ & Hd & _). by apply Hd.
  - lia.
  - exists m', t'. repeat (split; [done|]). split; [by rewrite Hin', inorder_plug|].
    assert (Hqp : q ∉ addrs (plug ctx c)) by (rewrite caddrs_plug; set_solver).
    split.
    + rewrite Hf', Hf1 by done. cbn [nodes]. apply lookup_delete_eq.
    + intros p Hp Hpq. rewrite Hf' by done. rewrite caddrs_plug in Hp. rewrite Hf1 by set_solver.
      cbn [nodes]. rewrite lookup_delete_ne; [done|congruence].
Qed.

Lemma plug_app c1 c2 : forall t, plug (c1 ++ c2) t = plug c2 (plug c1 t).
Proof. induction c1 as [|f c1 IH]; intros t; [done|]. cbn. apply IH. Qed.

(** The search for the preceding node. *)
Lemma rightmost_ok m e : forall t fuel ctx,
  rep (nodes m) t -> avl t -> t <> E -> ht t < Z.of_nat fuel ->
  Z.of_nat (1 + length (slots ctx ++ e)) + ht t <= MAXH + 1 ->
  exists c q k hh l, plug c (T q k hh l E) = t /\ rights c = [] /\
    rightmost fuel m (addr t) (slot_of ctx :: slots ctx ++ e) =
      Some (q, slot_of (c ++ ctx) :: slots (c ++ ctx) ++ e).
Proof.
  induction t as [|q k hh l IHl r IHr]; intros [|fuel] ctx Hr Ha Hne Hf Hmax; try done.
  { cbn in *. destruct Ha as (-> & _ & Hl & Hr'). destruct (avl_ht l Hl). lia. }
  destruct Hr as (Hq & Hq0 & Hl & Hr), Ha as (Hh & _ & Hal & Har).
  destruct (avl_ht l Hal), (avl_ht r Har). cbn [rightmost addr ht] in *.
  unfold get_child, get. rewrite Hq. cbn [mbind option_bind child a1].
  destruct r as [|q' k' hh' l' r'].
  { exists [], q, k, hh, l. done. }
  destruct Hr as (Hq' & Hq0' & Hl' & Hr'). cbn [addr].
  replace (q' =? 0) with false by lia. unfold push.
  destruct (Z.ltb_spec (Z.of_nat (length (slot_of ctx :: slots ctx ++ e))) (MAXH + 1)); [|cbn [length] in *; lia].
  cbn [mbind option_bind].
  destruct (IHr fuel (mkFrame q k hh true l :: ctx)) as (c & q1 & k1 & h1 & l1 & Hp & Hri & Hd);
    try done; [cbn [ht] in *; lia|cbn [slots app length ht] in *; lia|].
  exists (c ++ [mkFrame q k hh true l]), q1, k1, h1, l1. split; [rewrite plug_app, Hp; done|].
  rewrite <- app_assoc. split; [|exact Hd].
  clear - Hri. induction c as [|f c IH]; [done|]. cbn in *.
  apply app_nil in Hri as [-> Hc]. by apply IH.
Qed.

Lemma slots_length ctx : length (slots ctx) = length ctx.
Proof. induction ctx as [|f ctx IH]; cbn; congruence. Qed.

Lemma depth_bound ctx : forall t, avl_ctx ctx (ht t) -> Z.of_nat (length ctx) + ht t <= ht (plug ctx t).
Proof.
  induction ctx as [|f ctx IH]; intros t Hc; [cbn; lia|]. cbn [plug avl_ctx length] in *.
  destruct Hc as (H1 & _ & _ & H2).
  specialize (IH (mk (fd f) (fq f) (fk f) (fh f) t (sib f))). rewrite ht_mk in IH.
  specialize (IH H2). lia.
Qed.

(** [pr] is what is returned for the node [q]: its parent, or the root itself. *)
Definition parent_of (m : mem) (q pr : Z) : Prop :=
  root m = q /\ pr = q \/ exists d, get_child m pr d = Some q.

(** The second slot from the top holds the parent, or the root itself. *)
Lemma parent_ok m ctx t : rep (nodes m) t -> t <> E -> rep_ctx m ctx (addr t) ->
  exists s pr, (slot_of ctx :: slots ctx ++ [Root]) !! 1%nat = Some s /\ read m s = Some pr /\
    pr ∈ addrs (plug ctx t) /\ parent_of m (addr t) pr.
Proof.
  intros Hr Hne Hc. pose proof (read_ctx m ctx _ Hc) as Hrd. destruct t as [|q k hh l r]; [done|]. destruct ctx as [|f ctx]; cbn [slots app].
  - exists Root, q. cbn in Hc. split; [done|]. split; [by rewrite <- Hc|].
    split; [apply (addrs_mk q false q k hh l r); by left|]. by left.
  - destruct Hc as (_ & _ & _ & Hc). exists (slot_of ctx), (fq f). split; [done|].
    split; [by apply read_ctx|]. split; [|right; exists (fd f); exact Hrd].
    cbn [plug]. rewrite caddrs_plug. apply elem_of_app. left. rewrite addrs_mk. by left.
Qed.

Lemma remove_none k (l : list (Z * Z)) : (forall x, x ∈ l -> cmp k x.2 <> 0) ->
  remove_key k (map snd l) = map snd l.
Proof.
  unfold remove_key. induction l as [|x l IH]; intros Hl; [done|]. cbn [map].
  rewrite filter_cons_True by (apply Hl; set_solver). rewrite IH; [done|]. set_solver.
Qed.

Lemma remove_mid k L q k' R : sorted (L ++ (q, k') :: R) -> cmp k k' = 0 ->
  remove_key k (map snd (L ++ (q, k') :: R)) = map snd (L ++ R) /\ sorted (L ++ R).
Proof.
  change ((q, k') :: R) with ([(q, k')] ++ R). rewrite !sorted_app.
  intros (HL & (_ & HR & H2) & H1) Hk. split.
  - unfold remove_key. rewrite !map_app, !filter_app. cbn [map snd].
    rewrite filter_cons_False by (rewrite Hk; tauto). rewrite filter_nil. cbn [app].
    fold (remove_key k (map snd L)) (remove_key k (map snd R)). rewrite !remove_none; [done| |].
    + intros x Hx. pose proof (H2 (q, k') x ltac:(set_solver) Hx) as Hlt. unfold klt in Hlt. cbn in Hlt.
      pose proof (cmp_le_lt k k' x.2). lia.
    + intros x Hx. pose proof (H1 x (q, k') Hx ltac:(set_solver)) as Hlt. unfold klt in Hlt. cbn in Hlt.
      assert (Hxk : cmp x.2 k < 0) by (apply cmp_lt_le with k'; [done|apply cmp_le; lia]).
      apply cmp_lt in Hxk. lia.
  - repeat split; try done. intros x y Hx Hy. apply H1; set_solver.
Qed.

Lemma sorted_keys l l' : map snd l = map snd l' -> sorted l -> sorted l'.
Proof. unfold sorted. by intros ->. Qed.

(** The last part of [tdelete], from the node [q] to unlink. *)
Definition unlink (m : mem) (n : Z) (a : list slot) (child parent : Z) : option (mem * Z) :=
  m ← free m n;
  match a with
  | [] => None
  | s :: a => m ← write m s child; m ← rebalance_del m a; Some (m, parent)
  end.

Lemma unlink_eq m q s a c parent m' :
  (m1 ← free m q; m1 ← write m1 s c; rebalance_del m1 a) = Some m' ->
  unlink m q (s :: a) c parent = Some (m', parent).
Proof.
  unfold unlink. destruct (free m q) as [m1|]; cbn [mbind option_bind]; [|done].
  destruct (write m1 s c) as [m2|]; cbn [mbind option_bind]; [|done]. by intros ->.
Qed.

(** Deleting the node [q] found in the context [ctx], when it has no left
    child and when it has one. *)
Definition deleted (m : mem) (t : tree) (k : Z) (m' : mem) : Prop :=
  exists t' freed, wf m' t' /\ map snd (inorder t') = remove_key k (map snd (inorder t)) /\
    addrs t ≡ₚ freed :: addrs t' /\ nodes m' !! freed = None /\
    (forall p, p ∉ addrs t -> nodes m' !! p = nodes m !! p).

Lemma delete_right m ctx q k k' hh g parent : wf m (plug ctx (T q k' hh E g)) -> cmp k k' = 0 ->
  exists m', unlink m q (slot_of ctx :: slots ctx ++ [Root]) (addr g) parent = Some (m', parent) /\
    deleted m (plug ctx (T q k' hh E g)) k m'.
Proof.
  intros Hwf Hk. destruct (wf_plug _ _ _ Hwf) as (Hr & Hc & Ha & Hax & Hnd).
  destruct (unlink_ok m ctx q k' hh E g g) as (m' & t' & Hm' & Hr' & Hroot & Ha' & Hin & Hq & Hf);
    try done; [by left|].
  exists m'. split; [by apply unlink_eq|]. destruct Hwf as [_ _ Hnd0 Hw Ha0 Hs].
  assert (Hp : addrs (plug ctx (T q k' hh E g)) ≡ₚ q :: addrs t').
  { unfold addrs. rewrite inorder_plug, Hin. cbn [inorder app]. rewrite !map_app. cbn [map fst].
    rewrite map_app. solve_Permutation. }
  rewrite inorder_plug in Hs. cbn [inorder app] in Hs.
  destruct (remove_mid k _ _ _ _ Hs Hk) as [Hrm Hs'].
  exists t', q. split; [split|]; try done.
  - rewrite Hp in Hnd0. by apply NoDup_cons in Hnd0 as [_ ?].
  - rewrite Hp in Hw. by apply Forall_cons in Hw as [_ ?].
  - by rewrite Hin.
  - split; [|split; [done|split; [done|]]].
    + rewrite inorder_plug. cbn [inorder app]. by rewrite Hrm, Hin.
    + intros p Hpp. rewrite Hp in Hpp. apply Hf; [|set_solver].
      rewrite caddrs_plug. unfold addrs in *. rewrite Hin in Hpp. unfold caddrs.
      rewrite !map_app in *. set_solver.
Qed.

Lemma slots_rekey c q k k' hh d g ctx :
  slot_of (c ++ mkFrame q k hh d g :: ctx) = slot_of (c ++ mkFrame q k' hh d g :: ctx) /\
  slots (c ++ mkFrame q k hh d g :: ctx) = slots (c ++ mkFrame q k' hh d g :: ctx).
Proof.
  induction c as [|f c [IH1 IH2]]; [done|]. cbn [app slots slot_of]. by rewrite IH1, IH2.
Qed.

(** Overwriting the key of a node. *)
Lemma put_key_ok m ctx q k k' hh l g : wf m (plug ctx (T q k hh l g)) ->
  exists m1, put m q (fun d => with_key d k') = Some m1 /\
    rep (nodes m1) (plug ctx (T q k' hh l g)) /\ root m1 = addr (plug ctx (T q k' hh l g)) /\
    avl (plug ctx (T q k' hh l g)) /\
    addrs (plug ctx (T q k' hh l g)) = addrs (plug ctx (T q k hh l g)) /\
    (forall p, p <> q -> nodes m1 !! p = nodes m !! p).
Proof.
  intros Hwf. destruct (wf_plug _ _ _ Hwf) as ((Hq & Hq0 & Hl & Hg) & Hc & Ha & Hax & Hnd).
  destruct (NoDup_mk false q k hh l g _ Hnd) as (H1 & H2 & H3 & _).
  unfold put, get. rewrite Hq. cbn [mbind option_bind]. unfold with_key. cbn [a0 a1 h].
  set (hp := <[q := mkNode k' (addr l) (addr g) hh]> (nodes m)). exists (mkMem (root m) hp).
  split; [done|].
  destruct (rep_plug ctx (mkMem (root m) hp) (T q k' hh l g)) as [Hr' Hroot'].
  - cbn [nodes]. split; [apply lookup_insert_eq|]. split; [done|]. split; by apply rep_insert.
  - apply rep_ctx_same; [|done]. intros p Hp. unfold hp. rewrite lookup_insert_ne; [done|congruence].
  - split; [done|]. split; [done|]. split; [by apply avl_plug|]. split.
    + unfold addrs. rewrite !inorder_plug. cbn. by rewrite !map_app.
    + intros p Hp. cbn. unfold hp. rewrite lookup_insert_ne; [done|congruence].
Qed.

Lemma delete_left m ctx q k k' hh l g parent : wf m (plug ctx (T q k' hh l g)) -> l <> E ->
  cmp k k' = 0 -> ht (plug ctx (T q k' hh l g)) <= 95 ->
  exists m' q' nd a m1, rightmost FUEL m (addr l) (Field q false :: slot_of ctx :: slots ctx ++ [Root]) =
      Some (q', a) /\ get m q' = Some nd /\ put m q (fun d => with_key d (key nd)) = Some m1 /\
    unlink m1 q' a (a0 nd) parent = Some (m', parent) /\ deleted m (plug ctx (T q k' hh l g)) k m'.
Proof.
  intros Hwf Hl0 Hk Hh. destruct (wf_plug _ _ _ Hwf) as ((Hq & Hq0 & Hl & Hg) & Hc & Ha & Hax & Hnd).
  pose proof (depth_bound ctx (T q k' hh l g) Hax) as Hd. cbn [ht avl] in Hd, Ha.
  destruct Ha as (Ehh & Hb & Hal & Hag). destruct (avl_ht l Hal), (avl_ht g Hag).
  destruct (rightmost_ok m [Root] l FUEL (mkFrame q k' hh false g :: ctx) Hl Hal Hl0)
    as (c & q' & kk & h' & l' & Hp & Hri & Hrm).
  { change (Z.of_nat FUEL) with 98. lia. }
  { change (MAXH + 1) with 97. rewrite length_app, slots_length. cbn [length]. lia. }
  cbn [slot_of slots app fq fd] in Hrm.
  destruct (put_key_ok m ctx q k' kk hh l g Hwf) as (m1 & Hm1 & Hr1 & Hroot1 & Ha1 & Had1 & Hf1).
  set (ctx' := c ++ mkFrame q kk hh false g :: ctx).
  assert (Hpl : forall t, plug ctx' t = plug ctx (T q kk hh (plug c t) g)).
  { intros t. unfold ctx'. by rewrite plug_app. }
  rewrite <- Hp in Hr1, Hroot1, Ha1, Had1. rewrite <- Hpl in Hr1, Hroot1, Ha1, Had1.
  destruct (plug_rep _ _ _ Hr1 Hroot1) as [Hrq Hcq]. destruct (plug_avl _ _ Ha1) as [Haq Hxq].
  pose proof (wf_nodup _ _ Hwf) as Hnd0. rewrite <- Hp, <- Had1, caddrs_plug in Hnd0.
  assert (Hnq : get m q' = Some (mkNode kk (addr l') 0 h')).
  { rewrite <- Hp in Hl. pose proof (plug_rep c (mkMem (addr (plug c (T q' kk h' l' E))) (nodes m)) _ Hl eq_refl)
      as [(Hn & _) _]. exact Hn. }
  destruct (unlink_ok m1 ctx' q' kk h' l' E l' Hrq Hcq) as (m' & t' & Hm' & Hr' & Hroot & Ha' & Hin & Hq' & Hf);
    try done; [by right|].
  exists m', q', (mkNode kk (addr l') 0 h'), (slot_of ctx' :: slots ctx' ++ [Root]), m1.
  split.
  { rewrite Hrm. destruct (slots_rekey c q k' kk hh false g ctx) as [-> ->]. done. }
  split; [done|]. split; [done|]. split; [by apply unlink_eq|].
  destruct Hwf as [_ _ Hnd1 Hw1 _ Hs].
  (* the lists before and after *)
  assert (Hbefore : inorder (plug ctx (T q k' hh l g)) =
    (lefts ctx ++ (lefts c ++ inorder l') ++ [(q', kk)]) ++ (q, k') :: inorder g ++ rights ctx).
  { rewrite <- Hp, inorder_plug. cbn [inorder]. rewrite inorder_plug, Hri. cbn [inorder].
    rewrite app_nil_r, <- !app_assoc. done. }
  assert (Hafter : inorder t' = (lefts ctx ++ (lefts c ++ inorder l')) ++ (q, kk) :: inorder g ++ rights ctx).
  { rewrite Hin, <- inorder_plug, Hpl, inorder_plug. cbn [inorder]. rewrite inorder_plug, Hri, app_nil_r.
    rewrite <- !app_assoc. done. }
  rewrite Hbefore in Hs. destruct (remove_mid k _ _ _ _ Hs Hk) as [Hrm' Hs'].
  assert (Hkeys : map snd (inorder t') = remove_key k (map snd (inorder (plug ctx (T q k' hh l g))))).
  { rewrite Hbefore, Hrm', Hafter, !map_app. cbn. rewrite !map_app, <- !app_assoc. done. }
  assert (Hadr : addrs (plug ctx (T q k' hh l g)) ≡ₚ q' :: addrs t').
  { unfold addrs. rewrite Hbefore, Hafter, (app_assoc (lefts ctx)), !map_app.
    cbn [map fst]. by rewrite <- Permutation_cons_append. }
  exists t', q'. split; [split|]; try done.
  - rewrite Hadr in Hnd1. by apply NoDup_cons in Hnd1 as [_ ?].
  - rewrite Hadr in Hw1. by apply Forall_cons in Hw1 as [_ ?].
  - apply (sorted_keys ((lefts ctx ++ (lefts c ++ inorder l') ++ [(q', kk)]) ++ inorder g ++ rights ctx));
      [|done]. rewrite Hafter, !map_app. cbn [map snd]. rewrite !map_app, <- !app_assoc. done.
  - split; [done|]. split; [done|]. split; [done|]. intros p Hpp. rewrite Hadr, elem_of_cons in Hpp.
    assert (Hpt : p ∉ addrs t') by (clear - Hpp; tauto). clear Hadr.
    assert (Hpq : p <> q).
    { intros ->. apply Hpt. unfold addrs. rewrite Hafter, map_app. apply elem_of_app. right.
      apply elem_of_cons. by left. }
    rewrite Hf; [by apply Hf1| |clear - Hpp; tauto].
    unfold addrs. by rewrite inorder_plug, <- Hin.
Qed.

Lemma push_ok max a s : Z.of_nat (length a) < max -> push max a s = Some (s :: a).
Proof. intros H. unfold push. by apply Z.ltb_lt in H as ->. Qed.

Lemma tdelete_ok m t k : wf m t ->
  let found := find_key k (inorder t) in
  if found =? 0 then tdelete cmp m true k = Some (m, 0)
  else exists m' parent, tdelete cmp m true k = Some (m', parent) /\ parent ∈ addrs t /\
    parent_of m found parent /\ deleted m t k m'.
Proof.
  intros Hwf found. unfold found, tdelete. cbn [negb read mbind option_bind]. rewrite (push_ok (MAXH + 1) []) by done.
  cbn [mbind option_bind]. rewrite (push_ok (MAXH + 1) [Root]) by done. cbn [mbind option_bind].
  destruct (search_ok m t k (MAXH + 1) [Root] Hwf) as (ctx & t1 & _ & Hp & Hd & HL & HR & Ht); [done|].
  rewrite Hd. cbn [mbind option_bind]. clear Hd.
  destruct Ht as [[-> Hf]|(q & k' & hh & l & g & -> & Hk & Hf)]; rewrite Hf; [done|].
  pose proof (avl_bounded t (wf_avl _ _ Hwf) (wf_nodup _ _ Hwf) (wf_words _ _ Hwf)) as Hh.
  rewrite <- Hp in *. destruct (wf_plug _ _ _ Hwf) as (Hr & Hc & Ha & Hax & _).
  pose proof (depth_bound ctx (T q k' hh l g) Hax) as Hdb. cbn [ht] in Hdb.
  destruct (parent_ok m ctx (T q k' hh l g) Hr) as (s & pr & Hs & Hpr & Hin & Hpo); [done|done|].
  destruct Hr as (Hq & Hq0 & Hl & Hg). cbn [addr]. replace (q =? 0) with false by lia.
  rewrite Hs. cbn [mbind option_bind]. rewrite Hpr. cbn [mbind option_bind].
  assert (Hgc : forall d, get_child m q d = Some (if d then addr g else addr l)).
  { intros d. unfold get_child, get. rewrite Hq. by destruct d. }
  rewrite !Hgc. cbn [mbind option_bind].
  destruct l as [|ql kl hl ll lr].
  - cbn [addr Z.eqb negb mbind option_bind].
    destruct (delete_right m ctx q k k' hh g pr Hwf Hk) as (m' & Hm' & Hdel).
    exists m', pr. split; [exact Hm'|done].
  - destruct Hl as (Hql & Hql0 & Hl). cbn [addr]. replace (ql =? 0) with false by lia. cbn [negb].
    assert (Hlen : Z.of_nat (length (slot_of ctx :: slots ctx ++ [Root])) < MAXH + 1).
    { cbn [length]. rewrite length_app, slots_length. cbn [length avl] in *.
      destruct Ha as (Ehh & _ & Hal & Hag). destruct (avl_ht (T ql kl hl ll lr) Hal), (avl_ht g Hag).
      change (MAXH + 1) with 97. lia. }
    rewrite (push_ok _ _ _ Hlen). cbn [mbind option_bind].
    destruct (delete_left m ctx q k k' hh (T ql kl hl ll lr) g pr Hwf) as
      (m' & q' & nd & a & m1 & Hrm & Hnd & Hput & Hun & Hdel); [done|done|done|].
    cbn [addr] in Hrm. rewrite Hrm. cbn [mbind option_bind]. rewrite Hnd.
    cbn [mbind option_bind]. rewrite Hput. cbn [mbind option_bind].
    exists m', pr. split; [exact Hun|done].
Qed.

(** ** Walking and destroying *)
Fixpoint visits (t : tree) (d : Z) : list (Z * VISIT * Z) :=
  match t with
  | E => []
  | T q _ _ E E => [(q, leaf, d)]
  | T q _ _ l r =>
      (q, preorder, d) :: visits l (d + 1) ++ (q, postorder, d) :: visits r (d + 1) ++ [(q, endorder, d)]
  end.
Definition in_order (v : Z * VISIT * Z) : option Z :=
  match v.1.2 with postorder | leaf => Some v.1.1 | _ => None end.

Lemma visits_node q k hh l r d : (ht (T q k hh l r) <> 1 -> avl (T q k hh l r) ->
  visits (T q k hh l r) d =
    (q, preorder, d) :: visits l (d + 1) ++ (q, postorder, d) :: visits r (d + 1) ++ [(q, endorder, d)]).
Proof.
  cbn [ht avl]. intros H (Hh & _). destruct l, r; try done.
Qed.

Lemma walk_ok m t : forall fuel d, rep (nodes m) t -> avl t -> ht t < Z.of_nat fuel ->
  walk fuel m (addr t) d = Some (visits t d).
Proof.
  induction t as [|q k hh l IHl r IHr]; intros [|fuel] d Hr Ha Hf; cbn [ht] in *; try lia; [done| |].
  { pose proof (avl_ht _ Ha) as [? _]. cbn [ht] in *. lia. }
  pose proof Ha as (Hh & Hb & Hal & Har). destruct Hr as (Hq & Hq0 & Hl & Hr).
  destruct (avl_ht l Hal) as [Hl0 HlE], (avl_ht r Har) as [Hr0 HrE].
  cbn [walk addr]. replace (q =? 0) with false by lia. unfold get. rewrite Hq.
  cbn [mbind option_bind h a0 a1]. destruct (Z.eqb_spec hh 1) as [E1|E1].
  - rewrite (HlE ltac:(lia)), (HrE ltac:(lia)). done.
  - rewrite IHl by (done || lia). cbn [mbind option_bind]. rewrite IHr by (done || lia).
    cbn [mbind option_bind]. by rewrite visits_node.
Qed.

Lemma visits_inorder t : avl t -> forall d, omap in_order (visits t d) = addrs t.
Proof.
  unfold addrs. induction t as [|q k hh l IHl r IHr]; intros Ha d; [done|].
  destruct (Z.eq_dec (ht (T q k hh l r)) 1) as [E1|E1].
  - cbn [avl ht] in *. destruct Ha as (Hh & Hb & Hal & Har).
    destruct (avl_ht l Hal) as [Hl0 HlE], (avl_ht r Har) as [Hr0 HrE].
    rewrite (HlE ltac:(lia)), (HrE ltac:(lia)). done.
  - rewrite visits_node by done. destruct Ha as (_ & _ & Hal & Har). cbn [omap list_omap in_order fst snd].
    rewrite omap_app. cbn [omap list_omap in_order fst snd]. rewrite omap_app, IHl, IHr by done.
    cbn. by rewrite map_app, app_nil_r.
Qed.

Fixpoint postorder_keys (t : tree) : list Z :=
  match t with E => [] | T _ k _ l r => postorder_keys l ++ postorder_keys r ++ [k] end.

Lemma postorder_perm t : postorder_keys t ≡ₚ map snd (inorder t).
Proof.
  induction t as [|q k hh l IHl r IHr]; [done|]. cbn. rewrite IHl, IHr, map_app. cbn. 
  by rewrite <- Permutation_cons_append.
Qed.

Lemma get_child_at m q n d : nodes m !! q = Some n -> get_child m q d = Some (child n d).
Proof. intros H. unfold get_child, get. by rewrite H. Qed.

Lemma tdestroy_ok freekey t : forall fuel m, rep (nodes m) t -> avl t -> NoDup (addrs t) ->
  ht t < Z.of_nat fuel ->
  exists m', tdestroy_rec fuel m (addr t) freekey = Some (m', if freekey then postorder_keys t else []) /\
    root m' = root m /\ (forall q, q ∈ addrs t -> nodes m' !! q = None) /\
    (forall q, q ∉ addrs t -> nodes m' !! q = nodes m !! q).
Proof.
  induction t as [|q k hh l IHl r IHr]; intros [|fuel] m Hr Ha Hnd Hf; cbn [ht] in *; try lia.
  { exists m. split; [by destruct freekey|]. split; [done|]. split; [by intros q ?%elem_of_nil|done]. }
  { pose proof (avl_ht _ Ha) as [? _]. cbn [ht] in *. lia. }
  destruct Ha as (Hh & _ & Hal & Har), Hr as (Hq & Hq0 & Hl & Hr).
  destruct (avl_ht l Hal), (avl_ht r Har).
  assert (Hnd' := Hnd). rewrite <- (app_nil_r (addrs _)) in Hnd'.
  destruct (NoDup_mk false q k hh l r [] Hnd') as (Hql & Hqr & _ & Hndl & Hndr & Hdis).
  rewrite app_nil_r in Hndl, Hndr.
  assert (Hin : forall p, p ∈ addrs (T q k hh l r) <-> p = q \/ p ∈ addrs l \/ p ∈ addrs r).
  { intros p. apply (addrs_mk p false). }
  cbn [tdestroy_rec addr]. replace (q =? 0) with false by lia.
  rewrite (get_child_at m q _ false Hq). cbn [mbind option_bind child a0].
  destruct (IHl fuel m Hl Hal Hndl ltac:(lia)) as (m1 & -> & Hroot1 & Hn1 & Hs1). cbn [mbind option_bind].
  assert (Hq1 := Hq). rewrite <- (Hs1 q Hql) in Hq1.
  rewrite (get_child_at m1 q _ true Hq1). cbn [mbind option_bind child a1].
  assert (Hr1 : rep (nodes m1) r).
  { apply (rep_frame (nodes m)); [|done]. intros p Hp. apply Hs1. intros Hp'. by apply (Hdis p). }
  destruct (IHr fuel m1 Hr1 Har Hndr ltac:(lia)) as (m2 & -> & Hroot2 & Hn2 & Hs2). cbn [mbind option_bind].
  unfold free, get. rewrite (Hs2 q Hqr), Hq1. cbn [mbind option_bind key].
  eexists. split; [destruct freekey; done|]. cbn [root nodes]. split; [congruence|]. split.
  - intros p Hp%Hin. destruct (decide (p = q)) as [->|Hpq]; [apply lookup_delete_eq|].
    rewrite lookup_delete_ne by congruence. destruct (decide (p ∈ addrs r)) as [Hpr|Hpr]; [by apply Hn2|].
    rewrite Hs2 by done. apply Hn1. tauto.
  - intros p Hp. rewrite Hin in Hp. rewrite lookup_delete_ne by (intros ->; tauto).
    rewrite Hs2, Hs1; tauto.
Qed.

(** ** Histories of calls *)
Inductive op := Tsearch (k r : Z) | Tfind (k : Z) | Tdelete (k : Z).

Definition step (m : mem) (o : op) : option (mem * Z) :=
  match o with
  | Tsearch k r => tsearch cmp m true k r
  | Tfind k => p ← tfind cmp m true k; Some (m, p)
  | Tdelete k => tdelete cmp m true k
  end.
(** Whether each call returns a non-null pointer; None for a memory error. *)
Fixpoint run (m : mem) (ops : list op) : option (list bool) :=
  match ops with
  | [] => Some []
  | o :: ops => '(m, p) ← step m o; bs ← run m ops; Some (negb (p =? 0) :: bs)
  end.

(** The contract of malloc along a history: null, or a 64-bit address of no live cell. *)
Fixpoint malloc_ok (m : mem) (ops : list op) : Prop :=
  match ops with
  | [] => True
  | o :: ops =>
      match o with Tsearch k r => r = 0 \/ (word 64 r /\ nodes m !! r = None) | _ => True end /\
      (forall m' p, step m o = Some (m', p) -> malloc_ok m' ops)
  end.

(** The specification: a sorted list of keys. *)
Definition present (k : Z) (ks : list Z) : bool := existsb (fun k' => cmp k k' =? 0) ks.
Fixpoint insert (k : Z) (ks : list Z) : list Z :=
  match ks with [] => [k] | k' :: ks => if cmp k k' <? 0 then k :: k' :: ks else k' :: insert k ks end.
Definition spec_step (ks : list Z) (o : op) : list Z * bool :=
  match o with
  | Tsearch k r =>
      if present k ks then (ks, true) else if r =? 0 then (ks, false) else (insert k ks, true)
  | Tfind k => (ks, present k ks)
  | Tdelete k => (remove_key k ks, present k ks)
  end.
Fixpoint spec_run (ks : list Z) (ops : list op) : list bool :=
  match ops with
  | [] => []
  | o :: ops => let '(ks, b) := spec_step ks o in b :: spec_run ks ops
  end.

Lemma map_insert_key q k l : map snd (insert_key q k l) = insert k (map snd l).
Proof. induction l as [|[q' k'] l IH]; [done|]. cbn. destruct (cmp k k' <? 0); cbn; congruence. Qed.

Lemma rep_nonzero hp t q : rep hp t -> q ∈ addrs t -> q <> 0.
Proof.
  induction t as [|q' k hh l IHl r IHr]; [by intros _ ?%elem_of_nil|]. intros (_ & H0 & Hl & Hr) Hq.
  apply (addrs_mk q false q' k hh l r) in Hq as [->|[Hq|Hq]]; auto.
Qed.

Lemma rep_dom hp t q : rep hp t -> q ∈ addrs t -> hp !! q <> None.
Proof.
  induction t as [|q' k hh l IHl r IHr]; [by intros _ ?%elem_of_nil|]. intros (H & _ & Hl & Hr) Hq.
  apply (addrs_mk q false q' k hh l r) in Hq as [->|[Hq|Hq]]; auto. congruence.
Qed.

Lemma find_key_present k l : (forall q, q ∈ map fst l -> q <> 0) ->
  (find_key k l =? 0) = negb (present k (map snd l)).
Proof.
  induction l as [|[q k'] l IH]; intros H0; [done|]. cbn.
  destruct (cmp k k' =? 0); cbn.
  - apply Z.eqb_neq, H0. cbn. set_solver.
  - apply IH. intros q' Hq. apply H0. cbn. set_solver.
Qed.

Lemma wf_found m t k : wf m t -> (find_key k (inorder t) =? 0) = negb (present k (map snd (inorder t))).
Proof. intros [Hr _ _ _ _ _]. apply find_key_present. intros q. by apply rep_nonzero with (nodes m). Qed.

Lemma remove_absent k ks : present k ks = false -> remove_key k ks = ks.
Proof.
  unfold remove_key. induction ks as [|k' ks IH]; [done|]. cbn. intros [H1 H2]%orb_false_iff.
  apply Z.eqb_neq in H1. rewrite decide_True by done. f_equal. by apply IH.
Qed.

Lemma step_ok m t o : wf m t ->
  match o with Tsearch k r => r = 0 \/ (word 64 r /\ nodes m !! r = None) | _ => True end ->
  exists m' t' p, step m o = Some (m', p) /\ wf m' t' /\
    spec_step (map snd (inorder t)) o = (map snd (inorder t'), negb (p =? 0)).
Proof.
  intros Hwf Ho. destruct o as [k r|k|k]; cbn [step spec_step].
  - assert (Hr : r = 0 \/ (word 64 r /\ r ∉ addrs t)).
    { destruct Ho as [Ho|[Hw Ho]]; [by left|right]. split; [done|]. intros Hin.
      by apply (rep_dom _ _ _ (wf_rep _ _ Hwf) Hin). }
    destruct (tsearch_ok m t k r Hwf Hr) as (m' & t' & Hm' & Hwf' & Hin & _). rewrite Hm'.
    rewrite (wf_found m t k Hwf) in *. destruct (present k _) eqn:Ep; cbn [negb andb] in *.
    + destruct Hin as [-> ->]. exists m, t, (find_key k (inorder t)).
      rewrite (wf_found m t k Hwf), Ep. done.
    + exists m', t', r. split; [done|]. split; [done|]. destruct (r =? 0); cbn [negb] in *.
      * by destruct Hin as [-> ->].
      * by rewrite Hin, map_insert_key.
  - rewrite (tfind_ok m t k Hwf). cbn. exists m, t, (find_key k (inorder t)).
    rewrite (wf_found m t k Hwf), negb_involutive. done.
  - pose proof (tdelete_ok m t k Hwf) as H. cbv zeta in H. rewrite (wf_found m t k Hwf) in H.
    destruct (present k (map snd (inorder t))) eqn:Ep; cbn [negb] in H.
    + destruct H as (m' & p & Hm' & Hp & _ & t' & freed & Hwf' & Hk & _). exists m', t', p.
      apply (rep_nonzero _ _ _ (wf_rep _ _ Hwf)) in Hp.
      replace (p =? 0) with false by lia. by rewrite Hk.
    + exists m, t, 0. rewrite remove_absent by done. done.
Qed.

Lemma run_ok ops : forall m t, wf m t -> malloc_ok m ops ->
  run m ops = Some (spec_run (map snd (inorder t)) ops).
Proof.
  induction ops as [|o ops IH]; intros m t Hwf Hm; [done|]. destruct Hm as [Ho Hm].
  destruct (step_ok m t o Hwf Ho) as (m' & t' & p & Hs & Hwf' & Hsp). cbn [run spec_run].
  rewrite Hs, Hsp. cbn [mbind option_bind]. rewrite (IH m' t' Hwf' (Hm _ _ Hs)). done.
Qed.
End Ordered.

(** ** The properties *)

(** C9: on a memory that holds a sorted AVL tree, with malloc returning null
    or a fresh 64-bit address, tsearch and tfind never dereference a bad
    pointer nor overrun the array of MAXH slots; tfind returns the node that
    holds an equal key, null if none does; tsearch returns that node leaving
    everything alone, else null if malloc fails, else the new node, and then
    the memory holds a sorted AVL tree whose nodes are the old ones with the
    new one inserted in its place; no cell outside the tree changes. *)
Theorem tsearch_correct cmp `{KeyOrder cmp} m t k r :
  wf cmp m t -> (r = 0 \/ (word 64 r /\ r ∉ addrs t)) ->
  let found := find_key cmp k (inorder t) in
  tfind cmp m true k = Some found /\
  exists m' t', tsearch cmp m true k r = Some (m', if found =? 0 then r else found) /\ wf cmp m' t' /\
    (if (found =? 0) && negb (r =? 0) then inorder t' = insert_key cmp r k (inorder t)
     else m' = m /\ t' = t) /\
    (forall q, q ∉ addrs t -> q <> r -> nodes m' !! q = nodes m !! q).
Proof. intros Hwf Hr found. split; [by apply tfind_ok|by apply tsearch_ok]. Qed.

(** C30: on a memory that holds a sorted AVL tree, tdelete never dereferences
    a bad or freed pointer nor overruns its array: it returns null and changes
    nothing if no key is equal; otherwise it returns the node whose child the
    node with the equal key was, or that node itself if it was the root; exactly
    one node is freed, the memory holds a sorted AVL tree over the remaining
    nodes whose keys are the old ones without the deleted one, and no cell
    outside the tree changes. *)
Theorem tdelete_correct cmp `{KeyOrder cmp} m t k : wf cmp m t ->
  let found := find_key cmp k (inorder t) in
  if found =? 0 then tdelete cmp m true k = Some (m, 0)
  else exists m' parent t' freed, tdelete cmp m true k = Some (m', parent) /\ parent ∈ addrs t /\ parent_of m found parent /\
    wf cmp m' t' /\ map snd (inorder t') = remove_key cmp k (map snd (inorder t)) /\
    addrs t ≡ₚ freed :: addrs t' /\ nodes m' !! freed = None /\
    (forall p, p ∉ addrs t -> nodes m' !! p = nodes m !! p).
Proof.
  intros Hwf found. pose proof (tdelete_ok cmp m t k Hwf) as Hd. cbv zeta in Hd. fold found in Hd.
  destruct (found =? 0); [done|].
  destruct Hd as (m' & parent & Hm & Hp & Hpo & t' & freed & Hr). by exists m', parent, t', freed.
Qed.

(** Every history of tsearch, tfind and tdelete calls on an empty tree,
    with a malloc that returns null or fresh addresses, runs without a memory
    error, and the calls succeed exactly as on a sorted list of keys: a search
    for an absent key inserts it unless malloc fails, a deletion removes it. *)
Theorem tree_history cmp `{KeyOrder cmp} hp ops : malloc_ok cmp (mkMem 0 hp) ops ->
  run cmp (mkMem 0 hp) ops = Some (spec_run cmp [] ops).
Proof.
  intros Hm. apply (run_ok cmp ops (mkMem 0 hp) E); [|done].
  split; cbn; try done; constructor.
Qed.

(** Twalk visits the tree in the documented order, so that the nodes it
    reports as postorder or leaf come in ascending order of keys, each once;
    tdestroy hands every key to freekey once, frees every node once, with no
    access after the free, and touches nothing else. *)
Theorem twalk_tdestroy cmp `{KeyOrder cmp} m t freekey : wf cmp m t ->
  (exists vs, twalk m (root m) = Some vs /\ vs = visits t 0 /\ omap in_order vs = addrs t) /\
  exists m' ks, tdestroy m (root m) freekey = Some (m', ks) /\
    (if freekey then ks ≡ₚ map snd (inorder t) else ks = []) /\
    (forall q, nodes m' !! q = if decide (q ∈ addrs t) then None else nodes m !! q).
Proof.
  intros [Hr Hroot Hnd Hw Ha Hs]. pose proof (avl_bounded t Ha Hnd Hw) as Hh. rewrite Hroot.
  assert (HF : ht t < Z.of_nat FUEL) by (clear - Hh; change (Z.of_nat FUEL) with 98; lia). split.
  - exists (visits t 0). split; [by apply walk_ok|]. split; [done|]. by apply visits_inorder.
  - destruct (tdestroy_ok freekey t FUEL m Hr Ha Hnd HF) as (m' & Hm' & _ & H1 & H2).
    exists m', (if freekey then postorder_keys t else []). split; [exact Hm'|]. split.
    + destruct freekey; [apply postorder_perm|done].
    + intros q. destruct (decide (q ∈ addrs t)); auto.
Qed.

(** ** Witnesses: integer keys, a tree of two nodes *)
#[export] Instance sub_order : KeyOrder Z.sub.
Proof. split; intros; [|lia]. replace (b - a) with (- (a - b)) by lia. by rewrite Z.sgn_opp, Z.opp_involutive. Qed.

Definition two : mem := mkMem 16 (<[16 := mkNode 1 0 32 2]> (<[32 := mkNode 2 0 0 1]> ∅)).
Definition two_tree : tree := T 16 1 2 E (T 32 2 1 E E).
Lemma two_wf : wf Z.sub two two_tree.
Proof.
  split; try done.
  - cbn. unfold addrs. cbn. repeat constructor; set_solver.
  - unfold addrs. cbn. repeat constructor; (lia || done).
  - unfold sorted. cbn. repeat constructor; done.
Qed.

Lemma tsearch_correct_witness :
  exists m' t', tsearch Z.sub two true 3 48 = Some (m', 48) /\ wf Z.sub m' t' /\
    inorder t' = [(16, 1); (32, 2); (48, 3)] /\
    (forall q, q ∉ addrs two_tree -> q <> 48 -> nodes m' !! q = nodes two !! q).
Proof.
  assert (Hr : 48 = 0 \/ (word 64 48 /\ 48 ∉ addrs two_tree)).
  { right. split; [done|]. unfold addrs. cbn. set_solver. }
  exact (proj2 (tsearch_correct Z.sub two two_tree 3 48 two_wf Hr)).
Defined.

Lemma tdelete_correct_witness : exists m' parent t' freed,
  tdelete Z.sub two true 2 = Some (m', parent) /\ parent ∈ addrs two_tree /\ parent_of two 32 parent /\ wf Z.sub m' t' /\
  map snd (inorder t') = [1] /\ addrs two_tree ≡ₚ freed :: addrs t' /\ nodes m' !! freed = None /\
  (forall p, p ∉ addrs two_tree -> nodes m' !! p = nodes two !! p).
Proof. exact (tdelete_correct Z.sub two two_tree 2 two_wf). Defined.

Lemma tree_history_witness :
  run Z.sub (mkMem 0 ∅) [Tsearch 2 16; Tsearch 2 32; Tfind 1; Tsearch 1 0; Tdelete 2; Tdelete 2] =
    Some [true; true; false; false; true; false].
Proof.
  refine (tree_history Z.sub ∅ [Tsearch 2 16; Tsearch 2 32; Tfind 1; Tsearch 1 0; Tdelete 2; Tdelete 2] _).
  cbn [malloc_ok].
  repeat (split; [first [by left | by right | done]|intros m' p E; vm_compute in E; injection E as <- <-]).
  done.
Defined.

Lemma twalk_tdestroy_witness :
  exists vs, twalk two 16 = Some vs /\ vs = visits two_tree 0 /\ omap in_order vs = [16; 32].
Proof. exact (proj1 (twalk_tdestroy Z.sub two two_tree true two_wf)). Defined.
