(* ===== verification/Base64.v ===== *)
(** * Base64: b64_ntop and b64_pton of misc/base64.c.

    A buffer is a list whose length is its size; a string is the list of its
    bytes before the terminating NUL. *)

From S2P Require Import Prelude.

(** ** The alphabet *)
Definition Base64 : list Z :=
  seqZ 65 26 (* A-Z *) ++ seqZ 97 26 (* a-z *) ++ seqZ 48 10 (* 0-9 *) ++ [43; 47] (* + and / *).
Definition Pad64 : Z := 61.

(** [isspace] of ctype/isspace.c. *)
Definition isspace (c : Z) : bool := (c =? 32) || (u32 (c - 9) <? 5).

(** [strchr(Base64, ch) - Base64], for a character other than NUL. *)
Fixpoint position (ch : Z) (l : list Z) (i : Z) : option Z :=
  match l with
  | [] => None
  | c :: l => if c =? ch then Some i else position ch l (i + 1)
  end.
Definition strchr (ch : Z) : option Z := position ch Base64 0.

(** ** b64_ntop *)

(** The four 6-bit values of three input bytes. *)
Definition quad (i0 i1 i2 : Z) : list Z :=
  [i0 ≫ 2; u8 (((i0 .& 0x03) ≪ 4) + (i1 ≫ 4)); u8 (((i1 .& 0x0f) ≪ 2) + (i2 ≫ 6)); i2 .& 0x3f].
Definition putc (target : list Z) (datalength c : Z) : list Z := <[Z.to_nat datalength := c]> target.

(** The result, -1 or the length, and the target. *)
Fixpoint b64_loop (src : list Z) (target : list Z) (datalength : Z) : Z * list Z :=
  let targsize := Z.of_nat (length target) in
  let finish target datalength :=
    if datalength >=? targsize then (-1, target)
    else (sgn 32 datalength, putc target datalength 0) in
  match src with
  | i0 :: i1 :: i2 :: src =>
      let o := quad i0 i1 i2 in
      if datalength + 4 >? targsize then (-1, target)
      else
        let target := putc target datalength (Base64.[o.[0]]) in
        let target := putc target (datalength + 1) (Base64.[o.[1]]) in
        let target := putc target (datalength + 2) (Base64.[o.[2]]) in
        let target := putc target (datalength + 3) (Base64.[o.[3]]) in
        b64_loop src target (datalength + 4)
  | [] => finish target datalength
  | rest =>
      let o := quad (rest.[0]) (rest.[1]) (rest.[2]) in
      if datalength + 4 >? targsize then (-1, target)
      else
        let target := putc target datalength (Base64.[o.[0]]) in
        let target := putc target (datalength + 1) (Base64.[o.[1]]) in
        let target := putc target (datalength + 2)
          (if (length rest =? 1)%nat then Pad64 else Base64.[o.[2]]) in
        let target := putc target (datalength + 3) Pad64 in
        finish target (datalength + 4)
  end.
Definition b64_ntop (src target : list Z) : Z * list Z := b64_loop src target 0.

(** ** b64_pton *)

(** The locals of the scan; [target] is None for a null pointer. *)
Record scan := mkScan { state : Z; tarindex : Z; target : option (list Z) }.

(** [tarindex + 1], on an [int]; it is compared with a [size_t]. *)
Definition next_index (i : Z) : Z := sgn 32 (i + 1).
Definition below (i : Z) (t : list Z) : bool := u64 i <? Z.of_nat (length t).

(** [target\[tarindex\] = b] or [|= b], with the check before it; false is the
    return of -1. *)
Definition put_bits (t : list Z) (i : Z) (old : bool) (b : Z) : bool * list Z :=
  if negb (below i t) then (false, t)
  else (true, putc t i (u8 (if old then t.[i] .| b else b))).
(** The next byte, stored if there is room and otherwise required to be zero. *)
Definition put_next (t : list Z) (i nextbyte : Z) : bool * list Z :=
  if below i t then (true, putc t i nextbyte) else (nextbyte =? 0, t).

(** One digit [d] = [pos - Base64]: whether to go on, and the locals. *)
Definition digit (s : scan) (d : Z) : bool * scan :=
  let '(mkScan st i target) := s in
  let next st i (f : list Z -> bool * list Z) :=
    match target with
    | None => (true, mkScan st i None)
    | Some t => let '(ok, t) := f t in (ok, mkScan st i (Some t))
    end in
  let both hi nextbyte t :=
    let '(ok, t) := put_bits t i true hi in
    if ok then put_next t (next_index i) nextbyte else (ok, t) in
  if st =? 0 then next 1 i (fun t => put_bits t i false (d ≪ 2))
  else if st =? 1 then next 2 (next_index i) (both (d ≫ 4) (u8 ((d .& 0x0f) ≪ 4)))
  else if st =? 2 then next 3 (next_index i) (both (d ≫ 2) (u8 ((d .& 0x03) ≪ 6)))
  else next 0 (next_index i) (fun t => put_bits t i true d).

(** What ended the while loop: a return of -1, the end of the string, or a pad
    character with the rest of the string. *)
Inductive ended := Error | End | Padding (rest : list Z).
Fixpoint pton_loop (src : list Z) (s : scan) : scan * ended :=
  match src with
  | [] => (s, End)
  | ch :: src =>
      if isspace ch then pton_loop src s
      else if ch =? Pad64 then (s, Padding src)
      else match strchr ch with
           | None => (s, Error)
           | Some d => let '(ok, s) := digit s d in if ok then pton_loop src s else (s, Error)
           end
  end.

(** [for (; ch != 0; ch = *src++) if (!isspace(ch)) break;] *)
Fixpoint skip_spaces (src : list Z) : list Z :=
  match src with
  | [] => []
  | ch :: src' => if isspace ch then skip_spaces src' else src
  end.

(** The tail of the function: the value returned. *)
Definition pton_end (s : scan) (e : ended) : Z :=
  let slop := match target s with
              | None => false
              | Some t => below (tarindex s) t && negb (t.[tarindex s] =? 0)
              end in
  let last src :=
    match skip_spaces src with
    | [] => if slop then -1 else tarindex s
    | _ => -1
    end in
  match e with
  | Error => -1
  | End => if negb (state s =? 0) then -1 else tarindex s
  | Padding src =>
      if (state s =? 0) || (state s =? 1) then -1
      else if state s =? 2 then
        match skip_spaces src with
        | [] => -1
        | ch :: src => if negb (ch =? Pad64) then -1 else last src
        end
      else last src
  end.

(** The result and the target. *)
Definition b64_pton (src : list Z) (t : option (list Z)) : Z * option (list Z) :=
  let '(s, e) := pton_loop src (mkScan 0 0 t) in (pton_end s e, target s).

(** ** RFC 4648 *)
Module RFC4648.
(** The digits of a 24-bit group. *)
Definition group (v : Z) : list Z := [v / 262144; v / 4096 mod 64; v / 64 mod 64; v mod 64].
Definition chars (l : list Z) : list Z := map (fun d => Base64.[d]) l.
Fixpoint encode (l : list Z) : list Z :=
  match l with
  | [] => []
  | [a] => take 2 (chars (group (a * 65536))) ++ [Pad64; Pad64]
  | [a; b] => take 3 (chars (group (a * 65536 + b * 256))) ++ [Pad64]
  | a :: b :: c :: l => chars (group (a * 65536 + b * 256 + c)) ++ encode l
  end.
End RFC4648.
Import RFC4648.

(** ** Buffers *)
Lemma putc_splice t i c : 0 <= i < Z.of_nat (length t) -> putc t i c = splice t (Z.to_nat i) [c].
Proof. intros H. unfold putc, splice. rewrite insert_take_drop by lia. cbn. by rewrite Nat.add_1_r. Qed.

Lemma splice_putc t i a c : 0 <= i -> i + Z.of_nat (length a) < Z.of_nat (length t) ->
  putc (splice t (Z.to_nat i) a) (i + Z.of_nat (length a)) c = splice t (Z.to_nat i) (a ++ [c]).
Proof.
  intros Hi Hl. rewrite putc_splice by (rewrite splice_length; lia).
  replace (Z.to_nat (i + Z.of_nat (length a))) with (Z.to_nat i + length a)%nat by lia.
  apply splice_splice. cbn. lia.
Qed.

Lemma putc_four t i a b c d : 0 <= i -> i + 4 <= Z.of_nat (length t) ->
  putc (putc (putc (putc t i a) (i + 1) b) (i + 2) c) (i + 3) d = splice t (Z.to_nat i) [a; b; c; d].
Proof.
  intros Hi Hl. rewrite (putc_splice t) by lia.
  change (i + 1) with (i + Z.of_nat (length [a])). rewrite splice_putc by (cbn; lia).
  change (i + 2) with (i + Z.of_nat (length [a; b])). rewrite (splice_putc t i [a; b]) by (cbn; lia).
  change (i + 3) with (i + Z.of_nat (length [a; b; c])). by rewrite (splice_putc t i [a; b; c]) by (cbn; lia).
Qed.

(** ** b64_ntop *)
Lemma group_digits d0 d1 d2 d3 : 0 <= d0 -> 0 <= d1 < 64 -> 0 <= d2 < 64 -> 0 <= d3 < 64 ->
  group (d0 * 262144 + d1 * 4096 + d2 * 64 + d3) = [d0; d1; d2; d3].
Proof.
  intros H0 H1 H2 H3. unfold group. set (v := d0 * 262144 + d1 * 4096 + d2 * 64 + d3).
  assert (E1 : v / 64 = d0 * 4096 + d1 * 64 + d2) by (symmetry; apply (Z.div_unique _ _ _ d3); lia).
  assert (E2 : v / 4096 = d0 * 64 + d1) by (symmetry; apply (Z.div_unique _ _ _ (d2 * 64 + d3)); lia).
  assert (E3 : v / 262144 = d0)
    by (symmetry; apply (Z.div_unique _ _ _ (d1 * 4096 + d2 * 64 + d3)); lia).
  rewrite E1, E2, E3. repeat f_equal; symmetry.
  - apply (Z.mod_unique _ _ d0); lia.
  - apply (Z.mod_unique _ _ (d0 * 64 + d1)); lia.
  - apply (Z.mod_unique _ _ (d0 * 4096 + d1 * 64 + d2)); lia.
Qed.

Lemma quad_group a b c : byte_ok a -> byte_ok b -> byte_ok c ->
  quad a b c = group (a * 65536 + b * 256 + c).
Proof.
  intros [Ha Ha'] [Hb Hb'] [Hc Hc']. change (2 ^ 8) with 256 in *. unfold quad.
  change 0x03 with (Z.ones 2); change 0x0f with (Z.ones 4); change 0x3f with (Z.ones 6).
  rewrite !Z.land_ones, !Z.shiftl_mul_pow2, !Z.shiftr_div_pow2 by lia.
  change (2 ^ 2) with 4; change (2 ^ 4) with 16; change (2 ^ 6) with 64.
  assert (H1 : 0 <= a mod 4 * 16 + b / 16 < 64) by (Z.div_mod_to_equations; lia).
  assert (H2 : 0 <= b mod 16 * 4 + c / 64 < 64) by (Z.div_mod_to_equations; lia).
  unfold u8. rewrite !wrap_small by (unfold word; change (2 ^ 8) with 256; lia).
  rewrite <- group_digits; try done.
  - f_equal. Z.div_mod_to_equations; lia.
  - Z.div_mod_to_equations; lia.
  - Z.div_mod_to_equations; lia.
Qed.

Lemma encode_length_three a b c l : length (encode (a :: b :: c :: l)) = (4 + length (encode l))%nat.
Proof. done. Qed.

(** What the loop returns and leaves, [e] being the characters still to come. *)
Definition ntop_ok (t : list Z) (i : Z) (e : list Z) (r : Z * list Z) : Prop :=
  if i + Z.of_nat (length e) <? Z.of_nat (length t)
  then r = (sgn 32 (i + Z.of_nat (length e)), splice t (Z.to_nat i) (e ++ [0])) else r.1 = -1.

Lemma ntop_finish t i e : 0 <= i -> i + Z.of_nat (length e) <= Z.of_nat (length t) ->
  ntop_ok t i e (let t' := splice t (Z.to_nat i) e in let i' := i + Z.of_nat (length e) in
    if i' >=? Z.of_nat (length t) then (-1, t') else (sgn 32 i', putc t' i' 0)).
Proof.
  intros Hi He. unfold ntop_ok. cbv zeta.
  destruct (Z.ltb_spec (i + Z.of_nat (length e)) (Z.of_nat (length t))) as [H|H].
  - destruct (Z.geb_spec (i + Z.of_nat (length e)) (Z.of_nat (length t))); [lia|].
    by rewrite splice_putc by lia.
  - destruct (Z.geb_spec (i + Z.of_nat (length e)) (Z.of_nat (length t))); [done|lia].
Qed.

Lemma ntop_short t i e : i + Z.of_nat (length e) > Z.of_nat (length t) -> ntop_ok t i e (-1, t).
Proof.
  intros H. unfold ntop_ok. destruct (Z.ltb_spec (i + Z.of_nat (length e)) (Z.of_nat (length t))); [lia|done].
Qed.

Lemma b64_loop_ok n : forall src t i, (length src <= n)%nat -> bytes src -> 0 <= i <= Z.of_nat (length t) ->
  ntop_ok t i (encode src) (b64_loop src t i).
Proof.
  induction n as [|n IH]; intros src t i Hn Hb Hi.
  { destruct src; [|cbn in Hn; lia]. cbn [b64_loop encode].
    pose proof (ntop_finish t i [] ltac:(lia)) as H. cbn [length Z.of_nat] in H.
    rewrite Z.add_0_r in H. unfold splice in H. cbn [app length] in H.
    rewrite Nat.add_0_r, take_drop in H. apply H. lia. }
  destruct src as [|a [|b [|c src]]].
  - apply (IH [] t i); [cbn; lia|done|done].
  - apply Forall_cons_1 in Hb as [Ha _]. cbn [b64_loop encode].
    destruct (Z.gtb_spec (i + 4) (Z.of_nat (length t))); [apply ntop_short; cbn; lia|].
    change ([a].[0]) with a. change ([a].[1]) with 0. change ([a].[2]) with 0.
    rewrite (quad_group a 0 0) by done. cbn [length Nat.eqb]. rewrite putc_four by lia.
    rewrite Z.mul_0_l, !Z.add_0_r.
    exact (ntop_finish t i (take 2 (chars (group (a * 65536))) ++ [Pad64; Pad64]) ltac:(lia) ltac:(cbn; lia)).
  - apply Forall_cons_1 in Hb as [Ha Hb]. apply Forall_cons_1 in Hb as [Hb _]. cbn [b64_loop encode].
    destruct (Z.gtb_spec (i + 4) (Z.of_nat (length t))); [apply ntop_short; cbn; lia|].
    change ([a; b].[0]) with a. change ([a; b].[1]) with b. change ([a; b].[2]) with 0.
    rewrite (quad_group a b 0) by done. cbn [length Nat.eqb]. rewrite putc_four by lia.
    rewrite !Z.add_0_r.
    exact (ntop_finish t i (take 3 (chars (group (a * 65536 + b * 256))) ++ [Pad64]) ltac:(lia) ltac:(cbn; lia)).
  - apply Forall_cons_1 in Hb as [Ha Hb]. apply Forall_cons_1 in Hb as [Hb Hc].
    apply Forall_cons_1 in Hc as [Hc Hsrc]. cbn [b64_loop].
    destruct (Z.gtb_spec (i + 4) (Z.of_nat (length t))); [apply ntop_short; cbn; lia|].
    rewrite (quad_group a b c) by done. rewrite putc_four by lia.
    set (q := chars (group (a * 65536 + b * 256 + c))).
    specialize (IH src (splice t (Z.to_nat i) q) (i + 4)).
    assert (Hl : length (splice t (Z.to_nat i) q) = length t) by (apply splice_length; cbn; lia).
    assert (Hrec : ntop_ok (splice t (Z.to_nat i) q) (i + 4) (encode src) (b64_loop src (splice t (Z.to_nat i) q) (i + 4))).
    { apply IH; [cbn in Hn; lia|done|rewrite Hl; lia]. }
    change (encode (a :: b :: c :: src)) with (q ++ encode src). revert Hrec. unfold ntop_ok.
    rewrite Hl, length_app. change (length q) with 4%nat.
    replace (i + Z.of_nat (4 + length (encode src))) with (i + 4 + Z.of_nat (length (encode src))) by lia.
    destruct (Z.ltb_spec (i + 4 + Z.of_nat (length (encode src))) (Z.of_nat (length t))); [|done].
    intros Hrec. refine (eq_trans Hrec _). f_equal. rewrite <- app_assoc.
    replace (Z.to_nat (i + 4)) with (Z.to_nat i + length q)%nat by (cbn; lia).
    apply splice_splice. rewrite length_app. cbn. lia.
Qed.

(** ** b64_pton: white space *)
Definition strip (l : list Z) : list Z := List.filter (fun c => negb (isspace c)) l.

Lemma strip_cons c l : strip (c :: l) = if isspace c then strip l else c :: strip l.
Proof. unfold strip. cbn. by destruct (isspace c). Qed.

Lemma skip_strip l : match skip_spaces l with
  | [] => strip l = []
  | c :: l' => strip l = c :: strip l' /\ isspace c = false
  end.
Proof.
  induction l as [|c l IH]; [done|]. cbn [skip_spaces]. rewrite strip_cons.
  destruct (isspace c) eqn:E; [exact IH|done].
Qed.

Lemma skip_spaceless l : Forall (fun c => isspace c = false) l -> skip_spaces l = l.
Proof. intros H. destruct H as [|c l Hc _]; [done|]. cbn. by rewrite Hc. Qed.

Lemma strip_spaceless l : Forall (fun c => isspace c = false) (strip l).
Proof.
  induction l as [|c l IH]; [constructor|]. rewrite strip_cons. destruct (isspace c) eqn:E; [done|].
  by constructor.
Qed.

Lemma loop_strip l : forall s, pton_loop (strip l) s =
  let '(s', e) := pton_loop l s in (s', match e with Padding r => Padding (strip r) | _ => e end).
Proof.
  induction l as [|c l IH]; intros s; [done|]. rewrite strip_cons. cbn [pton_loop].
  destruct (isspace c) eqn:E; [by rewrite IH|]. cbn [pton_loop]. rewrite E.
  destruct (c =? Pad64); [done|]. destruct (strchr c) as [d|]; [|done].
  destruct (digit s d) as [[] s']; [by rewrite IH|done].
Qed.

(** White space is skipped everywhere. *)
Lemma pton_strip l t : b64_pton (strip l) t = b64_pton l t.
Proof.
  unfold b64_pton. rewrite loop_strip. destruct (pton_loop l (mkScan 0 0 t)) as [s e].
  f_equal. destruct e as [| |r]; try done. unfold pton_end.
  pose proof (strip_spaceless r) as Hsp. rewrite (skip_spaceless _ Hsp). pose proof (skip_strip r) as H.
  destruct (skip_spaces r) as [|c r'].
  - by rewrite H.
  - destruct H as [H _]. rewrite H in *. apply Forall_cons_1 in Hsp as [_ Hsp].
    rewrite (skip_spaceless _ Hsp). pose proof (skip_strip r') as H'.
    destruct (skip_spaces r') as [|c' r'']; [by rewrite H'|]. destruct H' as [H' _]. by rewrite H'.
Qed.

(** ** The alphabet *)
Lemma alphabet_check : forallb (fun d => (match strchr (Base64.[d]) with Some d' => d' =? d | None => false end)
  && negb (isspace (Base64.[d])) && negb (Base64.[d] =? Pad64)) (seqZ 0 64) = true.
Proof. vm_compute. reflexivity. Qed.

Lemma alphabet d : 0 <= d < 64 -> strchr (Base64.[d]) = Some d /\ isspace (Base64.[d]) = false /\
  (Base64.[d] =? Pad64) = false.
Proof.
  intros Hd. pose proof alphabet_check as H. rewrite forallb_forall in H.
  specialize (H d ltac:(apply list_elem_of_In, elem_of_seqZ; lia)).
  rewrite !andb_true_iff, !negb_true_iff in H. destruct H as [[H1 H2] H3].
  destruct (strchr (Base64.[d])) as [d'|]; [|done]. apply Z.eqb_eq in H1. by subst d'.
Qed.

Lemma position_inv ch l : forall i d, position ch l i = Some d ->
  i <= d < i + Z.of_nat (length l) /\ l.[d - i] = ch.
Proof.
  induction l as [|c l IH]; intros i d; cbn [position]; [done|].
  destruct (Z.eqb_spec c ch) as [->|Hc].
  - intros [= <-]. rewrite Z.sub_diag. cbn [length]. split; [lia|done].
  - intros H. destruct (IH _ _ H) as [H1 H2]. cbn [length]. split; [lia|].
    replace (d - i) with (d - (i + 1) + 1) by lia. rewrite <- H2. unfold aget.
    by replace (Z.to_nat (d - (i + 1) + 1)) with (S (Z.to_nat (d - (i + 1)))) by lia.
Qed.

Lemma strchr_inv ch d : strchr ch = Some d -> 0 <= d < 64 /\ ch = Base64.[d].
Proof. intros H. apply position_inv in H as [H1 H2]. rewrite Z.sub_0_r in H2. done. Qed.

(** ** A reference decoder, on strings without white space *)
Fixpoint decode (l : list Z) : option (list Z) :=
  match l with
  | [] => Some []
  | c0 :: c1 :: c2 :: c3 :: l =>
      d0 ← strchr c0; d1 ← strchr c1;
      if c2 =? Pad64 then
        if (c3 =? Pad64) && (length l =? 0)%nat && (d1 mod 16 =? 0) then Some [d0 * 4 + d1 / 16] else None
      else
        d2 ← strchr c2;
        if c3 =? Pad64 then
          if (length l =? 0)%nat && (d2 mod 4 =? 0)
          then Some [d0 * 4 + d1 / 16; d1 mod 16 * 16 + d2 / 4] else None
        else
          d3 ← strchr c3; r ← decode l;
          Some (d0 * 4 + d1 / 16 :: d1 mod 16 * 16 + d2 / 4 :: d2 mod 4 * 64 + d3 :: r)
  | _ => None
  end.

(** Three bytes and four digits determine each other. *)
Lemma group_bytes d0 d1 d2 d3 : 0 <= d0 < 64 -> 0 <= d1 < 64 -> 0 <= d2 < 64 -> 0 <= d3 < 64 ->
  let a := d0 * 4 + d1 / 16 in let b := d1 mod 16 * 16 + d2 / 4 in let c := d2 mod 4 * 64 + d3 in
  byte_ok a /\ byte_ok b /\ byte_ok c /\ group (a * 65536 + b * 256 + c) = [d0; d1; d2; d3].
Proof.
  intros H0 H1 H2 H3 a b c. unfold word. change (2 ^ 8) with 256.
  rewrite <- (group_digits d0 d1 d2 d3) by (done || lia). unfold a, b, c. clear a b c.
  repeat split; try (Z.div_mod_to_equations; lia). f_equal. Z.div_mod_to_equations; lia.
Qed.

Lemma bytes_group a b c : byte_ok a -> byte_ok b -> byte_ok c ->
  exists d0 d1 d2 d3, group (a * 65536 + b * 256 + c) = [d0; d1; d2; d3] /\
    0 <= d0 < 64 /\ 0 <= d1 < 64 /\ 0 <= d2 < 64 /\ 0 <= d3 < 64 /\
    a = d0 * 4 + d1 / 16 /\ b = d1 mod 16 * 16 + d2 / 4 /\ c = d2 mod 4 * 64 + d3.
Proof.
  intros [Ha Ha'] [Hb Hb'] [Hc Hc']. change (2 ^ 8) with 256 in *.
  exists (a / 4), (a mod 4 * 16 + b / 16), (b mod 16 * 4 + c / 64), (c mod 64).
  assert (Hr : 0 <= a / 4 < 64 /\ 0 <= a mod 4 * 16 + b / 16 < 64 /\
    0 <= b mod 16 * 4 + c / 64 < 64 /\ 0 <= c mod 64 < 64) by (Z.div_mod_to_equations; lia).
  destruct Hr as (H0 & H1 & H2 & H3).
  rewrite <- (group_digits (a / 4) (a mod 4 * 16 + b / 16) (b mod 16 * 4 + c / 64) (c mod 64)) by (done || lia).
  split; [f_equal; Z.div_mod_to_equations; lia|]. do 4 (split; [done|]).
  Z.div_mod_to_equations; lia.
Qed.

Lemma b64_decode_encode n : forall l, (length l <= n)%nat -> bytes l -> decode (encode l) = Some l.
Proof.
  induction n as [|n IH]; intros l Hn Hb; [by destruct l; [|cbn in Hn; lia]|].
  destruct l as [|a [|b [|c l]]]; [done| | |].
  - apply Forall_cons_1 in Hb as [Ha _].
    destruct (bytes_group a 0 0) as (d0 & d1 & d2 & d3 & E & H0 & H1 & H2 & H3 & -> & Eb & _); try done.
    cbn [encode]. rewrite !Z.add_0_r in E. rewrite E. cbn [chars map take app decode].
    destruct (alphabet d0 H0) as (-> & _), (alphabet d1 H1) as (-> & _). cbn [mbind option_bind Z.eqb].
    change (Pad64 =? Pad64) with true. cbn [andb length Nat.eqb].
    replace (d1 mod 16 =? 0) with true; [done|]. symmetry. Z.div_mod_to_equations; lia.
  - apply Forall_cons_1 in Hb as [Ha Hb]. apply Forall_cons_1 in Hb as [Hb _].
    destruct (bytes_group a b 0) as (d0 & d1 & d2 & d3 & E & H0 & H1 & H2 & H3 & -> & -> & Ec); try done.
    cbn [encode]. rewrite !Z.add_0_r in E. rewrite E. cbn [chars map take app decode].
    destruct (alphabet d0 H0) as (-> & _), (alphabet d1 H1) as (-> & _), (alphabet d2 H2) as (-> & _ & ->).
    cbn [mbind option_bind]. change (Pad64 =? Pad64) with true. cbn [andb length Nat.eqb].
    replace (d2 mod 4 =? 0) with true; [done|]. symmetry. Z.div_mod_to_equations; lia.
  - apply Forall_cons_1 in Hb as [Ha Hb]. apply Forall_cons_1 in Hb as [Hb Hc].
    apply Forall_cons_1 in Hc as [Hc Hl].
    destruct (bytes_group a b c) as (d0 & d1 & d2 & d3 & E & H0 & H1 & H2 & H3 & -> & -> & ->); try done.
    cbn [encode]. rewrite E. cbn [chars map app decode].
    destruct (alphabet d0 H0) as (-> & _), (alphabet d1 H1) as (-> & _), (alphabet d2 H2) as (-> & _ & ->),
      (alphabet d3 H3) as (-> & _ & ->).
    cbn [mbind option_bind]. rewrite IH by (done || (cbn in Hn; lia)). done.
Qed.

Ltac bytes_tac := repeat (apply Forall_cons; split; [done|]); first [done|apply List.Forall_nil].

Lemma encode_decode n : forall l d, (length l <= n)%nat -> decode l = Some d -> l = encode d /\ bytes d.
Proof.
  induction n as [|n IH]; intros l d Hn Hd; [by destruct l; [injection Hd as <-|cbn in Hn; lia]|].
  destruct l as [|c0 [|c1 [|c2 [|c3 l]]]]; try done; [by injection Hd as <-|]. cbn [decode] in Hd.
  destruct (strchr c0) as [d0|] eqn:E0; [|done]. apply strchr_inv in E0 as [H0 ->].
  destruct (strchr c1) as [d1|] eqn:E1; [|done]. apply strchr_inv in E1 as [H1 ->].
  cbn [mbind option_bind] in Hd. destruct (Z.eqb_spec c2 Pad64) as [->|Hc2].
  - destruct (Z.eqb_spec c3 Pad64) as [->|]; [|done]. destruct l; [|done]. cbn [andb length Nat.eqb] in Hd.
    destruct (Z.eqb_spec (d1 mod 16) 0) as [Hs|]; [|done]. injection Hd as <-.
    destruct (group_bytes d0 d1 0 0) as (Ha & _ & _ & E); try done.
    rewrite Hs in E. cbn [Z.mul Z.add Z.div Z.modulo] in E. cbn [encode].
    change (0 / 4) with 0 in E. change (0 mod 4) with 0 in E. rewrite !Z.mul_0_l, !Z.add_0_r in E.
    rewrite E. split; [done|bytes_tac].
  - destruct (strchr c2) as [d2|] eqn:E2; [|done]. apply strchr_inv in E2 as [H2 ->].
    cbn [mbind option_bind] in Hd. destruct (Z.eqb_spec c3 Pad64) as [->|Hc3].
    + destruct l; [|done]. cbn [andb length Nat.eqb] in Hd.
      destruct (Z.eqb_spec (d2 mod 4) 0) as [Hs|]; [|done]. injection Hd as <-.
      destruct (group_bytes d0 d1 d2 0) as (Ha & Hb & _ & E); try done.
      rewrite Hs, Z.mul_0_l, !Z.add_0_r in E. cbn [encode]. rewrite E. split; [done|bytes_tac].
    + destruct (strchr c3) as [d3|] eqn:E3; [|done]. apply strchr_inv in E3 as [H3 ->].
      cbn [mbind option_bind] in Hd. destruct (decode l) as [r|] eqn:Er; [|done]. injection Hd as <-.
      destruct (IH l r) as [-> Hr]; [cbn in Hn; lia|done|].
      destruct (group_bytes d0 d1 d2 d3) as (Ha & Hb & Hc & E); try done.
      cbn [encode]. rewrite E. split; [done|bytes_tac].
Qed.

(** ** The scan of one group *)
Lemma bits_check : forallb (fun d => forallb (fun d' =>
  (u8 (u8 (d ≪ 2) .| (d' ≫ 4)) =? d * 4 + d' / 16) &&
  (u8 (u8 ((d .& 0x0f) ≪ 4) .| (d' ≫ 2)) =? d mod 16 * 16 + d' / 4) &&
  (u8 (u8 ((d .& 0x03) ≪ 6) .| d') =? d mod 4 * 64 + d') &&
  (u8 ((d .& 0x0f) ≪ 4) =? d mod 16 * 16) && (u8 ((d .& 0x03) ≪ 6) =? d mod 4 * 64)) (seqZ 0 64)) (seqZ 0 64) = true.
Proof. vm_compute. reflexivity. Qed.

Lemma bits d d' : 0 <= d < 64 -> 0 <= d' < 64 ->
  u8 (u8 (d ≪ 2) .| (d' ≫ 4)) = d * 4 + d' / 16 /\
  u8 (u8 ((d .& 0x0f) ≪ 4) .| (d' ≫ 2)) = d mod 16 * 16 + d' / 4 /\
  u8 (u8 ((d .& 0x03) ≪ 6) .| d') = d mod 4 * 64 + d' /\
  u8 ((d .& 0x0f) ≪ 4) = d mod 16 * 16 /\ u8 ((d .& 0x03) ≪ 6) = d mod 4 * 64.
Proof.
  intros Hd Hd'. pose proof bits_check as H. rewrite forallb_forall in H.
  specialize (H d ltac:(apply list_elem_of_In, elem_of_seqZ; lia)). rewrite forallb_forall in H.
  specialize (H d' ltac:(apply list_elem_of_In, elem_of_seqZ; lia)).
  rewrite !andb_true_iff, !Z.eqb_eq in H. tauto.
Qed.

Lemma aget_putc t i c : 0 <= i < Z.of_nat (length t) -> (putc t i c).[i] = c.
Proof. intros H. unfold aget, putc. by rewrite list_lookup_insert_eq by lia. Qed.
Lemma putc_putc t i c c' : putc (putc t i c) i c' = putc t i c'.
Proof. apply list_insert_insert_eq. Qed.
Lemma putc_length t i c : length (putc t i c) = length t.
Proof. apply length_insert. Qed.

Lemma next_index_small i : 0 <= i -> i + 1 < 2 ^ 31 -> next_index i = i + 1.
Proof. intros H0 H. apply sgn_small; [lia|]. change (2 ^ (32 - 1)) with (2 ^ 31). lia. Qed.

Lemma below_small i t : 0 <= i < 2 ^ 31 -> below i t = (i <? Z.of_nat (length t)).
Proof. intros H. unfold below, u64. rewrite wrap_small by (unfold word; lia). done. Qed.

Lemma digit0 i t d : 0 <= i < Z.of_nat (length t) -> i < 2 ^ 31 ->
  digit (mkScan 0 i (Some t)) d = (true, mkScan 1 i (Some (putc t i (u8 (d ≪ 2))))).
Proof.
  intros H Hi. unfold digit, put_bits. change (0 =? 0) with true. cbv iota beta. rewrite below_small by lia.
  destruct (Z.ltb_spec i (Z.of_nat (length t))); [done|lia].
Qed.

Lemma digit1 i t d d' : 0 <= i -> i + 1 < Z.of_nat (length t) -> i + 1 < 2 ^ 31 -> 0 <= d < 64 -> 0 <= d' < 64 ->
  digit (mkScan 1 i (Some (putc t i (u8 (d ≪ 2))))) d' =
    (true, mkScan 2 (i + 1) (Some (putc (putc t i (d * 4 + d' / 16)) (i + 1) (d' mod 16 * 16)))).
Proof.
  intros H0 H Hi Hd Hd'. destruct (bits d d' Hd Hd') as (E1 & _).
  destruct (bits d' d' Hd' Hd') as (_ & _ & _ & E2 & _).
  unfold digit, put_bits, put_next. change (1 =? 0) with false. change (1 =? 1) with true. cbv iota beta.
  rewrite next_index_small, below_small, putc_length by lia. destruct (Z.ltb_spec i (Z.of_nat (length t))); [|lia]. cbn [negb].
  rewrite below_small, putc_length, putc_length by lia. destruct (Z.ltb_spec (i + 1) (Z.of_nat (length t))); [|lia].
  rewrite aget_putc, putc_putc, E1, E2 by lia. done.
Qed.

Lemma digit2 i t d d' : 0 <= i -> i + 1 < Z.of_nat (length t) -> i + 1 < 2 ^ 31 -> 0 <= d < 64 -> 0 <= d' < 64 ->
  digit (mkScan 2 i (Some (putc t i (d mod 16 * 16)))) d' =
    (true, mkScan 3 (i + 1) (Some (putc (putc t i (d mod 16 * 16 + d' / 4)) (i + 1) (d' mod 4 * 64)))).
Proof.
  intros H0 H Hi Hd Hd'. destruct (bits d d' Hd Hd') as (_ & E1 & _ & E3 & _).
  destruct (bits d' d' Hd' Hd') as (_ & _ & _ & _ & E2).
  unfold digit, put_bits, put_next. change (2 =? 0) with false. change (2 =? 1) with false.
  change (2 =? 2) with true. cbv iota beta.
  rewrite next_index_small, below_small, putc_length by lia. destruct (Z.ltb_spec i (Z.of_nat (length t))); [|lia]. cbn [negb].
  rewrite below_small, putc_length, putc_length by lia. destruct (Z.ltb_spec (i + 1) (Z.of_nat (length t))); [|lia].
  rewrite E3 in E1. rewrite aget_putc, putc_putc, E1, E2 by lia. done.
Qed.

Lemma digit3 i t d d' : 0 <= i < Z.of_nat (length t) -> i + 1 < 2 ^ 31 -> 0 <= d < 64 -> 0 <= d' < 64 ->
  digit (mkScan 3 i (Some (putc t i (d mod 4 * 64)))) d' =
    (true, mkScan 0 (i + 1) (Some (putc t i (d mod 4 * 64 + d')))).
Proof.
  intros H Hi Hd Hd'. destruct (bits d d' Hd Hd') as (_ & _ & E1 & _ & E3).
  unfold digit, put_bits. change (3 =? 0) with false. change (3 =? 1) with false.
  change (3 =? 2) with false. cbv iota beta.
  rewrite next_index_small, below_small, putc_length by lia. destruct (Z.ltb_spec i (Z.of_nat (length t))); [|lia]. cbn [negb].
  rewrite E3 in E1. rewrite aget_putc, putc_putc, E1 by lia. done.
Qed.

(** ** The scan against the reference decoder *)
Lemma loop_char c s st : isspace c = false -> pton_loop (c :: s) st =
  if c =? Pad64 then (st, Padding s)
  else match strchr c with
       | None => (st, Error)
       | Some d => let '(ok, st') := digit st d in if ok then pton_loop s st' else (st', Error)
       end.
Proof. intros H. cbn [pton_loop]. by rewrite H. Qed.

Lemma loop_pad s st : pton_loop (Pad64 :: s) st = (st, Padding s).
Proof. done. Qed.

Lemma loop_digit d s st : 0 <= d < 64 -> pton_loop (Base64.[d] :: s) st =
  let '(ok, st') := digit st d in if ok then pton_loop s st' else (st', Error).
Proof. intros Hd. destruct (alphabet d Hd) as (E1 & E2 & E3). by rewrite loop_char, E3, E1. Qed.

(** Every character is a pad, foreign, or a digit. *)
Inductive kind (c : Z) : Prop :=
  | KPad : c = Pad64 -> kind c
  | KBad : strchr c = None -> (c =? Pad64) = false -> kind c
  | KDigit d : 0 <= d < 64 -> c = Base64.[d] -> kind c.
Lemma char_kind c : kind c.
Proof.
  destruct (c =? Pad64) eqn:E; [apply KPad; lia|].
  destruct (strchr c) as [d|] eqn:Es; [|by apply KBad]. apply strchr_inv in Es as [H ->]. by apply (KDigit _ d).
Qed.

(** What the scan must give for the rest [s], from index [i] of the buffer. *)
Definition scanned (s : list Z) (i : Z) (T : list Z) (r : scan * ended) : Prop :=
  match decode s with
  | Some d => pton_end r.1 r.2 = i + Z.of_nat (length d) /\
      exists T', target r.1 = Some T' /\ length T' = length T /\
        take (Z.to_nat i + length d) T' = take (Z.to_nat i) T ++ d
  | None => pton_end r.1 r.2 = -1
  end.

Lemma take_putc t i c : 0 <= i < Z.of_nat (length t) ->
  take (Z.to_nat i + 1) (putc t i c) = take (Z.to_nat i) t ++ [c].
Proof.
  intros H. replace (Z.to_nat i + 1)%nat with (Z.to_nat (i + 1)) by lia. by apply take_push.
Qed.

Lemma spaceless_slop s T i v : 0 <= i < Z.of_nat (length T) -> i < 2 ^ 31 ->
  below i (putc T i v) && negb ((putc T i v).[i] =? 0) = negb (v =? 0) /\
  (Forall (fun c => isspace c = false) s -> skip_spaces s = s).
Proof.
  intros H Hi. rewrite below_small, putc_length, aget_putc by (done || lia). split; [|apply skip_spaceless].
  destruct (Z.ltb_spec i (Z.of_nat (length T))); [done|lia].
Qed.

(** A pad after two digits. *)
Lemma scan_pad2 s i T a v : Forall (fun c => isspace c = false) s -> 0 <= i -> i + 1 < Z.of_nat (length T) -> i + 1 < 2 ^ 31 ->
  let st := mkScan 2 (i + 1) (Some (putc (putc T i a) (i + 1) v)) in
  pton_end st (Padding s) =
    match s with [c] => if (c =? Pad64) && (v =? 0) then i + 1 else -1 | _ => -1 end /\
  take (Z.to_nat i + 1) (putc (putc T i a) (i + 1) v) = take (Z.to_nat i) T ++ [a].
Proof.
  intros Hs Hi Hl H31 st. split.
  - unfold pton_end, st. cbn [target tarindex state]. change (2 =? 0) with false. change (2 =? 1) with false.
    change (2 =? 2) with true. cbn [orb].
    destruct (spaceless_slop s (putc T i a) (i + 1) v) as [-> Hsk]; [rewrite putc_length; lia|lia|].
    rewrite (Hsk Hs). destruct s as [|c s]; [done|]. apply Forall_cons_1 in Hs as [_ Hs].
    rewrite (skip_spaceless s Hs). destruct (c =? Pad64); cbn [negb andb]; [|by destruct s].
    destruct s; [|done]. by destruct (v =? 0).
  - unfold putc at 1. rewrite take_insert_ge by lia. apply take_putc. lia.
Qed.

(** A pad after three digits. *)
Lemma scan_pad3 s i T v : Forall (fun c => isspace c = false) s -> 0 <= i < Z.of_nat (length T) -> i < 2 ^ 31 ->
  pton_end (mkScan 3 i (Some (putc T i v))) (Padding s) =
    match s with [] => if v =? 0 then i else -1 | _ => -1 end.
Proof.
  intros Hs Hi H31. unfold pton_end. cbn [target tarindex state]. change (3 =? 0) with false.
  change (3 =? 1) with false. change (3 =? 2) with false. cbn [orb].
  destruct (spaceless_slop s T i v Hi H31) as [-> Hsk]. rewrite (Hsk Hs). destruct s; [|done].
  by destruct (v =? 0).
Qed.

Lemma decode_step d0 d1 c2 c3 s : 0 <= d0 < 64 -> 0 <= d1 < 64 ->
  decode (Base64.[d0] :: Base64.[d1] :: c2 :: c3 :: s) =
    if c2 =? Pad64 then
      if (c3 =? Pad64) && (length s =? 0)%nat && (d1 mod 16 =? 0) then Some [d0 * 4 + d1 / 16] else None
    else
      d2 ← strchr c2;
      if c3 =? Pad64 then
        if (length s =? 0)%nat && (d2 mod 4 =? 0)
        then Some [d0 * 4 + d1 / 16; d1 mod 16 * 16 + d2 / 4] else None
      else
        d3 ← strchr c3; r ← decode s;
        Some (d0 * 4 + d1 / 16 :: d1 mod 16 * 16 + d2 / 4 :: d2 mod 4 * 64 + d3 :: r).
Proof.
  intros H0 H1. destruct (alphabet d0 H0) as (E0 & _), (alphabet d1 H1) as (E1 & _).
  cbn [decode]. by rewrite E0, E1.
Qed.

(** Three digits read; the fourth character and the rest [s]. *)
Lemma putc_three T i a b c : 0 <= i -> i + 3 <= Z.of_nat (length T) ->
  putc (putc (putc T i a) (i + 1) b) (i + 1 + 1) c = splice T (Z.to_nat i) [a; b; c].
Proof.
  intros Hi Hl. replace (i + 1 + 1) with (i + 2) by lia. rewrite (putc_splice T) by lia.
  change (i + 1) with (i + Z.of_nat (length [a])). rewrite splice_putc by (cbn; lia).
  change (i + 2) with (i + Z.of_nat (length [a; b])). by rewrite (splice_putc T i [a; b]) by (cbn; lia).
Qed.

Lemma scan_fourth d0 d1 d2 c3 s i T : 0 <= d0 < 64 -> 0 <= d1 < 64 -> 0 <= d2 < 64 ->
  Forall (fun c => isspace c = false) (c3 :: s) -> 0 <= i -> i + 3 <= Z.of_nat (length T) -> i + 3 < 2 ^ 31 ->
  (forall T', length T' = length T -> scanned s (i + 3) T' (pton_loop s (mkScan 0 (i + 3) (Some T')))) ->
  scanned (Base64.[d0] :: Base64.[d1] :: Base64.[d2] :: c3 :: s) i T
    (pton_loop (c3 :: s) (mkScan 3 (i + 1 + 1) (Some
      (putc (putc (putc T i (d0 * 4 + d1 / 16)) (i + 1) (d1 mod 16 * 16 + d2 / 4)) (i + 1 + 1) (d2 mod 4 * 64))))).
Proof.
  intros H0 H1 H2 Hs Hi Hl H31 IH. apply Forall_cons_1 in Hs as [Hc3 Hs].
  destruct (alphabet d2 H2) as (E2 & _ & E2'). unfold scanned. rewrite decode_step, E2', E2 by done.
  cbn [mbind option_bind]. destruct (char_kind c3) as [->|E3 E3'|d3 H3 ->].
  - rewrite loop_pad. cbn [fst snd]. rewrite scan_pad3 by (rewrite ?putc_length; done || lia).
    change (Pad64 =? Pad64) with true. cbv iota. destruct s; [|done]. cbn [length Nat.eqb andb].
    replace (d2 mod 4 * 64 =? 0) with (d2 mod 4 =? 0) by lia. destruct (d2 mod 4 =? 0); [|done].
    split; [cbn [length]; lia|]. eexists. split; [done|]. rewrite !putc_length. split; [done|].
    unfold putc at 1. cbn [length]. rewrite take_insert_ge by lia.
    rewrite (putc_splice T) by lia. change (i + 1) with (i + Z.of_nat (length [d0 * 4 + d1 / 16])).
    rewrite splice_putc by (cbn; lia). apply (splice_take T _ [_; _]). cbn. lia.
  - rewrite loop_char, E3, E3' by done. done.
  - destruct (alphabet d3 H3) as (E3 & _ & E3'). rewrite E3, E3'. cbn [mbind option_bind].
    rewrite loop_digit, digit3 by (rewrite ?putc_length; done || lia).
    replace (i + 1 + 1 + 1) with (i + 3) by lia. rewrite putc_three by lia.
    set (q := [d0 * 4 + d1 / 16; d1 mod 16 * 16 + d2 / 4; d2 mod 4 * 64 + d3]).
    assert (Hlen : length (splice T (Z.to_nat i) q) = length T) by (apply splice_length; cbn; lia).
    specialize (IH _ Hlen). unfold scanned in IH. destruct (decode s) as [r|]; [|exact IH].
    destruct IH as (Hend & T' & Ht & HlT & Htk). cbn [mbind option_bind]. split; [cbn [length]; lia|].
    exists T'. split; [done|]. split; [lia|]. change (_ :: _ :: _ :: r) with (q ++ r).
    rewrite app_assoc, <- splice_take by (cbn; lia).
    replace (Z.to_nat i + length (q ++ r))%nat with (Z.to_nat (i + 3) + length r)%nat
      by (rewrite length_app; cbn; lia).
    rewrite Htk. do 2 f_equal. cbn. lia.
Qed.

Lemma scan_ok n : forall s i T, (length s <= n)%nat -> Forall (fun c => isspace c = false) s -> 0 <= i ->
  i + Z.of_nat (length s) <= Z.of_nat (length T) -> i + Z.of_nat (length s) < 2 ^ 31 ->
  scanned s i T (pton_loop s (mkScan 0 i (Some T))).
Proof.
  induction n as [|n IH]; intros s i T Hn Hs Hi Hl H31.
  all: destruct s as [|c0 s]; [unfold scanned; cbn; split; [lia|]; exists T;
         by rewrite Nat.add_0_r, app_nil_r|].
  { cbn in Hn; lia. }
  apply Forall_cons_1 in Hs as Hs0. destruct Hs0 as [Hc0 Hs0].
  cbn [length] in Hn, Hl, H31. destruct (char_kind c0) as [->|E1 E2|d0 H0 ->].
  { unfold scanned. destruct s as [|? [|? [|? s]]]; done. }
  { unfold scanned. rewrite loop_char, E1, E2 by done. destruct s as [|? [|? [|? s]]]; cbn [decode]; by rewrite ?E1. }
  rewrite loop_digit, digit0 by (done || lia).
  destruct s as [|c1 s]; [done|]. cbn [length] in Hn, Hl, H31. apply Forall_cons_1 in Hs0 as [Hc1 Hs1].
  destruct (alphabet d0 H0) as (E0 & _). destruct (char_kind c1) as [->|E1 E2|d1 H1 ->].
  { unfold scanned. destruct s as [|? [|? s]]; cbn [decode]; by rewrite ?E0. }
  { unfold scanned. rewrite loop_char, E1, E2 by done. destruct s as [|? [|? s]]; cbn [decode]; by rewrite ?E0, ?E1. }
  clear E0. destruct s as [|c2 s].
  { rewrite loop_digit, digit1 by (done || (cbn [length] in Hl, H31; lia)). done. }
  cbn [length] in Hn, Hl, H31. apply Forall_cons_1 in Hs1 as [Hc2 Hs2].
  rewrite loop_digit, digit1 by (done || lia).
  destruct (char_kind c2) as [->|E1 E2|d2 H2 ->].
  { rewrite loop_pad. destruct (scan_pad2 s i T (d0 * 4 + d1 / 16) (d1 mod 16 * 16) Hs2 Hi ltac:(lia) ltac:(lia)) as [Hend Htake].
    unfold scanned. destruct s as [|c3 s]; [done|]. rewrite decode_step by done.
    change (Pad64 =? Pad64) with true. cbv iota. cbn [fst snd]. rewrite Hend.
    replace (d1 mod 16 * 16 =? 0) with (d1 mod 16 =? 0) by lia.
    destruct s; [|by rewrite andb_false_r]. cbn [length Nat.eqb]. rewrite andb_true_r.
    destruct ((c3 =? Pad64) && (d1 mod 16 =? 0)); [|done]. split; [cbn; lia|]. eexists.
    split; [done|]. rewrite !putc_length. split; [done|]. exact Htake. }
  { unfold scanned. rewrite loop_char, E1, E2 by done. destruct s as [|c3 s]; [done|].
    by rewrite decode_step, E2, E1 by done. }
  destruct (alphabet d2 H2) as (E2 & _ & E2').
  destruct s as [|c3 s].
  { rewrite loop_digit, digit2 by (rewrite ?putc_length; done || (cbn [length] in Hl, H31; lia)). done. }
  cbn [length] in Hn, Hl, H31. rewrite loop_digit by done. rewrite digit2 by (rewrite ?putc_length; done || lia).
  apply scan_fourth; try done; [lia|lia|]. intros T' HT'. apply IH; [lia| |lia|lia|lia].
  by apply Forall_cons_1 in Hs2 as [_ ?].
Qed.

(** ** The properties *)

(** B64_ntop writes the RFC 4648 encoding of the source and a NUL and
    returns its length when both fit in the buffer, whose other bytes it leaves
    alone, and returns -1 otherwise, for every source and buffer whose sizes
    fit an int. *)
Theorem b64_ntop_correct src target : bytes src -> Z.of_nat (length target) < 2 ^ 31 ->
  let e := encode src in
  if (length e <? length target)%nat
  then b64_ntop src target = (Z.of_nat (length e), e ++ 0 :: drop (length e + 1) target)
  else (b64_ntop src target).1 = -1.
Proof.
  intros Hb Ht e. pose proof (b64_loop_ok (length src) src target 0 (le_n _) Hb ltac:(lia)) as H.
  fold (b64_ntop src target) in H. unfold ntop_ok in H. fold e in H. rewrite Z.add_0_l in H.
  destruct (Nat.ltb_spec (length e) (length target)), (Z.ltb_spec (Z.of_nat (length e)) (Z.of_nat (length target)));
    [|lia|lia|done].
  rewrite H. unfold sgn. rewrite wrap_small by (unfold word; lia).
  destruct (Z.ltb_spec (Z.of_nat (length e)) (2 ^ (32 - 1))); [|lia].
  unfold splice. cbn [Z.to_nat take app]. rewrite <- app_assoc, length_app. done.
Qed.

Lemma b64_ntop_correct_witness : b64_ntop [77; 97] (replicate 6 7) = (4, [84; 87; 69; 61; 0; 7]).
Proof.
  assert (Hb : bytes [77; 97]) by bytes_tac.
  exact (b64_ntop_correct [77; 97] (replicate 6 7) Hb ltac:(cbn; lia)).
Defined.

(** C38: with a buffer (not a null pointer) at least as long as the string, and
    a string shorter than 2^31 bytes, b64_pton accepts exactly the strings that
    are, white space anywhere aside, the RFC 4648 encoding of some bytes, with
    its canonical padding and zero slop bits: it then returns how many bytes
    there are and stores them at the start of the buffer; on every other such
    string it returns -1. *)
Theorem b64_pton_correct s target : (length s <= length target)%nat -> Z.of_nat (length s) < 2 ^ 31 ->
  let r := b64_pton s (Some target) in
  (forall d, bytes d -> strip s = encode d ->
     r.1 = Z.of_nat (length d) /\ exists t, r.2 = Some (d ++ t) /\ length (d ++ t) = length target) /\
  (r.1 <> -1 -> exists d, bytes d /\ strip s = encode d).
Proof.
  intros Hl H31 r. unfold r. rewrite <- pton_strip.
  assert (Hls : (length (strip s) <= length s)%nat).
  { clear. induction s as [|c s IH]; [done|]. rewrite strip_cons. destruct (isspace c); cbn [length]; lia. }
  pose proof (scan_ok (length (strip s)) (strip s) 0 target (le_n _) (strip_spaceless s) ltac:(lia) ltac:(lia) ltac:(lia)) as H.
  unfold scanned in H. unfold b64_pton. destruct (pton_loop (strip s) _) as [st e]. cbn [fst snd] in *. split.
  - intros d Hd E. rewrite E, (b64_decode_encode (length d)) in H by done.
    destruct H as (-> & T' & HT & HlT & Htk). split; [done|]. exists (drop (length d) T').
    cbn [Z.to_nat Nat.add take app] in Htk.
    assert (Hd' : d ++ drop (length d) T' = T') by (rewrite <- Htk at 1; apply take_drop).
    by rewrite Hd', HT.
  - intros Hne. destruct (decode (strip s)) as [d|] eqn:E; [|done].
    apply (encode_decode _ _ _ (le_n _)) in E as [E Hb]. by exists d.
Qed.

Lemma b64_pton_correct_witness : (b64_pton [84; 32; 87; 69; 10; 61] (Some (replicate 6 7))).1 = 2.
Proof.
  assert (Hb : bytes [77; 97]) by bytes_tac.
  exact (proj1 (proj1 (b64_pton_correct [84; 32; 87; 69; 10; 61] (replicate 6 7) (le_n 6) eq_refl) [77; 97] Hb eq_refl)).
Defined.

(** Without a buffer the bits that are left over are not looked at. *)
Example pton_null : b64_pton [84; 87; 70; 61] None = (2, None) /\ (b64_pton [84; 87; 70; 61] (Some (replicate 4 0))).1 = -1.
Proof. split; reflexivity. Qed.
