(* ===== verification/Hsearch.v ===== *)
(** * Hsearch: the hash tables of search/hsearch.c.

    Open addressing with triangular probing, refined to a finite map. A key is
    the string it points to; a pointer to an entry is its index; whether
    calloc succeeds is an argument. *)

From S2P Require Import Prelude.

Definition MINSIZE : Z := 8.
Definition MAXSIZE : Z := u64 (-1) / 2 + 1.

(** [ENTRY]; a null key is [None]. *)
Record entry := mkEntry { ekey : option (list Z); edata : Z }.
Definition empty_entry : entry := mkEntry None 0.

(** [struct __tab]; a null [entries] is []. *)
Record tab := mkTab { entries : list entry; mask : Z; used : Z }.

Definition keyhash (k : list Z) : Z := fold_left (fun h b => u64 (31 * h + b)) k 0.

(** The entry at an index. *)
Definition at_ (es : list entry) (i : Z) : entry := default empty_entry (es !! Z.to_nat i).

(** [for (i=hash,j=1; ; i+=j++)]: the index of the first entry that stops the
    probing, [None] when [fuel] probes find none. *)
Fixpoint probe (fuel : nat) (stop : entry -> bool) (es : list entry) (mask i j : Z) : option Z :=
  match fuel with
  | O => None
  | S fuel =>
      let e := i .& mask in
      if stop (at_ es e) then Some e else probe fuel stop es mask (u64 (i + j)) (u64 (j + 1))
  end.

Definition no_key (e : entry) : bool := match ekey e with None => true | Some _ => false end.
Definition key_or_empty (key : list Z) (e : entry) : bool :=
  match ekey e with None => true | Some k => bool_decide (k = key) end.

Definition lookup (key : list Z) (hash : Z) (t : tab) : option Z :=
  probe (Z.to_nat (mask t + 1)) (key_or_empty key) (entries t) (mask t) hash 1.

(** [for (newsize = MINSIZE; newsize < nel; newsize *= 2);] *)
Definition new_size (nel : Z) : Z := while_ 64 (fun s => s <? nel) (fun s => s * 2) MINSIZE.

(** Copying one entry of the old table. *)
Definition move (mask : Z) (new : option (list entry)) (e : entry) : option (list entry) :=
  match ekey e with
  | None => new
  | Some k =>
      es ← new;
      i ← probe (Z.to_nat (mask + 1)) no_key es mask (keyhash k) 1;
      Some (<[Z.to_nat i := e]> es)
  end.

(** Whether calloc(n, size) succeeds: never when the product overflows. *)
Definition calloc (mem : bool) (n size : Z) : bool := mem && (n * size <? 2 ^ 64).
Definition sizeof_entry : Z := 16.

(** The result and the table. *)
Definition resize (nel : Z) (t : tab) (mem : bool) : option (bool * tab) :=
  let nel := if nel >? MAXSIZE then MAXSIZE else nel in
  let newsize := new_size nel in
  if negb (calloc mem newsize sizeof_entry) then Some (false, t)
  else
    let mask := newsize - 1 in
    es ← fold_left (move mask) (entries t) (Some (replicate (Z.to_nat newsize) empty_entry));
    Some (true, mkTab es mask (used t)).

(** [__hcreate_r]: the result and [htab->__tab]; [mem1], [mem2] for the two
    callocs. *)
Definition hcreate_r (nel : Z) (mem1 mem2 : bool) : option (bool * option tab) :=
  if negb mem1 then Some (false, None)
  else
    '(r, t) ← resize nel (mkTab [] 0 0) mem2;
    Some (r, if r : bool then Some t else None).

Inductive ACTION := FIND | ENTER.

(** [__hsearch_r]: the result, [*retval] and the table. *)
Definition hsearch_r (key : list Z) (data : Z) (action : ACTION) (t : tab) (mem : bool) :
    option (bool * option Z * tab) :=
  let hash := keyhash key in
  e ← lookup key hash t;
  match ekey (at_ (entries t) e) with
  | Some _ => Some (true, Some e, t)
  | None =>
      match action with
      | FIND => Some (false, None, t)
      | ENTER =>
          let t := mkTab (<[Z.to_nat e := mkEntry (Some key) data]> (entries t)) (mask t) (u64 (used t + 1)) in
          if used t >? mask t - mask t / 4 then
            '(r, t) ← resize (u64 (2 * used t)) t mem;
            if negb r then
              Some (false, None,
                mkTab (<[Z.to_nat e := mkEntry None data]> (entries t)) (mask t) (u64 (used t - 1)))
            else
              e ← lookup key hash t;
              Some (true, Some e, t)
          else Some (true, Some e, t)
      end
  end.

(** [__hdestroy_r], and the functions on the static table [htab]. *)
Definition hdestroy_r (htab : option tab) : option tab := None.
Definition hcreate (nel : Z) (mem1 mem2 : bool) : option (bool * option tab) := hcreate_r nel mem1 mem2.
Definition hdestroy (htab : option tab) : option tab := hdestroy_r htab.
Definition hsearch (key : list Z) (data : Z) (action : ACTION) (htab : tab) (mem : bool) :
    option (option Z * tab) :=
  '(_, e, t) ← hsearch_r key data action htab mem; Some (e, t).

(** ** Triangular probing *)

(** The [p]-th index probed from the hash [h] in a table of [2^n] entries. *)
Definition slot (n h p : Z) : Z := (h + p * (p + 1) / 2) mod 2 ^ n.

Lemma tri_even p : 2 * (p * (p + 1) / 2) = p * (p + 1).
Proof.
  assert (H : (2 | p * (p + 1))).
  { destruct (Z.Even_or_Odd p) as [[k ->]|[k ->]].
    - exists (k * (2 * k + 1)). lia.
    - exists ((2 * k + 1) * (k + 1)). lia. }
  destruct H as [k H]. rewrite H, Z.div_mul by lia. lia.
Qed.

(** An odd factor does not contribute to a power of two. *)
Lemma pow2_odd n m x : 0 <= n -> Z.Odd m -> (2 ^ n | m * x) -> (2 ^ n | x).
Proof.
  intros Hn [e ->]. revert x. pattern n. apply natlike_ind; [|clear n Hn; intros n Hn IH|done]; intros x H.
  - exists x. lia.
  - rewrite Z.pow_succ_r in H by done. destruct H as [c H].
    destruct (Z.Even_or_Odd x) as [[y ->]|[y ->]]; [|nia].
    destruct (IH y) as [d ->]; [exists c; nia|]. exists d. rewrite Z.pow_succ_r by done. lia.
Qed.

Lemma slot_inj n h a b : 0 <= n -> 0 <= a < 2 ^ n -> 0 <= b < 2 ^ n -> slot n h a = slot n h b -> a = b.
Proof.
  intros Hn. assert (Hlt : forall a b, 0 <= a -> a < b -> b < 2 ^ n -> slot n h a = slot n h b -> False).
  2:{ intros Ha Hb E. destruct (Z.lt_trichotomy a b) as [H|[H|H]]; [|done|]; exfalso.
      - apply (Hlt a b); lia.
      - apply (Hlt b a); lia. }
  clear a b. intros a b Ha Hab Hb E. unfold slot in E.
  assert (Hdiv : (2 ^ (n + 1) | (b - a) * (a + b + 1))).
  { rewrite Z.pow_add_r by lia. change (2 ^ 1) with 2.
    assert (Hd : ((h + b * (b + 1) / 2) - (h + a * (a + 1) / 2)) mod 2 ^ n = 0).
    { rewrite Zminus_mod, E, Z.sub_diag. apply Z.mod_0_l. lia. }
    apply Z.mod_divide in Hd; [|lia]. destruct Hd as [c Hc]. exists c.
    pose proof (tri_even a). pose proof (tri_even b). nia. }
  assert (Hcase : (2 ^ (n + 1) | a + b + 1) \/ (2 ^ (n + 1) | b - a)).
  { destruct (Z.Even_or_Odd (b - a)) as [Hev|Hodd].
    - right. apply (pow2_odd (n + 1) (a + b + 1)); [lia| |by rewrite Z.mul_comm].
      destruct Hev as [e He]. exists (e + a). lia.
    - left. by apply (pow2_odd (n + 1) (b - a)); [lia|..]. }
  destruct Hcase as [H|H]; (apply Z.divide_pos_le in H; [|lia]); rewrite Z.pow_add_r in H by lia; lia.
Qed.

(** [2^n] probes visit every entry. *)
Lemma slot_cover n h i : 0 <= n -> 0 <= i < 2 ^ n -> exists p, 0 <= p < 2 ^ n /\ slot n h p = i.
Proof.
  intros Hn Hi. set (l := map (slot n h) (seqZ 0 (2 ^ n))).
  assert (Hnd : NoDup l).
  { apply NoDup_fmap_2_strong; [|apply NoDup_seqZ]. intros a b Ha%elem_of_seqZ Hb%elem_of_seqZ.
    apply slot_inj; lia. }
  assert (Hsub : l ⊆+ seqZ 0 (2 ^ n)).
  { apply NoDup_submseteq; [done|]. intros x Hx. apply list_elem_of_fmap in Hx as (p & -> & _).
    apply elem_of_seqZ. pose proof (Z.mod_pos_bound (h + p * (p + 1) / 2) (2 ^ n)). unfold slot. lia. }
  assert (Hp : l ≡ₚ seqZ 0 (2 ^ n)).
  { apply submseteq_length_Permutation; [done|]. unfold l. by rewrite length_map. }
  assert (Hin : i ∈ l) by (rewrite Hp; apply elem_of_seqZ; lia).
  apply list_elem_of_fmap in Hin as (p & -> & Hp'%elem_of_seqZ). exists p. split; [lia|done].
Qed.

Lemma probe_slot n h p : 0 <= n <= 64 -> u64 (h + p * (p + 1) / 2) .& (2 ^ n - 1) = slot n h p.
Proof.
  intros Hn. replace (2 ^ n - 1) with (Z.ones n) by (rewrite Z.ones_equiv; lia).
  rewrite Z.land_ones by lia. unfold slot, u64, wrap. apply Z.mod_mod_divide.
  exists (2 ^ (64 - n)). rewrite <- Z.pow_add_r by lia. f_equal. lia.
Qed.

(** ** Probing *)
Lemma keyhash_word k : word 64 (keyhash k).
Proof.
  unfold keyhash. assert (H : forall h, word 64 h -> word 64 (fold_left (fun h b => u64 (31 * h + b)) k h)).
  { induction k as [|b k IH]; intros h Hh; [done|]. cbn. apply IH, u64_word. }
  apply H. unfold word. lia.
Qed.

(** The first probe, from the [p]-th on, that stops. *)
Lemma probe_first n stop es h fuel : 0 <= n <= 63 -> forall p, 0 <= p -> p + Z.of_nat fuel <= 2 ^ n ->
  (exists q, p <= q < p + Z.of_nat fuel /\ stop (at_ es (slot n h q)) = true) ->
  exists q, p <= q < p + Z.of_nat fuel /\ stop (at_ es (slot n h q)) = true /\
    (forall r, p <= r < q -> stop (at_ es (slot n h r)) = false) /\
    probe fuel stop es (2 ^ n - 1) (u64 (h + p * (p + 1) / 2)) (p + 1) = Some (slot n h q).
Proof.
  intros Hn. induction fuel as [|fuel IH]; intros p Hp Hf (q & Hq & Hs); [lia|].
  cbn [probe]. rewrite probe_slot by lia. destruct (stop (at_ es (slot n h p))) eqn:E.
  - exists p. split; [lia|]. split; [done|]. split; [lia|done].
  - assert (Hpq : p <> q) by (intros ->; congruence).
    destruct (IH (p + 1)) as (q' & Hq' & Hs' & Hr & Hpr); [lia|lia|exists q; split; [lia|done]|].
    exists q'. split; [lia|]. split; [done|]. split.
    + intros r Hrr. destruct (Z.eq_dec r p) as [->|]; [done|]. apply Hr. lia.
    + rewrite <- Hpr. f_equal.
      * unfold u64. rewrite wrap_add_l. f_equal. pose proof (tri_even p). pose proof (tri_even (p + 1)). lia.
      * unfold u64. apply wrap_small. unfold word.
        assert (2 ^ n <= 2 ^ 63) by (apply Z.pow_le_mono_r; lia). lia.
Qed.

(** From the beginning, over the whole table. *)
Lemma probe_all n stop es k : 0 <= n <= 63 ->
  (exists i, 0 <= i < 2 ^ n /\ stop (at_ es i) = true) ->
  exists p, 0 <= p < 2 ^ n /\ stop (at_ es (slot n (keyhash k) p)) = true /\
    (forall r, 0 <= r < p -> stop (at_ es (slot n (keyhash k) r)) = false) /\
    probe (Z.to_nat (2 ^ n - 1 + 1)) stop es (2 ^ n - 1) (keyhash k) 1 = Some (slot n (keyhash k) p).
Proof.
  intros Hn (i & Hi & Hs). destruct (slot_cover n (keyhash k) i) as (p & Hp & E); [lia|done|].
  destruct (probe_first n stop es (keyhash k) (Z.to_nat (2 ^ n - 1 + 1)) Hn 0) as (q & Hq & Hq' & Hr & Hpr).
  - lia.
  - lia.
  - exists p. rewrite E. split; [lia|done].
  - exists q. split; [lia|]. split; [done|]. split; [done|].
    rewrite <- Hpr. f_equal. cbn. rewrite Z.add_0_r. symmetry. apply wrap_small, keyhash_word.
Qed.

(** ** The table *)
Abbreviation keys := (omap (M := list) ekey).
Definition held (es : list entry) (k : list Z) (d : Z) : Prop := mkEntry (Some k) d ∈ es.

(** [2^n] entries with distinct keys, each reached by the probes from its
    hash over entries with keys only. *)
Record table (n : Z) (es : list entry) : Prop := mkTable {
  tb_len : Z.of_nat (length es) = 2 ^ n;
  tb_nodup : NoDup (keys es);
  tb_reach : forall i k d, es !! i = Some (mkEntry (Some k) d) -> exists p, 0 <= p < 2 ^ n /\
    slot n (keyhash k) p = Z.of_nat i /\
    forall q, 0 <= q < p -> no_key (at_ es (slot n (keyhash k) q)) = false
}.

Lemma slot_bound n h p : 0 <= n -> 0 <= slot n h p < 2 ^ n.
Proof. intros Hn. apply Z.mod_pos_bound. lia. Qed.

Lemma at_lookup n es i : table n es -> 0 <= i < 2 ^ n -> es !! Z.to_nat i = Some (at_ es i).
Proof.
  intros [Hl _ _] Hi. unfold at_. destruct (lookup_lt_is_Some_2 es (Z.to_nat i)) as [e ->]; [lia|done].
Qed.

Lemma elem_keys es k : k ∈ keys es <-> exists d, held es k d.
Proof.
  unfold held. rewrite list_elem_of_omap. split.
  - intros ([k' d] & He & Hk). cbn in Hk. subst. by exists d.
  - intros (d & H). by exists (mkEntry (Some k) d).
Qed.

Lemma keys_unique es : NoDup (keys es) -> forall i j k d d',
  es !! i = Some (mkEntry (Some k) d) -> es !! j = Some (mkEntry (Some k) d') -> i = j.
Proof.
  induction es as [|[k0 d0] es IH]; intros Hnd i j k d d'; [done|].
  assert (Hnot : forall i d, k0 = Some k -> es !! i = Some (mkEntry (Some k) d) -> False).
  { intros i' d1 -> Hi. cbn in Hnd. apply NoDup_cons in Hnd as [Hnin _]. apply Hnin, elem_keys.
    exists d1. by eapply list_elem_of_lookup_2. }
  assert (Hnd' : NoDup (keys es)) by (cbn in Hnd; destruct k0; [by apply NoDup_cons in Hnd as [_ ?]|done]).
  destruct i as [|i], j as [|j]; cbn; try done.
  - intros [= -> ->] H. exfalso. by apply (Hnot j d').
  - intros H [= -> ->]. exfalso. by apply (Hnot i d).
  - intros H1 H2. f_equal. by apply (IH Hnd' i j k d d').
Qed.

(** There is an entry without a key when there are fewer keys than entries. *)
Lemma free_entry n es : table n es -> Z.of_nat (length (keys es)) < 2 ^ n ->
  exists i, 0 <= i < 2 ^ n /\ no_key (at_ es i) = true.
Proof.
  intros [Hl _ _] Hc. assert (H : exists e, e ∈ es /\ no_key e = true).
  { rewrite <- Hl in Hc. clear Hl. induction es as [|[[k|] d] es IH]; cbn in Hc; [lia| |].
    - destruct IH as (e & He & Hn); [lia|]. exists e. split; [by right|done].
    - exists (mkEntry None d). split; [by left|done]. }
  destruct H as (e & He & Hn). apply list_elem_of_lookup in He as [i Hi].
  exists (Z.of_nat i). pose proof (lookup_lt_Some _ _ _ Hi). split; [lia|].
  unfold at_. by rewrite Nat2Z.id, Hi.
Qed.

(** Looking a key up that the table holds. *)
Lemma lookup_held n es k i d : 0 <= n <= 63 -> table n es -> es !! i = Some (mkEntry (Some k) d) ->
  probe (Z.to_nat (2 ^ n - 1 + 1)) (key_or_empty k) es (2 ^ n - 1) (keyhash k) 1 = Some (Z.of_nat i).
Proof.
  intros Hn Ht Hi. pose proof Ht as [Hl Hnd Hre]. destruct (Hre i k d Hi) as (p & Hp & Hs & Hq).
  assert (Hstop : key_or_empty k (at_ es (slot n (keyhash k) p)) = true).
  { unfold at_. rewrite Hs, Nat2Z.id, Hi. unfold key_or_empty. cbn. by apply bool_decide_eq_true. }
  destruct (probe_all n (key_or_empty k) es k Hn) as (p' & Hp' & Hs' & Hr & Hpr).
  { exists (slot n (keyhash k) p). split; [apply slot_bound; lia|done]. }
  rewrite Hpr. f_equal. destruct (Z.lt_trichotomy p' p) as [Hlt|[->|Hlt]]; [|done|].
  - specialize (Hq p' ltac:(lia)). pose proof (at_lookup n es (slot n (keyhash k) p') Ht) as Ha.
    specialize (Ha ltac:(apply slot_bound; lia)). destruct (at_ es (slot n (keyhash k) p')) as [[k'|] d'] eqn:Ee;
      [|done]. cbn in Hs'. apply bool_decide_eq_true in Hs' as ->.
    pose proof (keys_unique es Hnd _ _ _ _ _ Ha Hi) as Hii.
    assert (slot n (keyhash k) p' = slot n (keyhash k) p).
    { rewrite Hs. pose proof (slot_bound n (keyhash k) p' ltac:(lia)). lia. }
    exfalso. assert (p' = p) by (apply (slot_inj n (keyhash k)); (done || lia)). lia.
  - exfalso. rewrite (Hr p) in Hstop by lia. done.
Qed.

(** Looking a key up that it does not hold, by either test: the first free
    entry among the probes. *)
Definition first_free (n : Z) (es : list entry) (k : list Z) (p : Z) : Prop :=
  0 <= p < 2 ^ n /\ no_key (at_ es (slot n (keyhash k) p)) = true /\
  forall q, 0 <= q < p -> no_key (at_ es (slot n (keyhash k) q)) = false.

Lemma lookup_absent n es k stop : 0 <= n <= 63 -> table n es -> Z.of_nat (length (keys es)) < 2 ^ n ->
  (forall d, ~ held es k d) -> (stop = no_key \/ stop = key_or_empty k) ->
  exists p, first_free n es k p /\
    probe (Z.to_nat (2 ^ n - 1 + 1)) stop es (2 ^ n - 1) (keyhash k) 1 = Some (slot n (keyhash k) p).
Proof.
  intros Hn Ht Hc Habs Hstop.
  assert (Heq : forall i, 0 <= i < 2 ^ n -> stop (at_ es i) = no_key (at_ es i)).
  { intros i Hi. destruct Hstop as [->| ->]; [done|]. pose proof (at_lookup n es i Ht Hi) as Ha.
    destruct (at_ es i) as [[k'|] d']; [|done]. unfold key_or_empty, no_key. cbn.
    apply bool_decide_eq_false. intros ->. apply (Habs d'). by eapply list_elem_of_lookup_2. }
  destruct (probe_all n stop es k Hn) as (p & Hp & Hs & Hr & Hpr).
  { destruct (free_entry n es Ht Hc) as (i & Hi & Hf). exists i. by rewrite Heq. }
  exists p. split; [|done]. split; [done|]. rewrite <- Heq by (apply slot_bound; lia). split; [done|].
  intros q Hq. rewrite <- Heq by (apply slot_bound; lia). by apply Hr.
Qed.

(** ** Filling a free entry *)
Lemma keys_fill (es : list entry) (i : nat) e k d : es !! i = Some e -> no_key e = true ->
  keys (<[i := mkEntry (Some k) d]> es) ≡ₚ k :: keys es.
Proof.
  intros Hi He. rewrite <- (take_drop_middle es i e Hi) at 2.
  rewrite insert_take_drop by (by eapply lookup_lt_Some). rewrite !omap_app. cbn.
  destruct e as [[k'|] d']; [done|]. by rewrite Permutation_middle.
Qed.

Lemma keys_blank (es : list entry) (i : nat) e d : es !! i = Some e -> no_key e = true -> keys (<[i := mkEntry None d]> es) = keys es.
Proof.
  intros Hi He. rewrite <- (take_drop_middle es i e Hi) at 2.
  rewrite insert_take_drop by (by eapply lookup_lt_Some). rewrite !omap_app. cbn.
  by destruct e as [[k'|] d'].
Qed.

Lemma at_insert n es i j e : Z.of_nat (length es) = 2 ^ n -> 0 <= i < 2 ^ n -> 0 <= j < 2 ^ n ->
  at_ (<[Z.to_nat i := e]> es) j = if i =? j then e else at_ es j.
Proof.
  intros Hl Hi Hj. unfold at_. destruct (Z.eqb_spec i j) as [->|Hne].
  - by rewrite list_lookup_insert_eq by lia.
  - by rewrite list_lookup_insert_ne by lia.
Qed.

Lemma table_fill n es k d p : 0 <= n -> table n es -> (forall d', ~ held es k d') -> first_free n es k p ->
  table n (<[Z.to_nat (slot n (keyhash k) p) := mkEntry (Some k) d]> es).
Proof.
  intros Hn Ht Habs (Hp & Hfree & Hocc). pose proof Ht as [Hl Hnd Hre].
  set (i := slot n (keyhash k) p) in *. assert (Hi : 0 <= i < 2 ^ n) by (by apply slot_bound).
  pose proof (at_lookup n es i Ht Hi) as Ha. split.
  - by rewrite length_insert.
  - rewrite (keys_fill _ _ _ k d Ha Hfree). apply NoDup_cons. split; [|done].
    intros (d' & Hd)%elem_keys. by apply (Habs d').
  - intros j k' d' Hj.
    assert (Hocc' : forall h q, no_key (at_ es (slot n h q)) = false ->
      no_key (at_ (<[Z.to_nat i := mkEntry (Some k) d]> es) (slot n h q)) = false).
    { intros h q Hq. rewrite (at_insert n) by (done || by apply slot_bound).
      by destruct (i =? slot n h q). }
    destruct (decide (j = Z.to_nat i)) as [->|Hne].
    + rewrite list_lookup_insert_eq in Hj by lia. injection Hj as <- <-.
      exists p. split; [done|]. split; [fold i; lia|]. intros q Hq. by apply Hocc', Hocc.
    + rewrite list_lookup_insert_ne in Hj by done. destruct (Hre j k' d' Hj) as (p' & Hp' & Hs & Hq).
      exists p'. split; [done|]. split; [done|]. intros q Hqq. by apply Hocc', Hq.
Qed.

Lemma held_fill n es i k d k' d' : table n es -> 0 <= i < 2 ^ n -> no_key (at_ es i) = true ->
  held (<[Z.to_nat i := mkEntry (Some k) d]> es) k' d' <-> (k' = k /\ d' = d) \/ held es k' d'.
Proof.
  intros Ht Hi Hfree. pose proof (at_lookup n es i Ht Hi) as Ha. pose proof (lookup_lt_Some _ _ _ Ha) as Hlt.
  unfold held. rewrite <- (take_drop_middle es (Z.to_nat i) _ Ha) at 2.
  rewrite insert_take_drop by done. rewrite !elem_of_app, !elem_of_cons.
  assert (Hne : mkEntry (Some k') d' <> at_ es i) by (intros E; by rewrite <- E in Hfree).
  split; [intros [H|[[= -> ->]|H]]; tauto|]. intros [[-> ->]|[H|[H|H]]]; tauto.
Qed.

(** A table stays one when an entry without a key loses its data. *)
Lemma table_blank n es i d : table n es -> 0 <= i < 2 ^ n -> no_key (at_ es i) = true ->
  table n (<[Z.to_nat i := mkEntry None d]> es) /\
  keys (<[Z.to_nat i := mkEntry None d]> es) = keys es /\
  (forall k' d', held (<[Z.to_nat i := mkEntry None d]> es) k' d' <-> held es k' d').
Proof.
  intros Ht Hi Hfree. pose proof Ht as [Hl Hnd Hre]. pose proof (at_lookup n es i Ht Hi) as Ha.
  assert (Hk := keys_blank es _ _ d Ha Hfree). split; [|split; [done|]].
  - split; [by rewrite length_insert|by rewrite Hk|]. intros j k' d' Hj.
    destruct (decide (j = Z.to_nat i)) as [->|Hne]; [by rewrite list_lookup_insert_eq in Hj by lia|].
    rewrite list_lookup_insert_ne in Hj by done. destruct (Hre j k' d' Hj) as (p & Hp & Hs & Hq).
    exists p. split; [done|]. split; [done|]. intros q Hqq. specialize (Hq q Hqq).
    assert (Hn : 0 <= n) by (destruct (Z.lt_ge_cases n 0); [rewrite Z.pow_neg_r in Hp by done; lia|done]).
    rewrite (at_insert n) by (done || by apply slot_bound).
    destruct (Z.eqb_spec i (slot n (keyhash k') q)) as [E|]; [|done]. rewrite <- E, Hfree in Hq. done.
  - intros k' d'. pose proof (lookup_lt_Some _ _ _ Ha) as Hlt. unfold held.
    rewrite <- (take_drop_middle es (Z.to_nat i) _ Ha) at 2. rewrite insert_take_drop by done.
    rewrite !elem_of_app, !elem_of_cons.
    assert (Hne : mkEntry (Some k') d' <> at_ es i) by (intros E; by rewrite <- E in Hfree).
    split; [intros [H|[[=]|H]]; tauto|]. intros [H|[H|H]]; tauto.
Qed.

(** ** resize *)
Lemma new_size_spec nel : nel <= 2 ^ 63 ->
  exists n, 3 <= n <= 63 /\ new_size nel = 2 ^ n /\ nel <= 2 ^ n.
Proof.
  intros Hnel. destruct (while_inv (fun s => exists n, 3 <= n <= 63 /\ s = 2 ^ n)
    (fun s => Z.to_nat (63 - Z.log2 s)) (fun s => s <? nel) (fun s => s * 2) 64 MINSIZE) as [(n & Hn & E) Hc].
  - exists 3. split; [lia|done].
  - intros s (n & Hn & ->) Hlt. apply Z.ltb_lt in Hlt.
    assert (Hn' : n < 63) by (apply (Z.pow_lt_mono_r_iff 2); lia). split.
    + exists (n + 1). split; [lia|]. by rewrite Z.pow_add_r by lia.
    + replace (2 ^ n * 2) with (2 ^ (n + 1)) by (by rewrite Z.pow_add_r by lia).
      rewrite !Z.log2_pow2 by lia. lia.
  - vm_compute. lia.
  - exists n. split; [done|]. unfold new_size. split; [done|]. rewrite <- E. by apply Z.ltb_ge in Hc.
Qed.

Lemma pow2_eq m n : 3 <= m -> 2 ^ m = 2 ^ n -> m = n.
Proof.
  intros Hm E. destruct (Z.lt_ge_cases n 0) as [H|H]; [|apply (Z.pow_inj_r 2); lia].
  rewrite (Z.pow_neg_r 2 n) in E by done. lia.
Qed.

(** The size is the least one. *)
Lemma new_size_min nel n : nel <= 2 ^ 63 -> new_size nel = 2 ^ n -> n = 3 \/ 2 ^ (n - 1) < nel.
Proof.
  intros Hnel. unfold new_size. change MINSIZE with (2 ^ 3).
  assert (H : forall fuel m, 3 <= m -> while_ fuel (fun s => s <? nel) (fun s => s * 2) (2 ^ m) = 2 ^ n ->
    n = m \/ 2 ^ (n - 1) < nel).
  { induction fuel as [|fuel IH]; intros m Hm; cbn [while_].
    - intros E. left. symmetry. by apply pow2_eq.
    - destruct (Z.ltb_spec (2 ^ m) nel) as [Hlt|Hge].
      + replace (2 ^ m * 2) with (2 ^ (m + 1)) by (by rewrite Z.pow_add_r by lia). intros E.
        destruct (IH (m + 1) ltac:(lia) E) as [->|]; [right|by right].
        by replace (m + 1 - 1) with m by lia.
      + intros E. left. symmetry. by apply pow2_eq. }
  apply H. lia.
Qed.

Lemma move_all n old : forall es, 0 <= n <= 63 -> table n es -> NoDup (keys es ++ keys old) ->
  Z.of_nat (length (keys es) + length (keys old)) < 2 ^ n ->
  exists es', fold_left (move (2 ^ n - 1)) old (Some es) = Some es' /\ table n es' /\
    length (keys es') = (length (keys es) + length (keys old))%nat /\
    (forall k d, held es' k d <-> held es k d \/ held old k d).
Proof.
  induction old as [|[[k|] d] old IH]; intros es Hn Ht Hnd Hc; cbn [fold_left].
  - exists es. split; [done|]. split; [done|]. split; [cbn; lia|]. intros k d. unfold held.
    rewrite elem_of_nil. tauto.
  - cbn in Hnd, Hc. unfold move at 2. cbn [ekey mbind option_bind].
    assert (Habs : forall d', ~ held es k d').
    { intros d' Hd. apply NoDup_app in Hnd as (_ & Hdis & _). apply (Hdis k); [apply elem_keys; by exists d'|by left]. }
    destruct (lookup_absent n es k no_key Hn Ht) as (p & Hff & Hpr); [lia|done|by left|].
    rewrite Hpr. cbn [mbind option_bind]. pose proof (slot_bound n (keyhash k) p ltac:(lia)) as Hi.
    pose proof Hff as (_ & Hfree & _). pose proof (at_lookup n es _ Ht Hi) as Ha.
    assert (Hk := keys_fill es _ _ k d Ha Hfree). destruct (IH _ Hn (table_fill n es k d p ltac:(lia) Ht Habs Hff))
      as (es' & Hf & Ht' & Hl & Hh).
    + rewrite Hk. cbn. by rewrite <- Permutation_middle in Hnd.
    + rewrite Hk. cbn. lia.
    + exists es'. split; [done|]. split; [done|]. split; [rewrite Hl, Hk; cbn; lia|].
      intros k' d'. rewrite Hh, (held_fill n) by done. unfold held. rewrite elem_of_cons.
      split; [intros [[[-> ->]|H]|H]; tauto|]. intros [H|[[= -> ->]|H]]; tauto.
  - unfold move at 2. cbn [ekey]. destruct (IH es Hn Ht Hnd Hc) as (es' & Hf & Ht' & Hl & Hh).
    exists es'. split; [done|]. split; [done|]. split; [done|]. intros k' d'. rewrite Hh. unfold held.
    rewrite elem_of_cons. split; [tauto|]. intros [H|[[=]|H]]; tauto.
Qed.

Lemma keys_replicate n : keys (replicate n empty_entry) = [].
Proof. induction n; done. Qed.

Lemma table_empty n : 0 <= n -> table n (replicate (Z.to_nat (2 ^ n)) empty_entry).
Proof.
  intros Hn. split; [rewrite length_replicate; lia|rewrite keys_replicate; constructor|].
  intros i k d Hi. apply lookup_replicate in Hi as [Hi _]. done.
Qed.

(** Either nothing happens, or the entries are moved to a table of the least
    power of two that is at least 8 and [nel]. *)
Lemma resize_ok nel t mem : 0 <= nel < 2 ^ 64 -> NoDup (keys (entries t)) ->
  Z.of_nat (length (keys (entries t))) < Z.max 8 nel ->
  (resize nel t mem = Some (false, t) /\ (mem = false \/ 2 ^ 59 < nel)) \/
  (mem = true /\ exists n es, 3 <= n <= 59 /\ nel <= 2 ^ n /\
    resize nel t mem = Some (true, mkTab es (2 ^ n - 1) (used t)) /\ table n es /\
    length (keys es) = length (keys (entries t)) /\
    (forall k d, held es k d <-> held (entries t) k d)).
Proof.
  intros Hnel Hnd Hc. unfold resize. change MAXSIZE with (2 ^ 63).
  set (nel' := if nel >? 2 ^ 63 then 2 ^ 63 else nel).
  assert (Hnel' : nel' <= 2 ^ 63) by (unfold nel'; destruct (Z.gtb_spec nel (2 ^ 63)); lia).
  destruct (new_size_spec nel' Hnel') as (n & Hn & Es & Hge). rewrite Es.
  destruct (calloc mem (2 ^ n) sizeof_entry) eqn:Ecal; cbn [negb]; [right|left].
  2:{ split; [done|]. apply andb_false_iff in Ecal as [->|Hsz]; [by left|right].
      apply Z.ltb_ge in Hsz. unfold sizeof_entry in Hsz.
      assert (Hn60 : 60 <= n) by (apply (Z.pow_le_mono_r_iff 2); lia).
      pose proof (new_size_min nel' n Hnel' Es) as Hmin.
      assert (2 ^ 59 <= 2 ^ (n - 1)) by (apply Z.pow_le_mono_r; lia).
      unfold nel' in Hmin. destruct (Z.gtb_spec nel (2 ^ 63)); lia. }
  unfold calloc, sizeof_entry in Ecal. apply andb_true_iff in Ecal as [-> Hsz].
  assert (Hn59 : n <= 59).
  { apply Z.ltb_lt in Hsz. assert (n < 60); [|lia]. apply (Z.pow_lt_mono_r_iff 2); lia. }
  assert (Hge' : nel <= 2 ^ n).
  { unfold nel' in Hge. destruct (Z.gtb_spec nel (2 ^ 63)); [|done].
    assert (2 ^ n <= 2 ^ 59) by (apply Z.pow_le_mono_r; lia). lia. }
  assert (H8 : 8 <= 2 ^ n) by (change 8 with (2 ^ 3); apply Z.pow_le_mono_r; lia).
  split; [done|]. destruct (move_all n (entries t) (replicate (Z.to_nat (2 ^ n)) empty_entry))
    as (es & Hf & Ht & Hl & Hh).
  - lia.
  - apply table_empty. lia.
  - by rewrite keys_replicate.
  - rewrite keys_replicate. cbn. lia.
  - exists n, es. split; [lia|]. split; [done|]. rewrite Hf. cbn [mbind option_bind]. split; [done|].
    split; [done|]. rewrite keys_replicate in Hl. split; [done|]. intros k d. rewrite Hh.
    split; [|tauto]. intros [H|]; [|done]. exfalso. unfold held in H.
    apply elem_of_replicate in H as [[=] _].
Qed.

(** ** The map a table stands for *)
Definition pairs (es : list entry) : list (list Z * Z) :=
  omap (fun e => match ekey e with Some k => Some (k, edata e) | None => None end) es.
Definition contents (t : tab) : gmap (list Z) Z := list_to_map (pairs (entries t)).

Lemma pairs_keys es : (pairs es).*1 = keys es.
Proof. induction es as [|[[k|] d] es IH]; cbn; [done| |exact IH]. f_equal. exact IH. Qed.

Lemma elem_pairs es k d : (k, d) ∈ pairs es <-> held es k d.
Proof.
  unfold held. induction es as [|[[k'|] d'] es IH]; [by rewrite !elem_of_nil| |]; rewrite elem_of_cons, <- IH.
  - cbn. rewrite elem_of_cons. split; (intros [[=]|H]; [subst; by left|by right]).
  - cbn. split; [by right|intros [[=]|H]; done].
Qed.

Lemma contents_held t k d : NoDup (keys (entries t)) -> contents t !! k = Some d <-> held (entries t) k d.
Proof.
  intros Hnd. unfold contents. rewrite <- elem_of_list_to_map, elem_pairs; [done|by rewrite pairs_keys].
Qed.

Lemma contents_none t k : NoDup (keys (entries t)) -> contents t !! k = None -> forall d, ~ held (entries t) k d.
Proof. intros Hnd H d Hd. apply contents_held in Hd; [congruence|done]. Qed.

Lemma size_list_to_map (l : list (list Z * Z)) : NoDup l.*1 ->
  size (list_to_map l : gmap (list Z) Z) = length l.
Proof.
  induction l as [|[k d] l IH]; cbn; [done|]. intros [Hk Hnd]%NoDup_cons.
  rewrite map_size_insert_None by (by apply not_elem_of_list_to_map_1). by rewrite IH.
Qed.

Lemma contents_size t : NoDup (keys (entries t)) -> size (contents t) = length (keys (entries t)).
Proof.
  intros Hnd. unfold contents. rewrite size_list_to_map by (by rewrite pairs_keys).
  by rewrite <- pairs_keys, length_fmap.
Qed.

(** Tables with the same entries, and with one more, by their maps. *)
Lemma contents_same t t' : NoDup (keys (entries t)) -> NoDup (keys (entries t')) ->
  (forall k d, held (entries t') k d <-> held (entries t) k d) -> contents t' = contents t.
Proof.
  intros Hnd Hnd' H. apply map_eq. intros k. apply option_eq. intros d.
  by rewrite !contents_held.
Qed.
Lemma contents_add t t' k d : NoDup (keys (entries t)) -> NoDup (keys (entries t')) ->
  contents t !! k = None ->
  (forall k' d', held (entries t') k' d' <-> (k' = k /\ d' = d) \/ held (entries t) k' d') ->
  contents t' = <[k := d]> (contents t).
Proof.
  intros Hnd Hnd' Hk H. apply map_eq. intros k'. apply option_eq. intros d'.
  rewrite contents_held, H by done. destruct (decide (k' = k)) as [->|Hne].
  - rewrite lookup_insert_eq. pose proof (contents_none t k Hnd Hk d'). split; [intros [[_ ->]|?]; done|].
    intros [= ->]. by left.
  - rewrite lookup_insert_ne, contents_held by done. tauto.
Qed.

(** ** The invariant *)
Record inv (t : tab) : Prop := mkInv {
  inv_table : exists n, 3 <= n <= 59 /\ mask t = 2 ^ n - 1 /\ table n (entries t);
  inv_used : used t = Z.of_nat (length (keys (entries t)));
  inv_load : used t <= mask t - mask t / 4
}.

Lemma inv_nodup t : inv t -> NoDup (keys (entries t)).
Proof. intros [(n & _ & _ & Ht) _ _]. apply Ht. Qed.

Lemma load_room n u : 3 <= n -> u <= 2 ^ n - 1 - (2 ^ n - 1) / 4 -> u + 1 < 2 ^ n.
Proof.
  intros Hn Hu. assert (2 ^ 3 <= 2 ^ n) by (apply Z.pow_le_mono_r; lia). change (2 ^ 3) with 8 in *.
  Z.div_mod_to_equations; lia.
Qed.

Lemma load_resized n u : 3 <= n -> 2 * u <= 2 ^ n -> u <= 2 ^ n - 1 - (2 ^ n - 1) / 4.
Proof.
  intros Hn Hu. assert (2 ^ 3 <= 2 ^ n) by (apply Z.pow_le_mono_r; lia). change (2 ^ 3) with 8 in *.
  Z.div_mod_to_equations; lia.
Qed.

Lemma hcreate_ok nel mem1 mem2 : word 64 nel ->
  hcreate_r nel mem1 mem2 = Some (false, None) \/
  exists t, hcreate_r nel mem1 mem2 = Some (true, Some t) /\ inv t /\ contents t = ∅.
Proof.
  intros Hnel. unfold hcreate_r. destruct mem1; cbn [negb]; [|by left].
  destruct (resize_ok nel (mkTab [] 0 0) mem2) as [[-> _]|(_ & n & es & Hn & _ & -> & Ht & Hl & Hh)].
  - exact Hnel.
  - constructor.
  - cbn. lia.
  - by left.
  - right. cbn [mbind option_bind]. eexists. split; [done|]. split.
    + split; cbn [entries mask used]; [by exists n|by rewrite Hl|].
      apply load_resized; [lia|]. assert (0 < 2 ^ n) by lia. lia.
    + apply map_eq. intros k. rewrite lookup_empty. apply option_eq. intros d.
      rewrite contents_held by apply Ht. rewrite Hh. unfold held. by rewrite elem_of_nil.
Qed.

(** ** hsearch_r *)
Lemma hsearch_present k data action t mem d : inv t -> contents t !! k = Some d ->
  exists i, hsearch_r k data action t mem = Some (true, Some i, t) /\
    entries t !! Z.to_nat i = Some (mkEntry (Some k) d).
Proof.
  intros [(n & Hn & Em & Ht) _ _] Hk. apply contents_held in Hk; [|apply Ht].
  apply list_elem_of_lookup in Hk as [i Hi]. exists (Z.of_nat i).
  unfold hsearch_r, lookup. rewrite Em, (lookup_held n _ k i d) by (done || lia).
  cbn [mbind option_bind]. unfold at_. by rewrite Nat2Z.id, Hi.
Qed.

Lemma hsearch_absent_find k data t mem : inv t -> contents t !! k = None ->
  hsearch_r k data FIND t mem = Some (false, None, t).
Proof.
  intros Hinv Hk. pose proof Hinv as [(n & Hn & Em & Ht) Hu Hload].
  rewrite Em in Hload. pose proof (load_room n (used t) ltac:(lia) Hload).
  destruct (lookup_absent n (entries t) k (key_or_empty k)) as (p & (_ & Hfree & _) & Hpr);
    [lia|done|lia|apply contents_none; [apply Ht|done]|by right|].
  unfold hsearch_r, lookup. rewrite Em, Hpr. cbn [mbind option_bind].
  unfold no_key in Hfree. by destruct (ekey (at_ _ _)).
Qed.

(** The table after the store and before the test of the load. *)
Lemma filled_ok n t k data p : 3 <= n <= 59 -> mask t = 2 ^ n - 1 -> table n (entries t) ->
  used t = Z.of_nat (length (keys (entries t))) -> used t <= mask t - mask t / 4 ->
  contents t !! k = None -> first_free n (entries t) k p ->
  let i := slot n (keyhash k) p in
  let t1 := mkTab (<[Z.to_nat i := mkEntry (Some k) data]> (entries t)) (mask t) (u64 (used t + 1)) in
  table n (entries t1) /\ used t1 = used t + 1 /\ used t1 = Z.of_nat (length (keys (entries t1))) /\
  contents t1 = <[k := data]> (contents t) /\ entries t1 !! Z.to_nat i = Some (mkEntry (Some k) data).
Proof.
  intros Hn Em Ht Hu Hload Hk Hff i t1. pose proof Ht as [Hl Hnd _].
  assert (Hi : 0 <= i < 2 ^ n) by (apply slot_bound; lia). pose proof Hff as (_ & Hfree & _).
  pose proof (at_lookup n _ i Ht Hi) as Ha.
  assert (Habs := contents_none t k Hnd Hk).
  assert (Ht1 : table n (entries t1)) by (apply table_fill; (done || lia)).
  assert (Hk1 : length (keys (entries t1)) = S (length (keys (entries t)))).
  { unfold t1. cbn [entries]. by rewrite (keys_fill _ _ _ k data Ha Hfree). }
  assert (Hu1 : used t1 = used t + 1).
  { unfold t1. cbn [used]. apply wrap_small. unfold word. rewrite Em in Hload.
    pose proof (load_room n (used t) ltac:(lia) Hload).
    assert (2 ^ n <= 2 ^ 59) by (apply Z.pow_le_mono_r; lia). lia. }
  split; [done|]. split; [done|]. split; [lia|]. split.
  - apply contents_add; [done|apply Ht1|done|]. intros k' d'. by apply (held_fill n).
  - unfold t1. cbn [entries]. rewrite list_lookup_insert_eq; [done|lia].
Qed.

Lemma hsearch_absent_enter k data t mem : inv t -> contents t !! k = None ->
  (exists t', hsearch_r k data ENTER t mem = Some (false, None, t') /\ inv t' /\ contents t' = contents t /\
     (6 <= size (contents t))%nat /\ (mem = false \/ 2 ^ 58 <= Z.of_nat (size (contents t)))) \/
  (exists t' i, hsearch_r k data ENTER t mem = Some (true, Some i, t') /\ inv t' /\
     contents t' = <[k := data]> (contents t) /\ entries t' !! Z.to_nat i = Some (mkEntry (Some k) data)).
Proof.
  intros Hinv Hk. pose proof Hinv as [(n & Hn & Em & Ht) Hu Hload].
  pose proof Hload as Hload'. rewrite Em in Hload'. pose proof (load_room n (used t) ltac:(lia) Hload') as Hroom.
  destruct (lookup_absent n (entries t) k (key_or_empty k)) as (p & Hff & Hpr);
    [lia|done|lia|apply contents_none; [apply Ht|done]|by right|].
  assert (Hlk : lookup k (keyhash k) t = Some (slot n (keyhash k) p)) by (unfold lookup; by rewrite Em, Hpr).
  unfold hsearch_r. rewrite Hlk. cbn [mbind option_bind].
  pose proof Hff as (_ & Hfree & _). set (i := slot n (keyhash k) p) in *.
  assert (Hi : 0 <= i < 2 ^ n) by (apply slot_bound; lia).
  replace (ekey (at_ (entries t) i)) with (@None (list Z)) by (unfold no_key in Hfree; by destruct (ekey _)).
  destruct (filled_ok n t k data p Hn Em Ht Hu Hload Hk Hff) as (Ht1 & Hu1 & Hc1 & Hcon1 & He1).
  fold i in Ht1, Hu1, Hc1, Hcon1, He1.
  set (t1 := mkTab (<[Z.to_nat i := mkEntry (Some k) data]> (entries t)) (mask t) (u64 (used t + 1))) in *.
  destruct (Z.gtb_spec (used t1) (mask t1 - mask t1 / 4)) as [Hgt|Hle].
  2:{ right. exists t1, i. split; [done|]. split; [|done]. split; [by exists n|done|done]. }
  assert (H8 : 2 ^ 3 <= 2 ^ n <= 2 ^ 59) by (split; apply Z.pow_le_mono_r; lia). change (2 ^ 3) with 8 in H8.
  assert (Hw : u64 (2 * used t1) = 2 * used t1) by (apply wrap_small; unfold word; lia).
  rewrite Hw. destruct (resize_ok (2 * used t1) t1 mem) as
    [[-> Hfail]|(_ & m & es & Hm & Hge & -> & Ht2 & Hl2 & Hh2)]; [lia|apply Ht1|lia| |].
  - left. cbn [mbind option_bind negb]. change (mask t1) with (mask t) in *.
    assert (Hent : <[Z.to_nat i := mkEntry None data]> (entries t1) =
      <[Z.to_nat i := mkEntry None data]> (entries t)) by apply list_insert_insert_eq.
    assert (Hub : u64 (used t1 - 1) = used t).
    { rewrite Hu1. unfold u64. rewrite wrap_small; unfold word; lia. }
    rewrite Hent, Hub. destruct (table_blank n (entries t) i data Ht Hi Hfree) as (Htb & Hkb & Hhb).
    eexists. split; [done|]. rewrite contents_size by apply Ht. split; [|split].
    + split; cbn [entries mask used]; [by exists n|by rewrite Hkb|done].
    + apply contents_same; [apply Ht|exact (tb_nodup _ _ Htb)|exact Hhb].
    + rewrite Em in Hgt. split.
      * assert (6 <= used t); [|lia]. Z.div_mod_to_equations; lia.
      * destruct Hfail as [|Hbig]; [by left|right]. lia.
  - right. cbn [mbind option_bind negb]. unfold lookup. cbn [entries mask used].
    assert (Hd : held es k data) by (apply Hh2; by eapply list_elem_of_lookup_2).
    apply list_elem_of_lookup in Hd as [j Hj].
    rewrite (lookup_held m es k j data) by (done || lia). cbn [mbind option_bind].
    eexists _, (Z.of_nat j). split; [done|]. cbn [entries]. rewrite Nat2Z.id. split; [|split; [|done]].
    + split; cbn [entries mask used]; [by exists m|lia|apply load_resized; lia].
    + rewrite <- Hcon1. apply contents_same; [apply Ht1|exact (tb_nodup _ _ Ht2)|exact Hh2].
Qed.

(** ** Histories *)
Inductive op := Hsearch (key : list Z) (data : Z) (action : ACTION) (mem : bool).

(** The entries the calls return; None if a call does not terminate. *)
Fixpoint run (t : tab) (ops : list op) : option (list (option entry)) :=
  match ops with
  | [] => Some []
  | Hsearch k data action mem :: ops =>
      '(e, t) ← hsearch k data action t mem;
      rs ← run t ops;
      Some ((match e with Some i => Some (at_ (entries t) i) | None => None end) :: rs)
  end.

Inductive spec_step (m : gmap (list Z) Z) : op -> option entry -> gmap (list Z) Z -> Prop :=
  | spec_found k data action mem d : m !! k = Some d ->
      spec_step m (Hsearch k data action mem) (Some (mkEntry (Some k) d)) m
  | spec_absent k data mem : m !! k = None -> spec_step m (Hsearch k data FIND mem) None m
  | spec_enter k data mem : m !! k = None ->
      spec_step m (Hsearch k data ENTER mem) (Some (mkEntry (Some k) data)) (<[k := data]> m)
  | spec_nomem k data mem : m !! k = None -> (6 <= size m)%nat ->
      (mem = false \/ 2 ^ 58 <= Z.of_nat (size m)) -> spec_step m (Hsearch k data ENTER mem) None m.
Inductive spec_run : gmap (list Z) Z -> list op -> list (option entry) -> Prop :=
  | spec_nil m : spec_run m [] []
  | spec_cons m o r m' ops rs : spec_step m o r m' -> spec_run m' ops rs ->
      spec_run m (o :: ops) (r :: rs).

Lemma hsearch_refines t k data action mem : inv t -> exists e t',
  hsearch k data action t mem = Some (e, t') /\ inv t' /\
  spec_step (contents t) (Hsearch k data action mem)
    (match e with Some i => Some (at_ (entries t') i) | None => None end) (contents t').
Proof.
  intros Hinv. unfold hsearch. destruct (contents t !! k) as [d|] eqn:Ek.
  - destruct (hsearch_present k data action t mem d Hinv Ek) as (i & -> & Hi). cbn [mbind option_bind].
    exists (Some i), t. unfold at_. rewrite Hi. split; [done|]. split; [done|]. by apply spec_found.
  - destruct action.
    + rewrite (hsearch_absent_find k data t mem Hinv Ek). exists None, t. split; [done|]. split; [done|].
      by apply spec_absent.
    + destruct (hsearch_absent_enter k data t mem Hinv Ek) as
        [(t' & -> & Hinv' & Hc & Hsz & Hmem)|(t' & i & -> & Hinv' & Hc & Hi)]; cbn [mbind option_bind].
      * exists None, t'. rewrite Hc. split; [done|]. split; [done|]. by apply spec_nomem.
      * exists (Some i), t'. rewrite Hc. unfold at_. rewrite Hi. split; [done|]. split; [done|].
        by apply spec_enter.
Qed.

Lemma run_refines ops : forall t, inv t -> exists rs, run t ops = Some rs /\ spec_run (contents t) ops rs.
Proof.
  induction ops as [|[k data action mem] ops IH]; intros t Hinv; [exists []; split; [done|constructor]|].
  destruct (hsearch_refines t k data action mem Hinv) as (e & t' & He & Hinv' & Hs).
  destruct (IH t' Hinv') as (rs & Hr & Hsr). cbn [run]. rewrite He. cbn [mbind option_bind]. rewrite Hr.
  eexists. split; [done|]. by econstructor.
Qed.

(** ** The properties *)

(** C10: a hash table refines a finite map: hcreate fails or gives an empty
    table, and in every history of hsearch calls on it each call terminates
    and returns the entry of an equal key if there is one, nothing for FIND
    otherwise, and for ENTER the new entry, which later calls find, or nothing
    and no effect when calloc cannot provide the larger table, which needs at
    least 6 keys; growing the table loses no entry. *)
Theorem hsearch_refines_map nel mem1 mem2 : word 64 nel ->
  hcreate nel mem1 mem2 = Some (false, None) \/
  exists t, hcreate nel mem1 mem2 = Some (true, Some t) /\
    forall ops, exists rs, run t ops = Some rs /\ spec_run ∅ ops rs.
Proof.
  intros Hnel. destruct (hcreate_ok nel mem1 mem2 Hnel) as [H|(t & H & Hinv & Hc)]; [by left|right].
  exists t. split; [exact H|]. intros ops. rewrite <- Hc. by apply run_refines.
Qed.

Lemma hsearch_refines_map_witness :
  exists t, hcreate 3 true true = Some (true, Some t) /\
    forall ops, exists rs, run t ops = Some rs /\ spec_run ∅ ops rs.
Proof.
  assert (H : word 64 3) by (split; done).
  destruct (hsearch_refines_map 3 true true H) as [E|E]; [discriminate E|exact E].
Defined.

(** __hsearch_r keeps the table invariant (2^n entries, distinct keys each
    reached by the triangular probes from its hash over occupied entries, the
    count of keys in used, a load of at most three quarters), which makes
    every probe loop terminate within 2^n steps, whatever the allocator does. *)
Theorem hsearch_invariant t k data action mem : inv t ->
  exists r e t', hsearch_r k data action t mem = Some (r, e, t') /\ inv t' /\
    (r = true <-> exists i d, e = Some i /\ entries t' !! Z.to_nat i = Some (mkEntry (Some k) d)).
Proof.
  intros Hinv. destruct (contents t !! k) as [d|] eqn:Ek.
  - destruct (hsearch_present k data action t mem d Hinv Ek) as (i & -> & Hi).
    exists true, (Some i), t. split; [done|]. split; [done|]. split; [by exists i, d|done].
  - destruct action.
    + rewrite (hsearch_absent_find k data t mem Hinv Ek). exists false, None, t. split; [done|].
      split; [done|]. split; [done|]. by intros (i & d & ? & _).
    + destruct (hsearch_absent_enter k data t mem Hinv Ek) as
        [(t' & -> & Hinv' & _)|(t' & i & -> & Hinv' & _ & Hi)].
      * exists false, None, t'. split; [done|]. split; [done|]. split; [done|]. by intros (i & d & ? & _).
      * exists true, (Some i), t'. split; [done|]. split; [done|]. split; [by exists i, data|done].
Qed.

Lemma hsearch_invariant_witness :
  exists r e t', hsearch_r [97] 5 ENTER (mkTab (replicate 8 empty_entry) 7 0) true = Some (r, e, t') /\ inv t' /\
    (r = true <-> exists i d, e = Some i /\ entries t' !! Z.to_nat i = Some (mkEntry (Some [97]) d)).
Proof.
  apply hsearch_invariant. split; cbn; [|done|done]. exists 3. split; [lia|]. split; [done|].
  exact (table_empty 3 ltac:(lia)).
Defined.
