(* ===== verification/Futex.v ===== *)
(** * Futex: threads that share memory and block in the kernel.

    The locks of src/src/thread are small programs over one or two [int]s
    that several threads access with atomic operations (atomic.h) and over
    two system calls, FUTEX_WAIT and FUTEX_WAKE (internal/pthread_impl.h,
    [__futexwait] and [__wake]). This file holds what those models share: a
    thread is the control point [pc] it has reached, [next] gives the atomic
    action it does there, and [step] interleaves the threads. Memory is
    sequentially consistent, as the full barriers of the [a_*] operations
    make it for the volatile words of a lock. *)

From S2P Require Import Prelude.

(** ** The action a thread does next *)

(** [Run outs]: one atomic memory access; the new control point and memory
    is one of [outs] (several when the caller has a choice, none when it has
    nothing left to do). [Sleep back others]: asleep in FUTEX_WAIT; woken, it goes on at [back];
    a timeout or a signal makes the call return at one of [others].
    [Wake n back]: FUTEX_WAKE of [n] threads. *)
Inductive action (pc sh : Type) :=
  | Run (outs : list (pc * sh))
  | Sleep (back : pc) (others : list pc)
  | Wake (n : Z) (back : pc).
Arguments Run {pc sh} outs.
Arguments Sleep {pc sh} back others.
Arguments Wake {pc sh} n back.

(** A program of threads: what each does at a control point. *)
Class Program (pc sh : Type) := next : pc -> sh -> action pc sh.

(** [__wake]: a negative count means every waiter. *)
Definition wake_count (cnt : Z) : Z := if cnt <? 0 then 2 ^ 31 - 1 else cnt.

(** [a_cas], [a_fetch_add] and [a_swap] on a 32-bit [int]: the value found
    and the value left. *)
Definition a_cas (l t s : Z) : Z * Z := (l, if l =? t then s else l).
Definition a_fetch_add (l v : Z) : Z * Z := (l, sgn 32 (l + v)).
Definition a_swap (l v : Z) : Z * Z := (l, v).

(** [sgn 32] of a value an [int] can hold. *)
Lemma sgn32_small x : - 2 ^ 31 <= x < 2 ^ 31 -> sgn 32 x = x.
Proof. apply (sgn_small 32). lia. Qed.

Lemma u32_int v : - 2 ^ 31 <= v < 2 ^ 31 -> u32 v = if v <? 0 then v + 2 ^ 32 else v.
Proof.
  intros H. unfold u32, wrap. destruct (Z.ltb_spec v 0).
  - symmetry. apply (Z.mod_unique _ _ (-1)); lia.
  - apply Z.mod_small. lia.
Qed.

(** The bits of an [int] below the sign. *)
Lemma low31_spec v : - 2 ^ 31 <= v < 2 ^ 31 ->
  v < 0 /\ u32 v .& 0x7fffffff = v + 2 ^ 31 \/ 0 <= v /\ u32 v .& 0x7fffffff = v.
Proof.
  intros H. rewrite (u32_int v H). change 0x7fffffff with (Z.ones 31).
  rewrite Z.land_ones by lia. destruct (Z.ltb_spec v 0).
  - left. split; [done|]. symmetry. apply (Z.mod_unique _ _ 1); lia.
  - right. split; [done|]. apply Z.mod_small. lia.
Qed.

(** Case analysis on the comparisons of a goal. *)
Ltac zcase :=
  repeat match goal with
  | |- context [if ?a =? ?b then _ else _] => destruct (Z.eqb_spec a b)
  | |- context [if negb (?a =? ?b) then _ else _] => destruct (Z.eqb_spec a b); cbn [negb]
  | |- context [if ?a <? ?b then _ else _] => destruct (Z.ltb_spec a b)
  end.

(** Opens the outcomes of a [Run]. *)
Ltac outcomes Hn Hq :=
  injection Hn as <-;
  repeat first [apply list_elem_of_singleton in Hq; injection Hq as -> ->
               |apply elem_of_nil in Hq; destruct Hq
               |apply elem_of_cons in Hq as [Hq|Hq]; [injection Hq as -> ->|]].
(** Case analysis on the tests of the outcome, boolean connectives included. *)
Ltac tests :=
  repeat match goal with
  | |- context [if ?a =? ?b then _ else _] => destruct (Z.eqb_spec a b)
  | |- context [negb (?a =? ?b)] => destruct (Z.eqb_spec a b)
  | |- context [(?a =? ?b) || _] => destruct (Z.eqb_spec a b)
  | |- context [if ?a <? ?b then _ else _] => destruct (Z.ltb_spec a b)
  | _ => progress cbn [negb orb andb]
  end.


Section system.
  Context {pc sh : Type} `{!Program pc sh}.
  Implicit Types (p q : pc) (m : sh) (ts : list pc).

Definition asleep p m : bool := match next p m with Sleep _ _ => true | _ => false end.

(** FUTEX_WAKE wakes [n] sleeping threads, any of them, or all if there are fewer. *)
Inductive woken m : Z -> list pc -> list pc -> Prop :=
  | woken_done n ts : n <= 0 \/ Forall (fun p => asleep p m = false) ts -> woken m n ts ts
  | woken_one n i p back others ts ts' :
      0 < n -> ts !! i = Some p -> next p m = Sleep back others ->
      woken m (n - 1) (<[i := back]> ts) ts' -> woken m n ts ts'.

(** Some set of threads can always be woken. *)
Lemma woken_exists m n ts : exists ts', woken m n ts ts'.
Proof.
  destruct (Z.le_gt_cases n 0) as [Hn|Hn]; [exists ts; apply woken_done; by left|].
  revert ts. pattern n. apply Zlt_0_ind; [|lia]. clear. intros n IH Hn ts.
  destruct (decide (Forall (fun p => asleep p m = false) ts)) as [H|H]; [exists ts; apply woken_done; by right|].
  apply not_Forall_Exists in H; [|apply _]. apply Exists_exists in H as (p & [i Hi]%list_elem_of_lookup & Hp).
  cbn in Hp. unfold asleep in Hp. destruct (next p m) as [|back others|] eqn:E; [done| |done].
  destruct (Z.eqb_spec n 0) as [->|Hn0]; [exists ts; apply woken_done; lia|].
  destruct (IH (n - 1) ltac:(lia) (<[i := back]> ts)) as [ts' Hts]. exists ts'.
  apply (woken_one m n i p back others); try done. lia.
Qed.

Inductive label := LRun (i : nat) | LWake (i : nat) | LReturn (i : nat).

Inductive step : label -> sh * list pc -> sh * list pc -> Prop :=
  | step_run i p outs q m m' ts :
      ts !! i = Some p -> next p m = Run outs -> (q, m') ∈ outs ->
      step (LRun i) (m, ts) (m', <[i := q]> ts)
  | step_wake i p n back m ts ts' :
      ts !! i = Some p -> next p m = Wake n back -> woken m n (<[i := back]> ts) ts' ->
      step (LWake i) (m, ts) (m, ts')
  | step_return i p back others q m ts :
      ts !! i = Some p -> next p m = Sleep back others -> q ∈ others ->
      step (LReturn i) (m, ts) (m, <[i := q]> ts).

Inductive reachable (s0 : sh * list pc) : sh * list pc -> Prop :=
  | reachable_refl : reachable s0 s0
  | reachable_step l s s' : reachable s0 s -> step l s s' -> reachable s0 s'.

(** Runs in which no FUTEX_WAIT returns for another reason than a wake-up,
    and only the threads of [who] move by themselves. *)
Inductive run (who : nat -> Prop) : nat -> sh * list pc -> sh * list pc -> Prop :=
  | run_nil s : run who 0 s s
  | run_cons k l i s s' s'' :
      l = LRun i \/ l = LWake i -> who i -> step l s s' -> run who k s' s'' ->
      run who (S k) s s''.

(** The run in which the threads of a list move in turn, each with the
    outcome of the given rank: a way to compute reachable states. *)
Fixpoint sched (is_ : list (nat * nat)) (s : sh * list pc) : option (sh * list pc) :=
  match is_ with
  | [] => Some s
  | (i, k) :: is_ =>
      p ← s.2 !! i;
      match next p s.1 with
      | Run outs => o ← outs !! k; sched is_ (o.2, <[i := o.1]> s.2)
      | _ => None
      end
  end.

Lemma sched_reachable s0 is_ : forall s s', reachable s0 s -> sched is_ s = Some s' -> reachable s0 s'.
Proof.
  induction is_ as [|[i k] is_ IH]; intros [m ts] s' Hr; cbn; [by intros [= <-]|].
  destruct (ts !! i) as [p|] eqn:Hi; [|done]. cbn.
  destruct (next p m) as [outs| |] eqn:Hp; [|done|done]. cbn.
  destruct (outs !! k) as [[q m']|] eqn:Hk; [|done]. apply IH.
  apply (reachable_step _ _ _ _ Hr (step_run i p outs q m m' ts Hi Hp (list_elem_of_lookup_2 _ _ _ Hk))).
Qed.

(** ** Sums over the threads *)

(** The invariants of the locks are equations between the shared words and
    sums of weights of the threads' control points. *)
Fixpoint total (f : pc -> Z) ts : Z :=
  match ts with
  | [] => 0
  | p :: ts => f p + total f ts
  end.

Lemma total_insert f ts i p q : ts !! i = Some p ->
  total f (<[i := q]> ts) = total f ts - f p + f q.
Proof.
  revert i; induction ts as [|r ts IH]; intros [|i]; try done.
  - intros [= ->]. change (f q + total f ts = f p + total f ts - f p + f q). lia.
  - intros H. change (f r + total f (<[i := q]> ts) = f r + total f ts - f p + f q).
    rewrite (IH i H). lia.
Qed.

Lemma total_nonneg f ts : (forall p, 0 <= f p) -> 0 <= total f ts.
Proof. intros Hf. induction ts as [|p ts IH]; cbn; [lia|]. specialize (Hf p). lia. Qed.

Lemma total_le f g ts : (forall p, f p <= g p) -> total f ts <= total g ts.
Proof. intros H. induction ts as [|p ts IH]; cbn; [lia|]. specialize (H p). lia. Qed.

Lemma total_bound f ts : (forall p, f p <= 1) -> total f ts <= Z.of_nat (length ts).
Proof. intros Hf. induction ts as [|p ts IH]; cbn [total length]; [lia|]. specialize (Hf p). lia. Qed.

Lemma total_lookup f ts i p : (forall q, 0 <= f q) -> ts !! i = Some p -> f p <= total f ts.
Proof.
  intros Hf. revert i; induction ts as [|r ts IH]; intros [|i]; cbn; try done.
  - intros [= ->]. pose proof (total_nonneg f ts Hf). lia.
  - intros H. specialize (IH _ H). specialize (Hf r). lia.
Qed.

Lemma total_room f ts i p : (forall q, f q <= 1) -> ts !! i = Some p ->
  total f ts <= f p + Z.of_nat (length ts) - 1.
Proof.
  intros Hf. revert i; induction ts as [|r ts IH]; intros [|i]; cbn [total length]; try done.
  - intros [= ->]. pose proof (total_bound f ts Hf). lia.
  - intros H. specialize (IH i H). specialize (Hf r). lia.
Qed.

Lemma total_lookup_two f ts i j p q : (forall r, 0 <= f r) -> i <> j ->
  ts !! i = Some p -> ts !! j = Some q -> f p + f q <= total f ts.
Proof.
  intros Hf. revert i j; induction ts as [|r ts IH]; intros [|i] [|j]; cbn; try done; intros Hij.
  - intros [= ->] Hj. pose proof (total_lookup f ts j q Hf Hj). lia.
  - intros Hi [= ->]. pose proof (total_lookup f ts i p Hf Hi). lia.
  - intros Hi Hj. specialize (IH i j ltac:(lia) Hi Hj). specialize (Hf r). lia.
Qed.

Lemma total_unique f ts i j p q : (forall r, 0 <= f r) -> total f ts <= 1 ->
  ts !! i = Some p -> ts !! j = Some q -> f p = 1 -> f q = 1 -> i = j.
Proof.
  intros Hf H Hi Hj Hp Hq. destruct (decide (i = j)) as [|Hij]; [done|].
  pose proof (total_lookup_two f ts i j p q Hf Hij Hi Hj). lia.
Qed.

Lemma total_pos f ts : 0 < total f ts -> exists i p, ts !! i = Some p /\ 0 < f p.
Proof.
  induction ts as [|p ts IH]; cbn; [lia|]. intros H.
  destruct (decide (0 < f p)) as [Hp|Hp]; [by exists O, p|].
  destruct IH as (i & q & Hi & Hq); [lia|]. by exists (S i), q.
Qed.

Lemma total_replicate f n p : total f (replicate n p) = Z.of_nat n * f p.
Proof. induction n as [|n IH]; cbn [replicate total]; [lia|]. rewrite IH. lia. Qed.

(** ** Invariants *)

(** A property of the memory and the threads is an invariant when every
    single move of one thread keeps it: the moves of the program, the return
    of a sleeping thread and the end of a wake-up. *)
Record preserved (I : sh -> list pc -> Prop) : Prop := {
  preserved_run m ts i p outs q m' :
    I m ts -> ts !! i = Some p -> next p m = Run outs -> (q, m') ∈ outs -> I m' (<[i := q]> ts);
  preserved_back m ts i p back others q :
    I m ts -> ts !! i = Some p -> next p m = Sleep back others -> q = back \/ q ∈ others ->
    I m (<[i := q]> ts);
  preserved_waker m ts i p n back :
    I m ts -> ts !! i = Some p -> next p m = Wake n back -> I m (<[i := back]> ts);
}.

Lemma woken_preserved I m n ts ts' : preserved I -> woken m n ts ts' -> I m ts -> I m ts'.
Proof.
  intros HI. induction 1 as [n ts _|n i p back others ts ts' _ Hi Hp _ IH]; [done|].
  intros H. apply IH, (preserved_back I HI m ts i p back others); auto.
Qed.

Lemma step_preserved I l s s' : preserved I -> step l s s' -> I s.1 s.2 -> I s'.1 s'.2.
Proof.
  intros HI. destruct 1 as [i p outs q m m' ts Hi Hp Hq|i p n back m ts ts' Hi Hp Hw|i p back others q m ts Hi Hp Hq];
    cbn; intros H.
  - exact (preserved_run I HI _ _ _ _ _ _ _ H Hi Hp Hq).
  - apply (woken_preserved I m n _ ts' HI Hw). exact (preserved_waker I HI _ _ _ _ _ _ H Hi Hp).
  - exact (preserved_back I HI _ _ _ _ _ _ _ H Hi Hp (or_intror Hq)).
Qed.

Lemma reachable_preserved I s0 s : preserved I -> I s0.1 s0.2 -> reachable s0 s -> I s.1 s.2.
Proof. intros HI H0. induction 1 as [|l s s' _ IH Hs]; [done|]. exact (step_preserved I l s s' HI Hs IH). Qed.

Lemma length_woken m n ts ts' : woken m n ts ts' -> length ts' = length ts.
Proof. induction 1 as [|n i p back others ts ts' _ _ _ _ IH]; [done|]. by rewrite IH, length_insert. Qed.

Lemma length_step l s s' : step l s s' -> length s'.2 = length s.2.
Proof.
  destruct 1 as [| i p n back m ts ts' _ _ Hw |]; cbn; rewrite ?length_insert; try done.
  by rewrite (length_woken _ _ _ _ Hw), length_insert.
Qed.

Lemma length_reachable s0 s : reachable s0 s -> length s.2 = length s0.2.
Proof. induction 1 as [|l s s' _ IH Hs]; [done|]. by rewrite (length_step l s s' Hs). Qed.

Lemma run_app who j k s s' s'' : run who j s s' -> run who k s' s'' -> run who (j + k) s s''.
Proof. induction 1 as [|k' l i s s1 s2 Hl Hi Hs _ IH]; [done|]. intros H. cbn. eapply run_cons; eauto. Qed.

Lemma run_reachable who k s0 s s' : reachable s0 s -> run who k s s' -> reachable s0 s'.
Proof. intros H Hr. revert H. induction Hr; eauto using reachable_step. Qed.

(** The step of thread [i] alone. *)
Lemma run_one (who : nat -> Prop) i p outs q m m' ts : who i -> ts !! i = Some p -> next p m = Run outs ->
  (q, m') ∈ outs -> run who 1 (m, ts) (m', <[i := q]> ts).
Proof.
  intros Hi Hp Hn Hq. eapply run_cons; [by left|exact Hi| |apply run_nil].
  exact (step_run i p outs q m m' ts Hp Hn Hq).
Qed.

(** ** Progress *)

(** In at most [k] moves of the threads of [who], thread [i] gets to a
    control point of [Q]. *)
Definition settles (Q : pc -> Prop) (who : nat -> Prop) (k i : nat) (s : sh * list pc) : Prop :=
  exists k' s' q, (k' <= k)%nat /\ run who k' s s' /\ s'.2 !! i = Some q /\ Q q.

Lemma settles_now (Q : pc -> Prop) who k i s q : s.2 !! i = Some q -> Q q -> settles Q who k i s.
Proof. intros Hi Hq. exists O, s, q. split; [lia|]. split; [apply run_nil|done]. Qed.

Lemma settles_step Q (who : nat -> Prop) k i j l s s' : l = LRun j \/ l = LWake j -> who j -> step l s s' ->
  settles Q who k i s' -> settles Q who (S k) i s.
Proof.
  intros Hl Hj Hs (k' & s'' & q & Hk & Hr & Hq). exists (S k'), s'', q. split; [lia|].
  split; [exact (run_cons _ _ _ _ _ _ _ Hl Hj Hs Hr)|done].
Qed.

Lemma settles_run Q (who : nat -> Prop) k i m ts p outs q m' : who i -> ts !! i = Some p ->
  next p m = Run outs -> (q, m') ∈ outs ->
  (forall ts', ts' !! i = Some q -> settles Q who k i (m', ts')) -> settles Q who (S k) i (m, ts).
Proof.
  intros Hw Hi Hn Hq H. apply (settles_step Q who k i i (LRun i) _ (m', <[i := q]> ts)); [by left|done| |].
  - by apply (step_run i p outs).
  - apply H, list_lookup_insert_eq, (lookup_lt_Some _ _ _ Hi).
Qed.

Lemma settles_self Q (who : nat -> Prop) k i m ts p q m' : who i -> ts !! i = Some p -> next p m = Run [(q, m')] ->
  (forall ts', ts' !! i = Some q -> settles Q who k i (m', ts')) -> settles Q who (S k) i (m, ts).
Proof. intros Hw Hi Hn. apply (settles_run Q who k i m ts p _ q m' Hw Hi Hn). by apply list_elem_of_singleton. Qed.

Lemma settles_le Q who k k' i s : (k <= k')%nat -> settles Q who k i s -> settles Q who k' i s.
Proof. intros Hk (j & s' & q & Hj & H). exists j, s', q. split; [lia|done]. Qed.

Lemma not_asleep m ts : total (fun p => if asleep p m then 1 else 0) ts = 0 ->
  Forall (fun p => asleep p m = false) ts.
Proof.
  induction ts as [|p ts IH]; cbn; [constructor|]. intros H.
  assert (0 <= total (fun p => if asleep p m then 1 else 0) ts) by (apply total_nonneg; intros q; destruct (asleep q m); lia).
  destruct (asleep p m) eqn:E; [lia|]. constructor; [done|apply IH; lia].
Qed.

End system.

Arguments step {pc sh _}.
Arguments reachable {pc sh _}.
Arguments sched {pc sh _}.

(** One move of thread [i] in a [run]: the witnesses are its control point
    and outcome. *)
Ltac move_one Hw Hi := eapply run_one; [exact Hw|exact Hi|reflexivity|].
