(* ===== verification/Lock.v ===== *)
(** * Lock: the internal lock of src/src/thread/__lock.c.

    [__lock] and [__unlock] on one [int] that holds a lock flag in its sign
    bit and a congestion count, by any number of threads: mutual exclusion
    and the encoding of the word, and that no wake-up is lost. *)

From S2P Require Import Prelude Futex.

Notation "'INT_MIN'" := (-2147483648).

(** ** Data: the shared words and the control points *)

Record mem := mkMem { l : Z; need_locks : Z }.

(** Each constructor is the point before one atomic access. The booleans of
    [Held] and [Unlock] only record how the thread entered: they decide nothing. *)
Inductive pc :=
  | Idle                       (* outside *)
  | Lock                       (* about to read libc.need_locks *)
  | Fast (nl : Z)              (* about to a_cas(l, 0, INT_MIN + 1) *)
  | Reset (current : Z)        (* about to store libc.need_locks = 0 *)
  | Spin (i : Z) (current : Z) (* about to a_cas(l, current, INT_MIN + (current + 1)) *)
  | Enter                      (* about to a_fetch_add(l, 1) *)
  | Wait (current : Z)         (* about to __futexwait(l, current, 1) *)
  | Asleep (current : Z)       (* in the kernel *)
  | Acquire (current : Z)      (* about to a_cas(l, current, INT_MIN + current) *)
  | Held (taken : bool)        (* __lock returned *)
  | Unlock (taken : bool)      (* about to test l[0] < 0 *)
  | Release                    (* about to a_fetch_add(l, -(INT_MIN + 1)) *)
  | WakeOne.                   (* about to __wake(l, 1, 1) *)

(** ** Operations *)

(** The head of the spin loop's body, and the loop's exit. *)
Definition spin_loop (i current : Z) : pc :=
  if i <? 10 then Spin i (if current <? 0 then current - (INT_MIN + 1) else current)
  else Enter.
(** The head of the main loop's body. *)
Definition main_loop (current : Z) : pc := if current <? 0 then Wait current else Acquire current.
(** [if (!current) return;] and the spin loop. *)
Definition after_fast (current : Z) : pc := if current =? 0 then Held true else spin_loop 0 current.

Definition set_l (m : mem) (v : Z) : mem := mkMem v (need_locks m).

Definition lock (p : pc) (m : mem) : action pc mem :=
  match p with
  | Lock => Run [(if need_locks m =? 0 then Held false else Fast (need_locks m), m)]
  | Fast nl =>
      let '(current, v) := a_cas (l m) 0 (INT_MIN + 1) in
      Run [(if nl <? 0 then Reset current else after_fast current, set_l m v)]
  | Reset current => Run [(after_fast current, mkMem (l m) 0)]
  | Spin i current =>
      let '(val, v) := a_cas (l m) current (INT_MIN + (current + 1)) in
      Run [(if val =? current then Held true else spin_loop (i + 1) val, set_l m v)]
  | Enter =>
      let '(old, v) := a_fetch_add (l m) 1 in
      Run [(main_loop (old + 1), set_l m v)]
  | Wait current =>
      Run [(if l m =? current then Asleep current else Acquire (current - (INT_MIN + 1)), m)]
  | Asleep current =>
      Sleep (Acquire (current - (INT_MIN + 1))) [Acquire (current - (INT_MIN + 1))]
  | Acquire current =>
      let '(val, v) := a_cas (l m) current (INT_MIN + current) in
      Run [(if val =? current then Held true else main_loop val, set_l m v)]
  | _ => Run []
  end.

Definition unlock (p : pc) (m : mem) : action pc mem :=
  match p with
  | Unlock _ => Run [(if l m <? 0 then Release else Idle, m)]
  | Release =>
      let '(old, v) := a_fetch_add (l m) (- (INT_MIN + 1)) in
      Run [(if negb (old =? INT_MIN + 1) then WakeOne else Idle, set_l m v)]
  | WakeOne => Wake (wake_count 1) Idle
  | _ => Run []
  end.

(** A thread outside may call [__lock]; one that has the lock calls [__unlock]. *)
Definition lock_next (p : pc) (m : mem) : action pc mem :=
  match p with
  | Idle => Run [(Lock, m)]
  | Held t => Run [(Unlock t, m)]
  | Unlock _ | Release | WakeOne => unlock p m
  | _ => lock p m
  end.
#[export] Instance lock_program : Program pc mem := lock_next.

(** [n] threads outside, the lock as LOCK_INIT leaves it. *)
Definition init (nl : Z) (n : nat) : mem * list pc := (mkMem 0 nl, replicate n Idle).

(** ** The invariant *)

(** The thread has the lock: from the CAS that takes it to the add that releases it. *)
Definition holds (p : pc) : Z :=
  match p with
  | Held true | Unlock true | Release => 1
  | Reset current => if current =? 0 then 1 else 0
  | _ => 0
  end.
(** The thread is counted in the word. *)
Definition inside (p : pc) : Z :=
  match p with
  | Wait _ | Asleep _ | Acquire _ => 1
  | _ => holds p
  end.
Definition sleeps (p : pc) : Z := match p with Asleep _ => 1 | _ => 0 end.
(** Awake and bound to try the lock, or to wake another. *)
Definition alert (p : pc) : Z := match p with Wait _ | Acquire _ | WakeOne => 1 | _ => 0 end.
(** Between the calls of [__lock] and of [__unlock]: the critical section. *)
Definition critical (p : pc) : Z := match p with Held _ | Unlock _ | Release => 1 | _ => 0 end.

(** The comments' assertions on [current], at the points where they stand. *)
Definition current_ok (p : pc) : Prop :=
  match p with
  | Spin i c => 0 <= i < 10 /\ 0 <= c < 2 ^ 31 - 1
  | Reset c => c = 0 \/ 0 < c < 2 ^ 31 - 1 \/ INT_MIN < c < 0
  | Wait c | Asleep c => INT_MIN + 1 < c < 0
  | Acquire c => 0 < c < 2 ^ 31 - 1
  | _ => True
  end.

(** The word: INT_MIN when the lock is held, plus the congestion count. *)
Definition encoded (m : mem) (ts : list pc) : Prop :=
  l m = (if total holds ts =? 0 then 0 else INT_MIN) + total inside ts.

(** Control points a thread reaches only when it found the locks off, or
    found that it is the last thread. *)
Definition solo (p : pc) : Z :=
  match p with
  | Held false | Unlock false | Reset _ => 1
  | Fast nl => if nl <? 0 then 1 else 0
  | _ => 0
  end.

Record safe (m : mem) (ts : list pc) : Prop := {
  safe_bound : Z.of_nat (length ts) < 2 ^ 31 - 2;
  safe_one : total holds ts <= 1;
  safe_word : encoded m ts;
  safe_local : Forall current_ok ts;
  safe_solo : 0 < need_locks m /\ total solo ts = 0 \/ length ts = 1%nat;
}.

(** No lost wake-up: with a thread asleep, one has the lock, or is on its way
    to try it, or to wake one. *)
Definition watched (ts : list pc) : Prop :=
  0 < total sleeps ts -> 0 < total holds ts + total alert ts.

(** ** Weights *)
Ltac weigh p := destruct p as [| | |c| | | | | |[]|[]| |]; cbn; try destruct (_ =? 0); try destruct (_ <? 0); lia.
Lemma holds_range p : 0 <= holds p <= 1.
Proof. weigh p. Qed.
Lemma inside_range p : holds p + sleeps p <= inside p <= 1.
Proof. weigh p. Qed.
Lemma sleeps_range p : 0 <= sleeps p <= 1.
Proof. weigh p. Qed.
Lemma alert_range p : 0 <= alert p <= 1.
Proof. weigh p. Qed.
Lemma solo_range p : 0 <= solo p <= 1.
Proof. weigh p. Qed.
Lemma critical_le p : critical p <= holds p + solo p.
Proof. weigh p. Qed.

(** What the sums satisfy in a safe state, for the thread at [p]. *)
Record sums (m : mem) (ts : list pc) (p : pc) : Prop := {
  sums_holds : holds p <= total holds ts;
  sums_inside : inside p + (total holds ts - holds p) + (total sleeps ts - sleeps p) <= total inside ts;
  sums_sleeps : sleeps p <= total sleeps ts;
  sums_alert : alert p <= total alert ts;
  sums_solo : solo p <= total solo ts;
  sums_free : total holds ts = 0 -> l m = total inside ts;
  sums_held : total holds ts = 1 -> l m = INT_MIN + total inside ts;
  sums_range : total holds ts <= 1;
  sums_small : total inside ts < 2 ^ 31 - 2;
  sums_alone : 0 < solo p -> total holds ts = holds p /\ total inside ts = inside p;
}.

Lemma total_split f ts i p : ts !! i = Some p -> total f ts = f p + total f (<[i := Idle]> ts) - f Idle.
Proof. intros Hi. rewrite (total_insert f ts i p Idle Hi). lia. Qed.

Lemma total_inside ts : total holds ts + total sleeps ts <= total inside ts.
Proof.
  induction ts as [|q ts IH]; cbn [total]; [lia|]. pose proof (inside_range q). lia.
Qed.

Lemma total_alone ts i p : length ts = 1%nat -> ts !! i = Some p ->
  total holds ts = holds p /\ total inside ts = inside p.
Proof. destruct ts as [|q [|]], i as [|i]; try done. intros _ [= ->]. cbn. lia. Qed.

Lemma safe_sums m ts i p : safe m ts -> ts !! i = Some p -> sums m ts p.
Proof.
  intros [Hb H1 Hw _ Hsolo] Hi. unfold encoded in Hw.
  pose proof (total_lookup solo ts i p (fun q => proj1 (solo_range q)) Hi).
  assert (0 < solo p -> total holds ts = holds p /\ total inside ts = inside p).
  { intros Hp. destruct Hsolo as [[_ Hz]|Hone]; [lia|]. by apply total_alone with i. }
  pose proof (total_inside (<[i := Idle]> ts)) as Hin.
  pose proof (total_nonneg holds (<[i := Idle]> ts) (fun q => proj1 (holds_range q))).
  rewrite !(total_insert _ _ _ _ _ Hi) in *; cbn in *.
  pose proof (total_bound inside ts (fun q => proj2 (inside_range q))).
  split; try lia.
  - exact (total_lookup _ _ _ _ (fun q => proj1 (sleeps_range q)) Hi).
  - exact (total_lookup _ _ _ _ (fun q => proj1 (alert_range q)) Hi).
  - intros E. rewrite E in Hw. cbn in Hw. lia.
  - intros E. rewrite E in Hw. cbn in Hw. lia.
Qed.

(** A move of one thread keeps a state safe when it keeps the equations. *)
Lemma safe_move m ts i p m' q : safe m ts -> ts !! i = Some p ->
  current_ok q ->
  total holds ts - holds p + holds q <= 1 ->
  l m' = (if total holds ts - holds p + holds q =? 0 then 0 else INT_MIN)
         + (total inside ts - inside p + inside q) ->
  need_locks m' = need_locks m /\ (0 < need_locks m -> solo q = 0) \/ 0 < solo p ->
  safe m' (<[i := q]> ts).
Proof.
  intros Hs Hi Hq H1 Hl Hn. pose proof (safe_sums m ts i p Hs Hi) as Hsum.
  destruct Hs as [Hb _ _ Hloc Hsolo]. split.
  - by rewrite length_insert.
  - by rewrite (total_insert _ _ _ _ _ Hi).
  - unfold encoded. by rewrite !(total_insert _ _ _ _ _ Hi).
  - by apply Forall_insert.
  - rewrite length_insert. destruct Hsolo as [[H0 Hz]|]; [|by right].
    pose proof (sums_solo _ _ _ Hsum). pose proof (solo_range p).
    destruct Hn as [[-> Hn]|]; [|lia]. left. split; [done|].
    rewrite (total_insert _ _ _ _ _ Hi), (Hn H0). lia.
Qed.

(** The same for [watched]. *)
Lemma watched_move m ts i p q : safe m ts -> ts !! i = Some p -> watched ts ->
  (0 < sleeps q -> 0 < total holds ts - holds p + holds q) ->
  holds p + alert p <= holds q + alert q \/ total sleeps ts = sleeps p
    \/ 0 < total holds ts - holds p + holds q ->
  watched (<[i := q]> ts).
Proof.
  intros Hs Hi Hw Hq Hp. pose proof (safe_sums m ts i p Hs Hi) as [].
  unfold watched in *. rewrite !(total_insert _ _ _ _ _ Hi).
  pose proof (alert_range q). pose proof (sleeps_range q). pose proof (sleeps_range p).
  pose proof (holds_range q). lia.
Qed.

(** ** The moves of the program *)

(** What one move establishes, for the thread that was at [p] and is at [q]. *)
Record moved (m : mem) (ts : list pc) (p : pc) (m' : mem) (q : pc) : Prop := {
  moved_ok : current_ok q;
  moved_one : total holds ts - holds p + holds q <= 1;
  moved_word : l m' = (if total holds ts - holds p + holds q =? 0 then 0 else INT_MIN)
                      + (total inside ts - inside p + inside q);
  moved_locks : need_locks m' = need_locks m /\ (0 < need_locks m -> solo q = 0) \/ 0 < solo p;
  moved_sleep : 0 < sleeps q -> 0 < total holds ts - holds p + holds q;
  moved_alert : holds p + alert p <= holds q + alert q \/ total sleeps ts = sleeps p
                \/ 0 < total holds ts - holds p + holds q;
}.

Lemma moved_safe m ts i p m' q : safe m ts -> ts !! i = Some p -> moved m ts p m' q ->
  safe m' (<[i := q]> ts).
Proof. intros Hs Hi []. by apply (safe_move m ts i p m' q). Qed.

Lemma moved_watched m ts i p m' q : safe m ts -> ts !! i = Some p -> moved m ts p m' q ->
  watched ts -> watched (<[i := q]> ts).
Proof. intros Hs Hi [] Hw. by apply (watched_move m ts i p q). Qed.

Lemma moved_run m ts i p outs q m' : safe m ts -> ts !! i = Some p ->
  lock_next p m = Run outs -> (q, m') ∈ outs -> moved m ts p m' q.
Proof.
  intros Hs Hi Hn Hq. pose proof (safe_sums m ts i p Hs Hi) as [].
  pose proof (Forall_lookup_1 _ _ _ _ (safe_local _ _ Hs) Hi) as Hok.
  pose proof (total_nonneg holds ts (fun q => proj1 (holds_range q))).
  destruct Hs as [_ _ _ _ Hsolo].
  destruct p as [| | | | | | | | |[]|[]| |]; cbn [lock_next lock unlock set_l a_cas a_fetch_add] in Hn;
    try discriminate Hn; injection Hn as <-;
    apply list_elem_of_singleton in Hq; injection Hq as -> ->;
    cbn [current_ok holds inside sleeps alert solo] in *; unfold after_fast, spin_loop, main_loop;
    rewrite ?sgn32_small by lia;
    zcase; split; cbn [current_ok holds inside sleeps alert solo set_l l need_locks]; zcase; lia.
Qed.

Lemma moved_back m ts i current q : safe m ts -> ts !! i = Some (Asleep current) ->
  q = Acquire (current - (INT_MIN + 1)) -> moved m ts (Asleep current) m q.
Proof.
  intros Hs Hi ->. pose proof (safe_sums m ts i _ Hs Hi) as [].
  pose proof (Forall_lookup_1 _ _ _ _ (safe_local _ _ Hs) Hi) as Hok.
  pose proof (total_nonneg holds ts (fun q => proj1 (holds_range q))).
  cbn in *. split; cbn; zcase; lia.
Qed.

Lemma safe_preserved : preserved safe.
Proof.
  split.
  - intros m ts i p outs q m' Hs Hi Hn Hq. exact (moved_safe _ _ _ _ _ _ Hs Hi (moved_run _ _ _ _ _ _ _ Hs Hi Hn Hq)).
  - intros m ts i p back others q Hs Hi Hn Hq. destruct p; try discriminate Hn. injection Hn as <- <-.
    apply (moved_safe _ _ _ _ _ _ Hs Hi), (moved_back m ts i current q Hs Hi).
    by destruct Hq as [|?%list_elem_of_singleton].
  - intros m ts i p n back Hs Hi Hn. destruct p; try discriminate Hn. injection Hn as <- <-.
    pose proof (safe_sums m ts i _ Hs Hi) as [].
    apply (safe_move _ _ _ _ _ _ Hs Hi); cbn in *; zcase; lia.
Qed.

(** FUTEX_WAKE leaves a thread on its way to the lock, unless none slept. *)
Lemma woken_watched m ts ts' : woken m (wake_count 1) ts ts' ->
  total sleeps ts = 0 /\ ts' = ts \/ 0 < total alert ts'.
Proof.
  inversion 1 as [n ? [Hn|Hn]|n i p back others ? ? _ Hi Hp Hw]; subst.
  - cbn in Hn. lia.
  - left. split; [|done]. clear H. induction Hn as [|p ts Hp _ IH]; [done|].
    cbn. destruct p; try discriminate Hp; cbn; lia.
  - right. destruct p; try discriminate Hp. injection Hp as <- <-.
    inversion Hw as [? ? _|]; subst; [|cbn in *; lia].
    pose proof (total_lookup alert _ i _ (fun q => proj1 (alert_range q)) (list_lookup_insert_eq ts i
      (Acquire (current - (INT_MIN + 1))) (lookup_lt_Some _ _ _ Hi))) as Ha. cbn in Ha. lia.
Qed.

Lemma watched_step lb s s' : step lb s s' -> safe s.1 s.2 -> watched s.2 -> watched s'.2.
Proof.
  destruct 1 as [i p outs q m m' ts Hi Hp Hq|i p n back m ts ts' Hi Hp Hw|i p back others q m ts Hi Hp Hq];
    cbn; intros Hs H.
  - exact (moved_watched _ _ _ _ _ _ Hs Hi (moved_run _ _ _ _ _ _ _ Hs Hi Hp Hq) H).
  - destruct p; try discriminate Hp. injection Hp as <- <-.
    pose proof (total_nonneg holds ts' (fun q => proj1 (holds_range q))).
    destruct (woken_watched _ _ _ Hw) as [[Hz ->]|]; unfold watched; lia.
  - destruct p; try discriminate Hp. injection Hp as <- <-. apply list_elem_of_singleton in Hq.
    exact (moved_watched _ _ _ _ _ _ Hs Hi (moved_back _ _ _ _ _ Hs Hi Hq) H).
Qed.

Lemma safe_init nl n : 0 < nl \/ n = 1%nat -> Z.of_nat n < 2 ^ 31 - 2 -> safe (mkMem 0 nl) (replicate n Idle).
Proof.
  intros Hn Hb. split; unfold encoded; rewrite ?length_replicate, ?total_replicate; cbn; rewrite ?Z.mul_0_r; cbn; try lia.
  by apply Forall_replicate.
Qed.

Lemma reachable_safe nl n s : 0 < nl \/ n = 1%nat -> Z.of_nat n < 2 ^ 31 - 2 ->
  reachable (init nl n) s -> safe s.1 s.2 /\ watched s.2.
Proof.
  intros Hn Hb. induction 1 as [|lb s s' _ [IH1 IH2] Hs].
  - split; [by apply safe_init|]. unfold watched, init; cbn. rewrite !total_replicate. cbn. lia.
  - split; [exact (step_preserved safe lb s s' safe_preserved Hs IH1)|exact (watched_step lb s s' Hs IH1 IH2)].
Qed.

(** ** Progress *)

(** Thread [j] is inside the lock, or about to wake another. *)
Definition engaged (ts : list pc) (j : nat) : Prop :=
  exists q, ts !! j = Some q /\ 0 < inside q + alert q.

(** A thread about to try the lock gets it when it runs alone while the lock is free. *)
Lemma acquire_run (who : nat -> Prop) m ts i current : who i -> 0 < l m -> ts !! i = Some (Acquire current) ->
  exists k m' ts', (k <= 2)%nat /\ run who k (m, ts) (m', ts') /\ ts' !! i = Some (Held true).
Proof.
  intros Hw Hl Hi. pose proof (lookup_lt_Some _ _ _ Hi) as Hlt.
  destruct (Z.eqb_spec (l m) current) as [E|E].
  - eexists 1%nat, _, (<[i := Held true]> ts). split; [lia|]. split; [|by apply list_lookup_insert_eq].
    move_one Hw Hi. rewrite (proj2 (Z.eqb_eq _ _) E). by apply list_elem_of_singleton.
  - eexists 2%nat, _, (<[i := Held true]> (<[i := Acquire (l m)]> ts)). split; [lia|].
    split; [|apply list_lookup_insert_eq; by rewrite length_insert].
    apply (run_app _ 1 1 _ (mkMem (l m) (need_locks m), <[i := Acquire (l m)]> ts)).
    + move_one Hw Hi. rewrite (proj2 (Z.eqb_neq _ _) E).
      unfold main_loop. destruct (Z.ltb_spec (l m) 0); [lia|]. by apply list_elem_of_singleton.
    + move_one Hw (list_lookup_insert_eq ts i (Acquire (l m)) Hlt).
      cbn. rewrite Z.eqb_refl. by apply list_elem_of_singleton.
Qed.

Lemma wait_run (who : nat -> Prop) m ts i current : who i -> 0 < l m -> current < 0 -> ts !! i = Some (Wait current) ->
  exists k m' ts', (k <= 3)%nat /\ run who k (m, ts) (m', ts') /\ ts' !! i = Some (Held true).
Proof.
  intros Hw Hl Hc Hi. pose proof (lookup_lt_Some _ _ _ Hi) as Hlt.
  destruct (acquire_run who m (<[i := Acquire (current - (INT_MIN + 1))]> ts) i _ Hw Hl (list_lookup_insert_eq ts i _ Hlt))
    as (k & m' & ts' & Hk & Hr & Hh).
  exists (1 + k)%nat, m', ts'. split; [lia|]. split; [|done]. refine (run_app _ _ _ _ _ _ _ Hr).
  move_one Hw Hi. destruct (Z.eqb_spec (l m) current); [lia|].
  by apply list_elem_of_singleton.
Qed.

Lemma wake_run (who : nat -> Prop) m ts i j current : who i -> who j -> 0 < l m ->
  ts !! i = Some WakeOne -> ts !! j = Some (Asleep current) ->
  exists k m' ts', (k <= 3)%nat /\ run who k (m, ts) (m', ts') /\ ts' !! j = Some (Held true).
Proof.
  intros Hw Hw' Hl Hi Hj. assert (i <> j) by congruence.
  assert (Hj' : (<[i := Idle]> ts) !! j = Some (Asleep current)) by (by rewrite list_lookup_insert_ne).
  destruct (acquire_run who m (<[j := Acquire (current - (INT_MIN + 1))]> (<[i := Idle]> ts)) j _ Hw' Hl
    (list_lookup_insert_eq _ j _ (lookup_lt_Some _ _ _ Hj'))) as (k & m' & ts' & Hk & Hr & Hh).
  exists (S k), m', ts'. split; [lia|]. split; [|done].
  eapply run_cons; [right; reflexivity|exact Hw| |exact Hr].
  apply (step_wake i WakeOne 1 Idle m ts _ Hi eq_refl).
  eapply (woken_one m 1 j _ _ _ _ _ ltac:(lia) Hj' eq_refl). apply woken_done. lia.
Qed.

(** ** Theorems *)

(** C33: mutual exclusion. Whatever the interleaving of any number of
    threads (fewer than 2^31 - 2, which the count needs) once the program is
    multi-threaded, and of the only thread otherwise: no two threads are
    between [__lock] and [__unlock] at once; the word is 0 when the lock is
    free and nobody inside, positive with the number of threads inside when
    it is free, INT_MIN plus that number, the holder included, when it is
    held; and the assertions written as comments in [__lock] hold at the
    points where they are written. *)
Theorem lock_mutual_exclusion nl n s :
  0 < nl \/ n = 1%nat -> Z.of_nat n < 2 ^ 31 - 2 -> reachable (init nl n) s ->
  (forall i j p q, s.2 !! i = Some p -> s.2 !! j = Some q -> critical p = 1 -> critical q = 1 -> i = j) /\
  l s.1 = (if total holds s.2 =? 0 then 0 else INT_MIN) + total inside s.2 /\
  0 <= total holds s.2 <= 1 /\ total holds s.2 <= total inside s.2 < 2 ^ 31 - 2 /\
  (forall i p, s.2 !! i = Some p -> match p with
     | Spin _ current => 0 <= current
     | Acquire current => 0 < current
     | Wait current => current < 0
     | _ => True
     end).
Proof.
  intros Hn Hb Hr. destruct (reachable_safe nl n s Hn Hb Hr) as [Hs _].
  pose proof (total_nonneg holds s.2 (fun q => proj1 (holds_range q))).
  pose proof (total_inside s.2). pose proof (total_nonneg sleeps s.2 (fun q => proj1 (sleeps_range q))).
  pose proof (total_bound inside s.2 (fun q => proj2 (inside_range q))).
  destruct Hs as [Hlen Hone Hw Hloc Hsolo]. repeat split; try lia; [|exact Hw|].
  - intros i j p q Hi Hj Hp Hq. destruct (decide (i = j)) as [|Hij]; [done|exfalso].
    destruct Hsolo as [[_ Hz]|Halone].
    + pose proof (critical_le p). pose proof (critical_le q).
      pose proof (total_lookup_two holds s.2 i j p q (fun r => proj1 (holds_range r)) Hij Hi Hj).
      pose proof (total_lookup_two solo s.2 i j p q (fun r => proj1 (solo_range r)) Hij Hi Hj). lia.
    + apply lookup_lt_Some in Hi, Hj. lia.
  - intros i p Hi. pose proof (Forall_lookup_1 _ _ _ _ Hloc Hi) as Hok. destruct p; cbn in Hok; try lia; done.
Qed.

(** Three threads: 0 takes the lock, 1 spins, queues up and falls asleep;
    then 0 calls [__unlock] and is about to wake it. *)
Definition contending : list (nat * nat) := replicate 3 (0, 0)%nat ++ replicate 15 (1, 0)%nat.
Definition releasing : list (nat * nat) := contending ++ replicate 3 (0, 0)%nat.
Definition contended : mem * list pc := default (init 1 3) (sched contending (init 1 3)).
Definition released : mem * list pc := default (init 1 3) (sched releasing (init 1 3)).

Lemma contended_reachable : reachable (init 1 3) contended.
Proof.
  apply (sched_reachable (init 1 3) contending (init 1 3) contended (reachable_refl _)).
  vm_compute. reflexivity.
Qed.
Lemma released_reachable : reachable (init 1 3) released.
Proof.
  apply (sched_reachable (init 1 3) releasing (init 1 3) released (reachable_refl _)).
  vm_compute. reflexivity.
Qed.

Lemma lock_mutual_exclusion_witness :
  contended.2 = [Held true; Asleep (INT_MIN + 2); Idle] /\ l contended.1 = INT_MIN + 2.
Proof.
  assert (Hb : Z.of_nat 3 < 2 ^ 31 - 2) by (cbn; lia).
  destruct (lock_mutual_exclusion 1 3 contended (or_introl (eq_refl : 0 < 1)) Hb contended_reachable)
    as (_ & Hl & _).
  split; [vm_compute; reflexivity|rewrite Hl; vm_compute; reflexivity].
Defined.

(** C15: no wake-up is lost. In every reachable state in which a thread is
    waiting for the lock, either a thread holds it (and is not asleep, so
    that it can go on to release it), or threads already inside [__lock] or
    [__unlock] can take at most three steps, no futex wait returning without
    a wake-up, after which a thread that was waiting holds the lock. *)
Theorem lock_progress nl n s i p :
  0 < nl \/ n = 1%nat -> Z.of_nat n < 2 ^ 31 - 2 -> reachable (init nl n) s ->
  s.2 !! i = Some p -> inside p = 1 -> holds p = 0 ->
  (exists j q, s.2 !! j = Some q /\ holds q = 1 /\ asleep q s.1 = false) \/
  (exists k s' j, (k <= 3)%nat /\
     run (engaged s.2) k s s' /\ s'.2 !! j = Some (Held true)).
Proof.
  intros Hn Hb Hr Hi Hp Hh. destruct (reachable_safe nl n s Hn Hb Hr) as [Hs Hw].
  destruct s as [m ts]; cbn [fst snd] in *.
  pose proof (safe_sums m ts i p Hs Hi) as [].
  pose proof (total_nonneg holds ts (fun q => proj1 (holds_range q))).
  destruct (decide (0 < total holds ts)) as [H0|H0].
  { left. destruct (total_pos holds ts H0) as (j & q & Hj & Hq). exists j, q. split; [done|].
    pose proof (holds_range q). split; [lia|]. by destruct q. }
  right. assert (Hl : 0 < l m) by lia.
  assert (Hwait : (exists j c, ts !! j = Some (Wait c)) \/ (exists j c, ts !! j = Some (Acquire c)) \/
     (exists j, ts !! j = Some WakeOne) /\ exists c, ts !! i = Some (Asleep c)).
  { destruct p; cbn in Hp, Hh; try lia; eauto.
    assert (Ha : 0 < total alert ts) by (unfold watched in Hw; cbn in sums_sleeps0; lia).
    destruct (total_pos alert ts Ha) as (j & q & Hj & Hq). destruct q; cbn in Hq; try lia; [by eauto|by eauto|]. right; right. split; by eexists. }
  assert (Hwho : forall j q, ts !! j = Some q -> 0 < inside q + alert q -> engaged ts j) by (intros j q; exists q; done).
  destruct Hwait as [(j & c & Hj)|[(j & c & Hj)|[(j & Hj) (c & Hc)]]].
  - pose proof (Forall_lookup_1 _ _ _ _ (safe_local _ _ Hs) Hj) as Hok. cbn in Hok.
    destruct (wait_run (engaged ts) m ts j c (Hwho _ _ Hj eq_refl) Hl ltac:(lia) Hj) as (k & m' & ts' & Hk & Hrun & Hend).
    by exists k, (m', ts'), j.
  - destruct (acquire_run (engaged ts) m ts j c (Hwho _ _ Hj eq_refl) Hl Hj) as (k & m' & ts' & Hk & Hrun & Hend).
    exists k, (m', ts'), j. split; [lia|done].
  - destruct (wake_run (engaged ts) m ts j i c (Hwho _ _ Hj eq_refl) (Hwho _ _ Hc eq_refl) Hl Hj Hc)
      as (k & m' & ts' & Hk & Hrun & Hend).
    by exists k, (m', ts'), i.
Qed.

Lemma lock_progress_witness :
  released.2 = [WakeOne; Asleep (INT_MIN + 2); Idle] /\
  exists k s' j, (k <= 3)%nat /\ run (engaged released.2) k released s' /\ s'.2 !! j = Some (Held true).
Proof.
  assert (Hb : Z.of_nat 3 < 2 ^ 31 - 2) by (cbn; lia).
  assert (E : released.2 = [WakeOne; Asleep (INT_MIN + 2); Idle]) by (vm_compute; reflexivity).
  assert (Hi : released.2 !! 1%nat = Some (Asleep (INT_MIN + 2))) by (rewrite E; reflexivity).
  split; [exact E|].
  destruct (lock_progress 1 3 released 1 _ (or_introl (eq_refl : 0 < 1)) Hb released_reachable Hi eq_refl eq_refl)
    as [(j & q & Hj & Hq & _)|H]; [|exact H].
  exfalso. rewrite E in Hj.
  destruct j as [|[|[|j]]]; cbn in Hj; [injection Hj as <-|injection Hj as <-|injection Hj as <-|done]; discriminate Hq.
Defined.
