(* ===== verification/Rwlock.v ===== *)
(** * Rwlock: the readers-writer lock of src/src/thread/pthread_rwlock_*.c.

    [_rw_lock] holds the number of readers, 0x7fffffff for a writer, and a
    flag for waiters in its sign bit; [_rw_waiters] counts the threads that
    are about to sleep or asleep. Mutual exclusion, the results of the try
    functions, and that no wake-up is lost, for any number of threads. *)

From S2P Require Import Prelude Futex.

(** ** Data *)

Record mem := mkMem { rw_lock : Z; rw_waiters : Z }.

Inductive mode := Rd | Wr.

(** Where the try function was called: by the caller itself, first in the
    timed function, or in its loop. *)
Inductive site := KTry | KFirst | KLoop.

(** The points before each atomic access; [tm] tells a call with a deadline.
    The mode of [Held] to [UnCas] records how the thread entered: it decides
    nothing. *)
Inductive pc :=
  | Idle
  | Try (md : mode) (tm : bool) (k : site)       (* try*lock: first access *)
  | TryCas (tm : bool) (k : site) (val : Z)      (* tryrdlock: a_cas(&_rw_lock, val, val+1) *)
  | SpinLock (md : mode) (tm : bool) (spins : Z) (* spin loop: about to read _rw_lock *)
  | SpinWaiters (md : mode) (tm : bool) (spins : Z)
  | Read (md : mode) (tm : bool)                 (* loop: r = _rw_lock *)
  | Inc (md : mode) (tm : bool) (r t : Z)        (* a_inc(&_rw_waiters) *)
  | Mark (md : mode) (tm : bool) (r t : Z)       (* a_cas(&_rw_lock, r, t) *)
  | Wait (md : mode) (tm : bool) (t : Z)         (* __timedwait(&_rw_lock, t, ...) *)
  | Asleep (md : mode) (tm : bool) (t : Z)
  | Dec (md : mode) (tm : bool) (r : Z)          (* a_dec(&_rw_waiters) *)
  | Failed (r : Z)                               (* returned r <> 0 *)
  | Held (md : mode)                             (* returned 0 *)
  | Un (md : mode)                               (* unlock: val = _rw_lock *)
  | UnWaiters (md : mode) (val : Z)              (* waiters = _rw_waiters *)
  | UnCas (md : mode) (val waiters : Z)          (* a_cas(&_rw_lock, val, new) *)
  | Waking (cnt : Z).

(** ** Operations *)

Definition cnt (val : Z) : Z := u32 val .& 0x7fffffff.
(** [t = r | 0x80000000], back in an [int]. *)
Definition marked (r : Z) : Z := sgn 32 (u32 r .| 0x80000000).

(** [while (spins-- && ...)] *)
Definition spin_loop (md : mode) (tm : bool) (spins : Z) : pc :=
  if spins =? 0 then Try md tm KLoop else SpinLock md tm (spins - 1).

(** What the caller of the try function does with its result. *)
Definition tried (md : mode) (tm : bool) (k : site) (r : Z) : pc :=
  if r =? 0 then Held md
  else match k with
       | KTry => Failed r
       | KFirst => if negb (r =? EBUSY) then Failed r else spin_loop md tm 100
       | KLoop => if r =? EBUSY then Read md tm else Failed r
       end.

Definition unlock_new (val : Z) : Z :=
  if (cnt val =? 0x7fffffff) || (cnt val =? 1) then 0 else val - 1.

(** pthread_rwlock_tryrdlock.c *)
Definition tryrdlock (p : pc) (m : mem) : action pc mem :=
  match p with
  | Try Rd tm k =>
      let val := rw_lock m in
      if cnt val =? 0x7fffffff then Run [(tried Rd tm k EBUSY, m)]
      else if cnt val =? 0x7ffffffe then Run [(tried Rd tm k EAGAIN, m)]
      else Run [(TryCas tm k val, m)]
  | TryCas tm k val =>
      let '(old, v) := a_cas (rw_lock m) val (val + 1) in
      Run [(if negb (old =? val) then Try Rd tm k else tried Rd tm k 0, mkMem v (rw_waiters m))]
  | _ => Run []
  end.

(** pthread_rwlock_trywrlock.c *)
Definition trywrlock (p : pc) (m : mem) : action pc mem :=
  match p with
  | Try Wr tm k =>
      let '(old, v) := a_cas (rw_lock m) 0 0x7fffffff in
      Run [(tried Wr tm k (if negb (old =? 0) then EBUSY else 0), mkMem v (rw_waiters m))]
  | _ => Run []
  end.

(** [__timedwait] without cancellation; [__futex4_cp] sleeps only if the word is still [t]. *)
Definition timedwait (p : pc) (m : mem) : action pc mem :=
  match p with
  | Wait md tm t =>
      Run ((if rw_lock m =? t then Asleep md tm t else Dec md tm 0, m)
           :: if tm then [(Dec md tm EINVAL, m); (Dec md tm ETIMEDOUT, m)] else [])
  | Asleep md tm t =>
      Sleep (Dec md tm 0) (Dec md tm 0 :: Dec md tm EINTR :: if tm then [Dec md tm ETIMEDOUT] else [])
  | _ => Run []
  end.

(** The spin loop and the main loop of pthread_rwlock_timedrdlock.c and
    pthread_rwlock_timedwrlock.c, around the try function and the wait. *)
Definition timedlock (p : pc) (m : mem) : action pc mem :=
  match p with
  | SpinLock md tm spins =>
      Run [(if rw_lock m =? 0 then Try md tm KLoop else SpinWaiters md tm spins, m)]
  | SpinWaiters md tm spins =>
      Run [(if rw_waiters m =? 0 then spin_loop md tm spins else Try md tm KLoop, m)]
  | Read Rd tm =>
      let r := rw_lock m in
      if (r =? 0) || negb (cnt r =? 0x7fffffff) then Run [(Try Rd tm KLoop, m)]
      else Run [(Inc Rd tm r (marked r), m)]
  | Read Wr tm =>
      let r := rw_lock m in
      if r =? 0 then Run [(Try Wr tm KLoop, m)] else Run [(Inc Wr tm r (marked r), m)]
  | Inc md tm r t =>
      let '(_, w) := a_fetch_add (rw_waiters m) 1 in Run [(Mark md tm r t, mkMem (rw_lock m) w)]
  | Mark md tm r t =>
      let '(_, v) := a_cas (rw_lock m) r t in Run [(Wait md tm t, mkMem v (rw_waiters m))]
  | Dec md tm r =>
      let '(_, w) := a_fetch_add (rw_waiters m) (-1) in
      Run [(if negb (r =? 0) && negb (r =? EINTR) then Failed r else Try md tm KLoop,
            mkMem (rw_lock m) w)]
  | _ => Run []
  end.

(** pthread_rwlock_unlock.c *)
Definition unlock (p : pc) (m : mem) : action pc mem :=
  match p with
  | Un md => Run [(UnWaiters md (rw_lock m), m)]
  | UnWaiters md val => Run [(UnCas md val (rw_waiters m), m)]
  | UnCas md val waiters =>
      let new := unlock_new val in
      let '(old, v) := a_cas (rw_lock m) val new in
      Run [(if negb (old =? val) then Un md
            else if (new =? 0) && (negb (waiters =? 0) || (val <? 0)) then Waking (cnt val)
            else Idle, mkMem v (rw_waiters m))]
  | Waking c => Wake (wake_count c) Idle
  | _ => Run []
  end.

(** A thread outside calls any of the functions; a thread that has the lock unlocks it. *)
Definition rw_next (p : pc) (m : mem) : action pc mem :=
  match p with
  | Idle => Run [(Try Rd false KTry, m); (Try Wr false KTry, m);
                 (Try Rd false KFirst, m); (Try Wr false KFirst, m);
                 (Try Rd true KFirst, m); (Try Wr true KFirst, m)]
  | Try Rd _ _ | TryCas _ _ _ => tryrdlock p m
  | Try Wr _ _ => trywrlock p m
  | Wait _ _ _ | Asleep _ _ _ => timedwait p m
  | SpinLock _ _ _ | SpinWaiters _ _ _ | Read _ _ | Inc _ _ _ _ | Mark _ _ _ _ | Dec _ _ _ => timedlock p m
  | Failed _ => Run [(Idle, m)]
  | Held md => Run [(Un md, m)]
  | Un _ | UnWaiters _ _ | UnCas _ _ _ | Waking _ => unlock p m
  end.
#[export] Instance rw_program : Program pc mem := rw_next.

(** PTHREAD_RWLOCK_INITIALIZER, or [pthread_rwlock_init]. *)
Definition init (n : nat) : mem * list pc := (mkMem 0 0, replicate n Idle).

(** ** The invariant *)

Definition in_mode (md : mode) (p : pc) : Z :=
  match p with
  | Held md' | Un md' | UnWaiters md' _ | UnCas md' _ _ =>
      match md, md' with Rd, Rd | Wr, Wr => 1 | _, _ => 0 end
  | _ => 0
  end.
Definition reads : pc -> Z := in_mode Rd.
Definition writes : pc -> Z := in_mode Wr.
(** Counted in [_rw_waiters]. *)
Definition counted (p : pc) : Z :=
  match p with Mark _ _ _ _ | Wait _ _ _ | Asleep _ _ _ | Dec _ _ _ => 1 | _ => 0 end.
Definition sleeps (p : pc) : Z := match p with Asleep _ _ _ => 1 | _ => 0 end.
(** Bound to try the lock once more, or to wake others. *)
Definition alert (p : pc) : Z :=
  match p with
  | Try _ _ KLoop | TryCas _ KLoop _ | Waking _ => 1
  | Dec _ _ r => if (r =? 0) || (r =? EINTR) then 1 else 0
  | _ => 0
  end.

Definition local_ok (p : pc) : Prop :=
  match p with
  | TryCas _ _ val => - 2 ^ 31 <= val < 2 ^ 31 /\ cnt val < 0x7ffffffe
  | Inc _ _ r t | Mark _ _ r t => - 2 ^ 31 <= r < 2 ^ 31 /\ r <> 0 /\ t = marked r
  | Wait _ _ t | Asleep _ _ t => t < 0
  | UnWaiters _ val | UnCas _ val _ => - 2 ^ 31 <= val < 2 ^ 31
  | Waking c => 0 < c
  | _ => True
  end.

(** The threads that hold the lock, as the word counts them. *)
Definition holders (ts : list pc) : Z := total reads ts + 0x7fffffff * total writes ts.

Record safe (m : mem) (ts : list pc) : Prop := {
  safe_bound : Z.of_nat (length ts) < 2 ^ 31 - 1;
  safe_excl : total writes ts = 0 /\ total reads ts <= 0x7ffffffe \/ total writes ts = 1 /\ total reads ts = 0;
  safe_word : rw_lock m = holders ts \/ rw_lock m = holders ts - 2 ^ 31 /\ 0 < holders ts;
  safe_waiters : rw_waiters m = total counted ts;
  safe_local : Forall local_ok ts;
  (* an unlocker that saw no waiter: those that fell asleep since set the flag *)
  safe_quiet : forall j md val, ts !! j = Some (UnCas md val 0) -> total sleeps ts = 0 \/ rw_lock m < 0;
}.

Definition watched (ts : list pc) : Prop :=
  0 < total sleeps ts -> 0 < holders ts + total alert ts.

(** ** Words and weights *)

Lemma cnt_spec v : - 2 ^ 31 <= v < 2 ^ 31 -> v < 0 /\ cnt v = v + 2 ^ 31 \/ 0 <= v /\ cnt v = v.
Proof. exact (low31_spec v). Qed.

Lemma marked_spec r : - 2 ^ 31 <= r < 2 ^ 31 -> r < 0 /\ marked r = r \/ 0 <= r /\ marked r = r - 2 ^ 31.
Proof.
  intros H. unfold marked. rewrite (u32_int r H).
  assert (E : forall x, word 31 x -> x .| 0x80000000 = x + 2 ^ 31).
  { intros x Hx. symmetry. rewrite <- (Z.mul_1_r (2 ^ 31)). by apply (lor_add_disjoint x 1 31). }
  destruct (Z.ltb_spec r 0); [left|right]; (split; [done|]).
  - replace (r + 2 ^ 32) with ((r + 2 ^ 31) .| 0x80000000) by (rewrite E; unfold word; lia).
    rewrite <- Z.lor_assoc, Z.lor_diag, E by (unfold word; lia).
    unfold sgn, wrap. rewrite Z.mod_small by lia. change (2 ^ (32 - 1)) with (2 ^ 31).
    destruct (Z.ltb_spec (r + 2 ^ 31 + 2 ^ 31) (2 ^ 31)); lia.
  - rewrite E by (unfold word; lia). unfold sgn, wrap. rewrite Z.mod_small by lia.
    change (2 ^ (32 - 1)) with (2 ^ 31). destruct (Z.ltb_spec (r + 2 ^ 31) (2 ^ 31)); lia.
Qed.

Ltac weigh p :=
  destruct p as [|? ? []|? [] ?| | | | | | | |? ? r| |[]|[]|[] ?|[] ? ?|]; cbn;
  try destruct ((r =? 0) || (r =? EINTR)); lia.
Lemma mode_range md p : 0 <= in_mode md p <= 1.
Proof. destruct md; weigh p. Qed.
Lemma counted_range p : sleeps p <= counted p <= 1.
Proof. weigh p. Qed.
Lemma rw_sleeps_range p : 0 <= sleeps p <= 1.
Proof. weigh p. Qed.
Lemma rw_alert_range p : 0 <= alert p <= 1.
Proof. weigh p. Qed.
Lemma one_mode p : reads p + writes p <= 1.
Proof. weigh p. Qed.

(** What the sums satisfy in a safe state, for the thread at [p]. *)
Record sums (m : mem) (ts : list pc) (p : pc) : Prop := {
  sums_reads : 0 <= reads p <= total reads ts;
  sums_writes : 0 <= writes p <= total writes ts;
  sums_sleeps : 0 <= sleeps p <= total sleeps ts;
  sums_alert : 0 <= alert p <= total alert ts;
  sums_counted : counted p <= total counted ts;
  sums_le : total sleeps ts <= total counted ts;
  sums_small : total counted ts < 2 ^ 31 - 1;
  sums_room : counted p = 0 -> total counted ts < 2 ^ 31 - 2;
  sums_cnt : - 2 ^ 31 <= rw_lock m < 2 ^ 31 /\ cnt (rw_lock m) = holders ts;
}.

Lemma safe_cnt m ts : safe m ts -> - 2 ^ 31 <= rw_lock m < 2 ^ 31 /\ cnt (rw_lock m) = holders ts.
Proof.
  intros [_ He Hw _ _ _]. unfold holders in *.
  pose proof (total_nonneg reads ts (fun q => proj1 (mode_range Rd q))).
  assert (H31 : - 2 ^ 31 <= rw_lock m < 2 ^ 31) by lia. split; [exact H31|].
  pose proof (cnt_spec _ H31). lia.
Qed.

Lemma rw_safe_sums m ts i p : safe m ts -> ts !! i = Some p -> sums m ts p.
Proof.
  intros Hs Hi. destruct (safe_cnt m ts Hs) as [Hr Hc]. destruct Hs as [Hb He Hw Hwa _ _].
  pose proof (total_bound counted ts (fun q => proj2 (counted_range q))).
  pose proof (total_le sleeps counted ts (fun q => proj1 (counted_range q))).
  pose proof (total_lookup reads ts i p (fun q => proj1 (mode_range Rd q)) Hi).
  pose proof (total_lookup writes ts i p (fun q => proj1 (mode_range Wr q)) Hi).
  pose proof (total_lookup sleeps ts i p (fun q => proj1 (rw_sleeps_range q)) Hi).
  pose proof (total_lookup alert ts i p (fun q => proj1 (rw_alert_range q)) Hi).
  pose proof (mode_range Rd p). pose proof (mode_range Wr p).
  pose proof (rw_sleeps_range p). pose proof (rw_alert_range p).
  split; try (unfold reads, writes in *; lia).
  - apply (total_lookup counted ts i p); [|done]. intros q. pose proof (rw_sleeps_range q). pose proof (counted_range q). lia.
  - pose proof (total_room counted ts i p (fun q => proj2 (counted_range q)) Hi). intros Hz. lia.
Qed.

(** What one move establishes. *)
Record moved (m : mem) (ts : list pc) (p : pc) (m' : mem) (q : pc) : Prop := {
  moved_ok : local_ok q;
  moved_excl : let R := total reads ts - reads p + reads q in
               let W := total writes ts - writes p + writes q in
               W = 0 /\ R <= 0x7ffffffe \/ W = 1 /\ R = 0;
  moved_word : let H := holders ts - (reads p + 0x7fffffff * writes p) + (reads q + 0x7fffffff * writes q) in
               rw_lock m' = H \/ rw_lock m' = H - 2 ^ 31 /\ 0 < H;
  moved_waiters : rw_waiters m' = total counted ts - counted p + counted q;
  (* quiet unlockers *)
  moved_unlock : forall md val, q = UnCas md val 0 -> total sleeps ts = 0 /\ sleeps p = 0;
  moved_sleep : 0 < sleeps q -> rw_lock m' < 0;
  moved_flag : rw_lock m < 0 -> rw_lock m' < 0 \/ total reads ts + total writes ts = reads p + writes p;
  (* no wake-up lost *)
  moved_alert : total sleeps ts = 0 \/ alert p <= alert q /\ reads p + writes p <= reads q + writes q
                \/ rw_lock m' <> 0 \/ 0 < alert q;
}.

Lemma rw_moved_safe m ts i p m' q : safe m ts -> ts !! i = Some p -> moved m ts p m' q ->
  safe m' (<[i := q]> ts).
Proof.
  intros Hs Hi [Hok He Hw Hwa Hu Hsl Hfl _]. pose proof (rw_safe_sums m ts i p Hs Hi) as Hsum.
  destruct Hs as [Hb _ Hword _ Hloc Hq].
  split; unfold holders in *; rewrite ?(total_insert _ _ _ _ _ Hi) in *.
  - by rewrite length_insert.
  - exact He.
  - cbn zeta in Hw. lia.
  - exact Hwa.
  - by apply Forall_insert.
  - intros j md val Hj. destruct (decide (i = j)) as [<-|Hij].
    + rewrite list_lookup_insert_eq in Hj by eauto using lookup_lt_Some. injection Hj as ->.
      destruct (Hu md val eq_refl) as [-> ->]. by left.
    + rewrite list_lookup_insert_ne in Hj by done. specialize (Hq j md val Hj).
      pose proof (total_lookup_two _ ts i j _ _ (fun q => proj1 (mode_range Rd q)) Hij Hi Hj).
      pose proof (total_lookup_two _ ts i j _ _ (fun q => proj1 (mode_range Wr q)) Hij Hi Hj).
      pose proof (rw_sleeps_range q). pose proof (sums_sleeps _ _ _ Hsum).
      unfold reads, writes in *. destruct md; cbn in *; lia.
Qed.

Lemma holders_zero m ts : safe m ts -> holders ts = 0 -> rw_lock m = 0.
Proof. intros [_ _ Hw _ _ _] H. lia. Qed.

Lemma holders_nonneg ts : 0 <= holders ts.
Proof.
  unfold holders. pose proof (total_nonneg reads ts (fun q => proj1 (mode_range Rd q))).
  pose proof (total_nonneg writes ts (fun q => proj1 (mode_range Wr q))). lia.
Qed.

Lemma rw_moved_watched m ts i p m' q : safe m ts -> ts !! i = Some p -> moved m ts p m' q ->
  watched ts -> watched (<[i := q]> ts).
Proof.
  intros Hs Hi Hm Hw. pose proof (rw_moved_safe m ts i p m' q Hs Hi Hm) as Hs'.
  pose proof (holders_nonneg (<[i := q]> ts)). pose proof (holders_zero _ _ Hs') as Hz.
  pose proof (rw_safe_sums m ts i p Hs Hi) as [].
  destruct Hm as [_ _ _ _ _ Hsl _ Ha]. unfold watched, holders in *.
  rewrite !(total_insert _ _ _ _ _ Hi) in *.
  pose proof (rw_sleeps_range q). pose proof (rw_alert_range q).
  pose proof (mode_range Rd q). pose proof (mode_range Wr q). unfold reads, writes in *. lia.
Qed.

Ltac weights := cbn [local_ok reads writes in_mode counted sleeps alert rw_lock rw_waiters] in *.

Ltac close_move :=
  split; unfold holders, reads, writes; weights; cbn zeta; tests; try done; try lia;
  try (intros ? ? [= ? ?]; lia); intuition (try discriminate; try lia).

Lemma rw_moved_run m ts i p outs q m' : safe m ts -> ts !! i = Some p ->
  rw_next p m = Run outs -> (q, m') ∈ outs -> moved m ts p m' q.
Proof.
  intros Hs Hi Hn Hq. pose proof (rw_safe_sums m ts i p Hs Hi) as [].
  pose proof (Forall_lookup_1 _ _ _ _ (safe_local _ _ Hs) Hi) as Hok.
  pose proof (safe_quiet _ _ Hs i) as Hqi. rewrite Hi in Hqi.
  destruct sums_cnt0 as [Hr Hc]. pose proof (cnt_spec _ Hr) as Hcs.
  destruct Hs as [_ He Hw Hwa _ _]. unfold holders, reads, writes in *.
  destruct p; cbn [rw_next tryrdlock trywrlock timedwait timedlock unlock a_cas a_fetch_add] in Hn; try discriminate Hn.
  - outcomes Hn Hq; close_move.
  - destruct md; [|outcomes Hn Hq; unfold tried, spin_loop; tests; destruct k; close_move].
    revert Hn; tests; intros Hn; outcomes Hn Hq; unfold tried, spin_loop; tests; destruct k; close_move.
  - outcomes Hn Hq. unfold tried. cbn in Hok. tests; try subst val; destruct k; close_move.
  - outcomes Hn Hq. tests; close_move.
  - outcomes Hn Hq. unfold spin_loop; tests; close_move.
  - destruct md; revert Hn; tests; intros Hn; outcomes Hn Hq; close_move.
  - outcomes Hn Hq. rewrite sgn32_small by (weights; lia). close_move.
  - outcomes Hn Hq. weights. destruct Hok as (Hrr & Hr0 & ->). pose proof (marked_spec r Hrr). tests; close_move.
  - destruct tm; outcomes Hn Hq; tests; close_move.
  - outcomes Hn Hq. rewrite sgn32_small by (weights; lia). tests; close_move.
  - outcomes Hn Hq. close_move.
  - outcomes Hn Hq. close_move.
  - outcomes Hn Hq. close_move.
  - outcomes Hn Hq. destruct md; close_move.
  - outcomes Hn Hq. unfold unlock_new. cbn in Hok. pose proof (cnt_spec _ Hok).
    assert (Hz : waiters = 0 -> total sleeps ts = 0 \/ rw_lock m < 0) by (intros ->; exact (Hqi md val eq_refl)).
    clear Hqi. destruct (Z.eqb_spec (rw_lock m) val) as [<-|Hne]; cbn [negb].
    + destruct ((cnt (rw_lock m) =? 0x7fffffff) || (cnt (rw_lock m) =? 1)) eqn:E.
      * apply orb_true_iff in E. rewrite !Z.eqb_eq in E. change (0 =? 0) with true. cbn [andb].
        destruct (negb (waiters =? 0) || (rw_lock m <? 0)) eqn:Ew; [clear Ew|];
          [|apply orb_false_iff in Ew as [Ew%negb_false_iff%Z.eqb_eq ?%Z.ltb_ge]; specialize (Hz Ew)];
          destruct md; close_move.
      * apply orb_false_iff in E. rewrite !Z.eqb_neq in E. destruct (Z.eqb_spec (rw_lock m - 1) 0); [lia|].
        cbn [andb]. destruct md; close_move.
    + destruct md; close_move.
Qed.

Lemma rw_moved_back m ts i md tm t q : safe m ts -> ts !! i = Some (Asleep md tm t) ->
  (exists r, q = Dec md tm r) -> moved m ts (Asleep md tm t) m q.
Proof.
  intros Hs Hi [r ->]. pose proof (rw_safe_sums m ts i _ Hs Hi) as [].
  destruct Hs as [_ He Hw Hwa _ _]. unfold holders, reads, writes in *. close_move.
Qed.

(** The control points that sleep, and where they go on; those that wake. *)
Lemma sleep_inv p m back others q : rw_next p m = Sleep back others -> q = back \/ q ∈ others ->
  exists md tm t r, p = Asleep md tm t /\ q = Dec md tm r.
Proof.
  intros Hn Hq. destruct p as [|[] ? ?|?|?|?|[] ?| | | | | | | | | | |]; try discriminate Hn;
    try (cbn in Hn; repeat case_match; discriminate Hn).
  injection Hn as <- <-. destruct Hq as [->|Hq]; [by repeat eexists|]. rewrite !elem_of_cons in Hq.
  destruct Hq as [->|[->|Hq]]; [by repeat eexists|by repeat eexists|].
  destruct tm; [apply list_elem_of_singleton in Hq as ->; by repeat eexists|by apply elem_of_nil in Hq].
Qed.

Lemma wake_inv p m n back : rw_next p m = Wake n back -> exists c, p = Waking c /\ n = wake_count c /\ back = Idle.
Proof.
  intros Hn. destruct p as [|[] ? ?|?|?|?|[] ?| | | | | | | | | | |]; try discriminate Hn;
    try (cbn in Hn; repeat case_match; discriminate Hn).
  injection Hn as <- <-. by eexists.
Qed.

Lemma rw_safe_preserved : preserved safe.
Proof.
  split.
  - intros m ts i p outs q m' Hs Hi Hn Hq. exact (rw_moved_safe _ _ _ _ _ _ Hs Hi (rw_moved_run _ _ _ _ _ _ _ Hs Hi Hn Hq)).
  - intros m ts i p back others q Hs Hi Hn Hq. destruct (sleep_inv p m back others q Hn Hq) as (md & tm & t & r & -> & ->).
    exact (rw_moved_safe _ _ _ _ _ _ Hs Hi (rw_moved_back _ _ _ _ _ _ _ Hs Hi (ex_intro _ r eq_refl))).
  - intros m ts i p n back Hs Hi Hn. destruct (wake_inv p m n back Hn) as (c & -> & _ & ->).
    destruct Hs as [Hb He Hw Hwa Hloc Hq].
    split; unfold holders in *; rewrite ?length_insert, ?(total_insert _ _ _ _ _ Hi); cbn; rewrite ?Z.sub_0_r, ?Z.add_0_r; try done.
    + by apply Forall_insert.
    + intros j md val Hj. destruct (decide (i = j)) as [<-|Hij]; [|rewrite list_lookup_insert_ne in Hj by done; by apply (Hq j md val)].
      rewrite list_lookup_insert_eq in Hj by eauto using lookup_lt_Some. discriminate Hj.
Qed.

(** FUTEX_WAKE leaves a thread on its way back to the lock, unless none slept. *)
Lemma woken_back m n ts ts' : 0 < n -> woken m n ts ts' ->
  total sleeps ts = 0 /\ ts' = ts \/
  total sleeps ts' < total sleeps ts /\
    exists i md tm t, ts !! i = Some (Asleep md tm t) /\ ts' !! i = Some (Dec md tm 0).
Proof.
  intros Hn. induction 1 as [n ts [|Hf]|n i p back others ts ts' _ Hi Hp Hw IH]; [lia| |right].
  - left. split; [|done]. clear Hn. induction Hf as [|p ts Hp _ IH]; [done|].
    cbn. rewrite IH. by destruct p.
  - destruct (sleep_inv p m back others back Hp (or_introl eq_refl)) as (md & tm & t & r & -> & ->).
    injection Hp as <- _.
    assert (Hi' : (<[i := Dec md tm 0]> ts) !! i = Some (Dec md tm 0)) by eauto using list_lookup_insert_eq, lookup_lt_Some.
    pose proof (total_insert sleeps ts i _ (Dec md tm 0) Hi) as Hsl. cbn in Hsl.
    destruct (decide (0 < n - 1)) as [H1|H1].
    + destruct (IH H1) as [[Hz ->]|(Hlt & j & md' & tm' & t' & Hj & Hj')]; (split; [lia|]); [by eauto 6|].
      exists j, md', tm', t'. split; [|done]. destruct (decide (i = j)) as [<-|Hij]; [congruence|].
      by rewrite list_lookup_insert_ne in Hj.
    + inversion Hw; subst; [split; [lia|by eauto 6]|lia].
Qed.

Lemma dec_alert ts i md tm : ts !! i = Some (Dec md tm 0) -> 0 < total alert ts.
Proof. intros Hi. pose proof (total_lookup alert ts i _ (fun q => proj1 (rw_alert_range q)) Hi) as Ha. cbn in Ha. lia. Qed.

Lemma rw_watched_step lb s s' : step lb s s' -> safe s.1 s.2 -> watched s.2 -> watched s'.2.
Proof.
  destruct 1 as [i p outs q m m' ts Hi Hp Hq|i p n back m ts ts' Hi Hp Hw|i p back others q m ts Hi Hp Hq];
    cbn; intros Hs H.
  - exact (rw_moved_watched _ _ _ _ _ _ Hs Hi (rw_moved_run _ _ _ _ _ _ _ Hs Hi Hp Hq) H).
  - destruct (wake_inv p m n back Hp) as (c & -> & -> & ->).
    pose proof (Forall_lookup_1 _ _ _ _ (safe_local _ _ Hs) Hi) as Hc. cbn in Hc.
    pose proof (holders_nonneg ts'). unfold watched.
    destruct (woken_back m (wake_count c) _ _ ltac:(unfold wake_count; zcase; lia) Hw) as [[Hz ->]|(_ & j & md & tm & t & _ & Hj)];
      [lia|]. pose proof (dec_alert _ _ _ _ Hj). lia.
  - destruct (sleep_inv p m back others q Hp (or_intror Hq)) as (md & tm & t & r & -> & ->).
    exact (rw_moved_watched _ _ _ _ _ _ Hs Hi (rw_moved_back _ _ _ _ _ _ _ Hs Hi (ex_intro _ r eq_refl)) H).
Qed.

Lemma rw_reachable_safe n s : Z.of_nat n < 2 ^ 31 - 1 -> reachable (init n) s -> safe s.1 s.2 /\ watched s.2.
Proof.
  intros Hb. induction 1 as [|lb s s' _ [IH1 IH2] Hs].
  - split.
    + split; unfold init, holders; cbn [fst snd]; rewrite ?length_replicate, ?total_replicate; cbn; rewrite ?Z.mul_0_r; try lia.
      by apply Forall_replicate.
    + unfold watched, init; cbn. rewrite !total_replicate. cbn. lia.
  - split; [exact (step_preserved safe lb s s' rw_safe_preserved Hs IH1)|exact (rw_watched_step lb s s' Hs IH1 IH2)].
Qed.

(** ** Progress *)

Lemma try_run (who : nat -> Prop) ts i md tm w : who i -> ts !! i = Some (Try md tm KLoop) ->
  exists k m' ts', (k <= 2)%nat /\ run who k (mkMem 0 w, ts) (m', ts') /\ ts' !! i = Some (Held md).
Proof.
  intros Hw Hi. pose proof (lookup_lt_Some _ _ _ Hi) as Hlt. destruct md.
  - eexists (1 + 1)%nat, _, (<[i := Held Rd]> (<[i := TryCas tm KLoop 0]> ts)). split; [lia|].
    split; [|apply list_lookup_insert_eq; by rewrite length_insert].
    apply (run_app _ 1 1 _ (mkMem 0 w, <[i := TryCas tm KLoop 0]> ts)).
    + move_one Hw Hi. by apply list_elem_of_singleton.
    + move_one Hw (list_lookup_insert_eq ts i (TryCas tm KLoop 0) Hlt). by apply list_elem_of_singleton.
  - eexists 1%nat, _, (<[i := Held Wr]> ts). split; [lia|]. split; [|by apply list_lookup_insert_eq].
    move_one Hw Hi. by apply list_elem_of_singleton.
Qed.

(** One move to a point from which [try_run] goes on. *)
Lemma before_try (who : nat -> Prop) m ts i p md tm m' :
  who i -> ts !! i = Some p -> next p m = Run [(Try md tm KLoop, m')] -> rw_lock m' = 0 ->
  exists k m'' ts', (k <= 3)%nat /\ run who k (m, ts) (m'', ts') /\ ts' !! i = Some (Held md).
Proof.
  intros Hw Hi Hp Hl. pose proof (lookup_lt_Some _ _ _ Hi) as Hlt. destruct m' as [v w]. cbn in Hl. subst v.
  destruct (try_run who (<[i := Try md tm KLoop]> ts) i md tm w Hw (list_lookup_insert_eq ts i _ Hlt))
    as (k & m'' & ts' & Hk & Hr & Hh).
  exists (1 + k)%nat, m'', ts'. split; [lia|]. split; [|done]. refine (run_app _ _ _ _ _ _ _ Hr).
  apply (run_one who i p _ _ _ _ _ Hw Hi Hp). by apply list_elem_of_singleton.
Qed.

(** A thread that is bound to try the free lock gets it, or is about to wake others. *)
Lemma alert_run (who : nat -> Prop) m ts i p : who i -> rw_lock m = 0 -> ts !! i = Some p -> 0 < alert p ->
  (exists k m' ts' md, (k <= 3)%nat /\ run who k (m, ts) (m', ts') /\ ts' !! i = Some (Held md)) \/
  exists c, p = Waking c.
Proof.
  intros Hw Hl Hi Ha. destruct m as [v w]. cbn in Hl. subst v.
  destruct p as [|md tm []|tm [] val| | | | | | | |md tm r| | | | | |c]; cbn in Ha; try lia.
  - left. destruct (try_run who ts i md tm w Hw Hi) as (k & m' & ts' & Hk & Hr). exists k, m', ts', md. split; [lia|done].
  - left. destruct (Z.eqb_spec 0 val) as [<-|Hne].
    + eexists 1%nat, _, (<[i := Held Rd]> ts), Rd. split; [lia|].
      split; [|apply list_lookup_insert_eq; by eapply lookup_lt_Some].
      move_one Hw Hi. by apply list_elem_of_singleton.
    + destruct (before_try who (mkMem 0 w) ts i _ Rd tm (mkMem 0 w) Hw Hi) as (k & m' & ts' & H); [|done|by eauto 6].
      unfold next, rw_program. cbn [rw_next tryrdlock trywrlock timedwait timedlock unlock a_cas rw_lock rw_waiters]. by rewrite (proj2 (Z.eqb_neq 0 val) Hne).
  - left. destruct (before_try who (mkMem 0 w) ts i _ md tm (mkMem 0 (sgn 32 (w + -1))) Hw Hi) as (k & m' & ts' & H); [|done|by eauto 6].
    unfold next, rw_program. cbn [rw_next tryrdlock trywrlock timedwait timedlock unlock a_fetch_add rw_lock rw_waiters].
    destruct ((r =? 0) || (r =? EINTR)) eqn:E; [|lia].
    apply orb_true_iff in E as [E|E]; rewrite E; cbn [negb andb]; [done|]. by rewrite andb_false_r.
  - right. by eexists.
Qed.

(** Thread [j] sleeps, is bound to try the lock, or is about to wake others. *)
Definition engaged (ts : list pc) (j : nat) : Prop := exists q, ts !! j = Some q /\ 0 < sleeps q + alert q.

(** ** Theorems *)

(** C14: exclusion. In every reachable state of any number of threads, a
    thread that has the lock for writing is the only one that has it; the low
    bits of [_rw_lock] are the number of readers, or 0x7fffffff for a writer;
    and [_rw_waiters] is the number of threads between its increment and its
    decrement. *)
Theorem rwlock_exclusion n s : Z.of_nat n < 2 ^ 31 - 1 -> reachable (init n) s ->
  (forall i j p q md, s.2 !! i = Some p -> s.2 !! j = Some q ->
     in_mode Wr p = 1 -> in_mode md q = 1 -> i = j /\ md = Wr) /\
  cnt (rw_lock s.1) = (if total writes s.2 =? 0 then total reads s.2 else 0x7fffffff) /\
  rw_waiters s.1 = total counted s.2.
Proof.
  intros Hb Hr. destruct (rw_reachable_safe n s Hb Hr) as [Hs _].
  destruct (safe_cnt _ _ Hs) as [_ Hc]. destruct Hs as [_ He _ Hwa _ _]. split; [|split; [|exact Hwa]].
  - intros i j p q md Hi Hj Hp Hq.
    pose proof (total_lookup writes s.2 i p (fun r => proj1 (mode_range Wr r)) Hi) as Hwp. unfold writes in Hwp at 1.
    destruct md.
    + pose proof (total_lookup reads s.2 j q (fun r => proj1 (mode_range Rd r)) Hj) as Hrq. unfold reads in Hrq at 1. lia.
    + split; [|done]. apply (total_unique writes s.2 i j p q (fun r => proj1 (mode_range Wr r))); try done. lia.
  - rewrite Hc. unfold holders. zcase; lia.
Qed.

(** Thread 0 takes the lock for reading with the try function; 1 calls
    [pthread_rwlock_wrlock], spins, marks the lock and falls asleep; then 0
    unlocks, and is about to wake it. *)
Definition queueing : list (nat * nat) :=
  (0, 0)%nat :: replicate 2 (0, 0)%nat ++ (1, 3)%nat :: replicate 206 (1, 0)%nat.
Definition unlocking : list (nat * nat) := queueing ++ replicate 4 (0, 0)%nat.
Definition queued : mem * list pc := default (init 2) (sched queueing (init 2)).
Definition unlocked : mem * list pc := default (init 2) (sched unlocking (init 2)).

Lemma queued_reachable : reachable (init 2) queued.
Proof. apply (sched_reachable (init 2) queueing (init 2) queued (reachable_refl _)). vm_compute. reflexivity. Qed.
Lemma unlocked_reachable : reachable (init 2) unlocked.
Proof. apply (sched_reachable (init 2) unlocking (init 2) unlocked (reachable_refl _)). vm_compute. reflexivity. Qed.

Lemma rwlock_exclusion_witness :
  queued.2 = [Held Rd; Asleep Wr false (- 2 ^ 31 + 1)] /\ cnt (rw_lock queued.1) = 1 /\ rw_waiters queued.1 = 1.
Proof.
  assert (Hb : Z.of_nat 2 < 2 ^ 31 - 1) by (cbn; lia).
  destruct (rwlock_exclusion 2 queued Hb queued_reachable) as (_ & Hc & Hw).
  split; [vm_compute; reflexivity|]. rewrite Hc, Hw. split; vm_compute; reflexivity.
Defined.

(** The results of the functions that do not wait, in every reachable
    state: [pthread_rwlock_trywrlock] takes the lock when nobody has it and
    returns EBUSY otherwise; [pthread_rwlock_tryrdlock] returns EBUSY when a
    writer has the lock and EAGAIN when 2^31 - 2 readers have it; otherwise
    it tries to store the incremented count, which succeeds (and makes the
    thread a reader) unless the word changed meanwhile, in which case it
    starts again; and no other outcome is possible. *)
Theorem rwlock_try_results n s i p s' : Z.of_nat n < 2 ^ 31 - 1 -> reachable (init n) s ->
  s.2 !! i = Some p -> step (LRun i) s s' ->
  match p with
  | Try Wr _ KTry =>
      s'.2 !! i = Some (if holders s.2 =? 0 then Held Wr else Failed EBUSY)
  | Try Rd tm KTry =>
      rw_lock s'.1 = rw_lock s.1 /\
      s'.2 !! i = Some (if total writes s.2 =? 1 then Failed EBUSY
                        else if total reads s.2 =? 0x7ffffffe then Failed EAGAIN
                        else TryCas tm KTry (rw_lock s.1))
  | TryCas tm KTry val =>
      if rw_lock s.1 =? val then
        s'.2 !! i = Some (Held Rd) /\ total reads s'.2 = total reads s.2 + 1 /\ total writes s'.2 = 0
      else s'.2 !! i = Some (Try Rd tm KTry) /\ rw_lock s'.1 = rw_lock s.1
  | _ => True
  end.
Proof.
  intros Hb Hr Hi Hst. destruct (rw_reachable_safe n s Hb Hr) as [Hs _].
  pose proof (safe_cnt _ _ Hs) as [Hrange Hc]. pose proof (cnt_spec _ Hrange) as Hcs.
  pose proof (proj1 (rw_reachable_safe n s' Hb (reachable_step _ _ _ _ Hr Hst))) as Hs'.
  pose proof (Forall_lookup_1 _ _ _ _ (safe_local _ _ Hs) Hi) as Hok.
  pose proof (safe_excl _ _ Hs) as He. pose proof (safe_excl _ _ Hs') as He'.
  pose proof (safe_word _ _ Hs) as Hw. pose proof (holders_nonneg s.2) as Hh.
  inversion Hst as [i' p' outs q m m' ts Hi' Hp Hq| |]; subst; cbn [fst snd] in *.
  replace p' with p in * by congruence. pose proof (lookup_lt_Some _ _ _ Hi) as Hlt.
  destruct p as [|[] tm []|tm [] val| | | | | | | | | | | | | |]; try exact I;
    unfold next, rw_program in Hp; cbn [rw_next tryrdlock trywrlock timedwait timedlock unlock a_cas] in Hp; unfold holders in *.
  - revert Hp; tests; intros Hp; outcomes Hp Hq; (split; [done|]);
      rewrite list_lookup_insert_eq by done; tests; try done; lia.
  - outcomes Hp Hq. rewrite list_lookup_insert_eq by done.
    destruct (Z.eqb_spec (rw_lock m) 0); unfold tried; tests; try done; lia.
  - outcomes Hp Hq. rewrite (total_insert _ _ _ _ _ Hi) in *. rewrite list_lookup_insert_eq by done. cbn [rw_lock].
    destruct (Z.eqb_spec (rw_lock m) val) as [<-|]; [|done]. cbn in *. rewrite (total_insert _ _ _ _ _ Hi) in *.
    cbn in *. split; [done|]. lia.
Qed.

(** Two readers have the lock in this state, and a writer's try is under way. *)
Definition trying : mem * list pc :=
  default (init 2) (sched (replicate 3 (0, 0) ++ [(1, 1)])%nat (init 2)).
Definition tried_out : mem * list pc :=
  default (init 2) (sched (replicate 3 (0, 0) ++ [(1, 1); (1, 0)])%nat (init 2)).

Lemma rwlock_try_results_witness :
  trying.2 !! 1%nat = Some (Try Wr false KTry) /\ tried_out.2 !! 1%nat = Some (Failed EBUSY).
Proof.
  assert (Hb : Z.of_nat 2 < 2 ^ 31 - 1) by (cbn; lia).
  assert (Hr : reachable (init 2) trying).
  { apply (sched_reachable (init 2) (replicate 3 (0, 0) ++ [(1, 1)])%nat (init 2) trying (reachable_refl _)).
    vm_compute. reflexivity. }
  assert (Hi : trying.2 !! 1%nat = Some (Try Wr false KTry)) by (vm_compute; reflexivity).
  assert (Hst : step (LRun 1) trying tried_out).
  { apply (step_run 1 (Try Wr false KTry) [(Failed EBUSY, mkMem 1 0)] (Failed EBUSY) (mkMem 1 0) (mkMem 1 0)
      [Held Rd; Try Wr false KTry]); [reflexivity|reflexivity|by apply list_elem_of_singleton]. }
  split; [exact Hi|].
  refine (eq_trans (rwlock_try_results 2 trying 1 _ tried_out Hb Hr Hi Hst) _). vm_compute. reflexivity.
Defined.

(** C31: no wake-up is lost. In every reachable state with a thread asleep
    in [pthread_rwlock_timedrdlock] or [pthread_rwlock_timedwrlock] while
    nobody has the lock, the threads asleep, bound to try the lock or about
    to wake others can take at most four steps, no futex wait returning
    without a wake-up, after which one of them has the lock. *)
Theorem rwlock_progress n s i md tm t : Z.of_nat n < 2 ^ 31 - 1 -> reachable (init n) s ->
  s.2 !! i = Some (Asleep md tm t) -> total reads s.2 = 0 -> total writes s.2 = 0 ->
  exists k s' j md', (k <= 4)%nat /\ run (engaged s.2) k s s' /\ s'.2 !! j = Some (Held md').
Proof.
  intros Hb Hr Hi HR HW. destruct (rw_reachable_safe n s Hb Hr) as [Hs Hw].
  destruct s as [m ts]; cbn [fst snd] in *.
  assert (Hl : rw_lock m = 0) by (apply (holders_zero m ts Hs); unfold holders; lia).
  pose proof (total_lookup sleeps ts i _ (fun q => proj1 (rw_sleeps_range q)) Hi) as Hsl. cbn in Hsl.
  assert (Ha : 0 < total alert ts) by (unfold watched, holders in Hw; lia).
  destruct (total_pos alert ts Ha) as (j & p & Hj & Hp). pose proof (rw_sleeps_range p).
  assert (Hjw : engaged ts j) by (exists p; split; [done|lia]).
  destruct (alert_run (engaged ts) m ts j p Hjw Hl Hj Hp) as [(k & m' & ts' & md' & Hk & Hrun & Hh)|[c ->]];
    [exists k, (m', ts'), j, md'; split; [lia|done]|].
  pose proof (Forall_lookup_1 _ _ _ _ (safe_local _ _ Hs) Hj) as Hc. cbn in Hc.
  destruct (woken_exists m (wake_count c) (<[j := Idle]> ts)) as [ts1 Hts1].
  pose proof (total_insert sleeps ts j _ Idle Hj) as Hsl1. cbn in Hsl1.
  assert (Hn : 0 < wake_count c) by (unfold wake_count; zcase; lia).
  destruct (woken_back m _ _ _ Hn Hts1) as [[Hz _]|(_ & j1 & md1 & tm1 & t1 & Hj0 & Hj1)]; [lia|].
  assert (Hj1w : engaged ts j1).
  { rewrite list_lookup_insert_Some in Hj0. destruct Hj0 as [[_ [Hj0 _]]|[_ Hj0]]; [discriminate Hj0|].
    eexists. split; [exact Hj0|]. cbn. lia. }
  destruct (alert_run (engaged ts) m ts1 j1 _ Hj1w Hl Hj1 Z.lt_0_1)
    as [(k & m' & ts' & md' & Hk & Hrun & Hh)|[? [=]]].
  exists (S k), (m', ts'), j1, md'. split; [lia|]. split; [|done].
  eapply run_cons; [right; reflexivity|exact Hjw| |exact Hrun].
  exact (step_wake j _ _ _ m ts ts1 Hj eq_refl Hts1).
Qed.

Lemma rwlock_progress_witness :
  unlocked.2 = [Waking 1; Asleep Wr false (- 2 ^ 31 + 1)] /\
  exists k s' j md, (k <= 4)%nat /\ run (engaged unlocked.2) k unlocked s' /\ s'.2 !! j = Some (Held md).
Proof.
  assert (Hb : Z.of_nat 2 < 2 ^ 31 - 1) by (cbn; lia).
  assert (Hi : unlocked.2 !! 1%nat = Some (Asleep Wr false (- 2 ^ 31 + 1))) by (vm_compute; reflexivity).
  assert (HR : total reads unlocked.2 = 0) by (vm_compute; reflexivity).
  assert (HW : total writes unlocked.2 = 0) by (vm_compute; reflexivity).
  split; [vm_compute; reflexivity|].
  exact (rwlock_progress 2 unlocked 1 _ _ _ Hb unlocked_reachable Hi HR HW).
Defined.
