(* ===== verification/Strtol.v ===== *)
(** * Strtol: integer parsing (src/src/internal/intscan.c, stdlib/strtol.c, stdlib/strtonum.c).

    [__intscan] reads digits of any base from a stream into 32- and then
    64-bit accumulators with overflow guards; [strtox] runs it on a string.
    The theorems compare them with the subject sequence of the C standard
    and its unbounded value. *)

From S2P Require Import Prelude.

Notation "'UINT_MAX'" := 0xffffffff.
Notation "'ULLONG_MAX'" := 0xffffffffffffffff.
Notation "'LLONG_MIN'" := (-9223372036854775808).
Notation "'LLONG_MAX'" := 9223372036854775807.

(** ** The stream over a string *)

(** The [FILE] of [strtox]: [rend] is the pointer -1 and the limit 0, so that
    [shgetc] never refills and [shunget] always steps back. [buf] are the
    characters before the terminator: reading at its end gives 0. *)
Record FILE := mkFILE { buf : list Z; rpos : Z; shcnt_off : Z }.
Definition sh_fromstring (s : list Z) : FILE := mkFILE s 0 0.
Definition shcnt (f : FILE) : Z := shcnt_off f + rpos f.
Definition shlim0 (f : FILE) : FILE := mkFILE (buf f) (rpos f) (- rpos f).
Definition shgetc (f : FILE) : Z * FILE := ((buf f).[rpos f], mkFILE (buf f) (rpos f + 1) (shcnt_off f)).
Definition shunget (f : FILE) : FILE := mkFILE (buf f) (rpos f - 1) (shcnt_off f).

(** ** __intscan *)

Definition isspace (c : Z) : bool := (c =? 32) || (u32 (c - 9) <? 5).

(** [table], the [-1]s as the bytes they are stored as. *)
Definition table : list Z :=
  replicate 49 255 ++ seqZ 0 10 ++ replicate 7 255 ++ seqZ 10 26 ++
  replicate 6 255 ++ seqZ 10 26 ++ replicate 133 255.
(** [val = table+1] *)
Definition val (c : Z) : Z := table.[c + 1].

(** [c-'0'<10U] *)
Definition dec_digit (c : Z) : bool := u32 (c - 48) <? 10.

(** [for (...; cond; c=shgetc(f)) x = ...]: the state is [c], the accumulator and the stream. *)
Definition scan_loop (f0 : FILE) (cond : Z -> Z -> bool) (upd : Z -> Z -> Z) (st : Z * Z * FILE) : Z * Z * FILE :=
  while_ (length (buf f0)) (fun '(c, x, _) => cond c x)
    (fun '(c, x, f) => let x := upd c x in let '(c, f) := shgetc f in (c, x, f)) st.

(** The three pairs of loops, [c] the character already read. *)
Definition scan10 (c : Z) (f : FILE) : Z * Z * FILE :=
  let '(c, x, f) := scan_loop f (fun c x => dec_digit c && (x <=? UINT_MAX / 10 - 1))
                      (fun c x => u32 (x * 10 + (c - 48))) (c, 0, f) in
  scan_loop f (fun c y => dec_digit c && (y <=? ULLONG_MAX / 10) && (u64 (10 * y) <=? ULLONG_MAX - (c - 48)))
    (fun c y => u64 (y * 10 + (c - 48))) (c, x, f).

Definition bs_table : list Z := [0; 1; 2; 4; 7; 3; 6; 5].
Definition scan_pow2 (base c : Z) (f : FILE) : Z * Z * FILE :=
  let bs := bs_table.[((0x17 * base) ≫ 5) .& 7] in
  let '(c, x, f) := scan_loop f (fun c x => (val c <? base) && (x <=? UINT_MAX / 32))
                      (fun c x => shl32 x bs .| val c) (c, 0, f) in
  scan_loop f (fun c y => (val c <? base) && (y <=? ULLONG_MAX ≫ bs))
    (fun c y => shl64 y bs .| val c) (c, x, f).

Definition scan_any (base c : Z) (f : FILE) : Z * Z * FILE :=
  let '(c, x, f) := scan_loop f (fun c x => (val c <? base) && (x <=? UINT_MAX / 36 - 1))
                      (fun c x => u32 (x * base + val c)) (c, 0, f) in
  scan_loop f (fun c y => (val c <? base) && (y <=? ULLONG_MAX / base) && (u64 (base * y) <=? ULLONG_MAX - val c))
    (fun c y => u64 (y * base + val c)) (c, x, f).

(** [done:] The results are the value returned, the stream and [errno]. *)
Definition done_ (y : Z) (f : FILE) (neg lim errno : Z) : Z * FILE * Z :=
  let f := shunget f in
  let ret := u64 ((y .^ u64 neg) - neg) in
  if lim <=? y then
    if (lim .& 1 =? 0) && (neg =? 0) then (lim - 1, f, ERANGE)
    else if lim <? y then (lim, f, ERANGE)
    else (ret, f, errno)
  else (ret, f, errno).

(** [if (val[c]<base) ...]: digits are left after an overflow. *)
Definition finish (c y : Z) (f : FILE) (base neg lim errno : Z) : Z * FILE * Z :=
  if val c <? base then
    let '(_, _, f) := scan_loop f (fun c _ => val c <? base) (fun _ y => y) (c, y, f) in
    done_ lim f (if negb (lim .& 1 =? 0) then 0 else neg) lim ERANGE
  else done_ y f neg lim errno.

(** From the first character of the number on. *)
Definition scan_digits (c : Z) (f : FILE) (base neg lim errno : Z) : Z * FILE * Z :=
  if base =? 10 then
    let '(c, y, f) := scan10 c f in
    if negb (dec_digit c) then done_ y f neg lim errno
    else finish c y f base neg lim errno
  else if base .& (base - 1) =? 0 then
    let '(c, y, f) := scan_pow2 base c f in finish c y f base neg lim errno
  else
    let '(c, y, f) := scan_any base c f in finish c y f base neg lim errno.

(** From the character after the sign on. *)
Definition scan_number (c : Z) (f : FILE) (base : Z) (pok : bool) (neg lim errno : Z) : Z * FILE * Z :=
  if ((base =? 0) || (base =? 16)) && (c =? 48) then
    let '(c, f) := shgetc f in
    if c .| 32 =? 120 then
      let '(c, f) := shgetc f in
      if 16 <=? val c then
        let f := shunget f in
        (0, (if pok then shunget f else shlim0 f), errno)
      else scan_digits c f 16 neg lim errno
    else scan_digits c f (if base =? 0 then 8 else base) neg lim errno
  else
    let base := if base =? 0 then 10 else base in
    if base <=? val c then (0, shlim0 (shunget f), EINVAL)
    else scan_digits c f base neg lim errno.

Definition intscan (f : FILE) (base : Z) (pok : bool) (lim errno : Z) : Z * FILE * Z :=
  if (36 <? base) || (base =? 1) then (0, f, EINVAL)
  else
    let '(c, f) := shgetc f in
    let '(c, f) := while_ (length (buf f)) (fun '(c, _) => isspace c) (fun '(_, f) => shgetc f) (c, f) in
    let '(neg, c, f) :=
      if (c =? 43) || (c =? 45) then
        let '(c', f) := shgetc f in ((if c =? 45 then -1 else 0), c', f)
      else (0, c, f) in
    scan_number c f base pok neg lim errno.

(** ** strtol.c: the value, the offset stored through [p] and [errno] *)
Definition strtox (s : list Z) (base lim errno : Z) : Z * Z * Z :=
  let '(y, f, errno) := intscan (shlim0 (sh_fromstring s)) (u32 base) true lim errno in
  (y, shcnt f, errno).
Definition strtoull (s : list Z) (base errno : Z) : Z * Z * Z := strtox s base ULLONG_MAX errno.
Definition strtoll (s : list Z) (base errno : Z) : Z * Z * Z :=
  let '(y, n, errno) := strtox s base (u64 LLONG_MIN) errno in (sgn 64 y, n, errno).
(** LP64: [long] is [long long]. *)
Definition strtoul (s : list Z) (base errno : Z) : Z * Z * Z := strtox s base ULLONG_MAX errno.
Definition strtol (s : list Z) (base errno : Z) : Z * Z * Z :=
  let '(y, n, errno) := strtox s base (u64 LLONG_MIN) errno in (sgn 64 y, n, errno).

(** ** strtonum.c: the value, the message and [errno] *)
Inductive errstr := Null | too_large | too_small | invalid.

Definition strtonum (nptr : list Z) (minval maxval errno0 : Z) : Z * errstr * Z :=
  let saved_errno := errno0 in
  if maxval <? minval then (0, invalid, EINVAL)
  else
    let k := while_ (length nptr) (fun k => isspace (nptr.[k])) (fun k => k + 1) 0 in
    let nptr := drop (Z.to_nat k) nptr in
    if nptr.[0] =? 0 then (0, invalid, EINVAL)
    else
      let '(v, endp, errno) := strtoll nptr 10 0 in
      if (endp =? 0) || negb (nptr.[endp] =? 0) then (0, invalid, EINVAL)
      else if (errno =? ERANGE) || (v <? minval) || (maxval <? v) then
        if (v <? minval) || ((errno =? ERANGE) && (v =? LLONG_MIN)) then (0, too_small, ERANGE)
        else if (maxval <? v) || ((errno =? ERANGE) && (v =? LLONG_MAX)) then (0, too_large, ERANGE)
        else (v, Null, saved_errno)
      else (v, Null, saved_errno).

(** ** Specification: the subject sequence and its value *)

Module Subject.
Definition digit (c : Z) : Z :=
  if (48 <=? c) && (c <=? 57) then c - 48
  else if (65 <=? c) && (c <=? 90) then c - 55
  else if (97 <=? c) && (c <=? 122) then c - 87 else 255.

Fixpoint take_while (P : Z -> bool) (l : list Z) : list Z :=
  match l with
  | c :: l => if P c then c :: take_while P l else []
  | [] => []
  end.

Definition value_from (b a : Z) (ds : list Z) : Z := foldl (fun a c => a * b + digit c) a ds.
Definition value (b : Z) (ds : list Z) : Z := value_from b 0 ds.

(** Base 0 reads the base from the prefix; [0x] counts only before a hexadecimal digit. *)
Definition prefix (base : Z) (l : list Z) : Z * nat :=
  match l with
  | c :: x :: d :: _ =>
      if ((base =? 0) || (base =? 16)) && (c =? 48) && ((x =? 120) || (x =? 88)) && (digit d <? 16) then (16, 2%nat)
      else (if base =? 0 then if c =? 48 then 8 else 10 else base, O)
  | c :: _ => (if base =? 0 then if c =? 48 then 8 else 10 else base, O)
  | [] => (if base =? 0 then 10 else base, O)
  end.

(** The sign, the value, and the length up to the end of the digits. *)
Definition subject (base : Z) (s : list Z) : option (bool * Z * nat) :=
  let ws := take_while isspace s in
  let l := drop (length ws) s in
  let '(neg, sg) := match l with c :: _ => (c =? 45, if (c =? 43) || (c =? 45) then 1%nat else O) | [] => (false, O) end in
  let l := drop sg l in
  let '(b, p) := prefix base l in
  let ds := take_while (fun c => digit c <? b) (drop p l) in
  match ds with
  | [] => None
  | _ => Some (neg, value b ds, (length ws + sg + p + length ds)%nat)
  end.

Definition valid_base (base : Z) : bool := (base =? 0) || (2 <=? base) && (base <=? 36).
End Subject.
Import Subject.

(** ** Characters *)

Lemma chars_check (P : Z -> bool) : forallb P (seqZ 0 256) = true -> forall c, 0 <= c < 256 -> P c = true.
Proof. intros H c Hc. apply (proj1 (forallb_forall P _) H), list_elem_of_In, elem_of_seqZ. lia. Qed.

Lemma val_digit c : 0 <= c < 256 -> val c = digit c.
Proof. intros H. apply Z.eqb_eq. by apply (chars_check (fun c => val c =? digit c)). Qed.
Lemma dec_digit_spec c : 0 <= c < 256 -> dec_digit c = (digit c <? 10).
Proof. intros H. apply eqb_prop. by apply (chars_check (fun c => Bool.eqb (dec_digit c) (digit c <? 10))). Qed.
Lemma digit_nonneg c : 0 <= digit c.
Proof. unfold digit. repeat case_match; lia. Qed.
Lemma digit_dec c : digit c < 10 -> digit c = c - 48.
Proof. unfold digit. repeat case_match; lia. Qed.
Lemma digit_zero : digit 0 = 255.
Proof. done. Qed.
Lemma lower_x c : 0 <= c < 256 -> (c .| 32 =? 120) = ((c =? 120) || (c =? 88)).
Proof. intros H. apply eqb_prop. by apply (chars_check (fun c => Bool.eqb (c .| 32 =? 120) ((c =? 120) || (c =? 88)))). Qed.

Lemma bytes_aget s k : bytes s -> 0 <= s.[k] < 256.
Proof.
  intros H. unfold aget. destruct (s !! Z.to_nat k) eqn:E; cbn; [|lia].
  exact (Forall_lookup_1 _ _ _ _ H E).
Qed.

(** ** Values *)

Lemma value_from_app b a l l' : value_from b a (l ++ l') = value_from b (value_from b a l) l'.
Proof. apply foldl_app. Qed.

Lemma value_from_ge b a l : 1 <= b -> 0 <= a -> a <= value_from b a l.
Proof.
  intros Hb. revert a; induction l as [|c l IH]; intros a Ha; [done|].
  change (a <= value_from b (a * b + digit c) l). pose proof (digit_nonneg c). specialize (IH (a * b + digit c)). nia.
Qed.

(** ** The loops *)

(** A guarded loop over the digits stops at the first the guard refuses. *)
Fixpoint eat (g : Z -> Z -> bool) (upd : Z -> Z -> Z) (x : Z) (ds : list Z) : Z * list Z :=
  match ds with
  | c :: ds' => if g c x then eat g upd (upd c x) ds' else (x, ds)
  | [] => (x, [])
  end.

Definition at_ (s : list Z) (k : nat) (x off : Z) : Z * Z * FILE :=
  (s.[Z.of_nat k], x, mkFILE s (Z.of_nat k + 1) off).

Lemma aget_app s k (pre ds : list Z) : s = pre ++ ds -> k = length pre -> s.[Z.of_nat k] = ds.[0].
Proof.
  intros -> ->. unfold aget. rewrite Nat2Z.id, lookup_app_r by lia. by rewrite Nat.sub_diag.
Qed.

Lemma scan_loop_eat (P : Z -> bool) s f0 g cond upd off : bytes s -> buf f0 = s ->
  (forall c x, 0 <= c < 256 -> cond c x = P c && g c x) ->
  forall ds pre tl x, s = pre ++ ds ++ tl -> forallb P ds = true -> P (tl.[0]) = false ->
  scan_loop f0 cond upd (at_ s (length pre) x off) =
    let '(x', rest) := eat g upd x ds in at_ s (length pre + length ds - length rest) x' off.
Proof.
  intros Hb Hf HP ds pre tl x Hs Hds Htl. unfold scan_loop. rewrite Hf.
  assert (Hlen : (length ds <= length s)%nat) by (rewrite Hs, !length_app; lia).
  revert Hlen. generalize (length s) as n. intros n. clear f0 Hf.
  revert n pre x Hs Hds. induction ds as [|c ds IH]; intros n pre x Hs Hds Hn.
  - cbn [eat length]. rewrite Nat.add_0_r, Nat.sub_0_r. destruct n; cbn [while_ at_]; [done|].
    rewrite HP by (by apply bytes_aget). by rewrite (aget_app s _ pre tl Hs eq_refl), Htl.
  - cbn [forallb] in Hds. apply andb_prop in Hds as [Hc Hds]. destruct n; [cbn in Hn; lia|].
    cbn [while_ eat at_]. rewrite HP by (by apply bytes_aget).
    rewrite (aget_app s _ pre _ Hs eq_refl). change (((c :: ds) ++ tl).[0]) with c.
    rewrite Hc. cbn [andb]. destruct (g c x).
    + specialize (IH n (pre ++ [c]) (upd c x)). rewrite <- app_assoc in IH. specialize (IH Hs Hds).
      cbn [length] in Hn. specialize (IH ltac:(lia)). rewrite length_app in IH. cbn [length] in *.
      unfold shgetc. cbn [buf rpos shcnt_off].
      replace (Z.of_nat (length pre) + 1) with (Z.of_nat (length pre + 1)) by lia.
      etransitivity; [exact IH|]. destruct (eat g upd (upd c x) ds) as [x' rest].
      do 2 f_equal; lia.
    + unfold at_. cbn [length]. replace (length pre + S (length ds) - S (length ds))%nat with (length pre) by lia.
      by rewrite (aget_app s _ pre _ Hs eq_refl).
Qed.

(** What the guard and the step of a loop must satisfy, for an accumulator of
    [w] bits in base [b]. *)
Lemma eat_value b w g upd ds : 1 <= b ->
  (forall c x, 0 <= c < 256 -> 0 <= x < 2 ^ w -> digit c < b -> g c x = true ->
     upd c x = x * b + digit c /\ upd c x < 2 ^ w) ->
  bytes ds -> forallb (fun c => digit c <? b) ds = true ->
  forall x, 0 <= x < 2 ^ w ->
  let '(x', rest) := eat g upd x ds in
  exists taken, ds = taken ++ rest /\ x' = value_from b x taken /\ 0 <= x' < 2 ^ w /\
    (rest = [] \/ exists c rest', rest = c :: rest' /\ 0 <= c < 256 /\ digit c < b /\ g c x' = false).
Proof.
  intros Hb Hg. induction ds as [|c ds IH]; intros Hby Hds x Hx.
  - exists []. cbn. auto.
  - apply Forall_cons_1 in Hby as [Hcb Hby]. cbn [forallb] in Hds. apply andb_prop in Hds as [Hc Hds]. apply Z.ltb_lt in Hc.
    cbn [eat]. destruct (g c x) eqn:E.
    + destruct (Hg c x Hcb Hx Hc E) as [Hu Hu']. pose proof (digit_nonneg c).
      specialize (IH Hby Hds (upd c x)). destruct (eat g upd (upd c x) ds) as [x' rest].
      destruct IH as (taken & -> & -> & H1 & H2); [nia|].
      exists (c :: taken). repeat split; try lia; [|done]. cbn. by rewrite Hu.
    + exists []. repeat split; [lia|lia|]. right. by exists c, ds.
Qed.

(** After the two loops of a scanner: either every digit is in the
    accumulator, or it stopped before a digit that would overflow 64 bits. *)
Definition scanned (s pre ds : list Z) (b off : Z) (st : Z * Z * FILE) : Prop :=
  exists taken rest y, ds = taken ++ rest /\ st = at_ s (length pre + length taken) y off /\
    (rest = [] /\ y = value b ds /\ 0 <= y < 2 ^ 64 \/ rest <> [] /\ 2 ^ 64 <= value b ds).

Lemma two_loops b s f0 off cond1 g1 upd1 cond2 g2 upd2 ds pre tl :
  1 <= b -> bytes s -> buf f0 = s -> s = pre ++ ds ++ tl ->
  forallb (fun c => digit c <? b) ds = true -> digit (tl.[0]) >= b ->
  (forall c x, 0 <= c < 256 -> cond1 c x = (digit c <? b) && g1 c x) ->
  (forall c x, 0 <= c < 256 -> 0 <= x < 2 ^ 32 -> digit c < b -> g1 c x = true -> upd1 c x = x * b + digit c /\ upd1 c x < 2 ^ 32) ->
  (forall c x, 0 <= c < 256 -> cond2 c x = (digit c <? b) && g2 c x) ->
  (forall c y, 0 <= c < 256 -> 0 <= y < 2 ^ 64 -> digit c < b -> g2 c y = true -> upd2 c y = y * b + digit c /\ upd2 c y < 2 ^ 64) ->
  (forall c y, 0 <= c < 256 -> 0 <= y < 2 ^ 64 -> digit c < b -> g2 c y = false -> 2 ^ 64 <= y * b + digit c) ->
  scanned s pre ds b off
    (let '(c, x, f) := scan_loop f0 cond1 upd1 (at_ s (length pre) 0 off) in scan_loop f cond2 upd2 (c, x, f)).
Proof.
  intros Hb Hby Hf Hs Hds Htl Hc1 Hu1 Hc2 Hu2 Ho.
  assert (Htl' : (digit (tl.[0]) <? b) = false) by (apply Z.ltb_ge; lia).
  rewrite (scan_loop_eat _ s f0 g1 cond1 upd1 off Hby Hf Hc1 ds pre tl 0 Hs Hds Htl').
  assert (Hbd : bytes ds) by (rewrite Hs in Hby; by apply Forall_app in Hby as [_ [Hby _]%Forall_app]).
  pose proof (eat_value b 32 g1 upd1 ds Hb Hu1 Hbd Hds 0 ltac:(lia)) as H1.
  destruct (eat g1 upd1 0 ds) as [x rest1]. destruct H1 as (t1 & -> & -> & Hx & _).
  rewrite forallb_app in Hds. apply andb_prop in Hds as [_ Hds]. apply Forall_app in Hbd as [_ Hbd].
  rewrite <- app_assoc, app_assoc in Hs.
  replace (length pre + length (t1 ++ rest1) - length rest1)%nat with (length (pre ++ t1)) by (rewrite !length_app; lia).
  unfold at_ at 1. fold (at_ s (length (pre ++ t1)) (value_from b 0 t1) off).
  rewrite (scan_loop_eat _ s (mkFILE s (Z.of_nat (length (pre ++ t1)) + 1) off) g2 cond2 upd2 off Hby eq_refl Hc2 rest1 (pre ++ t1) tl _ Hs Hds Htl').
  pose proof (eat_value b 64 g2 upd2 rest1 Hb Hu2 Hbd Hds (value_from b 0 t1) ltac:(lia)) as H2.
  destruct (eat g2 upd2 (value_from b 0 t1) rest1) as [y rest]. destruct H2 as (t2 & -> & -> & Hy & Hr).
  exists (t1 ++ t2), rest, (value_from b (value_from b 0 t1) t2). split; [by rewrite app_assoc|].
  split; [f_equal; rewrite !length_app; lia|]. unfold value. rewrite !value_from_app.
  destruct Hr as [->|(c & rest' & -> & Hcb & Hc & Hg)]; [left; split; [done|]; split; [done|exact Hy]|right].
  split; [done|]. specialize (Ho c _ Hcb Hy Hc Hg). pose proof (digit_nonneg c).
  change (2 ^ 64 <= value_from b (value_from b (value_from b 0 t1) t2 * b + digit c) rest').
  pose proof (value_from_ge b (value_from b (value_from b 0 t1) t2 * b + digit c) rest' Hb). nia.
Qed.

(** The three scanners. *)

Definition digits_at (b : Z) (s pre ds tl : list Z) : Prop :=
  bytes s /\ s = pre ++ ds ++ tl /\ forallb (fun c => digit c <? b) ds = true /\ digit (tl.[0]) >= b.

Lemma u32_small x : 0 <= x < 2 ^ 32 -> u32 x = x.
Proof. exact (wrap_small 32 x). Qed.
Lemma u64_small x : 0 <= x < 2 ^ 64 -> u64 x = x.
Proof. exact (wrap_small 64 x). Qed.

Lemma scan10_spec s pre ds tl off : digits_at 10 s pre ds tl ->
  scanned s pre ds 10 off (scan10 (s.[Z.of_nat (length pre)]) (mkFILE s (Z.of_nat (length pre) + 1) off)).
Proof.
  intros (Hby & Hs & Hds & Htl).
  apply (two_loops 10 s (mkFILE s (Z.of_nat (length pre) + 1) off) off
    (fun c x => dec_digit c && (x <=? UINT_MAX / 10 - 1)) (fun _ x => x <=? UINT_MAX / 10 - 1)
    (fun c x => u32 (x * 10 + (c - 48)))
    (fun c y => dec_digit c && (y <=? ULLONG_MAX / 10) && (u64 (10 * y) <=? ULLONG_MAX - (c - 48)))
    (fun c y => (y <=? ULLONG_MAX / 10) && (u64 (10 * y) <=? ULLONG_MAX - (c - 48)))
    (fun c y => u64 (y * 10 + (c - 48))) ds pre tl); try done.
  - intros c x Hc. by rewrite dec_digit_spec.
  - intros c x Hc Hx Hd Hg%Z.leb_le. change (UINT_MAX / 10 - 1) with 429496728 in Hg.
    rewrite <- (digit_dec c Hd). pose proof (digit_nonneg c). rewrite u32_small; lia.
  - intros c x Hc. rewrite dec_digit_spec by done. by rewrite andb_assoc.
  - intros c y Hc Hy Hd [Hg%Z.leb_le Hg'%Z.leb_le]%andb_prop. change (ULLONG_MAX / 10) with 1844674407370955161 in Hg.
    rewrite u64_small in Hg' by lia. rewrite <- (digit_dec c Hd) in *. pose proof (digit_nonneg c).
    rewrite u64_small; lia.
  - intros c y Hc Hy Hd Hg. change (ULLONG_MAX / 10) with 1844674407370955161 in Hg. pose proof (digit_nonneg c).
    apply andb_false_iff in Hg as [Hg%Z.leb_gt|Hg%Z.leb_gt]; [lia|]. rewrite <- (digit_dec c Hd) in Hg.
    destruct (Z.le_gt_cases (10 * y) ULLONG_MAX); [rewrite u64_small in Hg by lia|]; lia.
Qed.

Lemma scan_any_spec b s pre ds tl off : 2 <= b <= 36 -> digits_at b s pre ds tl ->
  scanned s pre ds b off (scan_any b (s.[Z.of_nat (length pre)]) (mkFILE s (Z.of_nat (length pre) + 1) off)).
Proof.
  intros Hb (Hby & Hs & Hds & Htl).
  pose proof (Z.mul_div_le ULLONG_MAX b ltac:(lia)) as Hq1.
  pose proof (Z.mul_succ_div_gt ULLONG_MAX b ltac:(lia)) as Hq2.
  apply (two_loops b s (mkFILE s (Z.of_nat (length pre) + 1) off) off
    (fun c x => (val c <? b) && (x <=? UINT_MAX / 36 - 1)) (fun _ x => x <=? UINT_MAX / 36 - 1)
    (fun c x => u32 (x * b + val c))
    (fun c y => (val c <? b) && (y <=? ULLONG_MAX / b) && (u64 (b * y) <=? ULLONG_MAX - val c))
    (fun c y => (y <=? ULLONG_MAX / b) && (u64 (b * y) <=? ULLONG_MAX - val c))
    (fun c y => u64 (y * b + val c)) ds pre tl); try done; try lia.
  - intros c x Hc. by rewrite val_digit.
  - intros c x Hc Hx Hd Hg%Z.leb_le. change (UINT_MAX / 36 - 1) with 119304646 in Hg.
    rewrite (val_digit c Hc). pose proof (digit_nonneg c). rewrite u32_small; nia.
  - intros c x Hc. rewrite val_digit by done. by rewrite andb_assoc.
  - intros c y Hc Hy Hd [Hg%Z.leb_le Hg'%Z.leb_le]%andb_prop. rewrite (val_digit c Hc) in *.
    pose proof (digit_nonneg c). rewrite u64_small in Hg' by nia. rewrite u64_small; nia.
  - intros c y Hc Hy Hd Hg. pose proof (digit_nonneg c). rewrite (val_digit c Hc) in *.
    apply andb_false_iff in Hg as [Hg%Z.leb_gt|Hg%Z.leb_gt]; [nia|].
    destruct (Z.le_gt_cases (b * y) ULLONG_MAX); [rewrite u64_small in Hg by nia|]; lia.
Qed.

Lemma scan_pow2_spec b s pre ds tl off : b ∈ [2; 4; 8; 16; 32] -> digits_at b s pre ds tl ->
  scanned s pre ds b off (scan_pow2 b (s.[Z.of_nat (length pre)]) (mkFILE s (Z.of_nat (length pre) + 1) off)).
Proof.
  intros Hb (Hby & Hs & Hds & Htl). unfold scan_pow2.
  assert (exists n, bs_table.[((0x17 * b) ≫ 5) .& 7] = n /\ 1 <= n <= 5 /\ b = 2 ^ n) as (n & -> & Hn & Hbn).
  { rewrite !elem_of_cons in Hb. destruct Hb as [->|[->|[->|[->|[->|Hb]]]]]; try (eexists; split; [reflexivity|]; vm_compute; intuition congruence).
    by apply elem_of_nil in Hb. }
  assert (Hpn : 2 <= 2 ^ n <= 32) by (change 2 with (2 ^ 1) at 1; change 32 with (2 ^ 5); split; apply Z.pow_le_mono_r; lia).
  assert (Hlor : forall c x, 0 <= c < 256 -> digit c < b -> 0 <= x -> (x ≪ n) .| val c = x * b + digit c).
  { intros c x Hc Hd Hx. rewrite (val_digit c Hc), Z.lor_comm, <- lor_add_disjoint; [subst b; lia|lia|].
    pose proof (digit_nonneg c). unfold word. lia. }
  assert (Hshl : forall x, 0 <= x -> x ≪ n = x * b) by (intros x Hx; rewrite Z.shiftl_mul_pow2; lia).
  assert (Hm : (2 ^ (64 - n)) * b = 2 ^ 64) by (subst b; rewrite <- Z.pow_add_r by lia; f_equal; lia).
  assert (Hsh : ULLONG_MAX ≫ n = 2 ^ (64 - n) - 1).
  { rewrite Z.shiftr_div_pow2, <- Hbn by lia. symmetry. apply (Z.div_unique _ _ _ (b - 1)); [lia|].
    change ULLONG_MAX with (2 ^ 64 - 1). lia. }
  apply (two_loops b s (mkFILE s (Z.of_nat (length pre) + 1) off) off
    (fun c x => (val c <? b) && (x <=? UINT_MAX / 32)) (fun _ x => x <=? UINT_MAX / 32)
    (fun c x => shl32 x n .| val c)
    (fun c y => (val c <? b) && (y <=? ULLONG_MAX ≫ n)) (fun _ y => y <=? ULLONG_MAX ≫ n)
    (fun c y => shl64 y n .| val c) ds pre tl); try done; try lia.
  - intros c x Hc. by rewrite val_digit.
  - intros c x Hc Hx Hd Hg%Z.leb_le. change (UINT_MAX / 32) with 134217727 in Hg. pose proof (digit_nonneg c).
    unfold shl32. rewrite u32_small by (rewrite Hshl; nia). rewrite Hlor by lia. nia.
  - intros c x Hc. by rewrite val_digit.
  - intros c y Hc Hy Hd Hg%Z.leb_le. rewrite Hsh in Hg. pose proof (digit_nonneg c).
    unfold shl64. rewrite u64_small by (rewrite Hshl; nia). rewrite Hlor by lia. nia.
  - intros c y Hc Hy Hd Hg%Z.leb_gt. rewrite Hsh in Hg. pose proof (digit_nonneg c). nia.
Qed.

(** ** The end of the scan *)

(** Value and [errno] for a number of sign [neg] and magnitude [v]. *)
Definition limited (lim : Z) (neg : bool) (v errno : Z) : Z * Z :=
  let w := if neg then - v else v in
  if lim =? ULLONG_MAX then if ULLONG_MAX <? v then (ULLONG_MAX, ERANGE) else (u64 w, errno)
  else if LLONG_MAX <? w then (LLONG_MAX, ERANGE)
  else if w <? LLONG_MIN then (u64 LLONG_MIN, ERANGE)
  else (u64 w, errno).

Lemma lxor_ones y : 0 <= y < 2 ^ 64 -> y .^ Z.ones 64 = Z.ones 64 - y.
Proof.
  intros Hy. assert (E : (y .^ Z.ones 64) .& y = 0).
  { apply Z.bits_inj'. intros i Hi. rewrite Z.land_spec, Z.lxor_spec, Z.bits_0.
    destruct (Z.ltb_spec i 64).
    - rewrite Z.ones_spec_low by lia. by destruct (Z.testbit y i).
    - rewrite (word_testbit 64 y i) by done. apply andb_false_r. }
  apply Z.add_nocarry_lxor in E. rewrite Z.lxor_assoc, (Z.lxor_comm (Z.ones 64)), <- Z.lxor_assoc, Z.lxor_nilpotent, Z.lxor_0_l in E.
  lia.
Qed.

Lemma negate y (neg : bool) : 0 <= y < 2 ^ 64 ->
  u64 ((y .^ u64 (if neg then -1 else 0)) - (if neg then -1 else 0)) = u64 (if neg then - y else y).
Proof.
  intros Hy. destruct neg.
  - change (u64 (-1)) with (Z.ones 64). rewrite (lxor_ones y Hy).
    unfold u64, wrap. rewrite <- (Z.mod_add (- y) 1) by lia. f_equal. change (Z.ones 64) with (2 ^ 64 - 1). lia.
  - change (u64 0) with 0. rewrite Z.lxor_0_r. f_equal. lia.
Qed.

Definition lim_ok (lim : Z) : Prop := lim = ULLONG_MAX \/ lim = u64 LLONG_MIN.

Ltac zif := repeat match goal with
  | |- context [?a =? ?b] => destruct (Z.eqb_spec a b)
  | |- context [?a <? ?b] => destruct (Z.ltb_spec a b)
  | |- context [?a <=? ?b] => destruct (Z.leb_spec a b)
  end.

Lemma done_spec y f (neg : bool) lim errno : lim_ok lim -> 0 <= y < 2 ^ 64 ->
  done_ y f (if neg then -1 else 0) lim errno =
    (fst (limited lim neg y errno), shunget f, snd (limited lim neg y errno)).
Proof.
  intros Hl Hy. unfold done_, limited. rewrite negate by done.
  destruct Hl as [-> | ->].
  - change (ULLONG_MAX .& 1 =? 0) with false. rewrite Z.eqb_refl. cbn [andb].
    zif; try reflexivity; lia.
  - change (u64 LLONG_MIN .& 1 =? 0) with true. change (u64 LLONG_MIN =? ULLONG_MAX) with false.
    change (u64 LLONG_MIN) with 9223372036854775808. cbn [andb].
    destruct neg; cbn [Z.eqb]; zif; try reflexivity; lia.
Qed.

(** What the scan of the digits [ds] in base [b] returns. *)
Definition number (s pre ds : list Z) (b : Z) (neg : bool) (lim errno off : Z) : Z * FILE * Z :=
  let '(y, errno) := limited lim neg (value b ds) errno in
  (y, mkFILE s (Z.of_nat (length pre + length ds)) off, errno).

Lemma overflow_limited lim (neg : bool) v errno : lim_ok lim -> 2 ^ 64 <= v ->
  limited lim (if lim =? ULLONG_MAX then false else neg) lim ERANGE = limited lim neg v errno.
Proof.
  intros [-> | ->] Hv; unfold limited.
  - rewrite Z.eqb_refl. zif; try reflexivity; lia.
  - change (u64 LLONG_MIN =? ULLONG_MAX) with false. change (u64 LLONG_MIN) with 9223372036854775808.
    destruct neg; zif; try reflexivity; lia.
Qed.

Lemma shunget_at s k off : shunget (mkFILE s (Z.of_nat k + 1) off) = mkFILE s (Z.of_nat k) off.
Proof. unfold shunget. cbn. f_equal. lia. Qed.

Lemma eat_all ds y : eat (fun _ _ : Z => true) (fun _ y : Z => y) y ds = (y, []).
Proof. induction ds as [|d ds IH]; [done|exact IH]. Qed.

Lemma finish_spec b s pre ds tl off c y f (neg : bool) lim errno :
  lim_ok lim -> digits_at b s pre ds tl -> scanned s pre ds b off (c, y, f) ->
  finish c y f b (if neg then -1 else 0) lim errno = number s pre ds b neg lim errno off.
Proof.
  intros Hl (Hby & Hs & Hds & Htl) (taken & rest & y' & Hd & Hst & Hr). injection Hst as -> -> ->.
  unfold finish, number. assert (Hs' : s = (pre ++ taken) ++ rest ++ tl) by (by rewrite Hs, Hd, <- !app_assoc).
  rewrite val_digit by (by apply bytes_aget).
  rewrite (aget_app s _ (pre ++ taken) (rest ++ tl) Hs') by (by rewrite length_app).
  destruct Hr as [(-> & -> & Hy)|[Hne Ho]].
  - rewrite app_nil_r in Hd. subst taken. cbn [app].
    destruct (Z.ltb_spec (digit (tl.[0])) b); [lia|]. rewrite done_spec by done.
    rewrite shunget_at. by destruct (limited lim neg (value b ds) errno).
  - destruct rest as [|d rest]; [done|]. change (((d :: rest) ++ tl).[0]) with d.
    rewrite Hd, forallb_app in Hds. apply andb_prop in Hds as [_ Hds]. pose proof Hds as Hd1. cbn [forallb] in Hd1.
    apply andb_prop in Hd1 as [Hd1 _]. rewrite Hd1.
    assert (Hc : forall c (x : Z), 0 <= c < 256 -> (val c <? b) = (digit c <? b) && true)
      by (intros c x0 Hc; by rewrite andb_true_r, val_digit).
    assert (Htl' : (digit (tl.[0]) <? b) = false) by (apply Z.ltb_ge; lia).
    pose proof (scan_loop_eat _ s (mkFILE s (Z.of_nat (length pre + length taken) + 1) off) (fun _ _ : Z => true)
      (fun c _ : Z => val c <? b) (fun _ y : Z => y) off Hby eq_refl Hc (d :: rest) (pre ++ taken) tl y' Hs' Hds Htl') as He.
    unfold at_ in He at 1. rewrite length_app in He.
    rewrite (aget_app s (length pre + length taken) (pre ++ taken) ((d :: rest) ++ tl) Hs') in He by (by rewrite length_app).
    rewrite eat_all in He.
    change (((d :: rest) ++ tl).[0]) with d in He. rewrite He. unfold at_.
    replace (if negb (lim .& 1 =? 0) then 0 else if neg then -1 else 0)
      with (if (if lim =? ULLONG_MAX then false else neg) then -1 else 0) by (by destruct Hl as [-> | ->], neg).
    rewrite done_spec by (try done; destruct Hl as [-> | ->]; vm_compute; split; congruence).
    rewrite (overflow_limited lim neg _ errno Hl Ho), shunget_at.
    destruct (limited lim neg (value b ds) errno). do 3 f_equal. rewrite Hd, length_app. cbn [length]. lia.
Qed.


(** ** The whole scan *)

Lemma pow2_bases b : 2 <= b <= 36 -> b .& (b - 1) = 0 -> b ∈ [2; 4; 8; 16; 32].
Proof.
  intros Hb H. apply Z.eqb_eq in H. apply (bool_decide_unpack _).
  assert (E : forallb (fun b => negb (b .& (b - 1) =? 0) || bool_decide (b ∈ [2; 4; 8; 16; 32])) (seqZ 2 35) = true)
    by (vm_compute; reflexivity).
  rewrite forallb_forall in E. specialize (E b ltac:(apply list_elem_of_In, elem_of_seqZ; lia)).
  rewrite H in E. by apply Is_true_true.
Qed.

Lemma scan_digits_spec b s pre ds tl (neg : bool) lim errno off : 2 <= b <= 36 -> lim_ok lim -> digits_at b s pre ds tl ->
  scan_digits (s.[Z.of_nat (length pre)]) (mkFILE s (Z.of_nat (length pre) + 1) off) b (if neg then -1 else 0) lim errno
    = number s pre ds b neg lim errno off.
Proof.
  intros Hb Hl Hd. unfold scan_digits. destruct (Z.eqb_spec b 10) as [->|Hb10].
  - pose proof (scan10_spec s pre ds tl off Hd) as Hsc. pose proof Hsc as (taken & rest & y' & _ & Hst & _).
    destruct (scan10 _ _) as [[c y] f]. rewrite <- (finish_spec 10 s pre ds tl off c y f neg lim errno Hl Hd Hsc).
    injection Hst as -> _ _. destruct Hd as [Hby _]. rewrite dec_digit_spec by (by apply bytes_aget).
    unfold finish. rewrite val_digit by (by apply bytes_aget). by destruct (digit _ <? 10).
  - destruct (Z.eqb_spec (b .& (b - 1)) 0) as [H2|H2].
    + pose proof (scan_pow2_spec b s pre ds tl off (pow2_bases b Hb H2) Hd) as Hsc.
      destruct (scan_pow2 _ _ _) as [[c y] f]. exact (finish_spec b s pre ds tl off c y f neg lim errno Hl Hd Hsc).
    + pose proof (scan_any_spec b s pre ds tl off Hb Hd) as Hsc.
      destruct (scan_any _ _ _) as [[c y] f]. exact (finish_spec b s pre ds tl off c y f neg lim errno Hl Hd Hsc).
Qed.

Lemma take_while_split P l : P 0 = false ->
  exists tl, l = take_while P l ++ tl /\ forallb P (take_while P l) = true /\ P (tl.[0]) = false.
Proof.
  intros H0. induction l as [|c l (tl & IH1 & IH2 & IH3)]; [by exists []|]. cbn.
  destruct (P c) eqn:E; [|by exists (c :: l)]. exists tl. cbn. rewrite E. cbn. split; [by f_equal|done].
Qed.

(** The digits that start at [l] in [s]. *)
Lemma digits_here b s pre l : bytes s -> s = pre ++ l -> 2 <= b <= 36 ->
  exists tl, digits_at b s pre (take_while (fun c => digit c <? b) l) tl.
Proof.
  intros Hby Hs Hb. destruct (take_while_split (fun c => digit c <? b) l) as (tl & H1 & H2 & H3).
  { rewrite digit_zero. apply Z.ltb_ge. lia. }
  exists tl. split; [done|]. split; [by rewrite <- H1|]. split; [done|]. apply Z.ltb_ge in H3. lia.
Qed.

Lemma digits_scan b s pre l (neg : bool) lim errno off : bytes s -> s = pre ++ l -> 2 <= b <= 36 -> lim_ok lim ->
  scan_digits (l.[0]) (mkFILE s (Z.of_nat (length pre) + 1) off) b (if neg then -1 else 0) lim errno
    = number s pre (take_while (fun c => digit c <? b) l) b neg lim errno off.
Proof.
  intros Hby Hs Hb Hl. destruct (digits_here b s pre l Hby Hs Hb) as [tl Hd].
  rewrite <- (aget_app s _ pre l Hs eq_refl). exact (scan_digits_spec b s pre _ tl neg lim errno off Hb Hl Hd).
Qed.

(** A digit 0 before the others changes neither the value nor the end. *)
Lemma number_zero s pre ds b neg lim errno off :
  number s (pre ++ [48]) ds b neg lim errno off = number s pre (48 :: ds) b neg lim errno off.
Proof.
  unfold number. change (value b (48 :: ds)) with (value_from b (0 * b + 0) ds).
  change (value_from b (0 * b + 0) ds) with (value b ds).
  rewrite length_app. cbn [length]. replace (length pre + 1 + length ds)%nat with (length pre + S (length ds))%nat by lia.
  done.
Qed.

(** What the part of the scan after the sign returns, by the specification. *)
Definition number_spec (s pre l : list Z) (base : Z) (neg : bool) (lim errno : Z) : Z * Z * Z :=
  let '(b, p) := prefix base l in
  let ds := take_while (fun c => digit c <? b) (drop p l) in
  match ds with
  | [] => (0, 0, EINVAL)
  | _ => let '(y, errno) := limited lim neg (value b ds) errno in (y, Z.of_nat (length pre + p + length ds), errno)
  end.

Definition outcome (r : Z * FILE * Z) : Z * Z * Z := let '(y, f, errno) := r in (y, shcnt f, errno).

Lemma number_outcome s pre ds b neg lim errno :
  outcome (number s pre ds b neg lim errno 0) =
  let '(y, errno) := limited lim neg (value b ds) errno in (y, Z.of_nat (length pre + length ds), errno).
Proof. unfold number. by destruct (limited lim neg (value b ds) errno). Qed.

Lemma prefix_plain base c l : (base =? 0) || (base =? 16) = false \/ c <> 48 ->
  prefix base (c :: l) = (if base =? 0 then if c =? 48 then 8 else 10 else base, O).
Proof.
  intros H. unfold prefix. destruct l as [|x [|d l]]; try done.
  replace (((base =? 0) || (base =? 16)) && (c =? 48)) with false; [done|].
  destruct H as [-> | H]; [done|]. rewrite (proj2 (Z.eqb_neq c 48) H). by rewrite andb_false_r.
Qed.

Lemma shgetc_app s pre c l off : s = pre ++ c :: l ->
  shgetc (mkFILE s (Z.of_nat (length pre) + 1) off) = (l.[0], mkFILE s (Z.of_nat (length (pre ++ [c])) + 1) off).
Proof.
  intros Hs. unfold shgetc. cbn [buf rpos shcnt_off]. rewrite length_app. cbn [length].
  replace (Z.of_nat (length pre) + 1) with (Z.of_nat (length pre + 1)) by lia.
  rewrite (aget_app s _ (pre ++ [c]) l); [done|by rewrite <- app_assoc|by rewrite length_app].
Qed.

(** A leading 0 that does not start a hexadecimal prefix is a digit. *)
Lemma zero_digit s pre l base (neg : bool) lim errno :
  (base =? 0) || (base =? 16) = true -> prefix base (48 :: l) = (if base =? 0 then 8 else base, O) ->
  outcome (number s (pre ++ [48]) (take_while (fun c => digit c <? (if base =? 0 then 8 else base)) l)
    (if base =? 0 then 8 else base) neg lim errno 0) = number_spec s pre (48 :: l) base neg lim errno.
Proof.
  intros Hbase Hp. unfold number_spec. rewrite Hp, drop_0, number_zero, number_outcome. cbn [take_while].
  replace (digit 48 <? (if base =? 0 then 8 else base)) with true.
  - rewrite Nat.add_0_r. done.
  - by apply orb_true_iff in Hbase as [->%Z.eqb_eq| ->%Z.eqb_eq].
Qed.

(** [0x] without a hexadecimal digit after it: only the 0 is read. *)
Lemma lone_zero s pre x l base (neg : bool) lim errno : lim_ok lim ->
  (base =? 0) || (base =? 16) = true -> (x =? 120) || (x =? 88) = true -> 16 <= digit (l.[0]) ->
  (0, Z.of_nat (length pre + 1), errno) = number_spec s pre (48 :: x :: l) base neg lim errno.
Proof.
  intros Hl Hbase Hx Hd. rewrite <- zero_digit; [|done|].
  - assert (Hdx : digit x = 33) by (by apply orb_true_iff in Hx as [->%Z.eqb_eq| ->%Z.eqb_eq]).
    cbn [take_while]. rewrite Hdx.
    replace (33 <? _) with false by (by apply orb_true_iff in Hbase as [->%Z.eqb_eq| ->%Z.eqb_eq]).
    rewrite number_outcome, length_app. cbn [length]. rewrite Nat.add_0_r. by destruct Hl as [-> | ->], neg.
  - unfold prefix. destruct l as [|d l]; [by destruct (base =? 0)|]. change ((d :: l).[0]) with d in Hd.
    rewrite (proj2 (Z.ltb_ge (digit d) 16)) by lia. by rewrite andb_false_r.
Qed.

Lemma scan_number_hex s pre l base (neg : bool) lim errno : bytes s -> s = pre ++ 48 :: l -> lim_ok lim ->
  (base =? 0) || (base =? 16) = true ->
  outcome (scan_number 48 (mkFILE s (Z.of_nat (length pre) + 1) 0) base true (if neg then -1 else 0) lim errno)
    = number_spec s pre (48 :: l) base neg lim errno.
Proof.
  intros Hby Hs Hl Hbase. unfold scan_number. rewrite Hbase. cbn [Z.eqb Pos.eqb andb].
  rewrite (shgetc_app s pre 48 l 0 Hs).
  assert (Hs1 : s = (pre ++ [48]) ++ l) by (by rewrite <- app_assoc).
  rewrite lower_x by (rewrite <- (aget_app s _ (pre ++ [48]) l Hs1 eq_refl); by apply bytes_aget).
  destruct ((l.[0] =? 120) || (l.[0] =? 88)) eqn:Hx.
  - destruct l as [|x l]; [done|]. change ((x :: l).[0]) with x in Hx.
    rewrite (shgetc_app s (pre ++ [48]) x l 0 Hs1).
    assert (Hs2 : s = ((pre ++ [48]) ++ [x]) ++ l) by (by rewrite <- app_assoc).
    rewrite val_digit by (rewrite <- (aget_app s _ _ l Hs2 eq_refl); by apply bytes_aget).
    destruct (Z.leb_spec 16 (digit (l.[0]))) as [Hd|Hd].
    + rewrite <- (lone_zero s pre x l base neg lim errno Hl Hbase Hx Hd).
      unfold shunget, outcome, shcnt. cbn [rpos shcnt_off]. rewrite !length_app. cbn [length]. do 2 f_equal. lia.
    + destruct l as [|d l]; [by vm_compute in Hd|]. change ((d :: l).[0]) with d in *.
      pose proof (digits_scan 16 s _ (d :: l) neg lim errno 0 Hby Hs2 ltac:(lia) Hl) as Hsc.
      change ((d :: l).[0]) with d in Hsc. rewrite Hsc, number_outcome. unfold number_spec, prefix.
      rewrite Hbase, Hx, (proj2 (Z.ltb_lt (digit d) 16) Hd). cbn [andb Z.eqb Pos.eqb drop take_while].
      rewrite (proj2 (Z.ltb_lt (digit d) 16) Hd), !length_app. cbn [length].
      destruct (limited lim neg _ errno). do 2 f_equal. lia.
  - rewrite (digits_scan _ s (pre ++ [48]) l neg lim errno 0 Hby Hs1) by
      (done || apply orb_true_iff in Hbase as [->%Z.eqb_eq| ->%Z.eqb_eq]; cbn; lia).
    apply (zero_digit s pre l base neg lim errno Hbase).
    unfold prefix. destruct l as [|x [|d l]]; try (by destruct (base =? 0)).
    change ((x :: d :: l).[0]) with x in Hx. rewrite Hx. by rewrite andb_false_r.
Qed.

Lemma scan_number_spec s pre l base (neg : bool) lim errno : bytes s -> s = pre ++ l -> lim_ok lim ->
  valid_base base = true ->
  outcome (scan_number (l.[0]) (mkFILE s (Z.of_nat (length pre) + 1) 0) base true (if neg then -1 else 0) lim errno)
    = number_spec s pre l base neg lim errno.
Proof.
  intros Hby Hs Hl Hv. destruct (((base =? 0) || (base =? 16)) && (l.[0] =? 48)) eqn:Hh.
  - apply andb_prop in Hh as [Hbase Hc%Z.eqb_eq]. destruct l as [|c l]; [done|].
    change ((c :: l).[0]) with c in *. subst c. exact (scan_number_hex s pre l base neg lim errno Hby Hs Hl Hbase).
  - unfold scan_number. rewrite Hh. set (b := if base =? 0 then 10 else base).
    assert (Hb : 2 <= b <= 36).
    { unfold valid_base in Hv. subst b. destruct (Z.eqb_spec base 0); [lia|].
      cbn in Hv. apply andb_prop in Hv as [H1%Z.leb_le H2%Z.leb_le]. lia. }
    assert (Hp : prefix base l = (b, O)).
    { destruct l as [|c l]; [done|]. change ((c :: l).[0]) with c in Hh.
      rewrite prefix_plain by (apply andb_false_iff in Hh as [?|?%Z.eqb_neq]; auto).
      subst b. destruct (Z.eqb_spec base 0) as [->|]; [|done]. cbn in Hh. by rewrite Hh. }
    unfold number_spec. rewrite Hp, drop_0.
    rewrite val_digit by (rewrite <- (aget_app s _ pre l Hs eq_refl); by apply bytes_aget).
    destruct (Z.leb_spec b (digit (l.[0]))) as [Hd|Hd].
    + replace (take_while (fun c => digit c <? b) l) with (@nil Z).
      * rewrite shunget_at. unfold outcome, shcnt, shlim0. cbn [rpos shcnt_off]. do 2 f_equal. lia.
      * destruct l as [|c l]; [done|]. cbn [take_while]. change ((c :: l).[0]) with c in Hd.
        by rewrite (proj2 (Z.ltb_ge (digit c) b) Hd).
    + rewrite (digits_scan b s pre l neg lim errno 0 Hby Hs Hb Hl), number_outcome.
      destruct l as [|c l]; [change (digit ([].[0])) with 255 in Hd; lia|]. change ((c :: l).[0]) with c in Hd.
      cbn [take_while]. rewrite (proj2 (Z.ltb_lt (digit c) b) Hd). by rewrite Nat.add_0_r.
Qed.

Lemma skip_spaces s l : forall fuel pre, s = pre ++ l -> (length l <= fuel)%nat ->
  while_ fuel (fun '(c, _) => isspace c) (fun '(_, f) => shgetc f) (l.[0], mkFILE s (Z.of_nat (length pre) + 1) 0)
  = let ws := take_while isspace l in
    ((drop (length ws) l).[0], mkFILE s (Z.of_nat (length (pre ++ ws)) + 1) 0).
Proof.
  induction l as [|c l IH]; intros fuel pre Hs Hn.
  - cbn [take_while length drop]. rewrite app_nil_r. by destruct fuel.
  - destruct fuel as [|fuel]; [cbn in Hn; lia|]. cbn [while_ take_while]. change ((c :: l).[0]) with c.
    destruct (isspace c).
    + rewrite (shgetc_app s pre c l 0 Hs), IH; [|by rewrite <- app_assoc|cbn in Hn; lia].
      cbn [length drop]. by rewrite <- app_assoc.
    + cbn [length drop]. by rewrite app_nil_r.
Qed.

(** The specification of [strtox]. *)
Definition strtox_spec (base : Z) (s : list Z) (lim errno : Z) : Z * Z * Z :=
  if valid_base base then
    match subject base s with
    | None => (0, 0, EINVAL)
    | Some (neg, v, n) => let '(y, errno) := limited lim neg v errno in (y, Z.of_nat n, errno)
    end
  else (0, 0, EINVAL).

Lemma subject_number s base lim errno :
  let ws := take_while isspace s in
  let l := drop (length ws) s in
  let sg := match l with c :: _ => if (c =? 43) || (c =? 45) then 1%nat else O | [] => O end in
  let neg := match l with c :: _ => c =? 45 | [] => false end in
  match subject base s with
  | None => (0, 0, EINVAL)
  | Some (neg, v, n) => let '(y, errno) := limited lim neg v errno in (y, Z.of_nat n, errno)
  end = number_spec s (ws ++ take sg l) (drop sg l) base neg lim errno.
Proof.
  intros ws l sg neg. unfold subject, number_spec. fold ws. fold l.
  replace (match l with c :: _ => (c =? 45, if (c =? 43) || (c =? 45) then 1%nat else O) | [] => (false, O) end)
    with (neg, sg) by (unfold neg, sg; by destruct l).
  destruct (prefix base (drop sg l)) as [b p].
  assert (Hl : length (ws ++ take sg l) = (length ws + sg)%nat).
  { rewrite length_app, length_take. unfold sg. destruct l as [|c l']; [done|].
    destruct ((c =? 43) || (c =? 45)); cbn [length]; lia. }
  rewrite Hl. by destruct (take_while _ (drop p (drop sg l))).
Qed.

Lemma bad_base base : - 2 ^ 31 <= base < 2 ^ 31 -> ((36 <? u32 base) || (u32 base =? 1)) = negb (valid_base base).
Proof.
  intros Hr. unfold valid_base. destruct (Z.ltb_spec base 0) as [H|H].
  - assert (E : u32 base = base + 2 ^ 32) by (symmetry; apply (Z.mod_unique _ _ (-1)); lia).
    rewrite E. zif; cbn; try reflexivity; lia.
  - rewrite u32_small by lia. zif; cbn; try reflexivity; lia.
Qed.

Lemma strtox_correct s base lim errno : bytes s -> - 2 ^ 31 <= base < 2 ^ 31 -> lim_ok lim ->
  strtox s base lim errno = strtox_spec base s lim errno.
Proof.
  intros Hby Hr Hl. unfold strtox, strtox_spec, intscan. rewrite (bad_base base Hr).
  destruct (valid_base base) eqn:Hv; [|done]. cbn [negb].
  assert (Hu : u32 base = base).
  { apply u32_small. unfold valid_base in Hv. apply orb_true_iff in Hv as [?%Z.eqb_eq|[?%Z.leb_le ?]%andb_prop]; lia. }
  rewrite Hu. rewrite subject_number. set (ws := take_while isspace s). set (l := drop (length ws) s).
  change (shgetc (shlim0 (sh_fromstring s))) with (s.[0], mkFILE s (Z.of_nat (length (@nil Z)) + 1) 0). cbn [buf].
  rewrite (skip_spaces s s (length s) [] eq_refl ltac:(lia)). cbv zeta. fold ws. fold l. cbn [app].
  assert (Hs : s = ws ++ l).
  { destruct (take_while_split isspace s eq_refl) as (tl & E & _). fold ws in E. subst l. rewrite E at 2.
    by rewrite drop_app_length. }
  assert (Hgo : forall pre l' (neg : bool), s = pre ++ l' ->
    (let '(y, f, errno) := scan_number (l'.[0]) (mkFILE s (Z.of_nat (length pre) + 1) 0) base true (if neg then -1 else 0) lim errno in
     (y, shcnt f, errno)) = number_spec s pre l' base neg lim errno)
    by (intros pre l' neg Hs'; exact (scan_number_spec s pre l' base neg lim errno Hby Hs' Hl Hv)).
  destruct l as [|c l'] eqn:El.
  - change (([] : list Z).[0]) with 0. cbn [Z.eqb orb take drop].
    rewrite app_nil_r. apply (Hgo ws [] false). by rewrite Hs at 1.
  - change ((c :: l').[0]) with c. destruct ((c =? 43) || (c =? 45)) eqn:Hsg.
    + rewrite (shgetc_app s ws c l' 0 Hs). cbn [take drop].
      apply (Hgo (ws ++ [c]) l' (c =? 45)). by rewrite <- app_assoc.
    + cbn [take drop]. rewrite app_nil_r. apply orb_false_iff in Hsg as [_ ->].
      apply (Hgo ws (c :: l') false Hs).
Qed.

Lemma take_while_length P l : (length (take_while P l) <= length l)%nat.
Proof. induction l as [|c l IH]; cbn [take_while length]; [lia|]. destruct (P c); cbn [length]; lia. Qed.

Lemma prefix_bounds base l b p : valid_base base = true -> prefix base l = (b, p) -> 2 <= b <= 36 /\ (p <= length l)%nat.
Proof.
  intros Hv. assert (Hb : base = 0 \/ 2 <= base <= 36).
  { unfold valid_base in Hv. apply orb_true_iff in Hv as [?%Z.eqb_eq|[?%Z.leb_le ?%Z.leb_le]%andb_prop]; lia. }
  unfold prefix. destruct l as [|c [|x [|d l]]]; [| | |destruct (_ && _)]; intros [= <- <-];
    cbn [length]; repeat case_match; lia.
Qed.

Lemma subject_inv base s neg v n : valid_base base = true -> subject base s = Some (neg, v, n) ->
  0 <= v /\ (length (take_while isspace s) < n <= length s)%nat.
Proof.
  intros Hv. unfold subject. pose proof (take_while_length isspace s) as Hws. set (ws := take_while isspace s) in *.
  pose proof (length_drop s (length ws)) as Hl. set (l := drop (length ws) s) in *.
  destruct (match l with c :: _ => _ | [] => _ end) as [neg' sg] eqn:Esg.
  assert (Hsg : (sg <= length l)%nat) by (destruct l; cbn in Esg; repeat case_match; simplify_eq; cbn; lia).
  destruct (prefix base (drop sg l)) as [b p] eqn:Ep. destruct (prefix_bounds base _ b p Hv Ep) as [Hb Hp].
  rewrite length_drop in Hp.
  pose proof (take_while_length (fun c => digit c <? b) (drop p (drop sg l))) as Hds. rewrite !length_drop in Hds.
  destruct (take_while _ (drop p (drop sg l))) as [|d ds] eqn:Eds; [done|]. intros [= <- <- <-].
  split; [apply (value_from_ge b 0); lia|]. cbn [length] in *. lia.
Qed.

(** ** Theorems *)

(** The number a string denotes in a base: sign applied, end of the digits. *)
Definition denotes (base : Z) (s : list Z) : option (Z * Z) :=
  if valid_base base then
    match subject base s with
    | Some (neg, v, n) => Some (if neg : bool then - v else v, Z.of_nat n)
    | None => None
    end
  else None.

(** C18: [strtol], [strtoll], [strtoul] and [strtoull] on any string and any
    [int] base: with an invalid base or no digits the result is 0, the end
    pointer the start of the string and [errno] EINVAL; otherwise the end
    pointer is the end of the longest subject sequence (white space, sign,
    prefix and digits) and the result its unbounded value when that is in
    range, [errno] unchanged, or the nearest limit with ERANGE; for the
    unsigned functions a magnitude in range is negated modulo 2^64. *)
Theorem strtol_correct s base errno : bytes s -> - 2 ^ 31 <= base < 2 ^ 31 ->
  strtol s base errno =
    match denotes base s with
    | None => (0, 0, EINVAL)
    | Some (w, n) => if w <? LLONG_MIN then (LLONG_MIN, n, ERANGE)
                     else if LLONG_MAX <? w then (LLONG_MAX, n, ERANGE) else (w, n, errno)
    end /\
  strtoul s base errno =
    match denotes base s with
    | None => (0, 0, EINVAL)
    | Some (w, n) => if ULLONG_MAX <? Z.abs w then (ULLONG_MAX, n, ERANGE) else (u64 w, n, errno)
    end /\
  strtoll s base errno = strtol s base errno /\ strtoull s base errno = strtoul s base errno.
Proof.
  intros Hby Hr. split; [|split; [|by split]]; unfold strtol, strtoul, denotes;
    rewrite strtox_correct by (done || (unfold lim_ok; auto)); unfold strtox_spec;
    (destruct (valid_base base) eqn:Hvb; [|done]); (destruct (subject base s) as [[[neg v] n]|] eqn:E; [|done]);
    destruct (subject_inv base s neg v n Hvb E) as [Hv _]; unfold limited.
  - change (u64 LLONG_MIN =? ULLONG_MAX) with false.
    destruct (Z.ltb_spec LLONG_MAX (if neg then - v else v)), (Z.ltb_spec (if neg then - v else v) LLONG_MIN); try reflexivity; [lia|].
    unfold u64. rewrite sgn_wrap, sgn_small; [done|lia|]. change (2 ^ (64 - 1)) with 9223372036854775808. lia.
  - rewrite Z.eqb_refl. replace (Z.abs (if neg then - v else v)) with v by (destruct neg; lia).
    by destruct (ULLONG_MAX <? v).
Qed.

Lemma strtol_correct_witness :
  strtol (ascii_bytes " -0x80zz") 0 7 = (-128, 6, 7) /\
  strtol (ascii_bytes "99999999999999999999") 10 7 = (LLONG_MAX, 20, ERANGE) /\
  strtoul (ascii_bytes "-1") 36 7 = (ULLONG_MAX, 2, 7).
Proof.
  assert (H1 : bytes (ascii_bytes " -0x80zz")) by (apply ascii_bytes_bytes).
  assert (H2 : bytes (ascii_bytes "99999999999999999999")) by (apply ascii_bytes_bytes).
  assert (H3 : bytes (ascii_bytes "-1")) by (apply ascii_bytes_bytes).
  split; [|split].
  - rewrite (proj1 (strtol_correct (ascii_bytes " -0x80zz") 0 7 H1 ltac:(lia))). vm_compute. reflexivity.
  - rewrite (proj1 (strtol_correct (ascii_bytes "99999999999999999999") 10 7 H2 ltac:(lia))). vm_compute. reflexivity.
  - rewrite (proj1 (proj2 (strtol_correct (ascii_bytes "-1") 36 7 H3 ltac:(lia)))). vm_compute. reflexivity.
Defined.

(** ** strtonum *)

Lemma spaces_index l : forall fuel k (pre : list Z), (length l <= fuel)%nat -> k = Z.of_nat (length pre) ->
  while_ fuel (fun k => isspace ((pre ++ l).[k])) (fun k => k + 1) k
  = k + Z.of_nat (length (take_while isspace l)).
Proof.
  induction l as [|c l IH]; intros fuel k pre Hn ->.
  - destruct fuel; cbn [while_ take_while length]; [lia|]. rewrite (aget_app (pre ++ []) _ pre [] eq_refl eq_refl).
    change (isspace ([].[0])) with false. lia.
  - destruct fuel as [|fuel]; [cbn in Hn; lia|]. cbn [while_ take_while].
    rewrite (aget_app (pre ++ c :: l) _ pre (c :: l) eq_refl eq_refl). change ((c :: l).[0]) with c.
    destruct (isspace c); cbn [length]; [|lia].
    replace (pre ++ c :: l) with ((pre ++ [c]) ++ l) by (by rewrite <- app_assoc).
    rewrite IH; [lia|cbn in Hn; lia|rewrite length_app; cbn; lia].
Qed.

Lemma take_while_drop P l : P 0 = false -> take_while P (drop (length (take_while P l)) l) = [].
Proof.
  intros H0. destruct (take_while_split P l H0) as (tl & E & _ & Ht). rewrite E at 2. rewrite drop_app_length.
  destruct tl as [|c tl]; [done|]. change ((c :: tl).[0]) with c in Ht. cbn. by rewrite Ht.
Qed.

(** Skipping the white space first moves the end of the digits back by as much. *)
Lemma denotes_drop base s : let ws := take_while isspace s in
  denotes base (drop (length ws) s) =
  match denotes base s with Some (w, n) => Some (w, n - Z.of_nat (length ws)) | None => None end.
Proof.
  intros ws. unfold denotes. destruct (valid_base base); [|done]. unfold subject.
  unfold ws. rewrite take_while_drop by done. cbn [length]. rewrite drop_0. fold ws.
  destruct (match drop (length ws) s with c :: _ => _ | [] => _ end) as [neg sg].
  destruct (prefix base (drop sg (drop (length ws) s))) as [b p].
  destruct (take_while (fun c => digit c <? b) (drop p (drop sg (drop (length ws) s)))) as [|d ds]; [done|].
  do 2 f_equal. lia.
Qed.

Lemma denotes_end base s w n : denotes base s = Some (w, n) ->
  Z.of_nat (length (take_while isspace s)) < n <= Z.of_nat (length s).
Proof.
  unfold denotes. destruct (valid_base base) eqn:Hv; [|done].
  destruct (subject base s) as [[[neg v] k]|] eqn:E; [|done]. intros [= <- <-].
  destruct (subject_inv base s neg v k Hv E). lia.
Qed.

(** No character before the terminator is 0. *)
Lemma nul_at_end s n : Forall (fun c => c <> 0) s -> 0 <= n <= Z.of_nat (length s) ->
  (s.[n] =? 0) = (n =? Z.of_nat (length s)).
Proof.
  intros Hs Hn. destruct (Z.eqb_spec n (Z.of_nat (length s))) as [->|Hne].
  - unfold aget. by rewrite Nat2Z.id, lookup_ge_None_2.
  - destruct (lookup_lt_is_Some_2 s (Z.to_nat n) ltac:(lia)) as [c Hc]. unfold aget. rewrite Hc. cbn.
    apply Z.eqb_neq. exact (Forall_lookup_1 _ _ _ _ Hs Hc).
Qed.

(** C39: [strtonum] accepts a string exactly when all of it after the white
    space is a decimal number; it returns the number when that is between the
    limits, with [errno] restored and no message, and 0 with [too small] or
    [too large] and ERANGE otherwise, however long the number; anything else,
    and limits in the wrong order, gives 0, [invalid] and EINVAL. *)
Theorem strtonum_correct nptr minval maxval errno :
  bytes nptr -> Forall (fun c => c <> 0) nptr ->
  LLONG_MIN <= minval -> maxval <= LLONG_MAX ->
  strtonum nptr minval maxval errno =
    if maxval <? minval then (0, invalid, EINVAL)
    else match denotes 10 nptr with
         | Some (w, n) =>
             if negb (n =? Z.of_nat (length nptr)) then (0, invalid, EINVAL)
             else if w <? minval then (0, too_small, ERANGE)
             else if maxval <? w then (0, too_large, ERANGE)
             else (w, Null, errno)
         | None => (0, invalid, EINVAL)
         end.
Proof.
  intros Hby Hnz Hmin Hmax. unfold strtonum. destruct (Z.ltb_spec maxval minval) as [|Hord]; [done|].
  pose proof (spaces_index nptr (length nptr) 0 [] (Nat.le_refl _) eq_refl) as Hk. cbn [app] in Hk.
  rewrite Hk, Z.add_0_l, Nat2Z.id. clear Hk.
  pose proof (denotes_drop 10 nptr) as Hd. cbv zeta in Hd. pose proof (denotes_end 10 nptr) as He.
  set (ws := take_while isspace nptr) in *. set (s := drop (length ws) nptr) in *.
  assert (Hbs : bytes s) by (by apply Forall_drop). assert (Hns : Forall (fun c => c <> 0) s) by (by apply Forall_drop).
  pose proof (length_drop nptr (length ws)) as Hlen. fold s in Hlen.
  destruct (strtol_correct s 10 0 Hbs ltac:(lia)) as (Hl & _ & -> & _). rewrite Hl, Hd. clear Hl.
  pose proof (nul_at_end s 0 Hns ltac:(lia)) as H0.
  destruct (denotes 10 nptr) as [[w n]|]; [|by destruct (s.[0] =? 0)].
  specialize (He w n eq_refl). rewrite H0. destruct (Z.eqb_spec 0 (Z.of_nat (length s))); [lia|].
  pose proof (nul_at_end s (n - Z.of_nat (length ws)) Hns ltac:(lia)) as Hn.
  replace (n - Z.of_nat (length ws) =? Z.of_nat (length s)) with (n =? Z.of_nat (length nptr)) in Hn
    by (zif; try done; lia).
  destruct (Z.ltb_spec w LLONG_MIN), (Z.ltb_spec LLONG_MAX w); try lia; rewrite Hn;
    (destruct (Z.eqb_spec (n - Z.of_nat (length ws)) 0); [lia|]); cbn [orb];
    destruct (n =? Z.of_nat (length nptr)); cbn [negb]; try done; zif; cbn; try done; lia.
Qed.

Lemma strtonum_correct_witness :
  strtonum (ascii_bytes " 42") (-5) 100 7 = (42, Null, 7) /\
  strtonum (ascii_bytes "-99999999999999999999") (-5) 100 7 = (0, too_small, ERANGE) /\
  strtonum (ascii_bytes "42x") (-5) 100 7 = (0, invalid, EINVAL).
Proof.
  assert (H : forall s, forallb (fun c => negb (c =? 0)) (ascii_bytes s) = true -> Forall (fun c => c <> 0) (ascii_bytes s)).
  { intros s Hs. apply Forall_forall. intros c Hc%list_elem_of_In. rewrite forallb_forall in Hs.
    specialize (Hs c Hc). by destruct (Z.eqb_spec c 0). }
  split; [|split].
  - rewrite (strtonum_correct (ascii_bytes " 42") (-5) 100 7 (ascii_bytes_bytes _) (H " 42"%string eq_refl) ltac:(lia) ltac:(lia)).
    vm_compute. reflexivity.
  - rewrite (strtonum_correct (ascii_bytes "-99999999999999999999") (-5) 100 7 (ascii_bytes_bytes _)
      (H "-99999999999999999999"%string eq_refl) ltac:(lia) ltac:(lia)).
    vm_compute. reflexivity.
  - rewrite (strtonum_correct (ascii_bytes "42x") (-5) 100 7 (ascii_bytes_bytes _) (H "42x"%string eq_refl) ltac:(lia) ltac:(lia)).
    vm_compute. reflexivity.
Defined.
