(* ===== verification/Order.v ===== *)
(** * Order: the comparison functions that the sorting routines take. *)

From S2P Require Import Prelude.

(** What the caller promises of the comparison function: the sign flips with
    the arguments, and "not greater" is transitive. Elements are lists of bytes. *)
Class Comparison (compar : list Z -> list Z -> Z) : Prop := {
  compar_flip a b : compar a b < 0 <-> 0 < compar b a;
  compar_trans a b c : compar a b <= 0 -> compar b c <= 0 -> compar a c <= 0;
}.

Definition le (compar : list Z -> list Z -> Z) (a b : list Z) : Prop := compar a b <= 0.

Section order.
Context {compar : list Z -> list Z -> Z} `{!Comparison compar}.

Lemma le_refl a : le compar a a.
Proof. unfold le. pose proof (compar_flip a a). lia. Qed.
Lemma le_trans a b c : le compar a b -> le compar b c -> le compar a c.
Proof. apply compar_trans. Qed.
Lemma lt_le a b : compar a b < 0 -> le compar a b.
Proof. unfold le. lia. Qed.
Lemma nlt_le a b : ~ compar a b < 0 -> le compar b a.
Proof. unfold le. pose proof (compar_flip b a). pose proof (compar_flip a b). lia. Qed.
Lemma nle_le a b : ~ compar a b <= 0 -> le compar b a.
Proof. unfold le. pose proof (compar_flip b a). lia. Qed.
Lemma ge_le a b : 0 <= compar a b -> le compar b a.
Proof. intros H. apply nlt_le. lia. Qed.
End order.

Definition by_first (a b : list Z) : Z := a.[0] - b.[0].
#[export] Instance by_first_comparison : Comparison by_first.
Proof. split; unfold by_first; intros; lia. Qed.
