(* ===== verification/Heapsort.v ===== *)
(** * Heapsort: the heap sort of src/src/stdlib/heapsort.c.

    The array is the list of its elements, each the list of its [size]
    bytes; indices start at 1 as in the code ([base] is one element below the
    array). The comparison function is a parameter. *)

From stdpp Require Import sorting.
From S2P Require Import Prelude Order.

Section heapsort.
  Context (compar : list Z -> list Z -> Z).
  Implicit Types (base : list (list Z)) (k : list Z).

(** ** The macros *)

(** [SWAP(a, b, count, size, tmp)]: byte by byte, [count] from [size] down to 0. *)
Definition SWAP (a b : list Z) (size : nat) : list Z * list Z :=
  let '(a, b, _) :=
    do_while size
      (fun '(a, b, t) => (<[t := default 0 (b !! t)]> a, <[t := default 0 (a !! t)]> b, S t))
      (fun '(_, _, t) => (t <? size)%nat) (a, b, O) in
  (a, b).

(** [COPY(a, b, count, size, tmp1, tmp2)]: the new contents of [a]. *)
Definition COPY (a b : list Z) (size : nat) : list Z :=
  let '(a, _) :=
    do_while size (fun '(a, t) => (<[t := default 0 (b !! t)]> a, S t)) (fun '(_, t) => (t <? size)%nat) (a, O) in
  a.

(** [base + i * size] *)
Definition el (base : list (list Z)) (i : nat) : list Z := default [] (base !! (i - 1)%nat).
Definition put (base : list (list Z)) (i : nat) (x : list Z) : list (list Z) := <[(i - 1)%nat := x]> base.

(** [if (child_i < nmemb && compar(child, child + size) < 0) ++child_i] *)
Definition larger_child (base : list (list Z)) (nmemb child_i : nat) : nat :=
  if (child_i <? nmemb)%nat && (compar (el base child_i) (el base (S child_i)) <? 0) then S child_i else child_i.

(** [CREATE(initval, nmemb, ...)]: sift the element at [par_i] down. *)
Fixpoint CREATE (fuel : nat) (par_i nmemb size : nat) (base : list (list Z)) : list (list Z) :=
  match fuel with
  | O => base
  | S fuel =>
      let child_i := (par_i * 2)%nat in
      if (child_i <=? nmemb)%nat then
        let child_i := larger_child base nmemb child_i in
        if compar (el base child_i) (el base par_i) <=? 0 then base
        else
          let '(p, c) := SWAP (el base par_i) (el base child_i) size in
          CREATE fuel child_i nmemb size (put (put base par_i p) child_i c)
      else base
  end.

(** [SELECT], first loop: move the larger children up along a path to a leaf. *)
Fixpoint SELECT_down (fuel : nat) (par_i nmemb size : nat) (base : list (list Z)) : nat * list (list Z) :=
  match fuel with
  | O => (par_i, base)
  | S fuel =>
      let child_i := (par_i * 2)%nat in
      if (child_i <=? nmemb)%nat then
        let child_i := larger_child base nmemb child_i in
        SELECT_down fuel child_i nmemb size (put base par_i (COPY (el base par_i) (el base child_i) size))
      else (par_i, base)
  end.

(** Second loop: from the leaf, find the place of [k]. *)
Fixpoint SELECT_up (fuel : nat) (par_i size : nat) (k : list Z) (base : list (list Z)) : list (list Z) :=
  match fuel with
  | O => base
  | S fuel =>
      let child_i := par_i in
      let par_i := (child_i / 2)%nat in
      if (child_i =? 1)%nat || (compar k (el base par_i) <? 0) then
        put base child_i (COPY (el base child_i) k size)
      else
        SELECT_up fuel par_i size k (put base child_i (COPY (el base child_i) (el base par_i) size))
  end.

Definition SELECT (nmemb size : nat) (k : list Z) (base : list (list Z)) : list (list Z) :=
  let '(par_i, base) := SELECT_down nmemb 1 nmemb size base in
  SELECT_up (S par_i) par_i size k base.

(** ** __heapsort *)

(** [for (l = nmemb / 2 + 1; --l;) CREATE(l, ...)] *)
Fixpoint build (l nmemb size : nat) (base : list (list Z)) : list (list Z) :=
  match l with
  | O => base
  | S l' => build l' nmemb size (CREATE nmemb l nmemb size base)
  end.

(** [while (nmemb > 1) ...] *)
Fixpoint extract (fuel nmemb size : nat) (k : list Z) (base : list (list Z)) : list (list Z) :=
  match fuel with
  | O => base
  | S fuel =>
      if (1 <? nmemb)%nat then
        let k := COPY k (el base nmemb) size in
        let base := put base nmemb (COPY (el base nmemb) (el base 1) size) in
        let nmemb := (nmemb - 1)%nat in
        extract fuel nmemb size k (SELECT nmemb size k base)
      else base
  end.

(** The result, [errno] and the array; [mem]: what malloc returned. *)
Definition heapsort (base : list (list Z)) (size : nat) (mem : option (list Z)) (errno : Z) : Z * Z * list (list Z) :=
  let nmemb := length base in
  if (nmemb <=? 1)%nat then (0, errno, base)
  else if (size =? 0)%nat then (-1, EINVAL, base)
  else match mem with
       | None => (-1, ENOMEM, base)
       | Some k => (0, errno, extract nmemb nmemb size k (build (nmemb / 2) nmemb size base))
       end.

(** ** The byte loops *)

(** A byte at a time: the first [t] of [b], then the rest of [a]. *)
Lemma mix_step (a b : list Z) t : (t < length a)%nat -> length b = length a ->
  <[t := default 0 (b !! t)]> (take t b ++ drop t a) = take (S t) b ++ drop (S t) a.
Proof.
  intros Ht Hl. destruct (lookup_lt_is_Some_2 b t ltac:(lia)) as [y Hy].
  destruct (lookup_lt_is_Some_2 a t ltac:(lia)) as [x Hx].
  rewrite insert_app_r_alt by (rewrite length_take; lia). rewrite length_take, Nat.min_l, Nat.sub_diag by lia.
  rewrite (drop_S _ _ _ Hx), (take_S_r _ _ _ Hy), <- app_assoc, Hy. done.
Qed.

Lemma mix_lookup (a b : list Z) t : (t <= length b)%nat -> (take t b ++ drop t a) !! t = a !! t.
Proof.
  intros Ht. rewrite lookup_app_r by (rewrite length_take; lia).
  by rewrite length_take, Nat.min_l, lookup_drop, Nat.sub_diag, Nat.add_0_r by lia.
Qed.

Lemma SWAP_spec a b size : (0 < size)%nat -> length a = size -> length b = size -> SWAP a b size = (b, a).
Proof.
  intros Hs Ha Hb. unfold SWAP.
  pose proof (do_while_count (fun j st => st = (take (Z.to_nat j) b ++ drop (Z.to_nat j) a, take (Z.to_nat j) a ++ drop (Z.to_nat j) b, Z.to_nat j))
    (fun '(_, _, t) => (t <? size)%nat)
    (fun '(a, b, t) => (<[t := default 0 (b !! t)]> a, <[t := default 0 (a !! t)]> b, S t))
    size (a, b, O) 0 (Z.of_nat size)) as H.
  rewrite H; clear H.
  - rewrite Nat2Z.id. rewrite !take_ge, !drop_ge, !app_nil_r by lia. done.
  - lia.
  - lia.
  - done.
  - intros j s Hj ->. destruct (Nat.ltb_spec (Z.to_nat j) size), (Z.ltb_spec j (Z.of_nat size)); done || lia.
  - intros j s Hj ->. rewrite Z2Nat.inj_add by lia. change (Z.to_nat 1) with 1%nat. rewrite Nat.add_1_r.
    rewrite !mix_lookup by lia. rewrite !mix_step by lia. done.
Qed.

Lemma COPY_spec a b size : (0 < size)%nat -> length a = size -> length b = size -> COPY a b size = b.
Proof.
  intros Hs Ha Hb. unfold COPY.
  pose proof (do_while_count (fun j st => st = (take (Z.to_nat j) b ++ drop (Z.to_nat j) a, Z.to_nat j))
    (fun '(_, t) => (t <? size)%nat) (fun '(a, t) => (<[t := default 0 (b !! t)]> a, S t))
    size (a, O) 0 (Z.of_nat size)) as H.
  rewrite H; clear H.
  - rewrite Nat2Z.id. rewrite take_ge, drop_ge, app_nil_r by lia. done.
  - lia.
  - lia.
  - done.
  - intros j s Hj ->. destruct (Nat.ltb_spec (Z.to_nat j) size), (Z.ltb_spec j (Z.of_nat size)); done || lia.
  - intros j s Hj ->. rewrite Z2Nat.inj_add by lia. change (Z.to_nat 1) with 1%nat. rewrite Nat.add_1_r.
    rewrite mix_step by lia. done.
Qed.

(** ** Elements *)

Definition sized (size : nat) (base : list (list Z)) : Prop := Forall (fun e => length e = size) base.

Lemma el_put base i j x : (1 <= i <= length base)%nat -> (1 <= j)%nat ->
  el (put base i x) j = if decide (i = j) then x else el base j.
Proof.
  intros Hi Hj. unfold el, put. destruct (decide (i = j)) as [->|Hij].
  - by rewrite list_lookup_insert_eq by lia.
  - by rewrite list_lookup_insert_ne by lia.
Qed.

Lemma length_put base i x : length (put base i x) = length base.
Proof. apply length_insert. Qed.

Lemma el_lookup base i : (1 <= i <= length base)%nat -> base !! (i - 1)%nat = Some (el base i).
Proof. intros Hi. unfold el. by destruct (lookup_lt_is_Some_2 base (i - 1) ltac:(lia)) as [x ->]. Qed.

Lemma sized_el size base i : sized size base -> (1 <= i <= length base)%nat -> length (el base i) = size.
Proof. intros Hs Hi. exact (Forall_lookup_1 _ _ _ _ Hs (el_lookup base i Hi)). Qed.

Lemma sized_put size base i x : sized size base -> length x = size -> sized size (put base i x).
Proof. intros Hs Hx. by apply Forall_insert. Qed.

(** Exchanging two elements permutes. *)
Lemma put_swap base i j : (1 <= i <= length base)%nat -> (1 <= j <= length base)%nat ->
  put (put base i (el base j)) j (el base i) ≡ₚ base.
Proof. intros Hi Hj. apply Permutation_insert_swap; by apply el_lookup. Qed.

Lemma put_put base i x y : put (put base i x) i y = put base i y.
Proof. apply list_insert_insert_eq. Qed.

(** Moving the element at [c] to the hole at [p], where [k] is to go. *)
Lemma put_move base p c k : (1 <= p <= length base)%nat -> (1 <= c <= length base)%nat -> p <> c ->
  put (put base p (el base c)) c k ≡ₚ put base p k.
Proof.
  intros Hp Hc Hpc. pose proof (put_swap (put base p k) p c) as H. rewrite length_put in H.
  specialize (H Hp Hc). rewrite !el_put, put_put in H by lia.
  destruct (decide (p = p)), (decide (p = c)); done.
Qed.

(** ** Heaps *)

Context `{!Comparison compar}.

Abbreviation le := (Order.le compar).

Definition child (c i : nat) : Prop := c = (i * 2)%nat \/ c = S (i * 2).

(** Every element from [lo] on is at least its children, among the first [n]. *)
Definition heap (lo n : nat) base : Prop :=
  forall i c, (lo <= i)%nat -> child c i -> (c <= n)%nat -> le (el base c) (el base i).

Lemma larger_child_spec base n p : (p * 2 <= n)%nat ->
  let c := larger_child base n (p * 2) in
  child c p /\ (p * 2 <= c <= n)%nat /\
  forall d, child d p -> (d <= n)%nat -> le (el base d) (el base c).
Proof.
  intros Hp c. unfold c, larger_child. destruct (Nat.ltb_spec (p * 2) n); cbn [andb].
  - destruct (Z.ltb_spec (compar (el base (p * 2)) (el base (S (p * 2)))) 0) as [Hc|Hc].
    + split; [by right|]. split; [lia|]. intros d [-> | ->] Hd; [by apply lt_le|apply le_refl].
    + split; [by left|]. split; [lia|]. intros d [-> | ->] Hd; [apply le_refl|apply nlt_le; lia].
  - split; [by left|]. split; [lia|]. intros d [-> | ->] Hd; [apply le_refl|lia].
Qed.

(** ** CREATE *)

(** A heap from [lo] on but for the element at [p], whose children are below its parent. *)
Record almost (lo n p : nat) base : Prop := {
  almost_heap i c : (lo <= i)%nat -> i <> p -> child c i -> (c <= n)%nat -> le (el base c) (el base i);
  almost_skip i c : (lo <= i)%nat -> child p i -> child c p -> (c <= n)%nat -> le (el base c) (el base i);
}.

Lemma CREATE_step lo n p base c : (1 <= lo <= p)%nat -> (n <= length base)%nat ->
  child c p -> (c <= n)%nat -> (forall d, child d p -> (d <= n)%nat -> le (el base d) (el base c)) ->
  ~ compar (el base c) (el base p) <= 0 -> almost lo n p base ->
  almost lo n c (put (put base p (el base c)) c (el base p)).
Proof.
  intros Hlo Hn Hc Hcn Hmax Hgt [Hh Hs]. unfold child in *. split.
  - intros i d Hi Hic Hd Hdn. unfold child in *. rewrite !el_put by (rewrite ?length_put; lia).
    destruct (decide (c = i)); [lia|]. destruct (decide (c = d)) as [<-|Hcd].
    + destruct (decide (p = i)); [by apply nle_le|lia].
    + destruct (decide (p = d)) as [<-|Hpd].
      * destruct (decide (p = i)); [lia|]. by apply Hs.
      * destruct (decide (p = i)) as [<-|]; [by apply Hmax|by apply Hh].
  - intros i d Hi Hci Hd Hdn. unfold child in *. rewrite !el_put by (rewrite ?length_put; lia).
    destruct (decide (c = d)); [lia|]. destruct (decide (p = d)); [lia|]. destruct (decide (c = i)); [lia|].
    destruct (decide (p = i)); [|lia]. apply Hh; lia.
Qed.

Lemma almost_done lo n p base : almost lo n p base ->
  (forall d, child d p -> (d <= n)%nat -> le (el base d) (el base p)) -> heap lo n base.
Proof. intros [Hh _] Hp i c Hi Hc Hcn. destruct (decide (i = p)) as [->|]; [by apply Hp|by apply Hh]. Qed.

Lemma CREATE_spec lo n size fuel : forall p base, (1 <= lo <= p)%nat -> (n <= length base)%nat ->
  (0 < size)%nat -> sized size base -> (n < p + fuel)%nat -> almost lo n p base ->
  heap lo n (CREATE fuel p n size base) /\ CREATE fuel p n size base ≡ₚ base.
Proof.
  induction fuel as [|fuel IH]; intros p base Hlo Hn Hsz Hs Hf Ha; cbn [CREATE].
  - split; [|done]. apply (almost_done lo n p); [done|]. unfold child. lia.
  - destruct (Nat.leb_spec (p * 2) n) as [Hp|Hp]; [|split; [|done]; apply (almost_done lo n p); [done|unfold child; lia]].
    destruct (larger_child_spec base n p Hp) as (Hc & Hcn & Hmax). set (c := larger_child base n (p * 2)) in *.
    destruct (Z.leb_spec (compar (el base c) (el base p)) 0) as [Hle|Hgt].
    + split; [|done]. apply (almost_done lo n p); [done|]. intros d Hd Hdn. apply (le_trans _ (el base c)); [by apply Hmax|done].
    + rewrite SWAP_spec by (done || apply (sized_el size); (done || lia)).
      destruct (IH c (put (put base p (el base c)) c (el base p))) as [IH1 IH2]; rewrite ?length_put; try lia.
      * repeat apply sized_put; try done; apply (sized_el size); done || lia.
      * apply (CREATE_step lo); try done; lia.
      * split; [done|]. rewrite IH2. apply put_swap; lia.
Qed.

(** ** SELECT *)

Lemma SELECT_down_spec n size k fuel : forall p base, (1 <= p <= n)%nat -> (n <= length base)%nat ->
  (0 < size)%nat -> sized size base -> (n < p + fuel)%nat -> heap 1 n base ->
  let '(p', base') := SELECT_down fuel p n size base in
  heap 1 n base' /\ (1 <= p' <= n)%nat /\ (n < p' * 2)%nat /\ length base' = length base /\ sized size base' /\
  put base' p' k ≡ₚ put base p k /\ (forall j, (n < j)%nat -> el base' j = el base j).
Proof.
  induction fuel as [|fuel IH]; intros p base Hp Hn Hsz Hs Hf Hh; cbn [SELECT_down]; [lia|].
  destruct (Nat.leb_spec (p * 2) n) as [Hpn|Hpn]; [|repeat split; done || lia].
  destruct (larger_child_spec base n p Hpn) as (Hc & Hcn & Hmax). set (c := larger_child base n (p * 2)) in *.
  rewrite COPY_spec by (done || apply (sized_el size); (done || lia)).
  specialize (IH c (put base p (el base c))). rewrite length_put in IH.
  destruct (SELECT_down fuel c n size (put base p (el base c))) as [p' base'].
  destruct IH as (H1 & H2 & H3 & H4 & H5 & H6 & H7); try lia.
  - apply sized_put; [done|]. apply sized_el; done || lia.
  - intros i d Hi Hd Hdn. unfold child in *. rewrite !el_put by lia. 
    destruct (decide (p = d)) as [<-|]; [destruct (decide (p = i)); [lia|]|destruct (decide (p = i)) as [<-|]].
    + apply (le_trans _ (el base p)); apply Hh; unfold child; lia.
    + by apply Hmax.
    + by apply Hh.
  - split; [done|]. split; [lia|]. split; [done|]. split; [done|]. split; [done|]. split.
    + rewrite H6. apply put_move; lia.
    + intros j Hj. rewrite H7 by done. rewrite el_put by lia. case_decide; [lia|done].
Qed.

Lemma SELECT_up_spec n size k fuel : forall c base, (1 <= c <= n)%nat -> (n <= length base)%nat ->
  (0 < size)%nat -> sized size base -> length k = size -> (c <= fuel)%nat -> heap 1 n base ->
  (forall d, child d c -> (d <= n)%nat -> le (el base d) k) ->
  heap 1 n (SELECT_up fuel c size k base) /\
  SELECT_up fuel c size k base ≡ₚ put base c k /\
  (forall j, (n < j)%nat -> el (SELECT_up fuel c size k base) j = el base j).
Proof.
  induction fuel as [|fuel IH]; intros c base Hc Hn Hsz Hs Hk Hf Hh Hd; cbn [SELECT_up]; [lia|].
  pose proof (Nat.div_mod_eq c 2). pose proof (Nat.mod_upper_bound c 2 ltac:(lia)).
  destruct ((c =? 1)%nat || (compar k (el base (c / 2)) <? 0)) eqn:E.
  - rewrite COPY_spec by (done || apply (sized_el size); (done || lia)). split; [|split; [done|]].
    + intros i d Hi Hid Hdn. unfold child in *. rewrite !el_put by lia. 
      destruct (decide (c = d)) as [<-|]; [destruct (decide (c = i)); [lia|]|destruct (decide (c = i)) as [<-|]].
      * apply orb_prop in E as [E%Nat.eqb_eq|E%Z.ltb_lt]; [lia|]. replace (c / 2)%nat with i in E by lia. by apply lt_le.
      * by apply Hd.
      * by apply Hh.
    + intros j Hj. rewrite el_put by lia. case_decide; [lia|done].
  - apply orb_false_iff in E as [E1%Nat.eqb_neq E2%Z.ltb_ge].
    assert (Hp : (1 <= c / 2 < c)%nat /\ child c (c / 2)) by (unfold child; lia). destruct Hp as [Hp Hcp].
    rewrite COPY_spec by (done || apply (sized_el size); (done || lia)).
    assert (Hpk : le (el base (c / 2)) k) by (apply nlt_le; lia).
    destruct (IH (c / 2)%nat (put base c (el base (c / 2)))) as (H1 & H2 & H3); rewrite ?length_put; try lia; try done.
    + apply sized_put; [done|]. apply sized_el; done || lia.
    + intros i d Hi Hid Hdn. unfold child in *. rewrite !el_put by lia. 
      destruct (decide (c = d)) as [<-|]; [destruct (decide (c = i)); [lia|]|destruct (decide (c = i)) as [<-|]].
      * replace (c / 2)%nat with i by lia. apply le_refl.
      * apply (le_trans _ (el base c)); apply Hh; unfold child; lia.
      * by apply Hh.
    + intros d Hdc Hdn. rewrite el_put by (unfold child in *; lia). case_decide; [done|].
      apply (le_trans _ (el base (c / 2))); [apply Hh; (done || lia)|done].
    + split; [done|]. split.
      * rewrite H2. apply put_move; lia.
      * intros j Hj. rewrite H3 by done. rewrite el_put by lia. case_decide; [lia|done].
Qed.

Lemma SELECT_spec n size k base : (1 <= n <= length base)%nat -> (0 < size)%nat ->
  sized size base -> length k = size -> heap 1 n base ->
  let base' := SELECT n size k base in
  heap 1 n base' /\ base' ≡ₚ put base 1 k /\ (forall j, (n < j)%nat -> el base' j = el base j).
Proof.
  intros Hn Hsz Hs Hk Hh. unfold SELECT.
  pose proof (SELECT_down_spec n size k n 1 base ltac:(lia) ltac:(lia) Hsz Hs ltac:(lia) Hh) as Hd.
  destruct (SELECT_down n 1 n size base) as [p base1]. destruct Hd as (H1 & H2 & H3 & H4 & H5 & H6 & H7).
  destruct (SELECT_up_spec n size k (S p) p base1 H2 ltac:(lia) Hsz H5 Hk ltac:(lia) H1) as (H8 & H9 & H10).
  - intros d Hd. unfold child in Hd. lia.
  - split; [done|]. split; [by rewrite H9|]. intros j Hj. by rewrite H10, H7.
Qed.

(** ** The two phases *)

Lemma heap_almost lo n base : (1 <= lo)%nat -> heap (S lo) n base -> almost lo n lo base.
Proof.
  intros Hlo H. split.
  - intros i c Hi Hne Hc Hcn. apply H; done || lia.
  - intros i c Hi Hc. unfold child in Hc. lia.
Qed.

Lemma build_spec l size : forall base, (0 < size)%nat -> sized size base -> heap (S l) (length base) base ->
  heap 1 (length base) (build l (length base) size base) /\ build l (length base) size base ≡ₚ base.
Proof.
  induction l as [|l IH]; intros base Hsz Hs Hh; cbn [build]; [done|].
  destruct (CREATE_spec (S l) (length base) size (length base) (S l) base) as [H1 H2]; try done; try lia.
  { apply heap_almost; [lia|done]. }
  pose proof (Permutation_length H2) as Hl. rewrite <- Hl at 2 4.
  destruct (IH (CREATE (length base) (S l) (length base) size base)) as [H3 H4]; rewrite ?Hl in *; try done.
  - unfold sized. by rewrite H2.
  - split; [done|]. by rewrite H4.
Qed.

Lemma heap_top n base : heap 1 n base -> forall i, (1 <= i <= n)%nat -> le (el base i) (el base 1).
Proof.
  intros Hh i. induction (lt_wf i) as [i _ IH]. intros Hi.
  pose proof (Nat.div_mod_eq i 2). pose proof (Nat.mod_upper_bound i 2 ltac:(lia)).
  destruct (decide (i = 1%nat)) as [->|]; [apply le_refl|].
  apply (le_trans _ (el base (i / 2))); [apply Hh; unfold child; lia|apply IH; lia].
Qed.

Lemma drop_el n base base' : length base' = length base ->
  (forall j, (n < j)%nat -> el base' j = el base j) -> drop n base' = drop n base.
Proof.
  intros Hl H. apply list_eq. intros i. rewrite !lookup_drop.
  destruct (decide (n + i < length base)%nat) as [Hi|Hi].
  - specialize (H (S (n + i)) ltac:(lia)). pose proof (el_lookup base (S (n + i)) ltac:(lia)) as E1.
    pose proof (el_lookup base' (S (n + i)) ltac:(lia)) as E2. cbn in E1, E2. rewrite Nat.sub_0_r in E1, E2.
    by rewrite E1, E2, H.
  - rewrite !lookup_ge_None_2 by lia. done.
Qed.

Lemma take_el n base x : x ∈ take n base -> exists i, (1 <= i <= n)%nat /\ x = el base i.
Proof.
  intros [i Hi]%list_elem_of_lookup. apply lookup_take_Some in Hi as [Hi Hin]. exists (S i). split; [lia|].
  unfold el. cbn. by rewrite Nat.sub_0_r, Hi.
Qed.

(** The state of the second phase: a heap, below a sorted tail. *)
Record phase (n size : nat) base : Prop := {
  phase_n : (1 <= n <= length base)%nat;
  phase_sized : sized size base;
  phase_heap : heap 1 n base;
  phase_sorted : StronglySorted le (drop n base);
  phase_below x y : x ∈ take n base -> y ∈ drop n base -> le x y;
}.

Lemma phase_step n size k base : (0 < size)%nat -> phase (S n) size base -> (1 <= n)%nat ->
  let base1 := put base (S n) (el base 1) in
  phase n size (SELECT n size (el base (S n)) base1) /\ SELECT n size (el base (S n)) base1 ≡ₚ base.
Proof.
  intros Hsz [Hn Hs Hh Hst Hb] Hn1 base1.
  assert (Hs1 : sized size base1) by (apply sized_put; [done|apply sized_el; done || lia]).
  assert (Hl1 : length base1 = length base) by apply length_put.
  assert (Hh1 : heap 1 n base1).
  { intros i c Hi Hc Hcn. unfold base1, child in *. rewrite !el_put by lia.
    destruct (decide (S n = c)); [lia|]. destruct (decide (S n = i)); [lia|]. apply Hh; unfold child; lia. }
  destruct (SELECT_spec n size (el base (S n)) base1 ltac:(lia) Hsz Hs1 ltac:(apply sized_el; done || lia) Hh1)
    as (H1 & H2 & H3). set (base2 := SELECT n size (el base (S n)) base1) in *.
  assert (Hp : base2 ≡ₚ base) by (rewrite H2; unfold base1; apply put_swap; lia).
  pose proof (Permutation_length Hp) as Hl2.
  assert (Hd : drop n base2 = el base 1 :: drop (S n) base).
  { rewrite (drop_el n base1 base2) by (congruence || done). unfold base1, put. cbn. rewrite Nat.sub_0_r.
    rewrite drop_insert_ge by lia. rewrite Nat.sub_diag.
    by rewrite (drop_S base (el base (S n)) n) by (rewrite <- (el_lookup base (S n)) by lia; cbn; by rewrite Nat.sub_0_r). }
  assert (Ht : take n base2 ++ [el base 1] ≡ₚ take (S n) base).
  { apply (Permutation_app_inv_r (drop (S n) base)). rewrite take_drop, <- app_assoc. cbn [app].
    by rewrite <- Hd, take_drop. }
  assert (Htop : forall x, x ∈ take (S n) base -> le x (el base 1)).
  { intros x (i & Hi & ->)%take_el. apply (heap_top (S n) base Hh i). lia. }
  assert (Hin : forall x, x ∈ take n base2 -> x ∈ take (S n) base) by (intros x Hx; rewrite <- Ht; set_solver).
  split; [|done]. split.
  - lia.
  - unfold sized. by rewrite Hp.
  - done.
  - rewrite Hd. constructor; [done|]. apply Forall_forall. intros y Hy. apply Hb; [|done].
    rewrite <- Ht. set_solver.
  - intros x y Hx. rewrite Hd. intros [->|Hy]%elem_of_cons; [by apply Htop, Hin|by apply Hb; [apply Hin|]].
Qed.

Lemma extract_spec size fuel : forall n k base, (0 < size)%nat -> length k = size -> (n <= fuel)%nat ->
  phase n size base ->
  StronglySorted le (extract fuel n size k base) /\ extract fuel n size k base ≡ₚ base.
Proof.
  induction fuel as [|fuel IH]; intros n k base Hsz Hk Hf Hph; [destruct Hph; lia|]. cbn [extract].
  destruct (Nat.ltb_spec 1 n) as [Hn|Hn].
  - destruct n as [|n]; [lia|]. pose proof Hph as [Hnl Hs _ _ _]. cbn [Nat.sub]. rewrite Nat.sub_0_r.
    rewrite !COPY_spec by (done || apply (sized_el size); (done || lia)).
    destruct (phase_step n size k base Hsz Hph ltac:(lia)) as [Hph' Hp].
    destruct (IH n (el base (S n)) _ Hsz ltac:(apply sized_el; done || lia) ltac:(lia) Hph') as [H1 H2].
    split; [done|]. by rewrite H2.
  - split; [|done]. destruct Hph as [Hnl _ _ Hst Hb]. assert (n = 1%nat) as -> by lia.
    destruct base as [|x base]; [cbn in Hnl; lia|]. constructor; [exact Hst|].
    apply Forall_forall. intros y Hy. apply Hb; [set_solver|exact Hy].
Qed.
End heapsort.

(** ** Theorem *)

(** C21: [heapsort] with a comparison function that is a total preorder, on
    elements of any positive size: it returns 0 and leaves the array sorted
    and a permutation of what it was; with fewer than two elements it does
    nothing; a size of 0 is EINVAL, and when malloc fails the array is as it was. *)
Theorem heapsort_correct compar `{!Comparison compar} base size mem errno :
  Forall (fun e => length e = size) base -> (forall k, mem = Some k -> length k = size) ->
  let '(ret, errno', base') := heapsort compar base size mem errno in
  if ((2 <=? length base)%nat && (size =? 0)%nat) then ret = -1 /\ errno' = EINVAL /\ base' = base
  else if (2 <=? length base)%nat && bool_decide (mem = None) then ret = -1 /\ errno' = ENOMEM /\ base' = base
  else ret = 0 /\ errno' = errno /\ base' ≡ₚ base /\
       StronglySorted (fun a b => compar a b <= 0) base'.
Proof.
  intros Hs Hmem. unfold heapsort. destruct (Nat.leb_spec (length base) 1) as [H1|H1].
  - destruct (Nat.leb_spec 2 (length base)); [lia|]. cbn [andb]. repeat split; [done|].
    destruct base as [|x [|y base]]; [constructor|repeat constructor|cbn in H1; lia].
  - destruct (Nat.leb_spec 2 (length base)); [|lia]. cbn [andb]. destruct (Nat.eqb_spec size 0) as [->|Hsz]; [done|].
    destruct mem as [k|]; cbn; [|done].
    destruct (build_spec compar (length base / 2) size base ltac:(lia) Hs) as [Hh Hp].
    { intros i c Hi Hc Hcn. unfold child in Hc. pose proof (Nat.div_mod_eq (length base) 2).
      pose proof (Nat.mod_upper_bound (length base) 2 ltac:(lia)). lia. }
    pose proof (Permutation_length Hp) as Hl.
    destruct (extract_spec compar size (length base) (length base) k (build compar (length base / 2) (length base) size base))
      as [H2 H3]; [lia|by apply Hmem|lia| |].
    { split; [lia|unfold sized; by rewrite Hp|done|rewrite drop_ge by lia; constructor|].
      intros x y _ Hy. rewrite drop_ge in Hy by lia. by apply elem_of_nil in Hy. }
    split; [done|]. split; [done|]. split; [by rewrite H3|exact H2].
Qed.

Lemma heapsort_correct_witness :
  let base := [[5; 0]; [3; 1]; [8; 2]; [3; 3]; [1; 4]; [9; 5]; [2; 6]] in
  exists base', heapsort by_first base 2 (Some [0; 0]) 7 = (0, 7, base') /\ base' ≡ₚ base /\
    map (fun e => e.[0]) base' = [1; 2; 3; 3; 5; 8; 9].
Proof.
  intros base.
  assert (Hs : Forall (fun e => length e = 2%nat) base) by (repeat constructor).
  assert (Hm : forall k, Some [0; 0] = Some k -> length k = 2%nat) by (intros k [= <-]; reflexivity).
  pose proof (heapsort_correct by_first base 2 (Some [0; 0]) 7 Hs Hm) as H.
  destruct (heapsort by_first base 2 (Some [0; 0]) 7) as [[ret e] base'] eqn:E.
  destruct H as (-> & -> & Hp & _). exists base'. split; [reflexivity|]. split; [exact Hp|].
  vm_compute in E. injection E as <-. reflexivity.
Defined.
