(* ===== verification/Smoothsort.v ===== *)
(** * Smoothsort: qsort and qsort_r of src/src/stdlib/qsort.c and qsort_nr.c.

    Smoothsort keeps the prefix of the array it has seen as a string of
    Leonardo trees of increasing orders (from the right), whose shape is two
    machine words of bits and a shift. The array is the list of its elements,
    each the list of its [width] bytes; pointers are byte offsets into it. *)

From stdpp Require Import sorting.
From S2P Require Import Prelude Order.

(** ** Trailing zeros (internal/atomic.h) and the two-word bit string *)

Definition debruijn64 : list Z :=
  [0; 1; 2; 53; 3; 7; 54; 27; 4; 38; 41; 8; 34; 55; 48; 28;
   62; 5; 39; 46; 44; 42; 22; 9; 24; 35; 59; 56; 49; 18; 29; 11;
   63; 52; 6; 26; 37; 40; 33; 47; 61; 45; 43; 21; 23; 58; 17; 10;
   51; 25; 36; 32; 60; 20; 57; 16; 50; 31; 19; 15; 30; 14; 13; 12].
Definition a_ctz_64 (x : Z) : Z := debruijn64.[u64 ((x .& u64 (- x)) * 0x022fdd63cc95386d) ≫ 58].

(** [p] is the pair of words [p[0]] and [p[1]]. *)
Definition pntz (p : Z * Z) : Z :=
  let r := a_ctz_64 (u64 (p.1 - 1)) in
  if negb (r =? 0) then r
  else
    let r := 64 + a_ctz_64 p.2 in
    if negb (r =? 64) then r else 0.

Definition shl (p : Z * Z) (n : Z) : Z * Z :=
  let '(p0, p1, n) := if 64 <=? n then (0, p.1, n - 64) else (p.1, p.2, n) in
  let p1 := shl64 p1 n in
  let p1 := p1 .| (p0 ≫ (64 - n)) in
  (shl64 p0 n, p1).

Definition shr (p : Z * Z) (n : Z) : Z * Z :=
  let '(p0, p1, n) := if 64 <=? n then (p.2, 0, n - 64) else (p.1, p.2, n) in
  let p0 := p0 ≫ n in
  let p0 := p0 .| shl64 p1 (64 - n) in
  (p0, p1 ≫ n).

Section smoothsort.
  (** The comparison function, the size of an element, and what the cells of
      [lp] hold that are not set, or lie outside it: no result depends on it. *)
  Context (cmp : list Z -> list Z -> Z) (width : nat) (junk : Z -> Z).
  Implicit Types (base : list (list Z)) (lp : list Z).

Definition lp_at lp (i : Z) : Z :=
  if i <? 0 then junk i else default (junk i) (lp !! Z.to_nat i).

(** The element at a pointer. *)
Definition index (p : Z) : nat := Z.to_nat (p / Z.of_nat width).
Definition at_ base (p : Z) : list Z := default [] (base !! index p).

(** ** cycle *)

(** [l] bytes of the element at [p], [off] bytes from its start. *)
Definition get base (p : Z) (off l : nat) : list Z := take l (drop off (at_ base p)).
Definition set base (p : Z) (off : nat) (b : list Z) : list (list Z) := <[index p := splice (at_ base p) off b]> base.

(** [for (i = 0; i < n; i++) memcpy(ar[i], ar[i + 1], l)], [ar[n]] being [tmp]. *)
Fixpoint move (ar : list Z) (off l : nat) (tmp : list Z) base : list (list Z) :=
  match ar with
  | [] => base
  | [p] => set base p off tmp
  | p :: (q :: _) as ar' => move ar' off l tmp (set base p off (get base q off l))
  end.

(** [ar] has [14 * sizeof(size_t) + 1] cells, the last used one for [tmp];
    writing beyond them is taken to lose the whole array. *)
Definition cycle (ar : list Z) base : list (list Z) :=
  if (length ar <? 2)%nat then base
  else if (112 <? length ar)%nat then []
  else
    let '(base, _, _) :=
      while_ width (fun '(_, _, w) => negb (w =? 0)%nat)
        (fun '(base, off, w) =>
          let l := if (256 <? w)%nat then 256%nat else w in
          let tmp := get base (hd 0 ar) off l in
          (move ar off l tmp base, (off + l)%nat, (w - l)%nat)) (base, O, width) in
    base.

(** ** sift and trinkle *)

(** The loop of [sift]: the pointers it stores in [ar] after [ar[0]]. *)
Fixpoint sift_loop (fuel : nat) base lp (ar0 head pshift : Z) : list Z :=
  match fuel with
  | O => []
  | S fuel =>
      if 1 <? pshift then
        let rt := head - Z.of_nat width in
        let lf := head - Z.of_nat width - lp_at lp (pshift - 2) in
        if (0 <=? cmp (at_ base ar0) (at_ base lf)) && (0 <=? cmp (at_ base ar0) (at_ base rt)) then []
        else if 0 <=? cmp (at_ base lf) (at_ base rt) then
          lf :: sift_loop fuel base lp ar0 lf (pshift - 1)
        else
          rt :: sift_loop fuel base lp ar0 rt (pshift - 2)
      else []
  end.

Definition sift (head pshift : Z) lp base : list (list Z) :=
  cycle (head :: sift_loop (Z.to_nat pshift) base lp head head pshift) base.

(** The loop of [trinkle]: the pointers stored after [ar[0]], and the last
    [head], [pshift] and [trusty]. *)
Fixpoint trinkle_loop (fuel : nat) base lp (ar0 head : Z) (p : Z * Z) (pshift : Z) (trusty : bool) : list Z * (Z * Z * bool) :=
  match fuel with
  | O => ([], (head, pshift, trusty))
  | S fuel =>
      if negb (p.1 =? 1) || negb (p.2 =? 0) then
        let stepson := head - lp_at lp pshift in
        let rt := head - Z.of_nat width in
        let lf := head - Z.of_nat width - lp_at lp (pshift - 2) in
        if cmp (at_ base stepson) (at_ base ar0) <=? 0 then ([], (head, pshift, trusty))
        else if negb trusty && (1 <? pshift) &&
                ((0 <=? cmp (at_ base rt) (at_ base stepson)) || (0 <=? cmp (at_ base lf) (at_ base stepson)))
        then ([], (head, pshift, trusty))
        else
          let trail := pntz p in
          let '(ar, st) := trinkle_loop fuel base lp ar0 stepson (shr p trail) (pshift + trail) false in
          (stepson :: ar, st)
      else ([], (head, pshift, trusty))
  end.

Definition trinkle (head : Z) (pp : Z * Z) (pshift : Z) (trusty : bool) lp base : list (list Z) :=
  let '(ar, (head', pshift, trusty)) := trinkle_loop 128 base lp head head pp pshift trusty in
  if negb trusty then sift head' pshift lp (cycle (head :: ar) base) else base.

(** ** __qsort_r *)

(** [for (lp[0] = lp[1] = width, i = 2; (lp[i] = lp[i-2] + lp[i-1] + width) < size; i++);] *)
Fixpoint leonardo_loop (fuel : nat) (size : Z) lp : list Z :=
  match fuel with
  | O => lp
  | S fuel =>
      let i := Z.of_nat (length lp) in
      let x := u64 (lp_at lp (i - 2) + lp_at lp (i - 1) + Z.of_nat width) in
      if x <? size then leonardo_loop fuel size (lp ++ [x]) else lp ++ [x]
  end.

(** [p[0] |= 1] *)
Definition or1 (p : Z * Z) : Z * Z := (p.1 .| 1, p.2).

(** One iteration of [while (head < high)]. *)
Definition build_step (lp : list Z) (high : Z) (st : list (list Z) * Z * (Z * Z) * Z) : list (list Z) * Z * (Z * Z) * Z :=
  let '(base, head, p, pshift) := st in
  let '(base, p, pshift) :=
    if p.1 .& 3 =? 3 then (sift head pshift lp base, shr p 2, pshift + 2)
    else
      let base :=
        if high - head <=? lp_at lp (pshift - 1) then trinkle head p pshift false lp base
        else sift head pshift lp base in
      if pshift =? 1 then (base, shl p 1, 0) else (base, shl p (pshift - 1), 1) in
  (base, head + Z.of_nat width, or1 p, pshift).

(** One iteration of [while (pshift != 1 || p[0] != 1 || p[1] != 0)]. *)
Definition dismantle_step (lp : list Z) (st : list (list Z) * Z * (Z * Z) * Z) : list (list Z) * Z * (Z * Z) * Z :=
  let '(base, head, p, pshift) := st in
  let '(base, p, pshift) :=
    if pshift <=? 1 then
      let trail := pntz p in
      (base, shr p trail, pshift + trail)
    else
      let p := shl p 2 in
      let pshift := pshift - 2 in
      let p := (p.1 .^ 7, p.2) in
      let p := shr p 1 in
      let base := trinkle (head - lp_at lp pshift - Z.of_nat width) p (pshift + 1) true lp base in
      let p := or1 (shl p 1) in
      let base := trinkle (head - Z.of_nat width) p pshift true lp base in
      (base, p, pshift) in
  (base, head - Z.of_nat width, p, pshift).

Definition qsort_r base : list (list Z) :=
  let nel := length base in
  let size := u64 (Z.of_nat width * Z.of_nat nel) in
  if size =? 0 then base
  else
    let high := size - Z.of_nat width in
    let lp := leonardo_loop 94 size [Z.of_nat width; Z.of_nat width] in
    let '(base, head, p, pshift) :=
      while_ nel (fun '(_, head, _, _) => head <? high) (build_step lp high) (base, 0, (1, 0), 1) in
    let base := trinkle head p pshift false lp base in
    let '(base, _, _, _) :=
      while_ nel (fun '(_, _, p, pshift) => negb (pshift =? 1) || negb (p.1 =? 1) || negb (p.2 =? 0))
        (dismantle_step lp) (base, head, p, pshift) in
    base.

End smoothsort.

(** qsort_nr.c: the comparison function goes through [wrapper_cmp]. *)
Definition wrapper_cmp (cmp : list Z -> list Z -> Z) (v1 v2 : list Z) : Z := cmp v1 v2.
Definition qsort (cmp : list Z -> list Z -> Z) (width : nat) (junk : Z -> Z) (base : list (list Z)) : list (list Z) :=
  qsort_r (wrapper_cmp cmp) width junk base.
