(* ===== verification/SmoothTrees.v ===== *)
(** * SmoothTrees: the trees of smoothsort.

    What [sift] and [trinkle] of src/src/stdlib/qsort.c do to the forest of
    Leonardo trees an array holds: the paths they move elements along, and the
    effect of a move on the order of the elements. Nothing here depends on how
    the code represents the shape of the forest, or on the size of an element. *)

From stdpp Require Import sorting.
From S2P Require Import Prelude Order.

(** ** Cells and paths *)

Section paths.
Implicit Types (b : list (list Z)) (path : list nat).

Definition cell b (i : nat) : list Z := default [] (b !! i).

Lemma cell_lookup b i : (i < length b)%nat -> b !! i = Some (cell b i).
Proof. intros Hi. unfold cell. by destruct (lookup_lt_is_Some_2 b i Hi) as [x ->]. Qed.

Lemma cell_insert b i j x : (i < length b)%nat -> cell (<[i := x]> b) j = if decide (i = j) then x else cell b j.
Proof.
  intros Hi. unfold cell. destruct (decide (i = j)) as [->|Hij].
  - by rewrite list_lookup_insert_eq by done.
  - by rewrite list_lookup_insert_ne by done.
Qed.

Lemma cell_ext b b' : length b = length b' -> (forall i, cell b i = cell b' i) -> b = b'.
Proof.
  intros Hl H. apply list_eq_same_length with (length b); [done|done|].
  intros i x y Hi Hx Hy. specialize (H i). unfold cell in H. rewrite Hx, Hy in H. done.
Qed.

(** The cell after [i] on a path, if [i] is on it and not its end. *)
Fixpoint nxt path (i : nat) : option (option nat) :=
  match path with
  | [] => None
  | p :: path => if decide (p = i) then Some (head path) else nxt path i
  end.

(** Every cell of the path takes its successor's element, the last takes [x]. *)
Fixpoint place (x : list Z) path b : list (list Z) :=
  match path with
  | [] => b
  | [p] => <[p := x]> b
  | p :: (q :: _) as path' => place x path' (<[p := cell b q]> b)
  end.

Definition inside path b : Prop := Forall (fun p => (p < length b)%nat) path.

Lemma nxt_inside path i : nxt path i <> None -> i ∈ path.
Proof. induction path as [|p path IH]; cbn; [done|]. case_decide; set_solver. Qed.

Lemma nxt_next path i j : nxt path i = Some (Some j) -> j ∈ path.
Proof.
  induction path as [|p path IH]; cbn; [done|]. case_decide; [|set_solver].
  destruct path; cbn; [done|]. intros [= ->]. set_solver.
Qed.

Lemma nxt_notin path i : i ∉ path -> nxt path i = None.
Proof. induction path as [|p path IH]; cbn; [done|]. intros Hi. case_decide; set_solver. Qed.

Lemma place_cons x p q path b : place x (p :: q :: path) b = place x (q :: path) (<[p := cell b q]> b).
Proof. done. Qed.

Lemma place_length x path b : length (place x path b) = length b.
Proof. revert b. induction path as [|p [|q path] IH]; intros b; [done|apply length_insert|]. by rewrite place_cons, IH, length_insert. Qed.

Lemma place_cell x path b i : NoDup path -> inside path b ->
  cell (place x path b) i = match nxt path i with Some (Some j) => cell b j | Some None => x | None => cell b i end.
Proof.
  revert b. induction path as [|p [|q path] IH]; intros b Hd Hin; [done| |].
  - cbn. apply Forall_cons in Hin as [Hp _]. rewrite cell_insert by done. by case_decide.
  - apply NoDup_cons in Hd as [Hp Hd]. apply Forall_cons in Hin as [Hpl Hin].
    rewrite place_cons, IH by (done || unfold inside; rewrite length_insert; done).
    change (nxt (p :: q :: path) i) with (if decide (p = i) then Some (Some q) else nxt (q :: path) i).
    destruct (decide (p = i)) as [<-|Hpi].
    + rewrite nxt_notin by done. rewrite cell_insert by done. by case_decide.
    + destruct (nxt (q :: path) i) as [[j|]|] eqn:E; [|done|].
      * rewrite cell_insert by done. case_decide; [|done]. subst j. by apply nxt_next in E.
      * rewrite cell_insert by done. by case_decide.
Qed.

(** Only the first cell of the path loses its element. *)
Lemma place_perm x p path b : NoDup (p :: path) -> inside (p :: path) b -> place x (p :: path) b ≡ₚ <[p := x]> b.
Proof.
  revert p b. induction path as [|q path IH]; intros p b Hd Hin; [done|]. rewrite place_cons.
  apply NoDup_cons in Hd as [Hp Hd]. apply Forall_cons in Hin as [Hpl Hin]. pose proof Hin as [Hq _]%Forall_cons.
  rewrite IH by (done || unfold inside; rewrite length_insert; done).
  assert (Hpq : p <> q) by set_solver.
  transitivity (<[q := x]> (<[p := cell (<[p := x]> b) q]> (<[p := x]> b))).
  - rewrite cell_insert by done. case_decide; [done|]. by rewrite list_insert_insert_eq.
  - apply Permutation_insert_swap; [by rewrite list_lookup_insert_eq|]. by rewrite cell_lookup by (rewrite length_insert; done).
Qed.
End paths.

(** ** Leonardo trees *)

Fixpoint leo (k : nat) : nat :=
  match k with
  | S (S k2 as k1) => S (leo k1 + leo k2)
  | _ => 1%nat
  end.

Lemma leo_SS k : leo (S (S k)) = S (leo (S k) + leo k).
Proof. done. Qed.

Lemma leo_pos k : (1 <= leo k)%nat.
Proof. destruct k as [|[|k]]; [done..|]. rewrite leo_SS. lia. Qed.

Lemma leo_le k j : (k <= j)%nat -> (leo k <= leo j)%nat.
Proof.
  induction 1 as [|j _ IH]; [done|]. destruct j as [|j]; [done|]. rewrite leo_SS. lia.
Qed.

Lemma leo_lt_inv k j : (leo k < leo j)%nat -> (k < j)%nat.
Proof. intros H. destruct (decide (j <= k)%nat) as [Hj%leo_le|]; lia. Qed.

Section trees.
Context {cmp : list Z -> list Z -> Z} `{!Comparison cmp}.
Implicit Types (b : list (list Z)) (x : list Z).
Local Abbreviation le := (Order.le cmp).

(** The tree of order [k] whose root is cell [r]: cells [r + 1 - leo k] to [r]. *)
Definition within (k r i : nat) : Prop := (r < i + leo k)%nat /\ (i <= r)%nat.

Fixpoint heap b (k r : nat) : Prop :=
  match k with
  | S (S k2 as k1) =>
      le (cell b (r - 1)) (cell b r) /\ le (cell b (r - 1 - leo k2)) (cell b r) /\
      heap b k1 (r - 1 - leo k2) /\ heap b k2 (r - 1)
  | _ => True
  end.

(** The two subtrees are heaps; the root is any. *)
Definition kids b (k r : nat) : Prop :=
  match k with
  | S (S k2 as k1) => heap b k1 (r - 1 - leo k2) /\ heap b k2 (r - 1)
  | _ => True
  end.

Lemma heap_kids b k r : heap b k r -> kids b k r.
Proof. destruct k as [|[|k]]; [done..|]. intros (_ & _ & ?). done. Qed.

Lemma order_ind (P : nat -> Prop) : P 0%nat -> P 1%nat -> (forall k, P k -> P (S k) -> P (S (S k))) -> forall k, P k.
Proof. intros H0 H1 HS k. enough (P k /\ P (S k)) by tauto. induction k as [|k [IH1 IH2]]; auto. Qed.

Lemma heap_ext b b' k : forall r, (leo k <= S r)%nat -> (forall i, within k r i -> cell b i = cell b' i) -> heap b k r -> heap b' k r.
Proof.
  induction k as [| |k IH0 IH1] using order_ind; intros r Hr He; [done..|].
  rewrite leo_SS in Hr. unfold within in He. rewrite leo_SS in He. pose proof (leo_pos k). pose proof (leo_pos (S k)).
  intros (H1 & H2 & H3 & H4). change (heap b' (S (S k)) r) with
    (le (cell b' (r - 1)) (cell b' r) /\ le (cell b' (r - 1 - leo k)) (cell b' r) /\ heap b' (S k) (r - 1 - leo k) /\ heap b' k (r - 1)).
  rewrite <- !He by lia. split; [done|]. split; [done|]. split; [apply IH1|apply IH0]; unfold within; try done; try lia; intros i Hi; apply He; lia.
Qed.

(** The subtrees of a tree of order [k + 2]. *)
Lemma within_SS k r i : (leo (S (S k)) <= S r)%nat -> within (S (S k)) r i ->
  i = r \/ within (S k) (r - 1 - leo k) i \/ within k (r - 1) i.
Proof. unfold within. rewrite leo_SS. pose proof (leo_pos k). pose proof (leo_pos (S k)). lia. Qed.

(** The root of a heap is its largest element. *)
Lemma heap_max b k : forall r, (leo k <= S r)%nat -> heap b k r -> forall i, within k r i -> le (cell b i) (cell b r).
Proof.
  induction k as [| |k IH0 IH1] using order_ind; intros r Hr Hh i Hi.
  - unfold within in Hi. cbn in Hi. assert (i = r) as -> by lia. apply le_refl.
  - unfold within in Hi. cbn in Hi. assert (i = r) as -> by lia. apply le_refl.
  - pose proof Hr as Hr'. rewrite leo_SS in Hr'. pose proof (leo_pos k). pose proof (leo_pos (S k)).
    destruct Hh as (H1 & H2 & H3 & H4). destruct (within_SS k r i Hr Hi) as [->|[Hw|Hw]]; [apply le_refl|..].
    + apply (le_trans _ (cell b (r - 1 - leo k))); [|done]. apply IH1; done || lia.
    + apply (le_trans _ (cell b (r - 1))); [|done]. apply IH0; done || lia.
Qed.

(** ** sift *)

(** The cells below [r] through which [x] sinks. *)
Fixpoint descend b x (k r : nat) : list nat :=
  match k with
  | S (S k2 as k1) =>
      let rt := (r - 1)%nat in
      let lf := (r - 1 - leo k2)%nat in
      if (0 <=? cmp x (cell b lf)) && (0 <=? cmp x (cell b rt)) then []
      else if 0 <=? cmp (cell b lf) (cell b rt) then lf :: descend b x k1 lf
      else rt :: descend b x k2 rt
  | _ => []
  end.

Lemma descend_SS b x k r : descend b x (S (S k)) r =
  if (0 <=? cmp x (cell b (r - 1 - leo k))) && (0 <=? cmp x (cell b (r - 1))) then []
  else if 0 <=? cmp (cell b (r - 1 - leo k)) (cell b (r - 1)) then (r - 1 - leo k)%nat :: descend b x (S k) (r - 1 - leo k)
  else (r - 1)%nat :: descend b x k (r - 1).
Proof. done. Qed.

Lemma descend_within b x k : forall r i, (leo k <= S r)%nat -> i ∈ descend b x k r -> within k r i /\ (i < r)%nat.
Proof.
  induction k as [| |k IH0 IH1] using order_ind; intros r i Hr; [set_solver..|].
  rewrite descend_SS. rewrite leo_SS in Hr. unfold within in *. rewrite leo_SS. pose proof (leo_pos k). pose proof (leo_pos (S k)).
  destruct (_ && _); [set_solver|]. destruct (0 <=? _).
  - intros [->|Hi]%elem_of_cons; [lia|]. specialize (IH1 (r - 1 - leo k)%nat i ltac:(lia) Hi). lia.
  - intros [->|Hi]%elem_of_cons; [lia|]. specialize (IH0 (r - 1)%nat i ltac:(lia) Hi). lia.
Qed.

Lemma descend_NoDup b x k : forall r, (leo k <= S r)%nat -> NoDup (r :: descend b x k r).
Proof.
  induction k as [| |k IH0 IH1] using order_ind; intros r Hr; [apply NoDup_singleton..|].
  pose proof (descend_within b x (S (S k)) r) as Hw. apply NoDup_cons. split; [intros Hi; destruct (Hw r Hr Hi); lia|].
  rewrite leo_SS in Hr. rewrite descend_SS. destruct (_ && _); [constructor|]. destruct (0 <=? _); [apply IH1|apply IH0]; lia.
Qed.

Lemma descend_length b x k : forall r, (length (descend b x k r) <= k)%nat.
Proof.
  induction k as [| |k IH0 IH1] using order_ind; intros r; [cbn; lia..|].
  rewrite descend_SS. destruct (_ && _); [cbn; lia|]. destruct (0 <=? _); cbn [length]; [specialize (IH1 (r - 1 - leo k)%nat)|specialize (IH0 (r - 1)%nat)]; lia.
Qed.

Lemma descend_ext b b' x k : forall r, (leo k <= S r)%nat -> (forall i, within k r i -> (i < r)%nat -> cell b i = cell b' i) ->
  descend b x k r = descend b' x k r.
Proof.
  induction k as [| |k IH0 IH1] using order_ind; intros r Hr He; [done..|].
  rewrite leo_SS in Hr. unfold within in *. rewrite leo_SS in He. pose proof (leo_pos k). pose proof (leo_pos (S k)).
  rewrite !descend_SS, !He by lia. rewrite (IH0 (r - 1)%nat), (IH1 (r - 1 - leo k)%nat); try done; try lia; intros i Hi1 Hi2; apply He; lia.
Qed.

(** What [sift] does to a tree whose root is to hold [x]. *)
Record settled x (k r : nat) b b' : Prop := {
  settled_heap : heap b' k r;
  settled_frame i : ~ within k r i -> cell b' i = cell b i;
  settled_upper y : le x y -> (forall i, within k r i -> (i < r)%nat -> le (cell b i) y) -> le (cell b' r) y;
  settled_x : le x (cell b' r);
  settled_lower i : within k r i -> (i < r)%nat -> le (cell b i) (cell b' r);
}.

Lemma settled_here x k r b : (r < length b)%nat -> (leo k <= S r)%nat -> kids b k r ->
  (forall i, within k r i -> (i < r)%nat -> le (cell b i) x) -> settled x k r b (<[r := x]> b).
Proof.
  intros Hr Hk Hh Hx. split.
  - destruct k as [|[|k]]; [done..|]. destruct Hh as [H1 H2]. rewrite leo_SS in Hk. unfold within in Hx. rewrite leo_SS in Hx.
    pose proof (leo_pos k). pose proof (leo_pos (S k)). split; [|split; [|split]].
    + rewrite !cell_insert by done. do 2 case_decide; try lia. apply Hx; lia.
    + rewrite !cell_insert by done. do 2 case_decide; try lia. apply Hx; lia.
    + apply (heap_ext b); [lia| |done]. unfold within. intros i Hi. rewrite cell_insert by done. case_decide; [lia|done].
    + apply (heap_ext b); [lia| |done]. unfold within. intros i Hi. rewrite cell_insert by done. case_decide; [lia|done].
  - intros i Hi. rewrite cell_insert by done. case_decide as E; [|done]. subst i. exfalso. apply Hi. unfold within. pose proof (leo_pos k). lia.
  - intros y Hy _. rewrite cell_insert by done. by case_decide.
  - rewrite cell_insert by done. case_decide; [apply le_refl|done].
  - intros i Hi Hir. rewrite cell_insert by done. case_decide; [by apply Hx|done].
Qed.

(** The larger child [c] of [r] rises and [x] sinks in its tree; [o] is the other child. *)
Lemma settled_sink x k r b b' kc c ko o : (r < length b)%nat -> (leo k <= S r)%nat ->
  (forall i, within k r i -> i = r \/ within kc c i \/ within ko o i) ->
  (forall i, within kc c i -> within k r i /\ (i < r)%nat /\ ~ within ko o i) ->
  (forall i, within ko o i -> within k r i /\ (i < r)%nat) ->
  (leo kc <= S c)%nat -> (leo ko <= S o)%nat -> heap b kc c -> heap b ko o ->
  le (cell b o) (cell b c) -> le x (cell b c) -> settled x kc c (<[r := cell b c]> b) b' ->
  (heap b' kc c -> heap b' ko o -> le (cell b' c) (cell b' r) -> le (cell b' o) (cell b' r) -> heap b' k r) ->
  settled x k r b b'.
Proof.
  intros Hr Hk Hall Hc Ho Hkc Hko Hhc Hho Hoc Hxc [S1 S2 S3 S4 S5] Hheap.
  assert (Hcc : within kc c c) by (unfold within; pose proof (leo_pos kc); lia).
  assert (Hoo : within ko o o) by (unfold within; pose proof (leo_pos ko); lia).
  assert (Hins : forall i, i <> r -> cell (<[r := cell b c]> b) i = cell b i).
  { intros i Hi. rewrite cell_insert by done. by case_decide. }
  assert (Er : cell b' r = cell b c).
  { rewrite S2; [rewrite cell_insert by done; by case_decide|]. intros Hi%Hc. lia. }
  assert (Eo : forall i, within ko o i -> cell b' i = cell b i).
  { intros i Hi. rewrite S2; [apply Hins; apply Ho in Hi; lia|]. intros Hi'%Hc. tauto. }
  assert (Hmax : forall i, within k r i -> (i < r)%nat -> le (cell b i) (cell b c)).
  { intros i Hi Hir. destruct (Hall i Hi) as [->|[Hw|Hw]]; [lia|..].
    - by apply (heap_max b kc).
    - apply (le_trans _ (cell b o)); [|done]. by apply (heap_max b ko). }
  split.
  - apply Hheap; [done|by apply (heap_ext b); [|intros; symmetry; apply Eo|]|..].
    + rewrite Er. apply S3; [done|]. intros i Hi Hic. destruct (Hc i Hi) as (? & ? & _). rewrite Hins by lia. by apply Hmax.
    + by rewrite Er, Eo.
  - intros i Hi. rewrite S2 by (intros Hi'%Hc; tauto). apply Hins. intros ->. apply Hi. unfold within. pose proof (leo_pos k). lia.
  - intros y Hy Hb. rewrite Er. destruct (Hc c Hcc) as (? & ? & _). by apply Hb.
  - by rewrite Er.
  - intros i Hi Hir. rewrite Er. by apply Hmax.
Qed.

Lemma place_descend_settled x k : forall r b, (r < length b)%nat -> (leo k <= S r)%nat -> kids b k r ->
  settled x k r b (place x (r :: descend b x k r) b).
Proof.
  induction k as [| |k IH0 IH1] using order_ind; intros r b Hr Hk Hh.
  - apply settled_here; [done..|]. unfold within. cbn. lia.
  - apply settled_here; [done..|]. unfold within. cbn. lia.
  - pose proof Hh as [H1 H2]. pose proof Hk as Hk'. rewrite leo_SS in Hk'. pose proof (leo_pos k). pose proof (leo_pos (S k)).
    assert (Hins : forall z, kids (<[r := z]> b) (S (S k)) r).
    { intros z. split; (apply (heap_ext b); [lia| |done]); unfold within; intros i Hi; (rewrite cell_insert by done; case_decide; [lia|done]). }
    assert (Hex : forall z kc c, (c < r)%nat -> (leo kc <= S c)%nat -> descend b x kc c = descend (<[r := z]> b) x kc c).
    { intros z kc c Hc Hkc. apply descend_ext; [done|]. intros i _ Hi. rewrite cell_insert by done. case_decide; [lia|done]. }
    rewrite descend_SS. destruct (_ && _) eqn:E.
    + apply andb_prop in E as [E1%Z.leb_le E2%Z.leb_le].
      apply settled_here; [done..|]. intros i Hi Hir. destruct (within_SS k r i Hk Hi) as [->|[Hw|Hw]]; [lia|..].
      * apply (le_trans _ (cell b (r - 1 - leo k))); [apply (heap_max b (S k)); done || lia|by apply ge_le].
      * apply (le_trans _ (cell b (r - 1))); [apply (heap_max b k); done || lia|by apply ge_le].
    + assert (Ex : cmp x (cell b (r - 1 - leo k)) < 0 \/ cmp x (cell b (r - 1)) < 0).
      { apply andb_false_iff in E as [E%Z.leb_gt|E%Z.leb_gt]; auto. }
      destruct (Z.leb_spec 0 (cmp (cell b (r - 1 - leo k)) (cell b (r - 1)))) as [Hc|Hc]; rewrite place_cons.
      * apply ge_le in Hc. rewrite (Hex (cell b (r - 1 - leo k))) by lia.
        apply (settled_sink x _ r b _ (S k) (r - 1 - leo k) k (r - 1)); try done; try lia.
        -- intros i Hi. by apply within_SS.
        -- unfold within. rewrite leo_SS. intros i Hi. lia.
        -- unfold within. rewrite leo_SS. intros i Hi. lia.
        -- destruct Ex as [Ex|Ex]; [by apply lt_le|]. apply (le_trans _ (cell b (r - 1))); [by apply lt_le|done].
        -- apply IH1; [rewrite length_insert; lia|lia|]. apply heap_kids, (Hins (cell b (r - 1 - leo k))).
      * apply lt_le in Hc. rewrite (Hex (cell b (r - 1))) by lia.
        apply (settled_sink x _ r b _ k (r - 1) (S k) (r - 1 - leo k)); try done; try lia.
        -- intros i Hi. apply within_SS in Hi; [tauto|done].
        -- unfold within. rewrite leo_SS. intros i Hi. lia.
        -- unfold within. rewrite leo_SS. intros i Hi. lia.
        -- destruct Ex as [Ex|Ex]; [|by apply lt_le]. apply (le_trans _ (cell b (r - 1 - leo k))); [by apply lt_le|done].
        -- apply IH0; [rewrite length_insert; lia|lia|]. apply heap_kids, (Hins (cell b (r - 1))).
Qed.

(** ** Strings of trees *)

(** The trees of orders [k :: rest], the first one's root at [r], cover cells 0 to [r]. *)
Fixpoint fits (k r : nat) (rest : list nat) : Prop :=
  match rest with
  | [] => leo k = S r
  | k1 :: rest => (leo k <= r)%nat /\ fits k1 (r - leo k) rest
  end.

Lemma fits_le k r rest : fits k r rest -> (leo k <= S r)%nat.
Proof. destruct rest; cbn; lia. Qed.

(** All are heaps; the root of one is at least the next one's to the left, where [G] asks for it. *)
Fixpoint forest (G : nat -> nat -> Prop) b (k r : nat) (rest : list nat) : Prop :=
  heap b k r /\
  match rest with
  | [] => True
  | k1 :: rest => (G k r -> le (cell b (r - leo k)) (cell b r)) /\ forest G b k1 (r - leo k) rest
  end.

(** All but the first one. *)
Definition tail G b (k r : nat) (rest : list nat) : Prop :=
  match rest with
  | [] => True
  | k1 :: rest => forest G b k1 (r - leo k) rest
  end.

Lemma forest_heap G b k r rest : forest G b k r rest -> heap b k r.
Proof. destruct rest; cbn; tauto. Qed.

Lemma forest_ext G b b' rest : forall k r, fits k r rest -> (forall i, (i <= r)%nat -> cell b i = cell b' i) ->
  forest G b k r rest -> forest G b' k r rest.
Proof.
  induction rest as [|k1 rest IH]; intros k r Hf He.
  - intros [H _]. split; [|done]. apply (heap_ext b); [by apply (fits_le k r [])| |done]. unfold within. intros i Hi. apply He. lia.
  - intros (H1 & H2 & H3). destruct Hf as [Hk Hf]. split; [|split].
    + apply (heap_ext b); [lia| |done]. unfold within. intros i Hi. apply He. lia.
    + rewrite <- !He by lia. done.
    + apply (IH k1 (r - leo k)%nat); [done| |done]. intros i Hi. apply He. lia.
Qed.

Definition always (k r : nat) : Prop := True.

(** The first root of a full forest is the largest element. *)
Lemma forest_max b rest : forall k r, fits k r rest -> forest always b k r rest -> forall i, (i <= r)%nat -> le (cell b i) (cell b r).
Proof.
  induction rest as [|k1 rest IH]; intros k r Hf Hfo i Hi.
  - cbn in Hf. destruct Hfo as [Hh _]. apply (heap_max b k); [lia|done|]. unfold within. lia.
  - destruct Hf as [Hk Hf], Hfo as (Hh & Hg & Hfo). destruct (decide (i <= r - leo k)%nat).
    + apply (le_trans _ (cell b (r - leo k))); [by apply (IH k1)|by apply Hg].
    + apply (heap_max b k); [lia|done|]. unfold within. lia.
Qed.

(** ** trinkle *)

Definition settle (k r : nat) b : list (list Z) := place (cell b r) (r :: descend b (cell b r) k r) b.

Lemma insert_move b p q x : (p < length b)%nat -> (q < length b)%nat -> p <> q -> <[q := x]> (<[p := cell b q]> b) ≡ₚ <[p := x]> b.
Proof. intros Hp Hq Hpq. apply (place_perm x p [q] b); [apply NoDup_cons; split; [set_solver|apply NoDup_singleton]|by repeat constructor]. Qed.

Lemma descend_inside b x k r : (r < length b)%nat -> (leo k <= S r)%nat -> inside (r :: descend b x k r) b.
Proof.
  intros Hr Hk. constructor; [done|]. apply Forall_forall. intros i Hi. apply descend_within in Hi; [lia|done].
Qed.

Lemma settle_spec k r b : (r < length b)%nat -> (leo k <= S r)%nat -> kids b k r ->
  settled (cell b r) k r b (settle k r b) /\ settle k r b ≡ₚ b.
Proof.
  intros Hr Hk Hh. split; [by apply place_descend_settled|].
  unfold settle. rewrite place_perm by (by apply descend_NoDup || by apply descend_inside).
  rewrite list_insert_id; [done|]. by apply cell_lookup.
Qed.

Lemma kids_ext b b' k r : (leo k <= S r)%nat -> (forall i, within k r i -> (i < r)%nat -> cell b i = cell b' i) -> kids b k r -> kids b' k r.
Proof.
  intros Hk He. destruct k as [|[|k]]; [done..|]. rewrite leo_SS in Hk. unfold within in *. rewrite leo_SS in He.
  pose proof (leo_pos k). pose proof (leo_pos (S k)).
  intros [H1 H2]. split; (apply (heap_ext b); [lia| |done]); unfold within; intros i Hi; apply He; lia.
Qed.

Lemma settle_insert x k r b : (r < length b)%nat -> (leo k <= S r)%nat -> kids b k r ->
  settled x k r b (settle k r (<[r := x]> b)) /\ settle k r (<[r := x]> b) ≡ₚ <[r := x]> b.
Proof.
  intros Hr Hk Hh. assert (He : forall i, i <> r -> cell (<[r := x]> b) i = cell b i) by (intros i Hi; rewrite cell_insert by done; by case_decide).
  destruct (settle_spec k r (<[r := x]> b)) as [[S1 S2 S3 S4 S5] Hp]; [by rewrite length_insert|done| |].
  { apply (kids_ext b); [done| |done]. intros i _ Hi. symmetry. apply He. lia. }
  rewrite cell_insert in S3, S4 by done. destruct (decide (r = r)); [|done]. split; [|done]. split; [done|..].
  - intros i Hi. rewrite S2 by done. apply He. intros ->. apply Hi. unfold within. pose proof (leo_pos k). lia.
  - intros y Hy Hb. apply S3; [done|]. intros i Hi Hir. rewrite He by lia. by apply Hb.
  - done.
  - intros i Hi Hir. rewrite <- (He i) by lia. by apply S5.
Qed.

(** The second test of the loop: a child is at least the next root [z]. *)
Definition child_ge b (k r : nat) z : bool :=
  match k with
  | S (S k2) => (0 <=? cmp (cell b (r - 1)) z) || (0 <=? cmp (cell b (r - 1 - leo k2)) z)
  | _ => false
  end.

Lemma child_ge_true b k r z : (leo k <= S r)%nat -> child_ge b k r z = true -> exists i, within k r i /\ (i < r)%nat /\ le z (cell b i).
Proof.
  destruct k as [|[|k]]; [done..|]. rewrite leo_SS. pose proof (leo_pos k). pose proof (leo_pos (S k)).
  unfold within. rewrite leo_SS. intros Hk [E%Z.leb_le%ge_le|E%Z.leb_le%ge_le]%orb_prop; eexists; (split; [|split; [|exact E]]); lia.
Qed.

Lemma child_ge_false b k r z : (leo k <= S r)%nat -> kids b k r -> child_ge b k r z = false -> forall i, within k r i -> (i < r)%nat -> le (cell b i) z.
Proof.
  intros Hk. destruct k as [|[|k]]; [unfold within; cbn; lia..|]. intros [H1 H2] [E1%Z.leb_gt%lt_le E2%Z.leb_gt%lt_le]%orb_false_iff i Hi Hir.
  pose proof Hk as Hk'. rewrite leo_SS in Hk'. pose proof (leo_pos k). pose proof (leo_pos (S k)).
  destruct (within_SS k r i Hk Hi) as [->|[Hw|Hw]]; [lia|..].
  - apply (le_trans _ (cell b (r - 1 - leo k))); [apply (heap_max b (S k)); done || lia|done].
  - apply (le_trans _ (cell b (r - 1))); [apply (heap_max b k); done || lia|done].
Qed.

(** [x] moves left along the roots, then sinks. *)
Fixpoint trickle b x (trusty : bool) (k r : nat) (rest : list nat) : list (list Z) :=
  let stop := if trusty then b else settle k r (<[r := x]> b) in
  match rest with
  | [] => stop
  | k1 :: rest =>
      let s := (r - leo k)%nat in
      if (cmp (cell b s) x <=? 0) || negb trusty && child_ge b k r (cell b s) then stop
      else trickle (<[r := cell b s]> b) x false k1 s rest
  end.

Record trickled x (k r : nat) (rest : list nat) b b' : Prop := {
  trickled_forest : forest always b' k r rest;
  trickled_frame i : (r < i)%nat -> cell b' i = cell b i;
  trickled_upper y : le x y -> (forall i, within k r i -> (i < r)%nat -> le (cell b i) y) ->
    (rest <> [] -> le (cell b (r - leo k)) y) -> le (cell b' r) y;
  trickled_perm : b' ≡ₚ <[r := x]> b;
}.

Lemma trickled_here x k r rest b : (r < length b)%nat -> fits k r rest -> kids b k r -> tail always b k r rest ->
  (rest <> [] -> le (cell b (r - leo k)) x \/ exists i, within k r i /\ (i < r)%nat /\ le (cell b (r - leo k)) (cell b i)) ->
  trickled x k r rest b (settle k r (<[r := x]> b)).
Proof.
  intros Hr Hf Hh Ht Hs. destruct (settle_insert x k r b Hr (fits_le _ _ _ Hf) Hh) as [[S1 S2 S3 S4 S5] Hp].
  set (b' := settle k r (<[r := x]> b)) in *.
  assert (Hframe : forall i, (i + leo k <= r)%nat -> cell b' i = cell b i) by (intros i Hi; apply S2; unfold within; lia).
  split; [|intros i Hi; apply S2; unfold within; lia|intros y Hy Hb _; by apply S3|done].
  destruct rest as [|k1 rest]; [by split|]. destruct Hf as [Hk Hf]. split; [done|]. split.
  - intros _. rewrite Hframe by lia. destruct (Hs ltac:(done)) as [Hx|(i & Hi & Hir & Hx)].
    + by apply (le_trans _ x).
    + apply (le_trans _ (cell b i)); [done|]. by apply S5.
  - apply (forest_ext always b); [done| |done]. intros i Hi. symmetry. apply Hframe. lia.
Qed.

Lemma trickled_stay x k r rest b : (r < length b)%nat -> fits k r rest -> heap b k r -> cell b r = x -> tail always b k r rest ->
  (rest <> [] -> le (cell b (r - leo k)) x) -> trickled x k r rest b b.
Proof.
  intros Hr Hf Hh <- Ht Hs. split; [|done|done|rewrite list_insert_id; [done|by apply cell_lookup]].
  destruct rest as [|k1 rest]; [by split|]. split; [done|]. split; [|done]. intros _. by apply Hs.
Qed.

Lemma trickle_spec x rest : forall trusty k r b, (r < length b)%nat -> fits k r rest -> kids b k r ->
  (trusty = true -> heap b k r /\ cell b r = x) -> tail always b k r rest ->
  trickled x k r rest b (trickle b x trusty k r rest).
Proof.
  induction rest as [|k1 rest IH]; intros trusty k r b Hr Hf Hh Htr Ht.
  - cbn [trickle]. destruct trusty; [|by apply trickled_here]. destruct (Htr eq_refl) as [H1 H2]. by apply trickled_stay.
  - cbn [trickle]. set (s := (r - leo k)%nat). pose proof Hf as [Hk Hf1]. pose proof (leo_pos k). fold s in Hf1.
    assert (Hs : (s < r)%nat) by (unfold s; lia).
    destruct (Z.leb_spec (cmp (cell b s) x) 0) as [Hx|Hx]; cbn [orb].
    { destruct trusty; [|by apply trickled_here; auto]. destruct (Htr eq_refl). by apply trickled_stay. }
    destruct (negb trusty && child_ge b k r (cell b s)) eqn:E.
    { apply andb_prop in E as [Et%negb_true_iff E]. subst trusty. apply trickled_here; try done. intros _. right. apply child_ge_true; [lia|done]. }
    assert (Hxs : le x (cell b s)) by (apply nle_le; lia).
    assert (Hbelow : forall i, within k r i -> (i < r)%nat -> le (cell b i) (cell b s)).
    { destruct trusty; cbn [negb andb] in E.
      - intros i Hi _. destruct (Htr eq_refl) as [H1 <-]. apply (le_trans _ (cell b r)); [apply (heap_max b k); done || lia|done].
      - apply child_ge_false; done || lia. }
    set (b1 := <[r := cell b s]> b). assert (Hb1 : forall i, i <> r -> cell b1 i = cell b i).
    { intros i Hi. unfold b1. rewrite cell_insert by done. by case_decide. }
    assert (Hf1' : forest always b1 k1 s rest).
    { apply (forest_ext always b); [done| |done]. intros i Hi. symmetry. apply Hb1. lia. }
    destruct (IH false k1 s b1) as [T1 T2 T3 T4]; [unfold b1; rewrite length_insert; lia|done| |done| |].
    { apply heap_kids, (forest_heap always _ _ _ _ Hf1'). }
    { destruct rest; [done|]. by destruct Hf1' as (_ & _ & ?). }
    set (b' := trickle b1 x false k1 s rest) in *.
    assert (Er : cell b' r = cell b s) by (rewrite T2 by lia; unfold b1; rewrite cell_insert by done; by case_decide).
    assert (Hh1 : heap b1 k r) by (apply settled_here; done || lia).
    split.
    + split; [|split; [|done]].
      * apply (heap_ext b1); [lia| |done]. unfold within. intros i Hi. rewrite T2 by lia. done.
      * intros _. rewrite Er. apply T3; [done|..].
        -- intros i Hi Hir. rewrite Hb1 by lia. apply (heap_max b k1); [by apply (fits_le _ _ rest)|by apply (forest_heap always _ _ _ rest)|done].
        -- intros Hne. destruct rest as [|k2 rest]; [done|]. destruct Ht as (_ & Hg & _). rewrite Hb1 by lia. by apply Hg.
    + intros i Hi. rewrite T2 by lia. apply Hb1. lia.
    + intros y _ _ Hy. rewrite Er. by apply Hy.
    + rewrite T4. unfold b1. apply insert_move; lia.
Qed.
End trees.
