(* ===== verification/SmoothsortProof.v ===== *)
(** * SmoothsortProof: qsort sorts.

    The code of Smoothsort.v on the trees of SmoothTrees.v: the bit string and
    its shift encode the orders of the trees, [cycle] moves elements along a
    path, [sift] and [trinkle] are [settle] and [trickle], and the two loops of
    [__qsort_r] keep the invariants [building] and [unwinding]. *)

From stdpp Require Import sorting.
From S2P Require Import Prelude Order Smoothsort SmoothTrees.

(** ** The bit string *)

Lemma a_ctz_64_checked : forallb (fun t => a_ctz_64 (2 ^ t) =? t) (seqZ 0 64) = true.
Proof. vm_compute. reflexivity. Qed.

(** The lowest set bit, isolated. *)
Lemma low_bit t y : 0 <= t < 64 -> 0 <= y -> word 64 (2 ^ t * (2 * y + 1)) ->
  (2 ^ t * (2 * y + 1)) .& u64 (- (2 ^ t * (2 * y + 1))) = 2 ^ t.
Proof.
  intros Ht Hy Hw. set (x := 2 ^ t * (2 * y + 1)) in *. assert (H2t : 0 < 2 ^ t) by (apply Z.pow_pos_nonneg; lia).
  assert (Hx : forall i, 0 <= i -> Z.testbit x i = (i =? t) || (t <? i) && Z.testbit y (i - t - 1)).
  { intros i Hi. unfold x. rewrite Z.mul_comm, <- Z.shiftl_mul_pow2, shl_bit by lia.
    destruct (Z.leb_spec t i); [|destruct (Z.eqb_spec i t), (Z.ltb_spec t i); done || lia].
    destruct (Z.eqb_spec i t) as [->|Hne].
    - rewrite Z.sub_diag, Z.bit0_odd. rewrite Z.odd_add_mul_2 || rewrite Z.add_comm, Z.odd_add_mul_2. done.
    - destruct (Z.ltb_spec t i); [|lia]. cbn. replace (i - t) with (Z.succ (i - t - 1)) by lia.
      rewrite Z.testbit_odd_succ by lia. f_equal. lia. }
  assert (Hn : forall i, 0 <= i -> Z.testbit (- x) i = (i =? t) || (t <? i) && negb (Z.testbit y (i - t - 1))).
  { intros i Hi. replace (- x) with (Z.lnot (x - 1)) by (unfold Z.lnot; lia). rewrite Z.lnot_spec by lia.
    assert (E : x - 1 = (2 * y) * 2 ^ t + (2 ^ t - 1)) by (unfold x; lia).
    rewrite E, Z.add_comm, (Z.mul_comm (2 * y)), lor_add_disjoint by (unfold word; lia).
    rewrite Z.lor_spec, shl_bit by lia. replace (2 ^ t - 1) with (Z.ones t) by (rewrite Z.ones_equiv; lia).
    rewrite Z.testbit_ones_nonneg by lia.
    destruct (Z.ltb_spec i t), (Z.leb_spec t i); try lia; cbn [orb andb].
    destruct (Z.eqb_spec i t) as [->|]; [by rewrite Z.sub_diag, Z.testbit_even_0|].
    destruct (Z.ltb_spec t i); [|lia]. replace (i - t) with (Z.succ (i - t - 1)) at 1 by lia.
    rewrite Z.testbit_even_succ by lia. done. }
  apply Z.bits_inj'. intros i Hi. rewrite Z.land_spec. unfold u64. rewrite wrap_testbit, Hx, Hn, Z.pow2_bits_eqb by lia.
  destruct (Z.eqb_spec i t) as [->|Hne].
  - rewrite Z.eqb_refl. destruct (Z.ltb_spec t 64); [done|lia].
  - rewrite (proj2 (Z.eqb_neq t i)) by lia. cbn [orb]. destruct (t <? i); [|done]. cbn [andb].
    destruct (Z.testbit y _), (i <? 64); done.
Qed.

Lemma ctz_spec t y : 0 <= t < 64 -> 0 <= y -> word 64 (2 ^ t * (2 * y + 1)) -> a_ctz_64 (2 ^ t * (2 * y + 1)) = t.
Proof.
  intros Ht Hy Hw. unfold a_ctz_64. rewrite low_bit by done.
  pose proof a_ctz_64_checked as H. rewrite forallb_forall in H. specialize (H t ltac:(apply list_elem_of_In, elem_of_seqZ; lia)).
  apply Z.eqb_eq in H. unfold a_ctz_64 in H. rewrite <- H at 2. do 3 f_equal.
  pose proof (low_bit t 0 Ht ltac:(lia)) as E. rewrite Z.mul_1_r in E. rewrite E; [done|].
  unfold word in *. split; [apply Z.pow_nonneg; lia|]. apply Z.pow_lt_mono_r; lia.
Qed.

(** The string of orders [k :: rest], the smallest first. *)
Fixpoint enc (k : nat) (rest : list nat) : Z :=
  match rest with
  | [] => 1
  | k1 :: rest => 1 + 2 ^ (Z.of_nat k1 - Z.of_nat k) * enc k1 rest
  end.
Fixpoint increasing (k : nat) (rest : list nat) : Prop :=
  match rest with
  | [] => (k < 64)%nat
  | k1 :: rest => (k < k1)%nat /\ increasing k1 rest
  end.

Lemma increasing_small k rest : increasing k rest -> (k < 64)%nat.
Proof. revert k. induction rest as [|k1 rest IH]; intros k; cbn; [done|]. intros [H1 H2%IH]. lia. Qed.

Lemma enc_pos k rest : 1 <= enc k rest.
Proof.
  revert k. induction rest as [|k1 rest IH]; intros k; cbn; [lia|]. specialize (IH k1).
  pose proof (Z.pow_nonneg 2 (Z.of_nat k1 - Z.of_nat k) ltac:(lia)). nia.
Qed.

Lemma enc_odd k rest : increasing k rest -> exists y, 0 <= y /\ enc k rest = 2 * y + 1.
Proof.
  destruct rest as [|k1 rest]; cbn; [by exists 0|]. intros [Hk _]. pose proof (enc_pos k1 rest).
  exists (2 ^ (Z.of_nat k1 - Z.of_nat k - 1) * enc k1 rest). split.
  - apply Z.mul_nonneg_nonneg; [apply Z.pow_nonneg|]; lia.
  - replace (Z.of_nat k1 - Z.of_nat k) with (Z.succ (Z.of_nat k1 - Z.of_nat k - 1)) at 1 by lia. rewrite Z.pow_succ_r by lia. lia.
Qed.

Lemma enc_bound k rest : increasing k rest -> 2 ^ Z.of_nat k * enc k rest < 2 ^ 64.
Proof.
  enough (H : increasing k rest -> 2 ^ Z.of_nat k * enc k rest <= 2 ^ 64 - 2 ^ Z.of_nat k).
  { intros Hi. specialize (H Hi). pose proof (Z.pow_pos_nonneg 2 (Z.of_nat k) ltac:(lia) ltac:(lia)). lia. }
  revert k. induction rest as [|k1 rest IH]; intros k; cbn [enc increasing].
  - intros Hk. assert (2 ^ Z.of_nat k * 2 <= 2 ^ 64); [|lia]. rewrite Z.mul_comm, <- Z.pow_succ_r by lia. apply Z.pow_le_mono_r; lia.
  - intros [Hk Hi]. specialize (IH k1 Hi). rewrite Z.mul_add_distr_l, Z.mul_assoc, <- Z.pow_add_r by lia.
    replace (Z.of_nat k + (Z.of_nat k1 - Z.of_nat k)) with (Z.of_nat k1) by lia.
    assert (2 * 2 ^ Z.of_nat k <= 2 ^ Z.of_nat k1); [|lia]. rewrite <- Z.pow_succ_r by lia. apply Z.pow_le_mono_r; lia.
Qed.

Lemma enc_shift_bound k rest n : increasing k rest -> 0 <= n <= Z.of_nat k -> 0 <= 2 ^ n * enc k rest < 2 ^ 64.
Proof.
  intros Hi Hn. pose proof (enc_bound k rest Hi). pose proof (enc_pos k rest).
  assert (0 < 2 ^ n) by (apply Z.pow_pos_nonneg; lia). assert (2 ^ n <= 2 ^ Z.of_nat k) by (apply Z.pow_le_mono_r; lia). nia.
Qed.

Lemma pntz_enc k k1 rest : increasing k (k1 :: rest) -> pntz (enc k (k1 :: rest), 0) = Z.of_nat k1 - Z.of_nat k.
Proof.
  intros Hi. pose proof (enc_shift_bound k (k1 :: rest) 0 Hi ltac:(lia)) as Hb. rewrite Z.mul_1_l in Hb.
  destruct Hi as [Hk Hi]. destruct (enc_odd k1 rest Hi) as (y & Hy & E). unfold pntz. cbn [fst enc] in *. rewrite E in *.
  replace (1 + 2 ^ (Z.of_nat k1 - Z.of_nat k) * (2 * y + 1) - 1) with (2 ^ (Z.of_nat k1 - Z.of_nat k) * (2 * y + 1)) by lia.
  pose proof (increasing_small k1 rest Hi) as Hk1. assert (0 < 2 ^ (Z.of_nat k1 - Z.of_nat k)) by (apply Z.pow_pos_nonneg; lia).
  assert (Hw : word 64 (2 ^ (Z.of_nat k1 - Z.of_nat k) * (2 * y + 1))) by (unfold word; nia).
  rewrite (wrap_small 64) by done. rewrite ctz_spec by (done || lia).
  destruct (Z.eqb_spec (Z.of_nat k1 - Z.of_nat k) 0); [lia|done].
Qed.

Lemma shr_word x n : 0 < n < 64 -> 0 <= x -> shr (x, 0) n = (x / 2 ^ n, 0).
Proof.
  intros Hn Hx. unfold shr. destruct (Z.leb_spec 64 n); [lia|]. cbn [fst snd]. unfold shl64, u64.
  rewrite Z.shiftl_0_l, Z.shiftr_0_l, Z.shiftr_div_pow2 by lia. change (wrap 64 0) with 0. by rewrite Z.lor_0_r.
Qed.

Lemma shl_word x n : 0 < n < 64 -> 0 <= x -> 2 ^ n * x < 2 ^ 64 -> shl (x, 0) n = (2 ^ n * x, 0).
Proof.
  intros Hn Hx Hb. unfold shl. destruct (Z.leb_spec 64 n); [lia|]. cbn [fst snd]. unfold shl64, u64.
  rewrite Z.shiftl_0_l, Z.shiftl_mul_pow2, Z.shiftr_div_pow2, (Z.mul_comm x) by lia. change (wrap 64 0) with 0. rewrite Z.lor_0_l.
  rewrite wrap_small by (unfold word; split; [apply Z.mul_nonneg_nonneg; [apply Z.pow_nonneg|]|]; lia).
  rewrite Z.div_small; [done|]. split; [done|]. assert (0 < 2 ^ n) by (apply Z.pow_pos_nonneg; lia).
  assert (2 ^ 64 = 2 ^ n * 2 ^ (64 - n)) by (rewrite <- Z.pow_add_r by lia; f_equal; lia). nia.
Qed.

Lemma or1_even y : 0 <= y -> or1 (2 * y, 0) = (2 * y + 1, 0).
Proof.
  intros Hy. unfold or1. cbn [fst snd]. f_equal. rewrite Z.lor_comm, Z.add_comm.
  pose proof (lor_add_disjoint 1 y 1 ltac:(lia) ltac:(unfold word; lia)) as E. rewrite Z.shiftl_mul_pow2 in E by lia.
  change (2 ^ 1) with 2 in E. rewrite (Z.mul_comm y) in E. by rewrite E.
Qed.

(** The operations of the code on the string. *)
Lemma shr_pop k k1 rest : increasing k (k1 :: rest) ->
  shr (enc k (k1 :: rest), 0) (pntz (enc k (k1 :: rest), 0)) = (enc k1 rest, 0).
Proof.
  intros Hi. rewrite pntz_enc by done. pose proof (enc_pos k (k1 :: rest)). destruct Hi as [Hk Hi].
  pose proof (increasing_small k1 rest Hi). rewrite shr_word by lia. cbn [enc]. f_equal.
  set (n := Z.of_nat k1 - Z.of_nat k) in *. rewrite Z.add_comm, Z.mul_comm, Z.div_add_l by (apply Z.pow_nonzero; lia).
  rewrite Z.div_small; [lia|]. split; [lia|]. apply (Z.lt_le_trans _ (2 ^ 1)); [lia|]. apply Z.pow_le_mono_r; lia.
Qed.

Lemma enc_low k rest : increasing k rest ->
  (enc k rest .& 3 =? 3) = match rest with k1 :: _ => (k1 =? k + 1)%nat | [] => false end.
Proof.
  intros Hi. change 3 with (Z.ones 2) at 1. rewrite Z.land_ones by lia. change (2 ^ 2) with 4.
  destruct rest as [|k1 rest]; [done|]. destruct Hi as [Hk Hi]. destruct (enc_odd k1 rest Hi) as (y & Hy & E). cbn [enc].
  destruct (Nat.eqb_spec k1 (k + 1)) as [->|Hne].
  - rewrite E. replace (Z.of_nat (k + 1) - Z.of_nat k) with 1 by lia. replace (1 + 2 ^ 1 * (2 * y + 1)) with (3 + y * 4) by lia.
    by rewrite Z.mod_add by lia.
  - replace (Z.of_nat k1 - Z.of_nat k) with (Z.of_nat k1 - Z.of_nat k - 2 + 2) by lia. rewrite Z.pow_add_r by lia.
    replace (1 + 2 ^ (Z.of_nat k1 - Z.of_nat k - 2) * 2 ^ 2 * enc k1 rest) with (1 + (2 ^ (Z.of_nat k1 - Z.of_nat k - 2) * enc k1 rest) * 4) by lia.
    by rewrite Z.mod_add by lia.
Qed.

Lemma or1_shl k rest j : increasing k rest -> (j < k)%nat -> or1 (shl (enc k rest, 0) (Z.of_nat k - Z.of_nat j)) = (enc j (k :: rest), 0).
Proof.
  intros Hi Hj. pose proof (increasing_small k rest Hi). pose proof (enc_pos k rest).
  rewrite shl_word; [|lia|lia|apply (enc_shift_bound k rest _ Hi); lia]. cbn [enc].
  set (n := Z.of_nat k - Z.of_nat j). replace (2 ^ n * enc k rest) with (2 * (2 ^ (n - 1) * enc k rest)).
  2: { rewrite Z.mul_assoc, <- Z.pow_succ_r by lia. do 2 f_equal. lia. }
  rewrite or1_even; [f_equal; lia|]. apply Z.mul_nonneg_nonneg; [apply Z.pow_nonneg|]; lia.
Qed.

(** Two orders apart, as all but the first two of a string are. *)
Fixpoint wide (k : nat) (rest : list nat) : Prop :=
  match rest with
  | [] => True
  | k1 :: rest => (k + 2 <= k1)%nat /\ wide k1 rest
  end.

Lemma or1_shr2 k rest : increasing k (S k :: rest) -> wide (S k) rest -> or1 (shr (enc k (S k :: rest), 0) 2) = (enc (S (S k)) rest, 0).
Proof.
  intros [_ Hi] Hw. pose proof (enc_pos k (S k :: rest)). rewrite shr_word by lia. cbn [enc].
  replace (Z.of_nat (S k) - Z.of_nat k) with 1 by lia. destruct rest as [|k2 rest]; [done|]. destruct Hw as [Hk2 _].
  pose proof (enc_pos k2 rest). cbn [enc]. set (n := Z.of_nat k2 - Z.of_nat (S k)).
  assert (E : 2 ^ n = 2 * (2 * 2 ^ (n - 2))) by (rewrite <- !Z.pow_succ_r by lia; f_equal; lia).
  assert (0 <= 2 ^ (n - 2)) by (apply Z.pow_nonneg; lia).
  replace ((1 + 2 ^ 1 * (1 + 2 ^ n * enc k2 rest)) / 2 ^ 2) with (2 * (2 ^ (n - 2) * enc k2 rest)).
  2: { rewrite E. apply (Z.div_unique_pos _ _ _ 3); lia. }
  rewrite or1_even by (apply Z.mul_nonneg_nonneg; lia). f_equal.
  replace (Z.of_nat k2 - Z.of_nat (S (S k))) with (Z.succ (n - 2)) by lia. rewrite Z.pow_succ_r by lia. lia.
Qed.

Lemma lxor_7 y : 0 <= y -> (4 + 2 ^ 3 * y) .^ 7 = 3 + 2 ^ 3 * y.
Proof.
  intros Hy. rewrite !lor_add_disjoint by (unfold word; lia). apply Z.bits_inj'. intros i Hi.
  rewrite Z.lxor_spec, !Z.lor_spec, shl_bit by lia. destruct (Z.leb_spec 3 i).
  - rewrite (word_testbit 3 4), (word_testbit 3 7), (word_testbit 3 3) by (done || unfold word; lia). cbn. by destruct (Z.testbit y _).
  - assert (i = 0 \/ i = 1 \/ i = 2) as [-> | [-> | ->]] by lia; done.
Qed.

Lemma shr_xor_shl k rest : increasing (S (S k)) rest ->
  shr ((shl (enc (S (S k)) rest, 0) 2).1 .^ 7, (shl (enc (S (S k)) rest, 0) 2).2) 1 = (enc (S k) rest, 0).
Proof.
  intros Hi. destruct (enc_odd _ _ Hi) as (y & Hy & E). pose proof (enc_pos (S (S k)) rest).
  rewrite shl_word; [|lia|lia|apply (enc_shift_bound _ _ 2 Hi); lia]. cbn [fst snd]. rewrite E.
  replace (2 ^ 2 * (2 * y + 1)) with (4 + 2 ^ 3 * y) by lia. rewrite lxor_7, shr_word by lia. f_equal.
  replace ((3 + 2 ^ 3 * y) / 2 ^ 1) with (1 + 4 * y) by (apply (Z.div_unique_pos _ _ _ 1); lia).
  destruct rest as [|k1 rest]; [cbn in *; lia|]. cbn [enc] in *. destruct Hi as [Hk _].
  replace (Z.of_nat k1 - Z.of_nat (S k)) with (Z.succ (Z.of_nat k1 - Z.of_nat (S (S k)))) by lia. rewrite Z.pow_succ_r by lia. lia.
Qed.

(** ** cycle *)

Section cells.
Context (width : nat) (width_pos : (0 < width)%nat).
Implicit Types (b : list (list Z)) (path : list nat).

Definition ptr (i : nat) : Z := Z.of_nat width * Z.of_nat i.
Definition sized b : Prop := Forall (fun e => length e = width) b.

Lemma index_ptr i : index width (ptr i) = i.
Proof. unfold index, ptr. rewrite Z.mul_comm, Z.div_mul by lia. apply Nat2Z.id. Qed.

Lemma at_ptr b i : at_ width b (ptr i) = cell b i.
Proof. unfold at_. by rewrite index_ptr. Qed.

Lemma ptr_sub i j : (j <= i)%nat -> ptr i - ptr j = ptr (i - j).
Proof. unfold ptr. nia. Qed.
Lemma ptr_1 i : ptr i - Z.of_nat width = ptr i - ptr 1.
Proof. unfold ptr. lia. Qed.
Lemma ptr_S i : ptr i + Z.of_nat width = ptr (S i).
Proof. unfold ptr. lia. Qed.
Lemma ptr_le i j : ptr i <= ptr j <-> (i <= j)%nat.
Proof. unfold ptr. nia. Qed.

Lemma sized_cell b i : sized b -> (i < length b)%nat -> length (cell b i) = width.
Proof. intros Hs Hi. exact (Forall_lookup_1 _ _ _ _ Hs (cell_lookup b i Hi)). Qed.

Lemma place_sized x path b : sized b -> length x = width -> inside path b -> sized (place x path b).
Proof.
  revert b. induction path as [|p [|q path] IH]; intros b Hs Hx Hin; [done|by apply Forall_insert|]. rewrite place_cons.
  apply Forall_cons in Hin as [Hp Hin]. pose proof Hin as [Hq _]%Forall_cons.
  apply IH; [|done|unfold inside; rewrite length_insert; done]. apply Forall_insert; [done|by apply sized_cell].
Qed.

Abbreviation move_ptr path := (move width (map ptr path)).

Lemma move_length path off l tmp b : length (move_ptr path off l tmp b) = length b.
Proof.
  revert b. induction path as [|p [|q path] IH]; intros b; [done|apply length_insert|].
  change (move_ptr (p :: q :: path) off l tmp b) with (move_ptr (q :: path) off l tmp (set width b (ptr p) off (get width b (ptr q) off l))).
  rewrite IH. apply length_insert.
Qed.

Lemma set_ptr b p off s : set width b (ptr p) off s = <[p := splice (cell b p) off s]> b.
Proof. unfold set. by rewrite at_ptr, index_ptr. Qed.
Lemma get_ptr b p off l : get width b (ptr p) off l = take l (drop off (cell b p)).
Proof. unfold get. by rewrite at_ptr. Qed.

(** One pass of the copies: each cell takes the bytes of its successor. *)
Lemma move_cell path off l tmp b i : NoDup path -> inside path b ->
  cell (move_ptr path off l tmp b) i =
    match nxt path i with
    | Some (Some j) => splice (cell b i) off (take l (drop off (cell b j)))
    | Some None => splice (cell b i) off tmp
    | None => cell b i
    end.
Proof.
  revert b. induction path as [|p [|q path] IH]; intros b Hd Hin; [done| |].
  - cbn. apply Forall_cons in Hin as [Hp _]. rewrite set_ptr, cell_insert by done. by case_decide; subst.
  - apply NoDup_cons in Hd as [Hp Hd]. apply Forall_cons in Hin as [Hpl Hin].
    change (move_ptr (p :: q :: path) off l tmp b) with (move_ptr (q :: path) off l tmp (set width b (ptr p) off (get width b (ptr q) off l))).
    rewrite set_ptr, get_ptr. rewrite IH by (done || unfold inside; rewrite length_insert; done).
    change (nxt (p :: q :: path) i) with (if decide (p = i) then Some (Some q) else nxt (q :: path) i).
    destruct (decide (p = i)) as [<-|Hpi].
    + rewrite nxt_notin, cell_insert by done. by case_decide.
    + rewrite !cell_insert by done. destruct (decide (p = i)); [done|].
      destruct (nxt (q :: path) i) as [[j|]|] eqn:E; [|done|done].
      rewrite cell_insert by done. case_decide; [|done]. subst j. by apply nxt_next in E.
Qed.

(** The first [t] bytes of [new], the others of [old]. *)
Definition mix (t : nat) (new old : list Z) : list Z := take t new ++ drop t old.

Lemma mix_splice t l new old : length new = width -> length old = width -> (t + l <= width)%nat ->
  splice (mix t new old) t (take l (drop t new)) = mix (t + l) new old.
Proof.
  intros Hn Ho Ht. unfold splice, mix. rewrite length_take, length_drop, Nat.min_l by lia.
  assert (E : length (take t new) = t) by (rewrite length_take; lia).
  rewrite take_app_length' by done. rewrite drop_app_ge by lia. rewrite E, drop_drop.
  rewrite app_assoc, take_take_drop. do 2 f_equal. lia.
Qed.

Lemma drop_mix t new old : length new = width -> (t <= width)%nat -> drop t (mix t new old) = drop t old.
Proof. intros Hn Ht. unfold mix. apply drop_app_length'. rewrite length_take. lia. Qed.

(** The state of [cycle] after [t] bytes. *)
Record cycled (path : list nat) b (t : nat) (st : list (list Z) * nat * nat) : Prop := {
  cycled_pos : st.1.2 = t /\ (t + st.2 = width)%nat;
  cycled_length : length st.1.1 = length b;
  cycled_cell i : cell st.1.1 i = mix t (cell (place (cell b (hd 0%nat path)) path b) i) (cell b i);
}.

Lemma cycle_step p path b t c off w : NoDup (p :: path) -> inside (p :: path) b -> sized b ->
  cycled (p :: path) b t (c, off, w) ->
  let l := if (256 <? w)%nat then 256%nat else w in
  cycled (p :: path) b (t + l) (move_ptr (p :: path) off l (get width c (hd 0 (map ptr (p :: path))) off l) c, (off + l)%nat, (w - l)%nat).
Proof.
  intros Hd Hin Hs [[Hoff Hw] Hl Hc] l. cbn [fst snd] in *. subst off.
  assert (Hlw : (l <= w)%nat) by (unfold l; destruct (Nat.ltb_spec 256 w); lia).
  assert (Hin' : inside (p :: path) c) by (unfold inside; rewrite Hl; done).
  pose proof Hin as [Hp _]%Forall_cons. pose proof (sized_cell b p Hs Hp) as Hlp.
  assert (Hs' : sized (place (cell b p) (p :: path) b)) by (apply place_sized; done).
  split; cbn [fst snd].
  - lia.
  - by rewrite move_length.
  - intros i. change (hd 0 (map ptr (p :: path))) with (ptr p). change (hd 0%nat (p :: path)) with p in *. rewrite move_cell by done. rewrite get_ptr.
    pose proof (place_cell (cell b p) (p :: path) b i Hd Hin) as Hi.
    assert (Hx : forall j, (j < length b)%nat -> drop t (cell c j) = drop t (cell b j)).
    { intros j Hj. rewrite Hc. apply drop_mix; [|lia]. apply sized_cell; [done|]. by rewrite place_length. }
    destruct (decide (i < length b)%nat) as [Hil|Hil].
    + pose proof (sized_cell b i Hs Hil) as Hli.
      assert (Hlp' : length (cell (place (cell b p) (p :: path) b) i) = width) by (apply sized_cell; [done|by rewrite place_length]).
      specialize (Hc i). set (P := cell (place (cell b p) (p :: path) b) i) in *. rewrite Hc.
      destruct (nxt (p :: path) i) as [[j|]|] eqn:E.
      * rewrite Hx by (apply nxt_next in E; exact (proj1 (Forall_forall _ _) Hin j E)). rewrite <- Hi.
        apply mix_splice; done || lia.
      * rewrite Hx by done. rewrite <- Hi. apply mix_splice; done || lia.
      * rewrite Hi. unfold mix. by rewrite !take_drop.
    + destruct (nxt (p :: path) i) as [j|] eqn:E.
      * exfalso. apply Hil. exact (proj1 (Forall_forall _ _) Hin i (nxt_inside _ i ltac:(by rewrite E))).
      * rewrite Hc, Hi. unfold mix. by rewrite !take_drop.
Qed.

Lemma cycle_spec p path b : NoDup (p :: path) -> inside (p :: path) b -> sized b -> (length (p :: path) <= 112)%nat ->
  cycle width (map ptr (p :: path)) b = place (cell b p) (p :: path) b.
Proof.
  intros Hd Hin Hs Hl. unfold cycle. rewrite length_map. destruct (Nat.ltb_spec (length (p :: path)) 2) as [H2|H2].
  - destruct path; [|cbn in H2; lia]. cbn. rewrite list_insert_id; [done|]. apply Forall_cons in Hin as [Hp _]. by apply cell_lookup.
  - destruct (Nat.ltb_spec 112 (length (p :: path))); [lia|].
    match goal with |- context [while_ ?f ?c ?g ?s] =>
      pose proof (while_inv (fun st => exists t, cycled (p :: path) b t st) (fun st => st.2) c g f s) as H' end.
    match goal with |- context [while_ ?f ?c ?g ?s] => destruct (while_ f c g s) as [[c' off] w] eqn:E end.
    destruct H' as [(t & [[Ht Hw] Hlen Hc]) Hz].
    + exists 0%nat. split; cbn; [lia|done|]. intros i. done.
    + intros [[c1 off1] w1] (t & Ht) Hw. split.
      * eexists. exact (cycle_step p path b t c1 off1 w1 Hd Hin Hs Ht).
      * cbn [snd] in *. destruct (Nat.eqb_spec w1 0); [done|]. destruct (Nat.ltb_spec 256 w1); lia.
    + done.
    + cbn [fst snd] in *. apply negb_false_iff, Nat.eqb_eq in Hz. subst w.
      apply cell_ext; [by rewrite place_length|]. intros i. rewrite Hc. assert (t = width) as -> by lia. cbn [hd]. unfold mix.
      destruct (decide (i < length b)%nat) as [Hi|Hi].
      * rewrite take_ge, drop_ge, app_nil_r; [done| |].
        -- by rewrite sized_cell.
        -- rewrite sized_cell; [done| |by rewrite place_length]. apply place_sized; try done. apply sized_cell; [done|]. by apply Forall_cons in Hin as [Hp _].
      * assert (Hn : forall a, length a = length b -> cell a i = []) by (intros a Ha; unfold cell; rewrite lookup_ge_None_2 by lia; done).
        rewrite !Hn by (done || by rewrite place_length). by rewrite take_nil, drop_nil.
Qed.
End cells.

(** ** The code on a string of trees *)

Section code.
Context (cmp : list Z -> list Z -> Z) `{!Comparison cmp} (width : nat) (junk : Z -> Z) (width_pos : (0 < width)%nat).
Context (lp : list Z) (N : nat).

(** What [lp] holds: the sizes of the trees that fit. *)
Definition lp_ok : Prop := forall j, (leo j <= N)%nat -> lp_at junk lp (Z.of_nat j) = ptr width (leo j).
Context (Hlp : lp_ok).

Record good (b : list (list Z)) : Prop := { good_length : length b = N; good_sized : sized width b }.

Lemma lp_child k r : (leo (S (S k)) <= S r)%nat -> (S r <= N)%nat ->
  ptr width r - Z.of_nat width - lp_at junk lp (Z.of_nat (S (S k)) - 2) = ptr width (r - 1 - leo k).
Proof.
  intros Hk Hr. rewrite leo_SS in Hk. replace (Z.of_nat (S (S k)) - 2) with (Z.of_nat k) by lia.
  rewrite Hlp by lia. pose proof (leo_pos k). pose proof (leo_pos (S k)). rewrite ptr_1, ptr_sub by lia. rewrite ptr_sub by lia. done.
Qed.

Lemma sift_loop_descend b a : forall fuel k r, (k <= fuel)%nat -> (leo k <= S r)%nat -> (S r <= N)%nat ->
  sift_loop cmp width junk fuel b lp (ptr width a) (ptr width r) (Z.of_nat k) = map (ptr width) (descend (cmp := cmp) b (cell b a) k r).
Proof.
  induction fuel as [|fuel IH]; intros k r Hf Hk Hr; [destruct k; [done|lia]|]. cbn [sift_loop].
  destruct k as [|[|k]]; [done..|]. rewrite lp_child by done. rewrite descend_SS. pose proof Hk as Hk'. rewrite leo_SS in Hk'.
  pose proof (leo_pos k). pose proof (leo_pos (S k)).
  destruct (Z.ltb_spec 1 (Z.of_nat (S (S k)))); [|lia]. rewrite ptr_1, ptr_sub by lia. rewrite !at_ptr by done.
  destruct (_ && _); [done|]. destruct (0 <=? _); cbn [map]; f_equal.
  - replace (Z.of_nat (S (S k)) - 1) with (Z.of_nat (S k)) by lia. apply IH; lia.
  - replace (Z.of_nat (S (S k)) - 2) with (Z.of_nat k) by lia. apply IH; lia.
Qed.

Lemma sift_settle b k r : good b -> (k < 64)%nat -> (leo k <= S r)%nat -> (r < N)%nat ->
  sift cmp width junk (ptr width r) (Z.of_nat k) lp b = settle (cmp := cmp) k r b.
Proof.
  intros [Hl Hs] Hk Hkr Hr. unfold sift. rewrite sift_loop_descend by lia. change (ptr width r :: map (ptr width) ?l) with (map (ptr width) (r :: l)).
  apply cycle_spec; [done|by apply descend_NoDup|apply descend_inside; lia|done|].
  cbn [length]. pose proof (descend_length (cmp := cmp) b (cell b r) k r). lia.
Qed.

(** *** trinkle *)

(** The cells of [trinkle]'s path after the first; where it ends. *)
Fixpoint walk b x (trusty : bool) (k r : nat) (rest : list nat) : list nat * (nat * nat * bool) :=
  match rest with
  | [] => ([], (k, r, trusty))
  | k1 :: rest =>
      let s := (r - leo k)%nat in
      if (cmp (cell b s) x <=? 0) || negb trusty && child_ge (cmp := cmp) b k r (cell b s) then ([], (k, r, trusty))
      else let '(path, st) := walk b x false k1 s rest in (s :: path, st)
  end.

Lemma enc_not_one k k1 rest : increasing k (k1 :: rest) -> (enc k (k1 :: rest) =? 1) = false.
Proof.
  intros [Hk Hi]. cbn [enc]. pose proof (enc_pos k1 rest). assert (0 < 2 ^ (Z.of_nat k1 - Z.of_nat k)) by (apply Z.pow_pos_nonneg; lia).
  apply Z.eqb_neq. nia.
Qed.

Lemma child_ge_code b k r s : (leo k <= S r)%nat -> (S r <= N)%nat ->
  (1 <? Z.of_nat k) && ((0 <=? cmp (at_ width b (ptr width r - Z.of_nat width)) (cell b s)) ||
    (0 <=? cmp (at_ width b (ptr width r - Z.of_nat width - lp_at junk lp (Z.of_nat k - 2))) (cell b s))) =
  child_ge (cmp := cmp) b k r (cell b s).
Proof.
  intros Hk Hr. destruct k as [|[|k]]; [done..|]. destruct (Z.ltb_spec 1 (Z.of_nat (S (S k)))); [|lia]. cbn [andb child_ge].
  rewrite lp_child by done. pose proof (leo_pos k). rewrite leo_SS in Hk. rewrite ptr_1, ptr_sub by lia. by rewrite !at_ptr by done.
Qed.

Lemma trinkle_loop_walk b a rest : forall fuel k r trusty, (length rest <= fuel)%nat -> (0 < fuel)%nat -> increasing k rest -> fits k r rest -> (S r <= N)%nat ->
  trinkle_loop cmp width junk fuel b lp (ptr width a) (ptr width r) (enc k rest, 0) (Z.of_nat k) trusty =
  (let '(path, (k', r', t')) := walk b (cell b a) trusty k r rest in (map (ptr width) path, (ptr width r', Z.of_nat k', t'))).
Proof.
  induction rest as [|k1 rest IH]; intros fuel k r trusty Hf H0 Hi Hfit Hr; (destruct fuel as [|fuel]; [lia|]); [done|].
  cbn [trinkle_loop]. cbn [fst snd]. rewrite enc_not_one by done. cbn [negb orb]. destruct Hfit as [Hk Hfit].
  rewrite <- andb_assoc, Hlp by lia. rewrite ptr_sub by lia. rewrite !(at_ptr width width_pos b (r - leo k)), at_ptr by done.
  rewrite child_ge_code by lia. cbn [walk]. destruct (_ <=? 0); [done|]. destruct (negb trusty && _); [done|]. cbn [orb].
  rewrite shr_pop, pntz_enc by done. replace (Z.of_nat k + (Z.of_nat k1 - Z.of_nat k)) with (Z.of_nat k1) by lia.
  destruct rest as [|k2 rest].
  - pose proof (IH (S fuel) k1 (r - leo k)%nat false) as IH'. cbn in IH'. destruct fuel; cbn; done.
  - rewrite IH; [|cbn in *; lia|cbn in *; lia|by destruct Hi|done|lia].
    destruct (walk b (cell b a) false k1 (r - leo k) (k2 :: rest)) as [path [[k' r'] t']]. done.
Qed.

Lemma walk_ext b b' x rest : forall trusty k r, fits k r rest -> (forall i, (i < r)%nat -> cell b i = cell b' i) ->
  walk b x trusty k r rest = walk b' x trusty k r rest.
Proof.
  induction rest as [|k1 rest IH]; intros trusty k r Hf He; [done|]. destruct Hf as [Hk Hf]. cbn [walk].
  pose proof (leo_pos k). rewrite !He by lia. assert (Ec : forall z, child_ge (cmp := cmp) b k r z = child_ge (cmp := cmp) b' k r z).
  { intros z. destruct k as [|[|k]]; [done..|]. rewrite leo_SS in *. cbn [child_ge]. rewrite !He by lia. done. }
  rewrite Ec. destruct (_ || _); [done|]. by rewrite (IH false k1 (r - leo k)%nat) by (done || intros i Hi; apply He; lia).
Qed.

Lemma increasing_length k rest : increasing k rest -> (k + length rest < 64)%nat.
Proof. revert k. induction rest as [|k1 rest IH]; intros k; cbn; [lia|]. intros [Hk Hi%IH]. lia. Qed.

Lemma walk_shape b x rest : forall trusty k r, fits k r rest -> increasing k rest ->
  let '(path, (k', r', t')) := walk b x trusty k r rest in
  NoDup (r :: path) /\ Forall (fun i => (i < r)%nat) path /\ (length path <= length rest)%nat /\
  (leo k' <= S r')%nat /\ (r' <= r)%nat /\ (k' < 64)%nat.
Proof.
  induction rest as [|k1 rest IH]; intros trusty k r Hf Hi.
  - cbn in *. repeat split; try done; try lia. apply NoDup_singleton.
  - cbn [walk]. pose proof (increasing_small k (k1 :: rest) Hi). destruct Hf as [Hk Hf], Hi as [_ Hi]. pose proof (leo_pos k). destruct (_ || _).
    + repeat split; try done; cbn; try lia. apply NoDup_singleton.
    + specialize (IH false k1 (r - leo k)%nat Hf Hi). destruct (walk b x false k1 (r - leo k) rest) as [path [[k' r'] t']].
      destruct IH as (H1 & H2 & H3 & H4 & H5 & H6). assert (Hlt : Forall (fun i => (i < r)%nat) ((r - leo k)%nat :: path)).
      { constructor; [lia|]. eapply Forall_impl; [exact H2|]. cbn. intros i ?. lia. }
      split; [|split; [done|cbn [length]; lia]]. apply NoDup_cons. split; [|done].
      intros Hin. rewrite Forall_forall in Hlt. specialize (Hlt r Hin). lia.
Qed.

(** Walking first and moving after is moving as one walks. *)
Lemma walk_trickle x rest : forall b trusty k r, (r < length b)%nat -> fits k r rest ->
  (let '(path, (k', r', t')) := walk b x trusty k r rest in
   if t' then b else settle (cmp := cmp) k' r' (place x (r :: path) b)) = trickle (cmp := cmp) b x trusty k r rest.
Proof.
  induction rest as [|k1 rest IH]; intros b trusty k r Hr Hf; [by destruct trusty|].
  cbn [walk trickle]. destruct Hf as [Hk Hf]. pose proof (leo_pos k). destruct (_ || _); [by destruct trusty|].
  rewrite <- IH by (done || rewrite length_insert; lia). rewrite (walk_ext b (<[r := cell b (r - leo k)]> b)); [|done|].
  2: { intros i Hi. rewrite cell_insert by done. case_decide; [lia|done]. }
  assert (Ht : forall c, (walk c x false k1 (r - leo k) rest).2.2 = false).
  { intros c. clear. generalize (r - leo k)%nat. revert k1. induction rest as [|k2 rest IH]; intros k1 n; cbn [walk]; [done|].
    destruct (_ || _); [done|]. specialize (IH k2 (n - leo k1)%nat). by destruct (walk c x false k2 (n - leo k1) rest) as [path st]. }
  specialize (Ht (<[r := cell b (r - leo k)]> b)).
  destruct (walk _ x false k1 (r - leo k) rest) as [path [[k' r'] t']]. cbn in Ht. subst t'. done.
Qed.

Lemma trinkle_trickle b k r rest trusty : good b -> increasing k rest -> fits k r rest -> (r < N)%nat ->
  trinkle cmp width junk (ptr width r) (enc k rest, 0) (Z.of_nat k) trusty lp b = trickle (cmp := cmp) b (cell b r) trusty k r rest.
Proof.
  intros Hg Hi Hf Hr. pose proof Hg as [Hl Hs]. unfold trinkle. pose proof (increasing_length k rest Hi).
  rewrite (trinkle_loop_walk b r rest) by (done || lia). rewrite <- walk_trickle by (done || lia).
  pose proof (walk_shape b (cell b r) rest trusty k r Hf Hi) as Hw.
  destruct (walk b (cell b r) trusty k r rest) as [path [[k' r'] t']]. destruct Hw as (H1 & H2 & H3 & H4 & H5 & H6).
  destruct t'; [done|]. cbn [negb]. change (ptr width r :: map (ptr width) path) with (map (ptr width) (r :: path)).
  assert (Hin : inside (r :: path) b).
  { constructor; [lia|]. eapply Forall_impl; [exact H2|]. cbn. intros i ?. lia. }
  rewrite cycle_spec by (done || cbn [length]; lia).
  apply sift_settle; [|done|done|lia]. split; [by rewrite place_length|].
  apply place_sized; [done|apply sized_cell; done || lia|done].
Qed.

(** *** Building the forest *)

(** The orders of the trees that fit are below 64. *)
Context (HN : forall k, (leo k <= N)%nat -> (k < 64)%nat).

(** The tree of order [k] at [r] is there to stay: too few elements are left to merge it. *)
Definition final (k r : nat) : Prop := (N - 1 - r <= leo (k - 1))%nat.

Lemma fits_small k r rest : fits k r rest -> (r < N)%nat -> (k < 64)%nat.
Proof. intros Hf%fits_le Hr. apply HN. lia. Qed.

Lemma forest_upgrade b rest : forall k r, fits k r rest -> wide k rest -> (1 <= k)%nat -> (r < N)%nat -> final k r ->
  forest (cmp := cmp) final b k r rest -> forest (cmp := cmp) always b k r rest.
Proof.
  induction rest as [|k1 rest IH]; intros k r Hf Hw Hk Hr HF (Hh & Hfo); [by split|].
  destruct Hfo as [Hg Hfo], Hf as [Hkr Hf], Hw as [Hk1 Hw]. split; [done|]. split; [intros _; by apply Hg|].
  apply IH; try done; try lia. unfold final in *. pose proof (leo_le (k + 1) (k1 - 1) ltac:(lia)).
  destruct k as [|k]; [lia|]. replace (S k + 1)%nat with (S (S k)) in H by lia. rewrite leo_SS in H. replace (S k - 1)%nat with k in HF by lia. lia.
Qed.

Lemma forest_weaken b rest : forall k r, forest (cmp := cmp) always b k r rest -> forest (cmp := cmp) final b k r rest.
Proof. induction rest as [|k1 rest IH]; intros k r [Hh H]; [by split|]. destruct H as [Hg H]. split; [done|]. split; [intros _; by apply Hg|by apply IH]. Qed.

Record building (b : list (list Z)) (k r : nat) (rest : list nat) : Prop := {
  building_good : good b;
  building_bound : (r < N)%nat;
  building_increasing : increasing k rest;
  building_fits : fits k r rest;
  building_spaced : match rest with [] => k <> 0%nat | k1 :: rest => (k = 0%nat -> k1 = 1%nat) /\ wide k1 rest end;
  building_kids : kids (cmp := cmp) b k r;
  building_tail : tail (cmp := cmp) final b k r rest;
}.

Lemma good_perm b b' : b' ≡ₚ b -> good b -> good b'.
Proof. intros Hp [Hl Hs]. split; [by rewrite Hp|]. unfold sized. by rewrite Hp. Qed.

Lemma tail_ext G b b' k r rest : fits k r rest -> (forall i, (i + leo k <= r)%nat -> cell b i = cell b' i) ->
  tail (cmp := cmp) G b k r rest -> tail (cmp := cmp) G b' k r rest.
Proof.
  intros Hf He. destruct rest as [|k1 rest]; [done|]. destruct Hf as [Hk Hf]. intros Ht. apply (forest_ext G b); [done| |done]. intros i Hi. apply He. lia.
Qed.

(** [sift] makes the first tree a heap and leaves the others. *)
Lemma building_sift b k r rest : building b k r rest ->
  let b' := sift cmp width junk (ptr width r) (Z.of_nat k) lp b in
  heap (cmp := cmp) b' k r /\ tail (cmp := cmp) final b' k r rest /\ b' ≡ₚ b.
Proof.
  intros [Hg Hr Hi Hf Hs Hh Ht] b'. pose proof (fits_le _ _ _ Hf) as Hk. pose proof (increasing_small _ _ Hi).
  unfold b'. rewrite sift_settle by done. destruct (settle_spec (cmp := cmp) k r b) as [[S1 S2 _ _ _] Hp]; [by destruct Hg as [-> _]|done..|].
  split; [done|]. split; [|done]. apply (tail_ext final b); [done| |done]. intros i Hi'. symmetry. apply S2. unfold within. lia.
Qed.

(** The trees right of the first one need not wait: the first one is final. *)
Lemma tail_upgrade b k r rest : fits k r rest -> (r < N)%nat -> tail (cmp := cmp) final b k r rest ->
  (forall k1 rest', rest = k1 :: rest' -> (1 <= k1)%nat /\ final k1 (r - leo k) /\ wide k1 rest') -> tail (cmp := cmp) always b k r rest.
Proof.
  intros Hf Hr Ht H. destruct rest as [|k1 rest]; [done|]. destruct (H k1 rest eq_refl) as (Hk & HF & Hw). destruct Hf as [? Hf].
  apply forest_upgrade; try done. lia.
Qed.

(** So does [trinkle], and it orders the roots. *)
Lemma building_trinkle b k r rest : building b k r rest ->
  (forall k1 rest', rest = k1 :: rest' -> (1 <= k1)%nat /\ final k1 (r - leo k) /\ wide k1 rest') ->
  let b' := trinkle cmp width junk (ptr width r) (enc k rest, 0) (Z.of_nat k) false lp b in
  forest (cmp := cmp) always b' k r rest /\ b' ≡ₚ b.
Proof.
  intros [Hg Hr Hi Hf Hs Hh Ht] HF b'. unfold b'. rewrite trinkle_trickle by done.
  destruct (trickle_spec (cmp := cmp) (cell b r) rest false k r b) as [T1 _ _ T4]; try done.
  - by destruct Hg as [-> _].
  - by apply tail_upgrade.
  - split; [done|]. rewrite T4, list_insert_id; [done|]. apply cell_lookup. by destruct Hg as [-> _].
Qed.

Lemma ptr_le_iff i j : (ptr width i <=? ptr width j) = (i <=? j)%nat.
Proof. destruct (Z.leb_spec (ptr width i) (ptr width j)), (Nat.leb_spec i j); unfold ptr in *; nia || done. Qed.

(** A new tree of one element, right of the others. *)
Lemma building_push b k r rest j : building b k r rest -> forall b', b' ≡ₚ b -> (S r < N)%nat -> forest (cmp := cmp) final b' k r rest ->
  (rest = [] \/ exists k1 rest', rest = k1 :: rest' /\ k1 <> S k) -> (k = 1 /\ j = 0 \/ 2 <= k /\ j = 1)%nat -> building b' j (S r) (k :: rest).
Proof.
  intros [Hg Hr Hi Hf Hs Hh Ht] b' Hp HrN Hfo Hgap Hj. assert (Hlj : leo j = 1%nat) by (destruct Hj as [[_ ->]|[_ ->]]; done).
  split.
  - by apply (good_perm b).
  - done.
  - split; [lia|done].
  - cbn [fits]. rewrite Hlj. cbn [Nat.sub]. rewrite Nat.sub_0_r. split; [lia|done].
  - split; [lia|]. destruct rest as [|k1 rest]; [done|]. destruct Hgap as [|(? & ? & [= <- <-] & Hk1)]; [done|].
    destruct Hi as [Hk _]. destruct Hs as [_ Hw]. split; [lia|done].
  - destruct Hj as [[_ ->]|[_ ->]]; done.
  - cbn [tail]. rewrite Hlj. cbn [Nat.sub]. by rewrite Nat.sub_0_r.
Qed.

Definition build_next (b : list (list Z)) (r : nat) (st : list (list Z) * Z * (Z * Z) * Z) : Prop :=
  exists b' k' rest', st = (b', ptr width (S r), (enc k' rest', 0), Z.of_nat k') /\ building b' k' (S r) rest' /\ b' ≡ₚ b.

Lemma building_merge b k r rest : building b k r (S k :: rest) -> (S r < N)%nat ->
  let b' := sift cmp width junk (ptr width r) (Z.of_nat k) lp b in building b' (S (S k)) (S r) rest /\ b' ≡ₚ b.
Proof.
  intros Hb HrN b'. destruct (building_sift b k r (S k :: rest) Hb) as (Hh' & Ht' & Hp). destruct Hb as [Hg Hr Hi Hf Hs Hh Ht]. fold b' in Hh', Ht', Hp.
  split; [|done]. destruct Hf as [Hk Hf]. destruct Hi as [_ Hi]. destruct Hs as [_ Hw].
  assert (El : (S r - leo (S (S k)) = r - leo k - leo (S k))%nat) by (rewrite leo_SS; lia).
  assert (Hf' : fits (S (S k)) (S r) rest).
  { destruct rest as [|k2 rest]; cbn [fits] in *; [rewrite leo_SS; lia|]. rewrite El. rewrite leo_SS. split; [lia|tauto]. }
  split; try done.
  - by apply (good_perm b).
  - pose proof (fits_small _ _ _ Hf' HrN). destruct rest as [|k2 rest]; [done|]. destruct Hw as [Hw _], Hi as [_ Hi]. split; [lia|done].
  - destruct rest as [|k2 rest]; [done|]. destruct Hw as [_ Hw]. done.
  - cbn [tail] in Ht'. pose proof (forest_heap _ _ _ _ _ Ht') as H1. change (heap (cmp := cmp) b' (S k) (S r - 1 - leo k) /\ heap (cmp := cmp) b' k (S r - 1)).
    replace (S r - 1)%nat with r by lia. done.
  - destruct rest as [|k2 rest]; [done|]. cbn [tail]. rewrite El. destruct Ht' as (_ & _ & Ht'). done.
Qed.

Lemma build_step_spec b k r rest : building b k r rest -> (S r < N)%nat ->
  build_next b r (build_step cmp width junk lp (ptr width (N - 1)) (b, ptr width r, (enc k rest, 0), Z.of_nat k)).
Proof.
  intros Hb HrN. pose proof Hb as [Hg Hr Hi Hf Hs Hh Ht]. unfold build_step. cbn [fst]. rewrite enc_low, ptr_S by done.
  destruct (match rest with k1 :: _ => (k1 =? k + 1)%nat | [] => false end) eqn:E.
  - destruct rest as [|k1 rest]; [done|]. apply Nat.eqb_eq in E. rewrite Nat.add_1_r in E. subst k1.
    destruct (building_merge b k r rest Hb HrN) as [Hb' Hp]. destruct Hs as [_ Hw]. rewrite or1_shr2 by done.
    replace (Z.of_nat k + 2) with (Z.of_nat (S (S k))) by lia. by eexists _, _, _.
  - assert (Hgap : rest = [] \/ exists k1 rest', rest = k1 :: rest' /\ k1 <> S k).
    { destruct rest as [|k1 rest]; [by left|]. right. exists k1, rest. split; [done|]. apply Nat.eqb_neq in E. lia. }
    assert (Hk : (1 <= k)%nat).
    { destruct k; [|lia]. destruct Hgap as [-> | (k1 & rest' & -> & Hk1)]; [done|]. destruct Hs as [Hs _]. specialize (Hs eq_refl). lia. }
    pose proof (fits_le _ _ _ Hf) as Hkr.
    set (b' := if _ <=? _ then _ else _). 
    assert (Hb' : forest (cmp := cmp) final b' k r rest /\ b' ≡ₚ b).
    { unfold b'. replace (Z.of_nat k - 1) with (Z.of_nat (k - 1)) by lia. rewrite Hlp by (pose proof (leo_le (k - 1) k); lia).
      rewrite ptr_sub by lia. rewrite ptr_le_iff. destruct (Nat.leb_spec (N - 1 - r) (leo (k - 1))) as [HF|HF].
      - destruct (building_trinkle b k r rest Hb) as [H1 H2]; [|split; [by apply forest_weaken|done]].
        intros k1 rest' ->. destruct Hi as [Hk1 _], Hs as [_ Hw]. destruct Hgap as [|(? & ? & [= <- <-] & Hne)]; [done|].
        split; [lia|]. split; [|done]. destruct Hf as [Hf _]. unfold final. pose proof (leo_le (S k) (k1 - 1) ltac:(lia)).
        destruct k as [|k]; [lia|]. rewrite leo_SS in H. replace (S k - 1)%nat with k in HF by lia. lia.
      - destruct (building_sift b k r rest Hb) as (H1 & H2 & H3). split; [|done].
        destruct rest as [|k1 rest]; [by split|]. split; [done|]. split; [|done]. unfold final. lia. }
    destruct Hb' as [Hfo Hp]. clearbody b'. destruct (Z.eqb_spec (Z.of_nat k) 1) as [Hk1|Hk1].
    + pose proof (or1_shl k rest 0 Hi ltac:(lia)) as Eo. replace (Z.of_nat k - Z.of_nat 0) with 1 in Eo by lia.
      rewrite Eo. exists b', 0%nat, (k :: rest). split; [done|]. split; [|done]. apply (building_push b); try done. lia.
    + pose proof (or1_shl k rest 1 Hi ltac:(lia)) as Eo. change (Z.of_nat 1) with 1 in Eo. rewrite Eo.
      exists b', 1%nat, (k :: rest). split; [done|]. split; [|done]. apply (building_push b); try done. lia.
Qed.

Lemma build_loop_spec fuel : forall b k r rest, building b k r rest -> (N - 1 - r <= fuel)%nat ->
  exists b' k' rest', while_ fuel (fun '(_, head, _, _) => head <? ptr width (N - 1)) (build_step cmp width junk lp (ptr width (N - 1)))
      (b, ptr width r, (enc k rest, 0), Z.of_nat k) = (b', ptr width (N - 1), (enc k' rest', 0), Z.of_nat k') /\
    building b' k' (N - 1) rest' /\ b' ≡ₚ b.
Proof.
  induction fuel as [|fuel IH]; intros b k r rest Hb Hf; pose proof (building_bound _ _ _ _ Hb) as Hr.
  - replace (N - 1)%nat with r by lia. by exists b, k, rest.
  - cbn [while_]. destruct (Z.ltb_spec (ptr width r) (ptr width (N - 1))) as [Hlt|Hlt].
    + assert (S r < N)%nat by (unfold ptr in Hlt; nia). destruct (build_step_spec b k r rest Hb) as (b1 & k1 & rest1 & -> & Hb1 & Hp); [done|].
      destruct (IH b1 k1 (S r) rest1 Hb1 ltac:(lia)) as (b' & k' & rest' & E & Hb' & Hp'). exists b', k', rest'. split; [done|]. split; [done|]. by rewrite Hp'.
    + assert (r = N - 1)%nat as -> by (unfold ptr in Hlt; nia). by exists b, k, rest.
Qed.

(** *** Taking the forest apart *)

Record unwinding (b : list (list Z)) (k r : nat) (rest : list nat) : Prop := {
  unwinding_good : good b;
  unwinding_bound : (r < N)%nat;
  unwinding_increasing : increasing k rest;
  unwinding_fits : fits k r rest;
  unwinding_last : rest = [] -> k <> 0%nat;
  unwinding_forest : forest (cmp := cmp) always b k r rest;
  unwinding_sorted : StronglySorted (Order.le cmp) (drop (S r) b);
  unwinding_below x y : x ∈ take (S r) b -> y ∈ drop (S r) b -> Order.le cmp x y;
}.

Lemma take_cell b n x : x ∈ take n b -> exists i, (i < n)%nat /\ x = cell b i.
Proof. intros [i Hi]%list_elem_of_lookup. apply lookup_take_Some in Hi as [Hi Hin]. exists i. split; [done|]. unfold cell. by rewrite Hi. Qed.

(** The largest element of the prefix joins the sorted rest. *)
Lemma unwinding_shrink b b' k r rest k' rest' : unwinding b k (S r) rest -> b' ≡ₚ b -> (forall i, (r < i)%nat -> cell b' i = cell b i) ->
  increasing k' rest' -> fits k' r rest' -> (rest' = [] -> k' <> 0%nat) -> forest (cmp := cmp) always b' k' r rest' -> unwinding b' k' r rest'.
Proof.
  intros [Hg Hr Hi Hf Hl Hfo Hs Hb] Hp He Hi' Hf' Hl' Hfo'. pose proof Hg as [Hlen _]. pose proof (Permutation_length Hp) as Hlen'.
  assert (Hd : drop (S r) b' = cell b (S r) :: drop (S (S r)) b).
  { rewrite <- (drop_S b (cell b (S r)) (S r)) by (apply cell_lookup; lia). apply cell_ext; [rewrite !length_drop; lia|].
    intros i. unfold cell. rewrite !lookup_drop. apply (He (S r + i)%nat). lia. }
  assert (Ht : take (S r) b' ++ [cell b (S r)] ≡ₚ take (S (S r)) b).
  { apply (Permutation_app_inv_r (drop (S (S r)) b)). rewrite take_drop, <- app_assoc. cbn [app]. by rewrite <- Hd, take_drop. }
  assert (Htop : forall x, x ∈ take (S r) b' -> Order.le cmp x (cell b (S r))).
  { intros x Hx. assert (x ∈ take (S (S r)) b) as (i & Hin & ->)%take_cell by (rewrite <- Ht; set_solver).
    apply (forest_max b rest k); done || lia. }
  split; try done.
  - by apply (good_perm b).
  - lia.
  - rewrite Hd. constructor; [done|]. apply Forall_forall. intros y Hy. apply Hb; [rewrite <- Ht; set_solver|done].
  - intros x y Hx. rewrite Hd. intros [->|Hy]%elem_of_cons; [by apply Htop|]. apply Hb; [rewrite <- Ht; set_solver|done].
Qed.

Definition unwind_next (b : list (list Z)) (r : nat) (st : list (list Z) * Z * (Z * Z) * Z) : Prop :=
  exists b' k' r' rest', r = S r' /\ st = (b', ptr width r', (enc k' rest', 0), Z.of_nat k') /\ unwinding b' k' r' rest' /\ b' ≡ₚ b.

(** A tree of one element goes. *)
Lemma unwinding_pop b k r k1 rest : unwinding b k r (k1 :: rest) -> (k <= 1)%nat ->
  unwind_next b r (dismantle_step cmp width junk lp (b, ptr width r, (enc k (k1 :: rest), 0), Z.of_nat k)).
Proof.
  intros Hu Hk. pose proof Hu as [Hg Hr Hi Hf Hl Hfo Hs Hb]. unfold dismantle_step. destruct (Z.leb_spec (Z.of_nat k) 1); [|lia].
  rewrite shr_pop, pntz_enc by done. replace (Z.of_nat k + (Z.of_nat k1 - Z.of_nat k)) with (Z.of_nat k1) by lia.
  destruct Hf as [Hkr Hf], Hi as [Hk1 Hi], Hfo as (_ & _ & Hfo). assert (Elk : leo k = 1%nat) by (destruct k as [|[|k]]; [done|done|lia]).
  rewrite Elk in *. destruct r as [|r]; [lia|]. cbn [Nat.sub] in *. rewrite Nat.sub_0_r in *.
  exists b, k1, r, rest. split; [done|]. split; [|split; [|done]].
  - rewrite ptr_1, ptr_sub by lia. cbn [Nat.sub]. by rewrite Nat.sub_0_r.
  - apply (unwinding_shrink b b k r (k1 :: rest)); try done. lia.
Qed.

(** A larger one leaves its two subtrees, whose roots [trinkle] orders. *)
Lemma unwinding_split b k r rest : unwinding b (S (S k)) r rest ->
  unwind_next b r (dismantle_step cmp width junk lp (b, ptr width r, (enc (S (S k)) rest, 0), Z.of_nat (S (S k)))).
Proof.
  intros Hu. pose proof Hu as [Hg Hr Hi Hf Hl Hfo Hs Hb]. unfold dismantle_step. destruct (Z.leb_spec (Z.of_nat (S (S k))) 1); [lia|].
  pose proof (shr_xor_shl k rest Hi) as Ex. destruct (shl (enc (S (S k)) rest, 0) 2) as [p0 p1]. cbn [fst snd] in *. rewrite Ex.
  replace (Z.of_nat (S (S k)) - 2) with (Z.of_nat k) by lia. replace (Z.of_nat k + 1) with (Z.of_nat (S k)) by lia.
  pose proof (fits_le _ _ _ Hf) as Hkr. rewrite leo_SS in Hkr. pose proof (leo_pos k). pose proof (leo_pos (S k)).
  destruct r as [|r]; [lia|]. rewrite Hlp by lia. replace (ptr width (S r) - ptr width (leo k) - Z.of_nat width) with (ptr width (r - leo k)) by (unfold ptr; nia).
  replace (ptr width (S r) - Z.of_nat width) with (ptr width r) by (unfold ptr; nia).
  assert (Hi1 : increasing (S k) rest) by (destruct rest; cbn [increasing] in *; [lia|split; [lia|tauto]]).
  assert (El : (S r - leo (S (S k)) = r - leo k - leo (S k))%nat) by (rewrite leo_SS; lia).
  assert (Hf1 : fits (S k) (r - leo k) rest).
  { destruct rest as [|k1 rest]; cbn [fits] in *; [rewrite leo_SS in Hf; lia|]. rewrite El in Hf. rewrite leo_SS in Hf. split; [lia|tauto]. }
  assert (Ht1 : tail (cmp := cmp) always b (S k) (r - leo k) rest).
  { destruct rest as [|k1 rest]; [done|]. destruct Hfo as (_ & _ & Hfo). rewrite El in Hfo. done. }
  destruct (forest_heap _ _ _ _ _ Hfo) as (_ & _ & Hh1 & Hh2). replace (S r - 1)%nat with r in Hh1, Hh2 by lia.
  pose proof Hg as [Hlen _]. rewrite trinkle_trickle by (done || lia).
  destruct (trickle_spec (cmp := cmp) (cell b (r - leo k)) rest true (S k) (r - leo k) b) as [T1 T2 _ T4]; [lia|done|by apply heap_kids|done|done|].
  set (b1 := trickle b _ true (S k) _ rest) in *. rewrite list_insert_id in T4 by (apply cell_lookup; lia).
  pose proof (or1_shl (S k) rest k Hi1 ltac:(lia)) as Eo. replace (Z.of_nat (S k) - Z.of_nat k) with 1 in Eo by lia. rewrite Eo.
  assert (Hi2 : increasing k (S k :: rest)) by (split; [lia|done]).
  assert (Hf2 : fits k r (S k :: rest)) by (split; [lia|done]).
  assert (Hh3 : heap (cmp := cmp) b1 k r).
  { apply (heap_ext b); [lia| |done]. unfold within. intros i Hi'. symmetry. apply T2. lia. }
  pose proof (good_perm b b1 T4 Hg) as Hg1. pose proof Hg1 as [Hlen1 _].
  rewrite trinkle_trickle by (done || lia).
  destruct (trickle_spec (cmp := cmp) (cell b1 r) (S k :: rest) true k r b1) as [U1 U2 _ U4]; [lia|done|by apply heap_kids|done|done|].
  set (b2 := trickle b1 _ true k _ (S k :: rest)) in *. rewrite list_insert_id in U4 by (apply cell_lookup; lia).
  assert (Hp : b2 ≡ₚ b) by (by rewrite U4).
  exists b2, k, r, (S k :: rest). split; [done|]. split; [done|]. split; [|done].
  apply (unwinding_shrink b b2 (S (S k)) r rest); try done. intros i Hi'. rewrite U2, T2 by lia. done.
Qed.

Lemma unwinding_0 b k rest : unwinding b k 0 rest -> StronglySorted (Order.le cmp) b.
Proof.
  intros [_ _ _ _ _ _ Hs Hb]. destruct b as [|x b]; [constructor|]. constructor; [done|]. apply Forall_forall. intros y Hy. apply Hb; [set_solver|done].
Qed.

Lemma unwind_spec fuel : forall b k r rest, unwinding b k r rest -> (r <= fuel)%nat ->
  let '(b', _, _, _) := while_ fuel (fun '(_, _, p, pshift) => negb (pshift =? 1) || negb (p.1 =? 1) || negb (p.2 =? 0))
      (dismantle_step cmp width junk lp) (b, ptr width r, (enc k rest, 0), Z.of_nat k) in
  StronglySorted (Order.le cmp) b' /\ b' ≡ₚ b.
Proof.
  induction fuel as [|fuel IH]; intros b k r rest Hu Hf; cbn [while_].
  - replace r with 0%nat in Hu by lia. split; [by apply unwinding_0 in Hu|done].
  - destruct (_ || _) eqn:E.
    + assert (Hn : unwind_next b r (dismantle_step cmp width junk lp (b, ptr width r, (enc k rest, 0), Z.of_nat k))).
      { destruct k as [|[|k]]; [| |by apply unwinding_split].
        - destruct rest as [|k1 rest]; [by destruct Hu as [_ _ _ _ [] _ _ _]|]. apply unwinding_pop; [done|lia].
        - destruct rest as [|k1 rest]; [done|]. apply unwinding_pop; [done|lia]. }
      destruct Hn as (b1 & k1 & r1 & rest1 & -> & -> & Hu1 & Hp). specialize (IH b1 k1 r1 rest1 Hu1 ltac:(lia)).
      destruct (while_ fuel _ _ _) as [[[b' h'] p'] s']. destruct IH as [IH1 IH2]. split; [done|]. by rewrite IH2.
    + apply orb_false_iff in E as [[E1%negb_false_iff%Z.eqb_eq E2%negb_false_iff]%orb_false_iff _]. cbn [fst] in E2.
      assert (k = 1%nat) as -> by lia. destruct rest as [|k1 rest]; [|by rewrite enc_not_one in E2 by apply Hu].
      pose proof (unwinding_fits _ _ _ _ Hu) as Hf1. cbn in Hf1. assert (r = 0%nat) as -> by lia.
      split; [by apply unwinding_0 in Hu|done].
Qed.
End code.

(** *** The Leonardo numbers of [lp] *)

Record filling (cmp : list Z -> list Z -> Z) (width : nat) (junk : Z -> Z) (N : nat) (lp : list Z) : Prop := {
  filling_length : (2 <= length lp)%nat;
  filling_last : length lp = 2%nat \/ (leo (length lp - 1) < N)%nat;
  filling_lp j : (j < length lp)%nat -> lp_at junk lp (Z.of_nat j) = ptr width (leo j);
}.

Lemma lp_at_nat junk lp j : lp_at junk lp (Z.of_nat j) = default (junk (Z.of_nat j)) (lp !! j).
Proof. unfold lp_at. destruct (Z.ltb_spec (Z.of_nat j) 0); [lia|]. by rewrite Nat2Z.id. Qed.

Lemma leonardo_loop_ok cmp width junk N fuel : forall lp, (0 < width)%nat -> (1 <= N)%nat -> ptr width N < 2 ^ 62 ->
  (forall k, (leo k <= N)%nat -> (k < 64)%nat) -> (66 <= fuel + length lp)%nat -> filling cmp width junk N lp ->
  lp_ok width junk (leonardo_loop width junk fuel (ptr width N) lp) N.
Proof.
  induction fuel as [|fuel IH]; intros lp Hw H1 Hb HN Hf [Hl Hlast Hlp].
  - exfalso. destruct Hlast as [Hlast|Hlast]; [lia|]. specialize (HN (length lp - 1)%nat). lia.
  - cbn [leonardo_loop]. destruct (length lp) as [|[|i]] eqn:El; [lia..|].
    replace (Z.of_nat (S (S i)) - 2) with (Z.of_nat i) by lia. replace (Z.of_nat (S (S i)) - 1) with (Z.of_nat (S i)) by lia.
    rewrite !Hlp by lia. pose proof (leo_le i (S i) ltac:(lia)). cbn [Nat.sub] in Hlast.
    assert (Hi : (leo (S i) <= N)%nat) by (destruct Hlast as [[= ->]|]; [exact H1|lia]).
    replace (u64 (ptr width (leo i) + ptr width (leo (S i)) + Z.of_nat width)) with (ptr width (leo (S (S i)))).
    2: { rewrite leo_SS. unfold u64, ptr in *. rewrite wrap_small; [nia|]. unfold word.
      assert (Z.of_nat width * Z.of_nat (leo (S i)) <= Z.of_nat width * Z.of_nat N) by nia. nia. }
    assert (Hx : forall j, (j <= S (S i))%nat -> lp_at junk (lp ++ [ptr width (leo (S (S i)))]) (Z.of_nat j) = ptr width (leo j)).
    { intros j Hj. rewrite lp_at_nat. destruct (decide (j = S (S i))) as [->|Hne].
      - rewrite lookup_app_r by lia. by rewrite El, Nat.sub_diag.
      - rewrite lookup_app_l by lia. rewrite <- lp_at_nat. apply Hlp. lia. }
    destruct (Z.ltb_spec (ptr width (leo (S (S i)))) (ptr width N)) as [Hlt|Hge].
    + apply IH; try done; [rewrite length_app; cbn; lia|]. split; rewrite length_app, El; cbn [length].
      * lia.
      * right. replace (S (S i) + 1 - 1)%nat with (S (S i)) by lia. unfold ptr in Hlt. nia.
      * intros j Hj. apply Hx. lia.
    + intros j Hj. apply Hx. assert (N <= leo (S (S i)))%nat by (unfold ptr in Hge; nia).
      destruct (decide (S (S (S i)) <= j)%nat) as [Hji%leo_le|]; [|lia]. rewrite (leo_SS (S i)) in Hji. pose proof (leo_pos (S i)). lia.
Qed.

(** The 64th number, of elements, is beyond what one word of orders can describe. *)
Fixpoint leo2 (k : nat) : Z * Z :=
  match k with
  | O => (1, 1)
  | S k => let '(a, b) := leo2 k in (b, b + a + 1)
  end.

Lemma leo2_leo k : leo2 k = (Z.of_nat (leo k), Z.of_nat (leo (S k))).
Proof. induction k as [|k IH]; [done|]. cbn [leo2]. rewrite IH, (leo_SS k). f_equal. lia. Qed.

Lemma leo_below k n x : (leo2 n).1 = x -> Z.of_nat (leo k) < x -> (k < n)%nat.
Proof. rewrite leo2_leo. cbn [fst]. intros <- H. apply leo_lt_inv. lia. Qed.

Lemma leo_64 k : Z.of_nat (leo k) < 34335360355129 -> (k < 64)%nat.
Proof. apply leo_below. vm_compute. reflexivity. Qed.

Lemma sorted_width_0 (cmp : list Z -> list Z -> Z) `{!Comparison cmp} base : sized 0 base -> StronglySorted (Order.le cmp) base.
Proof.
  induction 1 as [|x base Hx Hs IH]; constructor; [done|]. eapply Forall_impl; [exact Hs|]. cbn. intros y Hy.
  apply nil_length_inv in Hx, Hy. subst. apply le_refl.
Qed.

Lemma qsort_r_spec (cmp : list Z -> list Z -> Z) `{!Comparison cmp} width junk base : sized width base ->
  Z.of_nat (length base) < 34335360355129 -> Z.of_nat width * Z.of_nat (length base) < 2 ^ 62 ->
  StronglySorted (Order.le cmp) (qsort_r cmp width junk base) /\ qsort_r cmp width junk base ≡ₚ base.
Proof.
  intros Hs HN Hsize. set (N := length base) in *. unfold qsort_r. fold N. unfold u64. rewrite wrap_small by (unfold word; lia).
  destruct (Z.eqb_spec (Z.of_nat width * Z.of_nat N) 0) as [H0|H0].
  { split; [|done]. apply Z.mul_eq_0 in H0 as [H0|H0].
    - replace width with 0%nat in Hs by lia. by apply sorted_width_0.
    - destruct base; [constructor|]. cbn in N. lia. }
  assert (Hw : (0 < width)%nat) by lia. assert (H1 : (1 <= N)%nat) by lia. clear H0.
  assert (HN' : forall k, (leo k <= N)%nat -> (k < 64)%nat) by (intros k Hk; apply leo_64; lia).
  change (Z.of_nat width * Z.of_nat N) with (ptr width N) in *.
  replace (ptr width N - Z.of_nat width) with (ptr width (N - 1)) by (unfold ptr; nia).
  set (lp := leonardo_loop _ _ _ _ _).
  assert (Hlp : lp_ok width junk lp N).
  { apply (leonardo_loop_ok cmp); try done; [cbn; lia|]. split; [cbn; lia|by left|]. cbn. intros j Hj.
    assert (E : ptr width 1 = Z.of_nat width) by (unfold ptr; lia).
    rewrite lp_at_nat. destruct j as [|[|j]]; [| |lia]; exact (eq_sym E). }
  clearbody lp.
  assert (Hb : building cmp width N base 1 0 []) by (split; [by split|lia|cbn; lia|done|done|done|done]).
  destruct (build_loop_spec cmp width junk Hw lp N Hlp HN' N base 1 0 [] Hb ltac:(lia)) as (b1 & k1 & rest1 & E & Hb1 & Hp1).
  replace (ptr width 0) with 0 in E by (unfold ptr; lia). change (Z.of_nat 1) with 1 in E. change (enc 1 []) with 1 in E. rewrite E.
  pose proof Hb1 as [Hg1 Hr1 Hi1 Hf1 Hs1 Hh1 Ht1].
  destruct (building_trinkle cmp width junk Hw lp N Hlp b1 k1 (N - 1) rest1 Hb1) as [Hfo Hp2].
  { intros k2 rest2 ->. destruct Hi1 as [Hk Hi1], Hs1 as [_ Hs1]. destruct Hf1 as [Hf1 _]. split; [lia|]. split; [|done].
    unfold final. pose proof (leo_le k1 (k2 - 1) ltac:(lia)). lia. }
  set (b2 := trinkle cmp width junk _ _ _ _ _ b1) in *.
  assert (Hg2 : good width N b2) by (by apply (good_perm width N b1)). pose proof Hg2 as [Hl2 _].
  assert (Hu : unwinding cmp width N b2 k1 (N - 1) rest1).
  { split; try done.
    - intros ->. done.
    - rewrite drop_ge by lia. constructor.
    - intros x y _. rewrite drop_ge by lia. intros Hy%elem_of_nil. done. }
  pose proof (unwind_spec cmp width junk Hw lp N Hlp HN' N b2 k1 (N - 1) rest1 Hu ltac:(lia)) as H.
  destruct (while_ N _ (dismantle_step cmp width junk lp) _) as [[[b3 h3] p3] s3]. destruct H as [H3 H4].
  split; [done|]. by rewrite H4, Hp2.
Qed.

(** ** Theorem *)

(** C4: [qsort] (so [__qsort_r] too, which it calls) with a comparison
    function that is a total preorder, on an array of fewer than 3.4 * 10^13
    elements of any size in less than 2^62 bytes, leaves the array sorted and a
    permutation of what it was, whatever the unset cells of [lp] hold. *)
Theorem qsort_correct cmp `{!Comparison cmp} width junk base :
  Forall (fun e => length e = width) base -> Z.of_nat (length base) < 34335360355129 ->
  Z.of_nat width * Z.of_nat (length base) < 2 ^ 62 ->
  qsort cmp width junk base ≡ₚ base /\ StronglySorted (fun a b => cmp a b <= 0) (qsort cmp width junk base).
Proof.
  intros Hs HN Hsize. destruct (qsort_r_spec cmp width junk base Hs HN Hsize) as [H1 H2].
  split; [exact H2|exact H1].
Qed.

Lemma qsort_correct_witness :
  let base := [[5; 0]; [3; 1]; [8; 2]; [3; 3]; [1; 4]; [9; 5]; [2; 6]; [7; 7]; [4; 8]; [6; 9]; [0; 10]; [11; 11]] in
  qsort by_first 2 (fun _ => 77) base ≡ₚ base /\
  map (fun e => e.[0]) (qsort by_first 2 (fun _ => 77) base) = [0; 1; 2; 3; 3; 4; 5; 6; 7; 8; 9; 11].
Proof.
  intros base. assert (Hs : Forall (fun e => length e = 2%nat) base) by (repeat constructor).
  pose proof (qsort_correct by_first 2 (fun _ => 77) base Hs ltac:(reflexivity) ltac:(reflexivity)) as [H _].
  split; [exact H|vm_compute; reflexivity].
Defined.

(** The lowest bit of [p[1]] is 64 places above bit 0, yet [pntz] answers 0:
    the condition on the number of elements keeps it from mattering. *)
Lemma pntz_gap_64 y : 0 <= y -> word 64 (2 * y + 1) -> pntz (1, 2 * y + 1) = 0.
Proof.
  intros Hy Hw. unfold pntz. cbn [fst snd]. change (a_ctz_64 (u64 (1 - 1))) with 0. cbn [Z.eqb negb].
  pose proof (ctz_spec 0 y ltac:(lia) Hy) as H. change (2 ^ 0) with 1 in H. rewrite Z.mul_1_l in H. by rewrite H.
Qed.
