(* ===== verification/Semaphore.v ===== *)
(** * Semaphore: POSIX semaphores of src/src/thread/sem_*.c.

    [__val[0]] holds the value and, in its sign bit, a flag for waiters;
    [__val[1]] counts the waiters. The counter the operations implement, and
    that no wake-up is lost, for any number of threads. *)

From S2P Require Import Prelude Futex.

Notation "'SEM_VALUE_MAX'" := 0x7fffffff.
(** 0x80000000, as an [int] *)
Notation "'WAITERS'" := (-2147483648).

(** ** Data *)

(** The two words, and two history variables that no operation reads: the
    posts and the waits that succeeded so far. *)
Record mem := mkMem { val0 : Z; val1 : Z; posts : Z; waits : Z }.

(** Where [sem_trywait] was called: by the caller, first in [sem_timedwait], or in its loop. *)
Inductive site := KTry | KFirst | KLoop.

(** The points before each atomic access; [tm] tells a wait with a deadline. *)
Inductive pc :=
  | Idle
  | PostVal                              (* val = sem->__val[0] *)
  | PostWaiters (val : Z)                (* waiters = sem->__val[1] *)
  | PostCas (val waiters : Z)            (* a_cas(sem->__val, val, new) *)
  | PostWake (cnt : Z)                   (* __wake(sem->__val, cnt, priv) *)
  | Try (tm : bool) (k : site)           (* val = sem->__val[0] *)
  | TryCas (tm : bool) (k : site) (val : Z) (* a_cas(sem->__val, val, val-1) *)
  | SpinVal (tm : bool) (spins : Z)
  | SpinWaiters (tm : bool) (spins : Z)
  | Inc (tm : bool)                      (* a_inc(sem->__val+1) *)
  | Mark (tm : bool)                     (* a_cas(sem->__val, 0, 0x80000000) *)
  | Wait (tm : bool)                     (* __timedwait_cp(sem->__val, 0x80000000, ...) *)
  | Asleep (tm : bool)
  | Dec (tm : bool) (r : Z)              (* a_dec(sem->__val+1) *)
  | Posted                               (* a post returned 0 *)
  | Got                                  (* a wait returned 0 *)
  | Failed (r : Z).                      (* -1, errno = r *)

(** ** Operations *)

Definition value (val : Z) : Z := u32 val .& SEM_VALUE_MAX.

Definition set0 (m : mem) (v : Z) : mem := mkMem v (val1 m) (posts m) (waits m).
Definition set1 (m : mem) (v : Z) : mem := mkMem (val0 m) v (posts m) (waits m).
Definition posted (m : mem) : mem := mkMem (val0 m) (val1 m) (posts m + 1) (waits m).
Definition taken (m : mem) : mem := mkMem (val0 m) (val1 m) (posts m) (waits m + 1).

(** [new = val + 1; if (waiters <= 1) new &= ~0x80000000;] *)
Definition post_new (val waiters : Z) : Z :=
  if waiters <=? 1 then u32 (val + 1) .& SEM_VALUE_MAX else val + 1.

Definition sem_post (p : pc) (m : mem) : action pc mem :=
  match p with
  | PostVal => Run [(PostWaiters (val0 m), m)]
  | PostWaiters val =>
      Run [(if value val =? SEM_VALUE_MAX then Failed EOVERFLOW else PostCas val (val1 m), m)]
  | PostCas val waiters =>
      let '(old, v) := a_cas (val0 m) val (post_new val waiters) in
      if negb (old =? val) then Run [(PostVal, set0 m v)]
      else Run [(if (val <? 0) || negb (waiters =? 0) then PostWake (if 1 <? waiters then 1 else -1) else Posted,
                 posted (set0 m v))]
  | PostWake cnt => Wake (wake_count cnt) Posted
  | _ => Run []
  end.

(** [while (spins-- && ...)] *)
Definition spin_loop (tm : bool) (spins : Z) : pc :=
  if spins =? 0 then Try tm KLoop else SpinVal tm (spins - 1).

(** What the caller of [sem_trywait] does when it fails. *)
Definition unavailable (tm : bool) (k : site) : pc :=
  match k with
  | KTry => Failed EAGAIN
  | KFirst => spin_loop tm 100
  | KLoop => Inc tm
  end.

Definition sem_trywait (p : pc) (m : mem) : action pc mem :=
  match p with
  | Try tm k => Run [(if negb (value (val0 m) =? 0) then TryCas tm k (val0 m) else unavailable tm k, m)]
  | TryCas tm k val =>
      let '(old, v) := a_cas (val0 m) val (val - 1) in
      if old =? val then Run [(Got, taken (set0 m v))] else Run [(Try tm k, set0 m v)]
  | _ => Run []
  end.

(** [sem_timedwait] around [sem_trywait]; the wait may end by a timeout, an
    invalid deadline, a signal or a cancellation (125, ECANCELED, where it is
    masked; a thread that acts on it makes the same accesses and exits). *)
Definition sem_timedwait (p : pc) (m : mem) : action pc mem :=
  match p with
  | SpinVal tm spins =>
      Run [(if value (val0 m) =? 0 then SpinWaiters tm spins else Try tm KLoop, m)]
  | SpinWaiters tm spins =>
      Run [(if val1 m =? 0 then spin_loop tm spins else Try tm KLoop, m)]
  | Inc tm => let '(_, w) := a_fetch_add (val1 m) 1 in Run [(Mark tm, set1 m w)]
  | Mark tm => let '(_, v) := a_cas (val0 m) 0 WAITERS in Run [(Wait tm, set0 m v)]
  | Wait tm =>
      Run ((if val0 m =? WAITERS then Asleep tm else Dec tm 0, m)
           :: (Dec tm 125, m) :: if tm then [(Dec tm EINVAL, m); (Dec tm ETIMEDOUT, m)] else [])
  | Asleep tm =>
      Sleep (Dec tm 0) (Dec tm 0 :: Dec tm EINTR :: Dec tm 125 :: if tm then [Dec tm ETIMEDOUT] else [])
  | Dec tm r =>
      let '(_, w) := a_fetch_add (val1 m) (-1) in
      Run [(if negb (r =? 0) then Failed r else Try tm KLoop, set1 m w)]
  | _ => Run []
  end.

(** A thread outside may call any of the functions. *)
Definition sem_next (p : pc) (m : mem) : action pc mem :=
  match p with
  | Idle => Run [(PostVal, m); (Try false KTry, m); (Try false KFirst, m); (Try true KFirst, m)]
  | PostVal | PostWaiters _ | PostCas _ _ | PostWake _ => sem_post p m
  | Try _ _ | TryCas _ _ _ => sem_trywait p m
  | SpinVal _ _ | SpinWaiters _ _ | Inc _ | Mark _ | Wait _ | Asleep _ | Dec _ _ => sem_timedwait p m
  | Posted | Got | Failed _ => Run [(Idle, m)]
  end.
#[export] Instance sem_program : Program pc mem := sem_next.

(** [sem_init]: the result, [errno] and the words; [sem_getvalue]. *)
Definition sem_init (v : Z) : option mem := if SEM_VALUE_MAX <? v then None else Some (mkMem v 0 0 0).
Definition sem_getvalue (m : mem) : Z := value (val0 m).

(** ** The invariant *)

(** Counted in [__val[1]]. *)
Definition counted (p : pc) : Z := match p with Mark _ | Wait _ | Asleep _ | Dec _ _ => 1 | _ => 0 end.
Definition sleeps (p : pc) : Z := match p with Asleep _ => 1 | _ => 0 end.
(** About to wake every sleeper. *)
Definition wakes_all (p : pc) : Z := match p with PostWake cnt => if cnt <? 0 then 1 else 0 | _ => 0 end.
(** Bound to try for the value once more, or to wake a thread. *)
Definition alert (p : pc) : Z :=
  match p with
  | Try _ KLoop | TryCas _ KLoop _ | PostWake _ => 1
  | Dec _ r => if r =? 0 then 1 else 0
  | _ => 0
  end.

Definition local_ok (p : pc) : Prop :=
  match p with
  | PostCas val _ => - 2 ^ 31 <= val < 2 ^ 31 /\ value val < SEM_VALUE_MAX
  | PostWaiters val => - 2 ^ 31 <= val < 2 ^ 31
  | TryCas _ _ val => - 2 ^ 31 <= val < 2 ^ 31 /\ 0 < value val
  | PostWake cnt => cnt = 1 \/ cnt = -1
  | Dec _ r => r <> EAGAIN /\ r <> EOVERFLOW
  | _ => True
  end.

Record safe (v0 : Z) (m : mem) (ts : list pc) : Prop := {
  safe_bound : Z.of_nat (length ts) < 2 ^ 31 - 1;
  safe_word : - 2 ^ 31 <= val0 m < 2 ^ 31;
  safe_count : value (val0 m) = v0 + posts m - waits m;
  safe_waiters : val1 m = total counted ts;
  safe_local : Forall local_ok ts;
}.

(** While a thread sleeps, the flag is set or all sleepers are about to be
    woken; and there are at least as many threads on their way to the value
    as it is worth, or all are about to be woken. *)
Record watched (m : mem) (ts : list pc) : Prop := {
  watched_flag : 0 < total sleeps ts -> val0 m < 0 \/ 0 < total wakes_all ts;
  watched_alert : 0 < total sleeps ts -> value (val0 m) <= total alert ts \/ 0 < total wakes_all ts;
}.

(** ** Words and weights *)

Lemma value_spec v : - 2 ^ 31 <= v < 2 ^ 31 -> v < 0 /\ value v = v + 2 ^ 31 \/ 0 <= v /\ value v = v.
Proof. exact (low31_spec v). Qed.

Ltac weigh p := destruct p as [| | | |cnt|? []|? [] ?| | | | | | |? r| | |]; cbn;
  try destruct (cnt <? 0); try destruct (r =? 0); lia.
Lemma sem_counted_range p : sleeps p <= counted p <= 1.
Proof. weigh p. Qed.
Lemma sem_sleeps_range p : 0 <= sleeps p <= 1.
Proof. weigh p. Qed.
Lemma sem_alert_range p : wakes_all p <= alert p <= 1.
Proof. weigh p. Qed.
Lemma sem_all_range p : 0 <= wakes_all p <= 1.
Proof. weigh p. Qed.

(** The new value of a post, and whether the flag is left. *)
Lemma post_new_spec val waiters : - 2 ^ 31 <= val < 2 ^ 31 -> value val < SEM_VALUE_MAX ->
  - 2 ^ 31 <= post_new val waiters < 2 ^ 31 /\ value (post_new val waiters) = value val + 1 /\
  (0 <= post_new val waiters <-> 0 <= val \/ waiters <= 1).
Proof.
  intros Hr Hv. pose proof (value_spec val Hr). pose proof (value_spec (val + 1) ltac:(lia)) as H1.
  unfold post_new. destruct (Z.leb_spec waiters 1).
  - fold (value (val + 1)). pose proof (value_spec (value (val + 1)) ltac:(lia)). lia.
  - lia.
Qed.

(** What the sums satisfy in a safe state, for the thread at [p]. *)
Record sums (m : mem) (ts : list pc) (p : pc) : Prop := {
  sums_sleeps : 0 <= sleeps p <= total sleeps ts;
  sums_all : 0 <= wakes_all p <= total wakes_all ts;
  sums_alert : 0 <= alert p <= total alert ts;
  sums_counted : 0 <= counted p <= total counted ts;
  sums_small : total counted ts <= counted p + 2 ^ 31 - 3;
  sums_value : val0 m < 0 /\ value (val0 m) = val0 m + 2 ^ 31 \/ 0 <= val0 m /\ value (val0 m) = val0 m;
}.

Lemma sem_sums v0 m ts i p : safe v0 m ts -> ts !! i = Some p -> sums m ts p.
Proof.
  intros [Hb Hw _ _ _] Hi.
  assert (Ha : forall q, 0 <= alert q) by (intros q; pose proof (sem_alert_range q); pose proof (sem_all_range q); lia).
  assert (Hc : forall q, 0 <= counted q) by (intros q; pose proof (sem_counted_range q); pose proof (sem_sleeps_range q); lia).
  pose proof (total_lookup sleeps ts i p (fun q => proj1 (sem_sleeps_range q)) Hi).
  pose proof (total_lookup wakes_all ts i p (fun q => proj1 (sem_all_range q)) Hi).
  pose proof (total_lookup alert ts i p Ha Hi). pose proof (total_lookup counted ts i p Hc Hi).
  pose proof (total_room counted ts i p (fun q => proj2 (sem_counted_range q)) Hi).
  pose proof (sem_sleeps_range p). pose proof (sem_all_range p).
  split; try lia; [split; [apply Ha|lia]|split; [apply Hc|lia]|by apply value_spec].
Qed.

(** What one move establishes. *)
Record moved (m : mem) (ts : list pc) (p : pc) (m' : mem) (q : pc) : Prop := {
  moved_ok : local_ok q;
  moved_word : - 2 ^ 31 <= val0 m' < 2 ^ 31;
  moved_count : value (val0 m') - posts m' + waits m' = value (val0 m) - posts m + waits m;
  moved_waiters : val1 m' = total counted ts - counted p + counted q;
  moved_flag : watched m ts -> let S := total sleeps ts - sleeps p + sleeps q in
               let A := total wakes_all ts - wakes_all p + wakes_all q in
               0 < S -> (val0 m' < 0 \/ 0 < A) /\
                 (value (val0 m') <= total alert ts - alert p + alert q \/ 0 < A);
}.

Lemma moved_safe_sem v0 m ts i p m' q : safe v0 m ts -> ts !! i = Some p -> moved m ts p m' q ->
  safe v0 m' (<[i := q]> ts).
Proof.
  intros [Hb Hw Hc Hwa Hl] Hi []. split; rewrite ?length_insert, ?(total_insert _ _ _ _ _ Hi); try done; try lia.
  by apply Forall_insert.
Qed.

Lemma moved_watched_sem m ts i p m' q : ts !! i = Some p -> moved m ts p m' q -> watched m ts ->
  watched m' (<[i := q]> ts).
Proof.
  intros Hi [_ _ _ _ Hf] Hw. specialize (Hf Hw). cbn zeta in Hf.
  split; rewrite !(total_insert _ _ _ _ _ Hi); intros H; by apply Hf.
Qed.

Ltac weights :=
  cbn [local_ok counted sleeps wakes_all alert val0 val1 posts waits set0 set1 posted taken]; cbn zeta; tests.
Ltac close_move :=
  split; weights; weights; try done; try lia; try (left; lia); try (right; lia);
  try (intros [Hflag Halert] ?; lia).

Lemma sem_moved_run v0 m ts i p outs q m' : safe v0 m ts -> ts !! i = Some p ->
  sem_next p m = Run outs -> (q, m') ∈ outs -> moved m ts p m' q.
Proof.
  intros Hs Hi Hn Hq. pose proof (sem_sums v0 m ts i p Hs Hi) as [].
  pose proof (Forall_lookup_1 _ _ _ _ (safe_local _ _ _ Hs) Hi) as Hok.
  destruct Hs as [_ Hw Hc Hwa _].
  destruct p; cbn [sem_next sem_post sem_trywait sem_timedwait a_cas a_fetch_add] in Hn; try discriminate Hn;
    cbn [local_ok counted sleeps wakes_all alert] in *.
  - outcomes Hn Hq; close_move.
  - outcomes Hn Hq; close_move.
  - outcomes Hn Hq. pose proof (value_spec val Hok). tests; close_move.
  - destruct Hok as [Hr Hv]. pose proof (value_spec val Hr). pose proof (post_new_spec val waiters Hr Hv).
    destruct (Z.eqb_spec (val0 m) val) as [<-|]; cbn [negb] in Hn; outcomes Hn Hq; [|close_move].
    destruct (Z.ltb_spec (val0 m) 0), (Z.eqb_spec waiters 0), (Z.ltb_spec 1 waiters); close_move.
  - outcomes Hn Hq; tests; destruct k; unfold unavailable, spin_loop; close_move.
  - destruct Hok as [Hr Hv]. pose proof (value_spec val Hr). pose proof (value_spec (val - 1) ltac:(lia)).
    revert Hn; tests; intros Hn; outcomes Hn Hq; try subst val; destruct k; close_move.
  - outcomes Hn Hq; tests; close_move.
  - outcomes Hn Hq; unfold spin_loop; tests; close_move.
  - outcomes Hn Hq. rewrite sgn32_small by lia. close_move.
  - outcomes Hn Hq. pose proof (value_spec WAITERS). tests; close_move.
  - destruct tm; outcomes Hn Hq; tests; close_move.
  - outcomes Hn Hq. rewrite sgn32_small by lia. tests; close_move.
  - outcomes Hn Hq; close_move.
  - outcomes Hn Hq; close_move.
  - outcomes Hn Hq; close_move.
Qed.

Lemma sem_moved_back v0 m ts i tm q : safe v0 m ts -> ts !! i = Some (Asleep tm) ->
  (exists r, q = Dec tm r /\ r <> EAGAIN /\ r <> EOVERFLOW) -> moved m ts (Asleep tm) m q.
Proof.
  intros Hs Hi (r & -> & Hr). pose proof (sem_sums v0 m ts i _ Hs Hi) as [].
  destruct Hs as [_ Hw Hc Hwa _]. close_move.
Qed.

(** The control points that sleep, and where they go on; those that wake. *)
Ltac no_sleep p Hn := destruct p; try discriminate Hn; try (cbn in Hn; repeat case_match; discriminate Hn).
Lemma sem_sleep_inv p m back others q : sem_next p m = Sleep back others -> q = back \/ q ∈ others ->
  exists tm, p = Asleep tm /\ back = Dec tm 0 /\ exists r, q = Dec tm r /\ r <> EAGAIN /\ r <> EOVERFLOW.
Proof.
  intros Hn Hq. no_sleep p Hn. injection Hn as <- <-. exists tm. split; [done|]. split; [done|].
  destruct Hq as [->|Hq]; [by eexists|].
  destruct tm; rewrite !elem_of_cons, elem_of_nil in Hq; naive_solver.
Qed.

Lemma sem_wake_inv p m n back : sem_next p m = Wake n back ->
  exists cnt, p = PostWake cnt /\ n = wake_count cnt /\ back = Posted.
Proof. intros Hn. no_sleep p Hn. injection Hn as <- <-. by eexists. Qed.

Lemma sem_safe_preserved v0 : preserved (safe v0).
Proof.
  split.
  - intros m ts i p outs q m' Hs Hi Hn Hq. exact (moved_safe_sem _ _ _ _ _ _ _ Hs Hi (sem_moved_run _ _ _ _ _ _ _ _ Hs Hi Hn Hq)).
  - intros m ts i p back others q Hs Hi Hn Hq. destruct (sem_sleep_inv p m back others q Hn Hq) as (tm & -> & _ & Hr).
    exact (moved_safe_sem _ _ _ _ _ _ _ Hs Hi (sem_moved_back _ _ _ _ _ _ Hs Hi Hr)).
  - intros m ts i p n back Hs Hi Hn. destruct (sem_wake_inv p m n back Hn) as (cnt & -> & _ & ->).
    destruct Hs as [Hb Hw Hc Hwa Hl]. split; rewrite ?length_insert, ?(total_insert _ _ _ _ _ Hi); cbn; try done; try lia.
    by apply Forall_insert.
Qed.

(** FUTEX_WAKE of [n] threads puts as many on their way to the value, or leaves none asleep. *)
Lemma sem_woken m n ts ts' : woken m n ts ts' ->
  total wakes_all ts' = total wakes_all ts /\ total sleeps ts' <= total sleeps ts /\
  (total sleeps ts' = 0 \/
   total sleeps ts' = total sleeps ts - Z.max n 0 /\ total alert ts' = total alert ts + Z.max n 0).
Proof.
  induction 1 as [n ts [Hn|Hf]|n i p back others ts ts' Hn Hi Hp Hw IH]; [lia| |].
  - split; [done|]. split; [done|]. left. induction Hf as [|p ts Hp _ IH]; [done|]. cbn. rewrite IH. by destruct p.
  - destruct (sem_sleep_inv p m back others back Hp (or_introl eq_refl)) as (tm & -> & -> & _).
    rewrite !(total_insert _ _ _ _ _ Hi) in IH. cbn in IH. lia.
Qed.

(** A thread woken was asleep. *)
Lemma sem_woken_one m n ts ts' : 0 < n -> woken m n ts ts' -> 0 < total sleeps ts ->
  exists i tm, ts !! i = Some (Asleep tm) /\ ts' !! i = Some (Dec tm 0).
Proof.
  intros Hn. induction 1 as [n ts [|Hf]|n i p back others ts ts' _ Hi Hp Hw IH]; intros Hsl; [lia| |].
  - exfalso. enough (total sleeps ts = 0) by lia. clear Hn Hsl.
    induction Hf as [|p ts Hp _ IH]; [done|]. cbn. rewrite IH. by destruct p.
  - destruct (sem_sleep_inv p m back others back Hp (or_introl eq_refl)) as (tm & -> & -> & _).
    pose proof (lookup_lt_Some _ _ _ Hi) as Hlt. destruct (decide (0 < n - 1 /\ 0 < total sleeps (<[i := Dec tm 0]> ts))) as [[H1 H2]|H].
    + destruct (IH H1 H2) as (j & tm' & Hj & Hj'). exists j, tm'. split; [|done].
      destruct (decide (i = j)) as [<-|Hij]; [rewrite list_lookup_insert_eq in Hj by done; discriminate Hj|].
      by rewrite list_lookup_insert_ne in Hj.
    + exists i, tm. split; [done|]. clear IH. assert (Hi' := list_lookup_insert_eq ts i (Dec tm 0) Hlt).
      inversion Hw as [|n' i' p' back' others' ts1 ts2 Hn' Hi1 Hp' _]; subst; [done|]. exfalso. apply H. split; [done|].
      destruct (sem_sleep_inv p' m back' others' back' Hp' (or_introl eq_refl)) as (tm' & -> & _ & _).
      pose proof (total_lookup sleeps _ _ _ (fun q => proj1 (sem_sleeps_range q)) Hi1) as Hs. cbn in Hs. lia.
Qed.

Lemma sem_watched_step v0 lb s s' : step lb s s' -> safe v0 s.1 s.2 -> watched s.1 s.2 -> watched s'.1 s'.2.
Proof.
  destruct 1 as [i p outs q m m' ts Hi Hp Hq|i p n back m ts ts' Hi Hp Hw|i p back others q m ts Hi Hp Hq];
    cbn; intros Hs H.
  - exact (moved_watched_sem _ _ _ _ _ _ Hi (sem_moved_run _ _ _ _ _ _ _ _ Hs Hi Hp Hq) H).
  - destruct (sem_wake_inv p m n back Hp) as (cnt & -> & -> & ->).
    pose proof (Forall_lookup_1 _ _ _ _ (safe_local _ _ _ Hs) Hi) as Hc. cbn in Hc.
    pose proof (total_bound sleeps ts (fun q => proj2 (sem_sleeps_range q))). pose proof (safe_bound _ _ _ Hs).
    pose proof (total_nonneg sleeps ts' (fun q => proj1 (sem_sleeps_range q))).
    pose proof (sem_woken _ _ _ _ Hw) as Hwk. rewrite !(total_insert _ _ _ _ _ Hi) in Hwk. cbn in Hwk.
    destruct H as [Hf Ha]. unfold wake_count in Hwk. split; intros Hsl; destruct Hc as [-> | ->]; cbn in Hwk; lia.
  - destruct (sem_sleep_inv p m back others q Hp (or_intror Hq)) as (tm & -> & _ & Hr).
    exact (moved_watched_sem _ _ _ _ _ _ Hi (sem_moved_back _ _ _ _ _ _ Hs Hi Hr) H).
Qed.

(** Any number of threads outside a semaphore that [sem_init] set up. *)
Definition start (m : mem) (n : nat) : mem * list pc := (m, replicate n Idle).

Lemma sem_reachable_safe v m n s : Z.of_nat n < 2 ^ 31 - 1 -> 0 <= v -> sem_init v = Some m ->
  reachable (start m n) s -> safe v s.1 s.2 /\ watched s.1 s.2.
Proof.
  intros Hb Hv Hm. unfold sem_init in Hm. destruct (Z.ltb_spec SEM_VALUE_MAX v); [done|]. injection Hm as <-.
  induction 1 as [|lb s s' _ [IH1 IH2] Hs].
  - split; [|split; cbn; rewrite total_replicate; cbn; lia].
    pose proof (value_spec v ltac:(lia)).
    split; unfold start; cbn [fst snd val0 val1 posts waits]; rewrite ?length_replicate, ?total_replicate; cbn; rewrite ?Z.mul_0_r; try lia.
    by apply Forall_replicate.
  - split; [exact (step_preserved (safe v) lb s s' (sem_safe_preserved v) Hs IH1)|exact (sem_watched_step v lb s s' Hs IH1 IH2)].
Qed.

(** ** The counter that the semaphore implements *)

(** The operations that read or change the count, and what each does. *)
Inductive op := OPost | OFull | OWait | OEmpty.
Inductive does : option op -> Z -> Z -> Prop :=
  | does_post c : c < SEM_VALUE_MAX -> does (Some OPost) c (c + 1)
  | does_full : does (Some OFull) SEM_VALUE_MAX SEM_VALUE_MAX
  | does_wait c : 0 < c -> does (Some OWait) c (c - 1)
  | does_empty : does (Some OEmpty) 0 0
  | does_nothing c : does None c c.

(** The operation that takes effect when a thread goes from [p] to [q]:
    [OFull] when [sem_post] reads the value that makes it fail, [OEmpty]
    when [sem_trywait] does. *)
Definition effect (p q : pc) : option op :=
  match p, q with
  | PostCas _ _, (Posted | PostWake _) => Some OPost
  | PostVal, PostWaiters val => if value val =? SEM_VALUE_MAX then Some OFull else None
  | TryCas _ _ _, Got => Some OWait
  | Try _ _, TryCas _ _ _ => None
  | Try _ _, _ => Some OEmpty
  | _, _ => None
  end.

Lemma effect_run p m outs q m' : - 2 ^ 31 <= val0 m < 2 ^ 31 -> local_ok p -> sem_next p m = Run outs ->
  (q, m') ∈ outs -> does (effect p q) (value (val0 m)) (value (val0 m')) /\ (q = Got <-> effect p q = Some OWait).
Proof.
  intros Hr Hok Hn Hq. pose proof (value_spec _ Hr) as Hv.
  destruct p; cbn [sem_next sem_post sem_trywait sem_timedwait a_cas a_fetch_add] in Hn; try discriminate Hn;
    cbn [local_ok] in Hok.
  - outcomes Hn Hq; split; try done; constructor.
  - outcomes Hn Hq. cbn [effect]. destruct (Z.eqb_spec (value (val0 m)) SEM_VALUE_MAX) as [->|]; split; try done; constructor.
  - outcomes Hn Hq. tests; split; try done; constructor.
  - destruct Hok as [Hr' Hmax]. pose proof (post_new_spec val waiters Hr' Hmax) as (_ & Hnew & _).
    destruct (Z.eqb_spec (val0 m) val) as [<-|]; cbn [negb] in Hn; outcomes Hn Hq; [|split; [constructor|done]].
    cbn [val0 posted set0]. rewrite Hnew. destruct (_ || _); (split; [by constructor|done]).
  - outcomes Hn Hq. destruct (Z.eqb_spec (value (val0 m)) 0) as [->|]; cbn [negb effect];
      [destruct k; unfold unavailable, spin_loop; tests|]; split; try done; constructor.
  - destruct Hok as [Hr' Hpos]. pose proof (value_spec (val - 1) ltac:(pose proof (value_spec val Hr'); lia)).
    destruct (Z.eqb_spec (val0 m) val) as [<-|]; outcomes Hn Hq; [|split; [constructor|done]].
    cbn [val0 taken set0 effect]. replace (value (val0 m - 1)) with (value (val0 m) - 1) by lia. split; [by constructor|done].
  - outcomes Hn Hq. tests; split; try done; constructor.
  - outcomes Hn Hq. unfold spin_loop; tests; split; try done; constructor.
  - outcomes Hn Hq. split; [constructor|done].
  - outcomes Hn Hq. cbn [val0 set0]. destruct (Z.eqb_spec (val0 m) 0) as [->|]; split; try done; constructor.
  - destruct tm; outcomes Hn Hq; tests; split; try done; constructor.
  - outcomes Hn Hq. cbn [val0 set1]. tests; split; try done; constructor.
  - outcomes Hn Hq; split; try done; constructor.
  - outcomes Hn Hq; split; try done; constructor.
  - outcomes Hn Hq; split; try done; constructor.
Qed.

(** The operation that the result of a call at [p], returned or bound to be,
    reports: 0 of a post or a wait, EOVERFLOW, EAGAIN. *)
Definition reports (p : pc) : option op :=
  match p with
  | PostWaiters val => if value val =? SEM_VALUE_MAX then Some OFull else None
  | PostWake _ | Posted => Some OPost
  | Got => Some OWait
  | Failed r => if r =? EOVERFLOW then Some OFull else if r =? EAGAIN then Some OEmpty else None
  | _ => None
  end.
Definition returned (p : pc) : bool := match p with Posted | Got | Failed _ => true | _ => false end.

(** A step of a call: an operation that takes effect is the first that the call
    has to report, and it is reported (but that a wait goes on when it finds the
    counter empty); what is reported has taken effect, now or before; what is to
    be reported stays until the call returns; it returns with a result; the
    other errors are those of a wait. *)
Record call_step (p q : pc) : Prop := {
  call_effect : forall o, effect p q = Some o -> reports p = None /\ (o <> OEmpty -> reports q = Some o);
  call_reports : forall o, reports q = Some o -> effect p q = Some o \/ effect p q = None /\ reports p = Some o;
  call_kept : forall o, reports p = Some o -> reports q = Some o \/ returned p = true;
  call_returns : q = Idle -> returned p = true;
  call_fails : forall r, q = Failed r -> r = EOVERFLOW \/ r = EAGAIN \/ exists tm, p = Dec tm r;
}.

Ltac close_call := split; cbn [effect reports returned]; tests; try done; try congruence; intros; simplify_eq; try done; try lia; auto; eauto.
Lemma call_run p m outs q m' : local_ok p -> sem_next p m = Run outs -> (q, m') ∈ outs -> call_step p q.
Proof.
  intros Hok Hn Hq. destruct p; cbn [sem_next sem_post sem_trywait sem_timedwait a_cas a_fetch_add] in Hn; try discriminate Hn; cbn [local_ok] in Hok.
  all: try (outcomes Hn Hq; close_call; fail).
  - destruct (negb (val0 m =? val)); outcomes Hn Hq; [close_call|]. destruct (_ || _); close_call.
  - outcomes Hn Hq. destruct k; unfold unavailable, spin_loop; close_call.
  - destruct (val0 m =? val); outcomes Hn Hq; close_call.
  - outcomes Hn Hq. unfold spin_loop. close_call.
  - destruct tm; outcomes Hn Hq; close_call.
  - outcomes Hn Hq. assert (Hr : reports (Failed r) = None) by (cbn; tests; lia || done). close_call; congruence.
Qed.

(** The others stay where they are when threads are woken. *)
Lemma woken_stay m n ts ts' j p q : woken m n ts ts' -> ts !! j = Some p -> ts' !! j = Some q ->
  p = q \/ exists tm, p = Asleep tm /\ q = Dec tm 0.
Proof.
  intros Hw. revert p. induction Hw as [n ts|n i p' back others ts ts' _ Hi Hp Hw IH]; intros p Hj Hj'; [left; congruence|].
  destruct (sem_sleep_inv p' m back others back Hp (or_introl eq_refl)) as (tm & -> & -> & _).
  destruct (decide (i = j)) as [->|Hij]; [|by apply IH; [rewrite list_lookup_insert_ne|]].
  assert (p = Asleep tm) as -> by congruence. right. exists tm. split; [done|].
  destruct (IH (Dec tm 0)) as [<-|(? & [=] & _)]; [by eapply list_lookup_insert_eq, lookup_lt_Some|done|done].
Qed.

Lemma call_back tm r : r <> EAGAIN /\ r <> EOVERFLOW -> call_step (Asleep tm) (Dec tm r).
Proof. intros H. close_call. Qed.

(** Whatever step is made, each thread stays where it is or goes on with its call. *)
Lemma call_steps v0 l s s' j p q : safe v0 s.1 s.2 -> step l s s' -> s.2 !! j = Some p -> s'.2 !! j = Some q -> p = q \/ call_step p q.
Proof.
  intros Hs. destruct 1 as [i p0 outs q0 m m' ts Hi Hn Hq|i p0 n back m ts ts' Hi Hn Hw|i p0 back others q0 m ts Hi Hn Hq]; cbn [fst snd] in *; intros Hj Hj'.
  - apply list_lookup_insert_Some in Hj' as [(-> & <- & _)|[_ Hj']]; [|left; congruence].
    assert (p = p0) as -> by congruence. right. eapply call_run; [|done..]. exact (Forall_lookup_1 _ _ _ _ (safe_local _ _ _ Hs) Hj).
  - destruct (sem_wake_inv p0 m n back Hn) as (cnt & -> & _ & ->). destruct (decide (i = j)) as [->|Hij].
    + assert (p = PostWake cnt) as -> by congruence. right.
      destruct (woken_stay _ _ _ _ j Posted q Hw) as [<-|(? & [=] & _)]; [by eapply list_lookup_insert_eq, lookup_lt_Some|done|close_call].
    + destruct (woken_stay _ _ _ _ j p q Hw) as [->|(tm & -> & ->)]; [by rewrite list_lookup_insert_ne|done|by left|right; by apply call_back].
  - apply list_lookup_insert_Some in Hj' as [(-> & <- & _)|[_ Hj']]; [|left; congruence].
    assert (p = p0) as -> by congruence. destruct (sem_sleep_inv p0 m back others q0 Hn (or_intror Hq)) as (tm & -> & _ & r & -> & Hr). right. by apply call_back.
Qed.

(** C34: [sem_post], [sem_trywait], [sem_timedwait] and [sem_wait] on a
    semaphore that [sem_init] set up refine an atomic counter. In every
    reachable state of any number of threads the value is the initial one
    plus the posts minus the waits that succeeded, between 0 and
    SEM_VALUE_MAX, and [__val[1]] is the number of threads between its
    increment and its decrement. Every step of a thread does to the value
    what the counter does: a post adds one below SEM_VALUE_MAX, a wait takes
    one above 0, a post finds SEM_VALUE_MAX or a wait finds 0, and nothing else
    changes it; wake-ups, timeouts and signals do not touch the words. And
    every result is that of an operation that took effect during the call,
    once: 0 from a post that added one, 0 from a wait that took one, EOVERFLOW
    from a post that found SEM_VALUE_MAX, EAGAIN from a [sem_trywait] that
    found 0; what took effect is what is returned. *)
Theorem sem_refines_counter v m n s : Z.of_nat n < 2 ^ 31 - 1 -> 0 <= v -> sem_init v = Some m ->
  reachable (start m n) s ->
  sem_getvalue s.1 = v + posts s.1 - waits s.1 /\ 0 <= sem_getvalue s.1 <= SEM_VALUE_MAX /\
  val1 s.1 = total counted s.2 /\
  forall l s', step l s s' ->
    match l with
    | LRun i => exists p q, s.2 !! i = Some p /\ s'.2 !! i = Some q /\
                  does (effect p q) (sem_getvalue s.1) (sem_getvalue s'.1) /\
                  (q = Got <-> effect p q = Some OWait)
    | LWake _ | LReturn _ => s'.1 = s.1
    end /\
    forall j p q, s.2 !! j = Some p -> s'.2 !! j = Some q -> p = q \/ call_step p q.
Proof.
  intros Hb Hv Hm Hr. destruct (sem_reachable_safe v m n s Hb Hv Hm Hr) as [Hs _]. pose proof Hs as [_ Hw Hc Hwa Hl].
  unfold sem_getvalue. pose proof (value_spec _ Hw). do 3 (split; [lia|]).
  intros l s' Hst. split; [|intros j p q; by apply (call_steps v l)].
  inversion Hst as [i p outs q m0 m' ts Hi Hp Hq| |]; subst; [|done|done].
  cbn [fst snd] in *. exists p, q. split; [done|]. split; [by eapply list_lookup_insert_eq, lookup_lt_Some|].
  exact (effect_run p m0 outs q m' Hw (Forall_lookup_1 _ _ _ _ Hl Hi) Hp Hq).
Qed.

(** ** Progress *)

(** Thread [j] sleeps, is bound to try for the value, or is about to wake others. *)
Definition engaged (ts : list pc) (j : nat) : Prop := exists q, ts !! j = Some q /\ 0 < sleeps q + alert q.

(** One of the threads of [who] is at [Got] after at most [k] moves of theirs. *)
Definition gets (who : nat -> Prop) (k : nat) (m : mem) (ts : list pc) : Prop :=
  exists j m' ts', (j <= k)%nat /\ run who j (m, ts) (m', ts') /\ exists i, who i /\ ts' !! i = Some Got.

(** One move towards it. *)
Lemma gets_move who k m ts i p q m' : who i -> ts !! i = Some p -> next p m = Run [(q, m')] ->
  gets who k m' (<[i := q]> ts) -> gets who (S k) m ts.
Proof.
  intros Hi Hp Hn (j & m2 & ts' & Hj & Hrun & Hg). exists (S j), m2, ts'. split; [lia|]. split; [|done].
  eapply run_app with (j := 1%nat); [|exact Hrun]. eapply run_one; [exact Hi|exact Hp|exact Hn|by apply list_elem_of_singleton].
Qed.

Lemma gets_now (who : nat -> Prop) k m ts i : who i -> ts !! i = Some Got -> gets who k m ts.
Proof. intros Hw Hi. exists O, m, ts. split; [lia|]. split; [constructor|by exists i]. Qed.

Lemma try_gets (who : nat -> Prop) m ts i tm k : who i -> ts !! i = Some (Try tm k) -> 0 < value (val0 m) -> gets who 2 m ts.
Proof.
  intros Hw Hi Hv. pose proof (lookup_lt_Some _ _ _ Hi) as Hlt.
  apply (gets_move who 1 m ts i _ (TryCas tm k (val0 m)) m Hw Hi).
  { unfold next, sem_program. cbn [sem_next sem_trywait]. tests; [lia|done]. }
  eapply (gets_move who 0 m _ i _ Got _ Hw (list_lookup_insert_eq _ _ _ Hlt)).
  { unfold next, sem_program. cbn [sem_next sem_trywait a_cas]. by rewrite Z.eqb_refl. }
  eapply gets_now; [exact Hw|]; by eapply list_lookup_insert_eq; rewrite length_insert.
Qed.

(** A thread bound to try for a positive value gets it, or is about to wake others. *)
Lemma alert_gets (who : nat -> Prop) m ts i p : who i -> 0 < value (val0 m) -> ts !! i = Some p -> 0 < alert p ->
  gets who 3 m ts \/ exists cnt, p = PostWake cnt.
Proof.
  intros Hw Hv Hi Ha. pose proof (lookup_lt_Some _ _ _ Hi) as Hlt.
  destruct p as [| | | |cnt|tm []|tm [] val| | | | | | |tm r| | |]; cbn [alert] in Ha; try lia; [by right; eexists|left..].
  - destruct (try_gets who m ts i tm KLoop Hw Hi Hv) as (j & m' & ts' & Hj & H). exists j, m', ts'. split; [lia|done].
  - destruct (decide (val0 m = val)) as [<-|Hne].
    + eapply (gets_move who 2 m ts i _ Got _ Hw Hi).
      { unfold next, sem_program. cbn [sem_next sem_trywait a_cas]. by rewrite Z.eqb_refl. }
      eapply gets_now; [exact Hw|]; by eapply list_lookup_insert_eq.
    + eapply (gets_move who 2 m ts i _ (Try tm KLoop) _ Hw Hi).
      { unfold next, sem_program. cbn [sem_next sem_trywait a_cas]. by rewrite (proj2 (Z.eqb_neq _ _) Hne). }
      by eapply (try_gets who _ _ i _ _ Hw (list_lookup_insert_eq _ _ _ Hlt)).
  - eapply (gets_move who 2 m ts i _ (Try tm KLoop) _ Hw Hi).
    { unfold next, sem_program. cbn [sem_next sem_timedwait a_fetch_add].
      destruct (r =? 0); [reflexivity|lia]. }
    by eapply (try_gets who _ _ i _ _ Hw (list_lookup_insert_eq _ _ _ Hlt)).
Qed.

(** C16: no wake-up is lost. In every reachable state with a thread asleep in
    [sem_timedwait] while the value is positive, the threads asleep, bound to
    try for the value or about to wake others can take at most four steps, no
    futex wait returning without a wake-up, after which one of them has
    decremented the value and its wait returns 0. *)
Theorem sem_progress v m n s i tm : Z.of_nat n < 2 ^ 31 - 1 -> 0 <= v -> sem_init v = Some m ->
  reachable (start m n) s -> s.2 !! i = Some (Asleep tm) -> 0 < sem_getvalue s.1 ->
  gets (engaged s.2) 4 s.1 s.2.
Proof.
  intros Hb Hv Hm Hr Hi Hpos. destruct (sem_reachable_safe v m n s Hb Hv Hm Hr) as [Hs [_ Ha]].
  destruct s as [m0 ts]; cbn [fst snd] in *. unfold sem_getvalue in Hpos. clear Hm Hr.
  pose proof (total_lookup sleeps ts i _ (fun q => proj1 (sem_sleeps_range q)) Hi) as Hsl. cbn in Hsl.
  pose proof (total_le wakes_all alert ts (fun q => proj1 (sem_alert_range q))).
  destruct (total_pos alert ts ltac:(lia)) as (j & p & Hj & Hp). pose proof (sem_sleeps_range p).
  assert (Hjw : engaged ts j) by (exists p; split; [done|lia]).
  destruct (alert_gets (engaged ts) m0 ts j p Hjw Hpos Hj Hp) as [(k & m' & ts' & Hk & Hgot)|[cnt ->]];
    [exists k, m', ts'; split; [lia|done]|].
  pose proof (Forall_lookup_1 _ _ _ _ (safe_local _ _ _ Hs) Hj) as Hc. cbn in Hc.
  destruct (woken_exists m0 (wake_count cnt) (<[j := Posted]> ts)) as [ts1 Hts1].
  pose proof (total_insert sleeps ts j _ Posted Hj) as Hsl1. cbn in Hsl1.
  assert (Hcnt : 0 < wake_count cnt) by (destruct Hc as [-> | ->]; cbn; lia).
  destruct (sem_woken_one m0 _ _ _ Hcnt Hts1 ltac:(lia)) as (j1 & tm1 & Hj0 & Hj1).
  assert (Hj1w : engaged ts j1).
  { rewrite list_lookup_insert_Some in Hj0. destruct Hj0 as [[_ [Hj0 _]]|[_ Hj0]]; [discriminate Hj0|].
    eexists. split; [exact Hj0|]. cbn. lia. }
  destruct (alert_gets (engaged ts) m0 ts1 j1 _ Hj1w Hpos Hj1 Z.lt_0_1) as [(k & m' & ts' & Hk & Hrun & Hg)|[? [=]]].
  exists (S k), m', ts'. split; [lia|]. split; [|done].
  eapply run_cons; [right; reflexivity|exact Hjw| |exact Hrun].
  exact (step_wake j _ _ _ m0 ts ts1 Hj eq_refl Hts1).
Qed.

(** Thread 0 waits, spins, sets the flag and falls asleep; thread 1 posts and
    is about to wake it. *)
Definition waiting : list (nat * nat) := (0, 2)%nat :: replicate 205 (0, 0)%nat.
Definition posting : list (nat * nat) := waiting ++ (1, 0)%nat :: replicate 3 (1, 0)%nat.
Definition fresh : mem := mkMem 0 0 0 0.
Definition waiter : mem * list pc := default (start fresh 2) (sched waiting (start fresh 2)).
Definition poster : mem * list pc := default (start fresh 2) (sched posting (start fresh 2)).

Lemma waiter_reachable : reachable (start fresh 2) waiter.
Proof. apply (sched_reachable (start fresh 2) waiting (start fresh 2) waiter (reachable_refl _)). vm_compute. reflexivity. Qed.
Lemma poster_reachable : reachable (start fresh 2) poster.
Proof. apply (sched_reachable (start fresh 2) posting (start fresh 2) poster (reachable_refl _)). vm_compute. reflexivity. Qed.

Lemma sem_refines_counter_witness :
  waiter.2 = [Asleep false; Idle] /\ sem_getvalue waiter.1 = 0 /\ val1 waiter.1 = 1.
Proof.
  assert (Hb : Z.of_nat 2 < 2 ^ 31 - 1) by (cbn; lia).
  assert (Hv : 0 <= 0) by lia.
  assert (Hm : sem_init 0 = Some fresh) by reflexivity.
  destruct (sem_refines_counter 0 fresh 2 waiter Hb Hv Hm waiter_reachable) as (Hc & _ & Hw & _).
  split; [vm_compute; reflexivity|]. rewrite Hc, Hw. split; vm_compute; reflexivity.
Defined.

Lemma sem_progress_witness :
  poster.2 = [Asleep false; PostWake (-1)] /\ gets (engaged poster.2) 4 poster.1 poster.2.
Proof.
  assert (Hb : Z.of_nat 2 < 2 ^ 31 - 1) by (cbn; lia).
  assert (Hv : 0 <= 0) by lia.
  assert (Hm : sem_init 0 = Some fresh) by reflexivity.
  assert (Hi : poster.2 !! 0%nat = Some (Asleep false)) by (vm_compute; reflexivity).
  assert (Hpos : 0 < sem_getvalue poster.1) by (vm_compute; reflexivity).
  split; [vm_compute; reflexivity|].
  exact (sem_progress 0 fresh 2 poster 0 false Hb Hv Hm poster_reachable Hi Hpos).
Defined.
