(* ===== verification/Once.v ===== *)
(** * Once: one-time initialisation, src/src/thread/pthread_once.c.

    [pthread_once] on one [int] by any number of threads, the calls of [init]
    that are cancelled included: [init] returns at most once, no call returns
    before it has, and no wake-up is lost, although the word does not say who
    waits once it is reset or marked done. *)

From S2P Require Import Prelude Futex.

(** ** Data: the shared word and the control points *)

(** [control] is the word. The others only count, for the statements: calls
    of [init] that began, that returned, and that were cancelled. *)
Record mem := mkMem { control : Z; begun : Z; returned : Z; cancelled : Z }.
Definition set_control (m : mem) (v : Z) : mem := mkMem v (begun m) (returned m) (cancelled m).

(** Each constructor is the point before one atomic access. *)
Inductive pc :=
  | Idle                (* outside *)
  | Once                (* about to test *control == 2 *)
  | Enter               (* about to a_cas(control, 0, 1) *)
  | Init                (* in init() *)
  | Finish              (* about to a_swap(control, 2) *)
  | WakeDone            (* about to __wake(control, -1, 1), then return *)
  | Undo                (* cancelled: about to a_swap(control, 0) *)
  | WakeUndone          (* the same, about to __wake(control, -1, 1) *)
  | Mark                (* about to a_cas(control, 1, 3) *)
  | Spin (spins : Z)    (* in __wait, about to test *addr==val in the first loop *)
  | Test                (* in __wait, about to test *addr==val in the second *)
  | Wait                (* about to enter FUTEX_WAIT *)
  | Asleep              (* in the kernel *)
  | Returned            (* __pthread_once returned 0 *)
  | Gone.               (* the cancelled thread, its handler run *)

(** ** Operations *)

(** The head of the first loop of [__wait], called with no [waiters]. *)
Definition spin_loop (spins : Z) : pc := if spins =? 0 then Test else Spin (spins - 1).

Definition wait (p : pc) (m : mem) : action pc mem :=
  match p with
  | Spin spins => Run [(if control m =? 3 then spin_loop spins else Enter, m)]
  | Test => Run [(if control m =? 3 then Wait else Enter, m)]
  | Wait => Run [(if control m =? 3 then Asleep else Test, m)]
  | Asleep => Sleep Test [Test]
  | _ => Run []
  end.

Definition undo (p : pc) (m : mem) : action pc mem :=
  match p with
  | Undo =>
      let '(old, v) := a_swap (control m) 0 in
      Run [(if old =? 3 then WakeUndone else Gone, set_control m v)]
  | WakeUndone => Wake (wake_count (-1)) Gone
  | _ => Run []
  end.

(** [init] is the caller's: it returns or the thread is cancelled in it. *)
Definition once_full (p : pc) (m : mem) : action pc mem :=
  match p with
  | Enter =>
      let '(old, v) := a_cas (control m) 0 1 in
      Run [if old =? 0 then (Init, mkMem v (begun m + 1) (returned m) (cancelled m))
           else if old =? 1 then (Mark, set_control m v)
           else if old =? 3 then (spin_loop 100, set_control m v)
           else if old =? 2 then (Returned, set_control m v)
           else (Enter, set_control m v)]
  | Init => Run [(Finish, mkMem (control m) (begun m) (returned m + 1) (cancelled m));
                 (Undo, mkMem (control m) (begun m) (returned m) (cancelled m + 1))]
  | Finish =>
      let '(old, v) := a_swap (control m) 2 in
      Run [(if old =? 3 then WakeDone else Returned, set_control m v)]
  | WakeDone => Wake (wake_count (-1)) Returned
  | Mark =>
      let '(_, v) := a_cas (control m) 1 3 in
      Run [(spin_loop 100, set_control m v)]
  | Undo | WakeUndone => undo p m
  | _ => wait p m
  end.

Definition once (p : pc) (m : mem) : action pc mem :=
  match p with
  | Once => Run [(if control m =? 2 then Returned else Enter, m)]
  | _ => once_full p m
  end.

(** A thread may call [pthread_once] again after it returned. *)
Definition once_next (p : pc) (m : mem) : action pc mem :=
  match p with
  | Idle | Returned => Run [(Once, m)]
  | Gone => Run []
  | _ => once p m
  end.
#[export] Instance once_program : Program pc mem := once_next.

(** [n] threads outside, the word as PTHREAD_ONCE_INIT leaves it. *)
Definition init (n : nat) : mem * list pc := (mkMem 0 0 0 0, replicate n Idle).

(** ** The invariant *)

(** Has the word: in [init], or bound to reset the word. *)
Definition runs (p : pc) : Z := match p with Init | Finish | Undo => 1 | _ => 0 end.
Definition inits (p : pc) : Z := match p with Init => 1 | _ => 0 end.
Definition finishes (p : pc) : Z := match p with Finish => 1 | _ => 0 end.
(** Past the initialisation. *)
Definition past (p : pc) : Z := match p with WakeDone | Returned => 1 | _ => 0 end.
Definition sleeps (p : pc) : Z := match p with Asleep => 1 | _ => 0 end.
Definition wakes (p : pc) : Z := match p with WakeDone | WakeUndone => 1 | _ => 0 end.

(** The first loop of [__wait] runs at most a hundred times. *)
Definition spins_ok (p : pc) : Prop := match p with Spin s => 0 <= s < 100 | _ => True end.

(** The word says which: 0 nobody runs [init], 1 and 3 one thread does, 2 it returned. *)
Record safe (m : mem) (ts : list pc) : Prop := {
  safe_bound : Z.of_nat (length ts) < 2 ^ 31;
  safe_local : Forall spins_ok ts;
  safe_word : (control m = 0 \/ control m = 2) /\ total runs ts = 0 \/
              (control m = 1 \/ control m = 3) /\ total runs ts = 1;
  safe_returned : returned m = total finishes ts + if control m =? 2 then 1 else 0;
  safe_begun : begun m = returned m + cancelled m + total inits ts;
  safe_past : control m = 2 \/ total past ts = 0;
  safe_watched : control m = 3 \/ total sleeps ts = 0 \/ 0 < total wakes ts;
}.

(** ** Weights *)
Ltac weigh p := destruct p; cbn; lia.
Lemma runs_range p : 0 <= inits p + finishes p <= runs p /\ runs p <= 1.
Proof. weigh p. Qed.
Lemma inits_nonneg p : 0 <= inits p.
Proof. weigh p. Qed.
Lemma finishes_nonneg p : 0 <= finishes p.
Proof. weigh p. Qed.
Lemma runs_nonneg p : 0 <= runs p.
Proof. weigh p. Qed.
Lemma past_nonneg p : 0 <= past p.
Proof. weigh p. Qed.
Lemma once_sleeps_range p : 0 <= sleeps p <= 1.
Proof. weigh p. Qed.
Lemma wakes_nonneg p : 0 <= wakes p.
Proof. weigh p. Qed.

(** What the sums satisfy, for the thread at [p]. *)
Record sums (ts : list pc) (p : pc) : Prop := {
  sums_runs : runs p <= total runs ts;
  sums_inits : inits p <= total inits ts;
  sums_finishes : finishes p <= total finishes ts;
  sums_both : inits p + finishes p - runs p + total runs ts >= total inits ts + total finishes ts;
  sums_past : past p <= total past ts;
  sums_sleeps : sleeps p <= total sleeps ts;
  sums_wakes : wakes p <= total wakes ts;
}.

Lemma total_runs ts : total inits ts + total finishes ts <= total runs ts.
Proof. induction ts as [|p ts IH]; cbn; [lia|]. pose proof (runs_range p). lia. Qed.

Lemma once_sums ts i p : ts !! i = Some p -> sums ts p.
Proof.
  intros Hi. pose proof (total_runs (<[i := Idle]> ts)) as Hr.
  rewrite !(total_insert _ _ _ _ _ Hi) in Hr; cbn in Hr.
  split; try (apply total_lookup with i; [|done]; intros q; weigh q). lia.
Qed.

(** ** The moves of the program *)

(** What one move of the thread from [p] to [q] must establish. *)
Record moved (m : mem) (ts : list pc) (p : pc) (m' : mem) (q : pc) : Prop := {
  moved_ok : spins_ok q;
  moved_word : (control m' = 0 \/ control m' = 2) /\ total runs ts - runs p + runs q = 0 \/
               (control m' = 1 \/ control m' = 3) /\ total runs ts - runs p + runs q = 1;
  moved_returned : returned m' = total finishes ts - finishes p + finishes q + if control m' =? 2 then 1 else 0;
  moved_begun : begun m' = returned m' + cancelled m' + (total inits ts - inits p + inits q);
  moved_past : control m' = 2 \/ total past ts - past p + past q = 0;
  moved_watched : control m' = 3 \/ total sleeps ts - sleeps p + sleeps q = 0
                  \/ 0 < total wakes ts - wakes p + wakes q;
}.

Lemma once_moved_safe m ts i p m' q : safe m ts -> ts !! i = Some p -> moved m ts p m' q ->
  safe m' (<[i := q]> ts).
Proof.
  intros [Hb Hl _ _ _ _ _] Hi [].
  split; rewrite ?length_insert, ?(total_insert _ _ _ _ _ Hi); try done.
  by apply Forall_insert.
Qed.

Lemma once_moved_run m ts i p outs q m' : safe m ts -> ts !! i = Some p ->
  once_next p m = Run outs -> (q, m') ∈ outs -> moved m ts p m' q.
Proof.
  intros Hs Hi Hn Hq. pose proof (once_sums ts i p Hi) as [].
  pose proof (Forall_lookup_1 _ _ _ _ (safe_local _ _ Hs) Hi) as Hok.
  pose proof (total_nonneg inits ts inits_nonneg). pose proof (total_nonneg finishes ts finishes_nonneg).
  destruct Hs as [_ _ Hw Hr Hb Hp Hwt].
  destruct p; cbn [once_next once once_full undo wait a_cas a_swap] in Hn; try discriminate Hn;
    cbn [spins_ok runs inits finishes past sleeps wakes] in *; revert Hn; tests; intros Hn;
    outcomes Hn Hq; unfold spin_loop; tests;
    (split; cbn [spins_ok runs inits finishes past sleeps wakes control begun returned cancelled set_control];
     revert Hr; tests; lia).
Qed.

Lemma once_sleep_inv p m back others q : once_next p m = Sleep back others -> q = back \/ q ∈ others ->
  p = Asleep /\ q = Test.
Proof.
  intros Hn Hq. destruct p; cbn in Hn; try discriminate Hn; repeat case_match; try discriminate Hn.
  injection Hn as <- <-. split; [done|]. by destruct Hq as [|?%list_elem_of_singleton].
Qed.

Lemma once_wake_inv p m n back : once_next p m = Wake n back ->
  n = 2 ^ 31 - 1 /\ (p = WakeDone /\ back = Returned \/ p = WakeUndone /\ back = Gone).
Proof. intros Hn. destruct p; cbn in Hn; try discriminate Hn; repeat case_match; try discriminate Hn; injection Hn as <- <-; auto. Qed.

(** A wake-up of everyone leaves nobody asleep and changes nothing else. *)
Lemma once_woken m n ts ts' : woken m n ts ts' -> total sleeps ts <= n ->
  total sleeps ts' = 0 /\ (forall f, f Asleep = f Test -> total f ts' = total f ts) /\
  (Forall spins_ok ts -> Forall spins_ok ts') /\ length ts' = length ts /\
  (forall i p, ts !! i = Some p -> ts' !! i = Some (match p with Asleep => Test | _ => p end)).
Proof.
  induction 1 as [n ts Hd|n i p back others ts ts' _ Hi Hp Hw IH]; intros Hn.
  - assert (Hz : total sleeps ts = 0).
    { pose proof (total_nonneg sleeps ts (fun q => proj1 (once_sleeps_range q))).
      destruct Hd as [Hd|Hd]; [lia|]. clear Hn H. induction Hd as [|q ts Hq _ IH]; [done|]. cbn. rewrite IH. by destruct q. }
    split; [done|]. do 3 (split; [done|]). intros j q Hj.
    pose proof (total_lookup sleeps ts j q (fun q => proj1 (once_sleeps_range q)) Hj). destruct q; cbn in *; try done; lia.
  - destruct (once_sleep_inv p m back others back Hp (or_introl eq_refl)) as [-> ->].
    destruct IH as (H0 & Hf & Hs & Hl & Hj); [rewrite (total_insert _ _ _ _ _ Hi); cbn; lia|].
    split; [done|]. split; [|split; [|split]].
    + intros f E. rewrite (Hf f E), (total_insert _ _ _ _ _ Hi). lia.
    + intros H. by apply Hs, Forall_insert.
    + by rewrite Hl, length_insert.
    + intros j q Hq. destruct (decide (i = j)) as [<-|Hij].
      * rewrite Hi in Hq. injection Hq as <-.
        exact (Hj i Test (list_lookup_insert_eq _ _ _ (lookup_lt_Some _ _ _ Hi))).
      * apply Hj. by rewrite list_lookup_insert_ne.
Qed.

(** The step of a waker: it goes on, and every sleeper with it. *)
Lemma once_wake_step m ts i p n back ts' : Z.of_nat (length ts) < 2 ^ 31 -> ts !! i = Some p ->
  once_next p m = Wake n back -> woken m n (<[i := back]> ts) ts' ->
  total sleeps ts' = 0 /\
  (forall f, f Asleep = f Test -> total f ts' = total f ts - f p + f back) /\
  (Forall spins_ok ts -> Forall spins_ok ts') /\ length ts' = length ts /\
  (forall j q, (<[i := back]> ts) !! j = Some q -> ts' !! j = Some (match q with Asleep => Test | _ => q end)).
Proof.
  intros Hb Hi Hn Hw. destruct (once_wake_inv p m n back Hn) as [-> Hp].
  pose proof (total_bound sleeps (<[i := back]> ts) (fun q => proj2 (once_sleeps_range q))) as Ht.
  rewrite length_insert in Ht.
  destruct (once_woken _ _ _ _ Hw ltac:(lia)) as (H0 & Hf & Hs & Hl & Hj).
  split; [done|]. split; [|split; [|split]]; [| |by rewrite Hl, length_insert|done].
  - intros f E. by rewrite (Hf f E), (total_insert _ _ _ _ _ Hi).
  - intros H. apply Hs, Forall_insert; [done|]. by destruct Hp as [[_ ->]|[_ ->]].
Qed.

Lemma once_safe_step lb s s' : step lb s s' -> safe s.1 s.2 -> safe s'.1 s'.2.
Proof.
  destruct 1 as [i p outs q m m' ts Hi Hp Hq|i p n back m ts ts' Hi Hp Hw|i p back others q m ts Hi Hp Hq];
    cbn; intros Hs.
  - exact (once_moved_safe _ _ _ _ _ _ Hs Hi (once_moved_run _ _ _ _ _ _ _ Hs Hi Hp Hq)).
  - destruct (once_wake_step m ts i p n back ts' (safe_bound _ _ Hs) Hi Hp Hw) as (H0 & Hf & Hl & Hlen & _).
    pose proof (once_sums ts i p Hi) as []. destruct (once_wake_inv p m n back Hp) as [_ Hp'].
    destruct Hs as [Hb Hloc Hw' Hr Hbg Hpa Hwt].
    split; rewrite ?(Hf runs eq_refl), ?(Hf finishes eq_refl), ?(Hf inits eq_refl), ?(Hf past eq_refl), ?Hlen; auto;
      destruct Hp' as [[-> ->]|[-> ->]]; cbn in *; lia.
  - destruct (once_sleep_inv p m back others q Hp (or_intror Hq)) as [-> ->].
    apply (once_moved_safe _ _ _ _ _ _ Hs Hi). pose proof (once_sums ts i Asleep Hi) as [].
    destruct Hs. split; cbn in *; auto; lia.
Qed.

Lemma once_reachable_safe n s : Z.of_nat n < 2 ^ 31 -> reachable (init n) s -> safe s.1 s.2.
Proof.
  intros Hn. induction 1 as [|lb s s' _ IH Hs]; [|exact (once_safe_step lb s s' Hs IH)].
  unfold init. split; cbn [fst snd control begun returned cancelled];
    rewrite ?length_replicate, ?total_replicate; cbn; try lia. by apply Forall_replicate.
Qed.

(** ** Progress *)

(** In a call of [pthread_once], [init] not included. *)
Definition waiting (p : pc) : bool :=
  match p with Idle | Returned | Gone | Init | Undo | WakeUndone => false | _ => true end.
(** Has something to do for itself or for the others, and is not in [init]. *)
Definition active (ts : list pc) (j : nat) : Prop :=
  exists q, ts !! j = Some q /\ (waiting q = true \/ q = Undo \/ q = WakeUndone).
(** The outcome a waiting thread is owed: it returned, or [init] is its to run. *)
Definition settled (p : pc) : Prop := p = Returned \/ p = Init.

Lemma settles_enter (who : nat -> Prop) i m ts : who i -> control m = 0 \/ control m = 2 -> ts !! i = Some Enter ->
  settles settled who 1 i (m, ts).
Proof.
  intros Hw Hc Hi. destruct m as [c b r x]; cbn in Hc. destruct Hc as [-> | ->]; eapply settles_self; try done;
    intros ts' H; eapply settles_now; try exact H; [by right|by left].
Qed.

(** The moves an awake thread needs while nobody has the word. *)
Definition moves_left (p : pc) : nat :=
  match p with Enter => 1 | Once | Spin _ | Test => 2 | Mark | Wait => 3 | _ => 0 end.

Lemma settles_awake (who : nat -> Prop) m ts i p : who i -> control m = 0 \/ control m = 2 -> ts !! i = Some p ->
  (0 < moves_left p)%nat -> settles settled who (moves_left p) i (m, ts).
Proof.
  intros Hw. destruct m as [c b r x].
  assert (Hent : forall ts, c = 0 \/ c = 2 -> ts !! i = Some Enter -> settles settled who 1 i (mkMem c b r x, ts))
    by (intros; by apply settles_enter).
  assert (Ht : forall ts, c = 0 \/ c = 2 -> ts !! i = Some Test -> settles settled who 2 i (mkMem c b r x, ts)).
  { intros ts' [-> | ->] Hi; (eapply settles_self; [done|done|reflexivity|]); auto. }
  assert (Hs : forall ts s, c = 0 \/ c = 2 -> ts !! i = Some (Spin s) -> settles settled who 2 i (mkMem c b r x, ts)).
  { intros ts' s [-> | ->] Hi; (eapply settles_self; [done|done|reflexivity|]); auto. }
  intros Hc Hi Hp. cbn in Hc. destruct p; cbn in Hp; try lia; cbn [moves_left]; eauto.
  - destruct Hc as [-> | ->]; (eapply settles_self; [done|done|reflexivity|]); intros; [auto|].
    eapply settles_now; [done|by left].
  - destruct Hc as [-> | ->]; (eapply settles_self; [done|done|reflexivity|]); intros ts' H; exact (Hs ts' 99 ltac:(auto) H).
  - destruct Hc as [-> | ->]; (eapply settles_self; [done|done|reflexivity|]); auto.
Qed.

(** While nobody has the word, every waiting thread can settle. *)
Lemma settles_quiet (who : nat -> Prop) m ts i p : safe m ts -> (forall j, active ts j -> who j) ->
  control m = 0 \/ control m = 2 -> ts !! i = Some p -> waiting p = true \/ p = Returned -> settles settled who 3 i (m, ts).
Proof.
  intros Hs Hw Hc Hi Hp. destruct Hp as [Hp| ->]; [|by eapply settles_now; [done|left]].
  pose proof (once_sums ts i p Hi) as []. assert (Hr : total runs ts = 0) by (destruct Hs; lia).
  pose proof (total_nonneg wakes ts wakes_nonneg).
  destruct (decide (0 < moves_left p)%nat) as [Hm|Hm].
  - apply (settles_le _ who (moves_left p)); [destruct p; cbn; lia|].
    apply (settles_awake who m ts i p); try done. apply Hw. exists p. auto.
  - assert (Hex : exists j q, ts !! j = Some q /\ wakes q = 1 /\ (i = j \/ p = Asleep)).
    { destruct p; cbn in *; try discriminate Hp; try lia.
      - exists i, WakeDone. auto.
      - destruct (total_pos wakes ts) as (j & q & Hj & Hq); [destruct Hs; lia|].
        exists j, q. destruct q; cbn in Hq |- *; auto; lia. }
    destruct Hex as (j & q & Hj & Hq & Hij).
    assert (Hn : exists back, next q m = Wake (2 ^ 31 - 1) back).
    { destruct q; try discriminate Hq; by eexists. }
    destruct Hn as [back Hn]. destruct (woken_exists m (2 ^ 31 - 1) (<[j := back]> ts)) as [ts' Hwk].
    apply (settles_step _ who 2 i j (LWake j) _ (m, ts')); [by right| |by apply (step_wake j q (2 ^ 31 - 1) back)|].
    + apply Hw. exists q. destruct q; try discriminate Hq; cbn; auto.
    + destruct (once_wake_step m ts j q _ back ts' (safe_bound _ _ Hs) Hj Hn Hwk) as (_ & _ & _ & _ & Hl).
      destruct (decide (i = j)) as [<-|Hne].
      * specialize (Hl i back (list_lookup_insert_eq _ _ _ (lookup_lt_Some _ _ _ Hi))).
        rewrite Hi in Hj. injection Hj as <-. destruct p; try discriminate Hp; try discriminate Hq.
        injection Hn as <-. by eapply settles_now; [exact Hl|left].
      * destruct Hij as [| ->]; [done|]. specialize (Hl i Asleep). rewrite list_lookup_insert_ne in Hl by done.
        apply (settles_awake who m ts' i Test); [|done|by apply Hl|cbn; lia].
        apply Hw. exists Asleep. auto.
Qed.

(** The swap that resets the word or marks it done, and the threads it leaves. *)
Lemma settles_release m ts i j p q : safe m ts -> ts !! i = Some p -> waiting p = true ->
  ts !! j = Some q -> q = Finish \/ q = Undo -> settles settled (active ts) 4 i (m, ts).
Proof.
  intros Hs Hi Hp Hj Hq.
  assert (Hn : exists q' m', next q m = Run [(q', m')] /\ (control m' = 0 \/ control m' = 2) /\
    (q = Finish -> waiting q' = true \/ q' = Returned)).
  { destruct Hq as [-> | ->]; eexists _, _; (split; [reflexivity|]); (split; [cbn; auto|]); [|done].
    intros _. destruct (control m =? 3); auto. }
  destruct Hn as (q' & m' & Hn & Hc & Hf).
  assert (Hst : step (LRun j) (m, ts) (m', <[j := q']> ts))
    by (apply (step_run j q _ q' m m' ts Hj Hn); by apply list_elem_of_singleton).
  assert (Hact : active ts j) by (exists q; destruct Hq as [-> | ->]; cbn; auto).
  apply (settles_step _ _ 3 i j (LRun j) _ _ (or_introl eq_refl) Hact Hst).
  assert (Hwho : forall k, active (<[j := q']> ts) k -> active ts k).
  { intros k (r & Hk & Hra). destruct (decide (j = k)) as [<-|Hk']; [done|].
    rewrite list_lookup_insert_ne in Hk by done. by exists r. }
  destruct (decide (i = j)) as [<-|Hij].
  - rewrite Hi in Hj. injection Hj as <-. destruct Hq as [-> | ->]; [|discriminate Hp].
    apply (settles_quiet _ _ _ i q' (once_safe_step _ _ _ Hst Hs) Hwho Hc); auto.
    apply list_lookup_insert_eq, (lookup_lt_Some _ _ _ Hi).
  - apply (settles_quiet _ _ _ i p (once_safe_step _ _ _ Hst Hs) Hwho Hc); [cbn|by left].
    by rewrite list_lookup_insert_ne.
Qed.

(** After [init] returned nothing calls it again. *)
Lemma once_done_step lb s s' : step lb s s' -> safe s.1 s.2 -> returned s.1 = 1 ->
  returned s'.1 = 1 /\ begun s'.1 = begun s.1.
Proof.
  destruct 1 as [i p outs q m m' ts Hi Hp Hq| |]; cbn; intros Hs Hd; [|done|done].
  pose proof (once_sums ts i p Hi) as []. pose proof (total_nonneg inits ts inits_nonneg).
  destruct Hs as [_ _ Hw Hr _ _ _].
  destruct p; cbn [next once_program once_next once once_full undo wait a_cas a_swap] in Hp; try discriminate Hp;
    cbn [runs inits finishes past sleeps wakes] in *; revert Hp; tests; intros Hp; outcomes Hp Hq;
    cbn [begun returned set_control]; revert Hr; tests; lia.
Qed.

Lemma once_done_reachable s s' : safe s.1 s.2 -> returned s.1 = 1 -> reachable s s' ->
  returned s'.1 = 1 /\ begun s'.1 = begun s.1.
Proof.
  intros Hs Hd Hr. assert (H : safe s'.1 s'.2 /\ returned s'.1 = 1 /\ begun s'.1 = begun s.1); [|by destruct H].
  induction Hr as [|lb s1 s2 _ (IH & Hd1 & Hb1) Hst]; [done|].
  split; [exact (once_safe_step lb s1 s2 Hst IH)|]. destruct (once_done_step lb s1 s2 Hst IH Hd1) as [Hd2 Hb2].
  split; [done|congruence].
Qed.

(** ** Theorems *)

(** C11: one initialisation. Whatever the interleaving of any number of
    threads (fewer than 2^31) and whichever calls of [init] are cancelled: at
    most one thread is in [init] at a time; [init] returns at most once, and
    from then on it is never called again; every call that began has
    returned, was cancelled or is running; no [pthread_once] returns before
    [init] has returned; and the word is 2 exactly from the store that
    follows, 0 exactly while nobody runs [init] before that. *)
Theorem once_correct n s : Z.of_nat n < 2 ^ 31 -> reachable (init n) s ->
  (forall i j, s.2 !! i = Some Init -> s.2 !! j = Some Init -> i = j) /\
  0 <= returned s.1 <= 1 /\
  begun s.1 = returned s.1 + cancelled s.1 + total inits s.2 /\
  (forall i p, s.2 !! i = Some p -> past p = 1 -> returned s.1 = 1 /\ control s.1 = 2) /\
  (returned s.1 = 1 -> total inits s.2 = 0 /\
     forall s', reachable s s' -> returned s'.1 = 1 /\ begun s'.1 = begun s.1) /\
  (control s.1 = 2 <-> returned s.1 = 1 /\ total runs s.2 = 0) /\
  (control s.1 = 0 <-> returned s.1 = 0 /\ total runs s.2 = 0).
Proof.
  intros Hn Hr. pose proof (once_reachable_safe n s Hn Hr) as Hs. pose proof Hs as [_ _ Hw Hret Hb Hp _].
  pose proof (total_runs s.2). pose proof (total_nonneg inits s.2 inits_nonneg).
  pose proof (total_nonneg finishes s.2 finishes_nonneg).
  split; [|split; [|split; [done|split; [|split; [|split]]]]].
  - intros i j Hi Hj. apply (total_unique inits s.2 i j Init Init inits_nonneg); [lia|done..].
  - revert Hret. tests; lia.
  - intros i p Hi Hpast. pose proof (total_lookup past s.2 i p past_nonneg Hi).
    revert Hret; tests; lia.
  - intros Hd. split; [revert Hret; tests; lia|]. intros s'. by apply once_done_reachable.
  - revert Hret; tests; lia.
  - revert Hret; tests; lia.
Qed.

(** C12: no wake-up is lost. In every reachable state in which a thread is
    inside [pthread_once], asleep or not, either some thread is running
    [init], or at most four moves of the threads that have such moves, none
    of them in [init] and no futex wait returning without a wake-up, make
    that very thread return, or enter [init] when the call it waited for was
    cancelled. *)
Theorem once_progress n s i p : Z.of_nat n < 2 ^ 31 -> reachable (init n) s ->
  s.2 !! i = Some p -> waiting p = true ->
  (exists j, s.2 !! j = Some Init) \/ settles settled (active s.2) 4 i s.
Proof.
  intros Hn Hr Hi Hp. pose proof (once_reachable_safe n s Hn Hr) as Hs. destruct s as [m ts]; cbn [fst snd] in *.
  destruct (decide (control m = 0 \/ control m = 2)) as [Hc|Hc].
  { right. apply (settles_le _ _ 3); [lia|]. apply (settles_quiet _ m ts i p Hs); auto. }
  destruct (total_pos runs ts) as (j & q & Hj & Hq); [destruct Hs; lia|].
  destruct q; cbn in Hq; try lia; [left; by exists j|right..]; eapply settles_release; eauto.
Qed.

(** Thread 0 is in [init]; 1 finds it there, marks the word, spins and falls asleep. *)
Definition initializing : list (nat * nat) := replicate 3 (0, 0)%nat ++ replicate 106 (1, 0)%nat.
(** Then [init] returns in thread 0, which is about to wake thread 1. *)
Definition initialized : list (nat * nat) := initializing ++ replicate 2 (0, 0)%nat.
(** Or it is cancelled, and its handler is about to. *)
Definition abandoned : list (nat * nat) := initializing ++ [(0, 1); (0, 0)]%nat.
Definition after (is_ : list (nat * nat)) : mem * list pc := default (init 3) (sched is_ (init 3)).

Lemma after_reachable is_ : is_Some (sched is_ (init 3)) -> reachable (init 3) (after is_).
Proof.
  intros [s Hs]. unfold after. rewrite Hs. exact (sched_reachable (init 3) is_ (init 3) s (reachable_refl _) Hs).
Qed.

Lemma once_correct_witness :
  (after initialized).2 = [WakeDone; Asleep; Idle] /\ returned (after initialized).1 = 1.
Proof.
  assert (Hr : reachable (init 3) (after initialized)) by (apply after_reachable; vm_compute; by eexists).
  assert (E : (after initialized).2 = [WakeDone; Asleep; Idle]) by (vm_compute; reflexivity).
  split; [exact E|].
  destruct (once_correct 3 (after initialized) ltac:(cbn; lia) Hr) as (_ & _ & _ & H & _).
  refine (proj1 (H O WakeDone _ eq_refl)). rewrite E. reflexivity.
Defined.

Lemma once_progress_witness :
  (after abandoned).2 = [WakeUndone; Asleep; Idle] /\ control (after abandoned).1 = 0 /\
  settles settled (active (after abandoned).2) 4 1 (after abandoned).
Proof.
  assert (Hr : reachable (init 3) (after abandoned)) by (apply after_reachable; vm_compute; by eexists).
  assert (E : (after abandoned).2 = [WakeUndone; Asleep; Idle]) by (vm_compute; reflexivity).
  split; [exact E|]. split; [vm_compute; reflexivity|].
  assert (Hi : (after abandoned).2 !! 1%nat = Some Asleep) by (rewrite E; reflexivity).
  destruct (once_progress 3 (after abandoned) 1 Asleep ltac:(cbn; lia) Hr Hi eq_refl) as [[j Hj]|H]; [|exact H].
  exfalso. rewrite E in Hj. destruct j as [|[|[|j]]]; discriminate Hj.
Defined.
