(* ===== verification/Mutex.v ===== *)
(** * Mutex: the mutexes of type PTHREAD_MUTEX_NORMAL, src/src/thread/pthread_mutex_*.c.

    [_m_lock] is 0, EBUSY, or EBUSY with a flag for waiters in its sign bit;
    [_m_waiters] counts the threads that are about to sleep or asleep. Mutual
    exclusion and the encoding of the words, and that no wake-up is lost, for
    any number of threads. The owner-tracking types, which keep a robust list,
    are not modelled: the tests of [_m_type] are decided. *)

From S2P Require Import Prelude Futex.

(** ** Data *)

Record mem := mkMem { m_lock : Z; m_waiters : Z }.

(** Where [pthread_mutex_trylock] was called: by the caller itself, first in
    [pthread_mutex_timedlock], or in its loop. *)
Inductive site := KTry | KFirst | KLoop.

(** The points before each atomic access; [tm] tells a call with a deadline. *)
Inductive pc :=
  | Idle
  | Lock                              (* pthread_mutex_lock: a_cas(&_m_lock, 0, EBUSY) *)
  | TimedLock (tm : bool)             (* pthread_mutex_timedlock: the same *)
  | Try (tm : bool) (k : site)        (* pthread_mutex_trylock: the same *)
  | SpinLock (tm : bool) (spins : Z)  (* spin loop: about to read _m_lock *)
  | SpinWaiters (tm : bool) (spins : Z)
  | Read (tm : bool)                  (* loop: r = _m_lock *)
  | Inc (tm : bool) (r : Z)           (* a_inc(&_m_waiters) *)
  | Mark (tm : bool) (r t : Z)        (* a_cas(&_m_lock, r, t) *)
  | Wait (tm : bool) (t : Z)          (* __timedwait(&_m_lock, t, ...) *)
  | Asleep (tm : bool) (t : Z)
  | Dec (tm : bool) (r : Z)           (* a_dec(&_m_waiters) *)
  | Failed (r : Z)                    (* returned r <> 0 *)
  | Held                              (* returned 0 *)
  | Unlock                            (* waiters = _m_waiters *)
  | Swap (waiters : Z)                (* cont = a_swap(&_m_lock, 0) *)
  | WakeOne.                          (* __wake(&_m_lock, 1, priv) *)

(** ** Operations *)

(** [r & 0x3fffffff] *)
Definition own (r : Z) : Z := u32 r .& 0x3fffffff.
(** [t = r | 0x80000000], back in an [int]. *)
Definition marked (r : Z) : Z := sgn 32 (u32 r .| 0x80000000).

(** [while (spins-- && ...)] *)
Definition spin_loop (tm : bool) (spins : Z) : pc :=
  if spins =? 0 then Try tm KLoop else SpinLock tm (spins - 1).

(** What the caller of [pthread_mutex_trylock] does with its result. *)
Definition tried (tm : bool) (k : site) (r : Z) : pc :=
  if r =? 0 then Held
  else match k with
       | KTry => Failed r
       | KFirst => if negb (r =? EBUSY) then Failed r else spin_loop tm 100
       | KLoop => if r =? EBUSY then Read tm else Failed r
       end.

Definition mutex_lock (p : pc) (m : mem) : action pc mem :=
  match p with
  | Lock =>
      let '(old, v) := a_cas (m_lock m) 0 EBUSY in
      Run [(if old =? 0 then Held else TimedLock false, mkMem v (m_waiters m))]
  | _ => Run []
  end.

Definition mutex_trylock (p : pc) (m : mem) : action pc mem :=
  match p with
  | Try tm k =>
      let '(old, v) := a_cas (m_lock m) 0 EBUSY in
      Run [(tried tm k (u32 old .& EBUSY), mkMem v (m_waiters m))]
  | _ => Run []
  end.

(** [__timedwait]: [__futex4] sleeps only if the word is still [t]. *)
Definition timedwait (p : pc) (m : mem) : action pc mem :=
  match p with
  | Wait tm t =>
      Run ((if m_lock m =? t then Asleep tm t else Dec tm 0, m)
           :: if tm then [(Dec tm EINVAL, m); (Dec tm ETIMEDOUT, m)] else [])
  | Asleep tm t =>
      Sleep (Dec tm 0) (Dec tm 0 :: Dec tm EINTR :: if tm then [Dec tm ETIMEDOUT] else [])
  | _ => Run []
  end.

Definition mutex_timedlock (p : pc) (m : mem) : action pc mem :=
  match p with
  | TimedLock tm =>
      let '(old, v) := a_cas (m_lock m) 0 EBUSY in
      Run [(if old =? 0 then Held else Try tm KFirst, mkMem v (m_waiters m))]
  | SpinLock tm spins => Run [(if m_lock m =? 0 then Try tm KLoop else SpinWaiters tm spins, m)]
  | SpinWaiters tm spins => Run [(if m_waiters m =? 0 then spin_loop tm spins else Try tm KLoop, m)]
  | Read tm =>
      let r := m_lock m in
      Run [(if (own r =? 0) && (r =? 0) then Try tm KLoop else Inc tm r, m)]
  | Inc tm r =>
      let '(_, w) := a_fetch_add (m_waiters m) 1 in Run [(Mark tm r (marked r), mkMem (m_lock m) w)]
  | Mark tm r t =>
      let '(_, v) := a_cas (m_lock m) r t in Run [(Wait tm t, mkMem v (m_waiters m))]
  | Dec tm r =>
      let '(_, w) := a_fetch_add (m_waiters m) (-1) in
      Run [(if negb (r =? 0) && negb (r =? EINTR) then Failed r else Try tm KLoop, mkMem (m_lock m) w)]
  | _ => timedwait p m
  end.

Definition mutex_unlock (p : pc) (m : mem) : action pc mem :=
  match p with
  | Unlock => Run [(Swap (m_waiters m), m)]
  | Swap waiters =>
      let '(cont, v) := a_swap (m_lock m) 0 in
      Run [(if negb (waiters =? 0) || (cont <? 0) then WakeOne else Idle, mkMem v (m_waiters m))]
  | WakeOne => Wake (wake_count 1) Idle
  | _ => Run []
  end.

(** A thread outside calls any of the locking functions; a thread that has the mutex unlocks it. *)
Definition mutex_next (p : pc) (m : mem) : action pc mem :=
  match p with
  | Idle => Run [(Lock, m); (TimedLock true, m); (TimedLock false, m); (Try false KTry, m)]
  | Lock => mutex_lock p m
  | Try _ _ => mutex_trylock p m
  | Failed _ => Run [(Idle, m)]
  | Held => Run [(Unlock, m)]
  | Unlock | Swap _ | WakeOne => mutex_unlock p m
  | _ => mutex_timedlock p m
  end.
#[export] Instance mutex_program : Program pc mem := mutex_next.

(** PTHREAD_MUTEX_INITIALIZER, or [pthread_mutex_init] without attributes. *)
Definition init (n : nat) : mem * list pc := (mkMem 0 0, replicate n Idle).

(** ** The invariant *)

(** EBUSY with the flag, as an [int]. *)
Notation "'FLAGGED'" := (-2147483632).

(** Has the mutex: from the CAS that takes it to the swap that releases it. *)
Definition holds (p : pc) : Z := match p with Held | Unlock | Swap _ => 1 | _ => 0 end.
(** Counted in [_m_waiters]. *)
Definition counted (p : pc) : Z := match p with Mark _ _ _ | Wait _ _ | Asleep _ _ | Dec _ _ => 1 | _ => 0 end.
Definition sleeps (p : pc) : Z := match p with Asleep _ _ => 1 | _ => 0 end.
(** Is releasing the mutex and found no waiters. *)
Definition blind (p : pc) : Z := match p with Swap waiters => if waiters =? 0 then 1 else 0 | _ => 0 end.
(** Bound to try the mutex once more, or to wake another. *)
Definition alert (p : pc) : Z :=
  match p with
  | Try _ KLoop | WakeOne => 1
  | Dec _ r => if (r =? 0) || (r =? EINTR) then 1 else 0
  | _ => 0
  end.

Definition local_ok (p : pc) : Prop :=
  match p with
  | SpinLock _ s | SpinWaiters _ s => 0 <= s < 100
  | Inc _ r => r = EBUSY \/ r = FLAGGED
  | Mark _ r t => (r = EBUSY \/ r = FLAGGED) /\ t = FLAGGED
  | Wait _ t | Asleep _ t => t = FLAGGED
  | Dec tm r => r = 0 \/ r = EINTR \/ tm = true /\ (r = EINVAL \/ r = ETIMEDOUT)
  | Failed r => r = EBUSY \/ r = EINVAL \/ r = ETIMEDOUT
  | _ => True
  end.

Record safe (m : mem) (ts : list pc) : Prop := {
  safe_bound : Z.of_nat (length ts) < 2 ^ 31;
  safe_word : m_lock m = 0 /\ total holds ts = 0 \/
              (m_lock m = EBUSY \/ m_lock m = FLAGGED) /\ total holds ts = 1;
  safe_waiters : m_waiters m = total counted ts;
  safe_local : Forall local_ok ts;
}.

(** No lost wake-up: with a thread asleep and the mutex free, one is bound to
    try it or to wake another; and a thread that is releasing it without
    having seen waiters will see the flag. *)
Record watched (m : mem) (ts : list pc) : Prop := {
  watched_free : m_lock m = 0 -> 0 < total sleeps ts -> 0 < total alert ts;
  watched_blind : 0 < total blind ts -> 0 < total sleeps ts -> m_lock m = FLAGGED;
}.

(** ** Weights *)
Ltac weigh p := destruct p as [| | |? []| | | | | | | |? r| | | |w|]; cbn; try destruct (_ =? 0); try destruct (_ =? _); cbn; lia.
Lemma mx_holds_range p : blind p <= holds p <= 1.
Proof. weigh p. Qed.
Lemma mx_holds_nonneg p : 0 <= holds p.
Proof. weigh p. Qed.
Lemma mx_blind_nonneg p : 0 <= blind p.
Proof. weigh p. Qed.
Lemma mx_counted_range p : sleeps p <= counted p <= 1.
Proof. weigh p. Qed.
Lemma mx_counted_nonneg p : 0 <= counted p.
Proof. weigh p. Qed.
Lemma mx_sleeps_nonneg p : 0 <= sleeps p.
Proof. weigh p. Qed.
Lemma mx_alert_nonneg p : 0 <= alert p.
Proof. weigh p. Qed.

(** What the sums satisfy, for the thread at [p]. *)
Record sums (ts : list pc) (p : pc) : Prop := {
  sums_holds : holds p <= total holds ts;
  sums_counted : counted p <= total counted ts;
  sums_small : total counted ts <= counted p + Z.of_nat (length ts) - 1;
  sums_sleeps : sleeps p <= total sleeps ts;
  sums_asleep : total sleeps ts <= total counted ts;
  sums_blind : blind p <= total blind ts;
  sums_blinded : blind p - holds p + total holds ts >= total blind ts;
  sums_alert : alert p <= total alert ts;
}.

Lemma mx_sums ts i p : ts !! i = Some p -> sums ts p.
Proof.
  intros Hi.
  pose proof (total_le blind holds (<[i := Idle]> ts) (fun q => proj1 (mx_holds_range q))) as Hb.
  rewrite !(total_insert _ _ _ _ _ Hi) in Hb; cbn in Hb.
  split; try (apply total_lookup with i; [|done]; intros q; weigh q); [| |lia].
  - exact (total_room counted ts i p (fun q => proj2 (mx_counted_range q)) Hi).
  - exact (total_le sleeps counted ts (fun q => proj1 (mx_counted_range q))).
Qed.

(** ** The moves of the program *)

(** What one move of the thread from [p] to [q] establishes. *)
Record moved (m : mem) (ts : list pc) (p : pc) (m' : mem) (q : pc) : Prop := {
  moved_word : m_lock m' = 0 /\ total holds ts - holds p + holds q = 0 \/
    (m_lock m' = EBUSY \/ m_lock m' = FLAGGED) /\ total holds ts - holds p + holds q = 1;
  moved_waiters : m_waiters m' = total counted ts - counted p + counted q;
  moved_local : local_ok q;
  moved_free : watched m ts -> m_lock m' = 0 -> 0 < total sleeps ts - sleeps p + sleeps q ->
    0 < total alert ts - alert p + alert q;
  moved_blind : watched m ts -> 0 < total blind ts - blind p + blind q ->
    0 < total sleeps ts - sleeps p + sleeps q -> m_lock m' = FLAGGED;
}.

Lemma mx_moved_safe m ts i p m' q : safe m ts -> ts !! i = Some p -> moved m ts p m' q -> safe m' (<[i := q]> ts).
Proof.
  intros [Hb _ _ Hl] Hi []. split; rewrite ?length_insert, ?(total_insert _ _ _ _ _ Hi); try done.
  by apply Forall_insert.
Qed.

Lemma mx_moved_watched m ts i p m' q : ts !! i = Some p -> moved m ts p m' q -> watched m ts ->
  watched m' (<[i := q]> ts).
Proof.
  intros Hi [_ _ _ Hf Hb] Hw. split; rewrite !(total_insert _ _ _ _ _ Hi); auto.
Qed.

Ltac mx_weights :=
  cbn [local_ok counted sleeps holds blind alert m_lock m_waiters].
(** Closes the goals of [moved] once the outcome is known. *)
Ltac mx_close :=
  split; mx_weights; tests; mx_weights; try done; try lia;
  try (intros [Hfree Hblind]; mx_weights; tests; lia).

Lemma tried_0 tm k : tried tm k 0 = Held.
Proof. done. Qed.
Lemma tried_EBUSY tm k : tried tm k EBUSY =
  match k with KTry => Failed EBUSY | KFirst => SpinLock tm 99 | KLoop => Read tm end.
Proof. by destruct k. Qed.

Lemma mx_moved_run m ts i p outs q m' : safe m ts -> ts !! i = Some p ->
  mutex_next p m = Run outs -> (q, m') ∈ outs -> moved m ts p m' q.
Proof.
  intros Hs Hi Hn Hq. pose proof (mx_sums ts i p Hi) as [].
  pose proof (Forall_lookup_1 _ _ _ _ (safe_local _ _ Hs) Hi) as Hok.
  pose proof (total_nonneg blind ts mx_blind_nonneg). pose proof (total_nonneg sleeps ts mx_sleeps_nonneg).
  destruct Hs as [Hbound Hw Hc _].
  destruct p; cbn [mutex_next mutex_lock mutex_trylock mutex_timedlock timedwait mutex_unlock a_cas a_swap a_fetch_add] in Hn;
    try discriminate Hn; cbn [local_ok holds counted sleeps blind alert] in *.
  - outcomes Hn Hq; mx_close.
  - outcomes Hn Hq; tests; mx_close.
  - outcomes Hn Hq; tests; mx_close.
  - assert (Hr : m_lock m = 0 /\ u32 (m_lock m) .& EBUSY = 0 \/ m_lock m <> 0 /\ u32 (m_lock m) .& EBUSY = EBUSY)
      by (destruct Hw as [[-> _]|[[-> | ->] _]]; [left|right..]; done).
    outcomes Hn Hq; destruct Hr as [[Hl ->]|[Hl ->]]; rewrite ?tried_0, ?tried_EBUSY; destruct k; mx_close.
  - outcomes Hn Hq; tests; mx_close.
  - outcomes Hn Hq; unfold spin_loop; tests; mx_close.
  - assert (E : (own (m_lock m) =? 0) && (m_lock m =? 0) = (m_lock m =? 0))
      by (destruct Hw as [[-> _]|[[-> | ->] _]]; reflexivity).
    outcomes Hn Hq. rewrite E. tests; mx_close.
  - assert (Ht : marked r = FLAGGED) by (destruct Hok as [-> | ->]; vm_compute; reflexivity).
    outcomes Hn Hq. rewrite sgn32_small by lia. mx_close.
  - outcomes Hn Hq; mx_close.
  - destruct tm; outcomes Hn Hq; tests; mx_close.
  - outcomes Hn Hq; tests; (rewrite sgn32_small by lia); mx_close.
  - outcomes Hn Hq; mx_close.
  - outcomes Hn Hq; mx_close.
  - outcomes Hn Hq; mx_close.
  - outcomes Hn Hq; tests; mx_close.
Qed.

Ltac no_sleep p Hn := destruct p; try discriminate Hn; try (cbn in Hn; repeat case_match; discriminate Hn).
Lemma mx_sleep_inv p m back others q : mutex_next p m = Sleep back others -> q = back \/ q ∈ others ->
  exists tm t r, p = Asleep tm t /\ back = Dec tm 0 /\ q = Dec tm r /\ local_ok q.
Proof.
  intros Hn Hq. no_sleep p Hn. injection Hn as <- <-. exists tm, t.
  destruct Hq as [->|Hq]; [exists 0; cbn; auto|].
  destruct tm; rewrite !elem_of_cons, elem_of_nil in Hq; naive_solver.
Qed.

Lemma mx_wake_inv p m n back : mutex_next p m = Wake n back -> p = WakeOne /\ n = 1 /\ back = Idle.
Proof. intros Hn. no_sleep p Hn. by injection Hn as <- <-. Qed.

Lemma mx_moved_back m ts i p back others q : safe m ts -> ts !! i = Some p ->
  mutex_next p m = Sleep back others -> q = back \/ q ∈ others -> moved m ts p m q.
Proof.
  intros Hs Hi Hn Hq. destruct (mx_sleep_inv p m back others q Hn Hq) as (tm & t & r & -> & _ & -> & Hr).
  pose proof (mx_sums ts i _ Hi) as []. destruct Hs as [_ Hw Hc _]. cbn in * |-. mx_close; exact Hr.
Qed.

(** FUTEX_WAKE of one thread sends a sleeper back to try the mutex, if there is one. *)
Lemma mx_woken m ts ts' : woken m 1 ts ts' ->
  total sleeps ts = 0 /\ ts' = ts \/
  exists i tm t, ts !! i = Some (Asleep tm t) /\ ts' = <[i := Dec tm 0]> ts.
Proof.
  inversion 1 as [n ? [Hn|Hf]|n i p back others ? ? _ Hi Hp Hw]; subst; [lia|left|right].
  - split; [|done]. clear H. induction Hf as [|p ts' Hp _ IH]; [done|]. cbn. rewrite IH. by destruct p.
  - destruct (mx_sleep_inv p m back others back Hp (or_introl eq_refl)) as (tm & t & r & -> & -> & _).
    exists i, tm, t. split; [done|]. inversion Hw; subst; [done|lia].
Qed.

(** The step of a waker. *)
Lemma mx_wake_step m ts i p n back ts' : safe m ts -> ts !! i = Some p -> mutex_next p m = Wake n back ->
  woken m n (<[i := back]> ts) ts' ->
  safe m ts' /\ p = WakeOne /\
  (total sleeps ts = 0 /\ ts' = <[i := Idle]> ts \/
   exists j tm t, i <> j /\ ts !! j = Some (Asleep tm t) /\ ts' = <[j := Dec tm 0]> (<[i := Idle]> ts)).
Proof.
  intros Hs Hi Hn Hw. destruct (mx_wake_inv p m n back Hn) as (-> & -> & ->).
  assert (H1 : safe m (<[i := Idle]> ts)).
  { destruct Hs. split; rewrite ?length_insert, ?(total_insert _ _ _ _ _ Hi); cbn; try done; try lia. by apply Forall_insert. }
  destruct (mx_woken m _ _ Hw) as [[Hz ->]|(j & tm & t & Hj & ->)].
  - rewrite (total_insert _ _ _ _ _ Hi) in Hz; cbn in Hz. split; [done|]. split; [done|]. left. split; [lia|done].
  - split; [|split; [done|right; exists j, tm, t]].
    + apply (mx_moved_safe m _ j (Asleep tm t) m (Dec tm 0) H1 Hj).
      exact (mx_moved_back m _ j _ _ _ (Dec tm 0) H1 Hj eq_refl (or_introl eq_refl)).
    + destruct (decide (i = j)) as [<-|Hij].
      * rewrite list_lookup_insert_eq in Hj by eauto using lookup_lt_Some. discriminate Hj.
      * by rewrite list_lookup_insert_ne in Hj.
Qed.

Lemma mx_step lb s s' : step lb s s' -> safe s.1 s.2 /\ watched s.1 s.2 -> safe s'.1 s'.2 /\ watched s'.1 s'.2.
Proof.
  destruct 1 as [i p outs q m m' ts Hi Hp Hq|i p n back m ts ts' Hi Hp Hw|i p back others q m ts Hi Hp Hq];
    cbn; intros [Hs H].
  - pose proof (mx_moved_run _ _ _ _ _ _ _ Hs Hi Hp Hq) as Hm.
    split; [exact (mx_moved_safe _ _ _ _ _ _ Hs Hi Hm)|exact (mx_moved_watched _ _ _ _ _ _ Hi Hm H)].
  - destruct (mx_wake_step m ts i p n back ts' Hs Hi Hp Hw) as (Hs' & -> & Hc). split; [done|].
    destruct H as [Hfree Hblind]. pose proof (total_nonneg alert ts mx_alert_nonneg). pose proof (mx_sums ts i _ Hi) as [].
    destruct Hc as [[Hz ->]|(j & tm & t & Hij & Hj & ->)].
    + split; rewrite !(total_insert _ _ _ _ _ Hi); cbn; lia.
    + rewrite <- (list_lookup_insert_ne ts i j Idle Hij) in Hj.
      split; rewrite !(total_insert _ _ _ _ _ Hj), !(total_insert _ _ _ _ _ Hi); cbn in *; [lia|].
      intros Hb Hsl. apply Hblind; lia.
  - pose proof (mx_moved_back _ _ _ _ _ _ _ Hs Hi Hp (or_intror Hq)) as Hm.
    split; [exact (mx_moved_safe _ _ _ _ _ _ Hs Hi Hm)|exact (mx_moved_watched _ _ _ _ _ _ Hi Hm H)].
Qed.

Lemma mx_reachable n s : Z.of_nat n < 2 ^ 31 -> reachable (init n) s -> safe s.1 s.2 /\ watched s.1 s.2.
Proof.
  intros Hn. induction 1 as [|lb s s' _ IH Hs]; [|exact (mx_step lb s s' Hs IH)].
  unfold init. cbn [fst snd]. split; split; rewrite ?length_replicate, ?total_replicate; cbn; try lia.
  by apply Forall_replicate.
Qed.

(** ** Progress *)

(** The moves a thread on its way to the mutex needs while the mutex is free,
    [None] if it is not, or its wait has failed. *)
Definition moves_left (p : pc) : option nat :=
  match p with
  | Lock | TimedLock _ | Try _ _ => Some 1%nat
  | SpinLock _ _ | Read _ => Some 2%nat
  | SpinWaiters _ _ => Some 3%nat
  | Inc _ _ => Some 5%nat
  | Mark _ _ _ => Some 4%nat
  | Wait _ _ => Some 3%nat
  | Dec _ r => if (r =? 0) || (r =? EINTR) then Some 2%nat else None
  | _ => None
  end.

(** The thread gets the mutex in at most so many moves of the threads of [who]. *)
Notation "'gets'" := (settles (fun q => q = Held)).

Lemma gets_awake (who : nat -> Prop) w ts i p k : who i -> ts !! i = Some p -> local_ok p ->
  moves_left p = Some k -> gets who k i (mkMem 0 w, ts).
Proof.
  intros Hw.
  assert (Htry : forall ts w tm s, ts !! i = Some (Try tm s) -> gets who 1 i (mkMem 0 w, ts)).
  { intros ts' w' tm s Hi. eapply settles_self; [done|done|reflexivity|]. intros ts'' H. by eapply settles_now. }
  assert (Hdec : forall ts w tm r, ts !! i = Some (Dec tm r) -> (r =? 0) || (r =? EINTR) = true ->
    gets who 2 i (mkMem 0 w, ts)).
  { intros ts' w' tm r Hi Hr. eapply settles_self; [done|done|reflexivity|]. cbn.
    replace (negb (r =? 0) && negb (r =? EINTR)) with false by (by destruct (r =? 0), (r =? EINTR)). eauto. }
  assert (Hwait : forall ts w tm, ts !! i = Some (Wait tm FLAGGED) -> gets who 3 i (mkMem 0 w, ts)).
  { intros ts' w' tm Hi. eapply settles_run; [done|done|reflexivity|by apply elem_of_cons; left|].
    intros ts'' H. by apply (Hdec ts'' _ tm 0). }
  assert (Hspin : forall ts w tm s, ts !! i = Some (SpinLock tm s) -> gets who 2 i (mkMem 0 w, ts)).
  { intros ts' w' tm s Hi. eapply settles_self; [done|done|reflexivity|].
    intros ts'' H. exact (Htry ts'' _ tm KLoop H). }
  assert (Hmark : forall ts w tm r, r = EBUSY \/ r = FLAGGED -> ts !! i = Some (Mark tm r FLAGGED) ->
    gets who 4 i (mkMem 0 w, ts)).
  { intros ts' w' tm r [-> | ->] Hi; (eapply settles_self; [done|done|reflexivity|]);
      intros ts'' H; exact (Hwait ts'' w' tm H). }
  intros Hi Hok Hk. destruct p; try discriminate Hk; cbn in Hk.
  all: try destruct ((_ =? 0) || _) eqn:E in Hk; try discriminate Hk; injection Hk as <-; eauto.
  - eapply settles_self; [done|done|reflexivity|]. intros ts' H. by eapply settles_now.
  - eapply settles_self; [done|done|reflexivity|]. intros ts' H. by eapply settles_now.
  - refine (settles_self _ who 2 i _ ts (SpinWaiters tm spins) (if w =? 0 then spin_loop tm spins else Try tm KLoop)
      (mkMem 0 w) Hw Hi eq_refl _).
    intros ts' H. destruct (w =? 0); [unfold spin_loop in H; destruct (spins =? 0)|]; eauto using settles_le.
  - eapply settles_self; [done|done|reflexivity|]. intros ts' H. exact (Htry ts' _ tm KLoop H).
  - eapply settles_self; [done|done|reflexivity|]. intros ts' H. apply (Hmark ts' _ tm r Hok).
    rewrite H. by destruct Hok as [-> | ->].
  - destruct Hok as [Hr ->]. eauto.
  - cbn in Hok. subst t. eauto.
Qed.

Lemma gets_alert (who : nat -> Prop) m ts i p : safe m ts -> watched m ts -> m_lock m = 0 ->
  (forall j q, ts !! j = Some q -> 0 < sleeps q + alert q -> who j) ->
  ts !! i = Some p -> 0 < sleeps p -> exists j, gets who 3 j (m, ts).
Proof.
  intros Hs [Hf _] Hl Hwho Hi Hp. pose proof (mx_sums ts i p Hi) as [].
  destruct (total_pos alert ts (Hf Hl ltac:(lia))) as (j & q & Hj & Hq).
  assert (Hwj : who j) by (pose proof (mx_sleeps_nonneg q); apply (Hwho j q Hj); lia).
  destruct m as [v w]. cbn in Hl. subst v. pose proof (Forall_lookup_1 _ _ _ _ (safe_local _ _ Hs) Hj) as Hok.
  assert (Hq' : moves_left q = Some 1%nat \/ moves_left q = Some 2%nat \/ q = WakeOne).
  { destruct q; cbn in Hq |- *; try lia; auto. destruct ((r =? 0) || _); [auto|lia]. }
  destruct Hq' as [Hk|[Hk| ->]]; [exists j|exists j|].
  - apply (settles_le _ who 1); [lia|]. by apply (gets_awake who w ts j q).
  - apply (settles_le _ who 2); [lia|]. by apply (gets_awake who w ts j q).
  - destruct (woken_exists (mkMem 0 w) 1 (<[j := Idle]> ts)) as [ts' Hwk].
    destruct (mx_wake_step (mkMem 0 w) ts j WakeOne 1 Idle ts' Hs Hj eq_refl Hwk) as (Hs' & _ & [[Hz _]|(x & tm & t & Hx & Hxs & ->)]); [lia|].
    exists x. apply (settles_step _ who 2 x j (LWake j) _ (mkMem 0 w, <[x := Dec tm 0]> (<[j := Idle]> ts))); [by right|done| |].
    + by apply (step_wake j WakeOne 1 Idle).
    + apply (gets_awake who w _ x (Dec tm 0)); [exact (Hwho x _ Hxs ltac:(cbn; lia))| |cbn; auto|done].
      apply list_lookup_insert_eq. rewrite length_insert. by eapply lookup_lt_Some.
Qed.

(** ** Theorems *)

(** C32: mutual exclusion. Whatever the interleaving of any number of threads
    (fewer than 2^31) that lock, try, lock with a deadline and unlock: at most
    one thread has the mutex; [_m_lock] is 0 exactly while nobody has it, and
    EBUSY with or without the flag otherwise; [_m_waiters] counts the threads
    between its increment and its decrement; trying takes the mutex when
    nobody has it and returns EBUSY otherwise; and the only errors are EBUSY,
    EINVAL and ETIMEDOUT. *)
Theorem mutex_exclusion n s : Z.of_nat n < 2 ^ 31 -> reachable (init n) s ->
  (forall i j p q, s.2 !! i = Some p -> s.2 !! j = Some q -> holds p = 1 -> holds q = 1 -> i = j) /\
  (m_lock s.1 = 0 /\ total holds s.2 = 0 \/
   (m_lock s.1 = EBUSY \/ m_lock s.1 = FLAGGED) /\ total holds s.2 = 1) /\
  m_waiters s.1 = total counted s.2 /\ 0 <= m_waiters s.1 < 2 ^ 31 /\
  (forall tm, mutex_trylock (Try tm KTry) s.1 =
     Run [if total holds s.2 =? 0 then (Held, mkMem EBUSY (m_waiters s.1)) else (Failed EBUSY, s.1)]) /\
  (forall i r, s.2 !! i = Some (Failed r) -> r = EBUSY \/ r = EINVAL \/ r = ETIMEDOUT).
Proof.
  intros Hn Hr. destruct (mx_reachable n s Hn Hr) as [[Hb Hw Hc Hl] _].
  pose proof (total_nonneg counted s.2 mx_counted_nonneg).
  pose proof (total_bound counted s.2 (fun q => proj2 (mx_counted_range q))).
  split; [|split; [done|split; [done|split; [lia|split]]]].
  - intros i j p q Hi Hj. apply (total_unique holds s.2 i j p q mx_holds_nonneg); [lia|done..].
  - intros tm. destruct s as [[v w] ts]. cbn [fst snd m_lock m_waiters] in *.
    destruct Hw as [[-> ->]|[[-> | ->] ->]]; reflexivity.
  - intros i r Hi. exact (Forall_lookup_1 _ _ _ _ Hl Hi).
Qed.

(** Thread [j] is on its way to the mutex, asleep, or about to wake another. *)
Definition engaged (ts : list pc) (j : nat) : Prop :=
  exists q, ts !! j = Some q /\ (moves_left q <> None \/ 0 < sleeps q + alert q).

(** C13: no wake-up is lost. In every reachable state in which a thread is on
    its way to the mutex or asleep, either a thread has the mutex and is
    awake, or at most five moves of threads on their way, asleep or about to
    wake one, no futex wait returning without a wake-up, give the mutex to
    one of them: to that very thread if it is awake. *)
Theorem mutex_progress n s i p : Z.of_nat n < 2 ^ 31 -> reachable (init n) s ->
  s.2 !! i = Some p -> moves_left p <> None \/ sleeps p = 1 ->
  (exists j q, s.2 !! j = Some q /\ holds q = 1 /\ asleep q s.1 = false) \/
  (exists j, gets (engaged s.2) 5 j s /\ (sleeps p = 0 -> j = i)).
Proof.
  intros Hn Hr Hi Hp. destruct (mx_reachable n s Hn Hr) as [Hs Hw]. destruct s as [m ts]; cbn [fst snd] in *.
  destruct (decide (0 < total holds ts)) as [Hh|Hh].
  { left. destruct (total_pos holds ts Hh) as (j & q & Hj & Hq). exists j, q. split; [done|]. by destruct q. }
  right. assert (Hl : m_lock m = 0) by (destruct Hs; lia).
  assert (Hwho : forall j q, ts !! j = Some q -> 0 < sleeps q + alert q -> engaged ts j) by (intros j q; exists q; auto).
  destruct Hp as [Hk|Hsl].
  - exists i. split; [|done]. destruct (moves_left p) as [k|] eqn:E; [|done].
    destruct m as [v w]. cbn in Hl. subst v. apply (settles_le _ _ k).
    + destruct p; cbn in E; repeat case_match; simplify_eq; lia.
    + apply (gets_awake _ w ts i p k); try done; [|exact (Forall_lookup_1 _ _ _ _ (safe_local _ _ Hs) Hi)].
      exists p. rewrite E. auto.
  - destruct (gets_alert (engaged ts) m ts i p Hs Hw Hl Hwho Hi ltac:(lia)) as [j Hj].
    exists j. split; [exact (settles_le _ _ 3 5 j _ ltac:(lia) Hj)|lia].
Qed.

(** Two threads: 0 locks; 1 spins, marks the word and falls asleep. *)
Definition queueing : list (nat * nat) := replicate 2 (0, 0)%nat ++ replicate 209 (1, 0)%nat.
(** Then 0 unlocks and is about to wake 1. *)
Definition unlocking : list (nat * nat) := queueing ++ replicate 3 (0, 0)%nat.
Definition after (is_ : list (nat * nat)) : mem * list pc := default (init 2) (sched is_ (init 2)).

Lemma mx_after_reachable is_ : is_Some (sched is_ (init 2)) -> reachable (init 2) (after is_).
Proof.
  intros [s Hs]. unfold after. rewrite Hs. exact (sched_reachable (init 2) is_ (init 2) s (reachable_refl _) Hs).
Qed.

Lemma mutex_exclusion_witness :
  (after queueing).2 = [Held; Asleep false FLAGGED] /\ m_waiters (after queueing).1 = 1.
Proof.
  assert (Hr : reachable (init 2) (after queueing)) by (apply mx_after_reachable; vm_compute; by eexists).
  assert (E : (after queueing).2 = [Held; Asleep false FLAGGED]) by (vm_compute; reflexivity).
  split; [exact E|].
  destruct (mutex_exclusion 2 (after queueing) ltac:(cbn; lia) Hr) as (_ & _ & Hw & _).
  rewrite Hw, E. reflexivity.
Defined.

Lemma mutex_progress_witness :
  (after unlocking).2 = [WakeOne; Asleep false FLAGGED] /\ m_lock (after unlocking).1 = 0 /\
  exists j, gets (engaged (after unlocking).2) 5 j (after unlocking).
Proof.
  assert (Hr : reachable (init 2) (after unlocking)) by (apply mx_after_reachable; vm_compute; by eexists).
  assert (E : (after unlocking).2 = [WakeOne; Asleep false FLAGGED]) by (vm_compute; reflexivity).
  split; [exact E|]. split; [vm_compute; reflexivity|].
  assert (Hi : (after unlocking).2 !! 1%nat = Some (Asleep false FLAGGED)) by (rewrite E; reflexivity).
  destruct (mutex_progress 2 (after unlocking) 1 _ ltac:(cbn; lia) Hr Hi (or_intror eq_refl))
    as [(j & q & Hj & Hq & _)|(j & Hj & _)]; [exfalso|by exists j].
  rewrite E in Hj. destruct j as [|[|j]]; [injection Hj as <-|injection Hj as <-|discriminate Hj]; discriminate Hq.
Defined.
