(* ===== verification/Des.v ===== *)
(** * Des: the block cipher of src/src/crypt/crypt_des.c and the block
    functions of src/src/crypt/encrypt.c.

    The code works on 32-bit words with the permutations and S-boxes merged
    into tables of masks ([DesTables]); [FIPS46] below is the algorithm of
    FIPS 46-3 on lists of bits. The tables implement its permutations, the
    rounds and the key schedule are those of the standard, and decryption
    inverts encryption. The password hash built on it is in [DesCrypt]. *)

From S2P Require Import Prelude DesTables.

(** ** DES *)

Record expanded_key := Ekey { l_ : list Z; r_ : list Z }.

(** The bits of [x] at [ibit], as in [(x >> ibit) & 0xf]. *)
Definition nib (x ibit : Z) : Z := (x ≫ ibit) .& 0xf.

Definition setup_salt (salt : Z) : Z :=
  let '(saltbits, _, _) :=
    foldl (fun '(saltbits, saltbit, obit) _ =>
      (if negb (salt .& saltbit =? 0) then saltbits .| obit else saltbits, shl32 saltbit 1, obit ≫ 1))
      (0, 1, 0x800000) (seqZ 0 24) in
  saltbits.

(** [key[3] | key[2] << 8 | key[1] << 16 | key[0] << 24], from byte [i] on *)
Definition load_be (key : list Z) (i : Z) : Z :=
  key.[i + 3] .| shl32 key.[i + 2] 8 .| shl32 key.[i + 1] 16 .| shl32 key.[i] 24.

(** The key permutation: the two 28-bit halves. *)
Definition key_perm (rawkey0 rawkey1 : Z) : Z * Z :=
  let '(k0, k1, _) :=
    foldl (fun '(k0, k1, ibit) i =>
      let j := shl32 i 1 in
      let k0 := k0 .| (tab key_perm_maskl i (nib rawkey0 ibit) .| tab key_perm_maskl (i + 4) (nib rawkey1 ibit)) in
      let k1 := k1 .| tab key_perm_maskr j (nib rawkey0 ibit) in
      let ibit := ibit - 4 in
      let k1 := k1 .| (tab key_perm_maskr (j + 1) (nib rawkey0 ibit) .| tab key_perm_maskr (i + 8) (nib rawkey1 ibit)) in
      (k0, k1, ibit - 4)) (0, 0, 28) (seqZ 0 4) in
  (k0, k1).

(** The compression permutation of one round. *)
Definition compress (t0 t1 : Z) : Z * Z :=
  let '(kl, kr, _) :=
    foldl (fun '(kl, kr, ibit) i =>
      let kl := kl .| tab comp_maskl0 i ((t0 ≫ ibit) .& 7) in
      let kr := kr .| tab comp_maskr0 i ((t1 ≫ ibit) .& 7) in
      let ibit := ibit - 4 in
      let kl := kl .| tab comp_maskl1 i (nib t0 ibit) in
      let kr := kr .| tab comp_maskr1 i (nib t1 ibit) in
      (kl, kr, ibit - 3)) (0, 0, 25) (seqZ 0 4) in
  (kl, kr).

(** [(k << shifts) | (k >> (28 - shifts))] *)
Definition rot_key (k shifts : Z) : Z := shl32 k shifts .| (k ≫ (28 - shifts)).

Definition des_setkey (key : list Z) : expanded_key :=
  let rawkey0 := load_be key 0 in
  let rawkey1 := load_be key 4 in
  let '(k0, k1) := key_perm rawkey0 rawkey1 in
  let '(ekey, _) :=
    foldl (fun '(ekey, shifts) round =>
      let shifts := shifts + key_shifts.[round] in
      let '(kl, kr) := compress (rot_key k0 shifts) (rot_key k1 shifts) in
      (Ekey (l_ ekey ++ [kl]) (r_ ekey ++ [kr]), shifts)) (Ekey [] [], 0) (seqZ 0 16) in
  ekey.

(** Initial permutation. *)
Definition init_perm (l_in r_in : Z) : Z * Z :=
  let '(l, r, _) :=
    foldl (fun '(l, r, ibit) i =>
      (l .| (tab ip_maskl i (nib l_in ibit) .| tab ip_maskl (i + 8) (nib r_in ibit)),
       r .| (tab ip_maskr i (nib l_in ibit) .| tab ip_maskr (i + 8) (nib r_in ibit)),
       ibit - 4)) (0, 0, 28) (seqZ 0 8) in
  (l, r).

(** Final permutation. *)
Definition final_perm (l r : Z) : Z * Z :=
  let '(lo, ro, _) :=
    foldl (fun '(lo, ro, ibit) i =>
      let ro := ro .| (tab fp_maskr i (nib l ibit) .| tab fp_maskr (i + 4) (nib r ibit)) in
      let ibit := ibit - 4 in
      let lo := lo .| (tab fp_maskl i (nib l ibit) .| tab fp_maskl (i + 4) (nib r ibit)) in
      (lo, ro, ibit - 4)) (0, 0, 28) (seqZ 0 4) in
  (lo, ro).

(** The E-box, as two 24-bit words. *)
Definition expand (r : Z) : Z * Z :=
  (shl32 (r .& 0x00000001) 23 .| ((r .& 0xf8000000) ≫ 9) .| ((r .& 0x1f800000) ≫ 11)
     .| ((r .& 0x01f80000) ≫ 13) .| ((r .& 0x001f8000) ≫ 15),
   shl32 (r .& 0x0001f800) 7 .| shl32 (r .& 0x00001f80) 5 .| shl32 (r .& 0x000001f8) 3
     .| shl32 (r .& 0x0000001f) 1 .| ((r .& 0x80000000) ≫ 31)).

(** The S-boxes and the P-box. *)
Definition sp_boxes (r48l r48r : Z) : Z :=
  tab psbox 0 (r48l ≫ 18) .| tab psbox 1 ((r48l ≫ 12) .& 0x3f)
  .| tab psbox 2 ((r48l ≫ 6) .& 0x3f) .| tab psbox 3 (r48l .& 0x3f)
  .| tab psbox 4 (r48r ≫ 18) .| tab psbox 5 ((r48r ≫ 12) .& 0x3f)
  .| tab psbox 6 ((r48r ≫ 6) .& 0x3f) .| tab psbox 7 (r48r .& 0x3f).

(** The function f of one round, with the salt. *)
Definition round_f (saltbits kl kr r : Z) : Z :=
  let '(r48l, r48r) := expand r in
  let f := (r48l .^ r48r) .& saltbits in
  let r48l := r48l .^ (f .^ kl) in
  let r48r := r48r .^ (f .^ kr) in
  sp_boxes r48l r48r.

(** [while (round--)], then the exchange. *)
Definition rounds (saltbits : Z) (ekey : expanded_key) (lr : Z * Z) : Z * Z :=
  let '(l, r) := foldl (fun '(l, r) i => (r, round_f saltbits (l_ ekey).[i] (r_ ekey).[i] r .^ l)) lr (seqZ 0 16) in
  (r, l).

Definition do_des (l_in r_in count saltbits : Z) (ekey : expanded_key) : Z * Z :=
  let lr := if negb (l_in .| r_in =? 0) then init_perm l_in r_in else (0, 0) in
  let '(l, r) := Nat.iter (Z.to_nat count) (rounds saltbits ekey) lr in
  final_perm l r.

Definition des_cipher (input : list Z) (count saltbits : Z) (ekey : expanded_key) : list Z :=
  let '(l_out, r_out) := do_des (load_be input 0) (load_be input 4) count saltbits ekey in
  [u8 (l_out ≫ 24); u8 (l_out ≫ 16); u8 (l_out ≫ 8); u8 l_out;
   u8 (r_out ≫ 24); u8 (r_out ≫ 16); u8 (r_out ≫ 8); u8 r_out].

(** ** encrypt.c *)

(** [for (j = n - 1; j >= 0; j--, p++) b |= ( *p & 1 ) << j], from [p] on. *)
Definition pack (n : Z) (p : list Z) : Z :=
  foldl (fun b j => b .| shl32 (p.[n - 1 - j] .& 1) j) 0 (rev (seqZ 0 n)).
(** [for (j = 31; j >= 0; j--) *p++ = b>>j & 1] *)
Definition unpack (b : Z) : list Z := map (fun j => (b ≫ j) .& 1) (rev (seqZ 0 32)).

Definition setkey (key : list Z) : expanded_key :=
  des_setkey (map (fun i => u8 (pack 8 (drop (8 * i) key))) (seq 0 8)).

Definition encrypt (block : list Z) (edflag : Z) (encrypt_key : expanded_key) : list Z :=
  let b0 := pack 32 block in
  let b1 := pack 32 (drop 32 block) in
  let key :=
    if negb (edflag =? 0) then
      Ekey (map (fun i => (l_ encrypt_key).[15 - i]) (seqZ 0 16)) (map (fun i => (r_ encrypt_key).[15 - i]) (seqZ 0 16))
    else encrypt_key in
  let '(b0, b1) := do_des b0 b1 1 0 key in
  unpack b0 ++ unpack b1.

(** ** The algorithm of FIPS 46-3 *)

(** Blocks are lists of bits, the first bit first; the tables number bits from 1. *)
Module FIPS46.

Definition permute (table : list nat) (b : list bool) : list bool :=
  map (fun j => default false (b !! (j - 1)%nat)) table.

Definition IP : list nat :=
  [58; 50; 42; 34; 26; 18; 10; 2; 60; 52; 44; 36; 28; 20; 12; 4;
   62; 54; 46; 38; 30; 22; 14; 6; 64; 56; 48; 40; 32; 24; 16; 8;
   57; 49; 41; 33; 25; 17; 9; 1; 59; 51; 43; 35; 27; 19; 11; 3;
   61; 53; 45; 37; 29; 21; 13; 5; 63; 55; 47; 39; 31; 23; 15; 7]%nat.
Definition FP : list nat :=
  [40; 8; 48; 16; 56; 24; 64; 32; 39; 7; 47; 15; 55; 23; 63; 31;
   38; 6; 46; 14; 54; 22; 62; 30; 37; 5; 45; 13; 53; 21; 61; 29;
   36; 4; 44; 12; 52; 20; 60; 28; 35; 3; 43; 11; 51; 19; 59; 27;
   34; 2; 42; 10; 50; 18; 58; 26; 33; 1; 41; 9; 49; 17; 57; 25]%nat.
Definition E : list nat :=
  [32; 1; 2; 3; 4; 5; 4; 5; 6; 7; 8; 9;
   8; 9; 10; 11; 12; 13; 12; 13; 14; 15; 16; 17;
   16; 17; 18; 19; 20; 21; 20; 21; 22; 23; 24; 25;
   24; 25; 26; 27; 28; 29; 28; 29; 30; 31; 32; 1]%nat.
Definition P : list nat :=
  [16; 7; 20; 21; 29; 12; 28; 17; 1; 15; 23; 26; 5; 18; 31; 10;
   2; 8; 24; 14; 32; 27; 3; 9; 19; 13; 30; 6; 22; 11; 4; 25]%nat.
Definition PC1 : list nat :=
  [57; 49; 41; 33; 25; 17; 9; 1; 58; 50; 42; 34; 26; 18;
   10; 2; 59; 51; 43; 35; 27; 19; 11; 3; 60; 52; 44; 36;
   63; 55; 47; 39; 31; 23; 15; 7; 62; 54; 46; 38; 30; 22;
   14; 6; 61; 53; 45; 37; 29; 21; 13; 5; 28; 20; 12; 4]%nat.
Definition PC2 : list nat :=
  [14; 17; 11; 24; 1; 5; 3; 28; 15; 6; 21; 10;
   23; 19; 12; 4; 26; 8; 16; 7; 27; 20; 13; 2;
   41; 52; 31; 37; 47; 55; 30; 40; 51; 45; 33; 48;
   44; 49; 39; 56; 34; 53; 46; 42; 50; 36; 29; 32]%nat.

(** The S-boxes, four rows of sixteen each. *)
Definition S : list (list Z) :=
    [[14; 4; 13; 1; 2; 15; 11; 8; 3; 10; 6; 12; 5; 9; 0; 7;
      0; 15; 7; 4; 14; 2; 13; 1; 10; 6; 12; 11; 9; 5; 3; 8;
      4; 1; 14; 8; 13; 6; 2; 11; 15; 12; 9; 7; 3; 10; 5; 0;
      15; 12; 8; 2; 4; 9; 1; 7; 5; 11; 3; 14; 10; 0; 6; 13];
     [15; 1; 8; 14; 6; 11; 3; 4; 9; 7; 2; 13; 12; 0; 5; 10;
      3; 13; 4; 7; 15; 2; 8; 14; 12; 0; 1; 10; 6; 9; 11; 5;
      0; 14; 7; 11; 10; 4; 13; 1; 5; 8; 12; 6; 9; 3; 2; 15;
      13; 8; 10; 1; 3; 15; 4; 2; 11; 6; 7; 12; 0; 5; 14; 9];
     [10; 0; 9; 14; 6; 3; 15; 5; 1; 13; 12; 7; 11; 4; 2; 8;
      13; 7; 0; 9; 3; 4; 6; 10; 2; 8; 5; 14; 12; 11; 15; 1;
      13; 6; 4; 9; 8; 15; 3; 0; 11; 1; 2; 12; 5; 10; 14; 7;
      1; 10; 13; 0; 6; 9; 8; 7; 4; 15; 14; 3; 11; 5; 2; 12];
     [7; 13; 14; 3; 0; 6; 9; 10; 1; 2; 8; 5; 11; 12; 4; 15;
      13; 8; 11; 5; 6; 15; 0; 3; 4; 7; 2; 12; 1; 10; 14; 9;
      10; 6; 9; 0; 12; 11; 7; 13; 15; 1; 3; 14; 5; 2; 8; 4;
      3; 15; 0; 6; 10; 1; 13; 8; 9; 4; 5; 11; 12; 7; 2; 14];
     [2; 12; 4; 1; 7; 10; 11; 6; 8; 5; 3; 15; 13; 0; 14; 9;
      14; 11; 2; 12; 4; 7; 13; 1; 5; 0; 15; 10; 3; 9; 8; 6;
      4; 2; 1; 11; 10; 13; 7; 8; 15; 9; 12; 5; 6; 3; 0; 14;
      11; 8; 12; 7; 1; 14; 2; 13; 6; 15; 0; 9; 10; 4; 5; 3];
     [12; 1; 10; 15; 9; 2; 6; 8; 0; 13; 3; 4; 14; 7; 5; 11;
      10; 15; 4; 2; 7; 12; 9; 5; 6; 1; 13; 14; 0; 11; 3; 8;
      9; 14; 15; 5; 2; 8; 12; 3; 7; 0; 4; 10; 1; 13; 11; 6;
      4; 3; 2; 12; 9; 5; 15; 10; 11; 14; 1; 7; 6; 0; 8; 13];
     [4; 11; 2; 14; 15; 0; 8; 13; 3; 12; 9; 7; 5; 10; 6; 1;
      13; 0; 11; 7; 4; 9; 1; 10; 14; 3; 5; 12; 2; 15; 8; 6;
      1; 4; 11; 13; 12; 3; 7; 14; 10; 15; 6; 8; 0; 5; 9; 2;
      6; 11; 13; 8; 1; 4; 10; 7; 9; 5; 0; 15; 14; 2; 3; 12];
     [13; 2; 8; 4; 6; 15; 11; 1; 10; 9; 3; 14; 5; 0; 12; 7;
      1; 15; 13; 8; 10; 3; 7; 4; 12; 5; 6; 11; 0; 14; 9; 2;
      7; 11; 4; 1; 9; 12; 14; 2; 0; 6; 10; 13; 15; 3; 5; 8;
      2; 1; 14; 7; 4; 10; 8; 13; 15; 12; 9; 0; 3; 5; 6; 11]].
Definition shifts : list nat := [1; 1; 2; 2; 2; 2; 2; 2; 1; 2; 2; 2; 2; 2; 2; 1]%nat.

(** The value of a list of bits, and the [n] bits of a value. *)
Definition value (b : list bool) : Z := foldl (fun a x => 2 * a + Z.b2z x) 0 b.
Definition bits (n : nat) (x : Z) : list bool := map (fun j => Z.testbit x (Z.of_nat (n - 1 - j))) (seq 0 n).
Definition xor (a b : list bool) : list bool := zip_with xorb a b.

(** S-box [k] on six bits: the outer two select the row, the inner four the column. *)
Definition sbox (k : nat) (b : list bool) : list bool :=
  match b with
  | [b1; b2; b3; b4; b5; b6] =>
      bits 4 (default [] (S !! k)).[16 * value [b1; b6] + value [b2; b3; b4; b5]]
  | _ => []
  end.

(** f(R, K); [salt] exchanges bits [i] and [i + 24] of the expansion where its
    bit [i] is set, as crypt(3) does: none for DES proper. *)
Definition salted (salt : list bool) (e : list bool) : list bool :=
  let '(a, b) := (take 24 e, drop 24 e) in
  zip_with (fun (s : bool) p => if s then p.2 else p.1) salt (zip a b)
  ++ zip_with (fun (s : bool) p => if s then p.1 else p.2) salt (zip a b).
Definition f (salt R K : list bool) : list bool :=
  let x := xor (salted salt (permute E R)) K in
  permute P (concat (map (fun k => sbox k (take 6 (drop (6 * k) x))) (seq 0 8))).

(** The sixteen rounds of Feistel, and the exchange of the halves. *)
Definition round (salt : list bool) (LR : list bool * list bool) (K : list bool) : list bool * list bool :=
  (LR.2, xor LR.1 (f salt LR.2 K)).
Definition rounds (salt : list bool) (Ks : list (list bool)) (LR : list bool * list bool) : list bool * list bool :=
  let '(L, R) := foldl (round salt) LR Ks in (R, L).

(** The key schedule: both halves rotate by [shifts] bits at each round. *)
Definition rotl (n : nat) (b : list bool) : list bool := drop n b ++ take n b.
Fixpoint schedule (sh : list nat) (C D : list bool) : list (list bool) :=
  match sh with
  | [] => []
  | n :: sh => let C := rotl n C in let D := rotl n D in permute PC2 (C ++ D) :: schedule sh C D
  end.
Definition keys (key : list bool) : list (list bool) :=
  let cd := permute PC1 key in schedule shifts (take 28 cd) (drop 28 cd).

(** DES with sixteen round keys, enciphering or (the keys reversed) deciphering. *)
Definition des (salt : list bool) (Ks : list (list bool)) (block : list bool) : list bool :=
  let b := permute IP block in
  let '(L, R) := rounds salt Ks (take 32 b, drop 32 b) in
  permute FP (L ++ R).

End FIPS46.

Import FIPS46(permute, IP, FP, E, P, PC1, PC2, value, bits, xor, sbox, salted, f, round, rotl, schedule, keys, des).

(** ** Bits of words *)

Lemma length_bits n x : length (bits n x) = n.
Proof. unfold bits. by rewrite length_map, length_seq. Qed.

Lemma bits_lookup n x i : (i < n)%nat -> bits n x !! i = Some (Z.testbit x (Z.of_nat (n - 1 - i))).
Proof.
  intros Hi. unfold bits. change (map ?g ?l) with (fmap (M := list) g l).
  rewrite list_lookup_fmap, lookup_seq_lt by done. done.
Qed.

Lemma bits_ext n x y : (forall i, (i < n)%nat -> Z.testbit x (Z.of_nat i) = Z.testbit y (Z.of_nat i)) -> bits n x = bits n y.
Proof.
  intros H. unfold bits. apply map_ext_in. intros j Hj%in_seq. apply H. lia.
Qed.

Lemma bits_inj n x y : word (Z.of_nat n) x -> word (Z.of_nat n) y -> bits n x = bits n y -> x = y.
Proof.
  intros Hx Hy H. apply Z.bits_inj'. intros i Hi. destruct (Z.lt_ge_cases i (Z.of_nat n)).
  - assert (Hl := f_equal (fun l => l !! (n - 1 - Z.to_nat i)%nat) H). cbn beta in Hl.
    rewrite !bits_lookup in Hl by lia. injection Hl. by replace (Z.of_nat _) with i by lia.
  - by rewrite !(word_testbit (Z.of_nat n)) by done.
Qed.

(** A word of two parts, the low one of [m] bits. *)
Definition join (m a b : Z) : Z := a * 2 ^ m + b mod 2 ^ m.

Lemma join_bit m a b i : 0 <= m -> 0 <= i ->
  Z.testbit (join m a b) i = if i <? m then Z.testbit b i else Z.testbit a (i - m).
Proof.
  intros Hm Hi. unfold join. rewrite Z.add_comm, (Z.mul_comm a), lor_add_disjoint by (done || by apply wrap_word).
  rewrite Z.lor_spec, shl_bit by done. change (b mod 2 ^ m) with (wrap m b). rewrite wrap_testbit by done.
  destruct (Z.ltb_spec i m), (Z.leb_spec m i); try lia; cbn; [apply orb_false_r|done].
Qed.

Lemma bits_join n m a b : bits (n + m) (join (Z.of_nat m) a b) = bits n a ++ bits m b.
Proof.
  apply list_eq. intros i. destruct (Nat.lt_ge_cases i (n + m)).
  - rewrite bits_lookup by done. rewrite join_bit by lia. destruct (Z.ltb_spec (Z.of_nat (n + m - 1 - i)) (Z.of_nat m)).
    + rewrite lookup_app_r by (rewrite length_bits; lia). rewrite length_bits, bits_lookup by lia. do 3 f_equal. lia.
    + rewrite lookup_app_l by (rewrite length_bits; lia). rewrite bits_lookup by lia. do 2 f_equal. lia.
  - rewrite !lookup_ge_None_2; [done| |]; rewrite ?length_app, !length_bits; lia.
Qed.

(** Field of [w] bits at [off]. *)
Definition field (off w x : Z) : Z := (x ≫ off) .& Z.ones w.

Lemma field_bit off w x i : 0 <= w -> 0 <= i -> Z.testbit (field off w x) i = (i <? w) && Z.testbit x (i + off).
Proof.
  intros Hw Hi. unfold field. rewrite Z.land_spec, Z.testbit_ones_nonneg, Z.shiftr_spec by lia. apply andb_comm.
Qed.

Lemma field_word off w x : 0 <= w -> word w (field off w x).
Proof. intros Hw. unfold field, word. rewrite Z.land_ones by done. apply Z.mod_pos_bound. lia. Qed.

Lemma field_ext off off' w x y : 0 <= w ->
  (forall i, 0 <= i < w -> Z.testbit x (i + off) = Z.testbit y (i + off')) -> field off w x = field off' w y.
Proof.
  intros Hw H. apply Z.bits_inj'. intros i Hi. rewrite !field_bit by done.
  destruct (Z.ltb_spec i w); [cbn; apply H; lia|done].
Qed.

Lemma field_join_hi m a b off w : 0 <= m -> 0 <= off -> 0 <= w -> field (off + m) w (join m a b) = field off w a.
Proof.
  intros. apply field_ext; [done|]. intros i Hi. rewrite join_bit by lia. destruct (Z.ltb_spec (i + (off + m)) m); [lia|].
  f_equal. lia.
Qed.

Lemma field_join_lo m a b off w : 0 <= off -> 0 <= w -> off + w <= m -> field off w (join m a b) = field off w b.
Proof.
  intros. apply field_ext; [done|]. intros i Hi. rewrite join_bit by lia. by destruct (Z.ltb_spec (i + off) m); [|lia].
Qed.

(** ** Permutations by tables of masks *)

Definition lors (l : list Z) : Z := foldl Z.lor 0 l.

Lemma lors_bit l o : Z.testbit (lors l) o = existsb (fun x => Z.testbit x o) l.
Proof.
  unfold lors. enough (forall acc, Z.testbit (foldl Z.lor acc l) o = Z.testbit acc o || existsb (fun x => Z.testbit x o) l) as ->
    by by rewrite Z.bits_0.
  induction l as [|x l IH]; intros acc; cbn; [by rewrite orb_false_r|]. by rewrite IH, Z.lor_spec, orb_assoc.
Qed.

Lemma lors_word n l : 0 <= n -> Forall (word n) l -> word n (lors l).
Proof.
  intros Hn Hl. unfold lors. assert (H0 : word n 0) by (unfold word; lia). revert H0. generalize 0.
  induction Hl as [|x l Hx Hl IH]; intros acc Ha; cbn; [done|]. apply IH. by apply word_lor.
Qed.

(** A table looked up with the field of [w] bits at [off]. *)
Definition chunk : Type := Z * Z * list Z.
Definition look (x : Z) (c : chunk) : Z := let '(off, w, t) := c in t.[field off w x].

(** The chunk gives the bits of [table] that it holds, and no other. *)
Definition chunk_check (n_in n_out : nat) (table : list nat) (c : chunk) : bool :=
  let '(off, w, t) := c in
  (0 <=? off) && (0 <=? w) && forallb (fun v => (0 <=? t.[v]) && (t.[v] <? 2 ^ Z.of_nat n_out) &&
    forallb (fun j =>
      let src := Z.of_nat n_in - Z.of_nat (default O (table !! j)) in
      eqb (Z.testbit t.[v] (Z.of_nat (n_out - 1 - j))) ((off <=? src) && (src <? off + w) && Z.testbit v (src - off)))
    (seq 0 n_out)) (seqZ 0 (2 ^ w)).
Definition perm_check (n_in n_out : nat) (table : list nat) (cs : list chunk) : bool :=
  (length table =? n_out)%nat && forallb (fun j => (1 <=? j)%nat && (j <=? n_in)%nat &&
    existsb (fun '(off, w, _) => (off <=? Z.of_nat (n_in - j)) && (Z.of_nat (n_in - j) <? off + w)) cs) table &&
  forallb (chunk_check n_in n_out table) cs.

Lemma chunk_bit n_in n_out table c x : chunk_check n_in n_out table c = true ->
  word (Z.of_nat n_out) (look x c) /\
  forall j, (j < n_out)%nat ->
  let src := Z.of_nat n_in - Z.of_nat (default O (table !! j)) in
  Z.testbit (look x c) (Z.of_nat (n_out - 1 - j)) =
    (c.1.1 <=? src) && (src <? c.1.1 + c.1.2) && Z.testbit x src.
Proof.
  destruct c as [[off w] t]. intros Hc. cbn [chunk_check look fst snd] in *.
  apply andb_true_iff in Hc as [[Hoff%Z.leb_le Hw%Z.leb_le]%andb_true_iff Hc]. rewrite forallb_forall in Hc.
  pose proof (field_word off w x Hw) as Hf. specialize (Hc (field off w x)).
  apply andb_true_iff in Hc as [[H1%Z.leb_le H2%Z.ltb_lt]%andb_true_iff Hc];
    [|apply list_elem_of_In, elem_of_seqZ; unfold word in Hf; lia].
  split; [split; done|]. intros j Hj. set (src := Z.of_nat n_in - _). rewrite forallb_forall in Hc. specialize (Hc j ltac:(apply in_seq; lia)).
  apply eqb_prop in Hc. fold src in Hc. rewrite Hc.
  destruct (Z.leb_spec off src), (Z.ltb_spec src (off + w)); try done. cbn.
  rewrite field_bit by lia. destruct (Z.ltb_spec (src - off) w); [|lia]. cbn. f_equal. lia.
Qed.

Lemma length_permute table b : length (permute table b) = length table.
Proof. apply length_map. Qed.

Lemma permute_lookup table b j : (j < length table)%nat ->
  permute table b !! j = Some (default false (b !! (default O (table !! j) - 1)%nat)).
Proof.
  intros Hj. unfold permute. change (map ?g ?l) with (fmap (M := list) g l).
  rewrite list_lookup_fmap. by destruct (lookup_lt_is_Some_2 table j Hj) as [s ->].
Qed.

Lemma tables_permute n_in n_out table cs x : perm_check n_in n_out table cs = true ->
  word (Z.of_nat n_out) (lors (map (look x) cs)) /\
  bits n_out (lors (map (look x) cs)) = permute table (bits n_in x).
Proof.
  intros [[Hl%Nat.eqb_eq Ht]%andb_true_iff Hc]%andb_true_iff. rewrite forallb_forall in Ht, Hc. split.
  - apply lors_word; [lia|]. apply Forall_map, Forall_forall. intros c Hin%list_elem_of_In.
    exact (proj1 (chunk_bit n_in n_out table c x (Hc c Hin))).
  - apply list_eq. intros j. destruct (Nat.lt_ge_cases j n_out) as [Hj|Hj].
    + rewrite bits_lookup, permute_lookup by lia. f_equal. rewrite lors_bit.
      destruct (lookup_lt_is_Some_2 table j ltac:(lia)) as [s Hs]. rewrite Hs. cbn [from_option id].
      specialize (Ht s (proj1 (list_elem_of_In _ _) (list_elem_of_lookup_2 _ _ _ Hs))).
      apply andb_true_iff in Ht as [[H1%Nat.leb_le H2%Nat.leb_le]%andb_true_iff Hex].
      rewrite bits_lookup by lia. cbn [from_option id]. replace (n_in - 1 - (s - 1))%nat with (n_in - s)%nat by lia.
      set (src := Z.of_nat n_in - Z.of_nat s). assert (Hsrc : Z.of_nat (n_in - s) = src) by lia.
      apply eq_iff_eq_true. rewrite existsb_exists. setoid_rewrite in_map_iff. rewrite existsb_exists in Hex. split.
      * intros (y & (c & <- & Hin) & Hy).
        pose proof (proj2 (chunk_bit n_in n_out table c x (Hc c Hin)) j Hj) as Hb.
        rewrite Hs in Hb. cbn [from_option id] in Hb. fold src in Hb. rewrite Hb in Hy.
        apply andb_true_iff in Hy as [_ Hy]. by rewrite Hsrc.
      * intros Hx. destruct Hex as ([[off w] t] & Hin & Hcov). rewrite Hsrc in Hcov, Hx.
        eexists. split; [by exists (off, w, t)|].
        pose proof (proj2 (chunk_bit n_in n_out table (off, w, t) x (Hc _ Hin)) j Hj) as Hb.
        rewrite Hs in Hb. cbn [from_option id fst snd] in Hb. fold src in Hb. by rewrite Hb, Hcov, Hx.
    + rewrite !lookup_ge_None_2; [done| |]; rewrite ?length_permute, ?length_bits; lia.
Qed.

(** ** The four permutations *)

Definition row (t : list (list Z)) (i : Z) : list Z := default [] (t !! Z.to_nat i).

(** The chunks in the order of the loops, over the input as one word. *)
Definition ip_chunks (t : list (list Z)) : list chunk :=
  flat_map (fun i => [(60 - 4 * i, 4, row t i); (28 - 4 * i, 4, row t (i + 8))]) (seqZ 0 8).
Definition fp_chunks (t : list (list Z)) (ibit : Z) : list chunk :=
  flat_map (fun i => [(32 + ibit - 8 * i, 4, row t i); (ibit - 8 * i, 4, row t (i + 4))]) (seqZ 0 4).
Definition kp_chunks : list chunk :=
  flat_map (fun i => [(60 - 8 * i, 4, row key_perm_maskr (2 * i)); (56 - 8 * i, 4, row key_perm_maskr (2 * i + 1));
                      (24 - 8 * i, 4, row key_perm_maskr (i + 8))]) (seqZ 0 4).
Definition comp_chunks (off : Z) (t0 t1 : list (list Z)) : list chunk :=
  flat_map (fun i => [(off + 25 - 7 * i, 3, row t0 i); (off + 21 - 7 * i, 4, row t1 i)]) (seqZ 0 4).

Lemma nib_field x ibit : nib x ibit = field ibit 4 x.
Proof. done. Qed.
Lemma nib3_field x ibit : (x ≫ ibit) .& 7 = field ibit 3 x.
Proof. done. Qed.
Lemma tab_row t i j : tab t i j = (row t i).[j].
Proof. done. Qed.

Ltac unroll :=
  match goal with |- context [seqZ ?a ?n] => let l := eval vm_compute in (seqZ a n) in change (seqZ a n) with l end.
Lemma init_perm_lors l r : init_perm l r =
  (lors (map (look (join 32 l r)) (ip_chunks ip_maskl)), lors (map (look (join 32 l r)) (ip_chunks ip_maskr))).
Proof.
  unfold init_perm, ip_chunks. unroll. cbn [foldl flat_map app map look lors].
  rewrite !nib_field, !tab_row. 
  rewrite <- !(field_join_hi 32 l r) by lia. rewrite <- !(field_join_lo 32 l r _ 4) by lia.
  unfold lors. cbn [foldl]. rewrite !Z.lor_assoc. reflexivity.
Qed.

Lemma final_perm_lors l r : final_perm l r =
  (lors (map (look (join 32 l r)) (fp_chunks fp_maskl 24)), lors (map (look (join 32 l r)) (fp_chunks fp_maskr 28))).
Proof.
  unfold final_perm, fp_chunks. unroll. cbn [foldl flat_map app map look lors].
  rewrite !nib_field, !tab_row.
  rewrite <- !(field_join_hi 32 l r) by lia. rewrite <- !(field_join_lo 32 l r _ 4) by lia.
  unfold lors. cbn [foldl]. rewrite !Z.lor_assoc. reflexivity.
Qed.

Lemma key_perm_lors k0 k1 : key_perm k0 k1 =
  (lors (map (look (join 32 k0 k1)) (fp_chunks key_perm_maskl 28)), lors (map (look (join 32 k0 k1)) kp_chunks)).
Proof.
  unfold key_perm, kp_chunks, fp_chunks. unroll. cbn [foldl flat_map app map look lors].
  rewrite !nib_field, !tab_row.
  rewrite <- !(field_join_hi 32 k0 k1) by lia. rewrite <- !(field_join_lo 32 k0 k1 _ 4) by lia.
  unfold lors. cbn [foldl]. rewrite !Z.lor_assoc. reflexivity.
Qed.

Lemma compress_lors t0 t1 : compress t0 t1 =
  (lors (map (look (join 28 t0 t1)) (comp_chunks 28 comp_maskl0 comp_maskl1)),
   lors (map (look (join 28 t0 t1)) (comp_chunks 0 comp_maskr0 comp_maskr1))).
Proof.
  unfold compress, comp_chunks. unroll. cbn [foldl flat_map app map look lors].
  rewrite !nib_field, !nib3_field, !tab_row.
  rewrite <- !(field_join_hi 28 t0 t1) by lia.
  rewrite <- !(field_join_lo 28 t0 t1 _ 4) by lia. rewrite <- !(field_join_lo 28 t0 t1 _ 3) by lia.
  unfold lors. cbn [foldl]. rewrite ?Z.lor_assoc. reflexivity.
Qed.

Lemma permute_halves n table b : permute (take n table) b ++ permute (drop n table) b = permute table b.
Proof. unfold permute. by rewrite <- map_app, take_drop. Qed.

(** Two words that hold a list of bits. *)
Definition holds (n : nat) (p : Z * Z) (b : list bool) : Prop :=
  word (Z.of_nat n) p.1 /\ word (Z.of_nat n) p.2 /\ bits n p.1 ++ bits n p.2 = b.

Lemma lors_holds n_in n_out table x cl cr :
  perm_check n_in n_out (take n_out table) cl = true -> perm_check n_in n_out (drop n_out table) cr = true ->
  holds n_out (lors (map (look x) cl), lors (map (look x) cr)) (permute table (bits n_in x)).
Proof.
  intros Hl Hr. destruct (tables_permute _ _ _ _ x Hl) as [Hwl Hbl]. destruct (tables_permute _ _ _ _ x Hr) as [Hwr Hbr].
  split; [done|]. split; [done|]. cbn [fst snd]. by rewrite Hbl, Hbr, permute_halves.
Qed.

(** The tables are those of the standard. *)
Ltac by_tables := apply lors_holds; vm_compute; reflexivity.
Lemma init_perm_spec l r : holds 32 (init_perm l r) (permute IP (bits 32 l ++ bits 32 r)).
Proof. rewrite init_perm_lors, <- bits_join. by_tables. Qed.
Lemma final_perm_spec l r : holds 32 (final_perm l r) (permute FP (bits 32 l ++ bits 32 r)).
Proof. rewrite final_perm_lors, <- bits_join. by_tables. Qed.
Lemma key_perm_spec k0 k1 : holds 28 (key_perm k0 k1) (permute PC1 (bits 32 k0 ++ bits 32 k1)).
Proof. rewrite key_perm_lors, <- bits_join. by_tables. Qed.
Lemma compress_spec t0 t1 : holds 24 (compress t0 t1) (permute PC2 (bits 28 t0 ++ bits 28 t1)).
Proof. rewrite compress_lors, <- bits_join. by_tables. Qed.

(** ** The round function *)


(** A masked field moved to the left, or to the right. *)
Lemma mask_shl_word r m n k : 0 <= n -> 0 <= k -> word (k - n) m -> word k (shl32 (r .& m) n).
Proof.
  intros Hn Hk Hm. apply word_of_bits; [done|apply wrap_word; lia|]. intros i Hi. unfold shl32, u32.
  rewrite wrap_testbit, shl_bit, Z.land_spec by lia. rewrite (word_testbit (k - n) m) by (done || lia).
  by rewrite !andb_false_r.
Qed.
Lemma mask_shr_word r m n k : 0 <= n -> 0 <= k -> word (k + n) m -> word k ((r .& m) ≫ n).
Proof.
  intros Hn Hk Hm. apply word_of_bits; [done| |].
  - apply Z.shiftr_nonneg, Z.land_nonneg. right. unfold word in Hm. lia.
  - intros i Hi. rewrite shr_bit, Z.land_spec by lia. rewrite (word_testbit (k + n) m) by (done || lia).
    by rewrite !andb_false_r.
Qed.

Ltac masks :=
  repeat (apply word_lor; [lia| |]); first [apply mask_shl_word|apply mask_shr_word]; unfold word; lia.

(** The bits of a word selected by masks, each field moved by [n] bits to the left. *)
Definition mshift (r : Z) (c : Z * Z) : Z := let '(m, n) := c in if 0 <=? n then shl32 (r .& m) n else (r .& m) ≫ (- n).

Lemma mshift_bit r m n i : 0 <= i < 32 -> Z.testbit (mshift r (m, n)) i = Z.testbit m (i - n) && Z.testbit r (i - n).
Proof.
  intros Hi. unfold mshift. destruct (Z.leb_spec 0 n).
  - unfold shl32, u32. rewrite wrap_testbit, shl_bit, Z.land_spec by lia. destruct (Z.ltb_spec i 32); [|lia]. rewrite andb_true_l.
    destruct (Z.leb_spec n i); [by rewrite andb_true_l, andb_comm|]. by rewrite !Z.testbit_neg_r by lia.
  - rewrite Z.shiftr_spec, Z.land_spec by lia. replace (i + - n) with (i - n) by lia. apply andb_comm.
Qed.

Definition mask_check (n_in n_out : nat) (table : list nat) (cs : list (Z * Z)) : bool :=
  (length table =? n_out)%nat && forallb (fun j =>
    let s := default O (table !! j) in let o := Z.of_nat (n_out - 1 - j) in let src := Z.of_nat (n_in - s) in
    (1 <=? s)%nat && (s <=? n_in)%nat && forallb (fun '(m, n) => implb (Z.testbit m (o - n)) (o - n =? src)) cs
    && existsb (fun '(m, n) => Z.testbit m (o - n) && (o - n =? src)) cs) (seq 0 n_out).

Lemma masks_permute n_in n_out table cs r : (n_out <= 32)%nat -> mask_check n_in n_out table cs = true ->
  bits n_out (lors (map (mshift r) cs)) = permute table (bits n_in r).
Proof.
  intros H32 [Hl%Nat.eqb_eq Ht]%andb_true_iff. rewrite forallb_forall in Ht. apply list_eq. intros j.
  destruct (Nat.lt_ge_cases j n_out) as [Hj|Hj]; [|rewrite !lookup_ge_None_2; rewrite ?length_permute, ?length_bits; done || lia].
  rewrite bits_lookup, permute_lookup by lia. f_equal. rewrite lors_bit.
  specialize (Ht j ltac:(apply in_seq; lia)). cbn zeta in Ht. destruct (table !! j) as [s|]; cbn [from_option id] in *;
    [|apply andb_true_iff in Ht as [[[? _]%andb_true_iff _]%andb_true_iff _]; done].
  apply andb_true_iff in Ht as [[[H1%Nat.leb_le H2%Nat.leb_le]%andb_true_iff Ho]%andb_true_iff Hex].
  rewrite bits_lookup by lia. cbn [from_option id]. replace (n_in - 1 - (s - 1))%nat with (n_in - s)%nat by lia.
  rewrite forallb_forall in Ho. rewrite existsb_exists in Hex. apply eq_iff_eq_true. rewrite existsb_exists.
  setoid_rewrite in_map_iff. split.
  - intros (y & ([m n] & <- & Hin) & Hy). rewrite mshift_bit in Hy by lia. specialize (Ho _ Hin). cbn in Ho.
    destruct (Z.testbit m _); [|done]. apply Z.eqb_eq in Ho. by rewrite <- Ho.
  - intros Hx. destruct Hex as ([m n] & Hin & [Hm He%Z.eqb_eq]%andb_true_iff). eexists. split; [by exists (m, n)|].
    rewrite mshift_bit by lia. by rewrite Hm, He, Hx.
Qed.

Definition e_left : list (Z * Z) := [(0x1, 23); (0xf8000000, -9); (0x1f800000, -11); (0x01f80000, -13); (0x001f8000, -15)].
Definition e_right : list (Z * Z) := [(0x0001f800, 7); (0x00001f80, 5); (0x000001f8, 3); (0x0000001f, 1); (0x80000000, -31)].

Lemma expand_spec r : holds 24 (expand r) (permute E (bits 32 r)).
Proof.
  unfold expand. split; [cbn [fst]; masks|]. split; [cbn [snd]; masks|]. cbn [fst snd].
  rewrite <- (permute_halves 24 E), <- (masks_permute 32 24 (take 24 E) e_left), <- (masks_permute 32 24 (drop 24 E) e_right);
    [done|lia|by vm_compute|lia|by vm_compute].
Qed.

Lemma bits_field n i w x : (i + w <= n)%nat ->
  take w (drop i (bits n x)) = bits w (field (Z.of_nat (n - i - w)) (Z.of_nat w) x).
Proof.
  intros H. apply list_eq. intros j. destruct (Nat.lt_ge_cases j w).
  - rewrite lookup_take_lt, lookup_drop, !bits_lookup by lia. rewrite field_bit by lia.
    destruct (Z.ltb_spec (Z.of_nat (w - 1 - j)) (Z.of_nat w)); [|lia]. cbn [andb]. do 2 f_equal. lia.
  - rewrite !lookup_ge_None_2; [done| |]; rewrite ?length_take, ?length_drop, ?length_bits; lia.
Qed.

Lemma concat_lookup4 (g : nat -> list bool) n s q : (forall k, length (g k) = 4%nat) -> (q < 4 * n)%nat ->
  concat (map g (seq s n)) !! q = g (s + q / 4)%nat !! (q mod 4)%nat.
Proof.
  intros Hg. revert s q; induction n as [|n IH]; intros s q Hq; [lia|]. cbn [seq map concat].
  destruct (Nat.lt_ge_cases q 4).
  - rewrite lookup_app_l by (rewrite Hg; lia). by rewrite Nat.div_small, Nat.mod_small, Nat.add_0_r by lia.
  - rewrite lookup_app_r by (rewrite Hg; lia). rewrite Hg, IH by lia.
    replace q with (q - 4 + 1 * 4)%nat at 3 4 by lia. rewrite Nat.div_add, Nat.Div0.mod_add by lia.
    f_equal; f_equal. lia.
Qed.

Lemma length_sbox k b : length b = 6%nat -> length (sbox k b) = 4%nat.
Proof. intros H. do 7 (destruct b as [|? b]; try discriminate H). apply length_bits. Qed.

(** Box [k] of the code at [v]: the permuted output of S-box [k], elsewhere zero. *)
Lemma psbox_checked :
  forallb (fun k => forallb (fun v =>
    (0 <=? tab psbox (Z.of_nat k) v) && (tab psbox (Z.of_nat k) v <? 2 ^ 32) &&
    forallb (fun j => let q := (default O (P !! j) - 1)%nat in
      eqb (Z.testbit (tab psbox (Z.of_nat k) v) (Z.of_nat (32 - 1 - j)))
          ((q / 4 =? k)%nat && default false (sbox k (bits 6 v) !! (q mod 4)%nat))) (seq 0 32)) (seqZ 0 64)) (seq 0 8) = true.
Proof. vm_compute. reflexivity. Qed.

Lemma psbox_bit k v : (k < 8)%nat -> word 6 v -> word 32 (tab psbox (Z.of_nat k) v) /\
  forall j, (j < 32)%nat -> let q := (default O (P !! j) - 1)%nat in
    Z.testbit (tab psbox (Z.of_nat k) v) (Z.of_nat (32 - 1 - j)) =
    (q / 4 =? k)%nat && default false (sbox k (bits 6 v) !! (q mod 4)%nat).
Proof.
  intros Hk Hv. pose proof psbox_checked as Hc. rewrite forallb_forall in Hc.
  specialize (Hc k ltac:(apply in_seq; lia)). rewrite forallb_forall in Hc.
  specialize (Hc v ltac:(apply list_elem_of_In, elem_of_seqZ; unfold word in Hv; lia)).
  apply andb_true_iff in Hc as [[H1%Z.leb_le H2%Z.ltb_lt]%andb_true_iff Hc]. split; [split; done|].
  rewrite forallb_forall in Hc. intros j Hj. specialize (Hc j ltac:(apply in_seq; lia)). exact (eqb_prop _ _ Hc).
Qed.

Lemma sp_boxes_lors a b : word 24 a -> word 24 b ->
  sp_boxes a b = lors (map (fun k => tab psbox (Z.of_nat k) (field (Z.of_nat (48 - 6 * k - 6)) 6 (join 24 a b))) (seq 0 8)).
Proof.
  intros Ha Hb. unfold sp_boxes.
  assert (Htop : forall x, word 24 x -> x ≫ 18 = field 18 6 x).
  { intros x Hx. apply Z.bits_inj'. intros i Hi. rewrite field_bit, Z.shiftr_spec by lia.
    destruct (Z.ltb_spec i 6); [done|]. by rewrite (word_testbit 24) by (done || lia). }
  rewrite !Htop by done. 
  change 0x3f with (Z.ones 6). fold (field 12 6 a) (field 6 6 a) (field 12 6 b) (field 6 6 b).
  assert (Hlow : forall x, x .& Z.ones 6 = field 0 6 x) by (intros x; unfold field; by rewrite Z.shiftr_0_r).
  rewrite !Hlow. unfold lors. cbn [seq map foldl]. rewrite Z.lor_0_l.
  rewrite <- !(field_join_hi 24 a b) by lia. rewrite <- !(field_join_lo 24 a b _ 6) by lia. reflexivity.
Qed.

Lemma P_checked : forallb (fun s => (1 <=? s)%nat && (s <=? 32)%nat) P = true /\ length P = 32%nat.
Proof. by vm_compute. Qed.

Lemma sp_boxes_spec a b : word 24 a -> word 24 b ->
  word 32 (sp_boxes a b) /\
  bits 32 (sp_boxes a b) =
    permute P (concat (map (fun k => sbox k (take 6 (drop (6 * k) (bits 24 a ++ bits 24 b)))) (seq 0 8))).
Proof.
  intros Ha Hb. rewrite sp_boxes_lors by done. set (x := join 24 a b).
  assert (Hx : bits 24 a ++ bits 24 b = bits 48 x) by (unfold x; by rewrite <- (bits_join 24 24)). rewrite Hx.
  rewrite (map_ext_in (fun k => sbox k (take 6 (drop (6 * k) (bits 48 x))))
             (fun k => sbox k (bits 6 (field (Z.of_nat (48 - 6 * k - 6)) 6 x)))).
  2: { intros k Hk%in_seq. by rewrite bits_field by lia. }
  split.
  - apply lors_word; [lia|]. apply Forall_map, Forall_forall. intros k Hk%list_elem_of_In%in_seq.
    apply psbox_bit; [lia|by apply field_word].
  - destruct P_checked as [Hr HP]. rewrite forallb_forall in Hr. apply list_eq. intros j.
    destruct (Nat.lt_ge_cases j 32); [|rewrite !lookup_ge_None_2; rewrite ?length_permute, ?length_bits; done || lia].
    rewrite bits_lookup, permute_lookup by lia. f_equal. rewrite lors_bit.
    destruct (lookup_lt_is_Some_2 P j ltac:(lia)) as [s Hs].
    specialize (Hr s (proj1 (list_elem_of_In _ _) (list_elem_of_lookup_2 _ _ _ Hs))).
    apply andb_true_iff in Hr as [H1%Nat.leb_le H2%Nat.leb_le]. rewrite Hs. cbn [from_option id].
    rewrite concat_lookup4 by (lia || (intros; by apply length_sbox, length_bits)). rewrite Nat.add_0_l.
    apply eq_iff_eq_true. rewrite existsb_exists. setoid_rewrite in_map_iff.
    pose proof (Nat.Div0.div_lt_upper_bound (s - 1) 4 8 ltac:(lia)) as Hdiv.
    assert (Hbit : forall k, (k < 8)%nat ->
      Z.testbit (tab psbox (Z.of_nat k) (field (Z.of_nat (48 - 6 * k - 6)) 6 x)) (Z.of_nat (32 - 1 - j)) =
      ((s - 1) / 4 =? k)%nat && default false (sbox k (bits 6 (field (Z.of_nat (48 - 6 * k - 6)) 6 x)) !! ((s - 1) mod 4)%nat)).
    { intros k Hk. destruct (psbox_bit k (field (Z.of_nat (48 - 6 * k - 6)) 6 x) Hk ltac:(by apply field_word)) as [_ Hp].
      specialize (Hp j ltac:(lia)). by rewrite Hs in Hp. }
    split.
    + intros (y & (k & <- & Hk%in_seq) & Hy). rewrite Hbit in Hy by lia.
      apply andb_true_iff in Hy as [->%Nat.eqb_eq Hy]. done.
    + intros Hy. eexists. split; [exists ((s - 1) / 4)%nat; split; [done|apply in_seq; lia]|].
      rewrite Hbit by lia. by rewrite Nat.eqb_refl, Hy.
Qed.

Lemma zip_map {A B C D} (g : B -> C -> D) (f1 : A -> B) (f2 : A -> C) l :
  zip_with g (map f1 l) (map f2 l) = map (fun x => g (f1 x) (f2 x)) l.
Proof. induction l as [|x l IH]; cbn; [done|by rewrite IH]. Qed.

Lemma xor_bits n x y : xor (bits n x) (bits n y) = bits n (x .^ y).
Proof. unfold xor, bits. rewrite zip_map. apply map_ext. intros j. by rewrite Z.lxor_spec. Qed.

Lemma xor_app a b c d : length a = length c -> xor (a ++ b) (c ++ d) = xor a c ++ xor b d.
Proof. apply zip_with_app. Qed.

(** A round key as the code keeps it, in two words of 24 bits. *)
Definition key_bits (kl kr : Z) : list bool := bits 24 kl ++ bits 24 kr.

Lemma salted_spec saltbits kl kr a b : let x := (a .^ b) .& saltbits in
  bits 24 (a .^ (x .^ kl)) ++ bits 24 (b .^ (x .^ kr)) =
  xor (salted (bits 24 saltbits) (bits 24 a ++ bits 24 b)) (key_bits kl kr).
Proof.
  intros x. unfold salted, key_bits. rewrite take_app_length', drop_app_length' by by rewrite length_bits.
  unfold bits, xor. rewrite !zip_map, zip_with_app by by rewrite !length_map. rewrite !zip_map.
  f_equal; apply map_ext; intros j; unfold x; rewrite !Z.lxor_spec, Z.land_spec, Z.lxor_spec; cbn [fst snd];
    repeat match goal with |- context [Z.testbit ?v ?k] => destruct (Z.testbit v k) end; done.
Qed.

Lemma round_f_spec saltbits kl kr r : word 24 saltbits -> word 24 kl -> word 24 kr ->
  word 32 (round_f saltbits kl kr r) /\
  bits 32 (round_f saltbits kl kr r) = f (bits 24 saltbits) (bits 32 r) (key_bits kl kr).
Proof.
  intros Hs Hl Hr. unfold round_f, f. destruct (expand_spec r) as (Ha & Hb & He). destruct (expand r) as [a b]. cbn [fst snd] in *.
  set (x := (a .^ b) .& saltbits). assert (Hx : word 24 x) by (apply word_land; [by apply word_lxor|done]).
  destruct (sp_boxes_spec (a .^ (x .^ kl)) (b .^ (x .^ kr))) as [Hw Hb'].
  1,2: apply word_lxor; [lia|done|by apply word_lxor].
  split; [done|]. rewrite Hb'. unfold x. rewrite salted_spec. by rewrite He.
Qed.

(** ** Sixteen rounds *)

Definition ekey_ok (k : expanded_key) : Prop := Forall (word 24) (l_ k) /\ Forall (word 24) (r_ k).
(** The round keys of the standard that an expanded key holds. *)
Definition ekeys (k : expanded_key) : list (list bool) :=
  map (fun i => key_bits (l_ k).[i] (r_ k).[i]) (seqZ 0 16).

Lemma aget_word n l i : 0 <= n -> Forall (word n) l -> word n l.[i].
Proof.
  intros Hn Hl. unfold aget. destruct (l !! Z.to_nat i) as [x|] eqn:E; cbn; [by apply (Forall_lookup_1 _ _ _ _ Hl E)|].
  unfold word. lia.
Qed.

Lemma length_permute_P b : length (permute P b) = 32%nat.
Proof. apply length_permute. Qed.

Lemma rounds_spec saltbits k l r : word 24 saltbits -> ekey_ok k -> word 32 l -> word 32 r ->
  let lr := rounds saltbits k (l, r) in
  word 32 lr.1 /\ word 32 lr.2 /\
  (bits 32 lr.1, bits 32 lr.2) = FIPS46.rounds (bits 24 saltbits) (ekeys k) (bits 32 l, bits 32 r).
Proof.
  intros Hs [Hkl Hkr] Hl Hr. unfold rounds, FIPS46.rounds, ekeys. revert l r Hl Hr.
  induction (seqZ 0 16) as [|i js IH]; intros l r Hl Hr; cbn [foldl map]; [done|].
  destruct (round_f_spec saltbits (l_ k).[i] (r_ k).[i] r Hs) as [Hw Hb]; [by apply aget_word|by apply aget_word|].
  unfold round at 2. cbn [fst snd]. rewrite <- Hb, xor_bits, Z.lxor_comm. apply IH; [done|]. by apply word_lxor.
Qed.

(** ** The whole cipher *)

Lemma permute_comp t1 t2 b : forallb (fun j => (1 <=? j)%nat && (j <=? length t2)%nat) t1 = true ->
  permute t1 (permute t2 b) = permute (map (fun j => default O (t2 !! (j - 1)%nat)) t1) b.
Proof.
  intros Ht. rewrite forallb_forall in Ht. unfold permute at 1 3. rewrite map_map. apply map_ext_in. intros j Hj.
  specialize (Ht j Hj). apply andb_true_iff in Ht as [H1%Nat.leb_le H2%Nat.leb_le]. by rewrite permute_lookup by lia.
Qed.

Lemma permute_id n b : length b = n -> permute (seq 1 n) b = b.
Proof.
  intros Hb. apply list_eq. intros i. destruct (Nat.lt_ge_cases i n).
  - rewrite permute_lookup by (rewrite length_seq; done). rewrite lookup_seq_lt by done. cbn [from_option id].
    replace (1 + i - 1)%nat with i by lia. by destruct (lookup_lt_is_Some_2 b i ltac:(lia)) as [x ->].
  - rewrite !lookup_ge_None_2; [done| |]; rewrite ?length_permute, ?length_seq; lia.
Qed.

Lemma IP_FP b : length b = 64%nat -> permute IP (permute FP b) = b.
Proof.
  intros Hb. rewrite permute_comp by (vm_compute; reflexivity).
  etransitivity; [|apply (permute_id 64 b Hb)]. reflexivity.
Qed.
Lemma FP_IP b : length b = 64%nat -> permute FP (permute IP b) = b.
Proof.
  intros Hb. rewrite permute_comp by (vm_compute; reflexivity).
  etransitivity; [|apply (permute_id 64 b Hb)]. reflexivity.
Qed.

(** Iterated DES: the permutations between the iterations cancel. *)
Lemma iter_rounds salt Ks n : forall b, length b = 64%nat ->
  (forall LR, length LR.1 = 32%nat -> length LR.2 = 32%nat ->
     length (FIPS46.rounds salt Ks LR).1 = 32%nat /\ length (FIPS46.rounds salt Ks LR).2 = 32%nat) ->
  let LR := Nat.iter n (FIPS46.rounds salt Ks) (take 32 (permute IP b), drop 32 (permute IP b)) in
  permute FP (LR.1 ++ LR.2) = Nat.iter n (des salt Ks) b /\ length LR.1 = 32%nat /\ length LR.2 = 32%nat.
Proof.
  intros b Hb Hlen. induction n as [|n IH].
  - cbn [Nat.iter nat_rect fst snd]. cbn zeta. cbn [fst snd]. rewrite take_drop. split; [by apply FP_IP|].
    rewrite length_take, length_drop, length_permute. by split.
  - cbn zeta in *. rewrite !Nat.iter_succ. destruct IH as (IH & H1 & H2). rewrite <- IH.
    destruct (Nat.iter n (FIPS46.rounds salt Ks) _) as [L R]. cbn [fst snd] in *.
    destruct (Hlen (L, R) H1 H2) as [H3 H4]. split; [|done].
    unfold des. rewrite IP_FP by (rewrite length_app; lia). rewrite take_app_length', drop_app_length' by done.
    by destruct (FIPS46.rounds salt Ks (L, R)).
Qed.

Lemma length_xor a b : length (xor a b) = Nat.min (length a) (length b).
Proof. unfold xor. apply length_zip_with. Qed.

Lemma length_f salt R K : length (f salt R K) = 32%nat.
Proof. apply length_permute. Qed.

Lemma length_rounds salt Ks LR : length LR.1 = 32%nat -> length LR.2 = 32%nat ->
  length (FIPS46.rounds salt Ks LR).1 = 32%nat /\ length (FIPS46.rounds salt Ks LR).2 = 32%nat.
Proof.
  unfold FIPS46.rounds. revert LR. induction Ks as [|K Ks IH]; intros [L R] HL HR; cbn [foldl fst snd] in *; [done|].
  apply IH; cbn [round fst snd]; [done|]. rewrite length_xor, length_f, HL. lia.
Qed.

Lemma do_des_spec l r count saltbits k : word 32 l -> word 32 r -> word 24 saltbits -> ekey_ok k ->
  holds 32 (do_des l r count saltbits k)
    (Nat.iter (Z.to_nat count) (des (bits 24 saltbits) (ekeys k)) (bits 32 l ++ bits 32 r)).
Proof.
  intros Hl Hr Hs Hk. unfold do_des.
  set (lr := if negb (l .| r =? 0) then init_perm l r else (0, 0)).
  assert (Hi : lr = init_perm l r).
  { unfold lr. destruct (Z.eqb_spec (l .| r) 0) as [E|]; [|done]. apply Z.lor_eq_0_iff in E as [-> ->]. by vm_compute. }
  rewrite Hi. clear lr Hi. set (b := bits 32 l ++ bits 32 r).
  assert (Hb : length b = 64%nat) by (unfold b; by rewrite length_app, !length_bits).
  destruct (iter_rounds (bits 24 saltbits) (ekeys k) (Z.to_nat count) b Hb (length_rounds _ _)) as [<- _].
  destruct (init_perm_spec l r) as (H1 & H2 & H3). fold b in H3. rewrite <- H3.
  destruct (init_perm l r) as [l0 r0]. cbn [fst snd] in *.
  rewrite take_app_length', drop_app_length' by by rewrite length_bits.
  assert (Hn : let lr := Nat.iter (Z.to_nat count) (rounds saltbits k) (l0, r0) in
    word 32 lr.1 /\ word 32 lr.2 /\ (bits 32 lr.1, bits 32 lr.2) =
      Nat.iter (Z.to_nat count) (FIPS46.rounds (bits 24 saltbits) (ekeys k)) (bits 32 l0, bits 32 r0)).
  { induction (Z.to_nat count) as [|n IH]; [done|]. cbn zeta in *. rewrite !Nat.iter_succ.
    destruct IH as (IH1 & IH2 & <-). destruct (Nat.iter n _ (l0, r0)) as [l1 r1]. by apply rounds_spec. }
  destruct (Nat.iter _ (rounds saltbits k) (l0, r0)) as [l1 r1]. destruct Hn as (H4 & H5 & <-).
  apply final_perm_spec.
Qed.

(** ** The key schedule *)

(** The rotations of each round, from those of the rounds before. *)
Fixpoint cums (sh : Z) (js : list Z) : list Z :=
  match js with
  | [] => []
  | i :: js => (sh + key_shifts.[i]) :: cums (sh + key_shifts.[i]) js
  end.

Lemma setkey_loop k0 k1 js : forall ls rs sh,
  foldl (fun '(ekey, shifts) round =>
      let shifts := shifts + key_shifts.[round] in
      let '(kl, kr) := compress (rot_key k0 shifts) (rot_key k1 shifts) in
      (Ekey (l_ ekey ++ [kl]) (r_ ekey ++ [kr]), shifts)) (Ekey ls rs, sh) js =
  (Ekey (ls ++ map (fun s => (compress (rot_key k0 s) (rot_key k1 s)).1) (cums sh js))
        (rs ++ map (fun s => (compress (rot_key k0 s) (rot_key k1 s)).2) (cums sh js)), foldl (fun s i => s + key_shifts.[i]) sh js).
Proof.
  induction js as [|i js IH]; intros ls rs sh; [cbn; by rewrite !app_nil_r|].
  cbn [foldl cums map]. destruct (compress (rot_key k0 _) (rot_key k1 _)) as [kl kr] eqn:Ec.
  rewrite IH. cbn [l_ r_ fst snd]. by rewrite <- !app_assoc.
Qed.

Lemma length_rotl n b : length (rotl n b) = length b.
Proof. unfold rotl. rewrite length_app, length_drop, length_take. lia. Qed.

Lemma rotl_rotl n m b : (n + m <= length b)%nat -> rotl n (rotl m b) = rotl (m + n) b.
Proof.
  intros H. unfold rotl. rewrite drop_app_le, take_app_le by (rewrite length_drop; lia).
  rewrite drop_drop, <- app_assoc. f_equal. by rewrite take_take_drop.
Qed.

Fixpoint ncums (m : nat) (sh : list nat) : list nat :=
  match sh with
  | [] => []
  | n :: sh => (m + n)%nat :: ncums (m + n) sh
  end.

Lemma schedule_cums sh : forall m C D, length C = 28%nat -> length D = 28%nat -> (m + list_sum sh <= 28)%nat ->
  schedule sh (rotl m C) (rotl m D) = map (fun s => permute PC2 (rotl s C ++ rotl s D)) (ncums m sh).
Proof.
  induction sh as [|n sh IH]; intros m C D HC HD Hs; [done|]. unfold list_sum in Hs. cbn [foldr] in Hs. fold (list_sum sh) in Hs.
  cbn [schedule ncums map]. rewrite !rotl_rotl by lia. f_equal. apply IH; try done; lia.
Qed.

Lemma rot_key_bits k s : word 28 k -> 0 < s <= 28 -> bits 28 (rot_key k s) = rotl (Z.to_nat s) (bits 28 k).
Proof.
  intros Hk Hs. apply list_eq. intros i.
  destruct (Nat.lt_ge_cases i 28); [|rewrite !lookup_ge_None_2; rewrite ?length_rotl, ?length_bits; done || lia].
  rewrite bits_lookup by done. unfold rot_key, shl32, u32. rewrite Z.lor_spec, wrap_testbit, shl_bit, Z.shiftr_spec by lia.
  destruct (Z.ltb_spec (Z.of_nat (28 - 1 - i)) 32); [|lia]. cbn [andb]. unfold rotl.
  destruct (Z.leb_spec s (Z.of_nat (28 - 1 - i))).
  - rewrite lookup_app_l, lookup_drop, bits_lookup by (rewrite ?length_drop, ?length_bits; lia).
    rewrite (word_testbit 28 k (_ + (28 - s))) by (done || lia). rewrite orb_false_r. cbn [andb]. do 2 f_equal. lia.
  - rewrite lookup_app_r, lookup_take_lt, length_drop, length_bits, bits_lookup by (rewrite ?length_drop, ?length_bits; lia).
    cbn [andb orb]. do 2 f_equal. lia.
Qed.

(** Eight bytes as 64 bits, and as two words. *)
Definition byte_bits (l : list Z) : list bool := concat (map (bits 8) l).

Lemma shl32_small x n : 0 <= n <= 32 -> word (32 - n) x -> shl32 x n = x ≪ n.
Proof.
  intros Hn [H1 H2]. apply wrap_small. unfold word. rewrite Z.shiftl_mul_pow2 by lia.
  replace (2 ^ 32) with (2 ^ (32 - n) * 2 ^ n) by (rewrite <- Z.pow_add_r by lia; f_equal; lia).
  assert (0 < 2 ^ n) by (apply Z.pow_pos_nonneg; lia). nia.
Qed.

Lemma byte_join x b : byte_ok b -> join 8 x b = 256 * x + b.
Proof. intros Hb. unfold join. change (b mod 2 ^ 8) with (wrap 8 b). rewrite wrap_small by done. lia. Qed.

Lemma byte_shl x n : 0 <= n <= 24 -> byte_ok x -> shl32 x n = x ≪ n.
Proof.
  intros Hn Hx. apply shl32_small; [lia|]. unfold word in *. split; [lia|].
  apply (Z.lt_le_trans _ (2 ^ 8)); [lia|]. apply Z.pow_le_mono_r; lia.
Qed.

Lemma load_be_spec a b c d l i : bytes [a; b; c; d] -> take 4 (drop (Z.to_nat i) l) = [a; b; c; d] -> 0 <= i ->
  word 32 (load_be l i) /\ bits 32 (load_be l i) = byte_bits [a; b; c; d].
Proof.
  intros Hb Hl Hi.
  assert (Hg : forall j, 0 <= j < 4 -> l.[i + j] = [a; b; c; d].[j]).
  { intros j Hj. rewrite <- Hl. unfold aget. rewrite lookup_take_lt, lookup_drop by lia. do 2 f_equal. lia. }
  pose proof (Hg 0 ltac:(lia)) as E0. rewrite Z.add_0_r in E0. unfold load_be. rewrite E0, !Hg by lia.
  change [a; b; c; d].[0] with a. change [a; b; c; d].[1] with b. change [a; b; c; d].[2] with c. change [a; b; c; d].[3] with d.
  pose proof Hb as Hb'. rewrite !Forall_cons in Hb'. destruct Hb' as (Ha & Hbb & Hc & Hd & _).
  rewrite !byte_shl by (done || lia). rewrite <- be_val4 by done.
  assert (E : be_val [a; b; c; d] = join 8 (join 8 (join 8 a b) c) d).
  { rewrite !byte_join by done. unfold be_val. cbn [foldl]. lia. }
  split.
  - rewrite be_val_le. apply (le_val_word (reverse [a; b; c; d])). by apply Forall_reverse.
  - rewrite E. unfold byte_bits. cbn [map concat]. rewrite app_nil_r.
    pose proof (bits_join 24 8 (join 8 (join 8 a b) c) d) as J1. pose proof (bits_join 16 8 (join 8 a b) c) as J2.
    pose proof (bits_join 8 8 a b) as J3. cbn [Nat.add] in J1, J2, J3.
    change (Z.of_nat 8) with 8 in *. rewrite J1, J2, J3. by rewrite <- !app_assoc.
Qed.

(** Any eight bytes. *)
Lemma load_be_pair key : bytes key -> length key = 8%nat ->
  word 32 (load_be key 0) /\ word 32 (load_be key 4) /\
  bits 32 (load_be key 0) ++ bits 32 (load_be key 4) = byte_bits key.
Proof.
  intros Hb Hl. do 8 (destruct key as [|? key]; [discriminate Hl|]). destruct key; [|discriminate Hl].
  rewrite !Forall_cons in Hb. destruct Hb as (? & ? & ? & ? & ? & ? & ? & ? & _).
  edestruct (load_be_spec z z0 z1 z2 [z; z0; z1; z2; z3; z4; z5; z6] 0) as [Hw1 ->]; [by rewrite !Forall_cons, Forall_nil|done|lia|].
  edestruct (load_be_spec z3 z4 z5 z6 [z; z0; z1; z2; z3; z4; z5; z6] 4) as [Hw2 ->]; [by rewrite !Forall_cons, Forall_nil|done|lia|].
  split; [done|]. split; [done|]. unfold byte_bits. cbn [map concat]. rewrite !app_nil_r, <- !app_assoc. done.
Qed.

Lemma setkey_spec key : bytes key -> length key = 8%nat ->
  ekey_ok (des_setkey key) /\ ekeys (des_setkey key) = keys (byte_bits key).
Proof.
  intros Hb Hl. destruct (load_be_pair key Hb Hl) as (_ & _ & <-). unfold des_setkey, keys.
  destruct (key_perm_spec (load_be key 0) (load_be key 4)) as (Hk0 & Hk1 & <-).
  destruct (key_perm (load_be key 0) (load_be key 4)) as [k0 k1]. cbn [fst snd] in *.
  rewrite setkey_loop. cbn zeta. rewrite !app_nil_l. rewrite take_app_length', drop_app_length' by by rewrite length_bits.
  assert (Hr : forall b, rotl 0 b = b) by (intros b; unfold rotl; by rewrite drop_0, take_0, app_nil_r).
  rewrite <- (Hr (bits 28 k0)), <- (Hr (bits 28 k1)). rewrite schedule_cums by (rewrite ?length_bits; vm_compute; done || lia).
  set (cs := cums 0 (seqZ 0 16)). assert (Hcs : Forall (fun s => 0 < s <= 28) cs) by (apply (bool_decide_unpack _); vm_compute; exact I).
  assert (Hn : ncums 0 FIPS46.shifts = map Z.to_nat cs) by (vm_compute; reflexivity). split.
  - split; cbn [l_ r_]; apply Forall_map, Forall_forall; intros s _;
      destruct (compress_spec (rot_key k0 s) (rot_key k1 s)) as (? & ? & _); done.
  - rewrite Hn, map_map. unfold ekeys. cbn [l_ r_].
    transitivity (map (fun s => key_bits (compress (rot_key k0 s) (rot_key k1 s)).1 (compress (rot_key k0 s) (rot_key k1 s)).2) cs).
    + set (g := fun s => compress (rot_key k0 s) (rot_key k1 s)).
      change (map (fun i => key_bits (map (fun s => (g s).1) cs).[i] (map (fun s => (g s).2) cs).[i]) (seqZ 0 16) =
              map (fun s => key_bits (g s).1 (g s).2) cs). clearbody g. vm_compute in cs. subst cs. reflexivity.
    + apply map_ext_in. intros s Hin%list_elem_of_In. pose proof (proj1 (Forall_forall _ _) Hcs s Hin) as Hs0. cbn beta in Hs0.
      destruct (compress_spec (rot_key k0 s) (rot_key k1 s)) as (_ & _ & Hc). unfold key_bits. rewrite Hc.
      by rewrite !rot_key_bits by done.
Qed.

(** ** Deciphering *)

Definition swap {A} (p : A * A) : A * A := (p.2, p.1).

Lemma xor_xor a b : length a = length b -> xor (xor a b) b = a.
Proof.
  unfold xor. revert b. induction a as [|x a IH]; intros [|y b] H; try discriminate H; [done|]. cbn.
  rewrite IH by (injection H; done). f_equal. by destruct x, y.
Qed.

Lemma feistel salt Ks : forall LR, length LR.1 = 32%nat -> length LR.2 = 32%nat ->
  foldl (round salt) (swap (foldl (round salt) LR Ks)) (rev Ks) = swap LR.
Proof.
  induction Ks as [|K Ks IH]; intros [L R] HL HR; [done|]. cbn [foldl rev fst snd] in *. rewrite foldl_app.
  rewrite IH; cbn [round fst snd foldl]; [|done|rewrite length_xor, length_f; lia].
  unfold swap. cbn [fst snd]. unfold round. cbn [fst snd]. f_equal. apply xor_xor. rewrite length_f. done.
Qed.

Lemma des_inverse salt Ks b : length b = 64%nat -> des salt (rev Ks) (des salt Ks b) = b.
Proof.
  intros Hb. unfold des at 2. set (p := permute IP b).
  assert (Hp : length p = 64%nat) by apply length_permute.
  destruct (length_rounds salt Ks (take 32 p, drop 32 p)) as [H1 H2];
    [cbn [fst]; rewrite length_take; lia|cbn [snd]; rewrite length_drop; lia|].
  assert (Hf := feistel salt Ks (take 32 p, drop 32 p) ltac:(cbn [fst]; rewrite length_take; lia) ltac:(cbn [snd]; rewrite length_drop; lia)).
  unfold FIPS46.rounds in *. destruct (foldl (round salt) (take 32 p, drop 32 p) Ks) as [L R]. cbn [fst snd] in *.
  unfold des, FIPS46.rounds. rewrite IP_FP by (rewrite length_app; lia).
  rewrite take_app_length', drop_app_length' by done. unfold swap in Hf. cbn [fst snd] in Hf. rewrite Hf.
  rewrite take_drop. by apply FP_IP.
Qed.

Lemma length_des salt Ks b : length (des salt Ks b) = 64%nat.
Proof. unfold des. destruct (FIPS46.rounds _ _ _). apply length_permute. Qed.

(** ** Bytes and bits *)

Lemma bits_split n m x : bits (n + m) x = bits n (x ≫ Z.of_nat m) ++ bits m x.
Proof.
  rewrite <- bits_join. apply bits_ext. intros i _. rewrite join_bit by lia.
  destruct (Z.ltb_spec (Z.of_nat i) (Z.of_nat m)); [done|]. rewrite Z.shiftr_spec by lia. f_equal. lia.
Qed.

Lemma bits_u8 x : bits 8 (u8 x) = bits 8 x.
Proof. apply bits_ext. intros i Hi. unfold u8. rewrite wrap_testbit by lia. by destruct (Z.ltb_spec (Z.of_nat i) 8); [|lia]. Qed.

Lemma store_be_bits x : byte_bits [u8 (x ≫ 24); u8 (x ≫ 16); u8 (x ≫ 8); u8 x] = bits 32 x.
Proof.
  unfold byte_bits. cbn [map concat]. rewrite app_nil_r, !bits_u8.
  pose proof (bits_split 24 8 x) as J1. pose proof (bits_split 16 8 (x ≫ 8)) as J2. pose proof (bits_split 8 8 ((x ≫ 8) ≫ 8)) as J3.
  cbn [Nat.add] in J1, J2, J3. change (Z.of_nat 8) with 8 in *. rewrite J1, J2, J3, !Z.shiftr_shiftr by lia.
  by rewrite <- !app_assoc.
Qed.

Lemma des_cipher_spec input count saltbits k : bytes input -> length input = 8%nat -> word 24 saltbits -> ekey_ok k ->
  bytes (des_cipher input count saltbits k) /\ length (des_cipher input count saltbits k) = 8%nat /\
  byte_bits (des_cipher input count saltbits k) =
    Nat.iter (Z.to_nat count) (des (bits 24 saltbits) (ekeys k)) (byte_bits input).
Proof.
  intros Hb Hl Hs Hk. destruct (load_be_pair input Hb Hl) as (H0 & H4 & <-). unfold des_cipher.
  destruct (do_des_spec _ _ count saltbits k H0 H4 Hs Hk) as (_ & _ & <-).
  destruct (do_des _ _ _ _ _) as [l r]. cbn [fst snd]. split; [rewrite !Forall_cons, Forall_nil; auto 10 with words|].
  split; [done|]. rewrite <- (store_be_bits l), <- (store_be_bits r). unfold byte_bits. cbn [map concat].
  by rewrite !app_nil_r, <- !app_assoc.
Qed.

(** ** Characters that stand for bits *)

Definition char_bits (l : list Z) : list bool := map (fun c => Z.testbit c 0) l.

Lemma foldl_lors {A} (g : A -> Z) l : foldl (fun b j => b .| g j) 0 l = lors (map g l).
Proof. unfold lors. generalize 0. induction l as [|x l IH]; intros a; cbn; [done|apply IH]. Qed.

Lemma bit_char_shl c j o : 0 <= j < 32 -> 0 <= o < 32 ->
  Z.testbit (shl32 (c .& 1) j) o = (o =? j) && Z.testbit c 0.
Proof.
  intros Hj Ho. unfold shl32, u32. rewrite wrap_testbit, shl_bit, Z.land_spec by lia.
  destruct (Z.ltb_spec o 32); [|lia]. cbn [andb]. destruct (Z.eqb_spec o j) as [->|].
  - rewrite Z.sub_diag, Z.leb_refl. cbn. apply andb_true_r.
  - destruct (Z.leb_spec j o); [|done]. cbn [andb]. change 1 with (Z.ones 1).
    rewrite Z.ones_spec_high by lia. apply andb_false_r.
Qed.

Lemma pack_spec n p : (n <= 32)%nat -> (n <= length p)%nat ->
  bits n (pack (Z.of_nat n) p) = char_bits (take n p) /\ word (Z.of_nat n) (pack (Z.of_nat n) p).
Proof.
  intros Hn Hp. unfold pack. rewrite foldl_lors. set (g := fun j => shl32 (p.[Z.of_nat n - 1 - j] .& 1) j).
  assert (Hbit : forall o, 0 <= o < 32 -> Z.testbit (lors (map g (rev (seqZ 0 (Z.of_nat n))))) o =
                 (o <? Z.of_nat n) && Z.testbit p.[Z.of_nat n - 1 - o] 0).
  { intros o Ho. rewrite lors_bit. apply eq_iff_eq_true. rewrite existsb_exists, andb_true_iff, Z.ltb_lt.
    setoid_rewrite in_map_iff. setoid_rewrite <- in_rev. split.
    - intros (y & (j & <- & Hj%list_elem_of_In%elem_of_seqZ) & Hy). unfold g in Hy. rewrite bit_char_shl in Hy by lia.
      apply andb_true_iff in Hy as [->%Z.eqb_eq Hy]. split; [lia|done].
    - intros [Ho' Hy]. eexists. split; [exists o; split; [done|apply list_elem_of_In, elem_of_seqZ; lia]|].
      unfold g. rewrite bit_char_shl by lia. by rewrite Z.eqb_refl. }
  split.
  - apply list_eq. intros i. destruct (Nat.lt_ge_cases i n).
    + rewrite bits_lookup by done. rewrite Hbit by lia. destruct (Z.ltb_spec (Z.of_nat (n - 1 - i)) (Z.of_nat n)); [|lia].
      unfold char_bits. change (map ?g ?l) with (fmap (M := list) g l). rewrite list_lookup_fmap, lookup_take_lt by done.
      replace (Z.of_nat n - 1 - Z.of_nat (n - 1 - i)) with (Z.of_nat i) by lia. unfold aget. rewrite Nat2Z.id.
      by destruct (lookup_lt_is_Some_2 p i ltac:(lia)) as [x ->].
    + rewrite !lookup_ge_None_2; [done| |]; unfold char_bits; rewrite ?length_map, ?length_take, ?length_bits; lia.
  - apply word_of_bits; [lia| |].
    + eapply proj1. apply (lors_word 32); [lia|]. apply Forall_map, Forall_forall. intros j _. apply wrap_word. lia.
    + intros i Hi. destruct (Z.lt_ge_cases i 32).
      * rewrite Hbit by lia. by destruct (Z.ltb_spec i (Z.of_nat n)); [lia|].
      * apply (word_testbit 32); [|lia]. apply lors_word; [lia|]. apply Forall_map, Forall_forall. intros j _. apply wrap_word. lia.
Qed.

Lemma unpack_spec b : unpack b = map Z.b2z (bits 32 b).
Proof.
  unfold unpack, bits. rewrite map_map. change (rev (seqZ 0 32)) with (map (fun j => Z.of_nat (32 - 1 - j)) (seq 0 32)).
  rewrite map_map. apply map_ext_in. intros j _. change 1 with (Z.ones 1) at 1. rewrite Z.land_ones, Z.shiftr_div_pow2 by lia.
  symmetry. apply Z.testbit_spec'. lia.
Qed.

Lemma char_bits_b2z b : char_bits (map Z.b2z b) = b.
Proof. unfold char_bits. rewrite map_map. induction b as [|x b IH]; cbn [map]; [done|]. rewrite IH. by destruct x. Qed.

Lemma setkey_chars key : length key = 64%nat ->
  ekey_ok (setkey key) /\ ekeys (setkey key) = keys (char_bits key).
Proof.
  intros Hl. unfold setkey. set (bk := map _ _).
  assert (Hw : forall i, word 8 (pack 8 (drop (8 * i) key)) \/ (7 < i)%nat).
  { intros i. destruct (Nat.lt_ge_cases 7 i); [by right|left]. apply (pack_spec 8); rewrite ?length_drop; lia. }
  destruct (setkey_spec bk) as [H1 H2].
  - apply Forall_map, Forall_forall. intros i _. apply u8_word.
  - done.
  - split; [done|]. rewrite H2. f_equal. unfold byte_bits, bk. rewrite map_map.
    rewrite (map_ext_in _ (fun i => char_bits (take 8 (drop (8 * i) key)))).
    + do 64 (destruct key as [|? key]; [discriminate Hl|]). destruct key; [done|discriminate Hl].
    + intros i Hi%in_seq. rewrite bits_u8. apply (pack_spec 8); rewrite ?length_drop; lia.
Qed.

Lemma encrypt_spec block edflag k : length block = 64%nat -> ekey_ok k ->
  encrypt block edflag k =
    map Z.b2z (des (bits 24 0) (if edflag =? 0 then ekeys k else rev (ekeys k)) (char_bits block)).
Proof.
  intros Hl Hk. unfold encrypt. set (k' := if negb _ then _ else _).
  assert (Hk' : ekey_ok k' /\ ekeys k' = if edflag =? 0 then ekeys k else rev (ekeys k)).
  { unfold k'. destruct (Z.eqb_spec edflag 0); [done|]. cbn [negb]. split; [|reflexivity].
    destruct Hk as [Hkl Hkr]. split; apply Forall_map, Forall_forall; intros i _; by apply aget_word. }
  destruct Hk' as [Hk1 <-].
  destruct (pack_spec 32 block) as [Hb0 Hw0]; [lia|lia|]. destruct (pack_spec 32 (drop 32 block)) as [Hb1 Hw1]; [lia|rewrite length_drop; lia|].
  change (Z.of_nat 32) with 32 in *.
  destruct (do_des_spec (pack 32 block) (pack 32 (drop 32 block)) 1 0 k' Hw0 Hw1 ltac:(unfold word; lia) Hk1) as (_ & _ & Hd).
  destruct (do_des _ _ _ _ _) as [l r]. cbn [fst snd] in Hd. rewrite !unpack_spec, <- map_app, Hd, Hb0, Hb1.
  cbn [Z.to_nat Pos.to_nat Pos.iter_op Nat.iter nat_rect]. do 2 f_equal.
  unfold char_bits. rewrite <- map_app. by rewrite (take_ge (drop 32 block)), take_drop by (rewrite length_drop; lia).
Qed.

(** ** Theorems *)

(** C7: the cipher built on tables of masks is DES. For every key and block
    of eight bytes, [des_setkey] holds the sixteen round keys of FIPS 46-3
    and [des_cipher] with a count of 1 and no salt writes the eight bytes of
    the enciphered block; with any count and salt it writes the block
    enciphered [count] times, the permutations between the iterations
    included, with the expansion salted as crypt(3) says (no salt leaving it
    alone). *)
Theorem des_fips46 key block count saltbits : bytes key -> length key = 8%nat -> bytes block -> length block = 8%nat ->
  word 24 saltbits ->
  ekeys (des_setkey key) = keys (byte_bits key) /\
  bytes (des_cipher block count saltbits (des_setkey key)) /\
  length (des_cipher block count saltbits (des_setkey key)) = 8%nat /\
  byte_bits (des_cipher block count saltbits (des_setkey key)) =
    Nat.iter (Z.to_nat count) (des (bits 24 saltbits) (keys (byte_bits key))) (byte_bits block) /\
  byte_bits (des_cipher block 1 0 (des_setkey key)) = des (replicate 24 false) (keys (byte_bits key)) (byte_bits block) /\
  forall e, length e = 48%nat -> salted (replicate 24 false) e = e.
Proof.
  intros Hkb Hkl Hb Hl Hs. destruct (setkey_spec key Hkb Hkl) as [Hok Hks]. split; [done|].
  destruct (des_cipher_spec block count saltbits _ Hb Hl Hs Hok) as (H1 & H2 & H3). rewrite Hks in H3.
  destruct (des_cipher_spec block 1 0 _ Hb Hl ltac:(unfold word; lia) Hok) as (_ & _ & H4).
  rewrite Hks in H4. change (bits 24 0) with (replicate 24 false) in H4.
  change (Z.to_nat 1) with 1%nat in H4. rewrite Nat.iter_succ in H4. unfold Nat.iter in H4 at 1. cbn [nat_rect] in H4.
  split; [done|]. split; [done|]. split; [done|]. split; [exact H4|].
  intros e He. do 48 (destruct e as [|? e]; [discriminate He|]). destruct e; [reflexivity|discriminate He].
Qed.

Lemma des_fips46_witness :
  des_cipher [0x01; 0x23; 0x45; 0x67; 0x89; 0xab; 0xcd; 0xef] 1 0 (des_setkey [0x13; 0x34; 0x57; 0x79; 0x9b; 0xbc; 0xdf; 0xf1]) =
    [0x85; 0xe8; 0x13; 0x54; 0x0f; 0x0a; 0xb4; 0x05] /\
  des (replicate 24 false) (keys (byte_bits [0x13; 0x34; 0x57; 0x79; 0x9b; 0xbc; 0xdf; 0xf1]))
      (byte_bits [0x01; 0x23; 0x45; 0x67; 0x89; 0xab; 0xcd; 0xef]) = byte_bits [0x85; 0xe8; 0x13; 0x54; 0x0f; 0x0a; 0xb4; 0x05].
Proof.
  assert (E : des_cipher [0x01; 0x23; 0x45; 0x67; 0x89; 0xab; 0xcd; 0xef] 1 0 (des_setkey [0x13; 0x34; 0x57; 0x79; 0x9b; 0xbc; 0xdf; 0xf1]) =
    [0x85; 0xe8; 0x13; 0x54; 0x0f; 0x0a; 0xb4; 0x05]) by (vm_compute; reflexivity).
  assert (Hk : bytes [0x13; 0x34; 0x57; 0x79; 0x9b; 0xbc; 0xdf; 0xf1]) by (unfold word; rewrite !Forall_cons, Forall_nil; lia).
  assert (Hb : bytes [0x01; 0x23; 0x45; 0x67; 0x89; 0xab; 0xcd; 0xef]) by (unfold word; rewrite !Forall_cons, Forall_nil; lia).
  assert (Hs : word 24 0) by (unfold word; lia).
  split; [exact E|].
  destruct (des_fips46 _ _ 1 0 Hk eq_refl Hb eq_refl Hs) as (_ & _ & _ & _ & Hd & _).
  rewrite <- Hd, E. reflexivity.
Defined.

(** [setkey] and [encrypt] on 64 characters that stand for bits: with
    [edflag] 0 the block becomes the bits that DES gives, otherwise those of
    the inverse cipher: each direction undoes the other, up to the characters
    becoming 0 and 1. *)
Theorem encrypt_inverse key block edflag : length key = 64%nat -> length block = 64%nat -> edflag <> 0 ->
  let k := setkey key in
  encrypt block 0 k = map Z.b2z (des (replicate 24 false) (keys (char_bits key)) (char_bits block)) /\
  encrypt (encrypt block 0 k) edflag k = map (fun c => c .& 1) block /\
  encrypt (encrypt block edflag k) 0 k = map (fun c => c .& 1) block.
Proof.
  intros Hk Hb He k. destruct (setkey_chars key Hk) as [Hok Hks]. fold k in Hok, Hks.
  assert (Hlb : length (char_bits block) = 64%nat) by (unfold char_bits; by rewrite length_map).
  assert (Hlow : map (fun c => c .& 1) block = map Z.b2z (char_bits block)).
  { unfold char_bits. rewrite map_map. apply map_ext. intros c. change 1 with (Z.ones 1). rewrite Z.land_ones by lia.
    symmetry. pose proof (Z.testbit_spec' c 0 ltac:(lia)) as E. by rewrite Z.div_1_r in E. }
  assert (Hlen : forall s Ks b, length (map Z.b2z (des s Ks b)) = 64%nat) by (intros; by rewrite length_map, length_des).
  rewrite !(encrypt_spec block) by done. rewrite !encrypt_spec by done. rewrite !char_bits_b2z, Hks, Hlow.
  rewrite (proj2 (Z.eqb_neq edflag 0) He), Z.eqb_refl. split; [done|]. split.
  - f_equal. by apply des_inverse.
  - f_equal. rewrite <- (rev_involutive (keys (char_bits key))) at 1. by apply des_inverse.
Qed.

Lemma encrypt_inverse_witness :
  let key := map Z.b2z (bits 64 0x133457799bbcdff1) in
  let block := map Z.b2z (bits 64 0x0123456789abcdef) in
  encrypt block 0 (setkey key) = map Z.b2z (bits 64 0x85e813540f0ab405) /\
  encrypt (map Z.b2z (bits 64 0x85e813540f0ab405)) 1 (setkey key) = block.
Proof.
  intros key block.
  assert (E : encrypt block 0 (setkey key) = map Z.b2z (bits 64 0x85e813540f0ab405)) by (vm_compute; reflexivity).
  assert (Hk : length key = 64%nat) by reflexivity. assert (Hb : length block = 64%nat) by reflexivity.
  assert (H1 : 1 <> 0) by lia.
  destruct (encrypt_inverse key block 1 Hk Hb H1) as (_ & Hd & _).
  split; [exact E|]. rewrite <- E, Hd. vm_compute. reflexivity.
Defined.
