(* ===== verification/DesCrypt.v ===== *)
(** * DesCrypt: the DES-based password hash of src/src/crypt/crypt_des.c.

    The traditional and the extended (underscore) settings, the encoding of
    the result and the self-test, against a reference in terms of FIPS 46-3. *)

From S2P Require Import Prelude DesTables Des.
Import FIPS46(value, bits, xor, keys, des).

(** ** The code *)

Definition ascii64 : list Z := ascii_bytes "./0123456789ABCDEFGHIJKLMNOPQRSTUVWXYZabcdefghijklmnopqrstuvwxyz".
Notation "'_PASSWORD_EFMT1'" := 0x5f (only parsing).

Definition ascii_to_bin (ch : Z) : Z :=
  let sch := if ch <? 0x80 then ch else - (0x100 - ch) in
  let retval := sch - 0x2e in
  let retval := if 0x41 <=? sch then if 0x61 <=? sch then sch - (0x61 - 38) else sch - (0x41 - 12) else retval in
  retval .& 0x3f.

Definition ascii_is_unsafe (ch : Z) : bool := (ch =? 0) || (ch =? 0x0a) || (ch =? 0x3a).

(** Strings are the bytes before the terminating NUL, which [key.[i]] reads at their end. *)

(** [while (q <= &keybuf[7]) { *q++ = *key << 1; if ( *key) key++; }] *)
Definition copy_key (key : list Z) : list Z * Z :=
  foldl (fun '(keybuf, pos) _ => (keybuf ++ [u8 (key.[pos] ≪ 1)], if negb (key.[pos] =? 0) then pos + 1 else pos))
    ([], 0) (seqZ 0 8).

(** [while (q <= &keybuf[7] && *key) *q++ ^= *key++ << 1;] *)
Definition xor_key (key keybuf : list Z) (pos : Z) : list Z * Z :=
  let '(keybuf, pos, _) :=
    while_ 8 (fun '(_, pos, q) => (q <=? 7) && negb (key.[pos] =? 0))
      (fun '(keybuf, pos, q) => (<[Z.to_nat q := u8 (keybuf.[q] .^ (key.[pos] ≪ 1))]> keybuf, pos + 1, q + 1))
      (keybuf, pos, 0) in
  (keybuf, pos).

(** [while ( *key) { ... }] *)
Definition long_key_loop (key : list Z) (st : list Z * expanded_key * Z) : list Z * expanded_key * Z :=
  while_ (length key) (fun '(_, _, pos) => negb (key.[pos] =? 0))
    (fun '(keybuf, ekey, pos) =>
      let keybuf := des_cipher keybuf 1 0 ekey in
      let '(keybuf, pos) := xor_key key keybuf pos in
      (keybuf, des_setkey keybuf, pos)) st.

(** Four characters of [setting] from [first] on; NULL for an invalid one. *)
Definition read_base64 (setting : list Z) (first : Z) : option Z :=
  foldl (fun acc i => v ← acc;
    let value := ascii_to_bin setting.[i] in
    if negb (ascii64.[value] =? setting.[i]) then None else Some (v .| shl32 value ((i - first) * 6)))
    (Some 0) (seqZ first 4).

(** The last part of [_crypt_extended_r_uut]. *)
Definition encode_result (r0 r1 : Z) : list Z :=
  let l := r0 ≫ 8 in
  [ascii64.[(l ≫ 18) .& 0x3f]; ascii64.[(l ≫ 12) .& 0x3f]; ascii64.[(l ≫ 6) .& 0x3f]; ascii64.[l .& 0x3f]] ++
  let l := shl32 r0 16 .| ((r1 ≫ 16) .& 0xffff) in
  [ascii64.[(l ≫ 18) .& 0x3f]; ascii64.[(l ≫ 12) .& 0x3f]; ascii64.[(l ≫ 6) .& 0x3f]; ascii64.[l .& 0x3f]] ++
  let l := shl32 r1 2 in
  [ascii64.[(l ≫ 12) .& 0x3f]; ascii64.[(l ≫ 6) .& 0x3f]; ascii64.[l .& 0x3f]].

Definition crypt_extended_r_uut (key setting : list Z) : option (list Z) :=
  let '(keybuf, pos) := copy_key key in
  let ekey := des_setkey keybuf in
  '(count, salt, ekey, output) ←
    (if setting.[0] =? _PASSWORD_EFMT1 then
       count ← read_base64 setting 1;
       if count =? 0 then None
       else
         salt ← read_base64 setting 5;
         let '(_, ekey, _) := long_key_loop key (keybuf, ekey, pos) in
         Some (count, salt, ekey, take 9 setting)
     else
       if ascii_is_unsafe setting.[0] || (ascii_is_unsafe setting.[1]) then None
       else Some (25, shl32 (ascii_to_bin setting.[1]) 6 .| ascii_to_bin setting.[0], ekey, [setting.[0]; setting.[1]]));
  let '(r0, r1) := do_des 0 0 count (setup_salt salt) ekey in
  Some (output ++ encode_result r0 r1).

(** [__crypt_des]: the hash, if the self-test gives the known one. *)
Definition test_key : list Z :=
  [0x80; 0xff; 0x80; 0x01; 0x20; 0x7f; 0x81; 0x80; 0x80; 0x0d; 0x0a; 0xff; 0x7f; 0x20; 0x81; 0x20; 0x74; 0x65; 0x73; 0x74].
Definition crypt_des (key setting : list Z) : list Z :=
  let '(test_setting, test_hash) :=
    if negb (setting.[0] =? _PASSWORD_EFMT1) then (0x80 :: ascii_bytes "x", 0x80 :: ascii_bytes "x22/wK52ZKGA")
    else (ascii_bytes "_0.../9Zz", ascii_bytes "_0.../9ZzX7iSJNd21sU") in
  let retval := crypt_extended_r_uut key setting in
  let p := crypt_extended_r_uut test_key test_setting in
  match p, retval with
  | Some p, Some retval => if bool_decide (p = test_hash) then retval else if setting.[0] =? 0x2a then ascii_bytes "x" else ascii_bytes "*"
  | _, _ => if setting.[0] =? 0x2a then ascii_bytes "x" else ascii_bytes "*"
  end.

(** ** The reference for crypt *)

Module CRYPT.

(** The value of a base-64 digit, and of a little-endian number of them. *)
Definition digit (c : Z) : option Z :=
  (fun p => Z.of_nat p.1) <$> list_find (fun c' => c' = c) ascii64.
Definition number (ds : list Z) : Z := foldr (fun d n => d + 64 * n) 0 ds.

(** Eight characters of the key, shifted by one bit, zeros after its end. *)
Definition eight (key : list Z) : list Z := map (fun c => u8 (2 * c)) (take 8 (key ++ replicate 8 0)).
(** The key of the new style: the DES key is enciphered with itself, then
    the next eight characters are added, until the key ends. *)
Fixpoint long_key (fuel : nat) (k : list bool) (rest : list Z) : list bool :=
  match fuel, rest with
  | O, _ | _, [] => k
  | S fuel, _ => long_key fuel (xor (des (bits 24 0) (keys k) k) (byte_bits (eight rest))) (drop 8 rest)
  end.

(** Salt bit [i] selects whether bits [i] and [i + 24] of the expansion are exchanged. *)
Definition salt_bits (salt : Z) : list bool := map (fun i => Z.testbit salt (Z.of_nat i)) (seq 0 24).

(** The zero block enciphered [count] times, as eleven characters of six bits. *)
Definition encode (b : list bool) : list Z :=
  map (fun i => ascii64.[value (take 6 (drop (6 * i) (b ++ [false; false])))]) (seq 0 11).
Definition hash (count salt : Z) (k : list bool) : list Z :=
  encode (Nat.iter (Z.to_nat count) (des (salt_bits salt) (keys k)) (replicate 64 false)).

Definition crypt (key setting : list Z) : option (list Z) :=
  match setting with
  | [] => None
  | c0 :: rest =>
      if c0 =? 0x5f then
        count ← mapM digit (take 4 rest);
        salt ← mapM digit (take 4 (drop 4 rest));
        if (length rest <? 8)%nat || (number count =? 0) then None
        else Some (take 9 setting ++
                   hash (number count) (number salt) (long_key (length key) (byte_bits (eight key)) (drop 8 key)))
      else
        match rest with
        | [] => None
        | c1 :: _ =>
            if existsb (fun c => (c =? 0x0a) || (c =? 0x3a)) [c0; c1] then None
            else Some ([c0; c1] ++ hash 25 (number [ascii_to_bin c0; ascii_to_bin c1]) (byte_bits (eight key)))
        end
  end.

End CRYPT.

Lemma digits_checked :
  forallb (fun c => bool_decide ((if ascii64.[ascii_to_bin c] =? c then Some (ascii_to_bin c) else None) = CRYPT.digit c)) (seqZ 0 256) = true.
Proof. vm_compute. reflexivity. Qed.

Lemma digit_spec c : byte_ok c -> (if ascii64.[ascii_to_bin c] =? c then Some (ascii_to_bin c) else None) = CRYPT.digit c.
Proof.
  intros Hc. pose proof digits_checked as H. rewrite forallb_forall in H. specialize (H c).
  apply bool_decide_eq_true in H; [done|]. apply list_elem_of_In, elem_of_seqZ. unfold word in Hc. lia.
Qed.

Lemma ascii_to_bin_word c : word 6 (ascii_to_bin c).
Proof. unfold ascii_to_bin. change 0x3f with (Z.ones 6). unfold word. rewrite Z.land_ones by lia. apply Z.mod_pos_bound. lia. Qed.

Lemma aget_bytes l i : bytes l -> byte_ok l.[i].
Proof. apply aget_word. lia. Qed.

(** *** Digits and salt *)

Lemma word_shl_lor w v d n : 0 <= n -> 0 <= w <= 32 - n -> word n v -> word w d ->
  v .| shl32 d n = v + 2 ^ n * d /\ word (n + w) (v + 2 ^ n * d).
Proof.
  intros Hn Hw Hv Hd. split.
  - rewrite lor_add_disjoint by done. f_equal. apply shl32_small; [lia|]. unfold word in *.
    split; [lia|]. apply (Z.lt_le_trans _ (2 ^ w)); [lia|]. apply Z.pow_le_mono_r; lia.
  - unfold word in *. rewrite Z.pow_add_r by lia. assert (0 < 2 ^ n) by (apply Z.pow_pos_nonneg; lia).
    assert (2 ^ n * (d + 1) <= 2 ^ n * 2 ^ w) by (apply Z.mul_le_mono_nonneg_l; lia). lia.
Qed.

Lemma digit_step setting j v s : bytes setting ->
  (if negb (ascii64.[ascii_to_bin setting.[j]] =? setting.[j]) then None else Some (v .| shl32 (ascii_to_bin setting.[j]) s)) =
  (d ← CRYPT.digit setting.[j]; Some (v .| shl32 d s)).
Proof. intros Hs. rewrite <- (digit_spec _ (aget_bytes setting j Hs)). by destruct (_ =? _). Qed.

Lemma digit_word c d : byte_ok c -> CRYPT.digit c = Some d -> word 6 d.
Proof. intros Hc. rewrite <- digit_spec by done. destruct (_ =? _); [|done]. intros [= <-]. apply ascii_to_bin_word. Qed.

Lemma read_base64_spec setting i : bytes setting ->
  read_base64 setting i = CRYPT.number <$> mapM CRYPT.digit [setting.[i]; setting.[i + 1]; setting.[i + 2]; setting.[i + 3]] /\
  (forall v, read_base64 setting i = Some v -> word 24 v).
Proof.
  intros Hs. unfold read_base64.
  assert (Hseq : seqZ i 4 = [i; i + 1; i + 2; i + 3]) by (unfold seqZ; change (Z.to_nat 4) with 4%nat; cbn [seq fmap list_fmap]; do 4 (apply f_equal2; [lia|]); done). rewrite Hseq. cbn [foldl].
  cbn [mbind option_bind]. cbn zeta. rewrite digit_step by done. pose proof (fun d => digit_word _ d (aget_bytes setting i Hs)) as W0.
  cbn [mapM]. destruct (CRYPT.digit setting.[i]) as [d0|]; [|done]. cbn [mbind option_bind]. specialize (W0 _ eq_refl).
  rewrite digit_step by done. pose proof (fun d => digit_word _ d (aget_bytes setting (i + 1) Hs)) as W1.
  destruct (CRYPT.digit setting.[i + 1]) as [d1|]; [|done]. cbn [mbind option_bind]. specialize (W1 _ eq_refl).
  rewrite digit_step by done. pose proof (fun d => digit_word _ d (aget_bytes setting (i + 2) Hs)) as W2.
  destruct (CRYPT.digit setting.[i + 2]) as [d2|]; [|done]. cbn [mbind option_bind]. specialize (W2 _ eq_refl).
  rewrite digit_step by done. pose proof (fun d => digit_word _ d (aget_bytes setting (i + 3) Hs)) as W3.
  destruct (CRYPT.digit setting.[i + 3]) as [d3|]; [|done]. cbn [mbind option_bind fmap option_fmap option_map mret option_ret]. specialize (W3 _ eq_refl).
  replace ((i - i) * 6) with 0 by lia. replace ((i + 1 - i) * 6) with 6 by lia. replace ((i + 2 - i) * 6) with 12 by lia.
  replace ((i + 3 - i) * 6) with 18 by lia.
  destruct (word_shl_lor 6 0 d0 0) as [-> V0]; [lia|lia|unfold word; lia|done|].
  destruct (word_shl_lor 6 _ d1 6 ltac:(lia) ltac:(lia) V0 W1) as [-> V1].
  destruct (word_shl_lor 6 _ d2 12 ltac:(lia) ltac:(lia) V1 W2) as [-> V2].
  destruct (word_shl_lor 6 _ d3 18 ltac:(lia) ltac:(lia) V2 W3) as [-> V3].
  split; [|by intros v [= <-]]. f_equal. unfold CRYPT.number. cbn [foldr]. lia.
Qed.

(** One bit tested by a mask. *)
Lemma mask_bit x n : 0 <= n -> negb (x .& 2 ^ n =? 0) = Z.testbit x n.
Proof.
  intros Hn. destruct (Z.testbit x n) eqn:Et.
  - apply negb_true_iff, Z.eqb_neq. intros E0.
    assert (Hf : Z.testbit (x .& 2 ^ n) n = false) by by rewrite E0, Z.bits_0.
    by rewrite Z.land_spec, Et, Z.pow2_bits_true in Hf by lia.
  - apply negb_false_iff, Z.eqb_eq, Z.bits_inj'. intros k Hk. rewrite Z.land_spec, Z.bits_0, Z.pow2_bits_eqb by lia.
    destruct (Z.eqb_spec n k) as [<-|]; [by rewrite Et|apply andb_false_r].
Qed.

(** After [n] steps the [n] low bits of the salt are at the top of [saltbits]. *)
Lemma setup_salt_loop salt n : (n <= 24)%nat ->
  exists b, foldl (fun '(saltbits, saltbit, obit) (_ : Z) =>
    (if negb (salt .& saltbit =? 0) then saltbits .| obit else saltbits, shl32 saltbit 1, obit ≫ 1)) (0, 1, 0x800000) (seqZ 0 (Z.of_nat n))
    = (b, 2 ^ Z.of_nat n, 2 ^ 24 ≫ (1 + Z.of_nat n)) /\
  forall o, 0 <= o -> Z.testbit b o = (23 - Z.of_nat n <? o) && (o <? 24) && Z.testbit salt (23 - o).
Proof.
  induction n as [|n IH]; intros Hn.
  - exists 0. split; [done|]. intros o Ho. rewrite Z.bits_0. destruct (Z.ltb_spec (23 - Z.of_nat 0) o), (Z.ltb_spec o 24); done || lia.
  - destruct (IH ltac:(lia)) as (b & E & Hb). rewrite Nat2Z.inj_succ, <- Z.add_1_r, seqZ_app, foldl_app, E by lia.
    unfold seqZ. change (Z.to_nat 1) with 1%nat. cbn [seq fmap list_fmap foldl]. rewrite mask_bit by lia. eexists. split; [f_equal; [f_equal|]|].
    + unfold shl32, u32. rewrite Z.shiftl_mul_pow2 by lia. rewrite Z.pow_add_r by lia. apply wrap_small. unfold word. change (2 ^ 1) with 2.
      split; [lia|]. apply (Z.le_lt_trans _ (2 ^ 24 * 2)); [|lia]. apply Z.mul_le_mono_nonneg_r; [lia|]. apply Z.pow_le_mono_r; lia.
    + rewrite Z.shiftr_shiftr by lia. f_equal. lia.
    + intros o Ho.
      assert (Hob : Z.testbit (if Z.testbit salt (Z.of_nat n) then b .| 2 ^ 24 ≫ (1 + Z.of_nat n) else b) o =
        Z.testbit b o || (o =? 23 - Z.of_nat n) && Z.testbit salt (Z.of_nat n)).
      { destruct (Z.testbit salt (Z.of_nat n)); [|by rewrite andb_false_r, orb_false_r]. rewrite Z.lor_spec, Z.shiftr_spec, Z.pow2_bits_eqb by lia.
        rewrite andb_true_r. f_equal. destruct (Z.eqb_spec 24 (o + (1 + Z.of_nat n))), (Z.eqb_spec o (23 - Z.of_nat n)); done || lia. }
      rewrite Hob, Hb by done. replace (23 - (Z.of_nat n + 1)) with (22 - Z.of_nat n) by lia.
      destruct (Z.eqb_spec o (23 - Z.of_nat n)) as [->|Hne].
      * replace (23 - (23 - Z.of_nat n)) with (Z.of_nat n) by lia. rewrite Z.ltb_irrefl.
        by destruct (Z.ltb_spec (22 - Z.of_nat n) (23 - Z.of_nat n)), (Z.ltb_spec (23 - Z.of_nat n) 24); try lia.
      * rewrite andb_false_l, orb_false_r. f_equal. f_equal.
        destruct (Z.ltb_spec (23 - Z.of_nat n) o), (Z.ltb_spec (22 - Z.of_nat n) o); done || lia.
Qed.

Lemma setup_salt_spec salt : bits 24 (setup_salt salt) = CRYPT.salt_bits salt /\ word 24 (setup_salt salt).
Proof.
  unfold setup_salt. destruct (setup_salt_loop salt 24 ltac:(lia)) as (b & E & Hb). change (Z.of_nat 24) with 24 in *. rewrite E.
  clear E. split.
  - unfold bits, CRYPT.salt_bits. apply map_ext_in. intros j Hj%in_seq. rewrite Hb by lia.
    destruct (Z.ltb_spec (23 - 24) (Z.of_nat (24 - 1 - j))), (Z.ltb_spec (Z.of_nat (24 - 1 - j)) 24); try lia. cbn [andb]. f_equal. lia.
  - assert (Hhigh : forall o, 24 <= o -> Z.testbit b o = false).
    { intros o Ho. rewrite Hb by lia. destruct (Z.ltb_spec o 24); [lia|]. by rewrite andb_false_r. }
    apply word_of_bits; [lia| |done]. apply Z.bits_iff_nonneg_ex. exists 24. intros o Ho. apply Hhigh. lia.
Qed.

(** *** The key *)

(** A string of bytes before its terminator. *)
Definition cstring (s : list Z) : Prop := Forall (fun c => byte_ok c /\ c <> 0) s.

Lemma cstring_bytes s : cstring s -> bytes s.
Proof. intros H. apply (Forall_impl _ _ _ H). by intros x [? _]. Qed.

Lemma aget_end (l : list Z) i : Z.of_nat (length l) <= i -> l.[i] = 0.
Proof. intros Hi. unfold aget. by rewrite lookup_ge_None_2 by lia. Qed.

Lemma cstring_end s i : cstring s -> 0 <= i -> (s.[i] =? 0) = (Z.of_nat (length s) <=? i).
Proof.
  intros Hs Hi. destruct (Z.leb_spec (Z.of_nat (length s)) i); [by rewrite aget_end|].
  apply Z.eqb_neq. pose proof (lookup_aget s i ltac:(lia)) as E. by apply (Forall_lookup_1 _ _ _ _ Hs) in E as [_ ?].
Qed.

Lemma eight_aget key : CRYPT.eight key = map (fun j => u8 (2 * key.[j])) (seqZ 0 8).
Proof.
  unfold CRYPT.eight. rewrite <- (take_aget (key ++ replicate 8 0) 8) by (rewrite length_app, length_replicate; lia).
  rewrite map_map. apply map_ext_in. intros j Hj%list_elem_of_In%elem_of_seqZ. do 2 f_equal. unfold aget.
  destruct (decide (Z.to_nat j < length key)%nat); [by rewrite lookup_app_l|].
  rewrite lookup_app_r, lookup_replicate_2, (lookup_ge_None_2 key) by lia. done.
Qed.

Lemma drop_aget (l : list Z) n j : 0 <= j -> (drop n l).[j] = l.[Z.of_nat n + j].
Proof. intros Hj. unfold aget. rewrite lookup_drop. do 2 f_equal. lia. Qed.

Lemma seqZ_one m : seqZ m 1 = [m].
Proof. unfold seqZ. change (Z.to_nat 1) with 1%nat. cbn [seq fmap list_fmap]. apply f_equal2; [lia|done]. Qed.

Lemma copy_key_spec key : cstring key ->
  copy_key key = (CRYPT.eight key, Z.min 8 (Z.of_nat (length key))).
Proof.
  intros Hk. rewrite eight_aget. unfold copy_key.
  enough (H : forall n, foldl (fun '(keybuf, pos) (_ : Z) => (keybuf ++ [u8 (key.[pos] ≪ 1)], if negb (key.[pos] =? 0) then pos + 1 else pos))
    ([], 0) (seqZ 0 (Z.of_nat n)) = (map (fun j => u8 (2 * key.[j])) (seqZ 0 (Z.of_nat n)), Z.min (Z.of_nat n) (Z.of_nat (length key)))) by exact (H 8%nat).
  induction n as [|n IH]; [rewrite Z.min_l by lia; done|].
  rewrite Nat2Z.inj_succ, <- Z.add_1_r, seqZ_app, foldl_app, IH, map_app, seqZ_one by lia.
  cbn [foldl map]. rewrite cstring_end by (done || lia).
  assert (E : key.[Z.min (Z.of_nat n) (Z.of_nat (length key))] = key.[Z.of_nat n]).
  { destruct (Z.min_spec (Z.of_nat n) (Z.of_nat (length key))) as [[_ ->]|[? ->]]; [done|]. by rewrite !aget_end by lia. }
  rewrite E, Z.add_0_l, Z.shiftl_mul_pow2, (Z.mul_comm _ (2 ^ 1)) by lia. apply f_equal2; [done|].
  destruct (Z.leb_spec (Z.of_nat (length key)) (Z.min (Z.of_nat n) (Z.of_nat (length key)))); cbn [negb]; lia.
Qed.

Lemma bytes_aget8 (l : list Z) : length l = 8%nat -> l = map (aget l) (seqZ 0 8).
Proof.
  intros Hl. pose proof (take_aget l 8 ltac:(lia)) as E. change (Z.of_nat 8) with 8 in E. by rewrite E, take_ge by lia.
Qed.

Lemma xor_key_loop key f : forall kb pos q, cstring key -> bytes kb -> length kb = 8%nat -> 0 <= pos <= Z.of_nat (length key) ->
  0 <= q -> q + Z.of_nat f = 8 ->
  exists q', while_ f (fun '(_, pos, q) => (q <=? 7) && negb (key.[pos] =? 0))
      (fun '(keybuf, pos, q) => (<[Z.to_nat q := u8 (keybuf.[q] .^ (key.[pos] ≪ 1))]> keybuf, pos + 1, q + 1)) (kb, pos, q) =
    (map (fun j => if j <? q then kb.[j] else u8 (kb.[j] .^ (key.[pos + (j - q)] ≪ 1))) (seqZ 0 8),
     Z.min (pos + Z.of_nat f) (Z.of_nat (length key)), q').
Proof.
  induction f as [|f IH]; intros kb pos q Hk Hb Hl Hp Hq Hf; cbn [while_].
  - exists q. apply f_equal2; [|done]. apply f_equal2; [|lia]. rewrite (bytes_aget8 kb Hl) at 1. apply map_ext_in.
    intros j Hj%list_elem_of_In%elem_of_seqZ. destruct (Z.ltb_spec j q); [done|lia].
  - destruct (Z.leb_spec q 7); [|lia]. rewrite cstring_end by (done || lia). cbn [andb].
    destruct (Z.leb_spec (Z.of_nat (length key)) pos); cbn [negb].
    + exists q. apply f_equal2; [|done]. apply f_equal2; [|lia]. rewrite (bytes_aget8 kb Hl) at 1. apply map_ext_in.
      intros j Hj%list_elem_of_In%elem_of_seqZ. destruct (Z.ltb_spec j q); [done|]. rewrite (aget_end key) by lia.
      rewrite Z.shiftl_0_l, Z.lxor_0_r. symmetry. apply wrap_small. by apply aget_bytes.
    + set (x := u8 (kb.[q] .^ (key.[pos] ≪ 1))).
      destruct (IH (<[Z.to_nat q := x]> kb) (pos + 1) (q + 1)) as [q' E]; try done; try lia.
      { apply Forall_insert; [done|]. apply u8_word. } { by rewrite length_insert. }
      exists q'. rewrite E. apply f_equal2; [|done]. apply f_equal2; [|lia]. apply map_ext_in. intros j Hj%list_elem_of_In%elem_of_seqZ.
      destruct (Z.eq_dec j q) as [->|Hne].
      * destruct (Z.ltb_spec q (q + 1)), (Z.ltb_spec q q); try lia. rewrite aget_insert by lia. unfold x. do 4 f_equal. lia.
      * assert (Ei : (<[Z.to_nat q := x]> kb).[j] = kb.[j]) by (unfold aget; by rewrite list_lookup_insert_ne by lia).
        rewrite Ei. destruct (Z.ltb_spec j (q + 1)), (Z.ltb_spec j q); try lia. do 4 f_equal. lia.
Qed.

Lemma byte_bits_map8 (g : Z -> Z) : byte_bits (map g (seqZ 0 8)) = concat (map (fun j => bits 8 (g j)) (seqZ 0 8)).
Proof. unfold byte_bits. by rewrite map_map. Qed.

Lemma xor_concat {A} (g h : A -> list bool) l : (forall x, length (g x) = length (h x)) ->
  xor (concat (map g l)) (concat (map h l)) = concat (map (fun x => xor (g x) (h x)) l).
Proof. intros H. induction l as [|x l IH]; cbn; [done|]. by rewrite xor_app, IH by done. Qed.

Lemma xor_key_spec key kb pos : cstring key -> bytes kb -> length kb = 8%nat -> 0 <= pos <= Z.of_nat (length key) ->
  let '(kb', pos') := xor_key key kb pos in
  bytes kb' /\ length kb' = 8%nat /\ pos' = Z.min (pos + 8) (Z.of_nat (length key)) /\
  byte_bits kb' = xor (byte_bits kb) (byte_bits (CRYPT.eight (drop (Z.to_nat pos) key))).
Proof.
  intros Hk Hb Hl Hp. unfold xor_key. destruct (xor_key_loop key 8 kb pos 0) as [q' E]; try done; try lia.
  rewrite E. split; [|split; [by rewrite length_map|split; [lia|]]].
  - apply Forall_map, Forall_forall. intros j _. destruct (j <? 0); [by apply aget_bytes|apply u8_word].
  - rewrite eight_aget. replace (byte_bits kb) with (byte_bits (map (aget kb) (seqZ 0 8))) by by rewrite <- bytes_aget8.
    rewrite !byte_bits_map8, xor_concat by (intros; by rewrite !length_bits).
    f_equal. apply map_ext_in. intros j Hj%list_elem_of_In%elem_of_seqZ. destruct (Z.ltb_spec j 0); [lia|].
    rewrite !bits_u8, xor_bits, drop_aget, Z.shiftl_mul_pow2, (Z.mul_comm _ (2 ^ 1)) by lia.
    by replace (pos + (j - 0)) with (Z.of_nat (Z.to_nat pos) + j) by lia.
Qed.

(** *** The new style of keys *)

Lemma long_key_spec key f : forall kb ekey pos, cstring key -> bytes kb -> length kb = 8%nat -> 0 <= pos <= Z.of_nat (length key) ->
  ekey = des_setkey kb ->
  let '(kb', ekey', _) := while_ f (fun '(_, _, pos) => negb (key.[pos] =? 0))
    (fun '(keybuf, ekey, pos) =>
      let keybuf := des_cipher keybuf 1 0 ekey in
      let '(keybuf, pos) := xor_key key keybuf pos in
      (keybuf, des_setkey keybuf, pos)) (kb, ekey, pos) in
  ekey' = des_setkey kb' /\ bytes kb' /\ length kb' = 8%nat /\
  byte_bits kb' = CRYPT.long_key f (byte_bits kb) (drop (Z.to_nat pos) key).
Proof.
  induction f as [|f IH]; intros kb ekey pos Hk Hb Hl Hp ->; cbn [while_]; [done|].
  rewrite cstring_end by (done || lia). destruct (Z.leb_spec (Z.of_nat (length key)) pos) as [Hend|Hend]; cbn [negb].
  - rewrite drop_ge by lia. done.
  - cbn zeta. destruct (setkey_spec kb Hb Hl) as [Hok Hks].
    destruct (des_cipher_spec kb 1 0 (des_setkey kb) Hb Hl ltac:(unfold word; lia) Hok) as (Hb1 & Hl1 & Hbits).
    pose proof (xor_key_spec key _ pos Hk Hb1 Hl1 Hp) as Hx.
    destruct (xor_key key (des_cipher kb 1 0 (des_setkey kb)) pos) as [kb2 pos2]. destruct Hx as (Hb2 & Hl2 & -> & Hx).
    specialize (IH kb2 (des_setkey kb2) (Z.min (pos + 8) (Z.of_nat (length key))) Hk Hb2 Hl2 ltac:(lia) eq_refl).
    destruct (while_ _ _ _ _) as [[kb' ekey'] pos']. destruct IH as (H1 & H2 & H3 & H4). do 3 (split; [done|]). rewrite H4.
    destruct (drop (Z.to_nat pos) key) as [|c rest] eqn:Ed.
    { apply (f_equal length) in Ed. rewrite length_drop in Ed. cbn [length] in Ed. lia. }
    cbn [CRYPT.long_key]. rewrite Hx, Hbits, Hks. cbn [Z.to_nat Pos.to_nat Pos.iter_op Nat.iter nat_rect]. f_equal.
    rewrite <- Ed, drop_drop. destruct (Z.min_spec (pos + 8) (Z.of_nat (length key))) as [[? ->]|[? ->]].
    + f_equal. lia.
    + by rewrite !drop_ge by lia.
Qed.

(** *** The result *)

Lemma value_bits6 : forallb (fun v => value (bits 6 v) =? v) (seqZ 0 64) = true.
Proof. vm_compute. reflexivity. Qed.

Lemma value_bits6_eq v : word 6 v -> value (bits 6 v) = v.
Proof.
  intros Hv. pose proof value_bits6 as H. rewrite forallb_forall in H. apply Z.eqb_eq, H, list_elem_of_In, elem_of_seqZ.
  unfold word in Hv. lia.
Qed.

Lemma encode_result_spec r0 r1 : word 32 r0 -> word 32 r1 -> encode_result r0 r1 = CRYPT.encode (bits 32 r0 ++ bits 32 r1).
Proof.
  intros H0 H1. unfold CRYPT.encode. set (x := join 34 r0 (r1 ≪ 2)).
  assert (Hx : (bits 32 r0 ++ bits 32 r1) ++ [false; false] = bits 66 x).
  { unfold x. rewrite <- app_assoc, (bits_join 32 34), (bits_split 32 2), Z.shiftr_shiftl_l, Z.shiftl_0_r by lia. do 2 f_equal.
    unfold bits. cbn [seq map Nat.sub Z.of_nat Pos.of_succ_nat]. by rewrite !Z.shiftl_spec_low by lia. }
  rewrite Hx. rewrite (map_ext_in _ (fun i => ascii64.[field (Z.of_nat (66 - 6 * i - 6)) 6 x])).
  2: { intros i Hi%in_seq. rewrite bits_field by lia. by rewrite value_bits6_eq by by apply field_word. }
  unfold encode_result. change 0x3f with (Z.ones 6).
  assert (Hf : forall off l i, (forall k, 0 <= k < 6 -> Z.testbit l (k + off) = Z.testbit x (k + Z.of_nat (66 - 6 * i - 6))) ->
    ascii64.[(l ≫ off) .& Z.ones 6] = ascii64.[field (Z.of_nat (66 - 6 * i - 6)) 6 x]).
  { intros off l i Hl. f_equal. fold (field off 6 l). apply field_ext; [lia|done]. }
  assert (Hb : forall k, 0 <= k -> Z.testbit x k = if k <? 34 then Z.testbit r1 (k - 2) else Z.testbit r0 (k - 34)).
  { intros k Hk. unfold x. rewrite join_bit by lia. destruct (Z.ltb_spec k 34); [|done]. apply Z.shiftl_spec. lia. }
  assert (Hlow : forall l i, (forall k, 0 <= k < 6 -> Z.testbit l k = Z.testbit x (k + Z.of_nat (66 - 6 * i - 6))) ->
    ascii64.[l .& Z.ones 6] = ascii64.[field (Z.of_nat (66 - 6 * i - 6)) 6 x]).
  { intros l i Hl. rewrite <- (Hf 0 l i); [by rewrite Z.shiftr_0_r|]. intros k Hk. rewrite Z.add_0_r. by apply Hl. }
  cbn [seq map app]. repeat (apply f_equal2; [first [apply Hf|apply Hlow]; intros k Hk; rewrite Hb by lia|]); [..|done].
  all: unfold shl32, u32; rewrite ?Z.lor_spec, ?wrap_testbit, ?shl_bit, ?Z.land_spec, ?Z.shiftr_spec by lia.
  all: try (change 0xffff with (Z.ones 16); rewrite Z.testbit_ones_nonneg by lia).
  all: repeat match goal with |- context [?a <? ?b] => destruct (Z.ltb_spec a b); try lia
                            | |- context [?a <=? ?b] => destruct (Z.leb_spec a b); try lia end.
  all: cbn [andb orb]; rewrite ?andb_true_r, ?andb_false_r, ?orb_false_r.
  all: first [f_equal; lia|by rewrite Z.testbit_neg_r by lia].
Qed.

Lemma zero_block : bits 32 0 ++ bits 32 0 = replicate 64 false.
Proof. vm_compute. reflexivity. Qed.

Lemma hash_spec count salt kb : bytes kb -> length kb = 8%nat ->
  (let '(r0, r1) := do_des 0 0 count (setup_salt salt) (des_setkey kb) in encode_result r0 r1) =
  CRYPT.hash count salt (byte_bits kb).
Proof.
  intros Hb Hl. destruct (setup_salt_spec salt) as [Hsb Hsw]. destruct (setkey_spec kb Hb Hl) as [Hok Hks].
  assert (H0 : word 32 0) by (unfold word; lia).
  destruct (do_des_spec 0 0 count _ _ H0 H0 Hsw Hok) as (Hw0 & Hw1 & Hd).
  destruct (do_des _ _ _ _ _) as [r0 r1]. cbn [fst snd] in *. rewrite encode_result_spec by done.
  unfold CRYPT.hash. by rewrite Hd, Hsb, Hks, zero_block.
Qed.

Lemma eight_bytes key : bytes (CRYPT.eight key) /\ length (CRYPT.eight key) = 8%nat.
Proof.
  rewrite eight_aget. split; [|by rewrite length_map]. apply Forall_map, Forall_forall. intros j _. apply u8_word.
Qed.

Lemma mapM_last_none {A B} (g : A -> option B) l x : g x = None -> mapM g (l ++ [x]) = None.
Proof.
  intros Hx. induction l as [|y l IH]; cbn [app mapM].
  - by rewrite Hx.
  - rewrite IH. by destruct (g y).
Qed.

(** The settings of the new style. *)
Lemma crypt_new key rest : cstring key -> cstring (0x5f :: rest) ->
  crypt_extended_r_uut key (0x5f :: rest) = CRYPT.crypt key (0x5f :: rest).
Proof.
  intros Hk Hs. unfold crypt_extended_r_uut. rewrite copy_key_spec by done. destruct (eight_bytes key) as [Hb Hl].
  change ((0x5f :: rest).[0]) with 0x5f. rewrite Z.eqb_refl. pose proof (cstring_bytes _ Hs) as Hsb.
  destruct (read_base64_spec (0x5f :: rest) 1 Hsb) as [-> _]. destruct (read_base64_spec (0x5f :: rest) 5 Hsb) as [-> _].
  cbn [CRYPT.crypt Z.eqb Pos.eqb].
  destruct (Nat.ltb_spec (length rest) 8) as [Hshort|Hlong].
  - assert (Hz : (0x5f :: rest).[5 + 3] = 0) by (apply aget_end; cbn [length]; lia). rewrite Hz.
    assert (Hnone : forall a b c, mapM CRYPT.digit [a; b; c; 0] = None) by (intros a b c; exact (mapM_last_none CRYPT.digit [a; b; c] 0 eq_refl)).
    rewrite Hnone. transitivity (None : option (list Z)).
    + destruct (mapM CRYPT.digit [_; _; _; _]); [|done]. cbn [fmap option_fmap option_map mbind option_bind]. by destruct (_ =? 0).
    + destruct (mapM _ (take 4 rest)); [|done]. by destruct (mapM _ _).
  - assert (E1 : [(0x5f :: rest).[1]; (0x5f :: rest).[1 + 1]; (0x5f :: rest).[1 + 2]; (0x5f :: rest).[1 + 3]] = take 4 rest).
    { do 8 (destruct rest as [|? rest]; [cbn in Hlong; lia|]). reflexivity. }
    assert (E5 : [(0x5f :: rest).[5]; (0x5f :: rest).[5 + 1]; (0x5f :: rest).[5 + 2]; (0x5f :: rest).[5 + 3]] = take 4 (drop 4 rest)).
    { do 8 (destruct rest as [|? rest]; [cbn in Hlong; lia|]). reflexivity. }
    rewrite E1, E5. destruct (mapM CRYPT.digit (take 4 rest)) as [cs|]; [|done].
    cbn [fmap option_fmap option_map mbind option_bind orb]. destruct (CRYPT.number cs =? 0); [by destruct (mapM _ _)|].
    destruct (mapM CRYPT.digit (take 4 (drop 4 rest))) as [ss|]; [|done]. cbn [fmap option_fmap option_map mbind option_bind].
    unfold long_key_loop.
    pose proof (long_key_spec key (length key) (CRYPT.eight key) (des_setkey (CRYPT.eight key)) (Z.min 8 (Z.of_nat (length key))) Hk Hb Hl ltac:(lia) eq_refl) as Hlk.
    destruct (while_ _ _ _ _) as [[kb' ekey'] pos']. destruct Hlk as (-> & Hb' & Hl' & Hkb). cbn [mbind option_bind].
    pose proof (hash_spec (CRYPT.number cs) (CRYPT.number ss) kb' Hb' Hl') as Hh.
    destruct (do_des _ _ _ _ _) as [r0 r1]. 
    assert (Ed : drop (Z.to_nat (Z.min 8 (Z.of_nat (length key)))) key = drop 8 key).
    { destruct (Z.min_spec 8 (Z.of_nat (length key))) as [[? ->]|[? ->]]; [done|]. by rewrite !drop_ge by lia. }
    by rewrite Hh, Hkb, Ed.
Qed.

Lemma crypt_extended_spec key setting : cstring key -> cstring setting ->
  crypt_extended_r_uut key setting = CRYPT.crypt key setting.
Proof.
  intros Hk Hs. destruct setting as [|c0 rest].
  { unfold crypt_extended_r_uut. rewrite copy_key_spec by done. reflexivity. }
  destruct (Z.eq_dec c0 0x5f) as [->|Hne]; [by apply crypt_new|].
  unfold crypt_extended_r_uut. rewrite copy_key_spec by done. destruct (eight_bytes key) as [Hb Hl].
  cbn [CRYPT.crypt]. change ((c0 :: rest).[0]) with c0. rewrite (proj2 (Z.eqb_neq c0 0x5f) Hne).
  apply Forall_cons in Hs as [[Hc0 Hn0] Hs]. destruct rest as [|c1 rest].
  { change ((c0 :: []).[1]) with 0. unfold ascii_is_unsafe at 2. by rewrite orb_true_r. }
  apply Forall_cons in Hs as [[Hc1 Hn1] Hs]. change ((c0 :: c1 :: rest).[1]) with c1.
  assert (E : ascii_is_unsafe c0 || ascii_is_unsafe c1 = existsb (fun c => (c =? 0x0a) || (c =? 0x3a)) [c0; c1]).
  { unfold ascii_is_unsafe. cbn [existsb]. rewrite (proj2 (Z.eqb_neq c0 0) Hn0), (proj2 (Z.eqb_neq c1 0) Hn1). by rewrite orb_false_r. }
  rewrite E. destruct (existsb _ _); [done|]. cbn [mbind option_bind].
  assert (Es : shl32 (ascii_to_bin c1) 6 .| ascii_to_bin c0 = CRYPT.number [ascii_to_bin c0; ascii_to_bin c1]).
  { rewrite Z.lor_comm. destruct (word_shl_lor 6 (ascii_to_bin c0) (ascii_to_bin c1) 6) as [-> _]; try apply ascii_to_bin_word; try lia.
    unfold CRYPT.number. cbn [foldr]. lia. }
  rewrite Es. pose proof (hash_spec 25 (CRYPT.number [ascii_to_bin c0; ascii_to_bin c1]) (CRYPT.eight key) Hb Hl) as Hh.
  destruct (do_des _ _ _ _ _) as [r0 r1]. by rewrite Hh.
Qed.

(** ** Theorem *)

(** C28: the password hash. For every key and setting (strings of bytes),
    [__crypt_des] returns the traditional hash (two characters of salt, 25
    iterations of the first eight characters), or for a setting that starts
    with an underscore the extended one (24 bits of count and of salt in
    base 64, a key of any length), of the reference; an unsafe salt, an
    invalid digit or a zero count gives the string "*", or "x" if the setting
    is not to be equal to it. The self-test always succeeds. The salt
    characters of the traditional style count as base-64 digits. *)
Theorem crypt_des_correct key setting : cstring key -> cstring setting ->
  crypt_des key setting =
    match CRYPT.crypt key setting with
    | Some h => h
    | None => if setting.[0] =? 0x2a then ascii_bytes "x" else ascii_bytes "*"
    end /\
  forall c d, byte_ok c -> CRYPT.digit c = Some d -> ascii_to_bin c = d.
Proof.
  intros Hk Hs. split.
  - unfold crypt_des. rewrite crypt_extended_spec by done.
    assert (T1 : crypt_extended_r_uut test_key (0x80 :: ascii_bytes "x") = Some (0x80 :: ascii_bytes "x22/wK52ZKGA")) by (vm_compute; reflexivity).
    assert (T2 : crypt_extended_r_uut test_key (ascii_bytes "_0.../9Zz") = Some (ascii_bytes "_0.../9ZzX7iSJNd21sU")) by (vm_compute; reflexivity).
    destruct (setting.[0] =? 0x5f); cbn [negb]; [rewrite T2|rewrite T1]; destruct (CRYPT.crypt key setting); try done;
      by rewrite bool_decide_eq_true_2.
  - intros c d Hc. rewrite <- digit_spec by done. destruct (_ =? _); [|done]. by intros [= <-].
Qed.

Lemma crypt_des_correct_witness :
  crypt_des (ascii_bytes "test") (ascii_bytes "ab") = ascii_bytes "abgOeLfPimXQo" /\
  CRYPT.crypt (ascii_bytes "test") (ascii_bytes "ab") = Some (ascii_bytes "abgOeLfPimXQo") /\
  crypt_des (ascii_bytes "test") (ascii_bytes "a:") = ascii_bytes "*".
Proof.
  assert (Hk : cstring (ascii_bytes "test")) by (unfold cstring, word; cbn; rewrite !Forall_cons, Forall_nil; lia).
  assert (Ha : cstring (ascii_bytes "ab")) by (unfold cstring, word; cbn; rewrite !Forall_cons, Forall_nil; lia).
  assert (Hc : cstring (ascii_bytes "a:")) by (unfold cstring, word; cbn; rewrite !Forall_cons, Forall_nil; lia).
  assert (E : CRYPT.crypt (ascii_bytes "test") (ascii_bytes "ab") = Some (ascii_bytes "abgOeLfPimXQo")) by (vm_compute; reflexivity).
  destruct (crypt_des_correct _ _ Hk Ha) as [H1 _]. destruct (crypt_des_correct _ _ Hk Hc) as [H2 _].
  rewrite E in H1. split; [exact H1|]. split; [exact E|]. rewrite H2. vm_compute. reflexivity.
Defined.
