(* ===== verification/DnsName.v ===== *)
(** * DnsName: compressed domain names (src/src/network/dn_*.c).

    A message is the list of its bytes, from the byte [base] points to;
    pointers into it are indices. A read or a write outside the message or the
    buffers is [None], so is a loop that does not end. *)

From S2P Require Import Prelude.

Abbreviation DOT := 46.

(** The offset of a compression pointer, from its two bytes. *)
Definition ptr_target (c c1 : Z) : nat := Z.to_nat (((c .& 0x3f) ≪ 8) .| c1).

(** ** dn_expand *)

(** [*dest++ = c], with [dest < dend]. *)
Definition push (dend : nat) (d : list Z) (c : Z) : option (list Z) :=
  if (length d <? dend)%nat then Some (d ++ [c]) else None.

(** [while (j--) *dest++ = *p++] *)
Fixpoint copy_label (j : nat) (msg : list Z) (p dend : nat) (d : list Z) : option (nat * list Z) :=
  match j with
  | O => Some (p, d)
  | S j => c ← msg !! p; d ← push dend d c; copy_label j msg (S p) dend d
  end.

(** [i += 2] on an [int]; its overflow is undefined. *)
Definition count_step (i : nat) : option nat := if Z.of_nat i + 2 <? 2 ^ 31 then Some (i + 2)%nat else None.

(** [d]: the bytes from [dbegin] to [dest]. *)
Fixpoint expand_loop (fuel : nat) (msg : list Z) (src dend i p : nat) (len : Z) (d : list Z) : option (Z * list Z) :=
  match fuel with
  | O => None
  | S fuel =>
      if (i <? length msg)%nat then
        c ← msg !! p;
        if negb (c .& 0xc0 =? 0) then
          if (p + 1 =? length msg)%nat then Some (-1, d)
          else
            c1 ← msg !! (p + 1)%nat;
            let j := ptr_target c c1 in
            let len := if len <? 0 then Z.of_nat (p + 2) - Z.of_nat src else len in
            if (length msg <=? j)%nat then Some (-1, d)
            else i ← count_step i; expand_loop fuel msg src dend i j len d
        else if negb (c =? 0) then
          d ← (if negb (length d =? 0)%nat then push dend d DOT else Some d);
          let j := Z.to_nat c in
          let p := (p + 1)%nat in
          if (length msg - p <=? j)%nat || (dend - length d <=? j)%nat then Some (-1, d)
          else '(p, d) ← copy_label j msg p dend d; i ← count_step i; expand_loop fuel msg src dend i p len d
        else
          d ← push dend d 0;
          Some (if len <? 0 then Z.of_nat (p + 1) - Z.of_nat src else len, d)
      else Some (-1, d)
  end.

(** The result, and the bytes written to [dest]. *)
Definition dn_expand (msg : list Z) (src : nat) (space : Z) : option (Z * list Z) :=
  if (src =? length msg)%nat || (space <=? 0) then Some (-1, [])
  else expand_loop (S (length msg)) msg src (Z.to_nat (if 254 <? space then 254 else space)) 0 src (-1) [].

(** ** dn_skipname *)

Fixpoint skip_loop (fuel : nat) (msg : list Z) (s p : nat) : option Z :=
  match fuel with
  | O => None
  | S fuel =>
      if (p <? length msg)%nat then
        c ← msg !! p;
        if c =? 0 then Some (Z.of_nat p - Z.of_nat s + 1)
        else if 192 <=? c then
          if (p + 1 <? length msg)%nat then Some (Z.of_nat p - Z.of_nat s + 2) else Some (-1)
        else if Z.of_nat (length msg) - Z.of_nat p <? c + 1 then Some (-1)
        else skip_loop fuel msg s (p + Z.to_nat c + 1)
      else Some (-1)
  end.
Definition dn_skipname (msg : list Z) (s : nat) : option Z := skip_loop (S (length msg)) msg s s.

(** ** dn_comp *)

(** Label start offsets; [] stands for the result 0. [offs] has 128 cells. *)
Fixpoint getoffs (fuel : nat) (msg : list Z) (s : nat) (offs : list nat) : option (list nat) :=
  match fuel with
  | O => None
  | S fuel =>
      c ← msg !! s;
      if negb (c .& 0xc0 =? 0) then
        if negb (c .& 0xc0 =? 0xc0) then Some []
        else c1 ← msg !! (s + 1)%nat; getoffs fuel msg (ptr_target c c1) offs
      else if c =? 0 then Some offs
      else if 0x4000 <=? Z.of_nat s then Some []
      else if (128 <=? length offs)%nat then None
      else getoffs fuel msg (s + Z.to_nat c + 1) (offs ++ [s])
  end.

(** [for (; j<l && s[j]!='.'; j++)] *)
Fixpoint find_dot (fuel : nat) (s : list Z) (l j : nat) : nat :=
  match fuel with
  | O => j
  | S fuel => if (j <? l)%nat && negb (s.[Z.of_nat j] =? DOT) then find_dot fuel s l (S j) else j
  end.

(** Label lengths; [] stands for the result 0. [lens] has 127 cells. *)
Fixpoint getlens (fuel : nat) (s : list Z) (l k : nat) (lens : list nat) : option (list nat) :=
  match fuel with
  | O => None
  | S fuel =>
      let j := find_dot l s l k in
      if 62 <? u32 (Z.of_nat j - Z.of_nat k - 1) then Some []
      else if (127 <=? length lens)%nat then None
      else if (j =? l)%nat then Some (lens ++ [(j - k)%nat])
      else getlens fuel s l (j + 1) (lens ++ [(j - k)%nat])
  end.

(** [l] bytes from [o], which must be there. *)
Definition slice (m : list Z) (o l : nat) : option (list Z) :=
  if (o + l <=? length m)%nat then Some (take l (drop o m)) else None.

(** The arrays are given from their last cell on; [e] is [end] as an index of the name. *)
Fixpoint match_loop (src msg : list Z) (rlens roffs : list nat) (e m offset : nat) : option (nat * nat) :=
  match rlens, roffs with
  | l :: rlens, o :: roffs =>
      let e := (e - l)%nat in
      c ← msg !! o;
      if negb (Z.of_nat l =? c) then Some (m, offset)
      else
        a ← slice msg (o + 1) l;
        b ← slice src e l;
        if negb (bool_decide (a = b)) then Some (m, offset)
        else
          let m := if (length rlens =? 0)%nat then (m + l)%nat else (m + l + 1)%nat in
          if (length rlens =? 0)%nat || (length roffs =? 0)%nat then Some (m, o)
          else match_loop src msg rlens roffs (e - 1) m o
  | _, _ => None
  end.

(** Longest suffix match: its length and, if not 0, its offset. *)
Definition match_ (src msg : list Z) (dn e : nat) (lens : list nat) : option (nat * nat) :=
  offs ← getoffs (S (length msg)) msg dn [];
  if (length offs =? 0)%nat then Some (O, O)
  else match_loop src msg (reverse lens) (reverse offs) e 0 0.

Fixpoint best_loop (src msg : list Z) (l : nat) (lens ps : list nat) (bestlen bestoff : nat) : option (nat * nat) :=
  match ps with
  | [] => Some (bestlen, bestoff)
  | p :: ps =>
      '(m, offset) ← match_ src msg p l lens;
      if (bestlen <? m)%nat then
        if (m =? l)%nat then Some (m, offset) else best_loop src msg l lens ps m offset
      else best_loop src msg l lens ps bestlen bestoff
  end.

Definition store (m : list Z) (a : nat) (c : Z) : option (list Z) :=
  if (a <? length m)%nat then Some (<[a := c]> m) else None.

(** [for (i=j=0; i<l-bestlen; i+=lens[j++]+1) dst[i] = lens[j]] *)
Fixpoint put_lens (msg : list Z) (dst i n : nat) (lens : list nat) : option (nat * list Z) :=
  if (i <? n)%nat then
    match lens with
    | [] => None
    | l :: lens => msg ← store msg (dst + i) (Z.of_nat l); put_lens msg dst (i + l + 1) n lens
    end
  else Some (i, msg).

(** From [encode unmatched part] on. [dnptrs]: [None] when it or [*dnptrs] is
    NULL, else the pointers after the first; [last]: [lastdnptr - dnptrs].
    The result, the message and the pointers. *)
Definition put_name (src msg : list Z) (dst : nat) (space : Z) (dnptrs : option (list nat)) (last : option nat) (l : nat) (lens : list nat) (bestlen bestoff : nat) : option (Z * list Z * option (list nat)) :=
  if space <? Z.of_nat l - Z.of_nat bestlen + 2 + (if u64 (Z.of_nat bestlen - 1) <? Z.of_nat l - 1 then 1 else 0) then Some (-1, msg, dnptrs)
  else
    _ ← slice msg (dst + 1) (l - bestlen);
    '(i, msg) ← put_lens (splice msg (dst + 1) (take (l - bestlen) src)) dst 0 (l - bestlen) lens;
    '(i, msg) ← (if negb (bestlen =? 0)%nat then
        msg ← store msg (dst + i) (u8 (0xc0 .| (Z.of_nat bestoff ≫ 8)));
        msg ← store msg (dst + i + 1) (u8 (Z.of_nat bestoff));
        Some ((i + 2)%nat, msg)
      else msg ← store msg (dst + i) 0; Some ((i + 1)%nat, msg));
    let dnptrs' :=
      match dnptrs, last with
      | Some ps, Some last => if (2 <? i)%nat && (S (length ps) + 1 <? last)%nat then Some (ps ++ [dst]) else Some ps
      | _, _ => dnptrs
      end in
    Some (Z.of_nat i, msg, dnptrs').

(** The length of the name without its final dot. *)
Definition stripped (src : list Z) : nat :=
  let l := Nat.min (length src) 255 in
  if negb (l =? 0)%nat && (src.[Z.of_nat l - 1] =? DOT) then (l - 1)%nat else l.

Definition dn_comp (src msg : list Z) (dst : nat) (space : Z) (dnptrs : option (list nat)) (last : option nat) : option (Z * list Z * option (list nat)) :=
  let l := stripped src in
  if (253 <? l)%nat || (space <=? 0) then Some (-1, msg, dnptrs)
  else if (l =? 0)%nat then msg ← store msg dst 0; Some (1, msg, dnptrs)
  else
    lens ← getlens (S l) src l 0 [];
    if (length lens =? 0)%nat then Some (-1, msg, dnptrs)
    else
      '(bestlen, bestoff) ← best_loop src msg l lens (default [] dnptrs) 0 0;
      put_name src msg dst space dnptrs last l lens bestlen bestoff.

(** ** Names *)

(** The labels, with dots between them. *)
Fixpoint text (ls : list (list Z)) : list Z :=
  match ls with
  | [] => []
  | [l] => l
  | l :: ls => l ++ DOT :: text ls
  end.

(** RFC 1035, 4.1.4: [decodes msg p ls n k] when the name at [p] has labels
    [ls], the first [n] bytes of it are at [p], and [k] bytes are read as the
    length of a label, the end of the name or the start of a pointer. The
    reserved types 01 and 10 count as pointers, as in the code. *)
Inductive decodes (msg : list Z) : nat -> list (list Z) -> nat -> nat -> Prop :=
  | decodes_root p : msg !! p = Some 0 -> decodes msg p [] 1 1
  | decodes_label p c ls n k : msg !! p = Some c -> 1 <= c <= 63 -> decodes msg (p + 1 + Z.to_nat c) ls n k ->
      decodes msg p (take (Z.to_nat c) (drop (p + 1) msg) :: ls) (1 + Z.to_nat c + n) (S k)
  | decodes_pointer p c c1 ls n k : msg !! p = Some c -> 64 <= c -> msg !! (p + 1)%nat = Some c1 -> decodes msg (ptr_target c c1) ls n k ->
      decodes msg p ls 2 (S k).

Lemma decodes_lt msg p ls n k : decodes msg p ls n k -> (p < length msg)%nat.
Proof. destruct 1 as [p Hc|p c ls n k Hc|p c c1 ls n k Hc]; by apply lookup_lt_Some in Hc. Qed.

Lemma decodes_pos msg p ls n k : decodes msg p ls n k -> (1 <= n)%nat /\ (1 <= k)%nat.
Proof. destruct 1; lia. Qed.

Lemma top_bits_checked : forallb (fun c => eqb (c .& 0xc0 =? 0) (c <=? 63) && eqb (c .& 0xc0 =? 0xc0) (192 <=? c)) (seqZ 0 256) = true.
Proof. vm_compute. reflexivity. Qed.

Lemma top_bits c : 0 <= c < 256 -> (c .& 0xc0 =? 0) = (c <=? 63) /\ (c .& 0xc0 =? 0xc0) = (192 <=? c).
Proof.
  intros Hc. pose proof top_bits_checked as H. rewrite forallb_forall in H. specialize (H c ltac:(apply list_elem_of_In, elem_of_seqZ; lia)).
  apply andb_prop in H as [H1%eqb_prop H2%eqb_prop]. done.
Qed.

Lemma bytes_lookup m p c : bytes m -> m !! p = Some c -> 0 <= c < 256.
Proof. intros Hm Hc. exact (Forall_lookup_1 _ _ _ _ Hm Hc). Qed.

(** ** dn_expand *)

(** What [dest] holds after further labels. *)
Definition dotted (d : list Z) : list Z := if (length d =? 0)%nat then d else d ++ [DOT].
Definition extend (d : list Z) (ls : list (list Z)) : list Z := foldl (fun d l => dotted d ++ l) d ls.

Lemma extend_app d ls : Forall (fun l => l <> []) ls -> d <> [] -> extend d ls = match ls with [] => d | _ => d ++ DOT :: text ls end.
Proof.
  intros Hl. revert d. induction Hl as [|l ls Hl Hls IH]; intros d Hd; [done|]. change (extend d (l :: ls)) with (extend (dotted d ++ l) ls).
  rewrite IH by (by intros [_ ?]%app_eq_nil). unfold dotted. destruct d as [|x d]; [done|]. cbn [length Nat.eqb].
  destruct ls as [|l1 ls]; cbn [text]; rewrite <- !app_assoc; done.
Qed.

Lemma extend_text ls : Forall (fun l => l <> []) ls -> extend [] ls = text ls.
Proof.
  intros Hl. destruct Hl as [|l ls Hl Hls]; [done|]. change (extend [] (l :: ls)) with (extend l ls). rewrite extend_app by done. by destruct ls.
Qed.

Lemma decodes_nonempty msg p ls n k : decodes msg p ls n k -> Forall (fun l => l <> []) ls.
Proof.
  induction 1 as [|p c ls n k Hc Hr H IH|]; [constructor| |done]. constructor; [|done]. apply decodes_lt in H.
  intros E%(f_equal length). rewrite length_take, length_drop in E. cbn in E. lia.
Qed.

Lemma copy_label_spec j : forall msg p dend d, (p + j <= length msg)%nat -> (length d + j <= dend)%nat ->
  copy_label j msg p dend d = Some ((p + j)%nat, d ++ take j (drop p msg)).
Proof.
  induction j as [|j IH]; intros msg p dend d Hp Hd; cbn [copy_label]; [by rewrite Nat.add_0_r, app_nil_r|].
  destruct (lookup_lt_is_Some_2 msg p ltac:(lia)) as [c Hc]. rewrite Hc. cbn. unfold push. destruct (Nat.ltb_spec (length d) dend); [|lia]. cbn.
  rewrite IH by (rewrite ?length_app; cbn; lia). rewrite (drop_S _ _ _ Hc), <- app_assoc. cbn. do 2 f_equal. lia.
Qed.

Lemma dotted_length d : (length (dotted d) <= S (length d))%nat.
Proof. unfold dotted. case_match; rewrite ?length_app; cbn; lia. Qed.

Lemma extend_length d ls : (length d <= length (extend d ls))%nat.
Proof.
  revert d. induction ls as [|l ls IH]; intros d; [done|]. change (extend d (l :: ls)) with (extend (dotted d ++ l) ls).
  etransitivity; [|apply IH]. rewrite length_app. unfold dotted. case_match; rewrite ?length_app; cbn; lia.
Qed.

Lemma push_dotted dend d : (length d < dend)%nat -> (if negb (length d =? 0)%nat then push dend d DOT else Some d) = Some (dotted d).
Proof. intros Hd. unfold dotted, push. destruct (length d =? 0)%nat; [done|]. cbn [negb]. by destruct (Nat.ltb_spec (length d) dend); [|lia]. Qed.

(** The value returned when [n] bytes of the current part remain from [p]. *)
Definition part_length (src p n : nat) (len : Z) : Z := if len <? 0 then Z.of_nat (p + n) - Z.of_nat src else len.

Lemma part_length_S src p q n n' len : (p + n = q + n')%nat -> part_length src p n len = part_length src q n' len.
Proof. unfold part_length. intros ->. done. Qed.

Lemma part_length_set src p n len m : (src <= p)%nat \/ 0 <= len ->
  part_length src p 2 len = part_length src m n (if len <? 0 then Z.of_nat (p + 2) - Z.of_nat src else len).
Proof. unfold part_length. intros H. destruct (Z.ltb_spec len 0); [|by destruct (Z.ltb_spec len 0); [lia|]]. destruct (Z.ltb_spec (Z.of_nat (p + 2) - Z.of_nat src) 0); lia. Qed.

Lemma count_step_ok i : Z.of_nat i + 2 < 2 ^ 31 -> count_step i = Some (i + 2)%nat.
Proof. intros H. unfold count_step. by destruct (Z.ltb_spec (Z.of_nat i + 2) (2 ^ 31)); [|lia]. Qed.

(** Every run ends within the buffers; what it returns is a name. *)
Lemma expand_loop_sound fuel : forall msg src dend i p len d, bytes msg -> Z.of_nat (length msg) < 2 ^ 31 - 1 -> (p < length msg)%nat -> (length d < dend)%nat -> (src <= p)%nat \/ 0 <= len ->
  (length msg + 2 <= i + 2 * fuel)%nat /\ (i <= length msg + 1)%nat ->
  exists r d', expand_loop fuel msg src dend i p len d = Some (r, d') /\ (length d' <= dend)%nat /\
    (r = -1 \/ exists ls n k, decodes msg p ls n k /\ (i + 2 * k <= length msg + 1)%nat /\ d' = extend d ls ++ [0] /\ r = part_length src p n len).
Proof.
  induction fuel as [|fuel IH]; intros msg src dend i p len d Hm Hml Hp Hd Hs Hf.
  { exfalso. lia. }
  cbn [expand_loop]. destruct (Nat.ltb_spec i (length msg)) as [Hi|Hi]; [|exists (-1), d; split; [done|]; split; [lia|by left]].
  destruct (lookup_lt_is_Some_2 msg p Hp) as [c Hc]. rewrite Hc. cbn [mbind option_bind]. pose proof (bytes_lookup msg p c Hm Hc) as Hcb.
  rewrite (proj1 (top_bits c Hcb)). destruct (Z.leb_spec c 63) as [Hc1|Hc1]; cbn [negb].
  - destruct (Z.eqb_spec c 0) as [->|Hc0]; cbn [negb].
    + unfold push. destruct (Nat.ltb_spec (length d) dend); [|lia]. cbn. eexists _, _. split; [done|]. split; [rewrite length_app; cbn; lia|].
      right. exists [], 1%nat, 1%nat. split; [by constructor|]. split; [lia|]. split; [done|]. done.
    + rewrite push_dotted by done. cbn [mbind option_bind]. pose proof (dotted_length d) as Hdl.
      destruct (Nat.leb_spec (length msg - (p + 1)) (Z.to_nat c)) as [H1|H1]; cbn [orb].
      { exists (-1), (dotted d). split; [done|]. split; [lia|by left]. }
      destruct (Nat.leb_spec (dend - length (dotted d)) (Z.to_nat c)) as [H2|H2]; [exists (-1), (dotted d); split; [done|]; split; [lia|by left]|].
      rewrite copy_label_spec by lia. cbn [mbind option_bind]. rewrite count_step_ok by lia. cbn [mbind option_bind].
      destruct (IH msg src dend (i + 2)%nat (p + 1 + Z.to_nat c)%nat len (dotted d ++ take (Z.to_nat c) (drop (p + 1) msg))) as (r & d' & E & Hl & Hr); try done; try lia.
      { rewrite length_app, length_take, length_drop. lia. }
      exists r, d'. split; [done|]. split; [done|]. destruct Hr as [?|(ls & n & k & H3 & Hk & H4 & H5)]; [by left|right].
      eexists _, _, _. split; [apply (decodes_label msg p c ls n k); done || lia|]. split; [lia|]. split; [done|]. rewrite H5. apply part_length_S. lia.
  - destruct (Nat.eqb_spec (p + 1) (length msg)) as [Hpe|Hpe]; [exists (-1), d; split; [done|]; split; [lia|by left]|].
    destruct (lookup_lt_is_Some_2 msg (p + 1) ltac:(lia)) as [c1 Hc1']. rewrite Hc1'. cbn [mbind option_bind].
    destruct (Nat.leb_spec (length msg) (ptr_target c c1)); [exists (-1), d; split; [done|]; split; [lia|by left]|].
    rewrite count_step_ok by lia. cbn [mbind option_bind].
    destruct (IH msg src dend (i + 2)%nat (ptr_target c c1) (if len <? 0 then Z.of_nat (p + 2) - Z.of_nat src else len) d) as (r & d' & E & Hl & Hr); try done; try lia.
    { destruct (Z.ltb_spec len 0); lia. }
    exists r, d'. split; [done|]. split; [done|]. destruct Hr as [?|(ls & n & k & H3 & Hk & H4 & H5)]; [by left|right].
    exists ls, 2%nat, (S k). split; [apply (decodes_pointer msg p c c1 ls n k); done || lia|]. split; [lia|]. split; [done|]. rewrite H5. symmetry. by apply part_length_set.
Qed.

(** Every name that takes few enough steps and fits is found. *)
Lemma expand_loop_complete msg dend src p ls n k : bytes msg -> decodes msg p ls n k ->
  forall fuel i len d, (src <= p)%nat \/ 0 <= len -> (length msg + 2 <= i + 2 * fuel)%nat /\ (i <= length msg + 1)%nat -> (i + 2 * k <= length msg + 1)%nat -> Z.of_nat i + 2 * Z.of_nat k <= 2 ^ 31 -> (length (extend d ls) < dend)%nat ->
  expand_loop fuel msg src dend i p len d = Some (part_length src p n len, extend d ls ++ [0]).
Proof.
  intros Hm. induction 1 as [p Hc|p c ls n k Hc Hr H IH|p c c1 ls n k Hc Hr Hc1 H IH]; intros fuel i len d Hs Hf Hk Hk31 Hd;
    (destruct fuel as [|fuel]; [lia|]; cbn [expand_loop]; destruct (Nat.ltb_spec i (length msg)); [|first [lia|apply decodes_pos in H; lia]]; rewrite Hc; cbn [mbind option_bind]).
  - cbn [negb Z.eqb Z.land]. unfold push. cbn in Hd. destruct (Nat.ltb_spec (length d) dend); [|lia]. done.
  - rewrite (proj1 (top_bits c ltac:(lia))). destruct (Z.leb_spec c 63); [|lia]. cbn [negb]. destruct (Z.eqb_spec c 0); [lia|]. cbn [negb].
    pose proof (extend_length (dotted d ++ take (Z.to_nat c) (drop (p + 1) msg)) ls) as Hl. cbn [extend foldl] in Hd. fold (extend (dotted d ++ take (Z.to_nat c) (drop (p + 1) msg)) ls) in Hd.
    pose proof (decodes_lt _ _ _ _ _ H) as Hlt. rewrite length_app, length_take, length_drop, Nat.min_l in Hl by lia.
    pose proof (dotted_length d). assert (length d <= length (dotted d))%nat by (unfold dotted; case_match; rewrite ?length_app; lia).
    rewrite push_dotted by lia. cbn [mbind option_bind].
    destruct (Nat.leb_spec (length msg - (p + 1)) (Z.to_nat c)); [lia|]. destruct (Nat.leb_spec (dend - length (dotted d)) (Z.to_nat c)); [lia|]. cbn [orb].
    rewrite copy_label_spec by lia. cbn [mbind option_bind]. pose proof (decodes_pos _ _ _ _ _ H). rewrite count_step_ok by lia. cbn [mbind option_bind]. rewrite IH by (done || lia). do 2 f_equal. apply part_length_S. lia.
  - pose proof (bytes_lookup msg p c Hm Hc). rewrite (proj1 (top_bits c ltac:(lia))). destruct (Z.leb_spec c 63); [lia|]. cbn [negb].
    pose proof (lookup_lt_Some _ _ _ Hc1). pose proof (decodes_lt _ _ _ _ _ H).
    destruct (Nat.eqb_spec (p + 1) (length msg)); [lia|]. rewrite Hc1. cbn [mbind option_bind].
    destruct (Nat.leb_spec (length msg) (ptr_target c c1)); [lia|]. pose proof (decodes_pos _ _ _ _ _ H). rewrite count_step_ok by lia. cbn [mbind option_bind]. rewrite IH by (done || lia || (destruct (Z.ltb_spec len 0); lia)).
    do 2 f_equal. symmetry. by apply part_length_set.
Qed.

(** ** Encoded names *)

(** A name at [p] as [dn_comp] leaves it: the part of the message [s] to [e]
    holds it and labels before it; a pointer leads to a name in an earlier part. *)
Inductive encoded (msg : list Z) : nat -> nat -> nat -> list (list Z) -> nat -> Prop :=
  | encoded_root s p : msg !! p = Some 0 -> (s <= p)%nat -> encoded msg s p (p + 1) [] 1
  | encoded_label s p e c ls k : msg !! p = Some c -> 1 <= c <= 63 -> (s <= p)%nat -> encoded msg s (p + 1 + Z.to_nat c) e ls k ->
      encoded msg s p e (take (Z.to_nat c) (drop (p + 1) msg) :: ls) (S k)
  | encoded_pointer s p c c1 s' e' ls k : msg !! p = Some c -> 192 <= c -> msg !! (p + 1)%nat = Some c1 -> (s <= p)%nat ->
      encoded msg s' (ptr_target c c1) e' ls k -> (e' <= s)%nat -> encoded msg s p (p + 2) ls (S k).

Lemma encoded_range msg s p e ls k : encoded msg s p e ls k -> (s <= p < e)%nat /\ (e <= length msg)%nat.
Proof.
  induction 1 as [s p Hc|s p e c ls k Hc Hr Hs H IH|s p c c1 s' e' ls k Hc Hr Hc1 Hs H IH He].
  - apply lookup_lt_Some in Hc. lia.
  - lia.
  - apply lookup_lt_Some in Hc1. lia.
Qed.

Lemma encoded_decodes msg s p e ls k : encoded msg s p e ls k -> decodes msg p ls (e - p) k.
Proof.
  induction 1 as [s p Hc|s p e c ls k Hc Hr Hs H IH|s p c c1 s' e' ls k Hc Hr Hc1 Hs H IH He].
  - replace (p + 1 - p)%nat with 1%nat by lia. by constructor.
  - apply encoded_range in H. replace (e - p)%nat with (1 + Z.to_nat c + (e - (p + 1 + Z.to_nat c)))%nat by lia. by apply decodes_label.
  - replace (p + 2 - p)%nat with 2%nat by lia. apply (decodes_pointer msg p c c1 ls (e' - ptr_target c c1) k); done || lia.
Qed.

(** Each step is on two bytes of its own, but for the end of the name. *)
Lemma encoded_steps msg s p e ls k : encoded msg s p e ls k -> (2 * k + p <= e + s + 1)%nat.
Proof.
  induction 1 as [s p Hc|s p e c ls k Hc Hr Hs H IH|s p c c1 s' e' ls k Hc Hr Hc1 Hs H IH He]; [lia|lia|].
  apply encoded_range in H. lia.
Qed.

Lemma ptr_target_bound c c1 : 0 <= c < 256 -> 0 <= c1 < 256 -> Z.of_nat (ptr_target c c1) < 0x4000.
Proof.
  intros Hc Hc1. unfold ptr_target. rewrite Z.lor_comm. change 0x3f with (Z.ones 6). rewrite Z.land_ones by lia.
  pose proof (Z.mod_pos_bound c (2 ^ 6) ltac:(lia)). rewrite <- lor_add_disjoint by (unfold word; change (2 ^ 8) with 256; lia). change (2 ^ 6) with 64 in *. change (2 ^ 8) with 256. lia.
Qed.

(** A pointer leads below 0x4000, and so the count of [dn_expand] stays small. *)
Lemma encoded_count msg s p e ls k : encoded msg s p e ls k -> Z.of_nat s < 0x4000 -> Z.of_nat k <= Z.of_nat (length ls) + 0x4001.
Proof.
  induction 1 as [s p Hc|s p e c ls k Hc Hr Hs H IH|s p c c1 s' e' ls k Hc Hr Hc1 Hs H IH He]; intros Hlt; cbn [length]; [lia| |].
  - specialize (IH Hlt). lia.
  - apply encoded_steps in H as Hk. apply encoded_range in H. lia.
Qed.

Lemma encoded_count_all msg s p e ls k : bytes msg -> encoded msg s p e ls k -> Z.of_nat k <= Z.of_nat (length ls) + 0x4002.
Proof.
  intros Hm. induction 1 as [s p Hc|s p e c ls k Hc Hr Hs H IH|s p c c1 s' e' ls k Hc Hr Hc1 Hs H IH He]; cbn [length]; [lia|lia|].
  pose proof (ptr_target_bound c c1 (bytes_lookup _ _ _ Hm Hc) (bytes_lookup _ _ _ Hm Hc1)). pose proof (encoded_range _ _ _ _ _ _ H).
  pose proof (encoded_count _ _ _ _ _ _ H ltac:(lia)). lia.
Qed.

Lemma encoded_ext msg msg' s p e ls k : encoded msg s p e ls k -> (forall i, (i < e)%nat -> msg' !! i = msg !! i) -> encoded msg' s p e ls k.
Proof.
  induction 1 as [s p Hc|s p e c ls k Hc Hr Hs H IH|s p c c1 s' e' ls k Hc Hr Hc1 Hs H IH He]; intros Hx.
  - constructor; [|done]. rewrite Hx by lia. done.
  - pose proof (encoded_range _ _ _ _ _ _ H) as Hlt. replace (take (Z.to_nat c) (drop (p + 1) msg)) with (take (Z.to_nat c) (drop (p + 1) msg')).
    + apply encoded_label; [by rewrite Hx by lia|done|done|]. by apply IH.
    + apply list_eq. intros i. destruct (decide (i < Z.to_nat c)%nat).
      * rewrite !lookup_take_lt, !lookup_drop by done. apply Hx. lia.
      * by rewrite !lookup_take_ge by lia.
  - pose proof (encoded_range _ _ _ _ _ _ H). apply (encoded_pointer msg' s p c c1 s' e'); try done; [by rewrite Hx by lia..|].
    apply IH. intros i Hi. apply Hx. lia.
Qed.

Lemma encoded_skip msg s0 s p e ls k : encoded msg s p e ls k -> forall fuel, (length msg < p + fuel)%nat ->
  skip_loop fuel msg s0 p = Some (Z.of_nat e - Z.of_nat s0).
Proof.
  induction 1 as [s p Hc|s p e c ls k Hc Hr Hs H IH|s p c c1 s' e' ls k Hc Hr Hc1 Hs H IH He]; intros fuel Hf;
    pose proof (lookup_lt_Some _ _ _ Hc); (destruct fuel as [|fuel]; [lia|]); cbn [skip_loop];
    (destruct (Nat.ltb_spec p (length msg)); [|lia]); rewrite Hc; cbn [mbind option_bind].
  - cbn. f_equal. lia.
  - destruct (Z.eqb_spec c 0); [lia|]. destruct (Z.leb_spec 192 c); [lia|]. pose proof (encoded_range _ _ _ _ _ _ H).
    destruct (Z.ltb_spec (Z.of_nat (length msg) - Z.of_nat p) (c + 1)); [lia|]. replace (p + Z.to_nat c + 1)%nat with (p + 1 + Z.to_nat c)%nat by lia. apply IH. lia.
  - destruct (Z.eqb_spec c 0); [lia|]. destruct (Z.leb_spec 192 c); [|lia]. apply lookup_lt_Some in Hc1.
    destruct (Nat.ltb_spec (p + 1) (length msg)); [|lia]. f_equal. lia.
Qed.

Definition label (l : list Z) : Prop := (1 <= length l <= 63)%nat /\ bytes l /\ DOT ∉ l.
Definition valid (ls : list (list Z)) : Prop := Forall label ls /\ (length (text ls) <= 253)%nat.

Lemma text_cons l ls : ls <> [] -> text (l :: ls) = l ++ DOT :: text ls.
Proof. by destruct ls. Qed.

Lemma label_text_length ls : Forall label ls -> (2 * length ls <= S (length (text ls)))%nat.
Proof.
  induction 1 as [|l ls (Hl & _) Hls IH]; [cbn; lia|]. destruct ls as [|l1 ls]; [cbn in *; lia|]. rewrite text_cons, length_app by done. cbn [length] in *. lia.
Qed.

Lemma encoded_expand msg s p e ls k : bytes msg -> encoded msg s p e ls k -> valid ls -> dn_expand msg p 255 = Some (Z.of_nat (e - p), text ls ++ [0]).
Proof.
  intros Hm H [Hls Hl]. pose proof (encoded_range _ _ _ _ _ _ H). pose proof (encoded_steps _ _ _ _ _ _ H). pose proof (encoded_count_all _ _ _ _ _ _ Hm H). pose proof (label_text_length ls Hls). unfold dn_expand.
  destruct (Nat.eqb_spec p (length msg)); [lia|]. cbn [orb Z.leb Z.ltb Z.compare Pos.compare Pos.compare_cont].
  pose proof (encoded_decodes _ _ _ _ _ _ H) as Hd. pose proof (decodes_nonempty _ _ _ _ _ Hd) as Hne.
  change (Z.to_nat 254) with 254%nat. rewrite (expand_loop_complete msg 254 p p ls (e - p) k) by (done || lia || by rewrite extend_text by done; lia).
  rewrite extend_text by done. unfold part_length. cbn [Z.ltb Z.compare]. do 2 f_equal. lia.
Qed.

(** ** getoffs *)

Lemma getoffs_spec msg s p e ls k : bytes msg -> encoded msg s p e ls k -> forall fuel offs, (k <= fuel)%nat -> (length offs + length ls <= 128)%nat ->
  exists offs', getoffs fuel msg p offs = Some offs' /\
    (offs' = [] \/ exists os, offs' = offs ++ os /\ length os = length ls /\
      forall i o, os !! i = Some o -> Z.of_nat o < 0x4000 /\ (exists c, msg !! o = Some c /\ 1 <= c <= 63) /\
        exists s' e' k', encoded msg s' o e' (drop i ls) k' /\ (e' <= e)%nat).
Proof.
  intros Hm. induction 1 as [s p Hc|s p e c ls k Hc Hr Hs H IH|s p c c1 s' e' ls k Hc Hr Hc1 Hs H IH He]; intros fuel offs Hf Hl;
    (destruct fuel as [|fuel]; [lia|]); cbn [getoffs]; rewrite Hc; cbn [mbind option_bind].
  - cbn. exists offs. split; [done|]. right. exists []. rewrite app_nil_r. split; [done|]. split; [done|]. intros i o Hi. done.
  - rewrite (proj1 (top_bits c ltac:(lia))). destruct (Z.leb_spec c 63); [|lia]. cbn [negb]. destruct (Z.eqb_spec c 0); [lia|].
    destruct (Z.leb_spec 0x4000 (Z.of_nat p)) as [Hp|Hp]; [exists []; split; [done|by left]|]. cbn in Hl.
    destruct (Nat.leb_spec 128 (length offs)); [lia|]. replace (p + Z.to_nat c + 1)%nat with (p + 1 + Z.to_nat c)%nat by lia.
    destruct (IH fuel (offs ++ [p])) as (offs' & E & Ho); [lia|rewrite length_app; cbn; lia|]. exists offs'. split; [done|].
    destruct Ho as [?|(os & -> & Hlo & Ho)]; [by left|]. right. exists (p :: os). rewrite <- app_assoc. split; [done|]. split; [cbn; lia|].
    intros [|i] o Hi; [|by apply Ho]. injection Hi as <-. split; [done|]. split; [by exists c|]. exists s, e, (S k). split; [|done]. by apply encoded_label.
  - pose proof (bytes_lookup msg p c Hm Hc). destruct (top_bits c ltac:(lia)) as [-> ->]. destruct (Z.leb_spec c 63); [lia|]. destruct (Z.leb_spec 192 c); [|lia]. cbn [negb].
    rewrite Hc1. cbn [mbind option_bind]. destruct (IH fuel offs) as (offs' & E & Ho); [lia|done|]. exists offs'. split; [done|].
    destruct Ho as [?|(os & -> & Hlo & Ho)]; [by left|]. right. exists os. split; [done|]. split; [done|]. intros i o Hi.
    destruct (Ho i o Hi) as (Ho1 & Ho0 & s1 & e1 & k1 & Ho2 & Ho3). split; [done|]. split; [done|]. exists s1, e1, k1. split; [done|]. lia.
Qed.

(** ** The longest suffix *)

Lemma text_app pre suf : pre <> [] -> suf <> [] -> text (pre ++ suf) = text pre ++ DOT :: text suf.
Proof.
  intros Hp Hs. induction pre as [|l pre IH]; [done|]. destruct pre as [|l1 pre]; [by apply text_cons|].
  change ((l :: l1 :: pre) ++ suf) with (l :: ((l1 :: pre) ++ suf)). rewrite !text_cons, IH by done. by rewrite <- app_assoc.
Qed.

Lemma text_prefix pre suf : exists t, text (pre ++ suf) = text pre ++ t.
Proof.
  destruct pre as [|l pre]; [by eexists|]. destruct suf as [|l1 suf]; [exists []; by rewrite !app_nil_r|].
  eexists. by apply text_app.
Qed.

(** The last label of a name, with the dot before it if there are more. *)
Lemma text_snoc pre x : exists q, text (pre ++ [x]) = q ++ x /\ (pre = [] /\ q = [] \/ pre <> [] /\ q = text pre ++ [DOT]).
Proof.
  destruct pre as [|l pre]; [exists []; split; [done|by left]|]. exists (text (l :: pre) ++ [DOT]). split; [|by right].
  rewrite text_app by done. by rewrite <- app_assoc.
Qed.

(** [m] characters of the name, those after the labels [pre], are in the message at [o]. *)
Definition suffix_match (msg : list Z) (sls : list (list Z)) (E m o : nat) : Prop :=
  exists pre suf, sls = pre ++ suf /\ m = (length (text sls) - length (text pre))%nat /\
    (suf <> [] -> Z.of_nat o < 0x4000 /\ exists s' e' k', encoded msg s' o e' suf k' /\ (e' <= E)%nat).

Lemma slice_middle (a b c : list Z) n : n = length b -> slice (a ++ b ++ c) (length a) n = Some b.
Proof.
  intros ->. unfold slice. rewrite !length_app. destruct (Nat.leb_spec (length a + length b) (length a + (length b + length c))); [|lia].
  by rewrite drop_app_length, take_app_length.
Qed.

Lemma match_loop_spec src rest msg sls E : src = text sls ++ rest -> forall pre suf npre os m offset,
  sls = pre ++ suf -> pre <> [] -> npre <> [] -> length os = length npre ->
  (forall i o, os !! i = Some o -> Z.of_nat o < 0x4000 /\ (exists c, msg !! o = Some c /\ 1 <= c <= 63) /\
    exists s' e' k', encoded msg s' o e' (drop i (npre ++ suf)) k' /\ (e' <= E)%nat) ->
  m = (length (text sls) - length (text pre))%nat ->
  (suf <> [] -> Z.of_nat offset < 0x4000 /\ exists s' e' k', encoded msg s' offset e' suf k' /\ (e' <= E)%nat) ->
  exists m' o', match_loop src msg (map length (reverse pre)) (reverse os) (length (text pre)) m offset = Some (m', o') /\ suffix_match msg sls E m' o'.
Proof.
  intros Hsrc. induction pre as [|x pre IH] using rev_ind; intros suf npre os m offset Hsls Hp Hn Hlen Hos Hm Hoff; [done|].
  destruct npre as [|y npre _] using rev_ind; [done|]. rewrite length_app in Hlen. cbn in Hlen.
  destruct os as [|o os _] using rev_ind; [cbn in Hlen; lia|]. rewrite length_app in Hlen. cbn in Hlen.
  rewrite !reverse_snoc. cbn [map match_loop].
  destruct (Hos (length os) o) as (Ho1 & (c & Hc & Hcr) & s' & e' & k' & Henc & He'). { by rewrite lookup_app_r, Nat.sub_diag by done. }
  replace (length os) with (length npre) in Henc by lia. rewrite <- app_assoc, drop_app_length in Henc. cbn [app] in Henc.
  assert (Hhere : suffix_match msg sls E m offset) by (exists (pre ++ [x]), suf; done).
  assert (Hy : y = take (Z.to_nat c) (drop (o + 1) msg) /\ (o + 1 + Z.to_nat c <= length msg)%nat).
  { inversion Henc; subst; simplify_eq; [|lia]. split; [done|]. match goal with H : encoded _ _ (_ + 1 + _) _ _ _ |- _ => apply encoded_range in H end. lia. }
  destruct Hy as [Hy Hol]. rewrite Hc. cbn [mbind option_bind].
  destruct (text_snoc pre x) as (q & Eq & Hq). destruct (text_prefix (pre ++ [x]) suf) as [t Et]. rewrite <- Hsls in Et.
  destruct (Z.eqb_spec (Z.of_nat (length x)) c) as [Hxc|Hxc]; cbn [negb]; [|by eexists _, _].
  assert (Hy' : slice msg (o + 1) (length x) = Some y).
  { unfold slice. destruct (Nat.leb_spec (o + 1 + length x) (length msg)); [|lia]. rewrite Hy. do 2 f_equal. lia. }
  assert (Hx' : slice src (length (text (pre ++ [x])) - length x) (length x) = Some x).
  { rewrite Hsrc, Et, Eq, length_app, Nat.add_sub, <- !app_assoc. by apply slice_middle. }
  rewrite Hy', Hx'. cbn [mbind option_bind].
  destruct (bool_decide_reflect (y = x)) as [Hyx|Hyx]; cbn [negb]; [|by eexists _, _].
  assert (Hsuf : (x :: suf) <> [] -> Z.of_nat o < 0x4000 /\ exists s' e' k', encoded msg s' o e' (x :: suf) k' /\ (e' <= E)%nat).
  { intros _. split; [done|]. rewrite <- Hyx. by exists s', e', k'. }
  rewrite !length_map, !length_reverse.
  set (m' := if (length pre =? 0)%nat then _ else _).
  assert (Hsls' : sls = pre ++ (x :: suf)) by (by rewrite Hsls, <- app_assoc).
  assert (HL : (length (text (pre ++ [x])) <= length (text sls))%nat) by (rewrite Et, length_app; lia).
  assert (Hm' : m' = (length (text sls) - length (text pre))%nat).
  { pose proof (f_equal length Eq) as Hq'. rewrite length_app in Hq'. unfold m'. destruct Hq as [[-> ->]|[Hpre ->]].
    - cbn [length text Nat.eqb app] in *. lia.
    - rewrite length_app in Hq'. cbn [length] in Hq'. destruct (Nat.eqb_spec (length pre) 0) as [Hp0|Hp0]; [by destruct pre|]. lia. }
  assert (Hthere : suffix_match msg sls E m' o) by (by exists pre, (x :: suf)).
  destruct (_ || _) eqn:Eend; [by eexists _, _|]. apply orb_false_iff in Eend as [Ep%Nat.eqb_neq Eo%Nat.eqb_neq].
  destruct Hq as [[-> _]|[Hpre ->]]; [done|].
  replace (length (text (pre ++ [x])) - length x - 1)%nat with (length (text pre)) by (rewrite Eq, !length_app; cbn; lia).
  apply (IH (x :: suf) npre os); try done; [intros ->; cbn in Hlen; lia|lia|].
  intros i o1 Hi. rewrite <- Hyx. replace (npre ++ y :: suf) with ((npre ++ [y]) ++ suf) by (by rewrite <- app_assoc). apply Hos. rewrite lookup_app_l; [done|]. by apply lookup_lt_Some in Hi.
Qed.

Lemma match_spec src rest msg sls s p e ls k : bytes msg -> src = text sls ++ rest -> sls <> [] -> encoded msg s p e ls k -> (length ls <= 128)%nat ->
  exists m o, match_ src msg p (length (text sls)) (map length sls) = Some (m, o) /\ suffix_match msg sls e m o.
Proof.
  intros Hm Hsrc Hne Henc Hl. pose proof (encoded_range _ _ _ _ _ _ Henc). pose proof (encoded_steps _ _ _ _ _ _ Henc). unfold match_.
  destruct (getoffs_spec msg s p e ls k Hm Henc (S (length msg)) [] ltac:(lia) ltac:(cbn; lia)) as (offs & -> & Ho). cbn [mbind option_bind].
  assert (Hz : suffix_match msg sls e 0 0) by (exists sls, []; rewrite app_nil_r; split; [done|]; split; [lia|done]).
  destruct (Nat.eqb_spec (length offs) 0) as [E0|E0]; [by eexists _, _|].
  destruct Ho as [->|(os & -> & Hlo & Ho)]; [done|]. cbn [app] in *.
  assert (Er : reverse (map length sls) = map length (reverse sls)) by (symmetry; apply (fmap_reverse length)). rewrite Er.
  apply (match_loop_spec src rest msg sls e Hsrc sls [] ls os); try done.
  - by rewrite app_nil_r.
  - intros ->. by destruct os.
  - by rewrite app_nil_r.
  - lia.
Qed.

Definition described (E : nat) (msg : list Z) (ps : list nat) : Prop :=
  Forall (fun p => exists s e ls k, encoded msg s p e ls k /\ (e <= E)%nat /\ (length ls <= 128)%nat) ps.

Lemma suffix_match_mono msg sls E E' m o : (E <= E')%nat -> suffix_match msg sls E m o -> suffix_match msg sls E' m o.
Proof.
  intros HE (pre & suf & H1 & H2 & H3). exists pre, suf. split; [done|]. split; [done|]. intros Hs. destruct (H3 Hs) as (H4 & s & e & k & H5 & H6).
  split; [done|]. exists s, e, k. split; [done|lia].
Qed.

Lemma best_loop_spec src rest msg sls E ps : bytes msg -> src = text sls ++ rest -> sls <> [] -> described E msg ps ->
  forall m o, suffix_match msg sls E m o ->
  exists m' o', best_loop src msg (length (text sls)) (map length sls) ps m o = Some (m', o') /\ suffix_match msg sls E m' o'.
Proof.
  intros Hm Hsrc Hne. induction 1 as [|p ps (s & e & ls & k & H1 & H2 & H3) Hps IH]; intros m o Hmo; [by eexists _, _|]. cbn [best_loop].
  destruct (match_spec src rest msg sls s p e ls k Hm Hsrc Hne H1 H3) as (m1 & o1 & -> & Hm1). cbn [mbind option_bind].
  apply (suffix_match_mono _ _ e E) in Hm1; [|done]. destruct (m <? m1)%nat; [|by apply IH]. destruct (m1 =? _)%nat; [by eexists _, _|by apply IH].
Qed.

(** ** getlens *)

Lemma find_dot_spec fuel s l : (l <= length s)%nat -> forall k, (k <= l)%nat -> (l <= k + fuel)%nat ->
  (k <= find_dot fuel s l k <= l)%nat /\ (DOT ∉ take (find_dot fuel s l k - k) (drop k (take l s))) /\
  (find_dot fuel s l k = l \/ s !! find_dot fuel s l k = Some DOT).
Proof.
  intros Hl. induction fuel as [|fuel IH]; intros k Hk Hf; cbn [find_dot].
  { rewrite Nat.sub_diag. split; [lia|]. split; [set_solver|]. left. lia. }
  destruct (Nat.ltb_spec k l) as [Hkl|Hkl]; cbn [andb].
  2: { rewrite Nat.sub_diag. split; [lia|]. split; [set_solver|]. left. lia. }
  destruct (lookup_lt_is_Some_2 s k ltac:(lia)) as [c Hc]. unfold aget. rewrite Nat2Z.id, Hc. cbn [from_option id].
  destruct (Z.eqb_spec c DOT) as [->|Hne]; cbn [negb].
  { rewrite Nat.sub_diag. split; [lia|]. split; [set_solver|]. by right. }
  destruct (IH (S k) ltac:(lia) ltac:(lia)) as (H1 & H2 & H3). split; [lia|]. split; [|done].
  rewrite (drop_S _ c) by (by rewrite lookup_take_lt). replace (find_dot fuel s l (S k) - k)%nat with (S (find_dot fuel s l (S k) - S k)) by lia.
  cbn [take]. set_solver.
Qed.

Lemma length_test j k : (k <= j <= 253)%nat -> (62 <? u32 (Z.of_nat j - Z.of_nat k - 1)) = negb ((1 <=? j - k)%nat && (j - k <=? 63)%nat).
Proof.
  intros H. destruct (Nat.leb_spec 1 (j - k)) as [H1|H1]; cbn [andb negb].
  - unfold u32. rewrite wrap_small by (unfold word; lia). destruct (Nat.leb_spec (j - k) 63), (Z.ltb_spec 62 (Z.of_nat j - Z.of_nat k - 1)); done || lia.
  - replace (Z.of_nat j - Z.of_nat k - 1) with (-1) by lia. done.
Qed.

(** What [getlens] accepts is a name. *)
Lemma getlens_sound s l : bytes s -> (l <= length s)%nat -> (l <= 253)%nat -> forall fuel k lens, (k <= l)%nat -> (l < k + fuel)%nat -> (2 * length lens <= k)%nat ->
  exists lens', getlens fuel s l k lens = Some lens' /\
    (lens' = [] \/ exists ls, ls <> [] /\ lens' = lens ++ map length ls /\ Forall label ls /\ drop k (take l s) = text ls).
Proof.
  intros Hb Hl Hl'. induction fuel as [|fuel IH]; intros k lens Hk Hf Hn; [lia|]. cbn [getlens].
  destruct (find_dot_spec l s l Hl k Hk ltac:(lia)) as (H1 & H2 & H3). set (j := find_dot l s l k) in *. rewrite length_test by lia.
  destruct (Nat.leb_spec 1 (j - k)); [|exists []; split; [done|by left]]. destruct (Nat.leb_spec (j - k) 63); [|exists []; split; [done|by left]]. cbn [andb negb].
  destruct (Nat.leb_spec 127 (length lens)); [lia|]. set (x := take (j - k) (drop k (take l s))) in *.
  assert (Hlx : length x = (j - k)%nat) by (unfold x; rewrite length_take, length_drop, length_take; lia).
  assert (Hx : label x).
  { split; [lia|]. split; [|done]. unfold x. by apply Forall_take, Forall_drop, Forall_take. }
  destruct (Nat.eqb_spec j l) as [Hjl|Hjl].
  - exists (lens ++ [(j - k)%nat]). split; [done|]. right. exists [x]. split; [done|]. cbn [map text]. rewrite Hlx. split; [done|]. split; [by constructor|].
    symmetry. apply take_ge. rewrite length_drop, length_take. lia.
  - destruct H3 as [?|H3]; [lia|]. destruct (IH (j + 1)%nat (lens ++ [(j - k)%nat])) as (lens' & E & Hr); [lia|lia|rewrite length_app; cbn; lia|].
    exists lens'. split; [done|]. destruct Hr as [?|(ls & Hne & -> & Hls & Ht)]; [by left|]. right. exists (x :: ls). split; [done|].
    cbn [map]. rewrite Hlx, <- app_assoc. split; [done|]. split; [by constructor|]. rewrite text_cons, <- Ht by done.
    rewrite <- (take_drop (j - k) (drop k (take l s))). fold x. f_equal. rewrite drop_drop. replace (k + (j - k))%nat with j by lia.
    rewrite (drop_S _ DOT) by (by rewrite lookup_take_lt by lia). by rewrite Nat.add_1_r.
Qed.

Lemma find_dot_text s l k x t : (l <= length s)%nat -> (k <= l)%nat -> drop k (take l s) = x ++ t -> DOT ∉ x -> (t = [] \/ exists t', t = DOT :: t') ->
  find_dot l s l k = (k + length x)%nat.
Proof.
  intros Hl Hk Hd Hx Ht. destruct (find_dot_spec l s l Hl k Hk ltac:(lia)) as (H1 & H2 & H3). set (j := find_dot l s l k) in *.
  assert (Hlen : (l - k = length x + length t)%nat) by (rewrite <- length_app, <- Hd, length_drop, length_take; lia).
  destruct (decide (j < k + length x)%nat) as [Hj|Hj].
  - destruct H3 as [?|H3]; [lia|]. exfalso. apply Hx, list_elem_of_lookup. exists (j - k)%nat.
    rewrite <- (lookup_app_l x t) by lia. rewrite <- Hd, lookup_drop, lookup_take_lt by lia. by replace (k + (j - k))%nat with j by lia.
  - destruct (decide (j = k + length x)%nat) as [|Hne]; [done|]. exfalso. destruct Ht as [->|[t' ->]]; [cbn in Hlen; lia|].
    apply H2. rewrite Hd. apply list_elem_of_lookup. exists (length x). rewrite lookup_take_lt by lia. by rewrite lookup_app_r, Nat.sub_diag by lia.
Qed.

(** And it accepts every name. *)
Lemma getlens_text s l : (l <= length s)%nat -> (l <= 253)%nat -> forall ls fuel k lens, ls <> [] -> Forall label ls -> drop k (take l s) = text ls ->
  (k <= l)%nat -> (l < k + fuel)%nat -> (2 * length lens <= k)%nat -> getlens fuel s l k lens = Some (lens ++ map length ls).
Proof.
  intros Hl Hl'. induction ls as [|x ls IH]; intros fuel k lens Hne Hls Ht Hk Hf Hn; [done|]. apply Forall_cons in Hls as [(Hx1 & Hx2 & Hx3) Hls].
  destruct fuel as [|fuel]; [lia|]. cbn [getlens].
  assert (Hlen : (l - k = length (text (x :: ls)))%nat) by (rewrite <- Ht, length_drop, length_take; lia).
  destruct ls as [|x1 ls].
  - cbn [text] in *. rewrite (find_dot_text s l k x []) by (done || (by rewrite app_nil_r) || by left). rewrite length_test by lia.
    replace (k + length x - k)%nat with (length x) by lia. destruct (Nat.leb_spec 1 (length x)); [|lia]. destruct (Nat.leb_spec (length x) 63); [|lia]. cbn [andb negb].
    destruct (Nat.leb_spec 127 (length lens)); [lia|]. destruct (Nat.eqb_spec (k + length x) l); [done|lia].
  - rewrite text_cons in * by done. rewrite length_app in Hlen. cbn [length] in Hlen.
    rewrite (find_dot_text s l k x (DOT :: text (x1 :: ls))) by (done || by right; eexists). rewrite length_test by lia.
    replace (k + length x - k)%nat with (length x) by lia. destruct (Nat.leb_spec 1 (length x)); [|lia]. destruct (Nat.leb_spec (length x) 63); [|lia]. cbn [andb negb].
    destruct (Nat.leb_spec 127 (length lens)); [lia|]. destruct (Nat.eqb_spec (k + length x) l); [lia|].
    rewrite IH; try done; [by rewrite <- app_assoc| |lia|lia|rewrite length_app; cbn; lia].
    replace (k + length x + 1)%nat with (k + (length x + 1))%nat by lia. rewrite <- drop_drop, Ht.
    rewrite <- drop_drop, drop_app_length. done.
Qed.

(** ** What [dn_comp] writes *)

Fixpoint wire (ls : list (list Z)) : list Z :=
  match ls with
  | [] => []
  | l :: ls => Z.of_nat (length l) :: l ++ wire ls
  end.

Lemma wire_length ls : ls <> [] -> length (wire ls) = S (length (text ls)).
Proof.
  induction ls as [|l ls IH]; [done|]. intros _. cbn [wire length]. rewrite length_app. destruct ls as [|l1 ls]; [cbn; lia|].
  rewrite IH, (text_cons l), length_app by done. cbn [length]. lia.
Qed.

Lemma splice_lookup m a u i : (a + length u <= length m)%nat ->
  splice m a u !! i = if decide (a <= i < a + length u)%nat then u !! (i - a)%nat else m !! i.
Proof.
  intros H. unfold splice. case_decide as Hi.
  - rewrite lookup_app_r by (rewrite length_take; lia). rewrite length_take, Nat.min_l by lia. rewrite lookup_app_l by lia. done.
  - destruct (decide (i < a)%nat).
    + rewrite lookup_app_l by (rewrite length_take; lia). by rewrite lookup_take_lt.
    + rewrite lookup_app_r by (rewrite length_take; lia). rewrite length_take, Nat.min_l by lia. rewrite lookup_app_r by lia.
      rewrite lookup_drop. f_equal. lia.
Qed.

Lemma splice_cover m a u b w : (b <= a)%nat -> (a + length u <= b + length w)%nat -> (b + length w <= length m)%nat -> splice (splice m a u) b w = splice m b w.
Proof.
  intros H1 H2 H3. apply list_eq. intros i. rewrite !splice_lookup by (rewrite ?splice_length; lia).
  case_decide; [done|]. case_decide; [lia|done].
Qed.

Lemma store_splice m a c : (a < length m)%nat -> store m a c = Some (splice m a [c]).
Proof.
  intros Ha. unfold store. destruct (Nat.ltb_spec a (length m)); [|lia]. f_equal. unfold splice. cbn [length app]. rewrite Nat.add_1_r. by apply insert_take_drop.
Qed.

Lemma splice_app m a u w : (a + length u + length w <= length m)%nat -> splice (splice m a u) (a + length u) w = splice m a (u ++ w).
Proof. apply splice_splice. Qed.

Lemma put_lens_spec dst n more : forall pre msg i, pre <> [] -> Forall label pre -> (dst + i + S (length (text pre)) <= length msg)%nat ->
  take (length (text pre)) (drop (dst + i + 1) msg) = text pre -> n = (i + length (text pre))%nat ->
  put_lens msg dst i n (map length (pre ++ more)) = Some ((i + length (wire pre))%nat, splice msg (dst + i) (wire pre)).
Proof.
  induction pre as [|x pre IH]; intros msg i Hne Hls Hl Ht Hn; [done|]. apply Forall_cons in Hls as [(Hx1 & _ & _) Hls].
  rewrite wire_length by done. cbn [map app put_lens].
  assert (Hxn : (i + length x <= n)%nat) by (rewrite Hn; destruct pre; cbn [text]; rewrite ?length_app; lia).
  destruct (Nat.ltb_spec i n); [|lia]. rewrite store_splice by lia. cbn [mbind option_bind].
  assert (Hx : splice msg (dst + i) [Z.of_nat (length x)] = splice msg (dst + i) (Z.of_nat (length x) :: x)).
  { change (Z.of_nat (length x) :: x) with ([Z.of_nat (length x)] ++ x). rewrite <- splice_splice by (cbn; destruct pre; cbn [text] in Hl; rewrite ?length_app in Hl; lia).
    apply list_eq. intros j. assert (Hb : (dst + i + 1 + length x <= length msg)%nat) by lia.
    rewrite (splice_lookup (splice _ _ _) (dst + i + length [Z.of_nat (length x)]) x j) by (rewrite splice_length; cbn [length]; lia).
    case_decide as Hj; [|done]. rewrite splice_lookup by (cbn [length]; lia). cbn [length] in *. case_decide; [lia|].
    assert (E : take (length (text (x :: pre))) (drop (dst + i + 1) msg) !! (j - (dst + i + 1))%nat = x !! (j - (dst + i + 1))%nat).
    { rewrite Ht. destruct pre as [|y pre]; [done|]. rewrite text_cons by done. by rewrite lookup_app_l by lia. }
    rewrite lookup_take_lt, lookup_drop in E by (rewrite Hn in Hxn; lia). rewrite <- E. f_equal. lia. }
  destruct pre as [|y pre].
  - cbn [text wire app] in *. rewrite app_nil_r, Hx. destruct more as [|z more]; cbn [map put_lens]; (destruct (Nat.ltb_spec (i + length x + 1) n); [lia|]); do 2 f_equal; lia.
  - rewrite text_cons, length_app in * by done. cbn [length] in *. rewrite IH.
    + rewrite wire_length by done. do 2 f_equal; [lia|]. rewrite Hx. change (wire (x :: y :: pre)) with ((Z.of_nat (length x) :: x) ++ wire (y :: pre)).
      rewrite <- splice_app by (cbn [length]; rewrite wire_length by done; lia). f_equal. cbn [length]. lia.
    + done.
    + done.
    + rewrite splice_length by (cbn [length]; lia). lia.
    + assert (E : drop (dst + (i + length x + 1) + 1) (splice msg (dst + i) [Z.of_nat (length x)]) = drop (length x + 1) (drop (dst + i + 1) msg)).
      { rewrite drop_drop. apply list_eq. intros j. rewrite !lookup_drop, splice_lookup by (cbn [length]; lia). cbn [length]. case_decide; [lia|]. f_equal. lia. }
      rewrite E. rewrite take_drop_commute. replace (length x + 1 + length (text (y :: pre)))%nat with (length x + S (length (text (y :: pre))))%nat by lia.
      rewrite Ht. rewrite <- drop_drop, drop_app_length. done.
    + lia.
Qed.

Lemma encoded_wire msg s e suf k pre : forall p, (s <= p)%nat -> (forall j, (j < length (wire pre))%nat -> msg !! (p + j)%nat = wire pre !! j) ->
  Forall label pre -> encoded msg s (p + length (wire pre)) e suf k -> encoded msg s p e (pre ++ suf) (length pre + k).
Proof.
  induction pre as [|x pre IH]; intros p Hs Hw Hls He; [by rewrite Nat.add_0_r in He|]. apply Forall_cons in Hls as [(Hx1 & _ & _) Hls].
  cbn [wire length] in *. rewrite length_app in *.
  assert (Hx : x = take (Z.to_nat (Z.of_nat (length x))) (drop (p + 1) msg)).
  { rewrite Nat2Z.id. apply list_eq. intros j. destruct (decide (j < length x)%nat) as [Hj|Hj].
    - rewrite lookup_take_lt, lookup_drop by done. specialize (Hw (S j) ltac:(lia)). replace (p + S j)%nat with (p + 1 + j)%nat in Hw by lia.
      rewrite Hw. symmetry. apply (lookup_app_l x). lia.
    - rewrite lookup_take_ge, lookup_ge_None_2 by lia. done. }
  change ((x :: pre) ++ suf) with (x :: pre ++ suf). rewrite Hx at 1. apply encoded_label; [|lia|done|].
  - specialize (Hw 0%nat ltac:(lia)). rewrite Nat.add_0_r in Hw. done.
  - rewrite Nat2Z.id. apply IH; [lia| |done|].
    + intros j Hj. specialize (Hw (S (length x + j)) ltac:(lia)). replace (p + S (length x + j))%nat with (p + 1 + length x + j)%nat in Hw by lia.
      rewrite Hw. transitivity ((x ++ wire pre) !! (length x + j)%nat); [done|]. rewrite lookup_app_r by lia. f_equal. lia.
    + replace (p + 1 + length x + length (wire pre))%nat with (p + S (length x + length (wire pre)))%nat by lia. done.
Qed.

Lemma pointer_high_checked : forallb (fun h => (u8 (0xc0 .| h) .& 0x3f =? h) && (192 <=? u8 (0xc0 .| h))) (seqZ 0 64) = true.
Proof. vm_compute. reflexivity. Qed.

Lemma pointer_bytes o : Z.of_nat o < 0x4000 -> ptr_target (u8 (0xc0 .| (Z.of_nat o ≫ 8))) (u8 (Z.of_nat o)) = o /\ 192 <= u8 (0xc0 .| (Z.of_nat o ≫ 8)).
Proof.
  intros Ho. pose proof pointer_high_checked as H. rewrite forallb_forall in H. rewrite Z.shiftr_div_pow2 by lia. change (2 ^ 8) with 256.
  assert (Hh : 0 <= Z.of_nat o / 256 < 64) by (split; [apply Z.div_pos|apply Z.div_lt_upper_bound]; lia).
  specialize (H (Z.of_nat o / 256) ltac:(apply list_elem_of_In, elem_of_seqZ; lia)). apply andb_prop in H as [H1%Z.eqb_eq H2%Z.leb_le].
  split; [|done]. unfold ptr_target. rewrite H1, Z.lor_comm, <- (lor_add_disjoint (u8 (Z.of_nat o)) _ 8) by (lia || apply u8_word).
  unfold u8, wrap. change (2 ^ 8) with 256. rewrite Z.add_comm, <- Z.div_mod by lia. apply Nat2Z.id.
Qed.

(** ** Theorems *)

(** [src] is the name [ls], with or without a final dot. *)
Definition named (src : list Z) (ls : list (list Z)) : Prop := valid ls /\ (src = text ls \/ src = text ls ++ [DOT]).

(** The names at [names] are in the message below [E]. *)
Definition packet (msg : list Z) (E : nat) (names : list (nat * list (list Z))) : Prop :=
  Forall (fun '(p, ls) => valid ls /\ exists s e k, encoded msg s p e ls k /\ (e <= E)%nat) names.

Lemma packet_described msg E names : packet msg E names -> described E msg (map fst names).
Proof.
  unfold described. intros H. apply Forall_map. eapply Forall_impl; [exact H|]. intros [p ls] [[Hls Hl] (s & e & k & H1 & H2)]. cbn.
  exists s, e, ls, k. pose proof (label_text_length ls Hls). split; [done|]. split; [done|lia].
Qed.

Lemma packet_ext msg msg' E E' names : packet msg E names -> (E <= E')%nat -> (forall j, (j < E)%nat -> msg' !! j = msg !! j) -> packet msg' E' names.
Proof.
  intros H HE Hx. eapply Forall_impl; [exact H|]. intros [p ls] [Hv (s & e & k & H1 & H2)]. split; [done|]. exists s, e, k. split; [|lia].
  apply (encoded_ext msg); [done|]. intros i Hi. apply Hx. lia.
Qed.

Lemma stripped_text src ls : named src ls -> stripped src = length (text ls).
Proof.
  intros [[Hls Hl] Hsrc]. unfold stripped.
  assert (Hlast : forall c q, text ls = q ++ [c] -> c <> DOT).
  { intros c q Hq. destruct ls as [|x ls _] using rev_ind; [by destruct q|]. apply Forall_app in Hls as [_ [(Hx1 & _ & Hx3) _]%Forall_cons].
    destruct (text_snoc ls x) as (q' & Eq & _). rewrite Eq in Hq. destruct x as [|c' x _] using rev_ind; [cbn in Hx1; lia|].
    rewrite app_assoc in Hq. apply app_inj_tail in Hq as [_ <-]. set_solver. }
  destruct Hsrc as [->| ->].
  - rewrite Nat.min_l by lia. destruct (text ls) as [|c q _] using rev_ind; [done|]. rewrite length_app. cbn [length].
    replace (Z.of_nat (length q + 1) - 1) with (Z.of_nat (length q)) by lia. unfold aget. rewrite Nat2Z.id, lookup_app_r, Nat.sub_diag by lia. cbn [lookup list_lookup from_option id].
    specialize (Hlast c q eq_refl). destruct (Z.eqb_spec c DOT); [done|]. by rewrite andb_false_r.
  - rewrite length_app. cbn [length]. rewrite Nat.min_l by lia. replace (Z.of_nat (length (text ls) + 1) - 1) with (Z.of_nat (length (text ls))) by lia.
    unfold aget. rewrite Nat2Z.id, lookup_app_r, Nat.sub_diag by lia. cbn [lookup list_lookup from_option id]. rewrite Z.eqb_refl.
    destruct (Nat.eqb_spec (length (text ls) + 1) 0); [lia|]. cbn [negb andb]. lia.
Qed.

Lemma stripped_take src : (stripped src <= 253)%nat -> (stripped src <= length src)%nat /\ (src = take (stripped src) src \/ src = take (stripped src) src ++ [DOT]).
Proof.
  unfold stripped. destruct (Nat.eqb_spec (Nat.min (length src) 255) 0) as [H0|H0]; cbn [negb andb].
  { intros _. split; [lia|]. left. destruct src; [done|cbn in H0; lia]. }
  destruct (Z.eqb_spec src.[Z.of_nat (Nat.min (length src) 255) - 1] DOT) as [Hd|Hd]; intros Hl.
  - rewrite (Nat.min_l _ _) in * by lia. split; [lia|]. right. unfold aget in Hd. replace (Z.to_nat (Z.of_nat (length src) - 1)) with (length src - 1)%nat in Hd by lia.
    destruct (lookup_lt_is_Some_2 src (length src - 1) ltac:(lia)) as [c Hc]. rewrite Hc in Hd. cbn in Hd. subst c.
    rewrite <- (take_S_r _ _ _ Hc). symmetry. apply take_ge. lia.
  - rewrite (Nat.min_l _ _) in * by lia. split; [lia|]. left. symmetry. by apply take_ge.
Qed.

(** What a successful call leaves. *)
Record added (msg msg' : list Z) (dst i : nat) (ls : list (list Z)) : Prop := {
  added_length : length msg' = length msg;
  added_bytes : bytes msg';
  added_frame j : (j < dst \/ dst + i <= j)%nat -> msg' !! j = msg !! j;
  added_encoded : exists k, encoded msg' dst dst (dst + i) ls k;
}.

Lemma added_splice msg dst pre suf t e k : bytes msg -> bytes t -> Forall label pre -> e = (dst + length (wire pre ++ t))%nat -> (e <= length msg)%nat ->
  (forall msg', (forall j, (j < dst)%nat -> msg' !! j = msg !! j) -> (forall j, (j < length t)%nat -> msg' !! (dst + length (wire pre) + j)%nat = t !! j) ->
    encoded msg' dst (dst + length (wire pre)) e suf k) ->
  added msg (splice msg dst (wire pre ++ t)) dst (length (wire pre ++ t)) (pre ++ suf).
Proof.
  intros Hm Ht Hls -> He Hsuf. split.
  - by apply splice_length.
  - unfold splice. rewrite !Forall_app. split; [by apply Forall_take|]. split; [split; [|done]|by apply Forall_drop].
    clear -Hls. induction Hls as [|x pre (Hx1 & Hx2 & _) Hls IH]; [constructor|]. cbn [wire]. constructor; [unfold byte_ok; lia|]. by apply Forall_app.
  - intros j Hj. rewrite splice_lookup by done. case_decide; [lia|done].
  - exists (length pre + k)%nat. apply encoded_wire; [done| |done|].
    + intros j Hj. rewrite splice_lookup by done. rewrite length_app. case_decide; [|lia]. rewrite lookup_app_l by lia. f_equal. lia.
    + apply Hsuf.
      * intros j Hj. rewrite splice_lookup by done. case_decide; [lia|done].
      * intros j Hj. rewrite splice_lookup by done. rewrite length_app. case_decide; [|lia]. rewrite lookup_app_r by lia. f_equal. lia.
Qed.

Lemma wire_text_length pre : length (text pre) = (length (wire pre) - 1)%nat.
Proof. destruct pre as [|x pre]; [done|]. rewrite wire_length by done. lia. Qed.

Lemma splice_nil m a : splice m a [] = m.
Proof. unfold splice. cbn [length app]. rewrite Nat.add_0_r. apply take_drop. Qed.

(** The labels that are not in the message yet. *)
Lemma put_prefix src rest msg dst pre suf : src = text (pre ++ suf) ++ rest -> Forall label pre -> (dst + 1 + length (text pre) <= length msg)%nat ->
  put_lens (splice msg (dst + 1) (take (length (text pre)) src)) dst 0 (length (text pre)) (map length (pre ++ suf)) =
  Some (length (wire pre), splice msg dst (wire pre)).
Proof.
  intros -> Hls Hl. destruct (text_prefix pre suf) as [t ->]. rewrite <- app_assoc, take_app_length.
  destruct pre as [|x pre]; [rewrite !splice_nil; by destruct suf|].
  assert (Hw := wire_length (x :: pre) ltac:(done)).
  rewrite (put_lens_spec dst _ suf (x :: pre)); [|done|done| | |lia].
  - rewrite Nat.add_0_r. rewrite (splice_cover msg (dst + 1)) by lia. done.
  - rewrite splice_length by lia. lia.
  - rewrite Nat.add_0_r. unfold splice. rewrite drop_app_ge by (rewrite length_take; lia). rewrite length_take, Nat.min_l, Nat.sub_diag by lia.
    by rewrite drop_0, take_app_length.
Qed.

Lemma u64_test m l : (m <= l)%nat -> (1 <= l <= 253)%nat ->
  (if u64 (Z.of_nat m - 1) <? Z.of_nat l - 1 then 1 else 0) = (if ((m =? 0) || (m =? l))%nat then 0 else 1).
Proof.
  intros Hm Hl. unfold u64. destruct (Nat.eqb_spec m 0) as [->|Hm0]; cbn [orb].
  - change (wrap 64 (Z.of_nat 0 - 1)) with 18446744073709551615. destruct (Z.ltb_spec 18446744073709551615 (Z.of_nat l - 1)); [lia|done].
  - rewrite wrap_small by (unfold word; lia). destruct (Nat.eqb_spec m l), (Z.ltb_spec (Z.of_nat m - 1) (Z.of_nat l - 1)); done || lia.
Qed.

(** The part of [dn_comp] after the search. *)
Lemma put_name_spec src rest msg dst space sls m o dnptrs last : bytes msg -> src = text sls ++ rest -> sls <> [] -> valid sls ->
  suffix_match msg sls dst m o -> (dst + Z.to_nat space <= length msg)%nat ->
  let r := put_name src msg dst space dnptrs last (length (text sls)) (map length sls) m o in
  r = Some (-1, msg, dnptrs) /\ space < Z.of_nat (length (text sls)) + 2 \/
  exists i msg' dnptrs', r = Some (Z.of_nat i, msg', dnptrs') /\ (0 < i)%nat /\ Z.of_nat i <= space /\ added msg msg' dst i sls /\
    (dnptrs' = dnptrs \/ exists ps, dnptrs = Some ps /\ dnptrs' = Some (ps ++ [dst])).
Proof.
  intros Hm Hsrc Hne [Hls Hl] (pre & suf & -> & -> & Ho) Hsp r. subst r. unfold put_name.
  destruct (text_prefix pre suf) as [t Et]. set (l := length (text (pre ++ suf))) in *.
  assert (Htl : l = (length (text pre) + length t)%nat) by (unfold l; by rewrite Et, length_app).
  assert (Hl1 : (1 <= l)%nat).
  { unfold l. destruct (pre ++ suf) as [|x sls]; [done|]. apply Forall_cons in Hls as [(Hx & _) _]. destruct sls; cbn [text]; rewrite ?length_app; lia. }
  pose proof (wire_text_length pre) as Hwt. apply Forall_app in Hls as [Hpre Hsuf].
  replace (l - (l - length (text pre)))%nat with (length (text pre)) by lia. set (m := (l - length (text pre))%nat) in *.
  rewrite u64_test by lia.
  destruct (Z.ltb_spec space (Z.of_nat l - Z.of_nat m + 2 + (if ((m =? 0) || (m =? l))%nat then 0 else 1))) as [Hs|Hs].
  { left. split; [done|]. destruct (Nat.eqb_spec m 0), (Nat.eqb_spec m l); cbn [orb] in Hs; lia. }
  right. assert (Hroom : (dst + 1 + length (text pre) <= length msg)%nat) by (destruct ((m =? 0) || (m =? l))%nat; lia).
  unfold slice. destruct (Nat.leb_spec (dst + 1 + length (text pre)) (length msg)); [|lia]. cbn [mbind option_bind].
  rewrite (put_prefix src rest) by done. cbn [mbind option_bind].
  assert (Hwl : pre <> [] -> length (wire pre) = S (length (text pre))) by apply wire_length.
  assert (Hdn : forall (i : nat), 
    match dnptrs, last with Some ps, Some last => if (2 <? i)%nat && (S (length ps) + 1 <? last)%nat then Some (ps ++ [dst]) else Some ps | _, _ => dnptrs end = dnptrs \/
    exists ps, dnptrs = Some ps /\ match dnptrs, last with Some ps, Some last => if (2 <? i)%nat && (S (length ps) + 1 <? last)%nat then Some (ps ++ [dst]) else Some ps | _, _ => dnptrs end = Some (ps ++ [dst])).
  { intros i. destruct dnptrs as [ps|]; [|by left]. destruct last; [|by left]. destruct (_ && _); [right; by exists ps|by left]. }
  destruct (Nat.eqb_spec m 0) as [Hm0|Hm0]; cbn [negb orb] in *.
  - assert (suf = []) as ->.
    { destruct suf as [|x suf]; [done|]. exfalso. destruct pre as [|y pre]; [cbn in *; lia|]. rewrite text_app in Et by done. apply app_inv_head in Et. subst t. cbn in *. lia. }
    rewrite app_nil_r in *. assert (Hp : pre <> []) by done. specialize (Hwl Hp).
    rewrite store_splice by (rewrite splice_length; lia). cbn [mbind option_bind]. rewrite splice_splice by (cbn [length]; lia).
    replace (length (wire pre) + 1)%nat with (length (wire pre ++ [0])) by (rewrite length_app; done).
    eexists _, _, _. split; [done|]. rewrite length_app. cbn [length]. split; [lia|]. split; [lia|]. split; [|by apply Hdn].
    replace (length (wire pre) + 1)%nat with (length (wire pre ++ [0])) by (rewrite length_app; done). rewrite <- (app_nil_r pre) at 3.
    apply (added_splice msg dst pre [] [0] (dst + length (wire pre ++ [0])) 1); try done.
    + constructor; [unfold byte_ok; lia|done].
    + rewrite length_app. cbn [length]. lia.
    + intros msg' _ Hj. rewrite length_app. cbn [length]. rewrite Nat.add_assoc. apply encoded_root; [|lia]. specialize (Hj 0%nat ltac:(cbn; lia)). by rewrite Nat.add_0_r in Hj.
  - assert (Hsn : suf <> []).
    { intros ->. rewrite app_nil_r in Et. apply (f_equal length) in Et. rewrite length_app in Et. lia. }
    destruct (Ho Hsn) as (Ho1 & s' & e' & k' & Henc & He'). destruct (pointer_bytes o Ho1) as [Hpt1 Hpt2].
    assert (Hi : (length (wire pre) + 2 <= Z.to_nat space)%nat).
    { pose proof (label_text_length pre Hpre). destruct pre as [|y pre].
      - cbn [wire text length] in *. destruct (Nat.eqb_spec m l); lia.
      - specialize (Hwl ltac:(done)). cbn [length] in *. destruct (Nat.eqb_spec m l); lia. }
    rewrite store_splice by (rewrite splice_length; lia). cbn [mbind option_bind]. rewrite splice_splice by (cbn [length]; lia).
    replace (dst + length (wire pre) + 1)%nat with (dst + length (wire pre ++ [u8 (192 .| Z.of_nat o ≫ 8)]))%nat by (rewrite length_app; cbn [length]; lia).
    rewrite store_splice by (rewrite splice_length; rewrite ?length_app; cbn [length]; lia). cbn [mbind option_bind].
    rewrite splice_splice by (rewrite ?length_app; cbn [length]; lia). rewrite <- app_assoc. cbn [app].
    set (t2 := [u8 (192 .| Z.of_nat o ≫ 8); u8 (Z.of_nat o)]).
    replace (length (wire pre) + 2)%nat with (length (wire pre ++ t2)) by (rewrite length_app; done).
    eexists _, _, _. split; [done|]. rewrite length_app. cbn [length t2]. split; [lia|]. split; [lia|]. split; [|by apply Hdn].
    replace (length (wire pre) + 2)%nat with (length (wire pre ++ t2)) by (rewrite length_app; done).
    apply (added_splice msg dst pre suf t2 (dst + length (wire pre ++ t2)) (S k')); try done.
    + repeat constructor; apply u8_word.
    + rewrite length_app. cbn [length t2]. lia.
    + intros msg' Hlow Hj. rewrite length_app. cbn [length t2]. rewrite Nat.add_assoc.
      apply (encoded_pointer msg' dst _ (u8 (192 .| Z.of_nat o ≫ 8)) (u8 (Z.of_nat o)) s' e'); try done.
      * specialize (Hj 0%nat ltac:(cbn; lia)). by rewrite Nat.add_0_r in Hj.
      * apply (Hj 1%nat). cbn. lia.
      * lia.
      * rewrite Hpt1. apply (encoded_ext msg); [done|]. intros j Hj'. apply Hlow. lia.
Qed.

(** C22: [dn_expand], on any message of bytes shorter than 2^31 - 1: it ends,
    reads and writes within the buffers and its counter does not overflow
    ([Some]). It returns -1, or the length of the name at [src] with its text
    in [dest]; and the names it finds are exactly those whose text fits in
    [space] and 253 bytes, and whose reading takes at most a step for two bytes
    of the message. *)
Theorem dn_expand_correct msg src space : bytes msg -> Z.of_nat (length msg) < 2 ^ 31 - 1 -> (src <= length msg)%nat ->
  exists r d, dn_expand msg src space = Some (r, d) /\ (length d <= Z.to_nat (Z.min space 254))%nat /\
    (r = -1 \/ exists ls n k, decodes msg src ls n k /\ (2 * k <= length msg + 1)%nat /\ Z.of_nat (length (text ls)) < Z.min space 254 /\
       r = Z.of_nat n /\ d = text ls ++ [0]) /\
    (forall ls n k, decodes msg src ls n k -> (2 * k <= length msg + 1)%nat -> Z.of_nat (length (text ls)) < Z.min space 254 ->
      r = Z.of_nat n /\ d = text ls ++ [0]).
Proof.
  intros Hm Hml Hs. unfold dn_expand. destruct (Nat.eqb_spec src (length msg)) as [->|Hne]; cbn [orb].
  { exists (-1), []. split; [done|]. split; [cbn; lia|]. split; [by left|]. intros ls n k H%decodes_lt. lia. }
  destruct (Z.leb_spec space 0) as [Hsp|Hsp].
  { exists (-1), []. split; [done|]. split; [cbn; lia|]. split; [by left|]. intros; lia. }
  replace (if 254 <? space then 254 else space) with (Z.min space 254) by (destruct (Z.ltb_spec 254 space); lia).
  destruct (expand_loop_sound (S (length msg)) msg src (Z.to_nat (Z.min space 254)) 0 src (-1) [] Hm Hml) as (r & d & E & Hl & Hr); [lia|cbn; lia|lia|lia|].
  exists r, d. split; [done|]. split; [done|]. split.
  - destruct Hr as [?|(ls & n & k & H1 & Hk & H2 & H3)]; [by left|]. right. exists ls, n, k. split; [done|]. split; [lia|].
    rewrite extend_text in H2 by (by eapply decodes_nonempty). subst d. rewrite length_app in Hl. cbn in Hl. split; [lia|].
    split; [|done]. rewrite H3. unfold part_length. cbn [Z.ltb Z.compare]. lia.
  - intros ls n k Hd Hk Hlen. pose proof (decodes_nonempty _ _ _ _ _ Hd). rewrite (expand_loop_complete msg _ src src ls n k) in E by (done || lia || by rewrite extend_text by done; lia).
    rewrite extend_text in E by done. injection E as <- <-. split; [|done]. unfold part_length. cbn [Z.ltb Z.compare]. lia.
Qed.

(** A name that is found; and one of seven steps in eight bytes, labels and a
    pointer that overlap, which is not: four steps are made. *)
Lemma dn_expand_correct_witness :
  let msg := [3; 99; 111; 109; 0; 1; 97; 192; 0] in
  (forall d r, dn_expand msg 5 100 = Some (r, d) -> r = 4 /\ d = ascii_bytes "a.com" ++ [0]) /\
  exists r d, dn_expand [1; 1; 1; 1; 192; 1; 97; 0] 0 100 = Some (r, d) /\ r = -1.
Proof.
  intros msg. assert (Hm : bytes msg) by (apply (bool_decide_unpack _); vm_compute; exact I).
  assert (Hm2 : bytes [1; 1; 1; 1; 192; 1; 97; 0]) by (apply (bool_decide_unpack _); vm_compute; exact I). split.
  - destruct (dn_expand_correct msg 5 100 Hm ltac:(vm_compute; reflexivity) ltac:(cbn; lia)) as (r & d & E & _ & _ & H). intros d' r' E'. rewrite E in E'. injection E' as <- <-.
    apply (H [[97]; [99; 111; 109]] 4%nat 4%nat); [|cbn; lia|cbn; lia].
    apply (decodes_label msg 5 1 [[99; 111; 109]] 2 3); [done|lia|]. apply (decodes_pointer msg 7 192 0 [[99; 111; 109]] 5 2); [done|lia|done|].
    apply (decodes_label msg 0 3 [] 1 1); [done|lia|]. by constructor.
  - destruct (dn_expand_correct [1; 1; 1; 1; 192; 1; 97; 0] 0 100 Hm2 ltac:(vm_compute; reflexivity) ltac:(cbn; lia)) as (r & d & E & _ & H & _). exists r, d. split; [done|].
    pose proof E as E2. vm_compute in E2. by injection E2 as <- <-.
Defined.

Lemma added_reads msg msg' dst i ls : bytes msg -> valid ls -> added msg msg' dst i ls ->
  dn_expand msg' dst 255 = Some (Z.of_nat i, text ls ++ [0]) /\ dn_skipname msg' dst = Some (Z.of_nat i).
Proof.
  intros Hm Hv [H1 H2 H3 [k Hk]]. split.
  - rewrite (encoded_expand _ _ _ _ _ _ H2 Hk Hv). do 2 f_equal. lia.
  - unfold dn_skipname. rewrite (encoded_skip _ _ _ _ _ _ _ Hk) by lia. f_equal. lia.
Qed.

Lemma added_packet msg msg' dst i ls names : valid ls -> added msg msg' dst i ls -> packet msg dst names ->
  packet msg' (dst + i) names /\ packet msg' (dst + i) (names ++ [(dst, ls)]).
Proof.
  intros Hv [H1 H2 H3 [k Hk]] Hp. assert (Hp' : packet msg' (dst + i) names).
  { apply (packet_ext msg msg' dst); [done|lia|]. intros j Hj. apply H3. by left. }
  split; [done|]. apply Forall_app. split; [done|]. constructor; [|done]. split; [done|]. by exists dst, (dst + i)%nat, k.
Qed.

(** The cases of [dn_comp]. *)
Lemma dn_comp_cases src msg dst space dnptrs last names : bytes msg -> bytes src -> default [] dnptrs = map fst names -> packet msg dst names ->
  (dst + Z.to_nat space <= length msg)%nat ->
  dn_comp src msg dst space dnptrs last = Some (-1, msg, dnptrs) /\ (forall ls, named src ls -> space < Z.of_nat (length src) + 2) \/
  exists ls i msg' dnptrs', named src ls /\ dn_comp src msg dst space dnptrs last = Some (Z.of_nat i, msg', dnptrs') /\ (0 < i)%nat /\ Z.of_nat i <= space /\
    added msg msg' dst i ls /\ (dnptrs' = dnptrs \/ exists ps, dnptrs = Some ps /\ dnptrs' = Some (ps ++ [dst])).
Proof.
  intros Hm Hs Hptrs Hp Hsp. unfold dn_comp. set (l := stripped src).
  assert (Hnl : forall ls, named src ls -> l = length (text ls) /\ (length src <= S l)%nat /\ (l <= length src)%nat /\ valid ls /\ take l src = text ls).
  { intros ls Hn. pose proof (stripped_text src ls Hn) as Hl. destruct Hn as [Hv Hsrc]. fold l in Hl. rewrite Hl. split; [done|].
    destruct Hsrc as [->| ->]; rewrite ?length_app; cbn [length]; (split; [lia|]); (split; [lia|]); (split; [done|]); [by apply take_ge|apply take_app_length]. }
  destruct (Nat.ltb_spec 253 l) as [Hl|Hl]; cbn [orb].
  { left. split; [done|]. intros ls (H1 & _ & _ & [_ H2] & _)%Hnl. lia. }
  destruct (Z.leb_spec space 0) as [Hsp0|Hsp0]; [left; split; [done|]; intros; lia|].
  destruct (stripped_take src Hl) as [Hll Hsrc]. fold l in Hll, Hsrc.
  destruct (Nat.eqb_spec l 0) as [Hl0|Hl0].
  { right. rewrite store_splice by lia. exists [], 1%nat, (splice msg dst [0]), dnptrs. split.
    - split; [split; [constructor|cbn; lia]|]. rewrite Hl0 in Hsrc. done.
    - split; [done|]. split; [lia|]. split; [lia|]. split; [|by left].
      apply (added_splice msg dst [] [] [0] (dst + 1) 1); try done; [constructor; [unfold byte_ok; lia|done]|lia|].
      intros msg' _ Hj. cbn [wire length]. rewrite Nat.add_0_r. constructor; [|done]. specialize (Hj 0%nat ltac:(cbn; lia)). cbn in Hj. by rewrite !Nat.add_0_r in Hj. }
  destruct (getlens_sound src l Hs Hll Hl (S l) 0 [] ltac:(lia) ltac:(lia) ltac:(cbn; lia)) as (lens & E & Hlens). rewrite E. cbn [mbind option_bind].
  destruct Hlens as [->|(sls & Hne & -> & Hls & Ht)].
  { left. split; [done|]. intros ls (H1 & _ & _ & [H3 _] & H4)%Hnl.
    assert (ls <> []) as Hne by (intros ->; cbn in H1; lia).
    rewrite (getlens_text src l Hll Hl ls) in E; try done; try lia. by destruct ls. }
  cbn [app] in *. rewrite drop_0 in Ht. destruct (Nat.eqb_spec (length (map length sls)) 0) as [H0|H0]; [by destruct sls|].
  assert (Hltext : l = length (text sls)) by (rewrite <- Ht, length_take; lia).
  assert (Hv : valid sls) by (split; [done|lia]).
  assert (Hsrc' : exists rest, src = text sls ++ rest) by (rewrite <- Ht; destruct Hsrc as [Hsrc|Hsrc]; [exists []; by rewrite app_nil_r|by exists [DOT]]).
  destruct Hsrc' as [rest Hsrc'].
  assert (Hz : suffix_match msg sls dst 0 0) by (exists sls, []; rewrite app_nil_r; split; [done|]; split; [lia|done]).
  destruct (best_loop_spec src rest msg sls dst (default [] dnptrs) Hm Hsrc' Hne) with (m := 0%nat) (o := 0%nat) as (m & o & Eb & Hmo).
  { rewrite Hptrs. by apply packet_described. }
  { done. }
  rewrite Hltext, Eb. cbn [mbind option_bind].
  destruct (put_name_spec src rest msg dst space sls m o dnptrs last Hm Hsrc' Hne Hv Hmo Hsp) as [[H1 H2]|(i & msg' & dnptrs' & H1 & H2 & H3 & H4 & H5)].
  - left. split; [done|]. intros _ _. lia.
  - right. exists sls, i, msg', dnptrs'. split; [|done]. split; [done|]. rewrite <- Ht. by destruct Hsrc; [left|right].
Qed.

(** C3: [dn_comp] and [dn_expand] are inverse. In a message whose bytes below
    [dst] hold the names of [dnptrs], compressing [src] writes within [space],
    touches nothing else, and leaves a name that [dn_expand] turns back into
    [src] without its final dot and [dn_skipname] steps over; the names there
    before still are what they were, the new one among them if it was recorded.
    It fails, changing nothing, only when [src] is no domain name or [space]
    has no room for it uncompressed. *)
Theorem dn_comp_roundtrip src msg dst space dnptrs last names :
  bytes msg -> bytes src -> default [] dnptrs = map fst names -> packet msg dst names -> (dst + Z.to_nat space <= length msg)%nat ->
  exists r msg' dnptrs', dn_comp src msg dst space dnptrs last = Some (r, msg', dnptrs') /\
    (r = -1 /\ msg' = msg /\ dnptrs' = dnptrs /\ (forall ls, named src ls -> space < Z.of_nat (length src) + 2) \/
     exists ls, named src ls /\ 0 < r <= space /\ length msg' = length msg /\
       (forall j, (j < dst \/ dst + Z.to_nat r <= j)%nat -> msg' !! j = msg !! j) /\
       dn_expand msg' dst 255 = Some (r, text ls ++ [0]) /\ dn_skipname msg' dst = Some r /\
       exists names', default [] dnptrs' = map fst names' /\ (names' = names \/ names' = names ++ [(dst, ls)]) /\ packet msg' (dst + Z.to_nat r) names').
Proof.
  intros Hm Hs Hptrs Hp Hsp. destruct (dn_comp_cases src msg dst space dnptrs last names Hm Hs Hptrs Hp Hsp) as [[E H]|(ls & i & msg' & dnptrs' & Hn & E & H1 & H2 & H3 & H4)].
  - exists (-1), msg, dnptrs. split; [exact E|]. left. done.
  - exists (Z.of_nat i), msg', dnptrs'. split; [exact E|]. right. exists ls. pose proof Hn as [Hv _].
    destruct (added_reads _ _ _ _ _ Hm Hv H3) as [H5 H6]. destruct (added_packet _ _ _ _ _ names Hv H3 Hp) as [H7 H8]. rewrite Nat2Z.id.
    split; [done|]. split; [lia|]. split; [apply H3|]. split; [apply H3|]. split; [done|]. split; [done|].
    destruct H4 as [->|(ps & -> & ->)]; [exists names|exists (names ++ [(dst, ls)])]; (split; [|split; [by (left + right)|done]]); [done|].
    cbn in *. by rewrite Hptrs, map_app.
Qed.

Lemma dn_comp_roundtrip_witness :
  let msg := [3; 99; 111; 109; 0] ++ repeat 255 20 in
  exists msg', dn_comp (ascii_bytes "www.com.") msg 5 20 (Some [0%nat]) (Some 9%nat) = Some (6, msg', Some [0%nat; 5%nat]) /\
    dn_expand msg' 5 255 = Some (6, ascii_bytes "www.com" ++ [0]) /\ dn_skipname msg' 5 = Some 6.
Proof.
  intros msg. assert (Hm : bytes msg) by (apply (bool_decide_unpack _); vm_compute; exact I).
  assert (Hs : bytes (ascii_bytes "www.com.")) by (apply (bool_decide_unpack _); vm_compute; exact I).
  assert (Hp : packet msg 5 [(0%nat, [[99; 111; 109]])]).
  { constructor; [|constructor]. split.
    - split; [|cbn; lia]. constructor; [|constructor]. split; [cbn; lia|]. split; apply (bool_decide_unpack _); vm_compute; exact I.
    - exists 0%nat, 5%nat, 2%nat. split; [|lia]. apply (encoded_label msg 0 0 5 3 [] 1); [reflexivity|lia|lia|]. apply (encoded_root msg 0 4); [reflexivity|lia]. }
  destruct (dn_comp_roundtrip (ascii_bytes "www.com.") msg 5 20 (Some [0%nat]) (Some 9%nat) [(0%nat, [[99; 111; 109]])] Hm Hs eq_refl Hp ltac:(vm_compute; lia))
    as (r & msg' & ps & E & H). pose proof E as E'. vm_compute in E'. injection E' as <- Em <-. exists msg'. split; [exact E|].
  destruct H as [(H & _)|(ls & Hn & _ & _ & _ & H1 & H2 & _)]; [discriminate|]. split; [|exact H2].
  rewrite <- Em. vm_compute. reflexivity.
Defined.
