(* ===== verification/MbString.v ===== *)
(** * MbString: the multibyte string conversions of multibyte/.

    mbsrtowcs and mbsnrtowcs, with the resumption inside a character and the
    four bytes a time of ASCII, and wcsrtombs and wcsnrtombs, over the
    character functions of [Utf8]. A string is the list of the bytes (or wide
    characters) from its pointer on, its terminator and what follows included;
    positions are relative to that pointer. *)

From S2P Require Import Prelude Utf8.

(** What a string function leaves: its result, what it stores, the source
    pointer (a position, [None] for NULL) and the conversion state. *)
Record result := mkResult { r_ret : Z; r_out : list Z; r_src : option Z; r_st : Z }.

(** ** mbsrtowcs *)

(** [*s-1u < 0x7f] *)
Definition ascii (b : Z) : bool := u32 (b - 1) <? 0x7f.
(** [*s-0x80u >= 0x40] *)
Definition not_trail (b : Z) : bool := u32 (b - 0x80) >=? 0x40.
(** The test on four bytes read as one word: [!((w | w-0x01010101) & 0x80808080)]. *)
Definition ascii4 (s : list Z) (i : Z) : bool :=
  let w := le_val [s.[i]; s.[i + 1]; s.[i + 2]; s.[i + 3]] in
  (w .| u32 (w - 0x01010101)) .& 0x80808080 =? 0.

(** From [resume0] on: whether the character is complete, and the position. *)
Definition count_tail (s : list Z) (c i : Z) : bool * Z :=
  if OOB c s.[i] then (false, i - 1)
  else
    let i := i + 1 in
    if negb (c .& (1 ≪ 25) =? 0) then
      if not_trail s.[i] then (false, i - 2)
      else
        let i := i + 1 in
        if negb (c .& (1 ≪ 19) =? 0) then
          if not_trail s.[i] then (false, i - 3) else (true, i + 1)
        else (true, i)
    else (true, i).

Fixpoint count_words (fuel : nat) (s : list Z) (i wn : Z) : Z * Z :=
  match fuel with
  | O => (i, wn)
  | S fuel => if ascii4 s i then count_words fuel s (i + 4) (u64 (wn - 4)) else (i, wn)
  end.

(** The loop without a destination; [addr] is the address of position 0.
    It ends with a position, [wn] and [c]. *)
Fixpoint count_loop (fuel : nat) (s : list Z) (addr i wn : Z) : Z * Z * Z :=
  match fuel with
  | O => (i, wn, 0)
  | S fuel =>
      let '(i, wn) := if ascii s.[i] && ((addr + i) mod 4 =? 0) then count_words (length s) s i wn else (i, wn) in
      if ascii s.[i] then count_loop fuel s addr (i + 1) (u64 (wn - 1))
      else if u32 (s.[i] - SA) >? SB - SA then (i, wn, 0)
      else
        let c := bittab.[s.[i] - SA] in
        let '(ok, i) := count_tail s c (i + 1) in
        if ok : bool then count_loop fuel s addr i (u64 (wn - 1)) else (i, wn, c)
  end.

(** From [resume] on: whether the character is complete, [c] and the position. *)
Definition conv_tail (s : list Z) (c i : Z) : bool * Z * Z :=
  if OOB c s.[i] then (false, c, i - 1)
  else
    let c := continue c s.[i] in
    let i := i + 1 in
    if high c then
      if not_trail s.[i] then (false, c, i - 2)
      else
        let c := continue c s.[i] in
        let i := i + 1 in
        if high c then
          if not_trail s.[i] then (false, c, i - 3)
          else (true, continue c s.[i], i + 1)
        else (true, c, i)
    else (true, c, i).

Fixpoint conv_words (fuel : nat) (s : list Z) (i wn : Z) (ws : list Z) : Z * Z * list Z :=
  match fuel with
  | O => (i, wn, ws)
  | S fuel =>
      if (5 <=? wn) && ascii4 s i then
        conv_words fuel s (i + 4) (wn - 4) (ws ++ [s.[i]; s.[i + 1]; s.[i + 2]; s.[i + 3]])
      else (i, wn, ws)
  end.

(** The loop with a destination, to which [ws] has been stored: as above, and
    whether it ended because [wn] was used up. *)
Fixpoint conv_loop (fuel : nat) (s : list Z) (addr i wn : Z) (ws : list Z) : bool * Z * Z * Z * list Z :=
  match fuel with
  | O => (false, i, wn, 0, ws)
  | S fuel =>
      if wn =? 0 then (true, i, wn, 0, ws)
      else
        let '(i, wn, ws) := if ascii s.[i] && ((addr + i) mod 4 =? 0) then conv_words (length s) s i wn ws else (i, wn, ws) in
        if ascii s.[i] then conv_loop fuel s addr (i + 1) (u64 (wn - 1)) (ws ++ [s.[i]])
        else if u32 (s.[i] - SA) >? SB - SA then (false, i, wn, 0, ws)
        else
          let '(ok, c, i) := conv_tail s bittab.[s.[i] - SA] (i + 1) in
          if ok : bool then conv_loop fuel s addr i (u64 (wn - 1)) (ws ++ [c]) else (false, i, wn, c, ws)
  end.

(** MB_CUR_MAX is 1. *)
Fixpoint single_loop (fuel : nat) (s : list Z) (i wn : Z) (ws : list Z) : bool * Z * Z * list Z :=
  match fuel with
  | O => (false, i, wn, ws)
  | S fuel =>
      if wn =? 0 then (true, i, wn, ws)
      else if s.[i] =? 0 then (false, i, wn, ws)
      else single_loop fuel s (i + 1) (wn - 1) (ws ++ [CODEUNIT s.[i]])
  end.
Fixpoint strlen (s : list Z) : nat :=
  match s with
  | [] => O
  | b :: s => if b =? 0 then O else S (strlen s)
  end.

(** [if (!c && !*s) ... errno = EILSEQ ...] *)
Definition finish (s : list Z) (ws : option (list Z)) (wn0 wn c i st : Z) : result :=
  match ws with
  | Some out =>
      if (c =? 0) && (s.[i] =? 0) then mkResult (u64 (wn0 - wn)) (out ++ [0]) None st
      else mkResult ILSEQ out (Some i) st
  | None =>
      if (c =? 0) && (s.[i] =? 0) then mkResult (u64 (wn0 - wn)) [] (Some 0) st
      else mkResult ILSEQ [] (Some 0) st
  end.

Definition conv_finish (s : list Z) (wn0 st : Z) (r : bool * Z * Z * Z * list Z) : result :=
  let '(full, i, wn, c, out) := r in
  if full : bool then mkResult wn0 out (Some i) st else finish s (Some out) wn0 wn c i st.

(** [ws]: the destination is not NULL; [st]: the state word (0 when [st] is NULL). *)
Definition mbsrtowcs (single ws : bool) (s : list Z) (addr wn st : Z) : result :=
  let wn0 := wn in
  let fuel := S (length s) in
  if negb (st =? 0) then
    if ws then
      let '(ok, c, i) := conv_tail s st 0 in
      if ok : bool then conv_finish s wn0 0 (conv_loop fuel s addr i (u64 (wn - 1)) [c]) else finish s (Some []) wn0 wn c i 0
    else
      let '(ok, i) := count_tail s st 0 in
      if ok : bool then let '(i, wn, c) := count_loop fuel s addr i (u64 (wn - 1)) in finish s None wn0 wn c i st
      else finish s None wn0 wn st i st
  else if single then
    if negb ws then mkResult (Z.of_nat (strlen s)) [] (Some 0) st
    else
      let '(full, i, wn, out) := single_loop fuel s 0 wn [] in
      if full : bool then mkResult wn0 out (Some i) st else mkResult (wn0 - wn) (out ++ [0]) None st
  else if negb ws then let '(i, wn, c) := count_loop fuel s addr 0 wn in finish s None wn0 wn c i st
  else conv_finish s wn0 st (conv_loop fuel s addr 0 wn []).
Definition mbstowcs (single ws : bool) (s : list Z) (addr wn : Z) : result := mbsrtowcs single ws s addr wn 0.

(** ** The string functions as iterations of mbrtowc *)

(** How a conversion of a string ends: the limit is reached, the terminator is
    met, a character is not valid, or the bytes run out and leave a state. *)
Inductive verdict := Full | Ended | Invalid | Short (c : Z).
Definition stop (s : list Z) (r : conv) : list Z * nat * verdict :=
  if ret r =? ILSEQ then ([], O, Invalid) else ([], length s, Short (st r)).

(** What ISO C says mbsrtowcs does: as if by a call of mbrtowc for each
    character. The wide characters, the bytes they take, the end. *)
Fixpoint as_if (fuel : nat) (single : bool) (s : list Z) (c : Z) (limit : option nat) : list Z * nat * verdict :=
  match fuel with
  | O => ([], O, Invalid)
  | S fuel =>
      if decide (limit = Some O) then ([], O, Full)
      else
        let r := mbrtowc single (Some s) (length s) c in
        match out r with
        | None => stop s r
        | Some wc =>
            if ret r =? 0 then ([], O, Ended)
            else
              let k := Z.to_nat (ret r) in
              let '(ws, p, v) := as_if fuel single (drop k s) 0 (pred <$> limit) in
              (wc :: ws, (k + p)%nat, v)
        end
  end.
Definition chars (single : bool) (s : list Z) (c : Z) (limit : option nat) : list Z * nat * verdict := as_if (S (length s)) single s c limit.

(** ** Bits of the state *)

Import Unicode.

Definition bit25 (c : Z) : bool := negb (c .& (1 ≪ 25) =? 0).
Definition bit19 (c : Z) : bool := negb (c .& (1 ≪ 19) =? 0).

(** A state inside a character: what the next byte may be, and how many more there are. *)
Definition state_ok (c : Z) : Prop :=
  c <> 0 /\ exists k, (k <= 2)%nat /\ bit25 c = (1 <=? k)%nat /\ ((1 <= k)%nat -> bit19 c = (k =? 2)%nat) /\
    forall b, byte_ok b -> OOB c b = false -> trail b = true /\ exists v, mid k (continue c b) v.

Lemma bit_spec n c : 0 <= n -> negb (c .& (1 ≪ n) =? 0) = Z.testbit c n.
Proof.
  intros Hn. rewrite Z.shiftl_mul_pow2, Z.mul_1_l by lia.
  assert (E : c .& 2 ^ n = (if Z.testbit c n then 2 ^ n else 0)).
  { apply Z.bits_inj'. intros i Hi. rewrite Z.land_spec, Z.pow2_bits_eqb by lia.
    destruct (Z.testbit c n) eqn:Ec; rewrite ?Z.pow2_bits_eqb, ?Z.testbit_0_l by lia; destruct (Z.eqb_spec n i) as [<-|]; rewrite ?Ec, ?andb_true_r, ?andb_false_r; done. }
  rewrite E. pose proof (Z.pow_pos_nonneg 2 n). destruct (Z.testbit c n); [|done]. destruct (Z.eqb_spec (2 ^ n) 0); [lia|done].
Qed.

Lemma lead_bits_checked : forallb (fun b0 => match lead b0 with
  | Some (len, _) => Bool.eqb (bit25 bittab.[b0 - SA]) (1 <=? len - 2)%nat && implb (1 <=? len - 2)%nat (Bool.eqb (bit19 bittab.[b0 - SA]) (len - 2 =? 2)%nat)
  | None => true end) (seqZ 0 256) = true.
Proof. vm_compute. reflexivity. Qed.

Lemma lead_state b0 len v : byte_ok b0 -> lead b0 = Some (len, v) -> state_ok bittab.[b0 - SA].
Proof.
  intros Hb Hl. destruct (lead_some b0 len v Hb Hl) as (_ & H0 & Hlen & Hs). split; [done|].
  pose proof (forallb_byte _ lead_bits_checked b0 Hb) as H. cbv beta in H. rewrite Hl in H. apply andb_prop in H as [H1%Bool.eqb_prop H2].
  exists (len - 2)%nat. split; [lia|]. split; [done|]. split.
  - intros Hk. destruct (Nat.leb_spec 1 (len - 2)); [|lia]. by apply Bool.eqb_prop in H2.
  - intros b Hbb HO. destruct (Hs b Hbb) as [Ho Ht]. rewrite Ho in HO. apply negb_false_iff in HO. destruct (Ht HO) as [H3 H4]. split; [done|]. by eexists.
Qed.

Lemma mid_state k c v : mid (S k) c v -> state_ok c.
Proof.
  intros Hm. pose proof Hm as (Hk & Hv & Hc). split.
  { rewrite Hc. destruct k as [|[|]]; cbn [tag]; lia. }
  exists k. split; [lia|]. assert (Hbits : bit25 c = (1 <=? k)%nat /\ ((1 <= k)%nat -> bit19 c = (k =? 2)%nat)).
  { unfold bit25, bit19. rewrite !bit_spec by lia. rewrite Hc. destruct k as [|[|]]; [..|lia]; cbn [tag].
    - split; [|lia]. rewrite Z.testbit_eqb by lia. cbn in Hv. replace ((3221225472 + v) / 2 ^ 25) with 96; [done|]. apply (Z.div_unique _ _ _ v); lia.
    - cbn in Hv. split.
      + rewrite Z.testbit_eqb by lia. replace ((3271557120 + v) / 2 ^ 25) with 97; [done|]. apply (Z.div_unique _ _ _ (v + 16777216)); lia.
      + intros _. rewrite Z.testbit_eqb by lia. replace ((3271557120 + v) / 2 ^ 19) with 6240; [done|]. apply (Z.div_unique _ _ _ v); lia. }
  split; [tauto|]. split; [tauto|]. intros b Hb HO. rewrite (OOB_mid k c v b Hm Hb) in HO. apply negb_false_iff in HO. split; [done|].
  eexists. by apply continue_mid.
Qed.

Lemma partial_state l : l <> [] -> bytes l -> decode l = Partial -> state_ok (prefix_state l).
Proof.
  intros Hne Hl Hp. destruct l as [|b0 l]; [done|]. cbn [decode] in Hp. destruct (b0 <? 128); [done|].
  destruct (lead b0) as [[len v]|] eqn:El; [|done]. apply Forall_cons in Hl as [Hb Hl].
  destruct l as [|b1 l]; [by apply (lead_state b0 len v)|]. apply Forall_cons in Hl as [Hb1 Hl].
  destruct (second b0 b1) eqn:Es; [|done]. destruct (lead_some b0 len v Hb El) as (_ & _ & _ & Hs). destruct (Hs b1 Hb1) as [_ Hm].
  destruct (Hm Es) as [_ Hm']. destruct (trails_partial len l _ _ _ Hm' Hl Hp) as (k & acc & _ & Hk & _). by apply (mid_state k _ acc).
Qed.

(** ** The rest of a character *)

(** A string that goes on from position [i]: bytes, with a terminator. *)
Definition from (s : list Z) (i : nat) : list Z := drop i s.
Definition terminated (s : list Z) : Prop := bytes s /\ 0 ∈ s.

Lemma terminated_cons s : terminated s -> exists b rest, s = b :: rest /\ byte_ok b /\ (b <> 0 -> terminated rest).
Proof.
  intros [Hb Hz]. destruct s as [|b rest]; [set_solver|]. exists b, rest. apply Forall_cons in Hb as [Hb Hr]. split; [done|]. split; [done|].
  intros Hne. split; [done|]. set_solver.
Qed.

Lemma from_cons s i b rest : from s i = b :: rest -> s.[Z.of_nat i] = b /\ from s (S i) = rest.
Proof.
  unfold from. intros E. assert (Hi : s !! i = Some b) by (rewrite <- (Nat.add_0_r i), <- lookup_drop, E; done). split.
  - unfold aget. by rewrite Nat2Z.id, Hi.
  - rewrite (drop_S _ _ _ Hi) in E. by injection E.
Qed.

Lemma not_trail_spec b : byte_ok b -> not_trail b = negb (trail b).
Proof. intros Hb. unfold not_trail. rewrite trail_spec by done. by rewrite negb_involutive. Qed.

Lemma trail_nonzero b : trail b = true -> b <> 0.
Proof. unfold trail. intros H ->. done. Qed.

Lemma mbr_loop_0 N n c s : mbr_loop N (S n) c s =
  if negb (high (continue c s.[0])) then mkConv (N - Z.of_nat n) (Some (continue c s.[0])) 0
  else if (0 <? n)%nat then
    if not_trail (tail s).[0] then ilseq else mbr_loop N n (continue c s.[0]) (tail s)
  else mkConv INCOMPLETE None (continue c s.[0]).
Proof. done. Qed.

(** The unrolled code and the loop of mbrtowc agree on the rest of a character. *)
Lemma tail_spec s c i N : state_ok c -> terminated (from s i) ->
  (exists c' k, (1 <= k)%nat /\ conv_tail s c (Z.of_nat i) = (true, c', Z.of_nat (i + k)) /\ count_tail s c (Z.of_nat i) = (true, Z.of_nat (i + k)) /\
    mbr_cont N (length (from s i)) c (from s i) = mkConv (N - Z.of_nat (length (from s (i + k)))) (Some c') 0 /\ terminated (from s (i + k)) /\
    (length (from s i) = k + length (from s (i + k)))%nat) \/
  (exists c', c' <> 0 /\ conv_tail s c (Z.of_nat i) = (false, c', Z.of_nat i - 1) /\ count_tail s c (Z.of_nat i) = (false, Z.of_nat i - 1) /\
    mbr_cont N (length (from s i)) c (from s i) = ilseq).
Proof.
  intros (Hc0 & k & Hk & H25 & H19 & Hc) Ht. destruct (terminated_cons _ Ht) as (b & s1 & E1 & Hb & Ht1).
  destruct (from_cons _ _ _ _ E1) as [G1 F1]. unfold conv_tail, count_tail, mbr_cont. rewrite E1. cbn [length Nat.ltb Nat.leb]. rewrite G1.
  change ((b :: s1).[0]) with b. destruct (OOB c b) eqn:HO.
  { right. exists c. done. }
  destruct (Hc b Hb HO) as [Htr (v & Hm)]. specialize (Ht1 (trail_nonzero b Htr)). change (c .& 1 ≪ 25 =? 0) with (c .& (1 ≪ 25) =? 0).
  fold (bit25 c). rewrite H25. rewrite mbr_loop_0. change ((b :: s1).[0]) with b. cbn [tail]. rewrite (mid_high k _ v Hm).
  replace (Z.of_nat i + 1) with (Z.of_nat (S i)) by lia.
  destruct k as [|k].
  { cbn [Nat.eqb negb Nat.leb]. left. exists (continue c b), 1%nat. rewrite Nat.add_1_r, F1. done. }
  cbn [Nat.eqb negb Nat.leb]. destruct (terminated_cons _ Ht1) as (b1 & s2 & E2 & Hb1 & Ht2). rewrite E2 in F1. destruct (from_cons _ _ _ _ F1) as [G2 F2].
  rewrite G2, E2. cbn [length Nat.ltb Nat.leb]. change ((b1 :: s2).[0]) with b1. rewrite not_trail_spec by done.
  destruct (trail b1) eqn:Htr1; cbn [negb].
  2: { right. exists (continue c b). split; [|split; [f_equal; lia|split; [f_equal; lia|done]]]. destruct Hm as (_ & ? & ->). destruct k as [|[|]]; cbn [tag]; lia. }
  specialize (Ht2 (trail_nonzero b1 Htr1)). pose proof (continue_mid k _ v b1 Hm Hb1 Htr1) as Hm2. rewrite mbr_loop_0. change ((b1 :: s2).[0]) with b1. cbn [tail].
  rewrite (mid_high k _ _ Hm2). fold (bit19 c). rewrite (H19 ltac:(lia)). replace (Z.of_nat (S i) + 1) with (Z.of_nat (S (S i))) by lia.
  destruct k as [|k].
  { cbn [Nat.eqb negb]. left. exists (continue (continue c b) b1), 2%nat. replace (i + 2)%nat with (S (S i)) by lia. rewrite F2. done. }
  assert (k = 0%nat) as -> by lia. cbn [Nat.eqb negb]. destruct (terminated_cons _ Ht2) as (b2 & s3 & E3 & Hb2 & Ht3). rewrite E3 in F2. destruct (from_cons _ _ _ _ F2) as [G3 F3].
  rewrite G3, E3. cbn [length Nat.ltb Nat.leb]. change ((b2 :: s3).[0]) with b2. rewrite not_trail_spec by done.
  destruct (trail b2) eqn:Htr2; cbn [negb].
  2: { right. exists (continue (continue c b) b1). split; [|split; [f_equal; lia|split; [f_equal; lia|done]]]. destruct Hm2 as (_ & ? & ->). cbn [tag]. lia. }
  specialize (Ht3 (trail_nonzero b2 Htr2)). pose proof (continue_mid 0 _ _ b2 Hm2 Hb2 Htr2) as Hm3. rewrite mbr_loop_0. change ((b2 :: s3).[0]) with b2. cbn [tail].
  rewrite (mid_high 0 _ _ Hm3). cbn [Nat.eqb negb]. left. exists (continue (continue (continue c b) b1) b2), 3%nat.
  split; [lia|]. split; [f_equal; lia|]. split; [f_equal; lia|]. replace (i + 3)%nat with (S (S (S i))) by lia. rewrite F3. done.
Qed.

(** ** A step of the reference *)

Lemma mbr_loop_ret N n c s wc : out (mbr_loop N n c s) = Some wc -> exists m, (m < n)%nat /\ ret (mbr_loop N n c s) = N - Z.of_nat m.
Proof.
  revert c s. induction n as [|n IH]; intros c s; [done|]. rewrite mbr_loop_0. destruct (negb _); [intros _; exists n; split; [lia|done]|].
  destruct (0 <? n)%nat; [|done]. destruct (not_trail _); [done|]. intros H. destruct (IH _ _ H) as (m & Hm & ->). exists m. split; [lia|done].
Qed.

Lemma mbr_cont_ret N n c s wc : out (mbr_cont N n c s) = Some wc -> exists m, (m < n)%nat /\ ret (mbr_cont N n c s) = N - Z.of_nat m.
Proof. unfold mbr_cont. destruct (0 <? n)%nat; [|done]. destruct (OOB _ _); [done|]. apply mbr_loop_ret. Qed.

Lemma mbrtowc_ret single s c wc : out (mbrtowc single (Some s) (length s) c) = Some wc -> 0 <= ret (mbrtowc single (Some s) (length s) c) <= Z.of_nat (length s) /\ s <> [].
Proof.
  unfold mbrtowc. destruct (Nat.eqb_spec (length s) 0) as [|Hne]; [done|]. assert (s <> []) by (by intros ->). destruct (c =? 0).
  - destruct (s.[0] <? 128); [intros _; cbn; destruct (s.[0] =? 0); split; done || lia|]. destruct single; [cbn; split; done || lia|].
    destruct (_ >? _); [done|]. intros H'%mbr_cont_ret. destruct H' as (m & Hm & ->). split; [lia|done].
  - intros H'%mbr_cont_ret. destruct H' as (m & Hm & ->). split; [lia|done].
Qed.

Lemma as_if_fuel single f1 : forall f2 s c limit, (length s < f1)%nat -> (length s < f2)%nat -> as_if f1 single s c limit = as_if f2 single s c limit.
Proof.
  induction f1 as [|f1 IH]; intros f2 s c limit H1 H2; [lia|]. destruct f2 as [|f2]; [lia|]. cbn [as_if]. destruct (decide _); [done|].
  destruct (out _) as [wc|] eqn:E; [|done]. destruct (mbrtowc_ret _ _ _ _ E) as [Hr Hs]. destruct (Z.eqb_spec (ret (mbrtowc single (Some s) (length s) c)) 0); [done|].
  assert (length s <> 0)%nat by (by destruct s). rewrite (IH f2); [done|rewrite length_drop; lia|rewrite length_drop; lia].
Qed.

Lemma chars_eq single s c limit : chars single s c limit =
  if decide (limit = Some O) then ([], O, Full)
  else
    let r := mbrtowc single (Some s) (length s) c in
    match out r with
    | None => stop s r
    | Some wc =>
        if ret r =? 0 then ([], O, Ended)
        else
          let k := Z.to_nat (ret r) in
          let '(ws, p, v) := chars single (drop k s) 0 (pred <$> limit) in
          (wc :: ws, (k + p)%nat, v)
    end.
Proof.
  unfold chars at 1. cbn [as_if]. destruct (decide _); [done|]. destruct (out _) as [wc|] eqn:E; [|done]. destruct (mbrtowc_ret _ _ _ _ E) as [Hr Hs].
  destruct (Z.eqb_spec (ret (mbrtowc single (Some s) (length s) c)) 0); [done|]. unfold chars. assert (length s <> 0)%nat by (by destruct s).
  rewrite (as_if_fuel single (length s) (S (length (drop (Z.to_nat (ret (mbrtowc single (Some s) (length s) c))) s)))); [done|rewrite length_drop; lia|lia].
Qed.

Lemma ascii_spec b : byte_ok b -> ascii b = (1 <=? b) && (b <=? 127).
Proof.
  intros [H1 H2]. change (2 ^ 8) with 256 in H2. unfold ascii. destruct (Z.leb_spec 1 b) as [Hb|Hb]; cbn [andb].
  - unfold u32. rewrite wrap_small by (unfold word; lia). destruct (Z.ltb_spec (b - 1) 127), (Z.leb_spec b 127); done || lia.
  - assert (b = 0) as -> by lia. done.
Qed.

Definition cons_char (wc : Z) (k : nat) (r : list Z * nat * verdict) : list Z * nat * verdict :=
  let '(ws, p, v) := r in (wc :: ws, (k + p)%nat, v).

Lemma chars_ascii single b s limit : byte_ok b -> ascii b = true -> limit <> Some O ->
  chars single (b :: s) 0 limit = cons_char b 1 (chars single s 0 (pred <$> limit)).
Proof.
  intros Hb Ha Hl. rewrite ascii_spec in Ha by done. apply andb_prop in Ha as [H1%Z.leb_le H2%Z.leb_le]. rewrite chars_eq. destruct (decide _); [done|].
  unfold mbrtowc. cbn [length Nat.eqb]. change ((b :: s).[0]) with b. change (0 =? 0) with true. cbv iota. destruct (Z.ltb_spec b 128); [|lia].
  destruct (Z.eqb_spec b 0); [lia|]. cbn [out ret]. change (Z.to_nat 1) with 1%nat. cbn [Z.eqb]. done.
Qed.

Lemma chars_end single s limit : limit <> Some O -> chars single (0 :: s) 0 limit = ([], O, Ended).
Proof. intros Hl. rewrite chars_eq. destruct (decide _); done. Qed.

(** A character that is not ASCII, in UTF-8. *)
Lemma chars_lead b s limit : byte_ok b -> ascii b = false -> b <> 0 -> limit <> Some O ->
  chars false (b :: s) 0 limit =
    if u32 (b - SA) >? SB - SA then ([], O, Invalid)
    else
      let r := mbr_cont (Z.of_nat (S (length s))) (length s) bittab.[b - SA] s in
      match out r with
      | None => stop (b :: s) r
      | Some wc => if ret r =? 0 then ([], O, Ended) else cons_char wc (Z.to_nat (ret r)) (chars false (drop (Z.to_nat (ret r)) (b :: s)) 0 (pred <$> limit))
      end.
Proof.
  intros Hb Ha H0 Hl. rewrite ascii_spec in Ha by done. destruct Hb as [Hb1 Hb2]. rewrite chars_eq. destruct (decide _); [done|].
  unfold mbrtowc. cbn [length Nat.eqb]. change ((b :: s).[0]) with b. change (0 =? 0) with true. cbv iota.
  destruct (Z.ltb_spec b 128); [destruct (Z.leb_spec 1 b), (Z.leb_spec b 127); cbn in Ha; done || lia|]. cbn [Nat.sub]. rewrite Nat.sub_0_r.
  destruct (_ >? _); done.
Qed.

(** ** Four bytes at a time *)

Lemma bits_clear x y : (x .| u32 y) .& 0x80808080 = 0 -> forall n, n = 7 \/ n = 15 \/ n = 23 \/ n = 31 -> Z.testbit x n = false /\ Z.testbit y n = false.
Proof.
  intros H n Hn. assert (E : Z.testbit ((x .| u32 y) .& 0x80808080) n = false) by (by rewrite H, Z.testbit_0_l).
  rewrite Z.land_spec, Z.lor_spec in E. replace (Z.testbit 0x80808080 n) with true in E by (by destruct Hn as [->|[->|[->| ->]]]).
  rewrite andb_true_r in E. apply orb_false_iff in E as [E1 E2]. split; [done|]. unfold u32 in E2. rewrite wrap_bit in E2 by lia.
  destruct (Z.leb_spec 0 n); [|lia]. destruct (Z.ltb_spec n 32); [done|lia].
Qed.

(** The top bit of the lowest byte, where a byte may have borrowed. *)
Lemma byte_clear a r n : -1 <= a < 256 -> 7 <= n -> Z.testbit (a + 256 * r) n = false -> (n = 7 -> 0 <= a < 128) /\ (0 <= a -> 15 <= n -> Z.testbit r (n - 8) = false).
Proof.
  intros Ha Hn H. split.
  - intros ->. rewrite Z.testbit_eqb in H by lia. apply Z.eqb_neq in H. change (2 ^ 7) with 128 in H.
    replace (a + 256 * r) with (a + (2 * r) * 128) in H by lia. rewrite Z.div_add in H by lia. replace (a / 128 + 2 * r) with (a / 128 + r * 2) in H by lia. rewrite Z.mod_add in H by lia.
    destruct (decide (a = -1)) as [->|]; [done|]. destruct (decide (a < 128)); [lia|]. replace (a / 128) with 1 in H by (apply (Z.div_unique _ _ _ (a - 128)); lia). done.
  - intros Ha0 Hn'. rewrite Z.testbit_eqb in H |- * by lia. replace (2 ^ n) with (256 * 2 ^ (n - 8)) in H by (change 256 with (2 ^ 8); rewrite <- Z.pow_add_r by lia; f_equal; lia).
    assert (0 < 2 ^ (n - 8)) by (apply Z.pow_pos_nonneg; lia). rewrite <- Z.div_div in H by lia. replace (a + 256 * r) with (a + r * 256) in H by lia. rewrite (Z.div_add a r 256), (Z.div_small a 256) in H by lia. done.
Qed.

Lemma word_clear b0 b1 b2 b3 : -1 <= b0 < 256 -> -1 <= b1 < 256 -> -1 <= b2 < 256 -> -1 <= b3 < 256 ->
  (forall n, n = 7 \/ n = 15 \/ n = 23 \/ n = 31 -> Z.testbit (b0 + 256 * (b1 + 256 * (b2 + 256 * (b3 + 256 * 0)))) n = false) ->
  0 <= b0 < 128 /\ 0 <= b1 < 128 /\ 0 <= b2 < 128 /\ 0 <= b3 < 128.
Proof.
  intros B0 B1 B2 B3 H.
  destruct (byte_clear _ _ 7 B0 ltac:(lia) (H 7 ltac:(lia))) as [C0 _]. specialize (C0 eq_refl).
  destruct (byte_clear _ _ 15 B0 ltac:(lia) (H 15 ltac:(lia))) as [_ D1]. specialize (D1 ltac:(lia) ltac:(lia)).
  destruct (byte_clear _ _ 7 B1 ltac:(lia) D1) as [C1 _]. specialize (C1 eq_refl).
  destruct (byte_clear _ _ 23 B0 ltac:(lia) (H 23 ltac:(lia))) as [_ D2]. specialize (D2 ltac:(lia) ltac:(lia)).
  destruct (byte_clear _ _ 15 B1 ltac:(lia) D2) as [_ D2']. specialize (D2' ltac:(lia) ltac:(lia)).
  destruct (byte_clear _ _ 7 B2 ltac:(lia) D2') as [C2 _]. specialize (C2 eq_refl).
  destruct (byte_clear _ _ 31 B0 ltac:(lia) (H 31 ltac:(lia))) as [_ D3]. specialize (D3 ltac:(lia) ltac:(lia)).
  destruct (byte_clear _ _ 23 B1 ltac:(lia) D3) as [_ D3']. specialize (D3' ltac:(lia) ltac:(lia)).
  destruct (byte_clear _ _ 15 B2 ltac:(lia) D3') as [_ D3'']. specialize (D3'' ltac:(lia) ltac:(lia)).
  destruct (byte_clear _ _ 7 B3 ltac:(lia) D3'') as [C3 _]. specialize (C3 eq_refl). done.
Qed.

Lemma ascii4_spec s i : bytes s -> ascii4 s i = true -> ascii s.[i] = true /\ ascii s.[i + 1] = true /\ ascii s.[i + 2] = true /\ ascii s.[i + 3] = true.
Proof.
  intros Hs H. assert (Hb : forall j, byte_ok s.[j]).
  { intros j. unfold aget. destruct (s !! Z.to_nat j) as [b|] eqn:E; [exact (Forall_lookup_1 _ _ _ _ Hs E)|split; done]. }
  unfold ascii4 in H. pose proof (Hb i) as B0. pose proof (Hb (i + 1)) as B1. pose proof (Hb (i + 2)) as B2. pose proof (Hb (i + 3)) as B3. rewrite !ascii_spec by done.
  set (b0 := s.[i]) in *. set (b1 := s.[i + 1]) in *. set (b2 := s.[i + 2]) in *. set (b3 := s.[i + 3]) in *. clearbody b0 b1 b2 b3. unfold word in *. change (2 ^ 8) with 256 in *.
  apply Z.eqb_eq in H. pose proof (bits_clear _ _ H) as Hc. cbn [le_val] in Hc.
  destruct (word_clear b0 b1 b2 b3) as (W0 & W1 & W2 & W3); [lia..|intros n Hn; apply Hc; done|].
  destruct (word_clear (b0 - 1) (b1 - 1) (b2 - 1) (b3 - 1)) as (V0 & V1 & V2 & V3); [lia..| |lia].
  intros n Hn. replace (b0 - 1 + 256 * (b1 - 1 + 256 * (b2 - 1 + 256 * (b3 - 1 + 256 * 0)))) with (b0 + 256 * (b1 + 256 * (b2 + 256 * (b3 + 256 * 0))) - 0x01010101) by lia.
  apply Hc. done.
Qed.

(** ** The loops *)

(** The first [k] bytes from [i] are ASCII. *)
Definition ascii_run (s : list Z) (i k : nat) : Prop := (k <= length (from s i))%nat /\ Forall (fun b => ascii b = true) (take k (from s i)).

Lemma ascii_run_0 s i : ascii_run s i 0.
Proof. split; [lia|constructor]. Qed.

Lemma ascii_at s i : bytes s -> ascii s.[Z.of_nat i] = true -> exists b rest, from s i = b :: rest /\ s.[Z.of_nat i] = b /\ byte_ok b /\ from s (S i) = rest.
Proof.
  intros Hs Ha. destruct (from s i) as [|b rest] eqn:E.
  - exfalso. unfold from in E. apply (f_equal length) in E. rewrite length_drop in E. cbn in E. unfold aget in Ha. rewrite Nat2Z.id, lookup_ge_None_2 in Ha by lia. done.
  - destruct (from_cons _ _ _ _ E) as [H1 H2]. exists b, rest. split; [done|]. split; [done|]. split; [|done].
    apply (Forall_drop _ i) in Hs. unfold from in E. rewrite E in Hs. by apply Forall_cons in Hs as [? _].
Qed.

Lemma ascii_run_S s i k : bytes s -> ascii s.[Z.of_nat i] = true -> ascii_run s (S i) k -> ascii_run s i (S k).
Proof.
  intros Hs Ha [Hl Hr]. destruct (ascii_at s i Hs Ha) as (b & rest & E & Eb & _ & Er). unfold ascii_run. rewrite E, Er in *. cbn [length take]. split; [lia|].
  constructor; [congruence|done].
Qed.

Lemma ascii_run_4 s i k : bytes s -> ascii4 s (Z.of_nat i) = true -> ascii_run s (i + 4) k -> ascii_run s i (4 + k).
Proof.
  intros Hs H Hr. destruct (ascii4_spec s _ Hs H) as (H0 & H1 & H2 & H3).
  replace (Z.of_nat i + 1) with (Z.of_nat (S i)) in H1 by lia. replace (Z.of_nat i + 2) with (Z.of_nat (S (S i))) in H2 by lia. replace (Z.of_nat i + 3) with (Z.of_nat (S (S (S i)))) in H3 by lia.
  do 4 (apply ascii_run_S; [done|done|]). by replace (S (S (S (S i)))) with (i + 4)%nat by lia.
Qed.

Lemma take_from s i j k : take (j + k) (from s i) = take j (from s i) ++ take k (from s (i + j)).
Proof. unfold from. rewrite <- drop_drop. symmetry. apply take_take_drop. Qed.

Lemma conv_words_spec fuel : forall s i wn ws, bytes s -> exists k, ascii_run s i k /\ Z.of_nat k <= Z.max 0 (wn - 1) /\
  conv_words fuel s (Z.of_nat i) wn ws = (Z.of_nat (i + k), wn - Z.of_nat k, ws ++ take k (from s i)).
Proof.
  induction fuel as [|fuel IH]; intros s i wn ws Hs.
  { exists O. split; [apply ascii_run_0|]. split; [lia|]. cbn. rewrite app_nil_r. repeat f_equal; lia. }
  cbn [conv_words]. destruct (_ && _) eqn:E.
  - apply andb_prop in E as [E1%Z.leb_le E2]. replace (Z.of_nat i + 4) with (Z.of_nat (i + 4)) by lia.
    destruct (IH s (i + 4)%nat (wn - 4) (ws ++ [s.[Z.of_nat i]; s.[Z.of_nat i + 1]; s.[Z.of_nat i + 2]; s.[Z.of_nat i + 3]]) Hs) as (k & H1 & H2 & ->).
    exists (4 + k)%nat. split; [by apply ascii_run_4|]. split; [lia|]. rewrite (take_from s i 4), app_assoc.
    assert (E4 : take 4 (from s i) = [s.[Z.of_nat i]; s.[Z.of_nat i + 1]; s.[Z.of_nat i + 2]; s.[Z.of_nat i + 3]]).
    { destruct (ascii4_spec s _ Hs E2) as (A0 & A1 & A2 & A3).
      replace (Z.of_nat i + 1) with (Z.of_nat (S i)) in * by lia. replace (Z.of_nat i + 2) with (Z.of_nat (S (S i))) in * by lia. replace (Z.of_nat i + 3) with (Z.of_nat (S (S (S i)))) in * by lia.
      destruct (ascii_at s _ Hs A0) as (b0 & r0 & F0 & -> & _ & G0). destruct (ascii_at s _ Hs A1) as (b1 & r1 & F1 & -> & _ & G1).
      destruct (ascii_at s _ Hs A2) as (b2 & r2 & F2 & -> & _ & G2). destruct (ascii_at s _ Hs A3) as (b3 & r3 & F3 & -> & _ & G3). rewrite F0, <- G0, F1, <- G1, F2, <- G2, F3. done. }
    rewrite E4. apply f_equal2; [apply f_equal2; lia|done].
  - exists O. split; [apply ascii_run_0|]. split; [lia|]. cbn [take]. rewrite app_nil_r. repeat f_equal; lia.
Qed.

Lemma count_words_spec fuel : forall s i wn, bytes s -> exists k, ascii_run s i k /\
  count_words fuel s (Z.of_nat i) (u64 wn) = (Z.of_nat (i + k), u64 (wn - Z.of_nat k)).
Proof.
  induction fuel as [|fuel IH]; intros s i wn Hs.
  { exists O. split; [apply ascii_run_0|]. cbn. repeat f_equal; lia. }
  cbn [count_words]. destruct (ascii4 s (Z.of_nat i)) eqn:E.
  - replace (Z.of_nat i + 4) with (Z.of_nat (i + 4)) by lia. unfold u64 at 1 2. rewrite <- Z.add_opp_r, wrap_add_l, Z.add_opp_r. fold (u64 (wn - 4)).
    destruct (IH s (i + 4)%nat (wn - 4) Hs) as (k & H1 & ->). exists (4 + k)%nat. split; [by apply ascii_run_4|]. f_equal; [lia|]. f_equal. lia.
  - exists O. split; [apply ascii_run_0|]. repeat f_equal; lia.
Qed.

(** The reference on a run of ASCII. *)
Definition add_run (u : list Z) (r : list Z * nat * verdict) : list Z * nat * verdict :=
  let '(ws, p, v) := r in (u ++ ws, (length u + p)%nat, v).

Lemma chars_run single s i k limit : bytes s -> ascii_run s i k -> match limit with Some n => (k <= n)%nat | None => True end ->
  chars single (from s i) 0 limit = add_run (take k (from s i)) (chars single (from s (i + k)) 0 ((fun n => n - k)%nat <$> limit)).
Proof.
  intros Hs. revert i limit. induction k as [|k IH]; intros i limit [Hl Hr] Hlim.
  { cbn [take]. rewrite Nat.add_0_r. replace ((λ n, (n - 0)%nat) <$> limit) with limit by (destruct limit; cbn; f_equal; lia). by destruct (chars _ _ _ _) as [[ws p] v]. }
  assert (Hbf : bytes (from s i)) by (by apply Forall_drop). destruct (from s i) as [|b rest] eqn:E; [cbn in Hl; lia|]. destruct (from_cons _ _ _ _ E) as [_ F].
  cbn [take] in *. apply Forall_cons in Hr as [Hb Hr]. apply Forall_cons in Hbf as [Hbb _]. assert (Hne : limit <> Some O) by (intros ->; lia). rewrite chars_ascii by done.
  rewrite <- F in *. rewrite IH; [|by split; [cbn in Hl; lia|]|destruct limit; cbn; [lia|done]]. replace (S i + k)%nat with (i + S k)%nat by lia.
  replace ((λ n, (n - k)%nat) <$> (pred <$> limit)) with ((λ n, (n - S k)%nat) <$> limit) by (destruct limit; cbn; f_equal; lia).
  by destruct (chars _ _ _ _) as [[ws p] v].
Qed.

Lemma from_length s i k : length (from s (i + k)) = (length (from s i) - k)%nat.
Proof. unfold from. rewrite !length_drop. lia. Qed.

Lemma terminated_run s i k : ascii_run s i k -> terminated (from s i) -> terminated (from s (i + k)).
Proof.
  intros [Hl Hr] [Hb Hz]. unfold from in *. rewrite <- drop_drop. split; [by apply Forall_drop|].
  rewrite <- (take_drop k (drop i s)) in Hz. apply elem_of_app in Hz as [Hz|Hz]; [|done]. exfalso. rewrite Forall_forall in Hr. by specialize (Hr 0 Hz).
Qed.

(** The state of a leading byte that passes the test of the code. *)
Lemma lead_test b : byte_ok b -> ascii b = false -> b <> 0 -> (u32 (b - SA) >? SB - SA) = false -> state_ok bittab.[b - SA].
Proof.
  intros Hb Ha H0 Ht. rewrite ascii_spec in Ha by done. pose proof Hb as [Hb1 _].
  destruct (lead b) as [[len v]|] eqn:El; [by apply (lead_state b len v)|]. rewrite (lead_none b Hb) in Ht; [done| |done].
  destruct (Z.leb_spec 1 b), (Z.leb_spec b 127); cbn in Ha; done || lia.
Qed.

(** One character of the reference, as the loops take it. *)
Lemma chars_step s i b rest limit : terminated (from s i) -> from s i = b :: rest -> ascii b = false -> limit <> Some O ->
  if b =? 0 then chars false (from s i) 0 limit = ([], O, Ended)
  else if u32 (b - SA) >? SB - SA then chars false (from s i) 0 limit = ([], O, Invalid)
  else
    (exists c k, (2 <= k)%nat /\ conv_tail s bittab.[b - SA] (Z.of_nat i + 1) = (true, c, Z.of_nat (i + k)) /\ count_tail s bittab.[b - SA] (Z.of_nat i + 1) = (true, Z.of_nat (i + k)) /\
      terminated (from s (i + k)) /\ (k <= length (from s i))%nat /\
      chars false (from s i) 0 limit = cons_char c k (chars false (from s (i + k)) 0 (pred <$> limit))) \/
    (exists c, c <> 0 /\ conv_tail s bittab.[b - SA] (Z.of_nat i + 1) = (false, c, Z.of_nat i) /\ count_tail s bittab.[b - SA] (Z.of_nat i + 1) = (false, Z.of_nat i) /\
      bittab.[b - SA] <> 0 /\ chars false (from s i) 0 limit = ([], O, Invalid)).
Proof.
  intros Ht E Ha Hl. destruct (terminated_cons _ Ht) as (b' & rest' & E' & Hb & Ht'). rewrite E in E'. injection E' as <- <-.
  destruct (Z.eqb_spec b 0) as [->|H0]; [rewrite E; by apply chars_end|]. specialize (Ht' H0). destruct (from_cons _ _ _ _ E) as [_ F].
  rewrite E, chars_lead by done. destruct (u32 (b - SA) >? SB - SA) eqn:Et; [done|]. pose proof (lead_test b Hb Ha H0 Et) as Hst.
  replace (Z.of_nat i + 1) with (Z.of_nat (S i)) by lia. rewrite <- F in *.
  destruct (tail_spec s bittab.[b - SA] (S i) (Z.of_nat (S (length (from s (S i))))) Hst Ht') as [(c & k & Hk & H1 & H2 & H3 & H4 & H5)|(c & Hc & H1 & H2 & H3)].
  - left. exists c, (S k). replace (i + S k)%nat with (S i + k)%nat by lia. split; [lia|]. split; [done|]. split; [done|]. split; [done|].
    split; [cbn; lia|]. rewrite H3. cbn [out ret]. rewrite Nat2Z.inj_succ. destruct (Z.eqb_spec (Z.succ (Z.of_nat (length (from s (S i)))) - Z.of_nat (length (from s (S i + k)))) 0); [lia|].
    replace (Z.to_nat (Z.succ (Z.of_nat (length (from s (S i)))) - Z.of_nat (length (from s (S i + k))))) with (S k) by lia. cbn [drop].
    assert (Ed : drop k (from s (S i)) = from s (S i + k)) by (unfold from; by rewrite drop_drop). by rewrite Ed.
  - right. exists c. split; [done|]. split; [rewrite H1; f_equal; lia|]. split; [rewrite H2; f_equal; lia|]. split; [apply Hst|]. by rewrite H3.
Qed.

Definition ends (s : list Z) (i p : nat) (wn c : Z) (o : list Z) (v : verdict) : Prop :=
  match v with
  | Full => wn = Z.of_nat (length o)
  | Ended => c = 0 /\ s.[Z.of_nat (i + p)] = 0
  | Invalid => c <> 0 \/ s.[Z.of_nat (i + p)] <> 0
  | Short _ => False
  end.

Definition is_full (v : verdict) : bool := match v with Full => true | _ => false end.

Lemma conv_loop_spec fuel : forall s addr i wn ws, bytes s -> terminated (from s i) -> (length (from s i) < fuel)%nat -> 0 <= wn < 2 ^ 64 ->
  let '(o, p, v) := chars false (from s i) 0 (Some (Z.to_nat wn)) in
  exists c, conv_loop fuel s addr (Z.of_nat i) wn ws = (is_full v, Z.of_nat (i + p), wn - Z.of_nat (length o), c, ws ++ o) /\ ends s i p wn c o v.
Proof.
  induction fuel as [|fuel IH]; intros s addr i wn ws Hs Ht Hf Hwn; [lia|]. cbn [conv_loop]. destruct (Z.eqb_spec wn 0) as [->|Hw0].
  { rewrite chars_eq. cbn [Z.to_nat]. destruct (decide _); [|done]. exists 0. rewrite app_nil_r, Nat.add_0_r. done. }
  set (pre := if ascii s.[Z.of_nat i] && _ then _ else _).
  assert (Hpre : exists k, ascii_run s i k /\ Z.of_nat k <= wn - 1 /\ pre = (Z.of_nat (i + k), wn - Z.of_nat k, ws ++ take k (from s i))).
  { unfold pre. destruct (_ && _).
    - destruct (conv_words_spec (length s) s i wn ws Hs) as (k & H1 & H2 & H3). exists k. split; [done|]. split; [lia|done].
    - exists O. split; [apply ascii_run_0|]. split; [lia|]. cbn [take]. rewrite app_nil_r. apply f_equal2; [apply f_equal2; lia|done]. }
  destruct Hpre as (k & Hrun & Hk & ->). rewrite (chars_run false s i k) by (done || lia). cbn [option_fmap fmap option_map].
  pose proof (terminated_run s i k Hrun Ht) as Ht1. pose proof Hrun as [Hkl _]. pose proof (from_length s i k) as Hfl.
  assert (Htk : length (take k (from s i)) = k) by (rewrite length_take; lia). set (u := take k (from s i)) in *. clearbody u.
  assert (Hlim : Some (Z.to_nat wn - k)%nat <> Some O) by (intros [=]; lia).
  destruct (terminated_cons _ Ht1) as (b & rest & E & Hb & Htr). destruct (from_cons _ _ _ _ E) as [G F]. rewrite G.
  destruct (ascii b) eqn:Ha.
  - rewrite E, chars_ascii by done. cbn [option_fmap fmap option_map]. rewrite <- F in *.
    assert (b <> 0) as Hb0 by (intros ->; done). specialize (Htr Hb0). apply (f_equal length) in E. cbn [length] in E.
    specialize (IH s addr (S (i + k)) (wn - Z.of_nat k - 1) ((ws ++ u) ++ [b]) Hs Htr ltac:(lia) ltac:(lia)).
    replace (Z.to_nat (wn - Z.of_nat k - 1)) with (pred (Z.to_nat wn - k)) in IH by lia.
    replace (u64 (wn - Z.of_nat k - 1)) with (wn - Z.of_nat k - 1) by (unfold u64; rewrite wrap_small; [done|unfold word; lia]).
    replace (Z.of_nat (i + k) + 1) with (Z.of_nat (S (i + k))) by lia.
    destruct (chars false (from s (S (i + k))) 0 _) as [[o p] v]. destruct IH as (c & -> & Hend). cbn [cons_char add_run]. exists c. rewrite Htk.
    split.
    + rewrite length_app, <- !app_assoc, Htk. cbn [length app]. replace (i + (k + (1 + p)))%nat with (S (i + k) + p)%nat by lia.
      by replace (wn - Z.of_nat (k + S (length o))) with (wn - Z.of_nat k - 1 - Z.of_nat (length o)) by lia.
    + unfold ends in *. replace (i + (k + (1 + p)))%nat with (S (i + k) + p)%nat by lia. destruct v; [|done..]. rewrite length_app. cbn [length]. lia.
  - pose proof (chars_step s (i + k) b rest (Some (Z.to_nat wn - k)%nat) Ht1 E Ha Hlim) as Hstep. destruct (Z.eqb_spec b 0) as [->|Hb0].
    { rewrite Hstep. cbn [add_run]. change (u32 (0 - SA) >? SB - SA) with true. exists 0. rewrite app_nil_r, Nat.add_0_r, Htk. done. }
    destruct (u32 (b - SA) >? SB - SA).
    { rewrite Hstep. cbn [add_run]. exists 0. rewrite app_nil_r, Nat.add_0_r, Htk. split; [done|]. right. by rewrite G. }
    destruct Hstep as [(c & j & Hj & H1 & _ & H3 & H4 & ->)|(c & Hc & H1 & _ & _ & ->)].
    + rewrite H1. cbn [option_fmap fmap option_map]. pose proof (from_length s (i + k) j).
      specialize (IH s addr (i + k + j)%nat (wn - Z.of_nat k - 1) ((ws ++ u) ++ [c]) Hs H3 ltac:(lia) ltac:(lia)).
      replace (Z.to_nat (wn - Z.of_nat k - 1)) with (pred (Z.to_nat wn - k)) in IH by lia.
      replace (u64 (wn - Z.of_nat k - 1)) with (wn - Z.of_nat k - 1) by (unfold u64; rewrite wrap_small; [done|unfold word; lia]).
      destruct (chars false (from s (i + k + j)) 0 _) as [[o p] v]. destruct IH as (c' & -> & Hend). cbn [cons_char add_run]. exists c'. rewrite Htk.
      split.
      * rewrite length_app, <- !app_assoc, Htk. cbn [length app]. replace (i + (k + (j + p)))%nat with (i + k + j + p)%nat by lia.
        by replace (wn - Z.of_nat (k + S (length o))) with (wn - Z.of_nat k - 1 - Z.of_nat (length o)) by lia.
      * unfold ends in *. replace (i + (k + (j + p)))%nat with (i + k + j + p)%nat by lia. destruct v; [|done..]. rewrite length_app. cbn [length]. lia.
    + rewrite H1. cbn [add_run]. exists c. rewrite app_nil_r, Nat.add_0_r, Htk. split; [done|]. by left.
Qed.

Lemma u64_sub a b : u64 (u64 a - b) = u64 (a - b).
Proof. unfold u64. by rewrite <- Z.add_opp_r, wrap_add_l, Z.add_opp_r. Qed.

Lemma count_loop_spec fuel : forall s addr i wn, bytes s -> terminated (from s i) -> (length (from s i) < fuel)%nat ->
  let '(o, p, v) := chars false (from s i) 0 None in
  exists c, count_loop fuel s addr (Z.of_nat i) (u64 wn) = (Z.of_nat (i + p), u64 (wn - Z.of_nat (length o)), c) /\ is_full v = false /\ ends s i p wn c o v.
Proof.
  induction fuel as [|fuel IH]; intros s addr i wn Hs Ht Hf; [lia|]. cbn [count_loop].
  set (pre := if ascii s.[Z.of_nat i] && _ then _ else _).
  assert (Hpre : exists k, ascii_run s i k /\ pre = (Z.of_nat (i + k), u64 (wn - Z.of_nat k))).
  { unfold pre. destruct (_ && _).
    - destruct (count_words_spec (length s) s i wn Hs) as (k & H1 & H2). by exists k.
    - exists O. split; [apply ascii_run_0|]. rewrite Nat.add_0_r, Z.sub_0_r. done. }
  destruct Hpre as (k & Hrun & ->). rewrite (chars_run false s i k) by done. cbn [option_fmap fmap option_map].
  pose proof (terminated_run s i k Hrun Ht) as Ht1. pose proof Hrun as [Hkl _]. pose proof (from_length s i k) as Hfl.
  assert (Htk : length (take k (from s i)) = k) by (rewrite length_take; lia). set (u := take k (from s i)) in *. clearbody u.
  destruct (terminated_cons _ Ht1) as (b & rest & E & Hb & Htr). destruct (from_cons _ _ _ _ E) as [G F]. rewrite G.
  destruct (ascii b) eqn:Ha.
  - rewrite E, chars_ascii by done. cbn [option_fmap fmap option_map]. rewrite <- F in *.
    assert (b <> 0) as Hb0 by (intros ->; done). specialize (Htr Hb0). apply (f_equal length) in E. cbn [length] in E.
    specialize (IH s addr (S (i + k)) (wn - Z.of_nat k - 1) Hs Htr ltac:(lia)). rewrite u64_sub.
    replace (Z.of_nat (i + k) + 1) with (Z.of_nat (S (i + k))) by lia.
    destruct (chars false (from s (S (i + k))) 0 _) as [[o p] v]. destruct IH as (c & -> & Hv & Hend). cbn [cons_char add_run]. exists c. rewrite Htk. split; [|split; [done|]].
    + rewrite length_app, Htk. cbn [length]. replace (i + (k + (1 + p)))%nat with (S (i + k) + p)%nat by lia.
      by replace (wn - Z.of_nat (k + S (length o))) with (wn - Z.of_nat k - 1 - Z.of_nat (length o)) by lia.
    + unfold ends in *. replace (i + (k + (1 + p)))%nat with (S (i + k) + p)%nat by lia. by destruct v.
  - pose proof (chars_step s (i + k) b rest None Ht1 E Ha ltac:(done)) as Hstep. destruct (Z.eqb_spec b 0) as [->|Hb0].
    { rewrite Hstep. cbn [add_run]. change (u32 (0 - SA) >? SB - SA) with true. exists 0. rewrite app_nil_r, Nat.add_0_r, Htk. done. }
    destruct (u32 (b - SA) >? SB - SA).
    { rewrite Hstep. cbn [add_run]. exists 0. rewrite app_nil_r, Nat.add_0_r, Htk. split; [done|]. split; [done|]. right. by rewrite G. }
    destruct Hstep as [(c & j & Hj & _ & H1 & H3 & H4 & ->)|(c & _ & _ & H1 & Hc & ->)].
    + rewrite H1. cbn [option_fmap fmap option_map]. pose proof (from_length s (i + k) j).
      specialize (IH s addr (i + k + j)%nat (wn - Z.of_nat k - 1) Hs H3 ltac:(lia)). rewrite u64_sub.
      destruct (chars false (from s (i + k + j)) 0 _) as [[o p] v]. destruct IH as (c' & -> & Hv & Hend). cbn [cons_char add_run]. exists c'. rewrite Htk. split; [|split; [done|]].
      * rewrite length_app, Htk. cbn [length]. replace (i + (k + (j + p)))%nat with (i + k + j + p)%nat by lia.
        by replace (wn - Z.of_nat (k + S (length o))) with (wn - Z.of_nat k - 1 - Z.of_nat (length o)) by lia.
      * unfold ends in *. replace (i + (k + (j + p)))%nat with (i + k + j + p)%nat by lia. by destruct v.
    + rewrite H1. cbn [add_run]. exists bittab.[b - SA]. rewrite app_nil_r, Nat.add_0_r, Htk. split; [done|]. split; [done|]. by left.
Qed.

(** *** One byte per character *)

Lemma codeunit_ascii_checked : forallb (fun b => CODEUNIT b =? b) (seqZ 0 128) = true.
Proof. vm_compute. reflexivity. Qed.

Lemma codeunit_ascii b : 0 <= b < 128 -> CODEUNIT b = b.
Proof.
  intros Hb. pose proof codeunit_ascii_checked as H. rewrite forallb_forall in H. apply Z.eqb_eq, H, list_elem_of_In, elem_of_seqZ. lia.
Qed.

Lemma chars_single b s limit : byte_ok b -> limit <> Some O ->
  chars true (b :: s) 0 limit = if b =? 0 then ([], O, Ended) else cons_char (CODEUNIT b) 1 (chars true s 0 (pred <$> limit)).
Proof.
  intros [Hb1 Hb2] Hl. rewrite chars_eq. destruct (decide _); [done|]. unfold mbrtowc. cbn [length Nat.eqb]. change ((b :: s).[0]) with b. change (0 =? 0) with true. cbv iota.
  destruct (Z.ltb_spec b 128).
  - destruct (Z.eqb_spec b 0); [done|]. cbn [out ret Z.eqb]. rewrite codeunit_ascii by lia. done.
  - destruct (Z.eqb_spec b 0); [lia|]. done.
Qed.

Lemma single_loop_spec fuel : forall s i wn ws, terminated (from s i) -> (length (from s i) < fuel)%nat -> 0 <= wn ->
  let '(o, p, v) := chars true (from s i) 0 (Some (Z.to_nat wn)) in
  single_loop fuel s (Z.of_nat i) wn ws = (is_full v, Z.of_nat (i + p), wn - Z.of_nat (length o), ws ++ o) /\ (v = Full \/ v = Ended) /\ (v = Full -> wn = Z.of_nat (length o)).
Proof.
  induction fuel as [|fuel IH]; intros s i wn ws Ht Hf Hwn; [lia|]. cbn [single_loop]. destruct (Z.eqb_spec wn 0) as [->|Hw0].
  { rewrite chars_eq. cbn [Z.to_nat]. destruct (decide _); [|done]. rewrite app_nil_r, Nat.add_0_r. split; [done|]. split; [by left|done]. }
  destruct (terminated_cons _ Ht) as (b & rest & E & Hb & Htr). destruct (from_cons _ _ _ _ E) as [-> F].
  rewrite E, chars_single by (done || intros [=]; lia). destruct (Z.eqb_spec b 0) as [->|Hb0]; [rewrite app_nil_r, Nat.add_0_r, Z.sub_0_r; split; [done|]; split; [by right|done]|].
  specialize (Htr Hb0). apply (f_equal length) in E. cbn [length] in E. rewrite <- F in *.
  specialize (IH s (S i) (wn - 1) (ws ++ [CODEUNIT b]) Htr ltac:(lia) ltac:(lia)). cbn [option_fmap fmap option_map].
  replace (Z.to_nat (wn - 1)) with (pred (Z.to_nat wn)) in IH by lia. replace (Z.of_nat i + 1) with (Z.of_nat (S i)) by lia.
  destruct (chars true (from s (S i)) 0 _) as [[o p] v]. destruct IH as (-> & H1 & H2). cbn [cons_char length]. rewrite <- app_assoc. replace (i + (1 + p))%nat with (S i + p)%nat by lia.
  replace (wn - Z.of_nat (S (length o))) with (wn - 1 - Z.of_nat (length o)) by lia. split; [done|]. split; [done|]. intros Hv. specialize (H2 Hv). lia.
Qed.

Lemma chars_strlen s : terminated s -> exists o p, chars true s 0 None = (o, p, Ended) /\ strlen s = length o.
Proof.
  induction s as [|b s IH]; intros Ht; destruct (terminated_cons _ Ht) as (b' & rest & E & Hb & Htr); [done|]. injection E as <- <-.
  rewrite chars_single by done. cbn [strlen]. destruct (Z.eqb_spec b 0) as [->|Hb0]; [by exists [], O|].
  destruct (IH (Htr Hb0)) as (o & p & Ec & El). cbn [option_fmap fmap option_map]. rewrite Ec. cbn [cons_char]. eexists _, _. split; [done|]. cbn [length]. by rewrite El.
Qed.

(** *** The resumed character *)

Lemma chars_resume s c limit : state_ok c -> terminated s -> limit <> Some O ->
  (exists wc k, (1 <= k <= length s)%nat /\ conv_tail s c 0 = (true, wc, Z.of_nat k) /\ count_tail s c 0 = (true, Z.of_nat k) /\ terminated (from s k) /\
    chars false s c limit = cons_char wc k (chars false (from s k) 0 (pred <$> limit))) \/
  (exists c', c' <> 0 /\ conv_tail s c 0 = (false, c', -1) /\ count_tail s c 0 = (false, -1) /\ chars false s c limit = ([], O, Invalid)).
Proof.
  intros Hc Ht Hl. destruct (terminated_cons _ Ht) as (b & rest & E & _). rewrite chars_eq. destruct (decide _); [done|]. unfold mbrtowc.
  replace (length s =? 0)%nat with false by (by rewrite E). destruct (Z.eqb_spec c 0); [by destruct Hc|].
  destruct (tail_spec s c 0 (Z.of_nat (length s)) Hc Ht) as [(wc & k & Hk & H1 & H2 & H3 & H4 & H5)|(c' & Hc' & H1 & H2 & H3)].
  - left. exists wc, k. change (from s 0) with s in *. rewrite H3. cbn [out ret]. split; [lia|]. split; [done|]. split; [done|]. split; [done|].
    destruct (Z.eqb_spec (Z.of_nat (length s) - Z.of_nat (length (from s (0 + k)))) 0); [lia|]. by replace (Z.to_nat (Z.of_nat (length s) - Z.of_nat (length (from s (0 + k))))) with k by lia.
  - right. exists c'. change (from s 0) with s in *. rewrite H3. done.
Qed.

(** ** mbsrtowcs *)

(** What mbsrtowcs reports of a conversion to a destination of [wn] cells. *)
Definition reported (pending : bool) (wn : Z) (r : list Z * nat * verdict) : result :=
  let '(o, p, v) := r in
  match v with
  | Full => mkResult wn o (Some (Z.of_nat p)) 0
  | Ended => mkResult (Z.of_nat (length o)) (o ++ [0]) None 0
  | Invalid => mkResult ILSEQ o (Some (if pending && (length o =? 0)%nat then -1 else Z.of_nat p)) 0
  | Short c => mkResult (Z.of_nat (length o)) o (Some (Z.of_nat p)) c
  end.

Lemma conv_finish_spec s i wn0 wn c o0 o p v : ends s i p wn c o v -> 0 <= wn0 < 2 ^ 64 -> wn0 - wn = Z.of_nat (length o0) -> 0 <= wn ->
  (v = Ended -> Z.of_nat (length o) <= wn) -> 
  conv_finish s wn0 0 (is_full v, Z.of_nat (i + p), wn - Z.of_nat (length o), c, o0 ++ o) = reported false wn0 (o0 ++ o, (i + p)%nat, v).
Proof.
  intros He Hw0 Hw Hwn Hle. unfold conv_finish, reported. destruct v; cbn [is_full]; [| | |done].
  - done.
  - destruct He as [-> He]. unfold finish. rewrite He. cbn [Z.eqb andb]. rewrite length_app. f_equal. unfold u64. specialize (Hle eq_refl). rewrite wrap_small by (unfold word; lia). lia.
  - unfold finish. replace ((c =? 0) && (s.[Z.of_nat (i + p)] =? 0)) with false; [done|]. destruct He as [He|He].
    + by destruct (Z.eqb_spec c 0).
    + destruct (Z.eqb_spec s.[Z.of_nat (i + p)] 0); [done|]. by rewrite andb_false_r.
Qed.

Lemma chars_limit single s c n : let '(o, p, v) := chars single s c (Some n) in (length o <= n)%nat /\ (length o <= p <= length s)%nat.
Proof.
  unfold chars. generalize (S (length s)) as fuel. intros fuel. revert s c n. induction fuel as [|fuel IH]; intros s c n; [cbn; lia|]. cbn [as_if].
  destruct (decide _); [cbn; lia|]. destruct (out _) as [wc|] eqn:E; [|unfold stop; destruct (_ =? _); cbn; lia]. destruct (mbrtowc_ret _ _ _ _ E) as [Hr Hs].
  destruct (Z.eqb_spec (ret (mbrtowc single (Some s) (length s) c)) 0); [cbn; lia|]. set (k := Z.to_nat _).
  specialize (IH (drop k s) 0 (pred n)). cbn [option_fmap fmap option_map]. destruct (as_if fuel single (drop k s) 0 (Some (pred n))) as [[o p] v].
  rewrite length_drop in IH. destruct n as [|n]; [done|]. cbn [length pred] in *. unfold k in *. lia.
Qed.

Lemma chars_length single s c : let '(o, p, v) := chars single s c None in (length o <= p <= length s)%nat.
Proof.
  unfold chars. generalize (S (length s)) as fuel. intros fuel. revert s c. induction fuel as [|fuel IH]; intros s c; [cbn; lia|]. cbn [as_if].
  destruct (decide _); [done|]. destruct (out _) as [wc|] eqn:E; [|unfold stop; destruct (_ =? _); cbn; lia]. destruct (mbrtowc_ret _ _ _ _ E) as [Hr Hs].
  destruct (Z.eqb_spec (ret (mbrtowc single (Some s) (length s) c)) 0); [cbn; lia|]. set (k := Z.to_nat _).
  specialize (IH (drop k s) 0). cbn [option_fmap fmap option_map]. destruct (as_if fuel single (drop k s) 0 None) as [[o p] v].
  rewrite length_drop in IH. cbn [length] in *. unfold k in *. lia.
Qed.

Lemma mbsrtowcs_store s addr wn l : terminated s -> bytes l -> decode l = Partial -> 0 <= wn < 2 ^ 64 -> (l <> [] -> 0 < wn) ->
  mbsrtowcs false true s addr wn (prefix_state l) = reported (negb (length l =? 0)%nat) wn (chars false s (prefix_state l) (Some (Z.to_nat wn))).
Proof.
  intros Ht Hl Hp Hwn Hpos. pose proof Ht as [Hs _]. destruct l as [|b0 l0] eqn:El.
  - unfold mbsrtowcs. change (prefix_state []) with 0. cbn [Z.eqb negb length Nat.eqb].
    pose proof (conv_loop_spec (S (length s)) s addr 0 wn [] Hs Ht ltac:(change (from s 0) with s; lia) Hwn) as H. change (from s 0) with s in H.
    pose proof (chars_limit false s 0 (Z.to_nat wn)) as Hlim. destruct (chars false s 0 (Some (Z.to_nat wn))) as [[o p] v]. destruct H as (c & H & He).
    change (Z.of_nat 0) with 0 in H. rewrite H. rewrite (conv_finish_spec s 0 wn wn c [] o p v); try done; cbn [length]; lia.
  - rewrite <- El in *. assert (Hne : l <> []) by (by rewrite El). pose proof (partial_state l Hne Hl Hp) as Hst. unfold mbsrtowcs.
    replace (prefix_state l =? 0) with false by (symmetry; apply Z.eqb_neq, Hst). cbn [negb]. replace (length l =? 0)%nat with false by (by rewrite El). cbn [negb].
    assert (Hlim : Some (Z.to_nat wn) <> Some O) by (specialize (Hpos Hne); intros [=]; lia). clear El.
    destruct (chars_resume s (prefix_state l) _ Hst Ht Hlim) as [(wc & k & Hk & H1 & _ & H3 & ->)|(c' & Hc' & H1 & _ & ->)]; rewrite H1.
    + cbn [option_fmap fmap option_map]. replace (u64 (wn - 1)) with (wn - 1) by (unfold u64; rewrite wrap_small; [done|unfold word; specialize (Hpos Hne); lia]).
      pose proof (conv_loop_spec (S (length s)) s addr k (wn - 1) [wc] Hs H3 ltac:(unfold from; rewrite length_drop; lia) ltac:(specialize (Hpos Hne); lia)) as H.
      replace (Z.to_nat (wn - 1)) with (pred (Z.to_nat wn)) in H by lia. pose proof (chars_limit false (from s k) 0 (pred (Z.to_nat wn))) as Hlm.
      destruct (chars false (from s k) 0 _) as [[o p] v]. destruct H as (c & H & He). rewrite H. specialize (Hpos Hne). rewrite (conv_finish_spec s k wn (wn - 1) c [wc] o p v); try done; cbn [length]; try lia.
    + unfold finish. destruct (Z.eqb_spec c' 0); [done|]. done.
Qed.

Lemma mbsrtowcs_count s addr wn l : terminated s -> bytes l -> decode l = Partial -> Z.of_nat (length s) < 2 ^ 64 -> 0 <= wn < 2 ^ 64 ->
  mbsrtowcs false false s addr wn (prefix_state l) =
  let '(o, p, v) := chars false s (prefix_state l) None in mkResult (match v with Invalid => ILSEQ | _ => Z.of_nat (length o) end) [] (Some 0) (prefix_state l).
Proof.
  intros Ht Hl Hp Hlen Hwn. pose proof Ht as [Hs _]. assert (Hfin : forall i p w c o v n, ends s i p w c o v -> is_full v = false -> 0 <= n < 2 ^ 64 ->
    finish s None wn (u64 (wn - n)) c (Z.of_nat (i + p)) (prefix_state l) = mkResult (match v with Invalid => ILSEQ | _ => n end) [] (Some 0) (prefix_state l)).
  { intros i p w c o v n He Hv Hn. unfold finish. destruct v; [done| | |done].
    - destruct He as [-> ->]. cbn [Z.eqb andb]. f_equal. unfold u64, wrap. rewrite Zminus_mod_idemp_r. replace (wn - (wn - n)) with n by lia. apply Z.mod_small. lia.
    - replace ((c =? 0) && (s.[Z.of_nat (i + p)] =? 0)) with false; [done|]. destruct He as [He|He]; [by destruct (Z.eqb_spec c 0)|].
      destruct (Z.eqb_spec s.[Z.of_nat (i + p)] 0); [done|]. by rewrite andb_false_r. }
  destruct l as [|b0 l0] eqn:El.
  - unfold mbsrtowcs. change (prefix_state []) with 0 in *. cbn [Z.eqb negb].
    pose proof (count_loop_spec (S (length s)) s addr 0 wn Hs Ht ltac:(change (from s 0) with s; lia)) as H. change (from s 0) with s in H.
    pose proof (chars_length false s 0) as Hlim. destruct (chars false s 0 None) as [[o p] v]. destruct H as (c & H & Hv & He).
    assert (Eu : u64 wn = wn) by (unfold u64; apply wrap_small; unfold word; lia). rewrite Eu in H. change (Z.of_nat 0) with 0 in H. rewrite H. apply (Hfin 0%nat p wn c o); try done. lia.
  - rewrite <- El in *. assert (Hne : l <> []) by (by rewrite El). pose proof (partial_state l Hne Hl Hp) as Hst. unfold mbsrtowcs.
    replace (prefix_state l =? 0) with false by (symmetry; apply Z.eqb_neq, Hst). cbn [negb]. clear El.
    destruct (chars_resume s (prefix_state l) None Hst Ht ltac:(done)) as [(wc & k & Hk & _ & H1 & H3 & ->)|(c' & Hc' & _ & H1 & ->)]; rewrite H1.
    + cbn [option_fmap fmap option_map]. pose proof (count_loop_spec (S (length s)) s addr k (wn - 1) Hs H3 ltac:(unfold from; rewrite length_drop; lia)) as H.
      pose proof (chars_length false (from s k) 0) as Hlm. destruct (chars false (from s k) 0 _) as [[o p] v]. destruct H as (c & -> & Hv & He). cbn [cons_char].
      replace (wn - 1 - Z.of_nat (length o)) with (wn - Z.of_nat (S (length o))) by lia. unfold from in Hlm. rewrite length_drop in Hlm.
      apply (Hfin k p (wn - 1) c o v (Z.of_nat (S (length o)))); try done. lia.
    + unfold finish. destruct (Z.eqb_spec (prefix_state l) 0); [by destruct Hst|]. done.
Qed.

Lemma mbsrtowcs_single s addr wn : terminated s -> 0 <= wn < 2 ^ 64 ->
  mbsrtowcs true true s addr wn 0 = reported false wn (chars true s 0 (Some (Z.to_nat wn))) /\
  exists o p, chars true s 0 None = (o, p, Ended) /\ mbsrtowcs true false s addr wn 0 = mkResult (Z.of_nat (length o)) [] (Some 0) 0.
Proof.
  intros Ht Hwn. unfold mbsrtowcs. cbn [Z.eqb negb]. split.
  - pose proof (single_loop_spec (S (length s)) s 0 wn [] Ht ltac:(change (from s 0) with s; lia) ltac:(lia)) as H. change (from s 0) with s in H.
    destruct (chars true s 0 (Some (Z.to_nat wn))) as [[o p] v]. destruct H as (H & Hv & Hf). change (Z.of_nat 0) with 0 in H. rewrite H. unfold reported.
    destruct Hv as [->| ->]; cbn [is_full]; [done|]. replace (wn - (wn - Z.of_nat (length o))) with (Z.of_nat (length o)) by lia. done.
  - destruct (chars_strlen s Ht) as (o & p & E & El). exists o, p. rewrite El. done.
Qed.

(** C6: mbsrtowcs, with its unrolled decoder, its four bytes at a time and
    its jumps into the middle of the loop, does what ISO C says, when the state
    is initial or, being inside a character [l], [wn] is not 0 (where it is 0 the
    code stores without a limit: [mbsrtowcs_overrun]). It converts as by a call
    of mbrtowc for each character, up to [wn] characters, the terminator or an
    invalid byte, and reports the count, the source pointer and the state;
    without a destination it counts. No more cells than [wn] are stored. *)
Theorem mbsrtowcs_as_if single s addr wn l : bytes s -> 0 ∈ s -> Z.of_nat (length s) < 2 ^ 64 -> 0 <= wn < 2 ^ 64 ->
  bytes l -> decode l = Partial -> (single = true -> l = []) -> (l <> [] -> 0 < wn) ->
  let st := prefix_state l in
  mbsrtowcs single true s addr wn st = reported (negb (length l =? 0)%nat) wn (chars single s st (Some (Z.to_nat wn))) /\
  (Z.of_nat (length (chars single s st (Some (Z.to_nat wn))).1.1) <= wn) /\
  mbsrtowcs single false s addr wn st =
    let '(o, p, v) := chars single s st None in mkResult (match v with Invalid => ILSEQ | _ => Z.of_nat (length o) end) [] (Some 0) st.
Proof.
  intros Hs Hz Hlen Hwn Hl Hp Hsl Hpos st. assert (Ht : terminated s) by done.
  assert (Hlim : Z.of_nat (length (chars single s st (Some (Z.to_nat wn))).1.1) <= wn).
  { pose proof (chars_limit single s st (Z.to_nat wn)) as H. destruct (chars single s st _) as [[o p] v]. cbn. lia. }
  destruct single.
  - specialize (Hsl eq_refl). subst l. subst st. change (prefix_state []) with 0 in *. destruct (mbsrtowcs_single s addr wn Ht Hwn) as [H1 (o & p & H2 & H3)].
    split; [exact H1|]. split; [exact Hlim|]. by rewrite H2.
  - split; [by apply mbsrtowcs_store|]. split; [exact Hlim|]. by apply mbsrtowcs_count.
Qed.

Lemma mbsrtowcs_as_if_witness :
  let s := [0x9f; 0x98; 0x80; 65; 66; 67; 68; 69; 70; 0xc3; 0xa9; 0; 99] in
  mbsrtowcs false true s 0 8 (prefix_state [0xf0]) = mkResult 8 [0x1f600; 65; 66; 67; 68; 69; 70; 0xe9] (Some 11) 0 /\
  mbsrtowcs false false s 0 8 (prefix_state [0xf0]) = mkResult 8 [] (Some 0) (prefix_state [0xf0]).
Proof.
  intros s. assert (Hs : bytes s) by (apply (bool_decide_unpack _); vm_compute; exact I).
  assert (Hz : 0 ∈ s) by (apply (bool_decide_unpack _); vm_compute; exact I).
  assert (Hl : bytes [0xf0]) by (apply (bool_decide_unpack _); vm_compute; exact I).
  destruct (mbsrtowcs_as_if false s 0 8 [0xf0] Hs Hz ltac:(reflexivity) ltac:(lia) Hl eq_refl ltac:(discriminate) ltac:(lia)) as (H1 & _ & H2).
  split; [rewrite H1; vm_compute; reflexivity|rewrite H2; vm_compute; reflexivity].
Defined.

(** Why the theorem asks for room: inside a character, the destination is not
    checked against [wn] = 0, and the count then wraps. *)
Lemma mbsrtowcs_overrun : r_out (mbsrtowcs false true [0x9f; 0x98; 0x80; 65; 66; 0] 0 0 (prefix_state [0xf0])) = [0x1f600; 65; 66; 0].
Proof. vm_compute. reflexivity. Qed.
