(* ===== verification/MbStringN.v ===== *)
(** * MbStringN: mbsnrtowcs of multibyte/.

    The conversion of a string of bounded length: as long as that is practical
    by mbsrtowcs, on destinations small enough that it never reads more than
    the bytes there are, then by mbrtowc, over [Utf8] and [MbString], against
    the reference [chars] on those bytes. *)

From S2P Require Import Prelude Utf8 MbString.
Import Unicode.

(** The loop over mbsrtowcs: [s] the memory from the source pointer on, [i] the
    position of the source pointer ([None] for NULL), then [n], [wn], [cnt],
    the state and what has been stored at [wcs] ([wcs]: it is not NULL; else
    the 256 cells [wbuf] are used again for each call). *)
Fixpoint mbsn_strings (fuel : nat) (single wcs : bool) (s : list Z) (addr i n wn cnt st : Z) (ws : list Z) : option Z * Z * Z * Z * Z * list Z :=
  match fuel with
  | O => (Some i, n, wn, cnt, st, ws)
  | S fuel =>
      let n2 := n / 4 in
      if negb (wn =? 0) && ((n2 >=? wn) || (n2 >? 32)) then
        let n2 := if n2 >=? wn then wn else n2 in
        let r := mbsrtowcs single true (drop (Z.to_nat i) s) (addr + i) n2 st in
        let src := (fun p => i + p) <$> r_src r in
        let ws := if wcs then ws ++ r_out r else ws in
        let l := r_ret r in
        if l =? ILSEQ then (src, n, 0, l, r_st r, ws)
        else
          let wn := if wcs then u64 (wn - l) else wn in
          let cnt := u64 (cnt + l) in
          match src with
          | Some j => mbsn_strings fuel single wcs s addr j (u64 (n - (j - i))) wn cnt (r_st r) ws
          | None => (None, 0, wn, cnt, r_st r, ws)
          end
      else (Some i, n, wn, cnt, st, ws)
  end.

(** The loop over mbrtowc. *)
Fixpoint mbsn_chars (fuel : nat) (single wcs : bool) (s : list Z) (i n wn cnt st : Z) (ws : list Z) : option Z * Z * Z * list Z :=
  match fuel with
  | O => (Some i, cnt, st, ws)
  | S fuel =>
      if (wn =? 0) || (n =? 0) then (Some i, cnt, st, ws)
      else
        let r := mbrtowc single (Some (drop (Z.to_nat i) s)) (Z.to_nat n) st in
        let ws := if wcs then ws ++ (match out r with Some wc => [wc] | None => [] end) else ws in
        let l := ret r in
        if u64 (l + 2) <=? 2 then
          if l =? ILSEQ then (Some i, l, Utf8.st r, ws)
          else if l =? 0 then (None, cnt, Utf8.st r, ws)
          else (Some (i + n), cnt, Utf8.st r, ws)
        else mbsn_chars fuel single wcs s (i + l) (u64 (n - l)) (u64 (wn - 1)) (u64 (cnt + 1)) (Utf8.st r) ws
  end.

(** What is left of the string after the first loop. *)
Definition mbsn_rest (single wcs : bool) (s : list Z) (r : option Z * Z * Z * Z * Z * list Z) : option Z * Z * Z * list Z :=
  let '(src, n, wn, cnt, st, ws) := r in
  match src with
  | Some i => mbsn_chars (S (length s)) single wcs s i n wn cnt st ws
  | None => (None, cnt, st, ws)
  end.

Definition mbsnrtowcs (single wcs : bool) (s : list Z) (addr n wn st : Z) : result :=
  let wn := if wcs then wn else 256 in
  let r := mbsn_strings (S (length s)) single wcs s addr 0 n wn 0 st [] in
  let '(src, cnt, st, ws) := mbsn_rest single wcs s r in
  mkResult cnt ws (if wcs then src else Some 0) st.

Example mbsn1 : mbsnrtowcs false true [0xf0; 0x9f; 0x98; 0x80; 65; 0xc3; 0xa9; 66] 0 6 10 0 = mkResult 2 [0x1f600; 65] (Some 6) (prefix_state [0xc3]).
Proof. vm_compute. reflexivity. Qed.
Example mbsn2 : mbsnrtowcs false true [0xa9; 65; 66; 67; 68; 69; 0; 0] 0 8 2 (prefix_state [0xc3]) = mkResult 2 [0xe9; 65] (Some 2) 0.
Proof. vm_compute. reflexivity. Qed.
Example mbsn3 : mbsnrtowcs false true [0x41; 65; 66; 67; 68; 69; 0; 0] 0 8 2 (prefix_state [0xc3]) = mkResult ILSEQ [] (Some (-1)) 0.
Proof. vm_compute. reflexivity. Qed.
Example mbsn4 : mbsnrtowcs false true [0x41; 65; 66; 67; 68; 69; 0; 0] 0 8 10 (prefix_state [0xc3]) = mkResult ILSEQ [] (Some 0) 0.
Proof. vm_compute. reflexivity. Qed.

(** ** The decoder, locally *)

Lemma trails_app len k : forall acc l m, trails len k acc l <> Partial -> trails len k acc (l ++ m) = trails len k acc l.
Proof.
  induction k as [|k IH]; intros acc l m H; [done|]. destruct l as [|b l]; [done|]. cbn [trails app] in *. destruct (trail b); [|done]. by apply IH.
Qed.

Lemma decode_app l m : decode l <> Partial -> decode (l ++ m) = decode l.
Proof.
  destruct l as [|b0 l]; [done|]. cbn [decode app]. destruct (b0 <? 128); [done|]. destruct (lead b0) as [[len v]|]; [|done].
  destruct l as [|b1 l]; [done|]. cbn [app]. destruct (second b0 b1); [|done]. apply trails_app.
Qed.

Lemma trails_enough len k : forall acc l, (k <= length l)%nat -> trails len k acc l <> Partial.
Proof.
  induction k as [|k IH]; intros acc l H; [done|]. destruct l as [|b l]; [cbn in H; lia|]. cbn [trails length] in *. destruct (trail b); [|done]. apply IH. lia.
Qed.

Lemma decode_enough l : (4 <= length l)%nat -> decode l <> Partial.
Proof.
  intros H. destruct l as [|b0 l]; [cbn in H; lia|]. cbn [decode length] in *. destruct (b0 <? 128); [done|]. destruct (lead b0) as [[len v]|] eqn:E; [|done].
  destruct l as [|b1 l]; [cbn in H; lia|]. cbn [length] in *. destruct (second b0 b1); [|done]. apply trails_enough. apply lead_cases in E. lia.
Qed.

Lemma encode_length cp : (1 <= length (encode cp) <= 4)%nat.
Proof. unfold encode. repeat case_match; cbn; lia. Qed.

(** A character starts where an unfinished one would go on, and ends beyond it. *)
Lemma decode_ends l m len cp : bytes (l ++ m) -> decode l = Partial -> decode (l ++ m) = Done len cp -> (length l < len <= 4)%nat /\ (len <= length (l ++ m))%nat.
Proof.
  intros Hb Hp Hd. destruct (decode_done _ _ _ Hb Hd) as [Hs He].
  assert (Hlen : length (encode cp) = len).
  { pose proof (decode_encode cp (drop len (l ++ m)) Hs) as H. rewrite He, take_drop, Hd in H. rewrite He. by injection H. }
  pose proof (encode_length cp). assert (Hle : (len <= length (l ++ m))%nat) by (rewrite He, length_take in Hlen; lia). split; [|done]. split; [|lia].
  destruct (Nat.lt_ge_cases (length l) len) as [|Hge]; [done|]. exfalso. rewrite take_app_le in He by lia.
  pose proof (decode_encode cp (drop len l) Hs) as H'. rewrite He, take_drop in H'. by rewrite Hp in H'.
Qed.

(** ** One call of mbrtowc *)

(** [l]: the bytes of the unfinished character, of which there are none in the
    single-byte locale. *)
Definition pending_ok (single : bool) (l : list Z) : Prop := bytes l /\ decode l = Partial /\ (single = true -> l = []).

Lemma pending_nil single : pending_ok single [].
Proof. split; [apply List.Forall_nil|done]. Qed.

Inductive call_spec (t : list Z) : conv -> Prop :=
  | call_char wc k : (1 <= k <= length t)%nat -> (k <= 4)%nat -> wc <> 0 -> call_spec t (mkConv (Z.of_nat k) (Some wc) 0)
  | call_end : call_spec t (mkConv 0 (Some 0) 0)
  | call_bad : call_spec t (mkConv ILSEQ None 0)
  | call_short c : (length t < 4)%nat -> call_spec t (mkConv INCOMPLETE None c).

Lemma codeunit_nonzero b : byte_ok b -> 128 <= b -> CODEUNIT b <> 0.
Proof.
  intros Hb H E. assert (Hc : forallb (fun b => (b <? 128) || negb (CODEUNIT b =? 0)) (seqZ 0 256) = true) by (vm_compute; reflexivity).
  pose proof (forallb_byte _ Hc b Hb) as H'. cbv beta in H'. rewrite E in H'. destruct (Z.ltb_spec b 128); [lia|done].
Qed.

(** A call on the bytes [t] does not depend on what follows them. *)
Lemma mbrtowc_call single t rest l : bytes t -> pending_ok single l ->
  let r := mbrtowc single (Some t) (length t) (prefix_state l) in
  mbrtowc single (Some (t ++ rest)) (length t) (prefix_state l) = r /\ call_spec t r.
Proof.
  intros Ht (Hl & Hp & Hs). destruct single.
  - rewrite (Hs eq_refl). change (prefix_state []) with 0. unfold mbrtowc. destruct t as [|b t]; [cbn; split; [done|constructor; cbn; lia]|].
    cbn [length Nat.eqb app]. change ((b :: t ++ rest).[0]) with b. change ((b :: t).[0]) with b. change (0 =? 0) with true. cbv iota. split; [done|].
    apply Forall_cons in Ht as [Hb _]. destruct (Z.ltb_spec b 128).
    + destruct (Z.eqb_spec b 0) as [->|]; [constructor|]. apply (call_char (b :: t) b 1); cbn; [lia|lia|done].
    + apply (call_char (b :: t) (CODEUNIT b) 1); cbn [length]; [lia|lia|by apply codeunit_nonzero].
  - assert (Hb : bytes (l ++ t)) by (by apply Forall_app). pose proof (mbrtowc_next l t [] Hb Hp) as E. rewrite app_nil_r in E.
    cbv zeta. rewrite E, mbrtowc_next by done. split; [done|]. destruct (decode (l ++ t)) as [len cp| |] eqn:Ed; cbn [conv_of].
    + destruct (decode_ends l t len cp Hb Hp Ed) as [H1 H2]. rewrite length_app in H2. destruct (Z.eqb_spec cp 0) as [->|]; [constructor|]. constructor; [lia|lia|done].
    + constructor. destruct (Nat.lt_ge_cases (length t) 4); [done|]. by destruct (decode_enough (l ++ t) ltac:(rewrite length_app; lia)).
    + constructor.
Qed.

(** Four bytes are enough for a character. *)
Lemma mbrtowc_enough single t rest l : bytes (t ++ rest) -> pending_ok single l -> (4 <= length t)%nat ->
  mbrtowc single (Some (t ++ rest)) (length (t ++ rest)) (prefix_state l) = mbrtowc single (Some t) (length t) (prefix_state l).
Proof.
  intros Ht (Hl & Hp & Hs) H4. destruct single.
  - rewrite (Hs eq_refl). destruct t as [|b t]; [cbn in H4; lia|]. unfold mbrtowc. change (prefix_state []) with 0. cbn [length Nat.eqb app].
    change ((b :: t ++ rest).[0]) with b. change ((b :: t).[0]) with b. done.
  - pose proof (proj1 (Forall_app _ _ _) Ht) as [Ht1 _]. pose proof (mbrtowc_next l (t ++ rest) [] ltac:(by apply Forall_app) Hp) as E1.
    pose proof (mbrtowc_next l t [] ltac:(by apply Forall_app) Hp) as E2. rewrite app_nil_r in E1, E2. rewrite E1, E2.
    assert (Hn : decode (l ++ t) <> Partial) by (apply decode_enough; rewrite length_app; lia).
    rewrite app_assoc, (decode_app _ _ Hn). by destruct (decode (l ++ t)).
Qed.

(** ** The reference, in parts *)

Definition joined (o0 : list Z) (p0 : nat) (r : list Z * nat * verdict) : list Z * nat * verdict :=
  let '(o, p, v) := r in (o0 ++ o, (p0 + p)%nat, v).

Lemma joined_cons wc k o0 p0 r : cons_char wc k (joined o0 p0 r) = joined (wc :: o0) (k + p0) r.
Proof. destruct r as [[o p] v]. cbn. by rewrite Nat.add_assoc. Qed.

(** Four bytes for each character: what follows is not looked at, and the
    bytes do not run out. *)
Lemma chars_cut single k : forall t rest l, bytes (t ++ rest) -> pending_ok single l -> (4 * k <= length t)%nat ->
  chars single (t ++ rest) (prefix_state l) (Some k) = chars single t (prefix_state l) (Some k) /\
  forall c, (chars single t (prefix_state l) (Some k)).2 <> Short c.
Proof.
  induction k as [|k IH]; intros t rest l Ht Hl Hk.
  { rewrite (chars_eq _ (t ++ rest)), (chars_eq _ t). destruct (decide _); done. }
  rewrite (chars_eq _ (t ++ rest)), (chars_eq _ t). destruct (decide _) as [|_]; [done|]. rewrite mbrtowc_enough by (done || lia).
  pose proof (proj1 (Forall_app _ _ _) Ht) as [Ht1 Ht2]. destruct (mbrtowc_call single t [] l Ht1 Hl) as [_ Hc]. cbv zeta in Hc |- *.
  destruct Hc as [wc j Hj Hj4 Hwc| | |c Hc4]; cbn [out ret]; [|done|done|lia].
  destruct (Z.eqb_spec (Z.of_nat j) 0); [lia|]. rewrite Nat2Z.id, drop_app_le by lia. cbn [option_fmap option_map fmap pred].
  specialize (IH (drop j t) rest [] ltac:(apply Forall_app; split; [by apply Forall_drop|done]) (pending_nil single) ltac:(rewrite length_drop; lia)).
  change (prefix_state []) with 0 in IH. destruct IH as [-> H]. split; [done|]. intros c. specialize (H c). by destruct (chars single (drop j t) 0 (Some k)) as [[o p] v].
Qed.

(** The conversion can be stopped after [a] characters and resumed. *)
Lemma chars_resumed single a : forall t c limit, let '(o, p, v) := chars single t c (Some a) in
  (v = Full -> a <> O \/ c = 0 -> length o = a /\ (length o <= p <= length t)%nat /\
    chars single t c (Nat.add a <$> limit) = joined o p (chars single (drop p t) 0 limit)) /\
  (v <> Full -> chars single t c (Nat.add a <$> limit) = (o, p, v)).
Proof.
  induction a as [|a IH]; intros t c limit; rewrite chars_eq; cbn [decide].
  { destruct (decide _) as [_|]; [|done]. split; [|done]. intros _ [| ->]; [done|]. split; [done|]. split; [cbn; lia|].
    rewrite drop_0. replace (Nat.add 0 <$> limit) with limit by (by destruct limit). by destruct (chars single t 0 limit) as [[o p] v]. }
  destruct (decide _) as [|_]; [done|]. assert (Hlim : Nat.add (S a) <$> limit <> Some O) by (by destruct limit).
  rewrite (chars_eq _ _ _ (Nat.add (S a) <$> limit)). destruct (decide (Nat.add (S a) <$> limit = Some O)) as [|_]; [done|]. cbv zeta.
  destruct (out (mbrtowc single (Some t) (length t) c)) as [wc|] eqn:E.
  2:{ unfold stop. by destruct (_ =? _). }
  destruct (mbrtowc_ret _ _ _ _ E) as [Hr _]. destruct (Z.eqb_spec (ret (mbrtowc single (Some t) (length t) c)) 0) as [|H0]; [done|].
  set (k := Z.to_nat _). assert (Hk : (1 <= k <= length t)%nat) by lia. clearbody k. specialize (IH (drop k t) 0 limit). cbn [option_fmap option_map fmap pred].
  replace (pred <$> (Nat.add (S a) <$> limit)) with (Nat.add a <$> limit) by (by destruct limit).
  destruct (chars single (drop k t) 0 (Some a)) as [[o p] v]. rewrite length_drop in IH. destruct IH as [IH1 IH2]. cbn [cons_char]. split.
  - intros Hv _. destruct (IH1 Hv (or_intror eq_refl)) as (H1 & H2 & H3). cbn [length]. split; [lia|]. split; [lia|].
    change (option_map (Nat.add a) limit) with (Nat.add a <$> limit) || idtac. rewrite drop_drop in H3. rewrite H3. apply joined_cons.
  - intros Hv. by rewrite (IH2 Hv).
Qed.

(** The bytes run out at their end. *)
Lemma chars_short single t c limit : let '(o, p, v) := chars single t c limit in forall c', v = Short c' -> p = length t.
Proof.
  unfold chars. generalize (S (length t)) as fuel. intros fuel. revert t c limit. induction fuel as [|fuel IH]; intros t c limit; [done|]. cbn [as_if].
  destruct (decide _); [done|]. destruct (out _) as [wc|] eqn:E; [|unfold stop; by destruct (_ =? _)]. destruct (mbrtowc_ret _ _ _ _ E) as [Hr _].
  destruct (Z.eqb_spec (ret (mbrtowc single (Some t) (length t) c)) 0); [done|]. set (k := Z.to_nat _). assert (k <= length t)%nat by lia. clearbody k.
  specialize (IH (drop k t) 0 (pred <$> limit)). destruct (as_if fuel single (drop k t) 0 _) as [[o p] v]. intros c' Hv. rewrite (IH c' Hv), length_drop. lia.
Qed.

(** With more room than bytes the limit does not count. *)
Lemma chars_room single k : forall t c, (length t < k)%nat -> chars single t c (Some k) = chars single t c None.
Proof.
  induction k as [|k IH]; intros t c Hk; [lia|]. rewrite chars_eq, (chars_eq _ _ _ None). destruct (decide _) as [|_]; [done|]. destruct (decide _) as [|_]; [done|].
  cbv zeta. destruct (out (mbrtowc single (Some t) (length t) c)) as [wc|] eqn:E; [|done]. destruct (mbrtowc_ret _ _ _ _ E) as [Hr _].
  destruct (Z.eqb_spec (ret (mbrtowc single (Some t) (length t) c)) 0) as [|H0]; [done|]. cbn [option_fmap option_map fmap pred]. by rewrite IH by (rewrite length_drop; lia).
Qed.

(** ** The two loops *)

(** The source pointer, the count, the state and what is stored, the
    conversion having ended with [r] from the position [i], where [ws] had
    been stored, in the state [st]; [back]: how mbsrtowcs reports the position
    of an invalid first character. *)
Definition outcome_of (wcs back : bool) (i cnt st : Z) (ws : list Z) (r : list Z * nat * verdict) : option Z * Z * Z * list Z :=
  let '(o, p, v) := r in
  (match v with Ended => None | Invalid => Some (if back && (length o =? 0)%nat then i - 1 else i + Z.of_nat p) | _ => Some (i + Z.of_nat p) end,
   match v with Invalid => ILSEQ | _ => cnt + Z.of_nat (length o) end,
   match v with Full => if (length o =? 0)%nat then st else 0 | Short c => c | _ => 0 end,
   if wcs then ws ++ o ++ (match v with Ended => [0] | _ => [] end) else ws).

Lemma outcome_joined wcs back i cnt st ws o0 p0 r : o0 <> [] ->
  outcome_of wcs false (i + Z.of_nat p0) (cnt + Z.of_nat (length o0)) 0 (if wcs then ws ++ o0 else ws) r = outcome_of wcs back i cnt st ws (joined o0 p0 r).
Proof.
  intros H0. destruct r as [[o p] v]. cbn [joined outcome_of andb]. assert (Hl : (length (o0 ++ o) =? 0)%nat = false) by (by destruct o0).
  rewrite Hl, andb_false_r, length_app. replace (i + Z.of_nat (p0 + p)) with (i + Z.of_nat p0 + Z.of_nat p) by lia.
  replace (cnt + Z.of_nat (length o0 + length o)) with (cnt + Z.of_nat (length o0) + Z.of_nat (length o)) by lia.
  destruct wcs; rewrite <- ?app_assoc; by destruct v, (length o =? 0)%nat.
Qed.

Lemma call_ret t r : call_spec t r -> Z.of_nat (length t) < 2 ^ 64 ->
  (u64 (ret r + 2) <=? 2) = match out r with Some wc => ret r =? 0 | None => true end.
Proof.
  intros [wc k Hk Hk4 Hwc| | |] Hl; cbn [ret out]; [|done..]. unfold u64. destruct (Z.eqb_spec (Z.of_nat k) 0); [lia|].
  rewrite wrap_small by (unfold word; lia). destruct (Z.leb_spec (Z.of_nat k + 2) 2); [lia|done].
Qed.

Lemma mbsn_chars_spec single wcs s fuel : forall i n wn cnt l ws, bytes s -> (i + n <= length s)%nat -> (n < fuel)%nat -> pending_ok single l ->
  0 <= wn < 2 ^ 64 -> 0 <= cnt -> cnt + Z.of_nat n < 2 ^ 64 ->
  mbsn_chars fuel single wcs s (Z.of_nat i) (Z.of_nat n) wn cnt (prefix_state l) ws =
    outcome_of wcs false (Z.of_nat i) cnt (prefix_state l) ws (chars single (take n (drop i s)) (prefix_state l) (Some (Z.to_nat wn))).
Proof.
  induction fuel as [|fuel IH]; intros i n wn cnt l ws Hs Hi Hf Hl Hwn Hc Hb; [lia|]. cbn [mbsn_chars]. rewrite chars_eq. destruct (Z.eqb_spec wn 0) as [->|Hw0]; cbn [orb].
  { destruct (decide _); [|done]. cbn [outcome_of length Nat.eqb app andb]. rewrite !Z.add_0_r, app_nil_r. by destruct wcs. }
  destruct (decide _) as [[=]|_]; [lia|]. cbv zeta. set (t := take n (drop i s)).
  assert (Hlt : length t = n) by (unfold t; rewrite length_take, length_drop; lia). assert (Hbt : bytes t) by (by apply Forall_take, Forall_drop).
  destruct (mbrtowc_call single t (drop n (drop i s)) l Hbt Hl) as [E Hcall]. rewrite Hlt in E, Hcall. unfold t in E at 1. rewrite take_drop in E. rewrite Nat2Z.id, Nat2Z.id, E, Hlt.
  destruct (Z.eqb_spec (Z.of_nat n) 0) as [Hn0|Hn0].
  { assert (n = O) as -> by lia. unfold t. rewrite take_0. unfold mbrtowc. cbn [length Nat.eqb out stop ret st]. unfold stop. cbn [ret st length]. change (INCOMPLETE =? ILSEQ) with false. cbv iota.
    cbn [outcome_of length Nat.eqb app andb]. rewrite !Z.add_0_r, app_nil_r. by destruct wcs. }
  rewrite (call_ret t _ Hcall) by lia. destruct Hcall as [wc k Hk Hk4 Hwc| | |c Hc4]; cbn [out ret Utf8.st].
  - destruct (Z.eqb_spec (Z.of_nat k) 0); [lia|]. rewrite Nat2Z.id. specialize (IH (i + k)%nat (n - k)%nat (wn - 1) (cnt + 1) [] (if wcs then ws ++ [wc] else ws) Hs ltac:(lia) ltac:(lia) (pending_nil single) ltac:(lia) ltac:(lia) ltac:(lia)).
    replace (u64 (Z.of_nat n - Z.of_nat k)) with (Z.of_nat (n - k)) by (unfold u64; rewrite wrap_small by (unfold word; lia); lia).
    replace (u64 (wn - 1)) with (wn - 1) by (unfold u64; rewrite wrap_small by (unfold word; lia); lia).
    replace (u64 (cnt + 1)) with (cnt + 1) by (unfold u64; rewrite wrap_small by (unfold word; lia); lia).
    rewrite <- Nat2Z.inj_add. change (prefix_state []) with 0 in IH. rewrite IH. unfold t.
    replace (drop k (take n (drop i s))) with (take (n - k) (drop (i + k) s)) by (rewrite <- drop_drop, take_drop_commute; do 2 f_equal; lia).
    cbn [option_fmap option_map fmap]. replace (pred (Z.to_nat wn)) with (Z.to_nat (wn - 1)) by lia. rewrite Nat2Z.inj_add.
    pose proof (outcome_joined wcs false (Z.of_nat i) cnt (prefix_state l) ws [wc] k (chars single (take (n - k) (drop (i + k) s)) 0 (Some (Z.to_nat (wn - 1)))) ltac:(done)) as Hj.
    cbn [length] in Hj. change (Z.of_nat 1) with 1 in Hj. rewrite Hj. by destruct (chars single (take (n - k) (drop (i + k) s)) 0 _) as [[o p] v].
  - cbn. rewrite Z.add_0_r. done.
  - unfold stop. cbn [ret Utf8.st]. change (ILSEQ =? ILSEQ) with true. cbv iota. cbn [outcome_of length Nat.eqb app andb]. change (Z.of_nat 0) with 0. rewrite Z.add_0_r, app_nil_r. by destruct wcs.
  - unfold stop. cbn [ret Utf8.st]. change (INCOMPLETE =? ILSEQ) with false. cbv iota. change (INCOMPLETE =? 0) with false. cbv iota. cbn [outcome_of length app]. rewrite Hlt. change (Z.of_nat 0) with 0. rewrite Z.add_0_r, app_nil_r. by destruct wcs.
Qed.

Lemma mbsrtowcs_any single s addr wn l : terminated s -> pending_ok single l -> 0 < wn < 2 ^ 64 ->
  mbsrtowcs single true s addr wn (prefix_state l) = reported (negb (length l =? 0)%nat) wn (chars single s (prefix_state l) (Some (Z.to_nat wn))).
Proof.
  intros Ht (Hl & Hp & Hs) Hwn. destruct single; [|apply mbsrtowcs_store; done || lia].
  rewrite (Hs eq_refl). change (prefix_state []) with 0. by destruct (mbsrtowcs_single s addr wn Ht ltac:(lia)) as [-> _].
Qed.

(** The first loop is entered for at least one character, on at least four
    bytes for each. *)
Definition practical (n wn : Z) : bool := (n / 4 >=? wn) || (n / 4 >? 32).

Lemma practical_size n wn : 0 <= n -> 0 < wn -> practical n wn = true ->
  let n2 := if n / 4 >=? wn then wn else n / 4 in 1 <= n2 <= wn /\ 4 * n2 <= n.
Proof.
  intros Hn Hw Hp. pose proof (Z.mul_div_le n 4 ltac:(lia)). unfold practical in Hp. apply orb_prop in Hp.
  destruct (Z.geb_spec (n / 4) wn); cbv zeta; [lia|]. destruct Hp as [|Hp]; [done|]. apply Z.gtb_lt in Hp. lia.
Qed.

Lemma practical_small n : 0 <= n -> practical n 256 = false -> n < 256.
Proof.
  intros Hn Hp. pose proof (Z.mod_pos_bound n 4 ltac:(lia)). pose proof (Z.div_mod n 4 ltac:(lia)). unfold practical in Hp. apply orb_false_iff in Hp as [_ Hp].
  destruct (Z.gtb_spec (n / 4) 32); [done|lia].
Qed.

Definition limit_of (wcs : bool) (wn : Z) : option nat := if wcs then Some (Z.to_nat wn) else None.

Lemma mbsn_go_spec single wcs s addr fuel : forall i n wn cnt l ws, bytes s -> (i + n <= length s)%nat -> 0 ∈ drop (i + n) s -> (n < fuel)%nat -> pending_ok single l ->
  Z.of_nat n < 2 ^ 64 -> 0 <= wn < 2 ^ 64 -> (wcs = false -> wn = 256) -> 0 <= cnt -> cnt + Z.of_nat n < 2 ^ 64 ->
  mbsn_rest single wcs s (mbsn_strings fuel single wcs s addr (Z.of_nat i) (Z.of_nat n) wn cnt (prefix_state l) ws) =
    outcome_of wcs (negb (length l =? 0)%nat && practical (Z.of_nat n) wn) (Z.of_nat i) cnt (prefix_state l) ws
      (chars single (take n (drop i s)) (prefix_state l) (limit_of wcs wn)).
Proof.
  induction fuel as [|fuel IH]; intros i n wn cnt l ws Hs Hi Hz Hf Hl Hn Hwn Hwcs Hc Hb; [lia|]. cbn [mbsn_strings].
  set (t := take n (drop i s)). assert (Hlt : length t = n) by (unfold t; rewrite length_take, length_drop; lia). assert (Hbt : bytes t) by (by apply Forall_take, Forall_drop).
  change ((Z.of_nat n / 4 >=? wn) || (Z.of_nat n / 4 >? 32)) with (practical (Z.of_nat n) wn).
  destruct (negb (wn =? 0) && practical (Z.of_nat n) wn) eqn:Hent.
  2:{ unfold mbsn_rest. rewrite mbsn_chars_spec by (done || lia). fold t. destruct wcs; cbn [limit_of].
    - destruct (Z.eqb_spec wn 0) as [->|]; cbn [negb andb] in Hent; [|by rewrite Hent, andb_false_r].
      rewrite chars_eq. by destruct (decide _).
    - rewrite (Hwcs eq_refl) in *. cbn [Z.eqb negb andb] in Hent. apply practical_small in Hent as Hn256; [|lia]. rewrite Hent, andb_false_r.
      by rewrite chars_room by lia. }
  apply andb_prop in Hent as [Hw0%negb_true_iff Hpr]. apply Z.eqb_neq in Hw0. rewrite Hpr, andb_true_r.
  destruct (practical_size (Z.of_nat n) wn ltac:(lia) ltac:(lia) Hpr) as [Hn2 Hn4]. set (n2 := if _ >=? wn then wn else _) in *. clearbody n2. rewrite Nat2Z.id.
  assert (Hsplit : drop i s = t ++ drop (i + n) s) by (unfold t; rewrite <- drop_drop; by rewrite take_drop).
  assert (Hterm : terminated (drop i s)) by (split; [by apply Forall_drop|rewrite Hsplit; set_solver]).
  rewrite (mbsrtowcs_any single (drop i s)) by (done || lia).
  destruct (chars_cut single (Z.to_nat n2) t (drop (i + n) s) l ltac:(rewrite <- Hsplit; by apply Forall_drop) Hl ltac:(lia)) as [Hcut Hns]. rewrite <- Hsplit in Hcut. rewrite Hcut.
  assert (Hlim : limit_of wcs wn = Nat.add (Z.to_nat n2) <$> limit_of wcs (wn - n2)).
  { destruct wcs; [|done]. cbn. f_equal. lia. }
  pose proof (chars_resumed single (Z.to_nat n2) t (prefix_state l) (limit_of wcs (wn - n2))) as Hres. pose proof (chars_limit single t (prefix_state l) (Z.to_nat n2)) as Hle.
  rewrite Hlim. destruct (chars single t (prefix_state l) (Some (Z.to_nat n2))) as [[o p] v]. destruct Hres as [Hfull Hstop].
  destruct v as [| | |c]; [|rewrite (Hstop ltac:(done))..|by destruct (Hns c)]; cbn [reported r_ret r_out r_src r_st option_fmap option_map fmap].
  - destruct (Hfull eq_refl ltac:(left; lia)) as (Ho & Hp & ->). destruct (Z.eqb_spec n2 ILSEQ) as [E|_]; [exfalso; revert E; change ILSEQ with (2 ^ 64 - 1); lia|].
    replace (Z.of_nat i + Z.of_nat p - Z.of_nat i) with (Z.of_nat p) by lia.
    replace (u64 (Z.of_nat n - Z.of_nat p)) with (Z.of_nat (n - p)) by (unfold u64; rewrite wrap_small by (unfold word; lia); lia).
    replace (u64 (cnt + n2)) with (cnt + n2) by (unfold u64; rewrite wrap_small by (unfold word; lia); lia). rewrite <- Nat2Z.inj_add.
    specialize (IH (i + p)%nat (n - p)%nat (if wcs then wn - n2 else wn) (cnt + n2) [] (if wcs then ws ++ o else ws) Hs ltac:(lia)).
    replace (i + p + (n - p))%nat with (i + n)%nat in IH by lia.
    specialize (IH Hz ltac:(lia) (pending_nil single) ltac:(lia) ltac:(destruct wcs; lia) ltac:(by destruct wcs) ltac:(lia) ltac:(lia)).
    change (prefix_state []) with 0 in IH. cbn [length Nat.eqb negb andb] in IH.
    replace (u64 (wn - n2)) with (wn - n2) by (unfold u64; rewrite wrap_small by (unfold word; lia); lia). rewrite IH.
    replace (drop p t) with (take (n - p) (drop (i + p) s)) by (unfold t; rewrite <- drop_drop, take_drop_commute; do 2 f_equal; lia).
    replace (limit_of wcs (if wcs then wn - n2 else wn)) with (limit_of wcs (wn - n2)) by (by destruct wcs).
    rewrite <- (outcome_joined wcs _ (Z.of_nat i) cnt (prefix_state l) ws o p) by (intros ->; cbn in Ho; lia). rewrite Nat2Z.inj_add. by replace (Z.of_nat (length o)) with n2 by lia.
  - destruct (Z.eqb_spec (Z.of_nat (length o)) ILSEQ) as [E|_]; [exfalso; revert E; change ILSEQ with (2 ^ 64 - 1); lia|]. unfold mbsn_rest. cbn [outcome_of].
    by replace (u64 (cnt + Z.of_nat (length o))) with (cnt + Z.of_nat (length o)) by (unfold u64; rewrite wrap_small by (unfold word; lia); lia).
  - change (ILSEQ =? ILSEQ) with true. cbv iota. unfold mbsn_rest. cbn [mbsn_chars outcome_of Z.eqb orb]. rewrite app_nil_r.
    destruct (negb _ && _); [|done]. by replace (Z.of_nat i + -1) with (Z.of_nat i - 1) by lia.
Qed.

(** ** The theorem *)

(** C8: mbsnrtowcs, by mbsrtowcs for as long as n/4 characters are worth it
    and by mbrtowc from there on, converts exactly the n bytes it is given,
    whatever follows them in memory: as by a call of mbrtowc for each
    character, from the state of an unfinished one [l], up to [wn] characters,
    the terminator, an invalid byte, or the end of the bytes, where an
    unfinished character is left in the state. It stores at most [wn]
    characters, reports the count, the source pointer and the state, and
    without a destination counts the same characters, using its 256 cells
    again and again, with no limit. *)
Theorem mbsnrtowcs_as_if single t rest addr wn l : bytes (t ++ rest) -> 0 ∈ rest -> Z.of_nat (length t) < 2 ^ 64 -> 0 <= wn < 2 ^ 64 -> pending_ok single l ->
  let n := Z.of_nat (length t) in
  let st := prefix_state l in
  let back := negb (length l =? 0)%nat && practical n wn in
  mbsnrtowcs single true (t ++ rest) addr n wn st =
    (let '(o, p, v) := chars single t st (Some (Z.to_nat wn)) in
     match v with
     | Full => mkResult wn o (Some (Z.of_nat p)) (if wn =? 0 then st else 0)
     | Ended => mkResult (Z.of_nat (length o)) (o ++ [0]) None 0
     | Invalid => mkResult ILSEQ o (Some (if back && (length o =? 0)%nat then -1 else Z.of_nat p)) 0
     | Short c => mkResult (Z.of_nat (length o)) o (Some n) c
     end) /\
  Z.of_nat (length (chars single t st (Some (Z.to_nat wn))).1.1) <= wn /\
  r_ret (mbsnrtowcs single false (t ++ rest) addr n wn st) =
    (let '(o, p, v) := chars single t st None in match v with Invalid => ILSEQ | _ => Z.of_nat (length o) end) /\
  r_out (mbsnrtowcs single false (t ++ rest) addr n wn st) = [] /\ r_src (mbsnrtowcs single false (t ++ rest) addr n wn st) = Some 0.
Proof.
  intros Hb Hz Hn Hwn Hl n st back.
  assert (Hgo : forall wcs w, 0 <= w < 2 ^ 64 -> (wcs = false -> w = 256) ->
    mbsn_rest single wcs (t ++ rest) (mbsn_strings (S (length (t ++ rest))) single wcs (t ++ rest) addr 0 n w 0 st []) =
    outcome_of wcs (negb (length l =? 0)%nat && practical n w) 0 0 st [] (chars single t st (limit_of wcs w))).
  { intros wcs w Hw Hc. pose proof (mbsn_go_spec single wcs (t ++ rest) addr (S (length (t ++ rest))) 0 (length t) w 0 l [] Hb ltac:(rewrite length_app; lia)
      ltac:(by rewrite Nat.add_0_l, drop_app_length) ltac:(rewrite length_app; lia) Hl Hn Hw Hc ltac:(lia) ltac:(lia)) as H.
    rewrite drop_0, take_app_length in H. exact H. }
  unfold mbsnrtowcs. rewrite (Hgo true wn Hwn ltac:(done)), (Hgo false 256 ltac:(lia) ltac:(done)). cbn [limit_of].
  pose proof (chars_limit single t st (Z.to_nat wn)) as Hlim. pose proof (chars_resumed single (Z.to_nat wn) t st None) as Hres.
  pose proof (chars_short single t st (Some (Z.to_nat wn))) as Hsh.
  destruct (chars single t st (Some (Z.to_nat wn))) as [[o p] v]. split; [|split; [cbn; lia|by destruct (chars single t st None) as [[o' p'] v']]].
  unfold outcome_of. fold back. destruct v; cbn [app]; rewrite ?app_nil_r, ?Z.add_0_l; try done.
  - destruct Hres as [Hf _]. destruct (Z.eqb_spec wn 0) as [->|].
    + assert (o = []) as -> by (destruct o; [done|cbn in Hlim; lia]). cbn. done.
    + destruct (Hf eq_refl ltac:(left; lia)) as (Ho & _). rewrite Ho. destruct (Nat.eqb_spec (Z.to_nat wn) 0); [lia|]. by rewrite Z2Nat.id by lia.
  - by rewrite (Hsh c eq_refl).
Qed.

Lemma mbsnrtowcs_as_if_witness :
  mbsnrtowcs false true ([0xac; 65; 66; 67; 0xf0; 0x9f; 0x98; 0x80; 68; 69; 70; 0xc3] ++ [0xa9; 0]) 0 12 9 (prefix_state [0xe2; 0x82]) =
    mkResult 8 [0x20ac; 65; 66; 67; 0x1f600; 68; 69; 70] (Some 12) (prefix_state [0xc3]).
Proof.
  assert (Hb : bytes ([0xac; 65; 66; 67; 0xf0; 0x9f; 0x98; 0x80; 68; 69; 70; 0xc3] ++ [0xa9; 0])) by (apply (bool_decide_unpack _); vm_compute; exact I).
  assert (Hz : 0 ∈ [0xa9; 0]) by (apply (bool_decide_unpack _); vm_compute; exact I).
  assert (Hl : pending_ok false [0xe2; 0x82]) by (split; [apply (bool_decide_unpack _); vm_compute; exact I|split; [reflexivity|discriminate]]).
  destruct (mbsnrtowcs_as_if false _ _ 0 9 _ Hb Hz ltac:(reflexivity) ltac:(lia) Hl) as [H _].
  match type of H with mbsnrtowcs _ _ _ _ ?n _ _ = _ => replace n with 12 in H by reflexivity end.
  rewrite H. vm_compute. reflexivity.
Defined.
