(* ===== verification/WcString.v ===== *)
(** * WcString: wide strings to multibyte strings and back.

    wcsrtombs (its two loops, the first of which writes four bytes without a
    test), wcstombs and wcsnrtombs over the encoder wcrtomb of [Utf8], against
    one reference, and the round trip with mbsrtowcs of [MbString]. A wide
    string is the list of the characters from its pointer on. *)

From S2P Require Import Prelude Utf8 MbString.

(** [**ws-1u >= 0x7fu] *)
Definition plain (w : Z) : bool := negb (u32 (w - 1) >=? 0x7f).

(** Without a destination: the number of bytes, [None] for -1. *)
Fixpoint wcs_count (fuel : nat) (single : bool) (ws : list Z) (i n : Z) : option Z :=
  match fuel with
  | O => None
  | S fuel =>
      let w := ws.[i] in
      if w =? 0 then Some n
      else if u32 w >=? 0x80 then
        let l := (wcrtomb single true w).1 in
        if l =? ILSEQ then None else wcs_count fuel single ws (i + 1) (u64 (n + l))
      else wcs_count fuel single ws (i + 1) (u64 (n + 1))
  end.

(** How the first loop, which runs while [n >= 4], goes on: it returns, or
    leaves the position, [n] and the bytes written to the second. *)
Fixpoint wcs_fast (fuel : nat) (single : bool) (ws : list Z) (N i n : Z) (s : list Z) : result + (Z * Z * list Z) :=
  match fuel with
  | O => inr (i, n, s)
  | S fuel =>
      if 4 <=? n then
        let w := ws.[i] in
        if negb (plain w) then
          if w =? 0 then inl (mkResult (u64 (N - n)) (s ++ [0]) None 0)
          else
            let '(l, b) := wcrtomb single true w in
            if l =? ILSEQ then inl (mkResult ILSEQ s (Some i) 0)
            else wcs_fast fuel single ws N (i + 1) (u64 (n - l)) (s ++ b)
        else wcs_fast fuel single ws N (i + 1) (u64 (n - 1)) (s ++ [u8 w])
      else inr (i, n, s)
  end.

Fixpoint wcs_slow (fuel : nat) (single : bool) (ws : list Z) (N i n : Z) (s : list Z) : result :=
  match fuel with
  | O => mkResult N s (Some i) 0
  | S fuel =>
      if n =? 0 then mkResult N s (Some i) 0
      else
        let w := ws.[i] in
        if negb (plain w) then
          if w =? 0 then mkResult (u64 (N - n)) (s ++ [0]) None 0
          else
            let '(l, b) := wcrtomb single true w in
            if l =? ILSEQ then mkResult ILSEQ s (Some i) 0
            else if l >? n then mkResult (u64 (N - n)) s (Some i) 0
            else wcs_slow fuel single ws N (i + 1) (u64 (n - l)) (s ++ b)
        else wcs_slow fuel single ws N (i + 1) (u64 (n - 1)) (s ++ [u8 w])
  end.

(** [dst]: the destination is not NULL. The state is not used. *)
Definition wcsrtombs (single dst : bool) (ws : list Z) (n : Z) : result :=
  let fuel := S (length ws) in
  if negb dst then
    match wcs_count fuel single ws 0 0 with
    | Some n => mkResult n [] (Some 0) 0
    | None => mkResult ILSEQ [] (Some 0) 0
    end
  else
    match wcs_fast fuel single ws n 0 n [] with
    | inl r => r
    | inr (i, n', s) => wcs_slow fuel single ws n i n' s
    end.
Definition wcstombs (single dst : bool) (ws : list Z) (n : Z) : result := wcsrtombs single dst ws n.

Definition MB_LEN_MAX : Z := 4.

Fixpoint wcsn_loop (fuel : nat) (single dst : bool) (ws : list Z) (i wn n cnt : Z) (s : list Z) : Z * list Z * option Z :=
  match fuel with
  | O => (cnt, s, Some i)
  | S fuel =>
      if wn =? 0 then (cnt, s, Some i)
      else
        let w := ws.[i] in
        let '(l, b) := wcrtomb single true w in
        if l =? ILSEQ then (ILSEQ, s, Some i)
        else if dst && (n <? MB_LEN_MAX) && (l >? n) then (cnt, s, Some i)
        else
          let '(s, n) := if dst then (s ++ b, u64 (n - l)) else (s, n) in
          if w =? 0 then (cnt, s, None)
          else wcsn_loop fuel single dst ws (i + 1) (u64 (wn - 1)) n (u64 (cnt + l)) s
  end.
Definition wcsnrtombs (single dst : bool) (ws : list Z) (wn n : Z) : result :=
  let n := if negb dst then 0 else n in
  let '(cnt, s, src) := wcsn_loop (S (length ws)) single dst ws 0 wn n 0 [] in
  mkResult cnt s (if dst then src else Some 0) 0.

(** ** The reference *)

(** As if by a call of wcrtomb for each character, the result stored when it
    fits in the [room] left: the bytes, the characters converted, the end.
    Up to [k] characters; [eager]: a character is judged even with no room. *)
Fixpoint emit (eager single : bool) (ws : list Z) (room k : option nat) : list Z * nat * verdict :=
  match ws with
  | [] => ([], O, Full)
  | w :: ws =>
      if decide (k = Some O \/ (eager = false /\ room = Some O)) then ([], O, Full)
      else
        let '(l, b) := wcrtomb single true w in
        if l =? ILSEQ then ([], O, Invalid)
        else if (if room is Some r then r <? length b else false)%nat then ([], O, Full)
        else if w =? 0 then ([], O, Ended)
        else
          let '(o, p, v) := emit eager single ws ((fun r => r - length b)%nat <$> room) (pred <$> k) in
          (b ++ o, S p, v)
  end.

(** What is reported of it. *)
Definition written (r : list Z * nat * verdict) : result :=
  let '(o, p, v) := r in
  match v with
  | Ended => mkResult (Z.of_nat (length o)) (o ++ [0]) None 0
  | Invalid => mkResult ILSEQ o (Some (Z.of_nat p)) 0
  | _ => mkResult (Z.of_nat (length o)) o (Some (Z.of_nat p)) 0
  end.

(** ** One character *)

Definition wide (ws : list Z) : Prop := Forall (fun w => - 2 ^ 31 <= w < 2 ^ 31) ws.
Definition added (s : list Z) (i : nat) (r : list Z * nat * verdict) : list Z * nat * verdict :=
  let '(o, p, v) := r in (s ++ o, (i + p)%nat, v).

Lemma plain_spec w : - 2 ^ 31 <= w < 2 ^ 31 -> plain w = (1 <=? w) && (w <=? 127).
Proof.
  intros Hw. unfold plain. destruct (Z.leb_spec 1 w) as [H|H]; cbn [andb].
  - rewrite u32_nonneg by lia. destruct (Z.geb_spec (w - 1) 127), (Z.leb_spec w 127); done || lia.
  - rewrite u32_neg by lia. destruct (Z.geb_spec (w - 1 + 2 ^ 32) 127); done || lia.
Qed.

Lemma wcrtomb_plain single w : - 2 ^ 31 <= w < 2 ^ 31 -> plain w = true -> wcrtomb single true w = (1, [u8 w]) /\ w <> 0.
Proof.
  intros Hw Hp. rewrite plain_spec in Hp by done. apply andb_prop in Hp as [H1%Z.leb_le H2%Z.leb_le]. split; [|lia].
  unfold wcrtomb. cbn [negb]. rewrite u32_nonneg by lia. destruct (Z.ltb_spec w 128); [done|lia].
Qed.

Lemma wcrtomb_zero single : wcrtomb single true 0 = (1, [0]).
Proof. done. Qed.

Lemma wcrtomb_length single w l b : wcrtomb single true w = (l, b) -> (l =? ILSEQ) = true /\ b = [] \/ (l =? ILSEQ) = false /\ l = Z.of_nat (length b) /\ (1 <= length b <= 4)%nat.
Proof. unfold wcrtomb. cbn [negb]. intros H. repeat case_match; injection H as <- <-; cbn; first [by left|right; split; [done|]; split; [done|lia]]. Qed.

(** In the single-byte locale a character is one byte. *)
Lemma wide_lookup ws i w rest : wide ws -> drop i ws = w :: rest -> ws.[Z.of_nat i] = w /\ drop (S i) ws = rest /\ - 2 ^ 31 <= w < 2 ^ 31.
Proof.
  intros Hw E. assert (Hi : ws !! i = Some w) by (rewrite <- (Nat.add_0_r i), <- lookup_drop, E; done). split; [|split].
  - unfold aget. by rewrite Nat2Z.id, Hi.
  - rewrite (drop_S _ _ _ Hi) in E. by injection E.
  - exact (Forall_lookup_1 _ _ _ _ Hw Hi).
Qed.

Lemma added_app s i b o p v : added s i (b ++ o, S p, v) = added (s ++ b) (S i) (o, p, v).
Proof. cbn [added]. rewrite <- app_assoc. by replace (i + S p)%nat with (S i + p)%nat by lia. Qed.

(** The reference, one character. *)
Lemma emit_cons eager single w ws room k : k <> Some O -> (eager = false -> room <> Some O) ->
  emit eager single (w :: ws) room k =
    let '(l, b) := wcrtomb single true w in
    if l =? ILSEQ then ([], O, Invalid)
    else if (if room is Some r then r <? length b else false)%nat then ([], O, Full)
    else if w =? 0 then ([], O, Ended)
    else let '(o, p, v) := emit eager single ws ((fun r => r - length b)%nat <$> room) (pred <$> k) in (b ++ o, S p, v).
Proof. intros Hk Hr. cbn [emit]. destruct (decide _) as [[->|[He ->]]|]; [done|by specialize (Hr He)|done]. Qed.

Lemma emit_stop eager single ws room : emit eager single ws room (Some O) = ([], O, Full).
Proof. destruct ws; [done|]. cbn [emit]. destruct (decide _) as [|n]; [done|]. exfalso. apply n. by left. Qed.
Lemma emit_full single ws k : emit false single ws (Some O) k = ([], O, Full).
Proof. destruct ws; [done|]. cbn [emit]. destruct (decide _) as [|n]; [done|]. exfalso. apply n. by right. Qed.

(** ** wcsrtombs *)

Lemma wcs_slow_spec single ws N fuel : forall i n s, wide ws -> 0 ∈ drop i ws -> (length (drop i ws) < fuel)%nat ->
  0 <= n -> 0 <= N < 2 ^ 64 -> N - n = Z.of_nat (length s) ->
  let r := added s i (emit false single (drop i ws) (Some (Z.to_nat n)) None) in
  wcs_slow fuel single ws N (Z.of_nat i) n s = written r /\ Z.of_nat (length r.1.1) <= N /\ (r.2 = Ended -> Z.of_nat (length r.1.1) < N).
Proof.
  induction fuel as [|fuel IH]; intros i n s Hw Hz Hf Hn HN Hs; [lia|]. cbn [wcs_slow]. destruct (Z.eqb_spec n 0) as [->|Hn0].
  { change (Z.to_nat 0) with O. rewrite emit_full. cbn [added written fst snd]. rewrite app_nil_r, Nat.add_0_r. split; [|split; [lia|done]]. f_equal. lia. }
  destruct (drop i ws) as [|w rest] eqn:E; [set_solver|]. destruct (wide_lookup ws i w rest Hw E) as (-> & F & Hwr). cbn [length] in Hf.
  rewrite emit_cons by (done || intros _ [=]; lia). assert (Hu : forall m, 0 <= m <= n -> u64 m = m) by (intros m Hm; unfold u64; apply wrap_small; unfold word; lia).
  destruct (plain w) eqn:Ep; cbn [negb].
  - destruct (wcrtomb_plain single w Hwr Ep) as [-> H0]. change (1 =? ILSEQ) with false. cbv iota. cbn [length]. destruct (Nat.ltb_spec (Z.to_nat n) 1); [lia|].
    destruct (Z.eqb_spec w 0); [done|]. specialize (IH (S i) (n - 1) (s ++ [u8 w]) Hw). rewrite F in IH.
    specialize (IH ltac:(set_solver) ltac:(lia) ltac:(lia) HN ltac:(rewrite length_app; cbn; lia)).
    rewrite Hu by lia. replace (Z.of_nat i + 1) with (Z.of_nat (S i)) by lia. cbn [option_fmap option_map fmap]. replace (Z.to_nat n - 1)%nat with (Z.to_nat (n - 1)) by lia.
    destruct (emit _ _ _ _ _) as [[o p] v]. rewrite added_app. exact IH.
  - destruct (Z.eqb_spec w 0) as [->|H0].
    { rewrite wcrtomb_zero. change (1 =? ILSEQ) with false. cbv iota. cbn [length]. destruct (Nat.ltb_spec (Z.to_nat n) 1); [lia|]. cbn [added written fst snd].
      split; [|split; [rewrite app_nil_r; lia|intros _; rewrite app_nil_r; lia]]. rewrite app_nil_r. f_equal. unfold u64. rewrite wrap_small by (unfold word; lia). lia. }
    destruct (wcrtomb single true w) as [l b] eqn:Ew. destruct (wcrtomb_length single w l b Ew) as [[-> ->]|(-> & -> & Hb)].
    { cbn [added written fst snd]. rewrite app_nil_r, Nat.add_0_r. split; [done|]. split; [lia|done]. }
    destruct (Z.gtb_spec (Z.of_nat (length b)) n), (Nat.ltb_spec (Z.to_nat n) (length b)); try lia.
    { cbn [added written fst snd]. rewrite app_nil_r, Nat.add_0_r. split; [|split; [lia|done]]. f_equal. unfold u64. rewrite wrap_small by (unfold word; lia). lia. }
    specialize (IH (S i) (n - Z.of_nat (length b)) (s ++ b) Hw). rewrite F in IH.
    specialize (IH ltac:(set_solver) ltac:(lia) ltac:(lia) HN ltac:(rewrite length_app; lia)).
    rewrite Hu by lia. replace (Z.of_nat i + 1) with (Z.of_nat (S i)) by lia. cbn [option_fmap option_map fmap].
    replace (Z.to_nat n - length b)%nat with (Z.to_nat (n - Z.of_nat (length b))) by lia.
    destruct (emit _ _ _ _ _) as [[o p] v]. rewrite added_app. exact IH.
Qed.

(** The first loop leaves less than four bytes of room, or returns. *)
Lemma wcs_fast_spec single ws N fuel : forall i n s, wide ws -> 0 ∈ drop i ws -> (length (drop i ws) < fuel)%nat ->
  0 <= n -> 0 <= N < 2 ^ 64 -> N - n = Z.of_nat (length s) ->
  let r := added s i (emit false single (drop i ws) (Some (Z.to_nat n)) None) in
  match wcs_fast fuel single ws N (Z.of_nat i) n s with
  | inl res => res = written r /\ Z.of_nat (length r.1.1) <= N /\ (r.2 = Ended -> Z.of_nat (length r.1.1) < N)
  | inr (i', n', s') => exists j, i' = Z.of_nat j /\ 0 ∈ drop j ws /\ (j <= length ws)%nat /\ 0 <= n' < 4 /\ N - n' = Z.of_nat (length s') /\
      r = added s' j (emit false single (drop j ws) (Some (Z.to_nat n')) None)
  end.
Proof.
  induction fuel as [|fuel IH]; intros i n s Hw Hz Hf Hn HN Hs; [lia|]. cbn [wcs_fast].
  assert (Hi : (i <= length ws)%nat) by (destruct (Nat.le_gt_cases i (length ws)); [done|rewrite drop_ge in Hz by lia; set_solver]).
  destruct (Z.leb_spec 4 n) as [Hn4|Hn4]; [|by exists i]. assert (Hu : forall m, 0 <= m <= n -> u64 m = m) by (intros m Hm; unfold u64; apply wrap_small; unfold word; lia).
  destruct (drop i ws) as [|w rest] eqn:E; [set_solver|]. destruct (wide_lookup ws i w rest Hw E) as (-> & F & Hwr). cbn [length] in Hf.
  rewrite emit_cons by (done || intros _ [=]; lia).
  assert (Hgo : forall b, (1 <= length b <= 4)%nat -> w <> 0 -> wcrtomb single true w = (Z.of_nat (length b), b) ->
    let r := added s i (let '(o, p, v) := emit false single rest (Some (Z.to_nat n - length b)%nat) None in (b ++ o, S p, v)) in
    match wcs_fast fuel single ws N (Z.of_nat i + 1) (u64 (n - Z.of_nat (length b))) (s ++ b) with
    | inl res => res = written r /\ Z.of_nat (length r.1.1) <= N /\ (r.2 = Ended -> Z.of_nat (length r.1.1) < N)
    | inr (i', n', s') => exists j, i' = Z.of_nat j /\ 0 ∈ drop j ws /\ (j <= length ws)%nat /\ 0 <= n' < 4 /\ N - n' = Z.of_nat (length s') /\
        r = added s' j (emit false single (drop j ws) (Some (Z.to_nat n')) None)
    end).
  { intros b Hb H0 Ew. specialize (IH (S i) (n - Z.of_nat (length b)) (s ++ b) Hw). rewrite F in IH.
    specialize (IH ltac:(set_solver) ltac:(lia) ltac:(lia) HN ltac:(rewrite length_app; lia)).
    rewrite Hu by lia. replace (Z.of_nat i + 1) with (Z.of_nat (S i)) by lia. replace (Z.to_nat n - length b)%nat with (Z.to_nat (n - Z.of_nat (length b))) by lia.
    destruct (emit _ _ _ _ _) as [[o p] v]. rewrite added_app. exact IH. }
  destruct (plain w) eqn:Ep; cbn [negb].
  - destruct (wcrtomb_plain single w Hwr Ep) as [Ew H0]. rewrite Ew. change (1 =? ILSEQ) with false. cbv iota. cbn [length]. destruct (Nat.ltb_spec (Z.to_nat n) 1); [lia|].
    destruct (Z.eqb_spec w 0); [done|]. cbn [option_fmap option_map fmap]. exact (Hgo [u8 w] ltac:(cbn; lia) H0 Ew).
  - destruct (Z.eqb_spec w 0) as [->|H0].
    { rewrite wcrtomb_zero. change (1 =? ILSEQ) with false. cbv iota. cbn [length]. destruct (Nat.ltb_spec (Z.to_nat n) 1); [lia|]. cbn [added written fst snd].
      rewrite app_nil_r. split; [|split; [lia|intros _; lia]]. f_equal. unfold u64. rewrite wrap_small by (unfold word; lia). lia. }
    destruct (wcrtomb single true w) as [l b] eqn:Ew. destruct (wcrtomb_length single w l b Ew) as [[-> ->]|(-> & -> & Hb)].
    { cbn [added written fst snd]. rewrite app_nil_r, Nat.add_0_r. split; [done|]. split; [lia|done]. }
    destruct (Nat.ltb_spec (Z.to_nat n) (length b)); [lia|]. cbn [option_fmap option_map fmap]. exact (Hgo b Hb H0 eq_refl).
Qed.

(** Counting: no room to run out of, so at most four bytes a character. *)
Lemma wcs_count_spec single ws fuel : forall i n, wide ws -> 0 ∈ drop i ws -> (length (drop i ws) < fuel)%nat ->
  0 <= n -> n + 4 * Z.of_nat (length (drop i ws)) < 2 ^ 64 ->
  wcs_count fuel single ws (Z.of_nat i) n =
    let '(o, p, v) := emit false single (drop i ws) None None in
    match v with Invalid => None | _ => Some (n + Z.of_nat (length o)) end.
Proof.
  induction fuel as [|fuel IH]; intros i n Hw Hz Hf Hn Hb; [lia|]. cbn [wcs_count].
  destruct (drop i ws) as [|w rest] eqn:E; [set_solver|]. destruct (wide_lookup ws i w rest Hw E) as (-> & F & Hwr). cbn [length] in Hf, Hb.
  rewrite emit_cons by done. destruct (Z.eqb_spec w 0) as [->|H0]; [rewrite wcrtomb_zero; change (1 =? ILSEQ) with false; cbn; by rewrite Z.add_0_r|].
  assert (Hgo : forall b, (1 <= length b <= 4)%nat -> wcs_count fuel single ws (Z.of_nat i + 1) (u64 (n + Z.of_nat (length b))) =
    (let '(o, p, v) := let '(o, p, v) := emit false single rest None None in (b ++ o, S p, v) in match v with Invalid => None | _ => Some (n + Z.of_nat (length o)) end)).
  { intros b Hl. specialize (IH (S i) (n + Z.of_nat (length b)) Hw). rewrite F in IH. specialize (IH ltac:(set_solver) ltac:(lia) ltac:(lia) ltac:(lia)).
    unfold u64. rewrite wrap_small by (unfold word; lia). replace (Z.of_nat i + 1) with (Z.of_nat (S i)) by lia. rewrite IH.
    destruct (emit _ _ _ _ _) as [[o p] v]. rewrite length_app. by replace (n + Z.of_nat (length b + length o)) with (n + Z.of_nat (length b) + Z.of_nat (length o)) by lia. }
  destruct (wcrtomb single true w) as [l b] eqn:Ew. cbn [fst]. destruct (wcrtomb_length single w l b Ew) as [[Hl ->]|(Hl & -> & Hlen)]; rewrite Hl.
  - assert (Hge : (u32 w >=? 128) = true); [|by rewrite Hge]. unfold wcrtomb in Ew. cbn [negb] in Ew. destruct (Z.geb_spec (u32 w) 128), (Z.ltb_spec (u32 w) 128); try done; lia.
  - cbn [option_fmap option_map fmap]. destruct (u32 w >=? 128) eqn:Hge; [by apply Hgo|]. specialize (Hgo b Hlen).
    replace (length b) with 1%nat in Hgo; [exact Hgo|]. unfold wcrtomb in Ew. cbn [negb] in Ew. destruct (Z.geb_spec (u32 w) 128), (Z.ltb_spec (u32 w) 128); try done; try lia. by injection Ew as ? <-.
Qed.

(** ** wcsnrtombs *)

Lemma wcsn_loop_spec single dst ws fuel : forall i wn n cnt s, wide ws -> (0 ∈ drop i ws \/ wn <= Z.of_nat (length (drop i ws))) ->
  (length (drop i ws) < fuel)%nat -> 0 <= wn < 2 ^ 64 -> 0 <= n < 2 ^ 64 -> 0 <= cnt -> cnt + 4 * Z.of_nat (length (drop i ws)) < 2 ^ 64 ->
  wcsn_loop fuel single dst ws (Z.of_nat i) wn n cnt s =
    let '(o, p, v) := emit true single (drop i ws) (if dst then Some (Z.to_nat n) else None) (Some (Z.to_nat wn)) in
    (match v with Invalid => ILSEQ | _ => cnt + Z.of_nat (length o) end,
     if dst then s ++ o ++ (match v with Ended => [0] | _ => [] end) else s,
     match v with Ended => None | _ => Some (Z.of_nat (i + p)) end).
Proof.
  induction fuel as [|fuel IH]; intros i wn n cnt s Hw Hz Hf Hwn Hn Hc Hb; [lia|]. cbn [wcsn_loop]. destruct (Z.eqb_spec wn 0) as [->|Hw0].
  { change (Z.to_nat 0) with O. rewrite emit_stop. cbn [length app]. rewrite app_nil_r, Nat.add_0_r, Z.add_0_r. by destruct dst. }
  destruct (drop i ws) as [|w rest] eqn:E; [destruct Hz; [set_solver|cbn in *; lia]|]. destruct (wide_lookup ws i w rest Hw E) as (-> & F & Hwr). cbn [length] in Hf, Hb, Hz.
  rewrite emit_cons by (done || intros [=]; lia). destruct (wcrtomb single true w) as [l b] eqn:Ew.
  destruct (wcrtomb_length single w l b Ew) as [[-> ->]|(-> & -> & Hlen)]; [cbn [app]; rewrite app_nil_r, Nat.add_0_r; by destruct dst|].
  assert (Hroom : (dst && (n <? MB_LEN_MAX) && (Z.of_nat (length b) >? n)) = (match (if dst then Some (Z.to_nat n) else None) with Some r => (r <? length b)%nat | None => false end)).
  { destruct dst; [|done]. unfold MB_LEN_MAX. destruct (Z.ltb_spec n 4), (Z.gtb_spec (Z.of_nat (length b)) n), (Nat.ltb_spec (Z.to_nat n) (length b)); cbn; done || lia. }
  rewrite Hroom. destruct (match (if dst then _ else _) with Some r => _ | None => _ end) eqn:Er; [cbn [app length]; rewrite app_nil_r, Nat.add_0_r, Z.add_0_r; by destruct dst|].
  destruct (Z.eqb_spec w 0) as [->|H0].
  { rewrite wcrtomb_zero in Ew. injection Ew as _ <-. destruct dst; cbn [app length]; by rewrite Z.add_0_r. }
  assert (Hz' : 0 ∈ drop (S i) ws \/ wn - 1 <= Z.of_nat (length (drop (S i) ws))) by (rewrite F; destruct Hz; [left; set_solver|right; lia]).
  assert (Hu : u64 (wn - 1) = wn - 1 /\ u64 (cnt + Z.of_nat (length b)) = cnt + Z.of_nat (length b)) by (unfold u64; rewrite !wrap_small by (unfold word; lia); done).
  destruct Hu as [Hu1 Hu2].
  destruct dst.
  - apply Nat.ltb_ge in Er. specialize (IH (S i) (wn - 1) (n - Z.of_nat (length b)) (cnt + Z.of_nat (length b)) (s ++ b) Hw Hz'). rewrite F in IH.
    specialize (IH ltac:(lia) ltac:(lia) ltac:(lia) ltac:(lia) ltac:(lia)). rewrite Hu1, Hu2. replace (u64 (n - Z.of_nat (length b))) with (n - Z.of_nat (length b)) by (unfold u64; rewrite wrap_small by (unfold word; lia); done).
    replace (Z.of_nat i + 1) with (Z.of_nat (S i)) by lia. rewrite IH. cbn [option_fmap option_map fmap].
    replace (Z.to_nat n - length b)%nat with (Z.to_nat (n - Z.of_nat (length b))) by lia. replace (pred (Z.to_nat wn)) with (Z.to_nat (wn - 1)) by lia.
    destruct (emit _ _ _ _ _) as [[o p] v]. rewrite length_app, <- !app_assoc. replace (S i + p)%nat with (i + S p)%nat by lia.
    by replace (cnt + Z.of_nat (length b) + Z.of_nat (length o)) with (cnt + Z.of_nat (length b + length o)) by lia.
  - specialize (IH (S i) (wn - 1) n (cnt + Z.of_nat (length b)) s Hw Hz'). rewrite F in IH.
    specialize (IH ltac:(lia) ltac:(lia) ltac:(lia) ltac:(lia) ltac:(lia)). rewrite Hu1, Hu2. replace (Z.of_nat i + 1) with (Z.of_nat (S i)) by lia. rewrite IH.
    cbn [option_fmap option_map fmap]. replace (pred (Z.to_nat wn)) with (Z.to_nat (wn - 1)) by lia.
    destruct (emit _ _ _ _ _) as [[o p] v]. rewrite length_app. replace (S i + p)%nat with (i + S p)%nat by lia.
    by replace (cnt + Z.of_nat (length b) + Z.of_nat (length o)) with (cnt + Z.of_nat (length b + length o)) by lia.
Qed.

(** ** The two functions as iterations of wcrtomb *)

Lemma added_nil r : added [] 0 r = r.
Proof. by destruct r as [[o p] v]. Qed.

Lemma wcsrtombs_emit single ws n : wide ws -> 0 ∈ ws -> 0 <= n < 2 ^ 64 ->
  let r := emit false single ws (Some (Z.to_nat n)) None in
  wcsrtombs single true ws n = written r /\ Z.of_nat (length r.1.1) <= n /\ (r.2 = Ended -> Z.of_nat (length r.1.1) < n).
Proof.
  intros Hw Hz Hn. unfold wcsrtombs. cbn [negb].
  pose proof (wcs_fast_spec single ws n (S (length ws)) 0 n [] Hw ltac:(by rewrite drop_0) ltac:(rewrite drop_0; apply Nat.lt_succ_diag_r) (proj1 Hn) Hn ltac:(by rewrite Z.sub_diag)) as H.
  rewrite drop_0 in H. change (Z.of_nat 0) with 0 in H. rewrite added_nil in H.
  destruct (wcs_fast _ _ _ _ _ _ _) as [res|[[i' n'] s']]; [exact H|]. destruct H as (j & -> & Hzj & Hj & Hn' & Hs' & ->).
  apply wcs_slow_spec; try done; [rewrite length_drop; lia|lia].
Qed.

(** C29: wcsrtombs and wcsnrtombs do what ISO C says: they encode as by a
    call of wcrtomb for each character, store a character only when all its
    bytes fit, stop at the terminator (stored when it fits, not counted), at a
    character that has no encoding or, for wcsnrtombs, after wn characters,
    and report the count and the source pointer; without a destination they
    count. No more than n bytes are ever written, although the first loop of
    wcsrtombs writes without looking at the room left. With no room left
    wcsrtombs stops before it looks at the next character, wcsnrtombs after. *)
Theorem wcsrtombs_as_if single ws n wn : wide ws -> Z.of_nat (length ws) < 2 ^ 62 -> 0 <= n < 2 ^ 64 -> 0 <= wn < 2 ^ 64 ->
  (0 ∈ ws ->
    wcsrtombs single true ws n = written (emit false single ws (Some (Z.to_nat n)) None) /\
    Z.of_nat (length (r_out (wcsrtombs single true ws n))) <= n /\
    wcsrtombs single false ws n =
      (let '(o, p, v) := emit false single ws None None in mkResult (match v with Invalid => ILSEQ | _ => Z.of_nat (length o) end) [] (Some 0) 0)) /\
  (0 ∈ ws \/ wn <= Z.of_nat (length ws) ->
    wcsnrtombs single true ws wn n = written (emit true single ws (Some (Z.to_nat n)) (Some (Z.to_nat wn))) /\
    wcsnrtombs single false ws wn n =
      (let '(o, p, v) := emit true single ws None (Some (Z.to_nat wn)) in mkResult (match v with Invalid => ILSEQ | _ => Z.of_nat (length o) end) [] (Some 0) 0)).
Proof.
  intros Hw Hlen Hn Hwn. split; intros Hz.
  - assert (Hr : wcsrtombs single true ws n = written (emit false single ws (Some (Z.to_nat n)) None) /\ Z.of_nat (length (r_out (wcsrtombs single true ws n))) <= n); [|split; [apply Hr|split; [apply Hr|]]].
    + pose proof (wcsrtombs_emit single ws n Hw Hz Hn) as Hsum. cbv zeta in Hsum. destruct Hsum as (-> & H1 & H2). split; [done|]. destruct (emit _ _ _ _ _) as [[o p] v]. cbn [fst snd] in *.
      destruct v; cbn [written r_out]; [exact H1|rewrite length_app, Nat2Z.inj_add; cbn [length]; specialize (H2 eq_refl); lia|exact H1..].
    + unfold wcsrtombs. cbn [negb]. pose proof (wcs_count_spec single ws (S (length ws)) 0 0 Hw ltac:(by rewrite drop_0) ltac:(rewrite drop_0; apply Nat.lt_succ_diag_r) ltac:(lia) ltac:(rewrite drop_0; lia)) as H.
      rewrite drop_0 in H. change (Z.of_nat 0) with 0 in H. rewrite H. destruct (emit false single ws None None) as [[o p] v]. by destruct v.
  - unfold wcsnrtombs. cbn [negb].
    pose proof (wcsn_loop_spec single true ws (S (length ws)) 0 wn n 0 [] Hw ltac:(by rewrite drop_0) ltac:(rewrite drop_0; apply Nat.lt_succ_diag_r) Hwn Hn ltac:(lia) ltac:(rewrite drop_0; lia)) as H1.
    pose proof (wcsn_loop_spec single false ws (S (length ws)) 0 wn 0 0 [] Hw ltac:(by rewrite drop_0) ltac:(rewrite drop_0; apply Nat.lt_succ_diag_r) Hwn ltac:(lia) ltac:(lia) ltac:(rewrite drop_0; lia)) as H2.
    rewrite drop_0 in H1, H2. change (Z.of_nat 0) with 0 in *. rewrite H1, H2. split.
    + destruct (emit true single ws (Some (Z.to_nat n)) (Some (Z.to_nat wn))) as [[o p] v]. destruct v; cbn [written app]; by rewrite ?app_nil_r.
    + destruct (emit true single ws None (Some (Z.to_nat wn))) as [[o p] v]. by destruct v.
Qed.

Lemma wcsrtombs_as_if_witness :
  let ws := [65; 0x20ac; 0x1f600; 0xe9; 0; 7] in
  wcsrtombs false true ws 9 = mkResult 8 [65; 0xe2; 0x82; 0xac; 0xf0; 0x9f; 0x98; 0x80] (Some 3) 0 /\
  wcsrtombs false false ws 0 = mkResult 10 [] (Some 0) 0 /\
  wcsnrtombs false true ws 2 9 = mkResult 4 [65; 0xe2; 0x82; 0xac] (Some 2) 0.
Proof.
  intros ws. assert (Hw : wide ws) by (apply (bool_decide_unpack _); vm_compute; exact I).
  assert (Hz : 0 ∈ ws) by (apply (bool_decide_unpack _); vm_compute; exact I).
  destruct (wcsrtombs_as_if false ws 9 2 Hw ltac:(reflexivity) ltac:(lia) ltac:(lia)) as [H1 H2].
  destruct (H1 Hz) as (E1 & _ & E2). destruct (H2 (or_introl Hz)) as [E3 _].
  split; [rewrite E1; vm_compute; reflexivity|]. split; [etrans; [|etrans; [exact E2|vm_compute; reflexivity]]; reflexivity|rewrite E3; vm_compute; reflexivity].
Defined.

(** ** There and back *)

Import Unicode.

Definition text (cs : list Z) : Prop := Forall (fun c => scalar c = true /\ c <> 0) cs.
Definition encoded (cs : list Z) : list Z := concat (map encode cs).

Lemma text_wide cs rest : text cs -> wide rest -> wide (cs ++ 0 :: rest).
Proof.
  intros Hc Hr. apply Forall_app. split.
  - eapply Forall_impl; [exact Hc|]. intros c [Hs _]. apply scalar_range in Hs. lia.
  - apply Forall_cons. split; [lia|done].
Qed.

Lemma encoded_bytes cs : text cs -> bytes (encoded cs).
Proof.
  induction 1 as [|c cs [Hs _] _ IH]; [apply List.Forall_nil|]. unfold encoded. cbn [map concat]. apply Forall_app. split; [by apply encode_bytes|exact IH].
Qed.

Lemma emit_text cs rest n : text cs -> (length (encoded cs) < n)%nat ->
  emit false false (cs ++ 0 :: rest) (Some n) None = (encoded cs, length cs, Ended).
Proof.
  intros Hc. revert n. induction Hc as [|c cs [Hs H0] Hc IH]; intros n Hn.
  - cbn [app]. rewrite emit_cons by (done || intros _ [=]; lia). rewrite wcrtomb_zero. change (1 =? ILSEQ) with false. cbv iota. cbn [length].
    destruct (Nat.ltb_spec n 1); [lia|done].
  - unfold encoded in *. cbn [app map concat length] in *. rewrite length_app in Hn. rewrite emit_cons by (done || intros _ [=]; lia).
    rewrite wcrtomb_encode, Hs by (apply scalar_range in Hs; lia).
    destruct (Z.eqb_spec (Z.of_nat (length (encode c))) ILSEQ) as [E|_].
    { exfalso. revert E. unfold encode. repeat case_match; done. }
    destruct (Nat.ltb_spec n (length (encode c))); [lia|]. destruct (Z.eqb_spec c 0); [done|]. cbn [option_fmap option_map fmap]. by rewrite IH by lia.
Qed.

Lemma chars_text cs rest k : text cs -> bytes rest -> (length cs < k)%nat ->
  chars false (encoded cs ++ 0 :: rest) 0 (Some k) = (cs, length (encoded cs), Ended).
Proof.
  intros Hc Hr. revert k. induction Hc as [|c cs [Hs H0] Hc IH]; intros k Hk.
  - cbn [encoded map concat app]. apply chars_end. intros [=]. lia.
  - unfold encoded in *. cbn [map concat length] in *. rewrite <- app_assoc. rewrite chars_eq. destruct (decide _) as [[=]|_]; [lia|].
    assert (Hb : bytes (encode c ++ concat (map encode cs) ++ 0 :: rest)).
    { apply Forall_app. split; [by apply encode_bytes|]. apply Forall_app. split; [by apply encoded_bytes|]. apply Forall_cons. split; [split; done|done]. }
    set (tail := concat (map encode cs) ++ 0 :: rest) in *. pose proof (mbrtowc_first (encode c ++ tail) [] Hb) as E. rewrite app_nil_r in E.
    rewrite E, decode_encode by done. cbn [conv_of out ret]. destruct (Z.eqb_spec c 0); [done|]. cbn [ret out].
    assert (Hl : (1 <= length (encode c))%nat) by (unfold encode; repeat case_match; cbn; lia).
    rewrite Nat.sub_0_r. destruct (Z.eqb_spec (Z.of_nat (length (encode c))) 0); [lia|]. rewrite Nat2Z.id, drop_app_length. cbn [option_fmap option_map fmap].
    unfold tail. rewrite IH by lia. by rewrite length_app.
Qed.

(** A wide string of characters of Unicode survives wcsrtombs and
    mbsrtowcs: the first stores the UTF-8 of the characters and a terminator
    when there is room for them, the second, whatever follows in memory and
    however the bytes are aligned, stores the characters and a terminator;
    both return the counts and set the source pointer to NULL. *)
Theorem mbs_roundtrip cs after rest addr n wn : text cs -> wide after -> bytes rest ->
  Z.of_nat (length (encoded cs)) < n < 2 ^ 64 -> Z.of_nat (length cs) < wn < 2 ^ 64 ->
  let w := wcsrtombs false true (cs ++ 0 :: after) n in
  w = mkResult (Z.of_nat (length (encoded cs))) (encoded cs ++ [0]) None 0 /\
  mbsrtowcs false true (r_out w ++ rest) addr wn 0 = mkResult (Z.of_nat (length cs)) (cs ++ [0]) None 0.
Proof.
  intros Hc Ha Hr Hn Hwn w. assert (Hw : w = mkResult (Z.of_nat (length (encoded cs))) (encoded cs ++ [0]) None 0).
  { unfold w. destruct (wcsrtombs_emit false (cs ++ 0 :: after) n (text_wide _ _ Hc Ha) ltac:(set_solver) ltac:(lia)) as [-> _].
    by rewrite emit_text by (done || lia). }
  split; [exact Hw|]. rewrite Hw. cbn [r_out]. rewrite <- app_assoc. cbn [app].
  assert (Ht : terminated (encoded cs ++ 0 :: rest)).
  { split; [|set_solver]. apply Forall_app. split; [by apply encoded_bytes|]. apply Forall_cons. split; [split; done|done]. }
  pose proof (mbsrtowcs_store (encoded cs ++ 0 :: rest) addr wn [] Ht (List.Forall_nil _) eq_refl ltac:(lia) ltac:(done)) as H.
  change (prefix_state []) with 0 in H. rewrite H, chars_text by (done || lia). done.
Qed.

Lemma mbs_roundtrip_witness :
  mbsrtowcs false true ([65; 0xe2; 0x82; 0xac; 0xf0; 0x9f; 0x98; 0x80; 0] ++ [255]) 0x1000 10 0 = mkResult 3 [65; 0x20ac; 0x1f600; 0] None 0.
Proof.
  assert (Hc : text [65; 0x20ac; 0x1f600]) by (apply (bool_decide_unpack _); vm_compute; exact I).
  assert (Hr : bytes [255]) by (apply (bool_decide_unpack _); vm_compute; exact I).
  exact (proj2 (mbs_roundtrip [65; 0x20ac; 0x1f600] [] [255] 0x1000 20 10 Hc (List.Forall_nil _) Hr ltac:(done) ltac:(done))).
Defined.
