(* ===== verification/Vis.v ===== *)
(** * Vis: visual encoding of bytes and its decoder
    (src/src/misc/vis.c, src/src/misc/unvis.c).

    Destinations are arrays of bytes, a store beyond one is [None]; a source is
    the bytes of memory from a pointer on, behind which there is a NUL. The
    theorems: what is encoded is decoded again, in the space the code promises;
    the bounded functions do what the others do, within their bound. *)

From S2P Require Import Prelude.

(** ** vis.h *)
Abbreviation VIS_OCTAL := 1.
Abbreviation VIS_CSTYLE := 2.
Abbreviation VIS_SP := 4.
Abbreviation VIS_TAB := 8.
Abbreviation VIS_NL := 16.
Abbreviation VIS_SAFE := 32.
Abbreviation VIS_NOSLASH := 64.
Abbreviation VIS_GLOB := 256.
Abbreviation VIS_DQ := 512.
Abbreviation VIS_ALL := 1024.
Abbreviation UNVIS_SYNBAD := (-1).
Abbreviation UNVIS_VALID := 1.
Abbreviation UNVIS_END := 1.
Abbreviation UNVIS_VALIDPUSH := 2.
Abbreviation UNVIS_NOCHAR := 3.

Definition has (flag bit : Z) : bool := negb (flag .& bit =? 0).
Definition isoctal (c : Z) : bool := (48 <=? u8 c) && (u8 c <=? 55).
Definition isgraph (c : Z) : bool := u32 (c - 0x21) <? 0x5e.
Definition isascii (c : Z) : bool := u32 c <? 128.
Definition iscntrl (c : Z) : bool := (u32 c <? 0x20) || (c =? 0x7f).
(** [*], [?], [[] and [#]. *)
Definition isglob (c : Z) : bool := (c =? 42) || (c =? 63) || (c =? 91) || (c =? 35).

(** ** The encoder *)

Definition isvisible (c flag : Z) : bool :=
  ((c =? 92) || negb (has flag VIS_ALL)) &&
  ((u32 c <=? 255) && isascii (u8 c) && (negb (isglob c) || negb (has flag VIS_GLOB)) && isgraph (u8 c) ||
   negb (has flag VIS_SP) && (c =? 32) ||
   negb (has flag VIS_TAB) && (c =? 9) ||
   negb (has flag VIS_NL) && (c =? 10) ||
   has flag VIS_SAFE && ((c =? 8) || (c =? 7) || (c =? 13) || isgraph (u8 c))).

(** The letter of a C escape. *)
Definition cstyle (c : Z) : option Z :=
  match c with
  | 10 => Some 110 | 13 => Some 114 | 8 => Some 98 | 7 => Some 97 | 11 => Some 118 | 9 => Some 116 | 12 => Some 102 | 32 => Some 115 | 0 => Some 48
  | _ => None
  end.

(** The bytes that vis stores before the NUL. *)
Definition vis_bytes (c flag nextc : Z) : list Z :=
  if isvisible c flag then
    (if (c =? 34) && has flag VIS_DQ || (c =? 92) && negb (has flag VIS_NOSLASH) then [92] else []) ++ [u8 c]
  else
    match (if has flag VIS_CSTYLE then cstyle c else None) with
    | Some l => [92; l] ++ (if (c =? 0) && isoctal nextc then [48; 48] else [])
    | None =>
        if (c .& 0x7f =? 32) || has flag VIS_OCTAL || has flag VIS_GLOB && isglob c then
          [92; ((u8 c ≫ 6) .& 7) + 48; ((u8 c ≫ 3) .& 7) + 48; (u8 c .& 7) + 48]
        else
          let slash := if negb (has flag VIS_NOSLASH) then [92] else [] in
          let meta := negb (c .& 0x80 =? 0) in
          let c := if meta then c .& 0x7f else c in
          slash ++ (if meta then [77] else []) ++
          (if iscntrl (u8 c) then [94; if c =? 0x7f then 63 else u8 (c + 64)] else [45; u8 c])
    end.

(** Stores, one after the other. *)
Fixpoint puts (arr : list Z) (p : nat) (cs : list Z) : option (list Z) :=
  match cs with
  | [] => Some arr
  | c :: cs => if (p <? length arr)%nat then puts (<[p := c]> arr) (S p) cs else None
  end.
(** The array, and the new [dst]. *)
Definition vis (arr : list Z) (dst : nat) (c flag nextc : Z) : option (list Z * nat) :=
  let cs := vis_bytes c flag nextc in
  arr ← puts arr dst (cs ++ [0]); Some (arr, (dst + length cs)%nat).

Section Char.
(** Whether char is signed (x86_64) or not (aarch64). *)
Context (signed : bool).
Definition char (b : Z) : Z := if signed then sgn 8 b else b.

Fixpoint strvis_loop (arr : list Z) (dst : nat) (src : list Z) (flag : Z) : option (list Z * nat) :=
  match src with
  | [] => Some (arr, dst)
  | c :: src => if c =? 0 then Some (arr, dst) else '(arr, dst) ← vis arr dst (char c) flag (char (hd 0 src)); strvis_loop arr dst src flag
  end.
Definition strvis (arr : list Z) (src : list Z) (flag : Z) : option (list Z * Z) :=
  '(arr, dst) ← strvis_loop arr 0 src flag; arr ← puts arr dst [0]; Some (arr, sgn 32 (Z.of_nat dst)).

Fixpoint strvisx_loop (len : nat) (arr : list Z) (dst : nat) (src : list Z) (flag : Z) : option (list Z * nat) :=
  match len with
  | S (S _ as len) =>
      match src with
      | c :: src => match src with n :: _ => '(arr, dst) ← vis arr dst (char c) flag (char n); strvisx_loop len arr dst src flag | [] => None end
      | [] => None
      end
  | S O => match src with c :: _ => vis arr dst (char c) flag 0 | [] => None end
  | O => Some (arr, dst)
  end.
Definition strvisx (arr : list Z) (src : list Z) (len : nat) (flag : Z) : option (list Z * Z) :=
  '(arr, dst) ← strvisx_loop len arr 0 src flag; arr ← puts arr dst [0]; Some (arr, sgn 32 (Z.of_nat dst)).

(** The loop of strnvis: the array, [dst], [src] and [i]. [end_] is siz - 1. *)
Definition tbuf : list Z := replicate 5 0.
Fixpoint strnvis_loop (arr : list Z) (dst : nat) (src : list Z) (end_ : Z) (flag : Z) (i : Z) : option (list Z * nat * list Z * Z) :=
  match src with
  | [] => Some (arr, dst, [], i)
  | b :: next =>
      if (b =? 0) || negb (Z.of_nat dst <? end_) then Some (arr, dst, src, i)
      else
        let c := char b in
        if isvisible c flag then
          if (c =? 34) && has flag VIS_DQ || (c =? 92) && negb (has flag VIS_NOSLASH) then
            if Z.of_nat dst + 1 >=? end_ then Some (arr, dst, src, 2)
            else arr ← puts arr dst [92; b]; strnvis_loop arr (dst + 2) next end_ flag 1
          else arr ← puts arr dst [b]; strnvis_loop arr (dst + 1) next end_ flag 1
        else
          '(t, n) ← vis tbuf 0 c flag (char (hd 0 next));
          if Z.of_nat dst + Z.of_nat n <=? end_ then
            arr ← puts arr dst (take n t); strnvis_loop arr (dst + n) next end_ flag (Z.of_nat n)
          else Some (arr, dst, src, Z.of_nat n)
  end.
(** What is left is measured. *)
Fixpoint strnvis_rest (dst : Z) (src : list Z) (flag : Z) : option Z :=
  match src with
  | [] => Some dst
  | b :: next => if b =? 0 then Some dst else '(_, n) ← vis tbuf 0 (char b) flag (char (hd 0 next)); strnvis_rest (dst + Z.of_nat n) next flag
  end.
Definition strnvis (arr : list Z) (src : list Z) (siz : nat) (flag : Z) : option (list Z * Z) :=
  let end_ := Z.of_nat siz - 1 in
  '(arr, dst, src, i) ← strnvis_loop arr 0 src end_ flag 0;
  arr ← (if (0 <? siz)%nat then puts arr dst [0] else Some arr);
  n ← (if Z.of_nat dst + i >? end_ then strnvis_rest (Z.of_nat dst) src flag else Some (Z.of_nat dst));
  Some (arr, sgn 32 n).

(** [strlen] *)
Fixpoint strlen (src : list Z) : nat := match src with [] => O | c :: src => if c =? 0 then O else S (strlen src) end.
(** [junk] is what malloc and realloc find in new memory. *)
Definition realloc (junk : nat -> Z) (buf : list Z) (n : nat) : list Z := take n buf ++ map junk (seq (length buf) (n - length buf)).
(** The results of reallocarray, which fails as well when the size overflows,
    and of realloc are given. The overflow of [len + 1] is undefined. The
    result is the block stored at [outp], or -1. *)
Definition stravis (junk : nat -> Z) (mem mem2 : bool) (src : list Z) (flag : Z) : option (option (list Z) * Z) :=
  let size := 4 * (Z.of_nat (strlen src) + 1) in
  if negb mem || (size >=? 2 ^ 64) then Some (None, -1)
  else
    '(buf, len) ← strvis (map junk (seq 0 (Z.to_nat size))) src flag;
    if len =? 2 ^ 31 - 1 then None
    else Some (Some (if mem2 then realloc junk buf (Z.to_nat (u64 (len + 1))) else buf), len).
End Char.

(** ** The decoder *)

Abbreviation S_GROUND := 0.
Abbreviation S_START := 1.
Abbreviation S_META := 2.
Abbreviation S_META1 := 3.
Abbreviation S_CTRL := 4.
Abbreviation S_OCTAL2 := 5.
Abbreviation S_OCTAL3 := 6.

(** After a backslash: the result, what is at [cp] and the state. *)
Definition unvis_start (cp c : Z) : Z * Z * Z :=
  match c with
  | 45 => (0, 0, S_GROUND)
  | 92 | 34 => (UNVIS_VALID, c, S_GROUND)
  | 48 | 49 | 50 | 51 | 52 | 53 | 54 | 55 => (0, c - 48, S_OCTAL2)
  | 77 => (0, 0x80, S_META)
  | 94 => (0, cp, S_CTRL)
  | 110 => (UNVIS_VALID, 10, S_GROUND)
  | 114 => (UNVIS_VALID, 13, S_GROUND)
  | 98 => (UNVIS_VALID, 8, S_GROUND)
  | 97 => (UNVIS_VALID, 7, S_GROUND)
  | 118 => (UNVIS_VALID, 11, S_GROUND)
  | 116 => (UNVIS_VALID, 9, S_GROUND)
  | 102 => (UNVIS_VALID, 12, S_GROUND)
  | 115 => (UNVIS_VALID, 32, S_GROUND)
  | 69 => (UNVIS_VALID, 27, S_GROUND)
  | 10 | 36 => (UNVIS_NOCHAR, cp, S_GROUND)
  | _ => (UNVIS_SYNBAD, cp, S_GROUND)
  end.

(** The result, [*cp] and [*astate]; characters are bytes. *)
Definition unvis (cp c astate flag : Z) : Z * Z * Z :=
  if has flag UNVIS_END then
    if (astate =? S_OCTAL2) || (astate =? S_OCTAL3) then (UNVIS_VALID, cp, S_GROUND)
    else (if astate =? S_GROUND then UNVIS_NOCHAR else UNVIS_SYNBAD, cp, astate)
  else
    match astate with
    | S_GROUND => if c =? 92 then (0, 0, S_START) else (UNVIS_VALID, c, S_GROUND)
    | S_START => unvis_start cp c
    | S_META => if c =? 45 then (0, cp, S_META1) else if c =? 94 then (0, cp, S_CTRL) else (UNVIS_SYNBAD, cp, S_GROUND)
    | S_META1 => (UNVIS_VALID, cp .| c, S_GROUND)
    | S_CTRL => (UNVIS_VALID, if c =? 63 then cp .| 0x7f else cp .| (c .& 0x1f), S_GROUND)
    | S_OCTAL2 => if isoctal c then (0, u8 ((cp ≪ 3) + (c - 48)), S_OCTAL3) else (UNVIS_VALIDPUSH, cp, S_GROUND)
    | S_OCTAL3 => if isoctal c then (UNVIS_VALID, u8 ((cp ≪ 3) + (c - 48)), S_GROUND) else (UNVIS_VALIDPUSH, cp, S_GROUND)
    | _ => (UNVIS_SYNBAD, cp, S_GROUND)
    end.

(** A character of strunvis, given again when it is pushed back: the array,
    [dst], the state, and whether it was accepted. *)
Fixpoint strunvis_char (again : nat) (arr : list Z) (dst : nat) (c state : Z) : option (list Z * nat * Z * bool) :=
  match again with
  | O => None
  | S again =>
      cp ← arr !! dst;
      let '(r, cp, state) := unvis cp c state 0 in
      let arr := <[dst := cp]> arr in
      if r =? UNVIS_VALID then Some (arr, S dst, state, true)
      else if r =? UNVIS_VALIDPUSH then strunvis_char again arr (S dst) c state
      else Some (arr, dst, state, (r =? 0) || (r =? UNVIS_NOCHAR))
  end.
Definition strunvis_end (arr : list Z) (dst : nat) (state : Z) : option (list Z * Z) :=
  let '(r, _, _) := unvis 0 0 state UNVIS_END in
  let dst := if r =? UNVIS_VALID then S dst else dst in
  arr ← puts arr dst [0]; Some (arr, Z.of_nat dst).
Fixpoint strunvis_loop (arr : list Z) (dst : nat) (src : list Z) (state : Z) : option (list Z * Z) :=
  match src with
  | [] => strunvis_end arr dst state
  | c :: src =>
      if c =? 0 then strunvis_end arr dst state
      else
        '(arr, dst, state, ok) ← strunvis_char 2 arr dst c state;
        if ok : bool then strunvis_loop arr dst src state else arr ← puts arr dst [0]; Some (arr, -1)
  end.
(** The difference of pointers is returned as an [int]. *)
Definition strunvis (arr : list Z) (src : list Z) : option (list Z * Z) := '(arr, n) ← strunvis_loop arr 0 src S_GROUND; Some (arr, sgn 32 n).

(** strnunvis, whose [p] is set before it is read, and whose result is a
    [ssize_t]. [end_] is sz - 1. *)
Definition put_below (arr : list Z) (dst : nat) (end_ p : Z) : option (list Z) := if Z.of_nat dst <? end_ then puts arr dst [p] else Some arr.
Definition end_string (arr : list Z) (dst : nat) (end_ : Z) : option (list Z) := if Z.of_nat dst <=? end_ then puts arr dst [0] else Some arr.
Fixpoint strnunvis_char (again : nat) (arr : list Z) (dst : nat) (end_ p c state : Z) : option (list Z * nat * Z * Z * bool) :=
  match again with
  | O => None
  | S again =>
      let '(r, p, state) := unvis p c state 0 in
      if r =? UNVIS_VALID then arr ← put_below arr dst end_ p; Some (arr, S dst, p, state, true)
      else if r =? UNVIS_VALIDPUSH then arr ← put_below arr dst end_ p; strnunvis_char again arr (S dst) end_ p c state
      else Some (arr, dst, p, state, (r =? 0) || (r =? UNVIS_NOCHAR))
  end.
Definition strnunvis_end (arr : list Z) (dst : nat) (end_ p state : Z) : option (list Z * Z) :=
  let '(r, _, _) := unvis p 0 state UNVIS_END in
  '(arr, dst) ← (if r =? UNVIS_VALID then arr ← put_below arr dst end_ p; Some (arr, S dst) else Some (arr, dst));
  arr ← end_string arr dst end_; Some (arr, Z.of_nat dst).
Fixpoint strnunvis_loop (arr : list Z) (dst : nat) (src : list Z) (end_ p state : Z) : option (list Z * Z) :=
  match src with
  | [] => strnunvis_end arr dst end_ p state
  | c :: src =>
      if c =? 0 then strnunvis_end arr dst end_ p state
      else
        '(arr, dst, p, state, ok) ← strnunvis_char 2 arr dst end_ p c state;
        if ok : bool then strnunvis_loop arr dst src end_ p state else arr ← end_string arr dst end_; Some (arr, -1)
  end.
Definition strnunvis (arr : list Z) (src : list Z) (sz : nat) : option (list Z * Z) :=
  let end_ := Z.of_nat sz - 1 in
  arr ← (if (0 <? sz)%nat then puts arr (sz - 1) [0] else Some arr);
  '(arr, n) ← strnunvis_loop arr 0 src end_ 0 S_GROUND; Some (arr, sgn 64 n).


(** ** Arrays *)

Lemma puts_at pre rest cs : (length cs <= length rest)%nat -> puts (pre ++ rest) (length pre) cs = Some (pre ++ cs ++ drop (length cs) rest).
Proof.
  revert pre rest. induction cs as [|c cs IH]; intros pre rest Hl; cbn [puts length drop]; [by rewrite drop_0|]. cbn [length] in Hl. destruct rest as [|x rest]; [cbn in Hl; lia|].
  rewrite length_app. destruct (Nat.ltb_spec (length pre) (length pre + length (x :: rest))); [|cbn in *; lia].
  assert (E : <[length pre := c]> (pre ++ x :: rest) = (pre ++ [c]) ++ rest) by (rewrite insert_app_r_alt, Nat.sub_diag by lia; cbn; by rewrite <- app_assoc). rewrite E.
  replace (S (length pre)) with (length (pre ++ [c])) by (rewrite length_app; cbn; lia). rewrite IH by (cbn in Hl; lia). by rewrite <- app_assoc.
Qed.

Lemma vis_at pre rest c flag n : (length (vis_bytes c flag n) < length rest)%nat ->
  vis (pre ++ rest) (length pre) c flag n = Some (pre ++ vis_bytes c flag n ++ 0 :: drop (S (length (vis_bytes c flag n))) rest, length (pre ++ vis_bytes c flag n)).
Proof.
  intros Hl. unfold vis. rewrite puts_at by (rewrite length_app; cbn; lia). cbn [mbind option_bind]. rewrite !length_app, <- app_assoc. cbn [length app]. by rewrite Nat.add_1_r.
Qed.

(** ** What is encoded *)

Lemma char_byte signed b : 0 <= b < 256 -> u8 (char signed b) = b /\ forall k, 0 <= k < 128 -> (char signed b =? k) = (b =? k).
Proof.
  intros Hb. unfold char. destruct signed; [|split; [by apply wrap_small|done]]. unfold sgn, u8. rewrite (wrap_small 8 b) by done. change (2 ^ (8 - 1)) with 128. change (2 ^ 8) with 256. destruct (Z.ltb_spec b 128).
  - split; [by apply wrap_small|done].
  - split; [unfold wrap; symmetry; apply (Z.mod_unique_pos _ _ (-1)); lia|]. intros k Hk. destruct (Z.eqb_spec (b - 256) k), (Z.eqb_spec b k); lia.
Qed.

(** The encoding of a string: each byte with the one that follows. *)
Fixpoint encoding (signed : bool) (flag : Z) (s : list Z) : list Z :=
  match s with
  | [] => []
  | c :: s => vis_bytes (char signed c) flag (char signed (hd 0 s)) ++ encoding signed flag s
  end.

Lemma vis_bytes_length c flag n : (1 <= length (vis_bytes c flag n) <= 4)%nat.
Proof.
  unfold vis_bytes. destruct (isvisible c flag); [destruct (_ || _); cbn; lia|]. destruct (if has flag VIS_CSTYLE then cstyle c else None); [destruct (_ && _); cbn; lia|].
  destruct (_ || _); [cbn; lia|]. destruct (negb (has flag VIS_NOSLASH)), (negb (c .& 0x80 =? 0)), (iscntrl _); cbn; lia.
Qed.
Lemma encoding_length signed flag s : (length s <= length (encoding signed flag s) <= 4 * length s)%nat.
Proof. induction s as [|c s IH]; cbn [encoding]; [cbn; lia|]. rewrite length_app. pose proof (vis_bytes_length (char signed c) flag (char signed (hd 0 s))). cbn [length]. lia. Qed.

(** The end of a string, in memory. *)
Definition ended (more : list Z) : Prop := hd 0 more = 0.
Definition nonul (s : list Z) : Prop := Forall (fun c => c <> 0) s.

Lemma hd_app_ended (s more : list Z) : ended more -> hd 0 (s ++ more) = hd 0 s.
Proof. intros H. by destruct s. Qed.

Lemma strvis_loop_ok signed flag s : forall pre rest more, nonul s -> ended more -> (length (encoding signed flag s) < length rest)%nat ->
  exists rest', strvis_loop signed (pre ++ rest) (length pre) (s ++ more) flag = Some (pre ++ encoding signed flag s ++ rest', length (pre ++ encoding signed flag s)) /\
    length rest' = (length rest - length (encoding signed flag s))%nat /\ drop 1 rest' = drop (S (length (encoding signed flag s))) rest.
Proof.
  induction s as [|c s IH]; intros pre rest more Hn Hm Hl.
  - exists rest. cbn [encoding app length]. rewrite app_nil_r, Nat.sub_0_r. split; [|done]. destruct more as [|z more]; [done|]. unfold ended in Hm. cbn in Hm. by subst.
  - apply Forall_cons in Hn as [Hc Hn]. cbn [encoding strvis_loop app] in *. destruct (Z.eqb_spec c 0); [done|]. rewrite hd_app_ended by done. set (cs := vis_bytes _ _ _) in *. rewrite length_app in Hl.
    rewrite vis_at by (fold cs; lia). fold cs. cbn [mbind option_bind]. rewrite app_assoc.
    destruct (IH (pre ++ cs) (0 :: drop (S (length cs)) rest) more Hn Hm) as (rest' & E & Hl' & Hd); [cbn [length]; rewrite length_drop; lia|]. exists rest'. rewrite E. split; [by rewrite <- !app_assoc|].
    rewrite length_app. cbn [length] in Hl'. rewrite length_drop in Hl'. split; [lia|]. rewrite Hd. cbn [drop]. by rewrite drop_drop.
Qed.

Lemma strvis_ok signed flag s more arr : nonul s -> ended more -> (length (encoding signed flag s) < length arr)%nat ->
  strvis signed arr (s ++ more) flag = Some (encoding signed flag s ++ 0 :: drop (S (length (encoding signed flag s))) arr, sgn 32 (Z.of_nat (length (encoding signed flag s)))).
Proof.
  intros Hn Hm Hl. unfold strvis. destruct (strvis_loop_ok signed flag s [] arr more Hn Hm Hl) as (rest' & E & Hl' & Hd). cbn [app length] in E. rewrite E. cbn [mbind option_bind].
  rewrite puts_at by (cbn; lia). cbn [length app mbind option_bind]. by rewrite Hd.
Qed.

Lemma strvisx_loop_ok signed flag s : forall pre rest more, (length (encoding signed flag s) < length rest)%nat ->
  exists rest', strvisx_loop signed (length s) (pre ++ rest) (length pre) (s ++ more) flag = Some (pre ++ encoding signed flag s ++ rest', length (pre ++ encoding signed flag s)) /\
    length rest' = (length rest - length (encoding signed flag s))%nat /\ drop 1 rest' = drop (S (length (encoding signed flag s))) rest.
Proof.
  induction s as [|c s IH]; intros pre rest more Hl; [exists rest; cbn; by rewrite app_nil_r, Nat.sub_0_r|]. cbn [encoding] in *. set (cs := vis_bytes _ _ _) in *. rewrite length_app in Hl. destruct s as [|n s].
  - exists (0 :: drop (S (length cs)) rest). cbn [strvisx_loop length app encoding]. rewrite app_nil_r. replace (vis (pre ++ rest) (length pre) (char signed c) flag 0) with (vis (pre ++ rest) (length pre) (char signed c) flag (char signed (hd 0 []))) by (by destruct signed).
    rewrite vis_at by (fold cs; cbn in Hl; lia). fold cs. split; [done|]. cbn [length drop]. rewrite length_drop. cbn [length encoding] in Hl. split; [lia|by rewrite drop_0].
  - change (strvisx_loop signed (length (c :: n :: s)) (pre ++ rest) (length pre) ((c :: n :: s) ++ more) flag) with
      ('(arr, dst) ← vis (pre ++ rest) (length pre) (char signed c) flag (char signed n); strvisx_loop signed (length (n :: s)) arr dst ((n :: s) ++ more) flag).
    change (char signed n) with (char signed (hd 0 (n :: s))). rewrite vis_at by (fold cs; lia). fold cs. cbn [mbind option_bind]. rewrite app_assoc.
    destruct (IH (pre ++ cs) (0 :: drop (S (length cs)) rest) more) as (rest' & E & Hl' & Hd); [cbn [length]; rewrite length_drop; lia|]. exists rest'. rewrite E. split; [by rewrite <- !app_assoc|].
    rewrite length_app. cbn [length] in Hl'. rewrite length_drop in Hl'. split; [lia|]. rewrite Hd. cbn [drop]. by rewrite drop_drop.
Qed.

Lemma strvisx_ok signed flag s more arr : (length (encoding signed flag s) < length arr)%nat ->
  strvisx signed arr (s ++ more) (length s) flag = Some (encoding signed flag s ++ 0 :: drop (S (length (encoding signed flag s))) arr, sgn 32 (Z.of_nat (length (encoding signed flag s)))).
Proof.
  intros Hl. unfold strvisx. destruct (strvisx_loop_ok signed flag s [] arr more Hl) as (rest' & E & Hl' & Hd). cbn [app length] in E. rewrite E. cbn [mbind option_bind].
  rewrite puts_at by (cbn; lia). cbn [length app mbind option_bind]. by rewrite Hd.
Qed.

(** ** What is decoded *)

(** The decoder over a string without its buffers: what it gives, and whether
    the string is accepted. *)
Fixpoint decode (cp state : Z) (src : list Z) : list Z * bool :=
  match src with
  | [] => (if (state =? S_OCTAL2) || (state =? S_OCTAL3) then [cp] else [], true)
  | c :: src =>
      let '(r, cp, state) := unvis cp c state 0 in
      let next cp state := decode cp state src in
      let give cp (d : list Z * bool) := (cp :: d.1, d.2) in
      if r =? UNVIS_VALID then give cp (next cp state)
      else if r =? UNVIS_VALIDPUSH then
        let '(r, cp', state) := unvis cp c state 0 in
        give cp (if r =? UNVIS_VALID then give cp' (next cp' state) else if (r =? 0) || (r =? UNVIS_NOCHAR) then next cp' state else ([], false))
      else if (r =? 0) || (r =? UNVIS_NOCHAR) then next cp state
      else ([], false)
  end.

(** A character leaves the ground state, or one octal digit or more, only to go on. *)
Lemma unvis_ground cp cp' c : unvis cp c S_GROUND 0 = unvis cp' c S_GROUND 0.
Proof. done. Qed.
Lemma decode_ground cp cp' src : decode cp S_GROUND src = decode cp' S_GROUND src.
Proof. by destruct src. Qed.

(** Characters that are not pushed back. *)
Fixpoint run (cp state : Z) (cs : list Z) : option (list Z * Z * Z) :=
  match cs with
  | [] => Some ([], cp, state)
  | c :: cs =>
      let '(r, cp, state) := unvis cp c state 0 in
      if r =? UNVIS_VALID then '(out, cp', state) ← run cp state cs; Some (cp :: out, cp', state)
      else if (r =? 0) || (r =? UNVIS_NOCHAR) then run cp state cs else None
  end.
Lemma run_decode cs : forall cp state out cp' state' rest, run cp state cs = Some (out, cp', state') -> decode cp state (cs ++ rest) = (out ++ (decode cp' state' rest).1, (decode cp' state' rest).2).
Proof.
  induction cs as [|c cs IH]; intros cp state out cp' state' rest E; cbn [run app] in *; [injection E as <- <- <-; cbn; by destruct (decode _ _ _)|]. cbn [decode].
  destruct (unvis cp c state 0) as [[r cp1] st1]. destruct (Z.eqb_spec r UNVIS_VALID) as [->|].
  - destruct (run cp1 st1 cs) as [[[o cp2] st2]|] eqn:Er; [|done]. cbn in E. injection E as <- <- <-. rewrite (IH _ _ _ _ _ rest Er). done.
  - destruct (Z.eqb_spec r UNVIS_VALIDPUSH) as [->|]; [done|]. destruct (_ || _); [|done]. by apply IH.
Qed.

(** An octal digit that is not followed by another. *)
Lemma decode_octal cp rest : (forall c, head rest = Some c -> isoctal c = false) -> decode cp S_OCTAL2 rest = (cp :: (decode cp S_GROUND rest).1, (decode cp S_GROUND rest).2).
Proof.
  intros H. destruct rest as [|c rest]; [done|]. specialize (H c eq_refl). cbn [decode].
  assert (E : unvis cp c S_OCTAL2 0 = (UNVIS_VALIDPUSH, cp, S_GROUND)) by (unfold unvis; change (has 0 UNVIS_END) with false; cbv iota; by rewrite H).
  assert (E' : unvis cp c S_GROUND 0 = if c =? 92 then (0, 0, S_START) else (UNVIS_VALID, c, S_GROUND)) by done. rewrite E. cbn [Z.eqb Pos.eqb]. rewrite E'. by destruct (c =? 92).
Qed.

(** A fact of every byte, by cases. *)
Lemma all_bytes (P : Z -> bool) : forallb P (seqZ 0 256) = true -> forall b, 0 <= b < 256 -> P b = true.
Proof. intros E b Hb. rewrite forallb_forall in E. apply E, list_elem_of_In, elem_of_seqZ. lia. Qed.

Lemma run_meta signed b : 0 <= b < 256 -> b <> 92 ->
  let c := char signed b in let meta := negb (c .& 0x80 =? 0) in let c' := if meta then c .& 0x7f else c in
  run 0 S_GROUND ([92] ++ (if meta then [77] else []) ++ (if iscntrl (u8 c') then [94; if c' =? 0x7f then 63 else u8 (c' + 64)] else [45; u8 c'])) = Some ([b], b, S_GROUND).
Proof.
  intros Hb Hne. set (P := fun signed b => (b =? 92) || (let c := char signed b in let meta := negb (c .& 0x80 =? 0) in let c' := if meta then c .& 0x7f else c in
    bool_decide (run 0 S_GROUND ([92] ++ (if meta then [77] else []) ++ (if iscntrl (u8 c') then [94; if c' =? 0x7f then 63 else u8 (c' + 64)] else [45; u8 c'])) = Some ([b], b, S_GROUND)))).
  assert (E : P signed b = true) by (destruct signed; apply all_bytes; (vm_compute; reflexivity) || done). unfold P in E. destruct (Z.eqb_spec b 92); [done|]. cbn [orb] in E. by apply bool_decide_eq_true in E.
Qed.
Lemma run_octal b : 0 <= b < 256 -> run 0 S_GROUND [92; ((b ≫ 6) .& 7) + 48; ((b ≫ 3) .& 7) + 48; (b .& 7) + 48] = Some ([b], b, S_GROUND).
Proof.
  intros Hb. set (P := fun b => bool_decide (run 0 S_GROUND [92; ((b ≫ 6) .& 7) + 48; ((b ≫ 3) .& 7) + 48; (b .& 7) + 48] = Some ([b], b, S_GROUND))).
  assert (E : P b = true) by (apply all_bytes; [vm_compute; reflexivity|done]). by apply bool_decide_eq_true in E.
Qed.
Lemma cstyle_char signed b : 0 <= b < 256 -> cstyle (char signed b) = cstyle b.
Proof.
  intros Hb. destruct signed; [|done]. set (P := fun b => bool_decide (cstyle (char true b) = cstyle b)). assert (E : P b = true) by (apply all_bytes; [vm_compute; reflexivity|done]). by apply bool_decide_eq_true in E.
Qed.
Lemma run_cstyle b l : 0 <= b < 256 -> cstyle b = Some l -> b = 0 /\ l = 48 \/ run 0 S_GROUND [92; l] = Some ([b], b, S_GROUND).
Proof.
  intros Hb El. set (P := fun b => match cstyle b with Some l => (b =? 0) && (l =? 48) || bool_decide (run 0 S_GROUND [92; l] = Some ([b], b, S_GROUND)) | None => true end).
  assert (E : P b = true) by (apply all_bytes; [vm_compute; reflexivity|done]). unfold P in E. rewrite El in E. apply orb_prop in E as [E|E]; [left; apply andb_prop in E as [->%Z.eqb_eq ->%Z.eqb_eq]; done|right; by apply bool_decide_eq_true in E].
Qed.

Lemma vis_bytes_run signed b flag n : 0 <= b < 256 -> has flag VIS_NOSLASH = false ->
  let cs := vis_bytes (char signed b) flag n in
  (head cs = Some b \/ head cs = Some 92) /\ ((exists cp, run 0 S_GROUND cs = Some ([b], cp, S_GROUND)) \/ b = 0 /\ cs = [92; 48] /\ isoctal n = false).
Proof.
  intros Hb Hns cs. destruct (char_byte signed b Hb) as [Hu Heq]. unfold cs, vis_bytes. rewrite Hns, Hu. cbn [negb]. rewrite !Heq by lia. rewrite andb_true_r.
  destruct (isvisible (char signed b) flag) eqn:Ev.
  - destruct ((b =? 34) && has flag VIS_DQ || (b =? 92)) eqn:Eq.
    + split; [by right|left; exists b]. apply orb_prop in Eq as [[->%Z.eqb_eq _]%andb_prop| ->%Z.eqb_eq]; done.
    + split; [by left|left]. apply orb_false_iff in Eq as [_ E92]. exists b. cbn [app run]. change (unvis 0 b S_GROUND 0) with (if b =? 92 then (0, 0, S_START) else (UNVIS_VALID, b, S_GROUND)). by rewrite E92.
  - assert (H92 : b <> 92) by (intros ->; destruct signed; discriminate Ev). rewrite cstyle_char by done. destruct (if has flag VIS_CSTYLE then cstyle b else None) as [l|] eqn:El.
    + destruct (has flag VIS_CSTYLE); [|done]. split; [by right|]. destruct (run_cstyle b l Hb El) as [[-> ->]|Hr].
      * cbn [Z.eqb andb]. destruct (isoctal n) eqn:En; [left; exists 0; reflexivity|by right].
      * left. exists b. destruct (Z.eqb_spec b 0) as [->|]; [injection El as <-; done|]. by rewrite app_nil_r.
    + destruct (_ || _); [split; [by right|left; exists b; by apply run_octal]|]. split; [by right|left]. pose proof (run_meta signed b Hb H92) as E. exists b. exact E.
Qed.

(** The whole string, decoded. *)
Lemma decode_encoding signed flag s cp : bytes s -> has flag VIS_NOSLASH = false -> decode cp S_GROUND (encoding signed flag s) = (s, true).
Proof.
  intros Hs Hns. revert cp. induction s as [|b s IH]; intros cp; [done|]. apply Forall_cons in Hs as [Hb Hs]. specialize (IH Hs). rewrite (decode_ground cp 0). cbn [encoding].
  destruct (vis_bytes_run signed b flag (char signed (hd 0 s)) Hb Hns) as [_ [[cp' E]|(-> & E & Ho)]].
  - rewrite (run_decode _ _ _ _ _ _ _ E), IH. done.
  - rewrite E. change (decode 0 S_GROUND ([92; 48] ++ encoding signed flag s)) with (decode 0 S_OCTAL2 (encoding signed flag s)). rewrite decode_octal, IH; [done|].
    intros c Hc. destruct s as [|b' s]; [done|]. apply Forall_cons in Hs as [Hb' Hs]. cbn [encoding hd] in *. destruct (vis_bytes_run signed b' flag (char signed (hd 0 s)) Hb' Hns) as [Hh _].
    destruct (vis_bytes (char signed b') flag (char signed (hd 0 s))) as [|h t]; [by destruct Hh|]. cbn in Hh, Hc. injection Hc as <-. destruct Hh as [[= ->]|[= ->]]; [|done].
    unfold isoctal in *. destruct (char_byte signed b' Hb') as [Hu _]. rewrite Hu in Ho. unfold u8. by rewrite wrap_small.
Qed.

(** ** The decoder in its buffers *)

Lemma unvis_result cp c st : let '(r, cp', st') := unvis cp c st 0 in
  (r = UNVIS_VALID -> st' = S_GROUND) /\ (r = UNVIS_VALIDPUSH -> cp' = cp /\ st' = S_GROUND /\ (st = S_OCTAL2 \/ st = S_OCTAL3)).
Proof. unfold unvis, unvis_start. change (has 0 UNVIS_END) with false. cbv iota. repeat case_match; simplify_eq/=; naive_solver. Qed.

Definition pending (st : Z) : nat := if (st =? S_OCTAL2) || (st =? S_OCTAL3) then 1 else 0.
Lemma decode_length src : forall cp st, (length (decode cp st src).1 <= length src + pending st)%nat.
Proof.
  induction src as [|c src IH]; intros cp st; cbn [decode]; [unfold pending; destruct (_ || _); cbn; lia|]. assert (Hp : forall st, (pending st <= 1)%nat) by (intros; unfold pending; destruct (_ || _); lia).
  pose proof (unvis_result cp c st) as H. destruct (unvis cp c st 0) as [[r cp1] st1]. destruct H as [H1 H2]. destruct (Z.eqb_spec r UNVIS_VALID) as [Hr|_].
  { rewrite (H1 Hr). specialize (IH cp1 S_GROUND). cbn [length fst pending Z.eqb orb] in *. lia. }
  destruct (Z.eqb_spec r UNVIS_VALIDPUSH) as [Hr|_].
  - destruct (H2 Hr) as (-> & -> & Hst). assert (Ep : pending st = 1%nat) by (by destruct Hst; subst). rewrite Ep. pose proof (unvis_result cp c S_GROUND) as H. destruct (unvis cp c S_GROUND 0) as [[r2 cp2] st2]. destruct H as [H3 _].
    destruct (Z.eqb_spec r2 UNVIS_VALID) as [Hr2|_]; [rewrite (H3 Hr2); specialize (IH cp2 S_GROUND); cbn [length fst pending Z.eqb orb] in *; lia|].
    destruct (_ || _); [|cbn; lia]. specialize (IH cp2 st2). specialize (Hp st2). cbn [length fst] in *. lia.
  - destruct (_ || _); [|cbn; lia]. specialize (IH cp1 st1). specialize (Hp st1). cbn [length] in *. lia.
Qed.

Lemma insert_middle (pre : list Z) x y rest : <[length pre := y]> (pre ++ x :: rest) = pre ++ y :: rest.
Proof. by rewrite insert_app_r_alt, Nat.sub_diag by lia. Qed.

Lemma strunvis_end_ok pre cp rest st : (pending st <= length rest)%nat ->
  strunvis_end (pre ++ cp :: rest) (length pre) st =
    Some (pre ++ (if (st =? S_OCTAL2) || (st =? S_OCTAL3) then [cp] else []) ++ 0 :: drop (pending st) rest, Z.of_nat (length pre + pending st)).
Proof.
  unfold strunvis_end, unvis, pending. change (has UNVIS_END UNVIS_END) with true. cbv iota. destruct ((st =? S_OCTAL2) || (st =? S_OCTAL3)); intros Hl.
  - destruct rest as [|x rest]; [cbn in Hl; lia|]. change (if UNVIS_VALID =? UNVIS_VALID then S (length pre) else length pre) with (S (length pre)). cbn [Z.eqb Pos.eqb].
    replace (pre ++ cp :: x :: rest) with ((pre ++ [cp]) ++ x :: rest) by (by rewrite <- app_assoc). replace (S (length pre)) with (length (pre ++ [cp])) by (rewrite length_app; cbn; lia).
    rewrite puts_at by (cbn; lia). cbn [mbind option_bind length drop app]. rewrite length_app, <- app_assoc. cbn [length app]. by rewrite drop_0.
  - assert (E : ((if st =? S_GROUND then UNVIS_NOCHAR else UNVIS_SYNBAD) =? UNVIS_VALID) = false) by (by destruct (st =? S_GROUND)). rewrite E.
    rewrite puts_at by (cbn; lia). cbn [mbind option_bind length drop app]. rewrite drop_0. do 3 f_equal. lia.
Qed.

Lemma strunvis_loop_ok src : forall cp st pre rest more, nonul src -> ended more -> (length (decode cp st src).1 <= length rest)%nat ->
  let d := decode cp st src in
  strunvis_loop (pre ++ cp :: rest) (length pre) (src ++ more) st = Some (pre ++ d.1 ++ 0 :: drop (length d.1) rest, if d.2 then Z.of_nat (length pre + length d.1) else -1).
Proof.
  induction src as [|c src IH]; intros cp st pre rest more Hn Hm Hl d.
  { unfold d. cbn [decode] in *. cbn [fst snd app] in *. assert (E : length (if (st =? S_OCTAL2) || (st =? S_OCTAL3) then [cp] else []) = pending st) by (unfold pending; by destruct (_ || _)). rewrite E in *.
    rewrite <- strunvis_end_ok by done. destruct more as [|z more]; [done|]. unfold ended in Hm. cbn in Hm. by subst. }
  apply Forall_cons in Hn as [Hc Hn]. cbn [app strunvis_loop]. destruct (Z.eqb_spec c 0); [done|]. cbn [strunvis_char]. rewrite list_lookup_middle by done. cbn [mbind option_bind].
  unfold d in *. clear d. cbn [decode] in *. pose proof (unvis_result cp c st) as H. destruct (unvis cp c st 0) as [[r cp1] st1]. destruct H as [H1 H2]. rewrite insert_middle. destruct (Z.eqb_spec r UNVIS_VALID) as [Hr|_].
  { rewrite (H1 Hr) in *. cbn [mbind option_bind fst snd length] in *. destruct rest as [|x rest]; [cbn in Hl; lia|]. rewrite (decode_ground cp1 x) in *.
    replace (pre ++ cp1 :: x :: rest) with ((pre ++ [cp1]) ++ x :: rest) by (by rewrite <- app_assoc). replace (S (length pre)) with (length (pre ++ [cp1])) by (rewrite length_app; cbn; lia).
    rewrite (IH x S_GROUND (pre ++ [cp1]) rest more Hn Hm) by (cbn in Hl; lia). rewrite <- app_assoc, length_app. cbn [length app drop]. do 2 f_equal. destruct (decode x S_GROUND src).2; lia. }
  destruct (Z.eqb_spec r UNVIS_VALIDPUSH) as [Hr|_].
  - destruct (H2 Hr) as (-> & -> & Hst). destruct rest as [|x rest]; [exfalso; revert Hl; destruct (unvis cp c S_GROUND 0) as [[? ?] ?]; cbn; lia|].
    replace (pre ++ cp :: x :: rest) with ((pre ++ [cp]) ++ x :: rest) by (by rewrite <- app_assoc). replace (S (length pre)) with (length (pre ++ [cp])) by (rewrite length_app; cbn; lia).
    rewrite list_lookup_middle by done. cbn [mbind option_bind]. rewrite (unvis_ground x cp). pose proof (unvis_result cp c S_GROUND) as H. destruct (unvis cp c S_GROUND 0) as [[r2 cp2] st2]. destruct H as [H3 H4]. rewrite insert_middle.
    destruct (Z.eqb_spec r2 UNVIS_VALID) as [Hr2|_].
    { rewrite (H3 Hr2) in *. cbn [mbind option_bind fst snd length] in *. destruct rest as [|y rest]; [cbn in Hl; lia|]. rewrite (decode_ground cp2 y) in *.
      replace ((pre ++ [cp]) ++ cp2 :: y :: rest) with ((pre ++ [cp; cp2]) ++ y :: rest) by (by rewrite <- !app_assoc). replace (S (length (pre ++ [cp]))) with (length (pre ++ [cp; cp2])) by (rewrite !length_app; cbn; lia).
      rewrite (IH y S_GROUND (pre ++ [cp; cp2]) rest more Hn Hm) by (cbn in Hl; lia). rewrite <- app_assoc, length_app. cbn [length app drop]. do 2 f_equal. destruct (decode y S_GROUND src).2; lia. }
    destruct (Z.eqb_spec r2 UNVIS_VALIDPUSH) as [Hr2|_]; [destruct (H4 Hr2) as (_ & _ & [|]); done|].
    destruct ((r2 =? 0) || (r2 =? UNVIS_NOCHAR)); cbn [mbind option_bind fst snd length] in *.
    + rewrite (IH cp2 st2 (pre ++ [cp]) rest more Hn Hm) by (cbn in Hl; lia). rewrite <- app_assoc, length_app. cbn [length app drop]. do 2 f_equal. destruct (decode cp2 st2 src).2; lia.
    + rewrite puts_at by (cbn; lia). cbn [mbind option_bind length drop app]. by rewrite <- app_assoc.
  - destruct ((r =? 0) || (r =? UNVIS_NOCHAR)); cbn [mbind option_bind fst snd length] in *; [by apply IH|].
    rewrite puts_at by (cbn; lia). done.
Qed.

Lemma strunvis_ok src more arr : nonul src -> ended more -> let d := decode 0 S_GROUND src in (length d.1 < length arr)%nat ->
  strunvis arr (src ++ more) = Some (d.1 ++ 0 :: drop (S (length d.1)) arr, if d.2 then sgn 32 (Z.of_nat (length d.1)) else -1).
Proof.
  intros Hn Hm d Hl. destruct arr as [|x arr]; [cbn in Hl; lia|]. unfold strunvis. unfold d in *. rewrite (decode_ground 0 x) in *.
  pose proof (strunvis_loop_ok src x S_GROUND [] arr more Hn Hm ltac:(cbn in Hl; lia)) as E. cbn [app length] in E. rewrite E. cbn [mbind option_bind drop]. by destruct (decode x S_GROUND src).2.
Qed.

(** What there is in the [sz] bytes of strnunvis when [out] has been given. *)
Definition shown (arr0 : list Z) (sz : nat) (arr out : list Z) : Prop :=
  length arr = length arr0 /\ take (Nat.min (length out) (sz - 1)) arr = take (sz - 1) out /\ drop sz arr = drop sz arr0 /\ ((0 < sz)%nat -> arr !! (sz - 1)%nat = Some 0).
Definition shown_string (arr0 : list Z) (sz : nat) (arr out : list Z) : Prop :=
  length arr = length arr0 /\ drop sz arr = drop sz arr0 /\ ((0 < sz)%nat -> take (S (Nat.min (length out) (sz - 1))) arr = take (sz - 1) out ++ [0]).

Lemma puts_one arr p c : (p < length arr)%nat -> puts arr p [c] = Some (<[p := c]> arr).
Proof. intros H. cbn [puts]. destruct (Nat.ltb_spec p (length arr)); [done|lia]. Qed.

Lemma put_below_ok arr0 sz arr out p : (sz <= length arr0)%nat -> shown arr0 sz arr out ->
  exists arr', put_below arr (length out) (Z.of_nat sz - 1) p = Some arr' /\ shown arr0 sz arr' (out ++ [p]).
Proof.
  intros Hsz (Hl & Ht & Hd & H0). unfold put_below. destruct (Z.ltb_spec (Z.of_nat (length out)) (Z.of_nat sz - 1)).
  - rewrite puts_one by lia. eexists. split; [done|]. split; [by rewrite length_insert|]. rewrite length_app. cbn [length]. rewrite Nat.min_l in Ht |- * by lia. rewrite (take_ge out) in Ht by lia. rewrite (take_ge (out ++ [p])) by (rewrite length_app; cbn; lia).
    split; [|split].
    + rewrite Nat.add_1_r. rewrite (take_S_r _ _ p) by (apply list_lookup_insert_eq; lia). by rewrite take_insert_ge, Ht by lia.
    + by rewrite drop_insert_lt by lia.
    + intros Hs. rewrite list_lookup_insert_ne by lia. by apply H0.
  - exists arr. split; [done|]. split; [done|]. rewrite length_app. cbn [length]. rewrite Nat.min_r in Ht |- * by lia. rewrite take_app_le by lia. done.
Qed.

Lemma end_string_ok arr0 sz arr out : (sz <= length arr0)%nat -> shown arr0 sz arr out ->
  exists arr', end_string arr (length out) (Z.of_nat sz - 1) = Some arr' /\ shown_string arr0 sz arr' out.
Proof.
  intros Hsz (Hl & Ht & Hd & H0). unfold end_string. destruct (Z.leb_spec (Z.of_nat (length out)) (Z.of_nat sz - 1)).
  - rewrite puts_one by lia. eexists. split; [done|]. split; [by rewrite length_insert|]. split; [by rewrite drop_insert_lt by lia|]. intros Hs.
    rewrite Nat.min_l in Ht |- * by lia. rewrite (take_S_r _ _ 0) by (apply list_lookup_insert_eq; lia). by rewrite take_insert_ge, Ht by lia.
  - exists arr. split; [done|]. split; [done|]. split; [done|]. intros Hs. rewrite Nat.min_r in Ht |- * by lia. rewrite (take_S_r _ _ 0) by (by apply H0). by rewrite Ht.
Qed.

Lemma strnunvis_loop_ok arr0 sz src : forall p st arr out more, (sz <= length arr0)%nat -> nonul src -> ended more -> shown arr0 sz arr out ->
  let d := decode p st src in
  exists arr', strnunvis_loop arr (length out) (src ++ more) (Z.of_nat sz - 1) p st = Some (arr', if d.2 then Z.of_nat (length out + length d.1) else -1) /\ shown_string arr0 sz arr' (out ++ d.1).
Proof.
  induction src as [|c src IH]; intros p st arr out more Hsz Hn Hm Hsh d.
  { unfold d. cbn [decode fst snd app]. assert (E : exists arr', strnunvis_end arr (length out) (Z.of_nat sz - 1) p st = Some (arr', Z.of_nat (length out + length (if (st =? S_OCTAL2) || (st =? S_OCTAL3) then [p] else []))) /\
      shown_string arr0 sz arr' (out ++ if (st =? S_OCTAL2) || (st =? S_OCTAL3) then [p] else [])).
    { unfold strnunvis_end, unvis. change (has UNVIS_END UNVIS_END) with true. cbv iota. destruct ((st =? S_OCTAL2) || (st =? S_OCTAL3)).
      - cbn [Z.eqb Pos.eqb]. destruct (put_below_ok arr0 sz arr out p Hsz Hsh) as (a1 & -> & Hsh1). cbn [mbind option_bind]. destruct (end_string_ok arr0 sz a1 (out ++ [p]) Hsz Hsh1) as (a2 & E2 & Hsh2).
        rewrite length_app in E2. cbn [length] in E2. rewrite Nat.add_1_r in E2. rewrite E2. cbn [mbind option_bind length]. rewrite Nat.add_1_r. by exists a2.
      - assert (E : ((if st =? S_GROUND then UNVIS_NOCHAR else UNVIS_SYNBAD) =? UNVIS_VALID) = false) by (by destruct (st =? S_GROUND)). rewrite E. cbn [mbind option_bind].
        destruct (end_string_ok arr0 sz arr out Hsz Hsh) as (a2 & -> & Hsh2). cbn [mbind option_bind length]. rewrite Nat.add_0_r, app_nil_r. by exists a2. }
    destruct more as [|z more]; [exact E|]. unfold ended in Hm. cbn in Hm. subst z. exact E. }
  apply Forall_cons in Hn as [Hc Hn]. cbn [app strnunvis_loop]. destruct (Z.eqb_spec c 0); [done|]. cbn [strnunvis_char]. unfold d. clear d. cbn [decode].
  assert (Hsnoc : forall arr x p st, shown arr0 sz arr (out ++ [x]) -> exists arr', strnunvis_loop arr (S (length out)) (src ++ more) (Z.of_nat sz - 1) p st =
    Some (arr', if (decode p st src).2 then Z.of_nat (length out + length (x :: (decode p st src).1)) else -1) /\ shown_string arr0 sz arr' (out ++ x :: (decode p st src).1)).
  { intros a x p' st' Ha. destruct (IH p' st' a (out ++ [x]) more Hsz Hn Hm Ha) as (a' & E & Hs). exists a'. rewrite length_app in E. cbn [length] in E. rewrite Nat.add_1_r in E. rewrite E, <- app_assoc in *. split; [|exact Hs].
    do 2 f_equal. destruct (decode p' st' src).2; cbn [length]; lia. }
  pose proof (unvis_result p c st) as H. destruct (unvis p c st 0) as [[r p1] st1]. destruct H as [_ H2]. destruct (Z.eqb_spec r UNVIS_VALID) as [Hr|_].
  { destruct (put_below_ok arr0 sz arr out p1 Hsz Hsh) as (a1 & -> & Hsh1). cbn [mbind option_bind fst snd]. by apply Hsnoc. }
  destruct (Z.eqb_spec r UNVIS_VALIDPUSH) as [Hr|_].
  - destruct (H2 Hr) as (-> & -> & _). destruct (put_below_ok arr0 sz arr out p Hsz Hsh) as (a1 & -> & Hsh1). cbn [mbind option_bind]. pose proof (unvis_result p c S_GROUND) as H. destruct (unvis p c S_GROUND 0) as [[r2 p2] st2]. destruct H as [_ H4].
    destruct (Z.eqb_spec r2 UNVIS_VALID) as [Hr2|_].
    { destruct (put_below_ok arr0 sz a1 (out ++ [p]) p2 Hsz Hsh1) as (a2 & E2 & Hsh2). rewrite length_app in E2. cbn [length] in E2. rewrite Nat.add_1_r in E2. rewrite E2. cbn [mbind option_bind fst snd].
      destruct (IH p2 st2 a2 ((out ++ [p]) ++ [p2]) more Hsz Hn Hm Hsh2) as (a' & E & Hs). exists a'. rewrite !length_app in E. cbn [length] in E. rewrite !Nat.add_1_r in E. rewrite E. rewrite <- !app_assoc in Hs. split; [|exact Hs].
      do 2 f_equal. destruct (decode p2 st2 src).2; cbn [length]; lia. }
    destruct (Z.eqb_spec r2 UNVIS_VALIDPUSH) as [Hr2|_]; [destruct (H4 Hr2) as (_ & _ & [|]); done|].
    destruct ((r2 =? 0) || (r2 =? UNVIS_NOCHAR)); cbn [mbind option_bind fst snd]; [by apply Hsnoc|].
    destruct (end_string_ok arr0 sz a1 (out ++ [p]) Hsz Hsh1) as (a2 & E2 & Hsh2). rewrite length_app in E2. cbn [length] in E2. rewrite Nat.add_1_r in E2. rewrite E2. cbn [mbind option_bind]. by exists a2.
  - destruct ((r =? 0) || (r =? UNVIS_NOCHAR)); cbn [mbind option_bind fst snd]; [by apply IH|].
    destruct (end_string_ok arr0 sz arr out Hsz Hsh) as (a2 & -> & Hsh2). cbn [mbind option_bind]. rewrite app_nil_r. by exists a2.
Qed.

Lemma strnunvis_ok src more arr sz : (sz <= length arr)%nat -> nonul src -> ended more -> let d := decode 0 S_GROUND src in
  exists arr', strnunvis arr (src ++ more) sz = Some (arr', sgn 64 (if d.2 then Z.of_nat (length d.1) else -1)) /\ shown_string arr sz arr' d.1.
Proof.
  intros Hsz Hn Hm d. unfold strnunvis.
  enough (exists arr', (arr1 ← (if (0 <? sz)%nat then puts arr (sz - 1) [0] else Some arr); strnunvis_loop arr1 0 (src ++ more) (Z.of_nat sz - 1) 0 S_GROUND) =
      Some (arr', if d.2 then Z.of_nat (length d.1) else -1) /\ shown_string arr sz arr' d.1) as (arr' & E & H).
  { exists arr'. split; [|done]. destruct (if (0 <? sz)%nat then _ else _) as [arr1|]; cbn [mbind option_bind] in *; [by rewrite E|done]. }
  destruct (Nat.ltb_spec 0 sz).
  - rewrite puts_one by lia. cbn [mbind option_bind]. apply (strnunvis_loop_ok arr sz src 0 S_GROUND _ [] more Hsz Hn Hm). split; [by rewrite length_insert|]. split; [by rewrite take_nil|].
    split; [by rewrite drop_insert_lt by lia|]. intros _. apply list_lookup_insert_eq. lia.
  - cbn [mbind option_bind]. apply (strnunvis_loop_ok arr sz src 0 S_GROUND _ [] more Hsz Hn Hm). split; [done|]. split; [by rewrite take_nil|]. split; [done|lia].
Qed.

(** ** The encoder in its bound *)

(** As many encodings, whole, as there is room for. *)
Fixpoint fitting (signed : bool) (flag : Z) (room : nat) (s : list Z) : list Z :=
  match s with
  | [] => []
  | c :: s =>
      let cs := vis_bytes (char signed c) flag (char signed (hd 0 s)) in
      if (length cs <=? room)%nat then cs ++ fitting signed flag (room - length cs) s else []
  end.

Lemma fitting_length signed flag s : forall room, (length (fitting signed flag room s) <= room)%nat.
Proof.
  induction s as [|c s IH]; intros room; cbn [fitting]; [cbn; lia|]. cbv zeta. set (cs := vis_bytes _ _ _). destruct (Nat.leb_spec (length cs) room); [|cbn; lia].
  rewrite length_app. specialize (IH (room - length cs)%nat). lia.
Qed.

Lemma vis_tbuf c flag n : exists t, vis tbuf 0 c flag n = Some (t, length (vis_bytes c flag n)) /\ take (length (vis_bytes c flag n)) t = vis_bytes c flag n.
Proof.
  pose proof (vis_bytes_length c flag n) as Hl. pose proof (vis_at [] tbuf c flag n ltac:(cbn; lia)) as E. cbn [app length] in E. eexists. split; [exact E|]. apply take_app_length.
Qed.

Lemma strnvis_rest_ok signed flag s : forall dst more, nonul s -> ended more -> strnvis_rest signed dst (s ++ more) flag = Some (dst + Z.of_nat (length (encoding signed flag s))).
Proof.
  induction s as [|c s IH]; intros dst more Hn Hm.
  - cbn. destruct more as [|z more]; [|unfold ended in Hm; cbn in Hm; subst z]; cbn; do 2 f_equal; lia.
  - apply Forall_cons in Hn as [Hc Hn]. cbn [app strnvis_rest encoding]. destruct (Z.eqb_spec c 0); [done|]. rewrite hd_app_ended by done. destruct (vis_tbuf (char signed c) flag (char signed (hd 0 s))) as (t & -> & _).
    cbn [mbind option_bind]. rewrite IH by done. by rewrite length_app, Nat2Z.inj_add, Z.add_assoc.
Qed.

Lemma puts_room pre rest cs room : (length cs <= room)%nat -> (room <= length rest)%nat -> puts (pre ++ rest) (length pre) cs = Some ((pre ++ cs) ++ drop (length cs) rest).
Proof. intros H1 H2. rewrite puts_at by lia. by rewrite app_assoc. Qed.

Lemma strnvis_loop_ok signed flag s : forall pre rest room i more, bytes s -> nonul s -> ended more -> (room <= length rest)%nat ->
  let f := fitting signed flag room s in
  exists left i', strnvis_loop signed (pre ++ rest) (length pre) (s ++ more) (Z.of_nat (length pre + room)) flag i = Some (pre ++ f ++ drop (length f) rest, length (pre ++ f), left ++ more, i') /\
    nonul left /\ (length f + length (encoding signed flag left) = length (encoding signed flag s))%nat /\
    (left = [] \/ (0 < room)%nat /\ Z.of_nat (length pre + length f) + i' > Z.of_nat (length pre + room) \/ room = O /\ i' = i).
Proof.
  induction s as [|b s IH]; intros pre rest room i more Hb Hn Hm Hr f.
  { exists [], i. cbn [f fitting app length encoding]. rewrite drop_0, app_nil_r. split; [|split; [done|]; split; [done|by left]]. destruct more as [|z more]; [done|]. unfold ended in Hm. cbn in Hm. by subst z. }
  apply Forall_cons in Hb as [Hb Hbs]. apply Forall_cons in Hn as [Hc Hn]. destruct (char_byte signed b Hb) as [Hu Heq]. cbn [app strnvis_loop]. rewrite hd_app_ended by done. unfold f. clear f. cbn [fitting encoding]. cbv zeta.
  assert (Hend : forall i', ((1 <= room)%nat -> Z.of_nat (length pre) + i' > Z.of_nat (length pre + room)) -> (room = O -> i' = i) ->
      exists left i'', Some (pre ++ rest, length pre, b :: s ++ more, i') = Some (pre ++ [] ++ drop 0 rest, length (pre ++ []), left ++ more, i'') /\ nonul left /\
      (0 + length (encoding signed flag left) = length (encoding signed flag (b :: s)))%nat /\ (left = [] \/ (0 < room)%nat /\ Z.of_nat (length pre + 0) + i'' > Z.of_nat (length pre + room) \/ room = O /\ i'' = i)).
  { intros i' Hi H0. exists (b :: s), i'. rewrite drop_0, app_nil_r. split; [done|]. split; [by apply Forall_cons|]. split; [done|]. right. destruct room as [|room]; [right; split; [done|by apply H0]|left; rewrite Nat.add_0_r; split; [lia|apply Hi; lia]]. }
  set (cs := vis_bytes (char signed b) flag (char signed (hd 0 s))) in *. pose proof (vis_bytes_length (char signed b) flag (char signed (hd 0 s))) as Hcs. fold cs in Hcs.
  assert (Hgo : forall k, (length cs <= room)%nat -> 1 <= k -> exists left i', strnvis_loop signed ((pre ++ cs) ++ drop (length cs) rest) (length pre + length cs) (s ++ more) (Z.of_nat (length pre + room)) flag k =
      Some (pre ++ (cs ++ fitting signed flag (room - length cs) s) ++ drop (length (cs ++ fitting signed flag (room - length cs) s)) rest, length (pre ++ cs ++ fitting signed flag (room - length cs) s), left ++ more, i') /\
      nonul left /\ (length (cs ++ fitting signed flag (room - length cs) s) + length (encoding signed flag left) = length (cs ++ encoding signed flag s))%nat /\
      (left = [] \/ (0 < room)%nat /\ Z.of_nat (length pre + length (cs ++ fitting signed flag (room - length cs) s)) + i' > Z.of_nat (length pre + room) \/ room = O /\ i' = i)).
  { intros k Hfit Hk. destruct (IH (pre ++ cs) (drop (length cs) rest) (room - length cs)%nat k more Hbs Hn Hm ltac:(rewrite length_drop; lia)) as (left & i' & E & Hnl & Hlen & Hend').
    exists left, i'. rewrite !length_app in E. replace (length pre + length cs + (room - length cs))%nat with (length pre + room)%nat in E by lia. rewrite E. split; [|split; [done|]; split; [rewrite !length_app; lia|]].
    - rewrite <- !app_assoc, !length_app, drop_drop. do 4 f_equal. lia.
    - destruct Hend' as [->|[[_ H]|[H1 H2]]]; [by left|right; left; rewrite !length_app in *; lia|]. right. left. subst i'. rewrite !length_app. lia. }
  destruct (Z.eqb_spec b 0); [done|]. cbn [orb]. destruct (Z.ltb_spec (Z.of_nat (length pre)) (Z.of_nat (length pre + room))) as [Hlt|Hge]; cbn [negb].
  2:{ destruct (Nat.leb_spec (length cs) room); [lia|]. apply Hend; lia. }
  destruct (isvisible (char signed b) flag) eqn:Ev.
  - rewrite !Heq by lia. assert (Ecs : cs = (if (b =? 34) && has flag VIS_DQ || (b =? 92) && negb (has flag VIS_NOSLASH) then [92] else []) ++ [b]) by (unfold cs, vis_bytes; rewrite Ev, Hu, !Heq by lia; done).
    destruct ((b =? 34) && has flag VIS_DQ || (b =? 92) && negb (has flag VIS_NOSLASH)).
    + cbn [app] in Ecs. assert (L2 : length cs = 2%nat) by (by rewrite Ecs). destruct (Z.geb_spec (Z.of_nat (length pre) + 1) (Z.of_nat (length pre + room))).
      * destruct (Nat.leb_spec (length cs) room); [lia|]. apply Hend; lia.
      * destruct (Nat.leb_spec (length cs) room); [|lia]. rewrite <- Ecs, (puts_room pre rest cs room) by lia. cbn [mbind option_bind]. replace (length pre + 2)%nat with (length pre + length cs)%nat by lia.
        apply Hgo; lia.
    + cbn [app] in Ecs. assert (L1 : length cs = 1%nat) by (by rewrite Ecs). destruct (Nat.leb_spec (length cs) room); [|lia]. rewrite <- Ecs, (puts_room pre rest cs room) by lia. cbn [mbind option_bind].
      replace (length pre + 1)%nat with (length pre + length cs)%nat by lia. apply Hgo; lia.
  - destruct (vis_tbuf (char signed b) flag (char signed (hd 0 s))) as (t & -> & Et). fold cs in Et |- *. cbn [mbind option_bind]. rewrite Et.
    destruct (Z.leb_spec (Z.of_nat (length pre) + Z.of_nat (length cs)) (Z.of_nat (length pre + room))).
    + destruct (Nat.leb_spec (length cs) room); [|lia]. rewrite (puts_room pre rest cs room) by lia. cbn [mbind option_bind]. apply Hgo; lia.
    + destruct (Nat.leb_spec (length cs) room); [lia|]. apply Hend; lia.
Qed.

(** ** Theorems *)

Lemma vis_bytes_nonul signed b flag n : 0 <= b < 256 -> nonul (vis_bytes (char signed b) flag n).
Proof.
  intros Hb. destruct (char_byte signed b Hb) as [Hu Heq]. unfold vis_bytes, nonul. rewrite Hu.
  assert (Hdig : forall x, (x .& 7) + 48 <> 0) by (intros x; pose proof (Z.land_nonneg x 7) as [_ H]; specialize (H ltac:(right; lia)); lia).
  destruct (isvisible (char signed b) flag) eqn:Ev.
  - apply Forall_app. split; [destruct (_ || _); repeat constructor; lia|]. apply Forall_cons. split; [intros ->; revert Ev; unfold isvisible; destruct signed; cbn; rewrite !andb_false_r; destruct (has flag VIS_ALL); done|apply List.Forall_nil].
  - rewrite cstyle_char by done. destruct (if has flag VIS_CSTYLE then cstyle b else None) as [l|] eqn:El.
    + destruct (has flag VIS_CSTYLE); [|done]. assert (Hl : l <> 0) by (unfold cstyle in El; repeat case_match; congruence). apply Forall_app. split; [by repeat (apply Forall_cons; split; [lia|])|]. destruct (_ && _); by repeat (apply Forall_cons; split; [lia|]).
    + destruct (_ || _); [by repeat (apply Forall_cons; split; [first [apply Hdig|lia]|])|].
      set (P := fun b => let c := char signed b in let meta := negb (c .& 0x80 =? 0) in let c' := if meta then c .& 0x7f else c in
        forallb (fun x => negb (x =? 0)) ((if meta then [77] else []) ++ (if iscntrl (u8 c') then [94; if c' =? 0x7f then 63 else u8 (c' + 64)] else [45; u8 c']))).
      assert (E : P b = true) by (apply all_bytes; [unfold P; destruct signed; vm_compute; reflexivity|done]). unfold P in E. cbv zeta in E |- *. apply Forall_app. split; [destruct (negb (has flag VIS_NOSLASH)); by repeat (apply Forall_cons; split; [lia|])|].
      apply Forall_forall. intros x Hx. rewrite forallb_forall in E. specialize (E x ltac:(by apply list_elem_of_In)). by destruct (Z.eqb_spec x 0).
Qed.
Lemma encoding_nonul signed flag s : bytes s -> nonul (encoding signed flag s).
Proof. induction 1 as [|b s Hb Hs IH]; [apply List.Forall_nil|]. cbn [encoding]. apply Forall_app. split; [by apply vis_bytes_nonul|done]. Qed.

(** C23: What strvis and strvisx write, at most four bytes for each and a NUL,
    strunvis decodes to the bytes that were encoded, with any flags but
    VIS_NOSLASH, with char signed or not; strvis does as strvisx on a string.
    The three return the number of bytes before the NUL as an int: the number
    itself when it is below 2^31, else what is left of it in 32 bits. *)
Theorem vis_roundtrip signed flag s more arr arr2 : bytes s -> has flag VIS_NOSLASH = false -> ended more -> (4 * length s < length arr)%nat -> (length s < length arr2)%nat ->
  exists arr' n, strvisx signed arr (s ++ more) (length s) flag = Some (arr', sgn 32 (Z.of_nat n)) /\
    (nonul s -> strvis signed arr (s ++ more) flag = Some (arr', sgn 32 (Z.of_nat n))) /\ (length s <= n <= 4 * length s)%nat /\
    nonul (take n arr') /\ drop n arr' = 0 :: drop (S n) arr /\
    strunvis arr2 arr' = Some (s ++ 0 :: drop (S (length s)) arr2, sgn 32 (Z.of_nat (length s))).
Proof.
  intros Hs Hns Hm Ha Ha2. pose proof (encoding_length signed flag s) as Hl. set (e := encoding signed flag s) in *. exists (e ++ 0 :: drop (S (length e)) arr), (length e).
  split; [apply strvisx_ok; fold e; lia|]. split; [intros Hn; apply strvis_ok; [done|done|fold e; lia]|]. split; [lia|]. rewrite take_app_length, drop_app_length. split; [by apply encoding_nonul|]. split; [done|].
  pose proof (decode_encoding signed flag s 0 Hs Hns) as E. fold e in E. pose proof (strunvis_ok e (0 :: drop (S (length e)) arr) arr2 (encoding_nonul _ _ _ Hs) eq_refl) as H. cbv zeta in H. rewrite E in H. cbn [fst snd] in H. apply H. lia.
Qed.

Lemma vis_roundtrip_witness : exists arr' n, strvisx true (replicate 33 7) [0; 49; 92; 34; 32; 233; 10; 127] 8 (2 + 512 + 1024) = Some (arr', n) /\ n = 23 /\
  strunvis (replicate 9 7) arr' = Some ([0; 49; 92; 34; 32; 233; 10; 127; 0], 8).
Proof.
  assert (Hs : bytes [0; 49; 92; 34; 32; 233; 10; 127]) by (repeat (apply Forall_cons; split; [unfold word; lia|]); apply List.Forall_nil).
  destruct (vis_roundtrip true (2 + 512 + 1024) [0; 49; 92; 34; 32; 233; 10; 127] [] (replicate 33 7) (replicate 9 7) Hs eq_refl eq_refl ltac:(cbn; lia) ltac:(cbn; lia)) as (arr' & n & E & _ & _ & _ & _ & E2).
  exists arr', (sgn 32 (Z.of_nat n)). split; [exact E|]. generalize dependent (sgn 32 (Z.of_nat n)). intros r E. vm_compute in E. injection E as <- <-. split; [reflexivity|exact E2].
Defined.

Lemma fitting_all signed flag s : forall room, (length (encoding signed flag s) <= room)%nat -> fitting signed flag room s = encoding signed flag s.
Proof.
  induction s as [|c s IH]; intros room Hl; [done|]. cbn [fitting encoding] in *. cbv zeta. set (cs := vis_bytes _ _ _) in *. rewrite length_app in Hl.
  destruct (Nat.leb_spec (length cs) room); [|lia]. by rewrite IH by lia.
Qed.

Lemma strlen_app s more : nonul s -> ended more -> strlen (s ++ more) = length s.
Proof.
  induction 1 as [|c s Hc Hs IH]; intros Hm.
  - destruct more as [|z more]; [done|]. unfold ended in Hm. cbn in Hm. by subst z.
  - cbn [app strlen length]. destruct (Z.eqb_spec c 0); [done|]. by rewrite IH.
Qed.

Lemma strnvis_ok signed flag s more arr siz : bytes s -> nonul s -> ended more -> (siz <= length arr)%nat ->
  let f := fitting signed flag (siz - 1) s in
  strnvis signed arr (s ++ more) siz flag = Some (if (siz =? 0)%nat then arr else f ++ 0 :: drop (S (length f)) arr, if (siz =? 1)%nat then 0 else sgn 32 (Z.of_nat (length (encoding signed flag s)))).
Proof.
  intros Hb Hn Hm Hsz. cbv zeta. unfold strnvis. destruct siz as [|siz].
  { assert (E : strnvis_loop signed arr 0 (s ++ more) (Z.of_nat 0 - 1) flag 0 = Some (arr, O, s ++ more, 0)) by (destruct (s ++ more) as [|b src]; [done|]; cbn [strnvis_loop]; by rewrite orb_true_r).
    rewrite E. cbn [mbind option_bind Nat.ltb Nat.leb Nat.eqb]. change (Z.of_nat 0 + 0 >? Z.of_nat 0 - 1) with true. cbv iota. by rewrite strnvis_rest_ok. }
  destruct (strnvis_loop_ok signed flag s [] arr siz 0 more Hb Hn Hm ltac:(lia)) as (left & i & E & Hl & Hlen & Hend). pose proof (fitting_length signed flag s siz) as Hfl.
  replace (S siz - 1)%nat with siz by lia. set (f := fitting signed flag siz s) in *. cbn [app length] in *.
  replace (Z.of_nat (0 + siz)) with (Z.of_nat (S siz) - 1) in E by lia. rewrite E. cbn [mbind option_bind Nat.ltb Nat.leb Nat.eqb].
  rewrite (puts_at f) by (rewrite length_drop; cbn; lia). cbn [mbind option_bind length app]. rewrite drop_drop. replace (length f + 1)%nat with (S (length f)) by lia.
  destruct (Z.gtb_spec (Z.of_nat (length f) + i) (Z.of_nat (S siz) - 1)) as [Hgt|Hle].
  - rewrite strnvis_rest_ok by done. cbn [mbind option_bind]. do 2 f_equal. destruct (Nat.eqb_spec siz 0) as [->|]; [|f_equal; lia]. destruct Hend as [->|[[H _]|[_ ->]]]; [|lia|lia]. cbn [encoding length] in *. by replace (length f) with O by lia.
  - cbn [mbind option_bind]. do 2 f_equal. destruct Hend as [->|[[_ H]|[-> ->]]]; [|lia|].
    + cbn in Hlen. destruct (Nat.eqb_spec siz 0) as [->|]; [by replace (length f) with O by lia|f_equal; lia].
    + by replace (length f) with O by lia.
Qed.

Lemma stravis_ok signed flag s more junk mem mem2 : nonul s -> ended more -> mem = true -> 4 * (Z.of_nat (length s) + 1) < 2 ^ 64 ->
  let e := encoding signed flag s in let len := sgn 32 (Z.of_nat (length e)) in
  exists tail, stravis signed junk mem mem2 (s ++ more) flag =
    if len =? 2 ^ 31 - 1 then None
    else Some (Some (if mem2 then realloc junk (e ++ 0 :: tail) (Z.to_nat (u64 (len + 1))) else e ++ 0 :: tail), len).
Proof.
  intros Hn Hm -> Hs e len. unfold stravis. rewrite strlen_app by done. cbn [negb orb]. destruct (Z.geb_spec (4 * (Z.of_nat (length s) + 1)) (2 ^ 64)); [lia|].
  pose proof (encoding_length signed flag s) as Hl. rewrite strvis_ok; [|done|done|rewrite length_map, length_seq; lia]. cbn [mbind option_bind]. by eexists.
Qed.

Lemma take_realloc junk e tail n : (n <= length e)%nat -> realloc junk (e ++ tail) n = take n e.
Proof. intros Hn. unfold realloc. rewrite length_app, take_app_le by done. replace (n - (length e + length tail))%nat with O by lia. apply app_nil_r. Qed.

(** An encoding of 2^32 bytes: the block that is left has one byte, no NUL. *)
Lemma stravis_truncated signed flag s more junk : nonul s -> ended more -> Z.of_nat (length (encoding signed flag s)) = 2 ^ 32 ->
  stravis signed junk true true (s ++ more) flag = Some (Some (take 1 (encoding signed flag s)), 0).
Proof.
  intros Hn Hm He. pose proof (encoding_length signed flag s) as Hl.
  destruct (stravis_ok signed flag s more junk true true Hn Hm eq_refl ltac:(lia)) as (tail & ->). rewrite He. change (sgn 32 (2 ^ 32)) with 0.
  change (Z.to_nat (u64 (0 + 1))) with 1%nat. cbv iota. rewrite take_realloc by lia. done.
Qed.

(** C24: strnvis writes nothing beyond its bound and puts there as many of the
    encodings of the characters, whole, as there is room for, and a NUL; it
    returns the length of the encoding that strvis writes as an int (itself
    when below 2^31), for every size but one, for which it returns 0. stravis
    gives exactly that encoding and its length when it is shorter than
    2^31 - 1 bytes, or -1 without memory. *)
Theorem strnvis_correct signed flag s more arr siz junk mem mem2 : bytes s -> nonul s -> ended more -> (siz <= length arr)%nat ->
  let e := encoding signed flag s in let f := fitting signed flag (siz - 1) s in
  strnvis signed arr (s ++ more) siz flag =
    Some (if (siz =? 0)%nat then arr else f ++ 0 :: drop (S (length f)) arr, if (siz =? 1)%nat then 0 else sgn 32 (Z.of_nat (length e))) /\
  (length f <= siz - 1)%nat /\ ((length e < siz)%nat -> f = e) /\
  (Z.of_nat (length e) < 2 ^ 31 - 1 ->
    exists tail, stravis signed junk mem mem2 (s ++ more) flag = if mem then Some (Some (e ++ 0 :: tail), Z.of_nat (length e)) else Some (None, -1)).
Proof.
  intros Hb Hn Hm Hsz e f. pose proof (fitting_length signed flag s (siz - 1)) as Hfl. fold f in Hfl. split; [|split; [exact Hfl|split]].
  - by apply strnvis_ok.
  - intros He. apply fitting_all. fold e. lia.
  - intros He. destruct mem; [|by exists []]. pose proof (encoding_length signed flag s) as Hl. fold e in Hl.
    destruct (stravis_ok signed flag s more junk true mem2 Hn Hm eq_refl ltac:(lia)) as (tail & ->). fold e. rewrite sgn_small by (change (2 ^ (32 - 1)) with (2 ^ 31); lia).
    destruct (Z.eqb_spec (Z.of_nat (length e)) (2 ^ 31 - 1)); [lia|]. destruct mem2; [|by eexists]. exists [].
    unfold u64. rewrite wrap_small by (unfold word; lia). replace (e ++ 0 :: tail) with ((e ++ [0]) ++ tail) by (by rewrite <- app_assoc).
    rewrite take_realloc by (rewrite length_app; cbn; lia). rewrite take_ge by (rewrite length_app; cbn; lia). done.
Qed.

Lemma strnvis_correct_witness : exists arr', strnvis true (replicate 9 7) ([97; 233; 98] ++ [0; 5]) 5 0 = Some (arr', 6) /\ arr' = [97; 0; 7; 7; 7; 7; 7; 7; 7].
Proof.
  assert (Hb : bytes [97; 233; 98]) by (repeat (apply Forall_cons; split; [unfold word; lia|]); apply List.Forall_nil).
  assert (Hn : nonul [97; 233; 98]) by (repeat (apply Forall_cons; split; [lia|]); apply List.Forall_nil).
  destruct (strnvis_correct true 0 [97; 233; 98] [0; 5] (replicate 9 7) 5 (fun _ => 0) true true Hb Hn eq_refl ltac:(cbn; lia)) as [E _].
  eexists. split; [exact E|vm_compute; reflexivity].
Defined.

(** C40: strunvis and strnunvis decode the same: on every string, which in
    memory has fewer than 2^63 bytes, strnunvis returns the number of bytes
    that the decoder gives, at most one for each character, or -1 where it
    rejects the string; strunvis returns it as an int, the same number as long
    as it is below 2^31. strunvis stores the bytes with a NUL, strnunvis stores
    as many of them as there is room for, with a NUL, and nothing beyond its
    bound. *)
Theorem strnunvis_correct src more arr arr2 sz : nonul src -> ended more -> Z.of_nat (length src) < 2 ^ 63 -> (length src < length arr)%nat -> (sz <= length arr2)%nat ->
  exists d (ok : bool) arr2', decode 0 S_GROUND src = (d, ok) /\ (length d <= length src)%nat /\ let n := if ok then Z.of_nat (length d) else -1 in
    strunvis arr (src ++ more) = Some (d ++ 0 :: drop (S (length d)) arr, sgn 32 n) /\ strnunvis arr2 (src ++ more) sz = Some (arr2', n) /\
    (Z.of_nat (length d) < 2 ^ 31 -> sgn 32 n = n) /\
    length arr2' = length arr2 /\ drop sz arr2' = drop sz arr2 /\ ((0 < sz)%nat -> take (S (Nat.min (length d) (sz - 1))) arr2' = take (sz - 1) d ++ [0]).
Proof.
  intros Hn Hm H63 Ha Hsz. pose proof (decode_length src 0 S_GROUND) as Hl. destruct (strnunvis_ok src more arr2 sz Hsz Hn Hm) as (arr2' & E2 & Hs). change (pending S_GROUND) with 0%nat in Hl.
  pose proof (strunvis_ok src more arr Hn Hm ltac:(lia)) as E. exists (decode 0 S_GROUND src).1, (decode 0 S_GROUND src).2, arr2'. split; [by destruct (decode _ _ _)|]. split; [lia|]. cbv zeta.
  split; [rewrite E; by destruct (decode _ _ _).2|].
  split; [rewrite E2; do 2 f_equal; apply sgn_small; [lia|]; change (2 ^ (64 - 1)) with (2 ^ 63); destruct (decode _ _ _).2; lia|]. split; [|done]. intros Hb. apply sgn_small; [lia|]. change (2 ^ (32 - 1)) with (2 ^ 31). destruct (decode _ _ _).2; lia.
Qed.

Lemma strnunvis_correct_witness : exists arr2', strunvis (replicate 9 7) [92; 77; 45; 105; 92; 48; 97; 98] = Some ([233; 0; 97; 98; 0; 7; 7; 7; 7], 4) /\
  strnunvis (replicate 9 7) [92; 77; 45; 105; 92; 48; 97; 98] 3 = Some (arr2', 4) /\ take 3 arr2' = [233; 0; 0].
Proof.
  assert (Hn : nonul [92; 77; 45; 105; 92; 48; 97; 98]) by (repeat (apply Forall_cons; split; [lia|]); apply List.Forall_nil).
  destruct (strnunvis_correct [92; 77; 45; 105; 92; 48; 97; 98] [] (replicate 9 7) (replicate 9 7) 3 Hn eq_refl eq_refl ltac:(cbn; lia) ltac:(cbn; lia)) as (d & ok & arr2' & Ed & _ & E1 & E2 & _ & _ & _ & H).
  vm_compute in Ed. injection Ed as <- <-. exists arr2'. split; [exact E1|]. split; [exact E2|]. exact (H ltac:(lia)).
Defined.

(** An escape that is not complete at the end is dropped, not rejected. *)
Example incomplete_escape : strunvis (replicate 4 7) [97; 92; 77] = Some ([97; 0; 7; 7], 1).
Proof. reflexivity. Qed.
