(* ===== verification/Ber.v ===== *)
(** * Ber: the BER encoder and decoder of src/src/misc/ber.c.

    Elements are cells of a heap; a dangling or null dereference, a read of an
    object beyond its end, a second free of a string buffer and a loop that does
    not end are [None]. The state is the heap, what malloc has left to give,
    errno, the [struct ber] worked on, the write callbacks made and the string
    buffers that are allocated. The theorems are in the
    files BerWrite, BerRead, BerSafe and BerAdd. *)

From Stdlib Require Import Ascii.
From stdpp Require Import gmultiset.
From S2P Require Import Prelude Strtol.

Notation "'ENOBUFS'" := 105 : musl_scope.
Notation "'ECANCELED'" := 125 : musl_scope.

(** ** ber.h *)
Abbreviation BER_TYPE_DEFAULT := 0xffffffff.
Abbreviation BER_TYPE_EOC := 0.
Abbreviation BER_TYPE_BOOLEAN := 1.
Abbreviation BER_TYPE_INTEGER := 2.
Abbreviation BER_TYPE_BITSTRING := 3.
Abbreviation BER_TYPE_OCTETSTRING := 4.
Abbreviation BER_TYPE_NULL := 5.
Abbreviation BER_TYPE_OBJECT := 6.
Abbreviation BER_TYPE_ENUMERATED := 10.
Abbreviation BER_TYPE_SEQUENCE := 16.
Abbreviation BER_TYPE_SET := 17.
Abbreviation BER_CLASS_UNIVERSAL := 0.
Abbreviation BER_CLASS_MASK := 3.
Abbreviation BER_MIN_OID_LEN := 2.
Abbreviation BER_MAX_OID_LEN := 64.
Abbreviation BER_MAX_SEQ_ELEMENTS := 65535.
Abbreviation BER_TYPE_CONSTRUCTED := 0x20.
Abbreviation BER_TYPE_SINGLE_MAX := 30.
Abbreviation BER_TAG_MASK := 0x1f.
Abbreviation BER_TAG_MORE := 0x80.
Abbreviation BER_TAG_TYPE_MASK := 0x7f.
Abbreviation BER_CLASS_SHIFT := 6.

(** The union: a pointer or a number (the same eight bytes), or a pointer to a
    buffer of its own, which is the list of its bytes. *)
Inductive be_union := Word (w : Z) | Buffer (buf : list Z).

(** Addresses are numbers, 0 is NULL. [be_cb] names the callback (0: none)
    with its argument. *)
Record ber_element := Elm {
  be_next : Z; be_type : Z; be_encoding : Z; be_len : Z; be_offs : Z; be_free : bool; be_class : Z; be_cb : Z; be_un : be_union
}.
Definition with_next (e : ber_element) (x : Z) : ber_element := Elm x (be_type e) (be_encoding e) (be_len e) (be_offs e) (be_free e) (be_class e) (be_cb e) (be_un e).
Definition with_header (e : ber_element) (class type : Z) : ber_element := Elm (be_next e) type (be_encoding e) (be_len e) (be_offs e) (be_free e) class (be_cb e) (be_un e).
Definition with_len (e : ber_element) (len : Z) : ber_element := Elm (be_next e) (be_type e) (be_encoding e) len (be_offs e) (be_free e) (be_class e) (be_cb e) (be_un e).
Definition with_un (e : ber_element) (u : be_union) : ber_element := Elm (be_next e) (be_type e) (be_encoding e) (be_len e) (be_offs e) (be_free e) (be_class e) (be_cb e) u.
Definition with_buffer (e : ber_element) (len : Z) (buf : list Z) : ber_element := Elm (be_next e) (be_type e) (be_encoding e) len (be_offs e) true (be_class e) (be_cb e) (Buffer buf).
Definition with_cb (e : ber_element) (cb : Z) : ber_element := Elm (be_next e) (be_type e) (be_encoding e) (be_len e) (be_offs e) (be_free e) (be_class e) cb (be_un e).
(** What ober_read_element stores of a header: type, length, position, class, encoding. *)
Definition with_read (e : ber_element) (type len offs class encoding : Z) : ber_element := Elm (be_next e) type encoding len offs (be_free e) class (be_cb e) (be_un e).

(** [br_wptr] and [br_rptr] are positions in their buffers, whose lengths are
    [br_wend] and [br_rend]; [None] is NULL. *)
Record ber := Ber { br_offs : Z; br_wbuf : option (list Z); br_wptr : Z; br_rbuf : option (list Z); br_rptr : Z; br_application : option (ber_element -> Z) }.

(** ** The state *)

(** [oracle]: whether the next calls of malloc and calloc succeed (all of them
    when it is used up); [brk]: the next address; [bufs]: the string buffers
    allocated and not freed, one for each, by their contents (the write buffer
    is the business of struct ber and is not among them). *)
Record st := St { heap : gmap Z ber_element; brk : Z; oracle : list bool; errno : Z; br : ber; calls : list (Z * Z); bufs : gmultiset (list Z) }.
Definition M (A : Type) : Type := st -> option (A * st).
#[global] Instance M_ret : MRet M := fun A x s => Some (x, s).
#[global] Instance M_bind : MBind M := fun A B f m s => match m s with Some (x, s) => f x s | None => None end.

Definition stuck {A} : M A := fun _ => None.
Definition load (p : Z) : M ber_element := fun s => e ← heap s !! p; Some (e, s).
Definition with_heap (s : st) (h : gmap Z ber_element) : st := St h (brk s) (oracle s) (errno s) (br s) (calls s) (bufs s).
Definition with_br (s : st) (b : ber) : st := St (heap s) (brk s) (oracle s) (errno s) b (calls s) (bufs s).
Definition with_bufs (s : st) (m : gmultiset (list Z)) : st := St (heap s) (brk s) (oracle s) (errno s) (br s) (calls s) m.
Definition store (p : Z) (f : ber_element -> ber_element) : M unit := fun s => e ← heap s !! p; Some (tt, with_heap s (<[p := f e]> (heap s))).
Definition set_errno (n : Z) : M unit := fun s => Some (tt, St (heap s) (brk s) (oracle s) n (br s) (calls s) (bufs s)).
Definition fail (n : Z) : M Z := _ ← set_errno n; mret (-1).
Definition get_br : M ber := fun s => Some (br s, s).
Definition set_br (b : ber) : M unit := fun s => Some (tt, with_br s b).
Definition call (cb pos : Z) : M unit := fun s => Some (tt, St (heap s) (brk s) (oracle s) (errno s) (br s) (calls s ++ [(cb, pos)]) (bufs s)).

(** Whether there is memory. *)
Definition malloc : M bool := fun s =>
  match oracle s with
  | false :: o => Some (false, St (heap s) (brk s) o ENOMEM (br s) (calls s) (bufs s))
  | _ => Some (true, St (heap s) (brk s) (tail (oracle s)) (errno s) (br s) (calls s) (bufs s))
  end.
(** An element. *)
Definition place (e : ber_element) : M Z := fun s => Some (brk s, St (<[brk s := e]> (heap s)) (brk s + 1) (oracle s) (errno s) (br s) (calls s) (bufs s)).
Definition new (e : ber_element) : M Z := ok ← malloc; if ok : bool then place e else mret 0.
Definition free (p : Z) : M unit := fun s => _ ← heap s !! p; Some (tt, with_heap s (delete p (heap s))).

(** A buffer from malloc or calloc comes to hold [buf]; it is freed, which is
    undefined for one that is not allocated. *)
Definition own (buf : list Z) : M unit := fun s => Some (tt, with_bufs s (bufs s ⊎ {[+ buf +]})).
Definition disown (buf : list Z) : M unit := fun s =>
  if decide (buf ∈ bufs s) then Some (tt, with_bufs s (bufs s ∖ {[+ buf +]})) else None.

Definition nonnull (u : be_union) : bool := match u with Word w => negb (w =? 0) | Buffer _ => true end.
(** The union read as a pointer to an element and as a number; as a pointer
    to a buffer it is NULL or owned. *)
Definition as_word (u : be_union) : M Z := match u with Word w => mret w | Buffer _ => stuck end.
Definition as_buffer (u : be_union) : M (option (list Z)) :=
  match u with Buffer b => mret (Some b) | Word w => if w =? 0 then mret None else stuck end.

(** [free(elm->be_val)] *)
Definition free_buffer (u : be_union) : M unit := v ← as_buffer u; match v with Some buf => disown buf | None => mret tt end.

(** ** Elements *)

Definition is_seq (encoding : Z) : bool := (encoding =? BER_TYPE_SEQUENCE) || (encoding =? BER_TYPE_SET).
Definition is_str (encoding : Z) : bool := (encoding =? BER_TYPE_OCTETSTRING) || (encoding =? BER_TYPE_BITSTRING) || (encoding =? BER_TYPE_OBJECT).

Definition header_of (e : ber_element) (class type : Z) : ber_element :=
  with_header e (class .& BER_CLASS_MASK) (if type =? BER_TYPE_DEFAULT then be_encoding e else type).
Definition ober_set_header (elm class type : Z) : M unit := store elm (fun e => header_of e class type).

(** What calloc and the two stores that follow make of an element. *)
Definition ober_get_element (encoding : Z) : M Z :=
  new (header_of (Elm 0 0 encoding 0 0 false 0 0 (Word 0)) BER_CLASS_UNIVERSAL BER_TYPE_DEFAULT).

Definition ober_link_elements (prev elm : Z) : M unit :=
  if negb (prev =? 0) then
    e ← load prev;
    if is_seq (be_encoding e) && negb (nonnull (be_un e)) then store prev (fun e => with_un e (Word elm))
    else store prev (fun e => with_next e elm)
  else mret tt.

Definition ober_unlink_elements (prev : Z) : M Z :=
  e ← load prev;
  if is_seq (be_encoding e) && nonnull (be_un e) then
    elm ← as_word (be_un e);
    _ ← store prev (fun e => with_un e (Word 0));
    mret elm
  else
    _ ← store prev (fun e => with_next e 0);
    mret (be_next e).

(** Recursion over elements runs on fuel. *)
Fixpoint ober_free_elements (fuel : nat) (root : Z) : M unit :=
  match fuel with
  | O => stuck
  | S fuel =>
      if root =? 0 then mret tt
      else
        e ← load root;
        _ ← (if nonnull (be_un e) && is_seq (be_encoding e) then sub ← as_word (be_un e); ober_free_elements fuel sub else mret tt);
        _ ← (if negb (be_next e =? 0) then ober_free_elements fuel (be_next e) else mret tt);
        _ ← (if be_free e && is_str (be_encoding e) then free_buffer (be_un e) else mret tt);
        free root
  end.
Definition ober_free_element (fuel : nat) (root : Z) : M unit :=
  e ← load root;
  _ ← (if nonnull (be_un e) && is_seq (be_encoding e) then sub ← as_word (be_un e); ober_free_elements fuel sub else mret tt);
  _ ← (if be_free e && is_str (be_encoding e) then free_buffer (be_un e) else mret tt);
  free root.

Definition ober_replace_elements (fuel : nat) (prev new : Z) : M unit :=
  ber ← ober_unlink_elements prev;
  next ← ober_unlink_elements ber;
  _ ← ober_link_elements new next;
  _ ← ober_link_elements prev new;
  ober_free_elements fuel ber.

(** ** Adding elements: the new element, 0 for NULL *)

Definition add (prev encoding : Z) (f : ber_element -> ber_element) : M Z :=
  elm ← ober_get_element encoding;
  if elm =? 0 then mret 0
  else
    _ ← store elm f;
    _ ← ober_link_elements prev elm;
    mret elm.

Definition ober_add_sequence (prev : Z) : M Z := add prev BER_TYPE_SEQUENCE id.
Definition ober_add_set (prev : Z) : M Z := add prev BER_TYPE_SET id.

(** The number of content octets of a [long long]. *)
Definition int_len (val : Z) : Z :=
  let '(_, len, _) :=
    foldl (fun '(val, len, last) i =>
      let cur := val .& 0xff in
      let len := if negb (cur =? 0) && negb (cur =? 0xff) then i else len in
      let len := if ((cur =? 0) && negb (last .& 0x80 =? 0)) || ((cur =? 0xff) && (last .& 0x80 =? 0)) then i else len in
      (val ≫ 8, len, cur)) (val, 0, 0) (seqZ 0 8) in
  len + 1.

Definition ober_add_enumerated (prev val : Z) : M Z := add prev BER_TYPE_ENUMERATED (fun e => with_len (with_un e (Word val)) (int_len val)).
Definition ober_add_integer (prev val : Z) : M Z := add prev BER_TYPE_INTEGER (fun e => with_len (with_un e (Word val)) (int_len val)).
Definition ober_add_boolean (prev bool : Z) : M Z :=
  add prev BER_TYPE_BOOLEAN (fun e => with_len (with_un e (Word (if negb (bool =? 0) then 0xff else 0))) 1).
Definition ober_add_null (prev : Z) : M Z := add prev BER_TYPE_NULL id.
Definition ober_add_eoc (prev : Z) : M Z := add prev BER_TYPE_EOC id.

(** A buffer is allocated before the element, and freed if there is none. *)
Definition add_buffer (prev encoding len : Z) (buf : list Z) : M Z :=
  ok ← malloc;
  if negb ok then mret 0
  else
    _ ← own buf;
    elm ← ober_get_element encoding;
    if elm =? 0 then _ ← disown buf; mret 0
    else
      _ ← store elm (fun e => with_buffer e len buf);
      _ ← ober_link_elements prev elm;
      mret elm.
Definition ober_add_nstring (prev : Z) (string0 : list Z) (len : Z) : M Z :=
  if Z.of_nat (length string0) <? len then stuck
  else add_buffer prev BER_TYPE_OCTETSTRING len (take (Z.to_nat len) string0 ++ [0]).
(** A C string is the list of its bytes before the terminator. *)
Definition ober_add_string (prev : Z) (string : list Z) : M Z := ober_add_nstring prev (string ++ [0]) (Z.of_nat (length string)).
(** [struct ber_octetstring]: the bytes and the length. *)
Definition ober_add_ostring (prev : Z) (s : list Z * Z) : M Z := ober_add_nstring prev s.1 s.2.
Definition ober_add_bitstring (prev : Z) (v0 : list Z) (len : Z) : M Z :=
  if Z.of_nat (length v0) <? len then stuck
  else add_buffer prev BER_TYPE_BITSTRING len (take (Z.to_nat len) v0).

(** [len] bytes of a buffer. *)
Definition copy (buf : list Z) (len : Z) : M (list Z) :=
  if Z.of_nat (length buf) <? len then stuck else mret (take (Z.to_nat len) buf).

(** ** Reading elements: the value, [None] for -1 *)

Definition ober_get_integer (elm : Z) : M (option Z) := e ← load elm; if be_encoding e =? BER_TYPE_INTEGER then n ← as_word (be_un e); mret (Some n) else mret None.
Definition ober_get_enumerated (elm : Z) : M (option Z) := e ← load elm; if be_encoding e =? BER_TYPE_ENUMERATED then n ← as_word (be_un e); mret (Some n) else mret None.
Definition ober_get_boolean (elm : Z) : M (option bool) := e ← load elm; if be_encoding e =? BER_TYPE_BOOLEAN then n ← as_word (be_un e); mret (Some (negb (n =? 0))) else mret None.
Definition ober_get_string (elm : Z) : M (option (option (list Z))) := e ← load elm; if be_encoding e =? BER_TYPE_OCTETSTRING then v ← as_buffer (be_un e); mret (Some v) else mret None.
(** With a place for the length; without one the pointer is NULL. *)
Definition get_buffer (elm encoding : Z) (haslen : bool) : M (option (option (list Z) * Z)) :=
  e ← load elm;
  if be_encoding e =? encoding then
    v ← (if haslen then as_buffer (be_un e) else mret None);
    mret (Some (v, be_len e))
  else mret None.
Definition ober_get_nstring (elm : Z) (haslen : bool) : M (option (option (list Z) * Z)) := get_buffer elm BER_TYPE_OCTETSTRING haslen.
Definition ober_get_ostring (elm : Z) : M (option (option (list Z) * Z)) := get_buffer elm BER_TYPE_OCTETSTRING true.
Definition ober_get_bitstring (elm : Z) (haslen : bool) : M (option (option (list Z) * Z)) := get_buffer elm BER_TYPE_BITSTRING haslen.
Definition ober_get_null (elm : Z) : M Z := e ← load elm; mret (if be_encoding e =? BER_TYPE_NULL then 0 else -1).
Definition ober_get_eoc (elm : Z) : M Z := e ← load elm; mret (if be_encoding e =? BER_TYPE_EOC then 0 else -1).
Definition ober_getpos (elm : Z) : M Z := e ← load elm; mret (be_offs e).
Definition ober_set_writecallback (elm cb : Z) : M unit := store elm (fun e => with_cb e cb).

(** ** Object identifiers *)

(** [bo_id] has 65 cells. *)
Record ber_oid := Oid { bo_id : list Z; bo_n : Z }.

(** The octets of one arc. *)
Definition oid_arc (v : Z) : list Z :=
  foldl (fun out k => if v >=? 1 ≪ k then out ++ [u8 ((v ≫ k) .| BER_TAG_MORE)] else out) [] [28; 21; 14; 7] ++ [v .& BER_TAG_TYPE_MASK].
Fixpoint oid_arcs (fuel : nat) (o : ber_oid) (i v : Z) : list Z :=
  match fuel with
  | O => []
  | S fuel => if i <=? bo_n o then oid_arc v ++ oid_arcs fuel o (i + 1) ((bo_id o).[i]) else []
  end.
(** The octets stored when there is a buffer; the result is their number. *)
Definition ober_oid2ber (o : ber_oid) : list Z :=
  if (bo_n o <? BER_MIN_OID_LEN) || (bo_n o >? BER_MAX_OID_LEN) || ((bo_id o).[0] >? 2) || ((bo_id o).[1] >? 40) then []
  else oid_arcs (Z.to_nat (bo_n o)) o 2 (u32 ((bo_id o).[0] * 40 + (bo_id o).[1])).

Definition oid_clear : list Z := replicate 65 0.

(** [strpbrk(p, "._-")]: what precedes the first of them, and what follows. *)
Fixpoint split_oid (s : list Z) : list Z * option (list Z) :=
  match s with
  | [] => ([], None)
  | c :: s => if (c =? 46) || (c =? 95) || (c =? 45) then ([], Some s) else let '(a, b) := split_oid s in (c :: a, b)
  end.
Fixpoint oid_fields (fuel : nat) (p : list Z) (o : ber_oid) (errno : Z) : Z * ber_oid * Z :=
  match fuel with
  | O => (-1, o, errno)
  | S fuel =>
      let '(sp, p) := split_oid p in
      let '(v, err, errno) := strtonum sp 0 (2 ^ 32 - 1) errno in
      let o := Oid (<[Z.to_nat (bo_n o) := v]> (bo_id o)) (bo_n o + 1) in
      if (match err with Null => false | _ => true end) || (bo_n o >? BER_MAX_OID_LEN) then (-1, o, errno)
      else match p with Some p => oid_fields fuel p o errno | None => (0, o, errno) end
  end.
(** BUFSIZ is 1024. *)
Definition ober_string2oid (oidstr : list Z) (o : ber_oid) (errno : Z) : Z * ber_oid * Z :=
  if Z.of_nat (length oidstr) >=? 1024 then (-1, o, errno) else oid_fields (S (length oidstr)) oidstr (Oid oid_clear 0) errno.

Fixpoint oid_cmp_loop (fuel : nat) (a b : ber_oid) (i : Z) : Z :=
  match fuel with
  | O => 0
  | S fuel =>
      if (i <? bo_n a) && (i <? bo_n b) then
        if (bo_id a).[i] =? (bo_id b).[i] then oid_cmp_loop fuel a b (i + 1)
        else if (bo_id a).[i] <? (bo_id b).[i] then 1 else -1
      else if bo_n a <? bo_n b then 2
      else if bo_n a >? bo_n b then -1 else 0
  end.
Definition ober_oid_cmp (a b : ber_oid) : Z := oid_cmp_loop (S (Z.to_nat (bo_n a))) a b 0.

Definition ober_add_oid (prev : Z) (o : ber_oid) : M Z :=
  elm ← ober_get_element BER_TYPE_OBJECT;
  if elm =? 0 then mret 0
  else
    let buf := ober_oid2ber o in
    let fail := _ ← ober_free_elements 1 elm; mret 0 in
    match buf with
    | [] => fail
    | _ =>
        ok ← malloc;
        if negb ok then fail
        else
          _ ← own buf;
          _ ← store elm (fun e => with_buffer e (Z.of_nat (length buf)) buf);
          _ ← ober_link_elements prev elm;
          mret elm
    end.
Definition ober_add_noid (prev : Z) (o : ber_oid) (n : Z) : M Z :=
  if n >? BER_MAX_OID_LEN then mret 0 else ober_add_oid prev (Oid (bo_id o) (u64 n)).
Definition ober_add_oidstring (prev : Z) (oidstr : list Z) : M Z := fun s =>
  let '(r, o, e) := ober_string2oid oidstr (Oid oid_clear 0) (errno s) in
  let s := St (heap s) (brk s) (oracle s) e (br s) (calls s) (bufs s) in
  if r =? -1 then Some (0, s) else ober_add_oid prev o s.

(** The loop over the content, from the octet [i] on: the arc [j] so far. *)
Fixpoint get_arcs (buf : list Z) (id : list Z) (j : nat) : list Z * nat :=
  match buf with
  | [] => (id, j)
  | c :: buf =>
      if (j <? 64)%nat then
        let id := <[j := u32 (shl32 (id.[Z.of_nat j]) 7 + (c .& 0x7f))]> id in
        get_arcs buf id (if negb (c .& 0x80 =? 0) then j else S j)
      else (id, j)
  end.
Definition ober_get_oid (elm : Z) : M (option ber_oid) :=
  e ← load elm;
  if be_encoding e =? BER_TYPE_OBJECT then
    buf ← as_buffer (be_un e);
    match buf with
    | Some (c :: rest) =>
        let id := <[1%nat := c mod 40]> (<[0%nat := c / 40]> oid_clear) in
        rest ← copy rest (be_len e - 1);
        let '(id, j) := get_arcs rest id 2 in
        mret (Some (Oid id (Z.of_nat j)))
    | _ => stuck
    end
  else mret None.

(** ** Copies *)

Fixpoint ober_dup (fuel : nat) (orig : Z) : M Z :=
  match fuel with
  | O => stuck
  | S fuel =>
      o ← load orig;
      n ← new (with_un (with_next o 0) (Word 0));
      if n =? 0 then mret 0
      else
        let fail := _ ← ober_free_elements fuel n; mret 0 in
        ok ← (if negb (be_next o =? 0) then
                next ← ober_dup fuel (be_next o);
                _ ← store n (fun e => with_next e next);
                mret (negb (next =? 0))
              else mret true);
        if negb ok then fail
        else if is_seq (be_encoding o) then
          if nonnull (be_un o) then
            sub ← as_word (be_un o);
            sub ← ober_dup fuel sub;
            _ ← store n (fun e => with_un e (Word sub));
            if sub =? 0 then fail else mret n
          else mret n
        else if is_str (be_encoding o) then
          v ← as_buffer (be_un o);
          match v with
          | None => mret n
          | Some buf =>
              ok ← malloc;
              if negb ok then fail
              else
                buf ← copy buf (be_len o);
                _ ← own buf;
                _ ← store n (fun e => with_un e (Buffer buf));
                mret n
          end
        else
          num ← as_word (be_un o);
          _ ← store n (fun e => with_un e (Word num));
          mret n
  end.

(** ** Building from a format *)

(** The arguments of ober_printf_elements. *)
Inductive arg := Bytes (b : list Z) | Int (n : Z) | Pointer (p : Z) | OidArg (o : ber_oid).

(** What a conversion does: it links the element it makes ([inl]: whose
    failure is that of the whole), or leaves [ber]. *)
Definition next_int (args : list arg) : M (Z * list arg) := match args with Int n :: args => mret (n, args) | _ => stuck end.
Definition next_bytes (args : list arg) : M (list Z * list arg) := match args with Bytes b :: args => mret (b, args) | _ => stuck end.
Definition next_oid (args : list arg) : M (ber_oid * list arg) := match args with OidArg o :: args => mret (o, args) | _ => stuck end.
Definition next_pointer (args : list arg) : M (Z * list arg) := match args with Pointer p :: args => mret (p, args) | _ => stuck end.

(** One character of the format: [ber], [sub], the arguments left, and
    whether it failed. *)
Definition printf_step (c : ascii) (ber sub : Z) (args : list arg) : M (Z * Z * list arg * bool) :=
  let added (x : Z) (args : list arg) : M (Z * Z * list arg * bool) := mret (x, sub, args, x =? 0) in
  match c with
  | "B"%char => '(p, args) ← next_bytes args; '(len, args) ← next_int args; x ← ober_add_bitstring ber p len; added x args
  | "b"%char => '(d, args) ← next_int args; x ← ober_add_boolean ber (sgn 32 d); added x args
  | "d"%char => '(d, args) ← next_int args; x ← ober_add_integer ber (sgn 32 d); added x args
  | "e"%char => '(e, args) ← next_pointer args; _ ← ober_link_elements ber e; mret (ber, sub, args, false)
  | "E"%char => '(i, args) ← next_int args; x ← ober_add_enumerated ber i; added x args
  | "i"%char => '(i, args) ← next_int args; x ← ober_add_integer ber i; added x args
  | "O"%char => '(o, args) ← next_oid args; x ← ober_add_oid ber o; added x args
  | "o"%char => '(s, args) ← next_bytes args; x ← ober_add_oidstring ber s; added x args
  | "s"%char => '(s, args) ← next_bytes args; x ← ober_add_string ber s; added x args
  | "t"%char => '(class, args) ← next_int args; '(type, args) ← next_int args; _ ← ober_set_header ber class type; mret (ber, sub, args, false)
  | "x"%char => '(s, args) ← next_bytes args; '(len, args) ← next_int args; x ← ober_add_nstring ber s len; added x args
  | "0"%char => x ← ober_add_null ber; added x args
  | "{"%char => x ← ober_add_sequence ber; mret (x, (if x =? 0 then sub else x), args, x =? 0)
  | "("%char => x ← ober_add_set ber; mret (x, (if x =? 0 then sub else x), args, x =? 0)
  | "}"%char | ")"%char => mret (sub, sub, args, false)
  | "."%char => e ← ober_add_eoc ber; mret ((if e =? 0 then ber else e), sub, args, e =? 0)
  | _ => mret (ber, sub, args, false)
  end.

Fixpoint printf_loop (ffuel : nat) (fmt : list ascii) (ber sub : Z) (args : list arg) : M Z :=
  match fmt with
  | [] => mret ber
  | c :: fmt =>
      '(ber, sub, args, failed) ← printf_step c ber sub args;
      if failed : bool then _ ← ober_free_elements ffuel ber; mret 0 else printf_loop ffuel fmt ber sub args
  end.
(** [ffuel] is the fuel for freeing what there is on failure. *)
Definition ober_printf_elements (ffuel : nat) (ber : Z) (fmt : string) (args : list arg) : M Z := printf_loop ffuel (String.list_ascii_of_string fmt) ber ber args.

(** ** Taking apart by a format *)

(** What is stored through the pointers given, those that are NULL left out;
    [ptrs] says which of them are not. *)
Inductive stored := Content (v : option (list Z)) | Number (n : Z) | Element (p : Z) | OidOut (o : ber_oid).
Definition next_ptr (ptrs : list bool) : M (bool * list bool) := match ptrs with b :: ptrs => mret (b, ptrs) | [] => stuck end.
Definition out_if (b : bool) (x : stored) : list stored := if b then [x] else [].

(** One character: whether it fails; whether [ber] moves to its neighbour. *)
Definition scanf_step (c : ascii) (ber : Z) (parent : list Z) (ptrs : list bool) (out : list stored) : M (option (Z * list Z * list bool * list stored * bool)) :=
  let goon ptrs out : M (option (Z * list Z * list bool * list stored * bool)) := mret (Some (ber, parent, ptrs, out, true)) in
  let stay ptrs out : M (option (Z * list Z * list bool * list stored * bool)) := mret (Some (ber, parent, ptrs, out, false)) in
  match c with
  | "$"%char => if negb (ber =? 0) then mret None else stay ptrs out
  | "B"%char =>
      '(p, ptrs) ← next_ptr ptrs; '(l, ptrs) ← next_ptr ptrs; r ← ober_get_bitstring ber l;
      match r with None => mret None | Some (v, n) => goon ptrs (out ++ out_if l (Number n) ++ out_if p (Content v)) end
  | "b"%char => '(d, ptrs) ← next_ptr ptrs; r ← ober_get_boolean ber; match r with None => mret None | Some v => goon ptrs (out ++ out_if d (Number (Z.b2z v))) end
  | "d"%char => '(d, ptrs) ← next_ptr ptrs; r ← ober_get_integer ber; match r with None => mret None | Some v => goon ptrs (out ++ out_if d (Number (sgn 32 v))) end
  | "e"%char => '(e, ptrs) ← next_ptr ptrs; if e : bool then stay ptrs (out ++ [Element ber]) else stuck
  | "E"%char => '(d, ptrs) ← next_ptr ptrs; r ← ober_get_enumerated ber; match r with None => mret None | Some v => goon ptrs (out ++ out_if d (Number v)) end
  | "i"%char => '(d, ptrs) ← next_ptr ptrs; r ← ober_get_integer ber; match r with None => mret None | Some v => goon ptrs (out ++ out_if d (Number v)) end
  | "o"%char =>
      '(d, ptrs) ← next_ptr ptrs; e ← load ber;
      if negb d then if be_encoding e =? BER_TYPE_OBJECT then goon ptrs out else mret None
      else r ← ober_get_oid ber; match r with None => mret None | Some o => goon ptrs (out ++ [OidOut o]) end
  | "S"%char => goon ptrs out
  | "s"%char => '(d, ptrs) ← next_ptr ptrs; r ← ober_get_string ber; match r with None => mret None | Some v => goon ptrs (out ++ out_if d (Content v)) end
  | "t"%char =>
      '(d, ptrs) ← next_ptr ptrs; '(t, ptrs) ← next_ptr ptrs; e ← load ber;
      stay ptrs (out ++ out_if d (Number (be_class e)) ++ out_if t (Number (be_type e)))
  | "x"%char =>
      '(p, ptrs) ← next_ptr ptrs; '(l, ptrs) ← next_ptr ptrs; r ← ober_get_nstring ber l;
      match r with None => mret None | Some (v, n) => goon ptrs (out ++ out_if l (Number n) ++ out_if p (Content v)) end
  | "0"%char => r ← ober_get_null ber; if r =? 0 then goon ptrs out else mret None
  | "."%char => r ← ober_get_eoc ber; if r =? 0 then goon ptrs out else mret None
  | "p"%char => '(d, ptrs) ← next_ptr ptrs; if d : bool then o ← ober_getpos ber; stay ptrs (out ++ [Number o]) else stuck
  | "{"%char | "("%char =>
      e ← load ber;
      if negb (is_seq (be_encoding e)) then mret None
      else if negb (nonnull (be_un e)) || (128 <=? length parent)%nat then mret None
      else sub ← as_word (be_un e); mret (Some (sub, ber :: parent, ptrs, out, false))
  | "}"%char | ")"%char =>
      match parent with
      | [] => mret None
      | p :: parent => mret (Some (p, parent, ptrs, out, true))
      end
  | _ => mret None
  end.

(** The result and what has been stored; [parent] is the stack of the code,
    its top first. *)
Fixpoint scanf_loop (fmt : list ascii) (ber : Z) (parent : list Z) (ptrs : list bool) (out : list stored) : M (Z * list stored) :=
  match fmt with
  | [] => mret (0, out)
  | c :: fmt =>
      if (ber =? 0) && negb (bool_decide (c = "$"%char \/ c = "}"%char \/ c = ")"%char)) then mret (-1, out)
      else
        r ← scanf_step c ber parent ptrs out;
        match r with
        | None => mret (-1, out)
        | Some (ber, parent, ptrs, out, moves) =>
            if moves : bool then e ← load ber; scanf_loop fmt (be_next e) parent ptrs out
            else scanf_loop fmt ber parent ptrs out
        end
  end.
Definition ober_scanf_elements (ber : Z) (fmt : string) (ptrs : list bool) : M (Z * list stored) := scanf_loop (String.list_ascii_of_string fmt) ber [] ptrs [].

(** ** Writing *)

(** [for (t = x; t > 0; t >>= n) size++] on 64 bits *)
Fixpoint count_shifts (fuel : nat) (n t size : Z) : Z :=
  match fuel with
  | O => size
  | S fuel => if t >? 0 then count_shifts fuel n (t ≫ n) (size + 1) else size
  end.

(** The size of the elements; the length of sequences and sets is stored. *)
Fixpoint ober_calc_len (fuel : nat) (root : Z) : M Z :=
  match fuel with
  | O => stuck
  | S fuel =>
      e ← load root;
      _ ← (if nonnull (be_un e) && is_seq (be_encoding e) then
             sub ← as_word (be_un e);
             len ← ober_calc_len fuel sub;
             store root (fun e => with_len e len)
           else mret tt);
      e ← load root;
      let size := 2 in
      let size := if be_type e >? BER_TYPE_SINGLE_MAX then count_shifts 64 7 (be_type e) size else size in
      let size := if be_len e >=? BER_TAG_MORE then count_shifts 64 8 (be_len e) size else size in
      size ← (if negb (be_next e =? 0) then n ← ober_calc_len fuel (be_next e); mret (size + n) else mret size);
      if (be_class e =? BER_CLASS_UNIVERSAL) && (be_type e =? BER_TYPE_EOC) && (be_len e =? 0) then mret 0
      else mret (u64 (be_len e + size))
  end.

(** A byte, or a block, that does not fit is dropped; the pointer advances. *)
Definition store_bytes (buf : list Z) (p : Z) (bs : list Z) : list Z := take (Z.to_nat p) buf ++ bs ++ drop (Z.to_nat p + length bs) buf.
Definition ober_write (buf : list Z) (len : Z) : M unit :=
  b ← get_br;
  match br_wbuf b with
  | None => stuck
  | Some w =>
      buf ← copy buf len;
      let w := if br_wptr b + len <=? Z.of_nat (length w) then store_bytes w (br_wptr b) buf else w in
      set_br (Ber (br_offs b) (Some w) (br_wptr b + len) (br_rbuf b) (br_rptr b) (br_application b))
  end.
Definition ober_putc (c : Z) : M unit :=
  b ← get_br;
  match br_wbuf b with
  | None => stuck
  | Some w =>
      let w := if br_wptr b + 1 <=? Z.of_nat (length w) then store_bytes w (br_wptr b) [u8 c] else w in
      set_br (Ber (br_offs b) (Some w) (br_wptr b + 1) (br_rbuf b) (br_rptr b) (br_application b))
  end.

Fixpoint putcs (cs : list Z) : M unit :=
  match cs with
  | [] => mret tt
  | c :: cs => _ ← ober_putc c; putcs cs
  end.

(** [for (t = 0; x > 0; x >>= n) buf[t++] = x & mask], [buf] of five bytes. *)
Fixpoint fill (fuel : nat) (n x mask : Z) (buf : list Z) : option (list Z) :=
  match fuel with
  | O => None
  | S fuel =>
      if x >? 0 then if (length buf <? 5)%nat then fill fuel n (x ≫ n) mask (buf ++ [x .& mask]) else None else Some buf
  end.

(** The loop [while (t-- > 0)] over the tag, most significant digit first. *)
Definition tag_octets (buf : list Z) : list Z := rev (imap (fun t x => if (0 <? t)%nat then x .| BER_TAG_MORE else x) buf).

Definition ober_dump_header (e : ber_element) : M unit :=
  let id0 := if be_type e <=? BER_TYPE_SINGLE_MAX then u8 (be_type e .| (be_class e ≪ BER_CLASS_SHIFT)) else u8 (BER_TAG_MASK .| (be_class e ≪ BER_CLASS_SHIFT)) in
  let id := if is_seq (be_encoding e) then id0 .| BER_TYPE_CONSTRUCTED else id0 in
  _ ← ober_putc id;
  _ ← (if be_type e <=? BER_TYPE_SINGLE_MAX then mret tt
       else match fill 6 7 (be_type e) 0x7f [] with None => stuck | Some buf => putcs (tag_octets buf) end);
  if be_len e <? BER_TAG_MORE then ober_putc (be_len e)
  else
    match fill 6 8 (be_len e) 0xff [] with
    | None => stuck
    | Some buf => _ ← ober_putc (Z.of_nat (length buf) .| BER_TAG_MORE); putcs (rev buf)
    end.

(** [for (i = be_len; i > 0; i--)] of a number. *)
Fixpoint put_number (i : nat) (l : Z) : M unit :=
  match i with
  | O => mret tt
  | S j => _ ← ober_putc ((l ≫ (Z.of_nat j * 8)) .& 0xff); put_number j l
  end.
Definition is_num (encoding : Z) : bool := (encoding =? BER_TYPE_BOOLEAN) || (encoding =? BER_TYPE_INTEGER) || (encoding =? BER_TYPE_ENUMERATED).

Fixpoint ober_dump_element (fuel : nat) (root : Z) : M unit :=
  match fuel with
  | O => stuck
  | S fuel =>
      e ← load root;
      _ ← ober_dump_header e;
      _ ← (if negb (be_cb e =? 0) then b ← get_br; call (be_cb e) (br_wptr b) else mret tt);
      _ ← (if is_num (be_encoding e) then
             n ← as_word (be_un e);
             if 8 <? be_len e then stuck else put_number (Z.to_nat (be_len e)) (u64 n)
           else if is_str (be_encoding e) then
             v ← as_buffer (be_un e);
             match v with
             | Some buf => ober_write buf (be_len e)
             | None => if be_len e =? 0 then ober_write [] 0 else stuck
             end
           else if is_seq (be_encoding e) && nonnull (be_un e) then
             sub ← as_word (be_un e); ober_dump_element fuel sub
           else mret tt);
      if be_next e =? 0 then mret tt else ober_dump_element fuel (be_next e)
  end.

Section Write.
(** What is in memory that malloc returns. *)
Context (junk : nat -> Z).

Definition ober_write_elements (fuel : nat) (root : Z) : M Z :=
  len ← ober_calc_len fuel root;
  b ← get_br;
  let w := match br_wbuf b with Some w => if Z.of_nat (length w) <? len then None else Some w | None => None end in
  w ← (match w with
       | Some w => mret (Some w)
       | None => ok ← malloc; mret (if ok : bool then Some (map junk (seq 0 (Z.to_nat len))) else None)
       end);
  b ← get_br;
  match w with
  | None => _ ← set_br (Ber (br_offs b) None (br_wptr b) (br_rbuf b) (br_rptr b) (br_application b)); mret (-1)
  | Some w =>
      _ ← set_br (Ber (br_offs b) (Some w) 0 (br_rbuf b) (br_rptr b) (br_application b));
      _ ← ober_dump_element fuel root;
      mret len
  end.
End Write.

(** The buffer, and its length as the result. *)
Definition ober_get_writebuf : M (option (list Z)) := b ← get_br; mret (br_wbuf b).
(** The buffer is freed; the pointer to it dangles, which [None] stands for:
    the code may not use the struct for writing again. *)
Definition ober_free : M unit := b ← get_br; set_br (Ber (br_offs b) None (br_wptr b) (br_rbuf b) (br_rptr b) (br_application b)).

(** ** Reading *)

Definition ober_set_readbuf (buf : list Z) : M unit := b ← get_br; set_br (Ber (br_offs b) (br_wbuf b) (br_wptr b) (Some buf) 0 (br_application b)).
Definition ober_set_application (cb : option (ber_element -> Z)) : M unit := b ← get_br; set_br (Ber (br_offs b) (br_wbuf b) (br_wptr b) (br_rbuf b) (br_rptr b) cb).

(** The bytes read, [None] for -1. *)
Definition ober_read (len : Z) : M (option (list Z)) :=
  b ← get_br;
  match br_rbuf b with
  | None => _ ← set_errno ENOBUFS; mret None
  | Some r =>
      if len >? Z.of_nat (length r) - br_rptr b then _ ← set_errno ECANCELED; mret None
      else
        _ ← set_br (Ber (br_offs b + len) (br_wbuf b) (br_wptr b) (Some r) (br_rptr b + len) (br_application b));
        mret (Some (take (Z.to_nat len) (drop (Z.to_nat (br_rptr b)) r)))
  end.
Definition ober_getc : M (option Z) := r ← ober_read 1; mret (match r with Some [c] => Some c | _ => None end).

(** The loop over the octets of a tag, of which at most four are taken: the
    tag and the octets read. *)
Fixpoint get_tag (fuel : nat) (t i : Z) : M (option (Z * Z)) :=
  match fuel with
  | O => stuck
  | S fuel =>
      u ← ober_getc;
      match u with
      | None => mret None
      | Some u =>
          if (i =? 0) && (u .& 0x7f =? 0) then _ ← set_errno EINVAL; mret None
          else
            let t := shl32 t 7 .| (u .& 0x7f) in
            let i := i + 1 in
            if i >? 4 then _ ← set_errno ERANGE; mret None
            else if negb (u .& BER_TAG_MORE =? 0) then get_tag fuel t i else mret (Some (t, i))
      end
  end.
(** The octets read, the tag, the class and whether the encoding is constructed. *)
Definition get_id : M (option (Z * Z * Z * bool)) :=
  u ← ober_getc;
  match u with
  | None => mret None
  | Some u =>
      let class := (u ≫ BER_CLASS_SHIFT) .& BER_CLASS_MASK in
      let cstruct := u .& BER_TYPE_CONSTRUCTED =? BER_TYPE_CONSTRUCTED in
      if negb (u .& BER_TAG_MASK =? BER_TAG_MASK) then mret (Some (1, u .& BER_TAG_MASK, class, cstruct))
      else
        r ← get_tag 6 0 0;
        mret (match r with Some (t, i) => Some (i + 1, t, class, cstruct) | None => None end)
  end.

Fixpoint len_octets (n : nat) (s : Z) : M (option Z) :=
  match n with
  | O => mret (Some s)
  | S n =>
      u ← ober_getc;
      match u with None => mret None | Some u => len_octets n (sgn 64 (s ≪ 8) .| u) end
  end.
(** The octets read and the length. *)
Definition get_len : M (option (Z * Z)) :=
  u ← ober_getc;
  match u with
  | None => mret None
  | Some u =>
      if u .& BER_TAG_MORE =? 0 then mret (Some (1, u))
      else if u =? 0x80 then _ ← set_errno EINVAL; mret None
      else if u =? 0xff then _ ← set_errno EINVAL; mret None
      else
        let n := u .& 0x7f in
        if 4 <? n then _ ← set_errno ERANGE; mret None
        else
          s ← len_octets (Z.to_nat n) 0;
          match s with
          | None => mret None
          | Some s => if s <? 0 then _ ← set_errno ERANGE; mret None else mret (Some (n + 1, s))
          end
  end.

(** The octets of a number: [None] for -1. *)
Fixpoint number_octets (n : nat) (i val last : Z) : M (option Z) :=
  match n with
  | O => mret (Some val)
  | S n =>
      c ← ober_getc;
      match c with
      | None => mret None
      | Some c =>
          if ((i =? 1) && (last =? 0) && (c .& 0x80 =? 0)) || ((i =? 1) && (last =? 0xff) && negb (c .& 0x80 =? 0)) then _ ← set_errno EINVAL; mret None
          else number_octets n (i + 1) (sgn 64 (val ≪ 8) .| c) c
      end
  end.
Definition read_number (elm encoding len : Z) : M bool :=
  if (encoding =? BER_TYPE_BOOLEAN) && negb (len =? 1) then _ ← set_errno EINVAL; mret false
  else if len <? 1 then _ ← set_errno EINVAL; mret false
  else if len >? 8 then _ ← set_errno ERANGE; mret false
  else
    val ← number_octets (Z.to_nat len) 0 0 0;
    match val with
    | None => mret false
    | Some val =>
        let val := if (len <? 8) && negb ((val ≫ ((len - 1) * 8)) .& 0x80 =? 0) then sgn 64 (val .| shl64 (2 ^ 64 - 1) (len * 8)) else val in
        _ ← store elm (fun e => with_un e (Word val));
        mret true
    end.

(** Content into a buffer of [extra] more bytes, set to 0. *)
Definition read_buffer (elm len : Z) (extra : list Z) : M bool :=
  ok ← malloc;
  if negb ok then _ ← store elm (fun e => with_un e (Word 0)); mret false
  else
    r ← ober_read len;
    match r with
    | Some bs => _ ← own (bs ++ extra); _ ← store elm (fun e => with_buffer e len (bs ++ extra)); mret true
    | None => stuck
    end.

(** Identifier, length and what they say of the element: the octets of both
    with those of the content, and the length. *)
Definition read_header (elm : Z) : M (option (Z * Z)) :=
  id ← get_id;
  match id with
  | None => mret None
  | Some (r, type, class, cstruct) =>
      l ← get_len;
      match l with
      | None => mret None
      | Some (r', len) =>
          let totlen := r + (r' + len) in
          if (class =? BER_CLASS_UNIVERSAL) && ((type =? BER_TYPE_BOOLEAN) || (type =? BER_TYPE_INTEGER) || (type =? BER_TYPE_ENUMERATED) || (type =? BER_TYPE_NULL)) && cstruct
          then _ ← set_errno EINVAL; mret None
          else
            b ← get_br;
            if len >? Z.of_nat (length (default [] (br_rbuf b))) - br_rptr b then _ ← set_errno ECANCELED; mret None
            else
              _ ← store elm (fun e => with_read e type len (br_offs b) class (be_encoding e));
              e ← load elm;
              let encoding :=
                if be_encoding e =? 0 then
                  if cstruct then BER_TYPE_SEQUENCE
                  else if class =? BER_CLASS_UNIVERSAL then type
                  else match br_application b with Some f => f e | None => BER_TYPE_NULL end
                else be_encoding e in
              _ ← store elm (fun e => with_read e type len (br_offs b) class encoding);
              mret (Some (totlen, len))
      end
  end.

(** The octets of the element, [None] for -1. *)
Fixpoint ober_read_element (fuel : nat) (elm : Z) {struct fuel} : M (option Z) :=
  match fuel with
  | O => stuck
  | S fuel =>
      h ← read_header elm;
      match h with
      | None => mret None
      | Some (totlen, len) =>
          e ← load elm;
          let encoding := be_encoding e in
          ok ← (if is_num encoding then read_number elm encoding len
                else if encoding =? BER_TYPE_BITSTRING then read_buffer elm len []
                else if (encoding =? BER_TYPE_OCTETSTRING) || (encoding =? BER_TYPE_OBJECT) then read_buffer elm len [0]
                else if encoding =? BER_TYPE_NULL then
                  if negb (len =? 0) then _ ← set_errno EINVAL; mret false else mret true
                else if is_seq encoding then
                  next ← as_word (be_un e);
                  next ← (if next =? 0 then n ← ober_get_element 0; _ ← store elm (fun e => with_un e (Word n)); mret n else mret next);
                  if next =? 0 then mret false else read_content fuel next len 0
                else mret true);
          mret (if ok : bool then Some totlen else None)
      end
  end
with read_content (fuel : nat) (next len elements : Z) {struct fuel} : M bool :=
  match fuel with
  | O => stuck
  | S fuel =>
      if len >? 0 then
        if elements >=? BER_MAX_SEQ_ELEMENTS then _ ← set_errno ERANGE; mret false
        else
          r ← ober_read_element fuel next;
          match r with
          | None => mret false
          | Some r =>
              let len := len - r in
              e ← load next;
              if (len >? 0) && (be_next e =? 0) then
                n ← ober_get_element 0;
                _ ← store next (fun e => with_next e n);
                if n =? 0 then mret false else read_content fuel n len (elements + 1)
              else if len >? 0 then read_content fuel (be_next e) len (elements + 1)
              else mret true
          end
      else mret true
  end.

(** [elm]: 0 to have the elements allocated. *)
Definition ober_read_elements (fuel : nat) (elm : Z) : M Z :=
  root ← (if elm =? 0 then ober_get_element 0 else mret elm);
  if root =? 0 then mret 0
  else
    r ← ober_read_element fuel root;
    match r with
    | Some _ => mret root
    | None => _ ← (if elm =? 0 then ober_free_elements fuel root else mret tt); mret 0
    end.
