(* ===== verification/BerOctets.v ===== *)
(** * BerOctets: the octets of BER identifiers, lengths and numbers.

    The reference is X.690: digits in a base, most significant first and no
    more of them than needed, two's complement numbers. The loops of [Ber] that
    write and read them are proved against it here, [BerProof] has the rest. *)

From S2P Require Import Prelude Ber.

(** ** The reference (X.690, 8.1.2, 8.1.3, 8.3) *)

Module X690.
(** Least significant digit first, no leading zero. *)
Fixpoint digits (fuel : nat) (b x : Z) : list Z :=
  match fuel with
  | O => []
  | S fuel => if x <=? 0 then [] else x mod b :: digits fuel b (x / b)
  end.
(** Most significant first. *)
Definition number (b x : Z) : list Z := rev (digits 64 b x).
(** All octets but the last have their top bit set. *)
Fixpoint chain (ds : list Z) : list Z :=
  match ds with
  | [] => []
  | [d] => [d]
  | d :: ds => d + 128 :: chain ds
  end.

Definition identifier (class type : Z) (constructed : bool) : list Z :=
  let lead := class * 64 + (if constructed then 32 else 0) in
  if type <=? 30 then [lead + type] else (lead + 31) :: chain (number 128 type).
Definition length_octets (len : Z) : list Z :=
  if len <? 128 then [len] else (128 + Z.of_nat (length (number 256 len))) :: number 256 len.
(** [n] octets of two's complement. *)
Fixpoint content (n : nat) (x : Z) : list Z :=
  match n with
  | O => []
  | S n => (x / 256 ^ Z.of_nat n) mod 256 :: content n x
  end.
Definition fits (n x : Z) : Prop := - 2 ^ (8 * n - 1) <= x < 2 ^ (8 * n - 1).
End X690.
Import X690.

(** ** Digits *)

Lemma digits_value fuel b x : 1 < b -> 0 <= x < b ^ Z.of_nat fuel -> foldr (fun d a => d + b * a) 0 (digits fuel b x) = x.
Proof.
  intros Hb. revert x. induction fuel as [|fuel IH]; intros x Hx; [cbn in *; lia|]. cbn [digits]. destruct (Z.leb_spec x 0) as [|H0]; [cbn; lia|]. cbn [foldr].
  rewrite Nat2Z.inj_succ, Z.pow_succ_r in Hx by lia. rewrite IH.
  - rewrite (Z.div_mod x b) at 3 by lia. lia.
  - split; [apply Z.div_pos; lia|apply Z.div_lt_upper_bound; lia].
Qed.

Lemma digits_range fuel b x : 1 < b -> Forall (fun d => 0 <= d < b) (digits fuel b x).
Proof.
  intros Hb. revert x. induction fuel as [|fuel IH]; intros x; [apply List.Forall_nil|]. cbn [digits]. destruct (x <=? 0); [apply List.Forall_nil|].
  apply Forall_cons. split; [apply Z.mod_pos_bound; lia|apply IH].
Qed.

Lemma digits_length fuel b x k : 1 < b -> x < b ^ Z.of_nat k -> (length (digits fuel b x) <= k)%nat.
Proof.
  intros Hb. revert x k. induction fuel as [|fuel IH]; intros x k Hx; [cbn; lia|]. cbn [digits]. destruct (Z.leb_spec x 0); [cbn; lia|].
  destruct k as [|k]; [cbn in Hx; lia|]. cbn [length]. rewrite Nat2Z.inj_succ, Z.pow_succ_r in Hx by lia.
  specialize (IH (x / b) k ltac:(apply Z.div_lt_upper_bound; lia)). lia.
Qed.

Lemma digits_nonempty b x : 0 < x -> digits 64 b x <> [].
Proof. intros Hx. cbn [digits]. destruct (Z.leb_spec x 0); [lia|done]. Qed.

(** The most significant digit is not 0. *)
Lemma digits_last fuel b x d : 1 < b -> x < b ^ Z.of_nat fuel -> last (digits fuel b x) = Some d -> d <> 0.
Proof.
  intros Hb. revert x. induction fuel as [|fuel IH]; intros x Hx; [done|]. cbn [digits]. destruct (Z.leb_spec x 0) as [|H0]; [done|].
  rewrite Nat2Z.inj_succ, Z.pow_succ_r in Hx by lia. destruct (digits fuel b (x / b)) as [|d' ds] eqn:E.
  - cbn [last]. intros [= <-]. destruct fuel as [|fuel]; [rewrite Z.mod_small by (cbn in Hx; lia); lia|]. cbn [digits] in E.
    destruct (Z.leb_spec (x / b) 0) as [Hd|]; [|done]. pose proof (Z.div_pos x b ltac:(lia) ltac:(lia)). pose proof (Z.div_mod x b ltac:(lia)). replace (x / b) with 0 in * by lia. lia.
  - rewrite last_cons_cons, <- E. apply IH. apply Z.div_lt_upper_bound; lia.
Qed.

(** The loops of the code. *)
Lemma count_shifts_digits fuel n t size : 0 < n -> count_shifts fuel n t size = size + Z.of_nat (length (digits fuel (2 ^ n) t)).
Proof.
  intros Hn. revert t size. induction fuel as [|fuel IH]; intros t size; [cbn; lia|]. cbn [count_shifts digits]. destruct (Z.gtb_spec t 0), (Z.leb_spec t 0); try lia; [|cbn; lia].
  rewrite IH, Z.shiftr_div_pow2 by lia. cbn [length]. lia.
Qed.

Lemma digits_fuel f1 : forall f2 b x, 1 < b -> x < b ^ Z.of_nat f1 -> x < b ^ Z.of_nat f2 -> digits f1 b x = digits f2 b x.
Proof.
  induction f1 as [|f1 IH]; intros f2 b x Hb H1 H2.
  { destruct f2; [done|]. cbn [digits]. cbn in H1. destruct (Z.leb_spec x 0); [done|lia]. }
  destruct f2 as [|f2]; cbn [digits]; destruct (Z.leb_spec x 0) as [|H0]; try done; [cbn in H2; lia|].
  rewrite Nat2Z.inj_succ, Z.pow_succ_r in H1, H2 by lia. f_equal. apply IH; [done|apply Z.div_lt_upper_bound; lia..].
Qed.

Lemma fill_digits f : forall n x buf, 0 < n -> x < (2 ^ n) ^ Z.of_nat f -> (length buf + length (digits f (2 ^ n) x) <= 5)%nat ->
  fill (S f) n x (Z.ones n) buf = Some (buf ++ digits f (2 ^ n) x).
Proof.
  induction f as [|f IH]; intros n x buf Hn Hx Hl.
  { cbn in Hx |- *. destruct (Z.gtb_spec x 0); [lia|]. by rewrite app_nil_r. }
  change (fill (S (S f)) n x (Z.ones n) buf) with
    (if x >? 0 then if (length buf <? 5)%nat then fill (S f) n (x ≫ n) (Z.ones n) (buf ++ [x .& Z.ones n]) else None else Some buf).
  cbn [digits] in *. destruct (Z.gtb_spec x 0), (Z.leb_spec x 0); try lia; [|by rewrite app_nil_r]. cbn [length] in Hl.
  destruct (Nat.ltb_spec (length buf) 5); [|lia]. rewrite Nat2Z.inj_succ, Z.pow_succ_r in Hx by lia.
  assert (0 < 2 ^ n) by (apply Z.pow_pos_nonneg; lia). rewrite Z.shiftr_div_pow2, Z.land_ones by lia.
  rewrite IH; [by rewrite <- app_assoc|done|apply Z.div_lt_upper_bound; lia|rewrite length_app; cbn [length]; lia].
Qed.

(** Read in order, the digits give the number. *)
Definition horner (b t : Z) (ds : list Z) : Z := foldl (fun a d => a * b + d) t ds.

Lemma horner_rev b ds : horner b 0 (rev ds) = foldr (fun d a => d + b * a) 0 ds.
Proof. unfold horner. induction ds as [|d ds IH]; [done|]. cbn [rev foldr]. rewrite foldl_app, IH. cbn [foldl]. lia. Qed.

Lemma horner_number b x : 1 < b -> 0 <= x < b ^ 64 -> horner b 0 (number b x) = x.
Proof. intros Hb Hx. unfold number. rewrite horner_rev. by apply digits_value. Qed.

Lemma number_length b x k : 1 < b -> x < b ^ Z.of_nat k -> (length (number b x) <= k)%nat.
Proof. intros. unfold number. rewrite length_rev. by apply digits_length. Qed.

Lemma number_range b x : 1 < b -> Forall (fun d => 0 <= d < b) (number b x).
Proof. intros Hb. unfold number. apply Forall_rev. by apply digits_range. Qed.

Lemma number_head b x d ds : 1 < b -> x < b ^ 64 -> number b x = d :: ds -> d <> 0.
Proof.
  unfold number. intros Hb Hx E. apply (digits_last 64 b x d Hb Hx). apply (f_equal (@rev Z)) in E. rewrite rev_involutive in E. rewrite E. cbn [rev]. by rewrite last_snoc.
Qed.

Lemma number_nonempty b x : 0 < x -> number b x <> [].
Proof. intros Hx E. apply (digits_nonempty b x Hx). unfold number in E. by apply (f_equal (@rev Z)) in E; rewrite rev_involutive in E. Qed.

Lemma chain_cons d ds : ds <> [] -> chain (d :: ds) = d + 128 :: chain ds.
Proof. by destruct ds. Qed.

Lemma chain_snoc ds d : chain (ds ++ [d]) = map (fun d => d + 128) ds ++ [d].
Proof. induction ds as [|d' ds IH]; [done|]. cbn [app map]. rewrite chain_cons, IH by (by destruct ds). done. Qed.

Lemma chain_length ds : length (chain ds) = length ds.
Proof. induction ds as [|d ds IH]; [done|]. destruct ds; [done|]. rewrite chain_cons by done. cbn [length] in *. by rewrite IH. Qed.

Lemma tag_octets_chain ds : Forall (fun d => 0 <= d < 128) ds -> tag_octets ds = chain (rev ds).
Proof.
  intros H. destruct ds as [|d ds]; [done|]. unfold tag_octets. rewrite imap_cons. cbn [Nat.ltb Nat.leb rev]. rewrite chain_snoc. f_equal.
  apply Forall_cons in H as [_ H]. transitivity (rev (map (fun d => d + 128) ds)); [|by rewrite map_rev]. f_equal.
  rewrite <- imap_const. apply imap_ext. intros i x Hx. cbn [compose]. destruct (Nat.ltb_spec 0 (S i)); [|lia].
  pose proof (Forall_lookup_1 _ _ _ _ H Hx) as Hr. cbv beta in Hr. change (x .| 128 = x + 128). rewrite Z.lor_comm. rewrite (lor_tag 128 x 7) by (reflexivity || lia). lia.
Qed.

(** ** The input *)

(** Running the monad on a state. *)
Ltac run := unfold mbind, M_bind, mret, M_ret; cbv beta iota.
Lemma bind_eq {A B} (m : M A) (f : A -> M B) s x s' : m s = Some (x, s') -> (m ≫= f) s = f x s'.
Proof. intros H. unfold mbind, M_bind. by rewrite H. Qed.
(** Steps over an action whose result is known. *)
Tactic Notation "step" constr(E) := rewrite (bind_eq _ _ _ _ _ E).
Lemma load_ok s p e : heap s !! p = Some e -> load p s = Some (e, s).
Proof. intros H. unfold load. by rewrite H. Qed.
Lemma store_ok s p f e : heap s !! p = Some e -> store p f s = Some (tt, with_heap s (<[p := f e]> (heap s))).
Proof. intros H. unfold store. by rewrite H. Qed.
Lemma free_ok s p e : heap s !! p = Some e -> free p s = Some (tt, with_heap s (delete p (heap s))).
Proof. intros H. unfold free. by rewrite H. Qed.

Definition adv (n : Z) (s : st) : st :=
  let b := br s in with_br s (Ber (br_offs b + n) (br_wbuf b) (br_wptr b) (br_rbuf b) (br_rptr b + n) (br_application b)).
(** What is left of the input. *)
Definition at_input (s : st) (bs : list Z) : Prop :=
  exists r, br_rbuf (br s) = Some r /\ 0 <= br_rptr (br s) /\ br_rptr (br s) = Z.of_nat (length r) - Z.of_nat (length bs) /\ drop (Z.to_nat (br_rptr (br s))) r = bs.

Lemma adv_adv a b s : adv a (adv b s) = adv (b + a) s.
Proof. unfold adv. cbn. by rewrite !Z.add_assoc. Qed.
Lemma adv_0 s : adv 0 s = s.
Proof. destruct s as [h b o e [? ? ? ? ? ?] c]. unfold adv, with_br. cbn. by rewrite !Z.add_0_r. Qed.

Lemma at_input_adv s bs rest : at_input s (bs ++ rest) -> at_input (adv (Z.of_nat (length bs)) s) rest.
Proof.
  intros (r & H1 & H2 & H3 & H4). rewrite length_app in H3. exists r. unfold adv, with_br. cbn. split; [done|]. split; [lia|]. split; [lia|].
  rewrite Z2Nat.inj_add, Nat2Z.id, <- drop_drop, H4 by lia. apply drop_app_length.
Qed.

Lemma ober_read_ok s bs rest : at_input s (bs ++ rest) -> ober_read (Z.of_nat (length bs)) s = Some (Some bs, adv (Z.of_nat (length bs)) s).
Proof.
  intros (r & H1 & H2 & H3 & H4). unfold ober_read, get_br. run. rewrite H1. rewrite length_app in H3. destruct (Z.gtb_spec (Z.of_nat (length bs)) (Z.of_nat (length r) - br_rptr (br s))); [lia|].
  rewrite H4, Nat2Z.id, take_app_length. unfold set_br, adv. cbn. by rewrite H1.
Qed.

Lemma ober_getc_ok s c rest : at_input s (c :: rest) -> ober_getc s = Some (Some c, adv 1 s) /\ at_input (adv 1 s) rest.
Proof.
  intros H. split; [|exact (at_input_adv s [c] rest H)]. unfold ober_getc. run.
  pose proof (ober_read_ok s [c] rest H) as E. cbn [length] in E. change (Z.of_nat 1) with 1 in E. by rewrite E.
Qed.

(** ** Reading identifiers and lengths *)

Lemma bit7 x : 0 <= x < 256 -> (x .& 0x80 =? 0) = (x <? 128) /\ x .& 0x7f = x mod 128.
Proof.
  intros Hx. split.
  - assert (E : forallb (fun x => Bool.eqb (x .& 0x80 =? 0) (x <? 128)) (seqZ 0 256) = true) by (vm_compute; reflexivity).
    rewrite forallb_forall in E. apply Bool.eqb_prop, E, list_elem_of_In, elem_of_seqZ. lia.
  - change 0x7f with (Z.ones 7). by rewrite Z.land_ones by lia.
Qed.

Lemma shl7 t d : 0 <= t < 2 ^ 21 -> 0 <= d < 128 -> shl32 t 7 .| d = t * 128 + d.
Proof.
  intros Ht Hd. unfold shl32, u32. rewrite Z.shiftl_mul_pow2 by lia. change (2 ^ 7) with 128. rewrite wrap_small by (unfold word; lia).
  rewrite (lor_tag _ d 7); [done|lia|done|]. change (2 ^ 7) with 128. apply Z.mod_mul. lia.
Qed.

Lemma shl8 t d : 0 <= t < 2 ^ 48 -> 0 <= d < 256 -> sgn 64 (t ≪ 8) .| d = t * 256 + d.
Proof.
  intros Ht Hd. rewrite Z.shiftl_mul_pow2 by lia. change (2 ^ 8) with 256. unfold sgn. rewrite wrap_small by (unfold word; lia).
  destruct (Z.ltb_spec (t * 256) (2 ^ (64 - 1))); [|lia]. rewrite (lor_tag _ d 8); [done|lia|done|]. change (2 ^ 8) with 256. apply Z.mod_mul. lia.
Qed.

Lemma get_tag_ok ds : forall fuel s t i rest, ds <> [] -> Forall (fun d => 0 <= d < 128) ds -> 0 <= i -> i + Z.of_nat (length ds) <= 4 ->
  0 <= t < 2 ^ (7 * i) -> (i = 0 -> head ds <> Some 0) -> (length ds <= fuel)%nat -> at_input s (chain ds ++ rest) ->
  get_tag fuel t i s = Some (Some (horner 128 t ds, i + Z.of_nat (length ds)), adv (Z.of_nat (length ds)) s).
Proof.
  induction ds as [|d ds IH]; intros fuel s t i rest Hne Hd Hi Hl Ht Hh Hf Hin; [done|]. destruct fuel as [|fuel]; [cbn in Hf; lia|]. cbn [get_tag].
  apply Forall_cons in Hd as [Hd0 Hd]. cbn [length] in Hl, Hf. assert (Ht21 : t < 2 ^ 21).
  { destruct Ht as [_ Ht]. eapply Z.lt_le_trans; [exact Ht|]. apply Z.pow_le_mono_r; lia. }
  run. destruct ds as [|d' ds].
  - cbn [chain app] in Hin. destruct (ober_getc_ok s d rest Hin) as [-> _]. destruct (bit7 d ltac:(lia)) as [E1 E2]. rewrite E2, E1, Z.mod_small by lia.
    replace ((i =? 0) && (d =? 0)) with false by (destruct (Z.eqb_spec i 0); [|done]; destruct (Z.eqb_spec d 0) as [->|]; [by destruct (Hh ltac:(done))|done]).
    destruct (Z.gtb_spec (i + 1) 4); [cbn in Hl; lia|]. destruct (Z.ltb_spec d 128); [|lia]. cbn [negb]. rewrite shl7 by lia. done.
  - rewrite chain_cons in Hin by done. cbn [app] in Hin. destruct (ober_getc_ok s _ _ Hin) as [-> Hin']. destruct (bit7 (d + 128) ltac:(lia)) as [E1 E2]. rewrite E2, E1.
    replace ((d + 128) mod 128) with d by (apply (Z.mod_unique_pos _ _ 1); lia).
    replace ((i =? 0) && (d =? 0)) with false by (destruct (Z.eqb_spec i 0); [|done]; destruct (Z.eqb_spec d 0) as [->|]; [by destruct (Hh ltac:(done))|done]).
    cbn [length] in Hl. destruct (Z.gtb_spec (i + 1) 4); [lia|]. destruct (Z.ltb_spec (d + 128) 128); [lia|]. cbn [negb]. rewrite shl7 by lia.
    rewrite (IH fuel (adv 1 s) (t * 128 + d) (i + 1) rest); try done; try lia.
    + cbn [length]. rewrite adv_adv. unfold horner. cbn [foldl]. do 2 f_equal; [do 2 f_equal; lia|f_equal; lia].
    + cbn [length]. lia.
    + replace (7 * (i + 1)) with (7 * i + 7) by lia. rewrite Z.pow_add_r by lia. change (2 ^ 7) with 128. nia.
Qed.

Lemma len_octets_ok ds : forall s t rest, Forall (fun d => 0 <= d < 256) ds -> 0 <= t -> t < 256 ^ (6 - Z.of_nat (length ds)) -> (length ds <= 4)%nat -> at_input s (ds ++ rest) ->
  len_octets (length ds) t s = Some (Some (horner 256 t ds), adv (Z.of_nat (length ds)) s).
Proof.
  induction ds as [|d ds IH]; intros s t rest Hd Ht Hb Hl Hin; [cbn; by rewrite adv_0|]. cbn [length len_octets]. apply Forall_cons in Hd as [Hd0 Hd]. run.
  cbn [app] in Hin. destruct (ober_getc_ok s _ _ Hin) as [-> Hin']. cbn [length] in Hb, Hl.
  assert (256 ^ (6 - Z.of_nat (length ds)) = 256 * 256 ^ (6 - Z.of_nat (S (length ds)))) by (rewrite <- Z.pow_succ_r by lia; f_equal; lia).
  assert (256 ^ (6 - Z.of_nat (S (length ds))) <= 256 ^ 5) by (apply Z.pow_le_mono_r; lia).
  rewrite shl8 by lia. rewrite (IH (adv 1 s) (t * 256 + d) rest); try done; try lia. rewrite adv_adv. unfold horner. cbn [foldl]. do 3 f_equal. lia.
Qed.

Lemma bits_class class c x : 0 <= class <= 3 -> 0 <= x < 32 ->
  let u := class * 64 + (if c : bool then 32 else 0) + x in
  (u ≫ BER_CLASS_SHIFT) .& BER_CLASS_MASK = class /\ (u .& BER_TYPE_CONSTRUCTED =? BER_TYPE_CONSTRUCTED) = c /\ u .& BER_TAG_MASK = x.
Proof.
  intros Hc Hx. assert (E : forallb (fun class => forallb (fun x => forallb (fun c : bool =>
    let u := class * 64 + (if c then 32 else 0) + x in ((u ≫ 6) .& 3 =? class) && Bool.eqb (u .& 0x20 =? 0x20) c && (u .& 0x1f =? x)) [true; false]) (seqZ 0 32)) (seqZ 0 4) = true) by (vm_compute; reflexivity).
  rewrite forallb_forall in E. specialize (E class ltac:(apply list_elem_of_In, elem_of_seqZ; lia)). rewrite forallb_forall in E.
  specialize (E x ltac:(apply list_elem_of_In, elem_of_seqZ; lia)). rewrite forallb_forall in E. specialize (E c ltac:(destruct c; cbn; tauto)). cbv zeta in *.
  apply andb_prop in E as [E E3]. apply andb_prop in E as [E1 E2]. by apply Z.eqb_eq in E1, E3; apply Bool.eqb_prop in E2.
Qed.

Lemma get_id_ok class type c s rest : 0 <= class <= 3 -> 0 <= type < 2 ^ 28 -> at_input s (identifier class type c ++ rest) ->
  get_id s = Some (Some (Z.of_nat (length (identifier class type c)), type, class, c), adv (Z.of_nat (length (identifier class type c))) s).
Proof.
  intros Hc Ht Hin. unfold get_id, identifier in *. run. destruct (Z.leb_spec type 30).
  - cbn [app] in Hin. destruct (ober_getc_ok s _ _ Hin) as [-> _]. destruct (bits_class class c type Hc ltac:(lia)) as (-> & -> & ->).
    destruct (Z.eqb_spec type BER_TAG_MASK); [lia|]. done.
  - cbn [app] in Hin. destruct (ober_getc_ok s _ _ Hin) as [-> Hin']. destruct (bits_class class c 31 Hc ltac:(lia)) as (-> & -> & ->).
    change (31 =? BER_TAG_MASK) with true. cbv iota. cbn [negb]. cbv zeta. pose proof (number_length 128 type 4 ltac:(lia) ltac:(lia)) as Hl.
    rewrite (get_tag_ok (number 128 type) 6 (adv 1 s) 0 0 rest); try done; try lia.
    + rewrite horner_number by lia. cbn [length]. rewrite chain_length, adv_adv. do 3 f_equal; [|f_equal; lia]. f_equal. f_equal. f_equal. lia.
    + apply number_nonempty. lia.
    + by apply number_range.
    + intros _. destruct (number 128 type) as [|d ds] eqn:E; [done|]. apply number_head in E; [|lia|lia]. cbn. congruence.
Qed.

Lemma get_len_ok len s rest : 0 <= len < 2 ^ 32 -> at_input s (length_octets len ++ rest) ->
  get_len s = Some (Some (Z.of_nat (length (length_octets len)), len), adv (Z.of_nat (length (length_octets len))) s).
Proof.
  intros Hl Hin. unfold get_len, length_octets in *. run. destruct (Z.ltb_spec len 128).
  - cbn [app] in Hin. destruct (ober_getc_ok s _ _ Hin) as [-> _]. destruct (bit7 len ltac:(lia)) as [-> _]. destruct (Z.ltb_spec len 128); [|lia]. done.
  - cbn [app] in Hin. destruct (ober_getc_ok s _ _ Hin) as [-> Hin']. pose proof (number_length 256 len 4 ltac:(lia) ltac:(lia)) as Hl4.
    pose proof (number_nonempty 256 len ltac:(lia)) as Hne. assert (Hpos : (0 < length (number 256 len))%nat) by (destruct (number 256 len); [done|cbn; lia]).
    set (k := length (number 256 len)) in *. destruct (bit7 (128 + Z.of_nat k) ltac:(lia)) as [-> ->]. destruct (Z.ltb_spec (128 + Z.of_nat k) 128); [lia|].
    destruct (Z.eqb_spec (128 + Z.of_nat k) 0x80); [lia|]. destruct (Z.eqb_spec (128 + Z.of_nat k) 0xff); [lia|].
    replace ((128 + Z.of_nat k) mod 128) with (Z.of_nat k) by (apply (Z.mod_unique_pos _ _ 1); lia). cbv zeta. destruct (Z.ltb_spec 4 (Z.of_nat k)); [lia|].
    rewrite Nat2Z.id. unfold k at 1. rewrite (len_octets_ok _ (adv 1 s) 0 rest); try done; try lia.
    + rewrite horner_number by lia. destruct (Z.ltb_spec len 0); [lia|]. cbn [length]. fold k. rewrite adv_adv. do 3 f_equal; [f_equal; lia|f_equal; lia].
    + by apply number_range.
Qed.

(** ** Numbers *)

Lemma content_length n x : length (content n x) = n.
Proof. induction n as [|n IH]; [done|]. cbn. by rewrite IH. Qed.

Lemma content_range n x : Forall (fun d => 0 <= d < 256) (content n x).
Proof. induction n as [|n IH]; [apply List.Forall_nil|]. cbn [content]. apply Forall_cons. split; [apply Z.mod_pos_bound; lia|done]. Qed.

Lemma horner_from b t ds : horner b t ds = t * b ^ Z.of_nat (length ds) + horner b 0 ds.
Proof.
  unfold horner. revert t. induction ds as [|d ds IH]; intros t; [cbn; lia|]. cbn [foldl length]. rewrite (IH (t * b + d)), (IH (0 * b + d)).
  rewrite Nat2Z.inj_succ, Z.pow_succ_r by lia. lia.
Qed.

Lemma horner_content n x : horner 256 0 (content n x) = x mod 256 ^ Z.of_nat n.
Proof.
  induction n as [|n IH]; [cbn; by rewrite Z.mod_1_r|]. cbn [content].
  unfold horner in *. cbn [foldl]. fold (horner 256 (0 * 256 + (x / 256 ^ Z.of_nat n) mod 256) (content n x)). rewrite horner_from. unfold horner. rewrite IH, content_length.
  rewrite Nat2Z.inj_succ, Z.pow_succ_r by lia. assert (0 < 256 ^ Z.of_nat n) by (apply Z.pow_pos_nonneg; lia).
  rewrite (Z.mul_comm 256), Z.rem_mul_r by lia. lia.
Qed.

Lemma sgn_congr w a b : (a - b) mod 2 ^ w = 0 -> sgn w a = sgn w b.
Proof.
  intros H. unfold sgn, wrap. replace (a mod 2 ^ w) with (b mod 2 ^ w); [done|].
  destruct (Z.eq_decidable (2 ^ w) 0) as [E|E]; [rewrite E, !Z.mod_0_r in *; lia|].
  apply Z.mod_divide in H as [k Hk]; [|done]. replace a with (b + k * 2 ^ w) by lia. by rewrite Z.mod_add.
Qed.

Lemma sgn_mod w a : exists k, sgn w a = a + k * 2 ^ w.
Proof.
  unfold sgn, wrap. destruct (Z.eq_decidable (2 ^ w) 0) as [E|E]; [rewrite E, Z.mod_0_r; exists 0; destruct (_ <? _); lia|].
  pose proof (Z.div_mod a (2 ^ w) E). destruct (_ <? _); [exists (- (a / 2 ^ w))|exists (- (a / 2 ^ w) - 1)]; lia.
Qed.

(** One more octet. *)
Lemma number_octet v c : 0 <= c < 256 -> sgn 64 (v ≪ 8) .| c = sgn 64 (v * 256 + c).
Proof.
  intros Hc. rewrite Z.shiftl_mul_pow2 by lia. change (2 ^ 8) with 256. unfold sgn, wrap.
  assert (Hm : ((v * 256) mod 2 ^ 64) mod 256 = 0).
  { change (2 ^ 64) with (256 * 2 ^ 56). rewrite Z.mul_comm, Zmult_mod_distr_l, Z.mul_comm. apply Z.mod_mul. lia. }
  pose proof (Z.mod_pos_bound (v * 256) (2 ^ 64) ltac:(lia)) as Hy. set (y := (v * 256) mod 2 ^ 64) in *.
  pose proof (Z.div_mod y 256 ltac:(lia)) as Hdm. assert (Hyc : (v * 256 + c) mod 2 ^ 64 = y + c).
  { rewrite Zplus_mod. fold y. rewrite (Z.mod_small c) by lia. apply Z.mod_small. change (2 ^ 64) with (256 * 2 ^ 56) in *. lia. }
  rewrite Hyc. change (2 ^ (64 - 1)) with (256 * 2 ^ 55) in *. change (2 ^ 64) with (256 * 2 ^ 56) in *.
  assert (Hl : forall t, t mod 2 ^ 8 = 0 -> t .| c = t + c) by (intros t Ht; apply (lor_tag t c 8); [lia|exact Hc|exact Ht]). change (2 ^ 8) with 256 in Hl.
  destruct (Z.ltb_spec y (256 * 2 ^ 55)), (Z.ltb_spec (y + c) (256 * 2 ^ 55)); try lia.
  - by apply Hl.
  - rewrite Hl; [lia|]. replace (y - 256 * 2 ^ 56) with (y + (- 2 ^ 56) * 256) by lia. by rewrite Z.mod_add.
Qed.

(** No octet can be left out: the first nine bits are not all the same. *)
Definition minimal_octets (cs : list Z) : Prop :=
  match cs with
  | c0 :: c1 :: _ => ~ (c0 = 0 /\ c1 < 128) /\ ~ (c0 = 255 /\ 128 <= c1)
  | _ => True
  end.

Lemma number_octets_ok cs : forall s i v last rest, Forall (fun d => 0 <= d < 256) cs -> 0 <= i ->
  (i = 0 -> minimal_octets cs) -> (i = 1 -> minimal_octets (last :: cs)) -> at_input s (cs ++ rest) ->
  number_octets (length cs) i (sgn 64 v) last s = Some (Some (sgn 64 (horner 256 v cs)), adv (Z.of_nat (length cs)) s).
Proof.
  induction cs as [|c cs IH]; intros s i v last rest Hc Hi H0 H1 Hin; [cbn; by rewrite adv_0|]. cbn [length number_octets]. apply Forall_cons in Hc as [Hc Hcs]. run.
  cbn [app] in Hin. destruct (ober_getc_ok s _ _ Hin) as [-> Hin']. destruct (bit7 c Hc) as [-> _].
  assert (Hmin : ((i =? 1) && (last =? 0) && (c <? 128)) || ((i =? 1) && (last =? 0xff) && negb (c <? 128)) = false).
  { destruct (Z.eqb_spec i 1) as [E|]; [|done]. destruct (H1 E) as [Ha Hb]. cbn [andb]. apply orb_false_iff. split; apply andb_false_iff.
    - destruct (Z.eqb_spec last 0); [|by left]. right. apply Z.ltb_ge. lia.
    - destruct (Z.eqb_spec last 0xff); [|by left]. right. apply negb_false_iff, Z.ltb_lt. lia. }
  rewrite Hmin, number_octet by done. replace (sgn 64 (sgn 64 v * 256 + c)) with (sgn 64 (v * 256 + c)).
  2:{ apply sgn_congr. destruct (sgn_mod 64 v) as [k ->]. replace (v * 256 + c - ((v + k * 2 ^ 64) * 256 + c)) with ((- k * 256) * 2 ^ 64) by lia. apply Z.mod_mul. lia. }
  rewrite (IH (adv 1 s) (i + 1) (v * 256 + c) c rest); try done; try lia.
  - rewrite adv_adv. do 2 f_equal. f_equal. lia.
  - intros E. assert (i = 0) by lia. auto.
Qed.

(** When a number fits into one octet less. *)
Lemma fits_less n x : 1 <= n -> fits (n + 1) x ->
  let c0 := (x / 256 ^ n) mod 256 in let c1 := (x / 256 ^ (n - 1)) mod 256 in
  fits n x <-> (c0 = 0 /\ c1 < 128) \/ (c0 = 255 /\ 128 <= c1).
Proof.
  intros Hn Hf c0 c1. unfold fits in *. set (P := 256 ^ (n - 1)) in *. assert (HP : 0 < P) by (apply Z.pow_pos_nonneg; lia).
  assert (E1 : 2 ^ (8 * n - 1) = 128 * P).
  { unfold P. change 256 with (2 ^ 8). change 128 with (2 ^ 7). rewrite <- Z.pow_mul_r, <- Z.pow_add_r by lia. f_equal. lia. }
  assert (E2 : 2 ^ (8 * (n + 1) - 1) = 256 * (128 * P)).
  { rewrite <- E1. change 256 with (2 ^ 8). rewrite <- Z.pow_add_r by lia. f_equal. lia. }
  rewrite E1, E2 in *. subst c0 c1. assert (E3 : x / 256 ^ n = x / P / 256).
  { rewrite Z.div_div by lia. f_equal. unfold P. rewrite Z.mul_comm, <- Z.pow_succ_r by lia. f_equal. lia. }
  rewrite E3. pose proof (Z.div_mod x P ltac:(lia)) as Hd. pose proof (Z.mod_pos_bound x P HP) as Hm. fold P. set (y := x / P) in *. clearbody y P. clear E1 E2 E3.
  assert (Hy : - 32768 <= y < 32768) by nia. assert (Hiff : (- (128 * P) <= x < 128 * P) <-> - 128 <= y < 128) by nia. rewrite Hiff.
  clear Hiff Hd Hm Hf. Z.div_mod_to_equations. lia.
Qed.

Definition minimal (n x : Z) : Prop := n = 1 \/ ~ fits (n - 1) x.

Lemma content_minimal n x : fits (Z.of_nat n) x -> minimal (Z.of_nat n) x -> minimal_octets (content n x).
Proof.
  intros Hf Hm. destruct n as [|[|n]]; [done|done|]. cbn [content minimal_octets]. destruct Hm as [Hm|Hm]; [lia|].
  pose proof (fits_less (Z.of_nat (S n)) x ltac:(lia) ltac:(by replace (Z.of_nat (S n) + 1) with (Z.of_nat (S (S n))) by lia)) as H. cbv zeta in H.
  replace (Z.of_nat (S n) - 1) with (Z.of_nat n) in H by lia. replace (Z.of_nat (S (S n)) - 1) with (Z.of_nat (S n)) in Hm by lia.
  pose proof (content_range (S (S n)) x) as Hr. cbn [content] in Hr. apply Forall_cons in Hr as [Hr0 Hr]. apply Forall_cons in Hr as [Hr1 _]. tauto.
Qed.

(** The loop of ober_add_integer. *)
Definition octet (x i : Z) : Z := (x ≫ (8 * i)) .& 0xff.
Definition event (x : Z) (k : nat) : bool :=
  let cur := octet x (Z.of_nat k) in
  let last := match k with O => 0 | S j => octet x (Z.of_nat j) end in
  (negb (cur =? 0) && negb (cur =? 0xff)) || ((cur =? 0) && negb (last .& 0x80 =? 0)) || ((cur =? 0xff) && (last .& 0x80 =? 0)).
Fixpoint last_event (x : Z) (k : nat) : Z :=
  match k with O => 0 | S j => if event x j then Z.of_nat j else last_event x j end.

Lemma int_len_events x : int_len x = last_event x 8 + 1.
Proof.
  unfold int_len.
  set (step := fun '(val, len, last) i => _).
  assert (H : forall k, foldl step (x, 0, 0) (seqZ 0 (Z.of_nat k)) = (x ≫ (8 * Z.of_nat k), last_event x k, match k with O => 0 | S j => octet x (Z.of_nat j) end)).
  { induction k as [|k IH]; [cbn; by rewrite Z.shiftr_0_r|]. rewrite seqZ_S, foldl_app, IH, Nat2Z.inj_succ. cbn [foldl]. unfold step. cbv beta iota zeta. rewrite Z.add_0_l.
    fold (octet x (Z.of_nat k)). rewrite Z.shiftr_shiftr by lia. replace (8 * Z.of_nat k + 8) with (8 * Z.succ (Z.of_nat k)) by lia.
    apply f_equal2; [apply f_equal2; [done|]|done]. cbn [last_event]. unfold event. set (cur := octet x (Z.of_nat k)). set (l := match k with O => 0 | S j => _ end).
    by destruct (cur =? 0), (cur =? 255), (l .& 128 =? 0). }
  pose proof (H 8%nat) as H8. change (Z.of_nat 8) with 8 in H8. by rewrite H8.
Qed.

Lemma octet_div x i : 0 <= i -> octet x i = (x / 256 ^ i) mod 256.
Proof.
  intros Hi. unfold octet. change 0xff with (Z.ones 8). rewrite Z.land_ones, Z.shiftr_div_pow2 by lia. change 256 with (2 ^ 8). by rewrite <- Z.pow_mul_r by lia.
Qed.

Lemma event_fits x k : (1 <= k)%nat -> fits (Z.of_nat k + 1) x -> event x k = true <-> ~ fits (Z.of_nat k) x.
Proof.
  intros Hk Hf. pose proof (fits_less (Z.of_nat k) x ltac:(lia) Hf) as H. cbv zeta in H. destruct k as [|j]; [lia|]. unfold event.
  rewrite !octet_div by lia. replace (Z.of_nat (S j) - 1) with (Z.of_nat j) in H by lia.
  set (c0 := (x / 256 ^ Z.of_nat (S j)) mod 256) in *. set (c1 := (x / 256 ^ Z.of_nat j) mod 256) in *.
  assert (Hc1 : 0 <= c1 < 256) by (apply Z.mod_pos_bound; lia). destruct (bit7 c1 Hc1) as [-> _]. rewrite H.
  destruct (Z.eqb_spec c0 0), (Z.eqb_spec c0 255), (Z.ltb_spec c1 128); cbn; lia.
Qed.

Lemma last_event_spec x k : (1 <= k)%nat -> fits (Z.of_nat k) x -> let n := last_event x k + 1 in 1 <= n <= Z.of_nat k /\ fits n x /\ minimal n x.
Proof.
  induction k as [|k IH]; intros Hk Hf; [lia|]. cbn [last_event]. destruct k as [|k].
  { destruct (event x 0); cbn; (split; [lia|]); (split; [exact Hf|by left]). }
  assert (Hf' : fits (Z.of_nat (S k) + 1) x) by (by replace (Z.of_nat (S k) + 1) with (Z.of_nat (S (S k))) by lia).
  pose proof (event_fits x (S k) ltac:(lia) Hf') as He. destruct (event x (S k)).
  - cbv zeta. split; [lia|]. split; [done|]. right. replace (Z.of_nat (S k) + 1 - 1) with (Z.of_nat (S k)) by lia. by apply He.
  - assert (Hf1 : fits (Z.of_nat (S k)) x).
    { unfold fits in *. destruct (decide (- 2 ^ (8 * Z.of_nat (S k) - 1) <= x < 2 ^ (8 * Z.of_nat (S k) - 1))) as [|Hn]; [done|]. exfalso. by pose proof (proj2 He Hn). }
    specialize (IH ltac:(lia) Hf1). cbv zeta in *. destruct IH as (H1 & H2 & H3). split; [lia|done].
Qed.

Lemma int_len_spec x : - 2 ^ 63 <= x < 2 ^ 63 -> 1 <= int_len x <= 8 /\ fits (int_len x) x /\ minimal (int_len x) x.
Proof. intros Hx. rewrite int_len_events. apply (last_event_spec x 8); [lia|exact Hx]. Qed.
