(* ===== verification/BerWrite.v ===== *)
(** * BerWrite: the writer of ber.c produces the encoding of X.690.

    A forest of elements is what the code keeps in linked cells: a first
    child and a next sibling. [rep] relates the two, [encode] is the reference;
    ober_calc_len computes its length, ober_write_elements writes it. *)

From stdpp Require Import gmultiset.
From S2P Require Import Prelude Ber BerOctets.
Import X690.

(** ** Forests *)

Inductive forest := Nil | Node (e : ber_element) (sub next : forest).

Fixpoint fsize (f : forest) : nat := match f with Nil => O | Node _ sub next => S (fsize sub + fsize next) end.
Fixpoint fall (P : ber_element -> forest -> Prop) (f : forest) : Prop :=
  match f with Nil => True | Node e sub next => P e sub /\ fall P sub /\ fall P next end.
Fixpoint siblings (f : forest) : nat := match f with Nil => O | Node _ _ next => S (siblings next) end.

(** The cell of an element: its links, and its payload unless it has children. *)
Definition cell (e : ber_element) (n s : Z) : ber_element := with_next (if is_seq (be_encoding e) then with_un e (Word s) else e) n.

(** The cells [D] of the heap hold the forest. *)
Fixpoint rep (h : gmap Z ber_element) (p : Z) (f : forest) (D : gset Z) : Prop :=
  match f with
  | Nil => p = 0 /\ D = ∅
  | Node e sub next =>
      p <> 0 /\ exists s n Ds Dn, h !! p = Some (cell e n s) /\ (is_seq (be_encoding e) = false -> sub = Nil) /\
        rep h s sub Ds /\ rep h n next Dn /\ (p ∉ Ds) /\ (p ∉ Dn) /\ Ds ## Dn /\ D = {[p]} ∪ (Ds ∪ Dn)
  end.

Lemma forest_frame h h' f : forall p D, rep h p f D -> (forall q, q ∈ D -> h' !! q = h !! q) -> rep h' p f D.
Proof.
  induction f as [|e sub IHs next IHn]; intros p D Hr Hf; [done|]. destruct Hr as (Hp & s & n & Ds & Dn & Hc & Hq & Hs & Hn & H1 & H2 & H3 & ->).
  split; [done|]. exists s, n, Ds, Dn. rewrite Hf by set_solver. split; [done|]. split; [done|].
  split; [apply IHs; [done|intros; apply Hf; set_solver]|]. split; [apply IHn; [done|intros; apply Hf; set_solver]|]. done.
Qed.

Lemma rep_null h f D : rep h 0 f D -> f = Nil /\ D = ∅.
Proof. destruct f; [by intros [_ ->]|]. by intros [? _]. Qed.
Lemma rep_nonnull h p f D : rep h p f D -> (p =? 0) = (match f with Nil => true | _ => false end).
Proof. destruct f; [by intros [-> _]|]. intros [? _]. by apply Z.eqb_neq. Qed.
Lemma forest_dom h f : forall p D q, rep h p f D -> q ∈ D -> is_Some (h !! q).
Proof.
  induction f as [|e sub IHs next IHn]; intros p D q Hr Hq; [destruct Hr as [_ ->]; set_solver|].
  destruct Hr as (Hp & s & n & Ds & Dn & Hc & _ & Hs & Hn & _ & _ & _ & ->). apply elem_of_union in Hq as [->%elem_of_singleton|[Hq|Hq]%elem_of_union]; [by eexists|by eapply IHs|by eapply IHn].
Qed.

(** What the code sees of a cell. *)
Create Rewrite HintDb cell.
Lemma cell_next e n s : be_next (cell e n s) = n.
Proof. done. Qed.
Lemma cell_encoding e n s : be_encoding (cell e n s) = be_encoding e.
Proof. unfold cell. by destruct (is_seq _). Qed.
Lemma cell_type e n s : be_type (cell e n s) = be_type e.
Proof. unfold cell. by destruct (is_seq _). Qed.
Lemma cell_class e n s : be_class (cell e n s) = be_class e.
Proof. unfold cell. by destruct (is_seq _). Qed.
Lemma cell_len e n s : be_len (cell e n s) = be_len e.
Proof. unfold cell. by destruct (is_seq _). Qed.
Lemma cell_free e n s : be_free (cell e n s) = be_free e.
Proof. unfold cell. by destruct (is_seq _). Qed.
Lemma cell_cb e n s : be_cb (cell e n s) = be_cb e.
Proof. unfold cell. by destruct (is_seq _). Qed.
Lemma cell_un e n s : be_un (cell e n s) = if is_seq (be_encoding e) then Word s else be_un e.
Proof. unfold cell. by destruct (is_seq _). Qed.
Lemma cell_with_len e n s len : with_len (cell e n s) len = cell (with_len e len) n s.
Proof. unfold cell. cbn. by destruct (is_seq _). Qed.
Lemma cell_with_next e n s n' : with_next (cell e n s) n' = cell e n' s.
Proof. unfold cell. by destruct (is_seq _). Qed.
#[export] Hint Rewrite cell_next cell_encoding cell_type cell_class cell_len cell_free cell_cb cell_un : cell.

(** ** Freeing *)

Definition wipe (D : gset Z) (h : gmap Z ber_element) : gmap Z ber_element := filter (fun kv => kv.1 ∉ D) h.
Lemma lookup_wipe D h q : wipe D h !! q = if decide (q ∈ D) then None else h !! q.
Proof.
  destruct (wipe D h !! q) as [e|] eqn:E; unfold wipe in E.
  - apply map_lookup_filter_Some in E as [E Hq]. by rewrite decide_False.
  - apply map_lookup_filter_None in E. destruct (decide _) as [|Hq]; [done|]. destruct E as [E|E]; [done|].
    destruct (h !! q) as [e|] eqn:Eq; [|done]. by destruct (E e eq_refl Hq).
Qed.
Lemma wipe_empty h : wipe ∅ h = h.
Proof. apply map_eq. intros q. rewrite lookup_wipe. destruct (decide _); [set_solver|done]. Qed.
Lemma wipe_wipe D1 D2 h : wipe D1 (wipe D2 h) = wipe (D2 ∪ D1) h.
Proof. apply map_eq. intros q. rewrite !lookup_wipe. repeat destruct (decide _); set_solver. Qed.
Lemma delete_wipe D p h : delete p (wipe D h) = wipe ({[p]} ∪ D) h.
Proof. apply map_eq. intros q. rewrite lookup_wipe, lookup_delete. destruct (decide (p = q)) as [->|]; rewrite ?lookup_wipe; repeat destruct (decide _); try set_solver. Qed.

Lemma with_heap_heap s h1 h2 : with_heap (with_heap s h1) h2 = with_heap s h2.
Proof. done. Qed.
Lemma with_heap_same s : with_heap s (heap s) = s.
Proof. by destruct s. Qed.

(** The string of an element, if it has to be freed. *)
Definition string_ok (e : ber_element) (sub : forest) : Prop := be_free e = true -> is_str (be_encoding e) = true -> be_un e = Word 0 \/ exists b, be_un e = Buffer b.

Lemma is_str_seq x : is_str x = true -> is_seq x = false.
Proof. unfold is_str, is_seq. destruct (Z.eqb_spec x 16) as [->|]; [done|]. by destruct (Z.eqb_spec x 17) as [->|]. Qed.

(** What is done with the children of an element. *)
Lemma on_children {A} (c : ber_element) e n sp (k : Z -> M A) (x : A) : c = cell e n sp ->
  (if nonnull (be_un c) && is_seq (be_encoding c) then sub ← as_word (be_un c); k sub else mret x) = if is_seq (be_encoding e) && negb (sp =? 0) then k sp else mret x.
Proof. intros ->. autorewrite with cell. destruct (is_seq (be_encoding e)); cbn [nonnull]; [by rewrite andb_true_r|by rewrite andb_false_r]. Qed.

Lemma rep_children h sp sub Ds e : rep h sp sub Ds -> (is_seq (be_encoding e) = false -> sub = Nil) ->
  is_seq (be_encoding e) && negb (sp =? 0) = match sub with Nil => false | _ => true end.
Proof. intros Hr Hq. rewrite (rep_nonnull _ _ _ _ Hr). destruct (is_seq (be_encoding e)); [by destruct sub|by rewrite (Hq eq_refl)]. Qed.

(** The buffers that go with the elements: of one, and of a forest. *)
Definition buffer_owned (e : ber_element) : gmultiset (list Z) :=
  if be_free e && is_str (be_encoding e) then match be_un e with Buffer b => {[+ b +]} | Word _ => ∅ end else ∅.
Fixpoint owned (f : forest) : gmultiset (list Z) :=
  match f with Nil => ∅ | Node e sub next => buffer_owned e ⊎ (owned sub ⊎ owned next) end.

(** The state without the cells [D] and the buffers [m]. *)
Definition freed (D : gset Z) (m : gmultiset (list Z)) (s : st) : st := with_bufs (with_heap s (wipe D (heap s))) (bufs s ∖ m).
Lemma freed_nothing s : freed ∅ ∅ s = s.
Proof. unfold freed. rewrite wipe_empty. destruct s as [h b o e r c m]. unfold with_bufs, with_heap. cbn. f_equal. multiset_solver. Qed.
Lemma freed_freed D1 D2 m1 m2 s : freed D2 m2 (freed D1 m1 s) = freed (D1 ∪ D2) (m1 ⊎ m2) s.
Proof. unfold freed, with_bufs, with_heap. cbn. rewrite wipe_wipe. f_equal. multiset_solver. Qed.

Lemma release_string c e n sp sub s : c = cell e n sp -> string_ok e sub -> buffer_owned e ⊆ bufs s ->
  (if be_free c && is_str (be_encoding c) then free_buffer (be_un c) else mret tt) s = Some (tt, freed ∅ (buffer_owned e) s).
Proof.
  intros -> Ho. autorewrite with cell. unfold buffer_owned. destruct (be_free e) eqn:Ef, (is_str (be_encoding e)) eqn:Es; cbn [andb]; try by rewrite freed_nothing.
  rewrite (is_str_seq _ Es). unfold free_buffer. destruct (Ho Ef Es) as [->|[b ->]]; cbn [as_buffer Z.eqb]; run; [by rewrite freed_nothing|].
  intros Hb. unfold disown, freed. rewrite decide_True by multiset_solver. by rewrite wipe_empty, with_heap_same.
Qed.

Lemma free_spec f : forall fuel p D s, rep (heap s) p f D -> fall string_ok f -> owned f ⊆ bufs s -> (fsize f < fuel)%nat ->
  ober_free_elements fuel p s = Some (tt, freed D (owned f) s).
Proof.
  induction f as [|e sub IHs next IHn]; intros fuel p D s Hr Ho Hb Hf; (destruct fuel as [|fuel]; [lia|]); cbn [ober_free_elements owned].
  { destruct Hr as [-> ->]. cbn [Z.eqb]. by rewrite freed_nothing. }
  destruct Hr as (Hp & sp & np & Ds & Dn & Hc & Hq & Hs & Hn & H1 & H2 & H3 & ->). destruct Ho as (Ho & Hos & Hon). cbn [fsize owned] in Hf, Hb.
  destruct (Z.eqb_spec p 0); [done|]. step (load_ok _ _ _ Hc). rewrite (on_children _ e np sp) by done. rewrite (rep_children _ _ _ _ _ Hs Hq).
  assert (E1 : (if match sub with Nil => false | _ => true end then ober_free_elements fuel sp else mret tt) s = Some (tt, freed Ds (owned sub) s)).
  { destruct sub; [destruct Hs as [_ ->]; cbn [owned]; by rewrite freed_nothing|]. apply IHs; [done|done|multiset_solver|lia]. }
  step E1. rewrite cell_next. set (s1 := freed Ds (owned sub) s).
  assert (Hn1 : rep (heap s1) np next Dn) by (apply (forest_frame (heap s)); [done|]; intros q Hqn; cbn; rewrite lookup_wipe, decide_False by set_solver; done).
  assert (E2 : (if negb (np =? 0) then ober_free_elements fuel np else mret tt) s1 = Some (tt, freed Dn (owned next) s1)).
  { rewrite (rep_nonnull _ _ _ _ Hn). destruct next; [destruct Hn as [_ ->]; cbn [owned]; by rewrite freed_nothing|]. apply IHn; [done|done|cbn; multiset_solver|lia]. }
  step E2. unfold s1. rewrite freed_freed. set (s2 := freed _ _ s).
  assert (E3 : (if be_free (cell e np sp) && is_str (be_encoding (cell e np sp)) then free_buffer (be_un (cell e np sp)) else mret tt) s2 = Some (tt, freed ∅ (buffer_owned e) s2))
    by (apply (release_string _ e np sp sub); [done|done|cbn; multiset_solver]).
  step E3. unfold s2. rewrite freed_freed, union_empty_r_L.
  assert (Hp2 : heap (freed (Ds ∪ Dn) (owned sub ⊎ owned next ⊎ buffer_owned e) s) !! p = Some (cell e np sp)) by (cbn; rewrite lookup_wipe, decide_False by set_solver; done).
  rewrite (free_ok _ _ _ Hp2). unfold freed, with_bufs, with_heap. cbn. rewrite delete_wipe. do 3 f_equal. multiset_solver.
Qed.

(** ** The encoding (X.690) *)

Definition number_of (u : be_union) : Z := match u with Word w => w | Buffer _ => 0 end.
Definition buffer_of (u : be_union) : list Z := match u with Buffer b => b | Word _ => [] end.
(** The content of an element that has no children. *)
Definition payload (e : ber_element) : list Z :=
  if is_num (be_encoding e) then content (Z.to_nat (be_len e)) (number_of (be_un e))
  else if is_str (be_encoding e) then take (Z.to_nat (be_len e)) (buffer_of (be_un e)) else [].

Definition head_octets (e : ber_element) (body : list Z) : list Z :=
  identifier (be_class e) (be_type e) (is_seq (be_encoding e)) ++ length_octets (Z.of_nat (length body)).
Fixpoint encode (f : forest) : list Z :=
  match f with
  | Nil => []
  | Node e sub next => let body := if is_seq (be_encoding e) then encode sub else payload e in head_octets e body ++ body ++ encode next
  end.
Definition body_of (e : ber_element) (sub : forest) : list Z := if is_seq (be_encoding e) then encode sub else payload e.
Lemma encode_node e sub next : encode (Node e sub next) = head_octets e (body_of e sub) ++ body_of e sub ++ encode next.
Proof. done. Qed.

(** The forest with the lengths that ober_calc_len stores. *)
Fixpoint measured (f : forest) : forest :=
  match f with
  | Nil => Nil
  | Node e sub next => Node (with_len e (Z.of_nat (length (body_of e sub)))) (measured sub) (measured next)
  end.

(** The write callbacks, with the position of the content. *)
Fixpoint callbacks (pos : Z) (f : forest) : list (Z * Z) :=
  match f with
  | Nil => []
  | Node e sub next =>
      let start := pos + Z.of_nat (length (head_octets e (body_of e sub))) in
      (if negb (be_cb e =? 0) then [(be_cb e, start)] else []) ++ (if is_seq (be_encoding e) then callbacks start sub else []) ++
      callbacks (start + Z.of_nat (length (body_of e sub))) next
  end.

(** An element the writer takes: its length is that of its content, it is no
    end-of-contents, and what there is in the union fits the encoding. *)
Definition writable (e : ber_element) (sub : forest) : Prop :=
  0 <= be_class e <= 3 /\ 0 <= be_type e < 2 ^ 32 /\ ~ (be_class e = BER_CLASS_UNIVERSAL /\ be_type e = BER_TYPE_EOC) /\
  (is_seq (be_encoding e) = false \/ sub = Nil -> be_len e = Z.of_nat (length (body_of e sub))) /\
  Z.of_nat (length (body_of e sub)) < 2 ^ 40 /\
  (is_num (be_encoding e) = true -> be_len e <= 8 /\ exists n, be_un e = Word n) /\
  (is_str (be_encoding e) = true -> exists b, be_un e = Buffer b).

Lemma is_num_seq x : is_num x = true -> is_seq x = false.
Proof. unfold is_num, is_seq. destruct (Z.eqb_spec x 16) as [->|]; [done|]. by destruct (Z.eqb_spec x 17) as [->|]. Qed.
Lemma is_num_str x : is_num x = true -> is_str x = false.
Proof. unfold is_num, is_str. destruct (Z.eqb_spec x 4) as [->|]; [done|]. destruct (Z.eqb_spec x 3) as [->|]; [done|]. by destruct (Z.eqb_spec x 6) as [->|]. Qed.

(** ** ober_calc_len *)

Lemma identifier_length class type c : type < 2 ^ 64 ->
  Z.of_nat (length (identifier class type c)) = 1 + (if type >? BER_TYPE_SINGLE_MAX then Z.of_nat (length (digits 64 128 type)) else 0).
Proof.
  intros Ht. unfold identifier. destruct (Z.leb_spec type 30), (Z.gtb_spec type 30); try lia; [done|]. cbn [length]. rewrite chain_length. unfold number. rewrite length_rev. lia.
Qed.
Lemma length_octets_length len : Z.of_nat (length (length_octets len)) = 1 + (if len >=? BER_TAG_MORE then Z.of_nat (length (digits 64 256 len)) else 0).
Proof. unfold length_octets, number. destruct (Z.ltb_spec len 128), (Z.geb_spec len BER_TAG_MORE); try lia; [done|]. cbn [length]. rewrite length_rev. lia. Qed.

(** The sizes that the code adds up. *)
Lemma header_size e body : be_type e < 2 ^ 64 ->
  (if Z.of_nat (length body) >=? BER_TAG_MORE
   then count_shifts 64 8 (Z.of_nat (length body)) (if be_type e >? BER_TYPE_SINGLE_MAX then count_shifts 64 7 (be_type e) 2 else 2)
   else if be_type e >? BER_TYPE_SINGLE_MAX then count_shifts 64 7 (be_type e) 2 else 2) = Z.of_nat (length (head_octets e body)).
Proof.
  intros Ht. unfold head_octets. rewrite length_app, Nat2Z.inj_add, identifier_length, length_octets_length by done.
  destruct (be_type e >? BER_TYPE_SINGLE_MAX), (Z.of_nat (length body) >=? BER_TAG_MORE); cbv zeta; rewrite ?count_shifts_digits by lia;
    change (2 ^ 7) with 128; change (2 ^ 8) with 256; lia.
Qed.

Lemma calc_len_spec f : forall fuel p D s, rep (heap s) p f D -> f <> Nil -> fall writable f -> (fsize f < fuel)%nat -> Z.of_nat (length (encode f)) < 2 ^ 64 ->
  exists h', ober_calc_len fuel p s = Some (Z.of_nat (length (encode f)), with_heap s h') /\ rep h' p (measured f) D /\ forall q, q ∉ D -> h' !! q = heap s !! q.
Proof.
  induction f as [|e sub IHs next IHn]; intros fuel p D s Hr Hne Hw Hf Hl; [done|]. destruct fuel as [|fuel]; [lia|]. cbn [ober_calc_len].
  destruct Hr as (Hp & sp & np & Ds & Dn & Hc & Hq & Hs & Hn & H1 & H2 & H3 & ->). destruct Hw as (Hw & Hws & Hwn). destruct Hw as (Hcl & Hty & Heoc & Hlen & Hlen40 & _ & _). cbn [fsize] in Hf.
  rewrite encode_node in Hl |- *. set (body := body_of e sub) in *. rewrite !length_app in Hl |- *.
  step (load_ok _ _ _ Hc). rewrite (on_children _ e np sp) by done. rewrite (rep_children _ _ _ _ _ Hs Hq).
  (* the children *)
  assert (E1 : exists h1, (if match sub with Nil => false | _ => true end then (fun sub => len ← ober_calc_len fuel sub; store p (fun e => with_len e len)) sp else mret tt) s = Some (tt, with_heap s h1) /\
    h1 !! p = Some (cell (with_len e (Z.of_nat (length body))) np sp) /\ rep h1 sp (measured sub) Ds /\ (forall q, q <> p -> q ∉ Ds -> h1 !! q = heap s !! q)).
  { destruct sub as [|e' sub' next'] eqn:Esub.
    - exists (heap s). split; [by rewrite with_heap_same|]. split; [|done]. rewrite Hc. do 2 f_equal. rewrite <- Hlen by (by right). by destruct e.
    - rewrite <- Esub in *. assert (Hsne : sub <> Nil) by (by rewrite Esub). assert (Eq : is_seq (be_encoding e) = true) by (destruct (is_seq (be_encoding e)); [done|by rewrite (Hq eq_refl) in Hsne]).
      assert (Eb : body = encode sub) by (unfold body, body_of; by rewrite Eq, Esub).
      destruct (IHs fuel sp Ds s Hs Hsne Hws ltac:(lia) ltac:(rewrite <- Eb; lia)) as (h1 & E & Hr1 & Hf1). cbv beta. step E.
      assert (Hc1 : heap (with_heap s h1) !! p = Some (cell e np sp)) by (cbn; by rewrite Hf1).
      rewrite (store_ok _ _ _ _ Hc1), with_heap_heap, cell_with_len, <- Eb. eexists. split; [done|]. split; [by rewrite lookup_insert_eq|]. split.
      + apply (forest_frame h1); [done|]. intros q Hqs. rewrite lookup_insert_ne; [done|set_solver].
      + intros q Hqp Hqs. rewrite lookup_insert_ne by done. by apply Hf1. }
  destruct E1 as (h1 & E1 & Hc1 & Hr1 & Hf1). step E1. clear E1. cbn [heap] in *.
  assert (Hc1' : heap (with_heap s h1) !! p = Some (cell (with_len e (Z.of_nat (length body))) np sp)) by exact Hc1.
  step (load_ok _ _ _ Hc1'). autorewrite with cell. cbn [be_type be_len be_class be_encoding with_len]. cbv zeta.
  rewrite (header_size e body) by lia. fold body.
  (* the siblings *)
  assert (Hn1 : rep h1 np next Dn) by (apply (forest_frame (heap s)); [done|]; intros q Hqn; apply Hf1; set_solver).
  assert (E2 : exists h2, (if negb (np =? 0) then n ← ober_calc_len fuel np; mret (Z.of_nat (length (head_octets e body)) + n) else mret (Z.of_nat (length (head_octets e body)))) (with_heap s h1) =
      Some (Z.of_nat (length (head_octets e body)) + Z.of_nat (length (encode next)), with_heap s h2) /\ rep h2 np (measured next) Dn /\ (forall q, q ∉ Dn -> h2 !! q = h1 !! q)).
  { rewrite (rep_nonnull _ _ _ _ Hn1). destruct next as [|e' sub' next'] eqn:Enext.
    - exists h1. cbn [encode length]. rewrite Z.add_0_r. split; [done|]. by split.
    - rewrite <- Enext in *. destruct (IHn fuel np Dn (with_heap s h1) Hn1 ltac:(by rewrite Enext) Hwn ltac:(lia) ltac:(lia)) as (h2 & E & Hr2 & Hf2). cbn [negb]. step E. eexists. split; [done|]. by split. }
  destruct E2 as (h2 & E2 & Hr2 & Hf2). step E2. exists h2. split; [|split].
  - assert (Hfalse : (be_class e =? BER_CLASS_UNIVERSAL) && (be_type e =? BER_TYPE_EOC) && (Z.of_nat (length body) =? 0) = false).
    { destruct (Z.eqb_spec (be_class e) 0), (Z.eqb_spec (be_type e) 0); try done. by destruct Heoc. }
    rewrite Hfalse. unfold u64. rewrite wrap_small by (unfold word; lia). unfold mret, M_ret. do 2 f_equal. lia.
  - cbn [measured rep]. split; [done|]. exists sp, np, Ds, Dn. rewrite Hf2 by done. split; [done|]. split; [intros Hx; by rewrite (Hq Hx)|].
    split; [apply (forest_frame h1); [done|]; intros; apply Hf2; set_solver|]. split; [done|]. done.
  - intros q Hqd. rewrite Hf2, Hf1 by set_solver. done.
Qed.

(** ** The write buffer *)

Definition wrote (bs : list Z) (s : st) : st :=
  let b := br s in
  with_br s (Ber (br_offs b) (match br_wbuf b with Some w => Some (store_bytes w (br_wptr b) bs) | None => None end)
    (br_wptr b + Z.of_nat (length bs)) (br_rbuf b) (br_rptr b) (br_application b)).
Definition called (cbs : list (Z * Z)) (s : st) : st := St (heap s) (brk s) (oracle s) (errno s) (br s) (calls s ++ cbs) (bufs s).
Definition room (n : nat) (s : st) : Prop := exists w, br_wbuf (br s) = Some w /\ 0 <= br_wptr (br s) /\ br_wptr (br s) + Z.of_nat n <= Z.of_nat (length w).

Lemma store_bytes_length w p bs : 0 <= p -> p + Z.of_nat (length bs) <= Z.of_nat (length w) -> length (store_bytes w p bs) = length w.
Proof. intros Hp Hl. unfold store_bytes. rewrite !length_app, length_take, length_drop. lia. Qed.
Lemma store_bytes_app w p a b : 0 <= p -> p + Z.of_nat (length (a ++ b)) <= Z.of_nat (length w) ->
  store_bytes (store_bytes w p a) (p + Z.of_nat (length a)) b = store_bytes w p (a ++ b).
Proof.
  intros Hp Hl. rewrite length_app in Hl. unfold store_bytes. rewrite Z2Nat.inj_add, Nat2Z.id by lia. set (k := Z.to_nat p).
  assert (Ht : length (take k w) = k) by (rewrite length_take; lia). rewrite (app_assoc (take k w) a).
  rewrite take_app_length' by (rewrite length_app, Ht; done). rewrite <- !app_assoc. do 2 f_equal. f_equal.
  rewrite length_app, drop_app_ge by (rewrite Ht; lia). rewrite Ht, drop_app_ge by lia. rewrite drop_drop. f_equal. lia.
Qed.

Lemma wrote_room n bs s : room (length bs + n) s -> room n (wrote bs s).
Proof.
  intros (w & E & H1 & H2). exists (store_bytes w (br_wptr (br s)) bs). unfold wrote, with_br. cbn. rewrite E. split; [done|]. split; [lia|].
  rewrite store_bytes_length by lia. lia.
Qed.
Lemma room_less m n s : room n s -> (m <= n)%nat -> room m s.
Proof. intros (w & E & H1 & H2) Hm. exists w. split; [done|]. lia. Qed.
Lemma wrote_wrote a b s : room (length (a ++ b)) s -> wrote b (wrote a s) = wrote (a ++ b) s.
Proof.
  intros (w & E & H1 & H2). unfold wrote, with_br. cbn. rewrite E, store_bytes_app by (done || lia). rewrite length_app. do 2 f_equal. lia.
Qed.
Lemma wrote_nil s : wrote [] s = s.
Proof.
  destruct s as [h b o e [o' w p r q a] c m]. unfold wrote, with_br. cbn. rewrite Z.add_0_r. do 2 f_equal. destruct w as [w|]; [|done].
  unfold store_bytes. cbn [length app]. by rewrite Nat.add_0_r, take_drop.
Qed.
Lemma called_nil s : called [] s = s.
Proof. destruct s. unfold called. cbn. by rewrite app_nil_r. Qed.
Lemma called_called a b s : called b (called a s) = called (a ++ b) s.
Proof. unfold called. cbn. by rewrite app_assoc. Qed.
Lemma wrote_three a b c x y z s : room (length (a ++ b ++ c)) s ->
  called z (wrote c (called y (wrote b (called x (wrote a s))))) = called (x ++ y ++ z) (wrote (a ++ b ++ c) s).
Proof.
  intros Hr. change (called z (called y (called x (wrote c (wrote b (wrote a s))))) = called (x ++ y ++ z) (wrote (a ++ b ++ c) s)).
  rewrite (wrote_wrote b c (wrote a s)), (wrote_wrote a (b ++ c) s), !called_called, <- ?app_assoc; [done|exact Hr|].
  rewrite length_app in Hr. by apply wrote_room.
Qed.

Lemma putc_ok s c : room 1 s -> ober_putc c s = Some (tt, wrote [u8 c] s).
Proof.
  intros (w & E & H1 & H2). unfold ober_putc, get_br. run. rewrite E. destruct (Z.leb_spec (br_wptr (br s) + 1) (Z.of_nat (length w))); [|lia].
  unfold set_br, wrote. by rewrite E.
Qed.

Lemma putcs_ok cs : forall s, bytes cs -> room (length cs) s -> putcs cs s = Some (tt, wrote cs s).
Proof.
  induction cs as [|c cs IH]; intros s Hb Hr; cbn [putcs]; [by rewrite wrote_nil|]. apply Forall_cons in Hb as [Hc Hb].
  step (putc_ok s c (room_less 1 _ s Hr ltac:(cbn; lia))). replace (u8 c) with c by (symmetry; by apply wrap_small).
  rewrite IH; [|done|by apply wrote_room]. by rewrite (wrote_wrote [c] cs).
Qed.

Lemma write_ok s buf n : (n <= length buf)%nat -> room n s -> ober_write buf (Z.of_nat n) s = Some (tt, wrote (take n buf) s).
Proof.
  intros Hn (w & E & H1 & H2). unfold ober_write, get_br, copy. run. rewrite E. destruct (Z.ltb_spec (Z.of_nat (length buf)) (Z.of_nat n)); [lia|].
  rewrite Nat2Z.id. destruct (Z.leb_spec (br_wptr (br s) + Z.of_nat n) (Z.of_nat (length w))); [|lia]. unfold set_br, wrote. rewrite E, length_take. do 4 f_equal. lia.
Qed.

Lemma put_number_ok n x : forall s, (n <= 8)%nat -> room n s -> put_number n (u64 x) s = Some (tt, wrote (content n x) s).
Proof.
  induction n as [|n IH]; intros s Hn Hr; cbn [put_number content]; [by rewrite wrote_nil|]. step (putc_ok s ((u64 x ≫ (Z.of_nat n * 8)) .& 0xff) (room_less 1 _ s Hr ltac:(lia))).
  assert (E : u8 ((u64 x ≫ (Z.of_nat n * 8)) .& 0xff) = (x / 256 ^ Z.of_nat n) mod 256).
  { change 0xff with (Z.ones 8). rewrite Z.land_ones by lia. unfold u8. rewrite wrap_small by (apply Z.mod_pos_bound; lia). rewrite Z.shiftr_div_pow2 by lia.
    rewrite (Z.mul_comm _ 8), Z.pow_mul_r by lia. change (2 ^ 8) with 256. set (P := 256 ^ Z.of_nat n). assert (HP : 0 < P) by (apply Z.pow_pos_nonneg; lia).
    unfold u64, wrap. assert (E64 : 2 ^ 64 = P * 256 * 256 ^ (7 - Z.of_nat n)).
    { unfold P. change (2 ^ 64) with (256 ^ 8). replace (256 ^ Z.of_nat n * 256) with (256 ^ (Z.of_nat n + 1)) by (rewrite Z.pow_add_r by lia; lia). rewrite <- Z.pow_add_r by lia. f_equal. lia. }
    rewrite (Z.div_mod x (2 ^ 64)) at 2 by lia. rewrite E64 at 2. set (r := x mod 2 ^ 64). set (q := x / 2 ^ 64).
    replace (P * 256 * 256 ^ (7 - Z.of_nat n) * q + r) with (r + 256 * (256 ^ (7 - Z.of_nat n) * q) * P) by lia. rewrite Z.div_add by lia.
    replace (r / P + 256 * (256 ^ (7 - Z.of_nat n) * q)) with (r / P + (256 ^ (7 - Z.of_nat n) * q) * 256) by lia. by rewrite Z.mod_add. }
  rewrite E, IH; [|lia|by apply wrote_room]. rewrite wrote_wrote; [done|]. cbn [app length]. by rewrite content_length.
Qed.

(** ** Headers *)

Lemma id_octet class type c : 0 <= class <= 3 -> 0 <= type < 32 ->
  u8 (let id := u8 (type .| (class ≪ BER_CLASS_SHIFT)) in if c : bool then id .| BER_TYPE_CONSTRUCTED else id) = class * 64 + (if c then 32 else 0) + type.
Proof.
  intros Hc Ht. assert (E : forallb (fun class => forallb (fun type => forallb (fun c : bool =>
    u8 (let id := u8 (type .| (class ≪ 6)) in if c then id .| 0x20 else id) =? class * 64 + (if c then 32 else 0) + type) [true; false]) (seqZ 0 32)) (seqZ 0 4) = true) by (vm_compute; reflexivity).
  rewrite forallb_forall in E. specialize (E class ltac:(apply list_elem_of_In, elem_of_seqZ; lia)). rewrite forallb_forall in E.
  specialize (E type ltac:(apply list_elem_of_In, elem_of_seqZ; lia)). rewrite forallb_forall in E. specialize (E c ltac:(destruct c; cbn; tauto)). by apply Z.eqb_eq in E.
Qed.

Lemma fill_number n x : 0 < n <= 8 -> 0 <= x < (2 ^ n) ^ 5 -> fill 6 n x (Z.ones n) [] = Some (rev (number (2 ^ n) x)).
Proof.
  intros Hn Hx. assert (H2 : 1 < 2 ^ n) by (apply Z.pow_gt_1; lia). rewrite (fill_digits 5); [|lia|change (Z.of_nat 5) with 5; lia|].
  - unfold number. rewrite rev_involutive. cbn [app]. f_equal. apply digits_fuel; [done|change (Z.of_nat 5) with 5; lia|].
    apply (Z.lt_le_trans _ ((2 ^ n) ^ 5)); [lia|]. apply Z.pow_le_mono_r; lia.
  - cbn [length]. pose proof (digits_length 5 (2 ^ n) x 5 H2 ltac:(change (Z.of_nat 5) with 5; lia)). lia.
Qed.

Lemma chain_bytes ds : Forall (fun d => 0 <= d < 128) ds -> bytes (chain ds).
Proof.
  induction 1 as [|d ds Hd H IH]; [apply List.Forall_nil|]. destruct ds as [|d' ds].
  - apply Forall_cons. split; [unfold word; lia|apply List.Forall_nil].
  - rewrite chain_cons by done. apply Forall_cons. split; [unfold word; lia|exact IH].
Qed.
Lemma octets_bytes ds : Forall (fun d => 0 <= d < 256) ds -> bytes ds.
Proof. intros H. eapply Forall_impl; [exact H|]. intros d Hd. exact Hd. Qed.

Lemma dump_header_ok e body s : 0 <= be_class e <= 3 -> 0 <= be_type e < 2 ^ 32 -> be_len e = Z.of_nat (length body) -> Z.of_nat (length body) < 2 ^ 40 ->
  room (length (head_octets e body)) s -> ober_dump_header e s = Some (tt, wrote (head_octets e body) s).
Proof.
  intros Hc Ht Hl Hb. unfold head_octets. set (c := is_seq (be_encoding e)). intros Hr. unfold ober_dump_header. cbv zeta. fold c.
  (* identifier *)
  assert (Hid : exists id, ober_putc (if c then (if be_type e <=? BER_TYPE_SINGLE_MAX then u8 (be_type e .| (be_class e ≪ BER_CLASS_SHIFT)) else u8 (BER_TAG_MASK .| (be_class e ≪ BER_CLASS_SHIFT))) .| BER_TYPE_CONSTRUCTED
      else if be_type e <=? BER_TYPE_SINGLE_MAX then u8 (be_type e .| (be_class e ≪ BER_CLASS_SHIFT)) else u8 (BER_TAG_MASK .| (be_class e ≪ BER_CLASS_SHIFT))) s = Some (tt, wrote [id] s) /\
    (if be_type e <=? BER_TYPE_SINGLE_MAX then mret tt else match fill 6 7 (be_type e) 0x7f [] with None => stuck | Some buf => putcs (tag_octets buf) end) (wrote [id] s) =
      Some (tt, wrote (identifier (be_class e) (be_type e) c) s)).
  { rewrite length_app in Hr. unfold identifier in *. rewrite putc_ok by (apply (room_less 1 _ _ Hr); destruct (be_type e <=? 30); cbn; lia). destruct (Z.leb_spec (be_type e) 30).
    - eexists. split; [done|]. do 3 f_equal. pose proof (id_octet (be_class e) (be_type e) c Hc ltac:(lia)) as Hid. cbv zeta in Hid. by rewrite Hid.
    - eexists. split; [done|]. pose proof (id_octet (be_class e) 31 c Hc ltac:(lia)) as Hid. cbv zeta in Hid. rewrite Hid.
      change 0x7f with (Z.ones 7). rewrite fill_number by lia. change (2 ^ 7) with 128. pose proof (number_range 128 (be_type e) ltac:(lia)) as Hn.
      rewrite tag_octets_chain by (by apply Forall_rev). rewrite rev_involutive. cbn [length] in Hr. rewrite chain_length in Hr.
      rewrite putcs_ok; [|by apply chain_bytes|]. 2:{ rewrite chain_length. apply wrote_room. cbn [length]. eapply room_less; [exact Hr|lia]. }
      rewrite wrote_wrote; [done|]. cbn [app length]. rewrite chain_length. eapply room_less; [exact Hr|lia]. }
  destruct Hid as (id & E1 & E2). step E1. step E2. clear E1 E2. set (ident := identifier (be_class e) (be_type e) c) in *. rewrite Hl.
  rewrite length_app in Hr. pose proof (wrote_room _ _ _ Hr) as Hr2. unfold length_octets in *.
  destruct (Z.ltb_spec (Z.of_nat (length body)) BER_TAG_MORE), (Z.ltb_spec (Z.of_nat (length body)) 128); try lia.
  - rewrite putc_ok by exact Hr2. unfold u8. rewrite wrap_small by (unfold word; lia). by rewrite wrote_wrote by (rewrite length_app; exact Hr).
  - change 0xff with (Z.ones 8). rewrite fill_number by lia. change (2 ^ 8) with 256. rewrite rev_involutive, length_rev.
    pose proof (number_range 256 (Z.of_nat (length body)) ltac:(lia)) as Hn. pose proof (number_length 256 (Z.of_nat (length body)) 5 ltac:(lia) ltac:(lia)) as Hn5.
    set (num := number 256 (Z.of_nat (length body))) in *. cbn [length] in Hr, Hr2. step (putc_ok (wrote ident s) (Z.of_nat (length num) .| BER_TAG_MORE) (room_less 1 _ _ Hr2 ltac:(lia))).
    rewrite Z.lor_comm, (lor_tag 128 _ 7) by (done || lia). unfold u8. rewrite wrap_small by (unfold word; lia).
    rewrite putcs_ok; [|by apply octets_bytes|by apply wrote_room]. rewrite wrote_wrote by (cbn [app length]; exact Hr2). rewrite wrote_wrote; [done|]. rewrite length_app. exact Hr.
Qed.

Lemma head_octets_cell e len n s body : head_octets (cell (with_len e len) n s) body = head_octets e body.
Proof. unfold head_octets. by autorewrite with cell. Qed.

(** ** ober_dump_element *)

(** Content: of numbers, of strings, or the children, which [k] writes. *)
Lemma dump_content_ok e sub sp k s cbs : writable e sub -> room (length (body_of e sub)) s ->
  (if is_seq (be_encoding e) then k s = Some (tt, called cbs (wrote (encode sub) s)) else k s = Some (tt, s)) ->
  let un := if is_seq (be_encoding e) then Word sp else be_un e in
  let len := Z.of_nat (length (body_of e sub)) in
  (if is_num (be_encoding e) then n ← as_word un; if 8 <? len then stuck else put_number (Z.to_nat len) (u64 n)
   else if is_str (be_encoding e) then
     v ← as_buffer un;
     match v with Some buf => ober_write buf len | None => if len =? 0 then ober_write [] 0 else stuck end
   else k) s = Some (tt, called (if is_seq (be_encoding e) then cbs else []) (wrote (body_of e sub) s)).
Proof.
  intros (_ & _ & _ & Hlen & _ & Hnum & Hstr) Hroom Hk. unfold body_of, payload in *. destruct (is_num (be_encoding e)) eqn:En.
  - rewrite (is_num_seq _ En) in *. destruct (Hnum eq_refl) as (Hl8 & x & Ex). rewrite Ex in *. cbn [number_of] in *. specialize (Hlen (or_introl eq_refl)).
    rewrite content_length in *. cbv zeta. rewrite <- Hlen. unfold as_word. run. destruct (Z.ltb_spec 8 (be_len e)); [lia|]. rewrite put_number_ok by (lia || done). by rewrite called_nil.
  - destruct (is_str (be_encoding e)) eqn:Es.
    + rewrite (is_str_seq _ Es) in *. destruct (Hstr eq_refl) as (buf & Ex). rewrite Ex in *. cbn [buffer_of] in *. cbv zeta. unfold as_buffer. run.
      rewrite write_ok; [|rewrite length_take; lia|done]. rewrite called_nil. do 3 f_equal. rewrite length_take.
      destruct (Nat.le_ge_cases (Z.to_nat (be_len e)) (length buf)); [by rewrite Nat.min_l by lia|]. rewrite Nat.min_r by lia. by rewrite !take_ge by lia.
    + destruct (is_seq (be_encoding e)); [exact Hk|]. cbv zeta. by rewrite Hk, called_nil, wrote_nil.
Qed.

Lemma dump_spec f : forall fuel p D s, rep (heap s) p (measured f) D -> f <> Nil -> fall writable f -> (fsize f < fuel)%nat -> room (length (encode f)) s ->
  ober_dump_element fuel p s = Some (tt, called (callbacks (br_wptr (br s)) f) (wrote (encode f) s)).
Proof.
  induction f as [|e sub IHs next IHn]; intros fuel p D s Hr Hne Hw Hf Hroom; [done|]. destruct fuel as [|fuel]; [lia|]. cbn [ober_dump_element].
  cbn [measured] in Hr. destruct Hr as (Hp & sp & np & Ds & Dn & Hc & Hq & Hs & Hn & H1 & H2 & H3 & ->). destruct Hw as (Hw & Hws & Hwn). pose proof Hw as (Hcl & Hty & _ & _ & Hlen40 & _). cbn [fsize] in Hf.
  rewrite encode_node in Hroom |- *. cbn [callbacks]. set (body := body_of e sub) in *. set (c := cell (with_len e (Z.of_nat (length body))) np sp) in *.
  cbn [be_encoding with_len] in Hq. rewrite !length_app in Hroom. step (load_ok _ _ _ Hc).
  (* the header *)
  assert (Eh : ober_dump_header c s = Some (tt, wrote (head_octets e body) s)).
  { rewrite <- (head_octets_cell e (Z.of_nat (length body)) np sp body). fold c. apply dump_header_ok; unfold c; autorewrite with cell; cbn [be_class be_type be_len with_len]; try done.
    rewrite head_octets_cell. eapply room_less; [exact Hroom|lia]. }
  step Eh. clear Eh. set (s1 := wrote (head_octets e body) s). assert (Hroom1 : room (length body + length (encode next)) s1) by (by apply wrote_room).
  assert (Hptr1 : br_wptr (br s1) = br_wptr (br s) + Z.of_nat (length (head_octets e body))) by done.
  (* the callback *)
  assert (Fc : be_cb c = be_cb e /\ be_encoding c = be_encoding e /\ be_len c = Z.of_nat (length body) /\ be_next c = np /\ be_un c = if is_seq (be_encoding e) then Word sp else be_un e) by (unfold c; autorewrite with cell; done).
  destruct Fc as (-> & -> & -> & -> & ->). rewrite <- Hptr1.
  assert (Ecb : (if negb (be_cb e =? 0) then b ← get_br; call (be_cb e) (br_wptr b) else mret tt) s1 = Some (tt, called (if negb (be_cb e =? 0) then [(be_cb e, br_wptr (br s1))] else []) s1)).
  { destruct (negb (be_cb e =? 0)); [done|]. by rewrite called_nil. }
  step Ecb. clear Ecb. set (cb0 := if negb (be_cb e =? 0) then _ else _). set (s2 := called cb0 s1).
  (* the content *)
  assert (Hroom2 : room (length body) s2) by (eapply room_less; [exact Hroom1|lia]).
  assert (Hk : let k := if is_seq (be_encoding e) && nonnull (if is_seq (be_encoding e) then Word sp else be_un e)
      then sub ← as_word (if is_seq (be_encoding e) then Word sp else be_un e); ober_dump_element fuel sub else mret tt in
    if is_seq (be_encoding e) then k s2 = Some (tt, called (callbacks (br_wptr (br s1)) sub) (wrote (encode sub) s2)) else k s2 = Some (tt, s2)).
  { destruct (is_seq (be_encoding e)) eqn:Eq; [|done]. cbn [andb nonnull]. rewrite (rep_nonnull _ _ _ _ Hs). destruct sub as [|e' sub' next'] eqn:Esub; [cbn; by rewrite called_nil, wrote_nil|].
    cbn [measured negb]. unfold as_word. run. rewrite <- Esub in *. rewrite (IHs fuel sp Ds s2); [done|exact Hs|by rewrite Esub|done|lia|].
    unfold body, body_of in Hroom2. rewrite Eq, <- Esub in Hroom2. exact Hroom2. }
  pose proof (dump_content_ok e sub sp _ s2 _ Hw Hroom2 Hk) as Eb. cbv zeta in Eb. fold body in Eb.
  step Eb. clear Eb. set (s3 := called _ (wrote body s2)).
  (* the siblings *)
  rewrite (rep_nonnull _ _ _ _ Hn). destruct next as [|e' sub' next'] eqn:Enext.
  - cbn [measured callbacks encode] in *. unfold s3, s2, s1.
    pose proof (wrote_three (head_octets e body) body [] cb0 (if is_seq (be_encoding e) then callbacks (br_wptr (br s1)) sub else []) [] s ltac:(rewrite !length_app; exact Hroom)) as H.
    rewrite wrote_nil, called_nil in H. unfold mret, M_ret. do 2 f_equal. exact H.
  - cbn [measured]. cbv iota. rewrite <- Enext in *. rewrite (IHn fuel np Dn s3); [|exact Hn|by rewrite Enext|done|lia|].
    + unfold s3, s2, s1. rewrite wrote_three by (rewrite !length_app; exact Hroom). done.
    + unfold s3. change (room (length (encode next)) (wrote body s2)). apply wrote_room. exact Hroom1.
Qed.

(** ** ober_write_elements *)

(** What is left of an old buffer that is used again. *)
Definition stale (s : st) (n : nat) : option (list Z) :=
  match br_wbuf (br s) with Some w => if (length w <? n)%nat then None else Some (drop n w) | None => None end.

Lemma malloc_ok s : head (oracle s) <> Some false -> malloc s = Some (true, St (heap s) (brk s) (tail (oracle s)) (errno s) (br s) (calls s) (bufs s)).
Proof. unfold malloc. by destruct (oracle s) as [|[|] o]. Qed.
Lemma malloc_fails s o : oracle s = false :: o -> malloc s = Some (false, St (heap s) (brk s) o ENOMEM (br s) (calls s) (bufs s)).
Proof. unfold malloc. by intros ->. Qed.

Lemma emit_into f fuel p D s w : rep (heap s) p (measured f) D -> f <> Nil -> fall writable f -> (fsize f < fuel)%nat -> (length (encode f) <= length w)%nat ->
  let n := length (encode f) in
  (_ ← set_br (Ber (br_offs (br s)) (Some w) 0 (br_rbuf (br s)) (br_rptr (br s)) (br_application (br s))); _ ← ober_dump_element fuel p; mret (Z.of_nat n)) s =
  Some (Z.of_nat n, called (callbacks 0 f) (with_br s (Ber (br_offs (br s)) (Some (encode f ++ drop n w)) (Z.of_nat n) (br_rbuf (br s)) (br_rptr (br s)) (br_application (br s))))).
Proof.
  intros Hr Hne Hw Hf Hn n. set (b1 := Ber _ (Some w) 0 _ _ _). rewrite (bind_eq (set_br b1) _ s tt (with_br s b1) eq_refl).
  assert (Hroom : room (length (encode f)) (with_br s b1)) by (exists w; cbn; split; [done|lia]).
  pose proof (dump_spec f fuel p D (with_br s b1) Hr Hne Hw Hf Hroom) as E. step E. reflexivity.
Qed.

Lemma write_elements_spec junk fuel p f D s : rep (heap s) p f D -> f <> Nil -> fall writable f -> (fsize f < fuel)%nat -> Z.of_nat (length (encode f)) < 2 ^ 64 ->
  let n := length (encode f) in let b := br s in
  stale s n <> None \/ head (oracle s) <> Some false ->
  exists h1, ober_write_elements junk fuel p s = Some (Z.of_nat n, called (callbacks 0 f)
      (St h1 (brk s) (match stale s n with Some _ => oracle s | None => tail (oracle s) end) (errno s)
        (Ber (br_offs b) (Some (encode f ++ default [] (stale s n))) (Z.of_nat n) (br_rbuf b) (br_rptr b) (br_application b)) (calls s) (bufs s))) /\
    rep h1 p (measured f) D /\ (forall q, q ∉ D -> h1 !! q = heap s !! q).
Proof.
  intros Hr Hne Hw Hf Hl n b Hm. unfold ober_write_elements. destruct (calc_len_spec f fuel p D s Hr Hne Hw Hf Hl) as (h1 & E & Hr1 & Hf1). step E. clear E.
  exists h1. split; [|done]. set (s1 := with_heap s h1). fold n. rewrite (bind_eq get_br _ s1 b s1 eq_refl). cbv zeta.
  assert (Hold : match br_wbuf b with Some w => if Z.of_nat (length w) <? Z.of_nat n then None else Some w | None => None end = (match stale s n with Some _ => br_wbuf b | None => None end)).
  { unfold stale. fold b. destruct (br_wbuf b) as [w|]; [|done]. by destruct (Z.ltb_spec (Z.of_nat (length w)) (Z.of_nat n)), (Nat.ltb_spec (length w) n); try lia. }
  rewrite Hold. clear Hold. unfold stale in *. fold b. fold b in Hm. destruct (br_wbuf b) as [w|] eqn:Ew; [destruct (Nat.ltb_spec (length w) n)|].
  2:{ rewrite (bind_eq _ _ s1 (Some w) s1 eq_refl), (bind_eq get_br _ s1 b s1 eq_refl). exact (emit_into f fuel p D s1 w Hr1 Hne Hw Hf ltac:(done)). }
  all: assert (Hh : head (oracle s1) <> Some false) by (destruct Hm; done).
  all: set (s2 := St h1 (brk s) (tail (oracle s)) (errno s) b (calls s) (bufs s)); set (w' := map junk (seq 0 (Z.to_nat (Z.of_nat n)))).
  all: assert (Ea : (ok ← malloc; mret (if ok : bool then Some w' else None)) s1 = Some (Some w', s2)) by (step (malloc_ok s1 Hh); done).
  all: step Ea; rewrite (bind_eq get_br _ s2 b s2 eq_refl).
  all: assert (Hw' : length w' = n) by (unfold w'; rewrite length_map, length_seq; lia).
  all: pose proof (emit_into f fuel p D s2 w' Hr1 Hne Hw Hf ltac:(fold n; lia)) as E; cbv zeta in E; fold n in E; rewrite drop_ge in E by lia; exact E.
Qed.

(** Without memory for the buffer there is none. *)
Lemma write_elements_oom junk fuel p f D s o : rep (heap s) p f D -> f <> Nil -> fall writable f -> (fsize f < fuel)%nat -> Z.of_nat (length (encode f)) < 2 ^ 64 ->
  stale s (length (encode f)) = None -> oracle s = false :: o ->
  let b := br s in
  exists h1, ober_write_elements junk fuel p s = Some (-1, St h1 (brk s) o ENOMEM (Ber (br_offs b) None (br_wptr b) (br_rbuf b) (br_rptr b) (br_application b)) (calls s) (bufs s)) /\
    rep h1 p (measured f) D /\ (forall q, q ∉ D -> h1 !! q = heap s !! q).
Proof.
  intros Hr Hne Hw Hf Hl Hst Ho b. unfold ober_write_elements. destruct (calc_len_spec f fuel p D s Hr Hne Hw Hf Hl) as (h1 & E & Hr1 & Hf1). step E. clear E.
  exists h1. split; [|done]. set (s1 := with_heap s h1). set (n := length (encode f)) in *. rewrite (bind_eq get_br _ s1 b s1 eq_refl). cbv zeta.
  assert (Hold : match br_wbuf b with Some w => if Z.of_nat (length w) <? Z.of_nat n then None else Some w | None => None end = None).
  { unfold stale in Hst. fold b in Hst. destruct (br_wbuf b) as [w|]; [|done]. by destruct (Z.ltb_spec (Z.of_nat (length w)) (Z.of_nat n)), (Nat.ltb_spec (length w) n); try lia. }
  rewrite Hold. set (s2 := St h1 (brk s) o ENOMEM b (calls s) (bufs s)).
  assert (Ea : (ok ← malloc; mret (if ok : bool then Some (map junk (seq 0 (Z.to_nat (Z.of_nat n)))) else None)) s1 = Some (None, s2)) by (step (malloc_fails s1 o Ho); done).
  step Ea. rewrite (bind_eq get_br _ s2 b s2 eq_refl). done.
Qed.

(** C5: ober_write_elements writes exactly the encoding of X.690 of the
    elements (identifier and length octets, minimal and definite, and content),
    behind which there may be octets of an earlier, longer message in the same
    buffer; it calls every write callback once, in order, with the position of
    the content; it stores the lengths, and changes no other element. Without
    memory for the buffer it returns -1. *)
Theorem ober_write_correct junk fuel p f D s : rep (heap s) p f D -> f <> Nil -> fall writable f -> (fsize f < fuel)%nat -> Z.of_nat (length (encode f)) < 2 ^ 64 ->
  let n := length (encode f) in let b := br s in
  exists h1, rep h1 p (measured f) D /\ (forall q, q ∉ D -> h1 !! q = heap s !! q) /\
    ober_write_elements junk fuel p s = Some
      (match stale s n, oracle s with
       | None, false :: o => (-1, St h1 (brk s) o ENOMEM (Ber (br_offs b) None (br_wptr b) (br_rbuf b) (br_rptr b) (br_application b)) (calls s) (bufs s))
       | old, o => (Z.of_nat n, St h1 (brk s) (match old with Some _ => o | None => tail o end) (errno s)
            (Ber (br_offs b) (Some (encode f ++ default [] old)) (Z.of_nat n) (br_rbuf b) (br_rptr b) (br_application b)) (calls s ++ callbacks 0 f) (bufs s))
       end).
Proof.
  intros Hr Hne Hw Hf Hl n b. destruct (decide (stale s n = None /\ head (oracle s) = Some false)) as [[H1 H2]|Hok].
  - destruct (oracle s) as [|[|] o] eqn:Eo; try done. destruct (write_elements_oom junk fuel p f D s o Hr Hne Hw Hf Hl H1 Eo) as (h1 & E & H). exists h1. rewrite H1. by destruct H.
  - assert (Hcase : stale s n <> None \/ head (oracle s) <> Some false) by (destruct (stale s n); [by left|right; intros H; by destruct Hok]).
    destruct (write_elements_spec junk fuel p f D s Hr Hne Hw Hf Hl Hcase) as (h1 & E & H). exists h1. destruct H as [H3 H4]. split; [done|]. split; [done|]. rewrite E. fold n b.
    destruct (stale s n); [done|]. destruct (oracle s) as [|[|] o]; [done|done|]. by destruct Hcase.
Qed.

(** A message: a sequence of -129, a sequence of the string "ab", which has a
    write callback, and a null of the application's type 1000. *)
Definition demo : forest :=
  Node (Elm 0 16 16 0 0 false 0 0 (Word 0))
    (Node (Elm 0 2 2 2 0 false 0 0 (Word (-129))) Nil
      (Node (Elm 0 16 16 0 0 false 0 0 (Word 0)) (Node (Elm 0 4 4 2 0 true 0 7 (Buffer [97; 98; 0])) Nil Nil)
        (Node (Elm 0 1000 5 0 0 false 1 0 (Word 0)) Nil Nil))) Nil.
Definition demo_st : st :=
  St {[ 1 := Elm 0 16 16 0 0 false 0 0 (Word 2); 2 := Elm 3 2 2 2 0 false 0 0 (Word (-129)); 3 := Elm 5 16 16 0 0 false 0 0 (Word 4);
        4 := Elm 0 4 4 2 0 true 0 7 (Buffer [97; 98; 0]); 5 := Elm 0 1000 5 0 0 false 1 0 (Word 0) ]} 6 [] 0 (Ber 0 None 0 None 0 None) [] {[+ [97; 98; 0] +]}.
Definition demo_cells : gset Z := {[1]} ∪ ({[2]} ∪ (∅ ∪ ({[3]} ∪ (({[4]} ∪ (∅ ∪ ∅)) ∪ ({[5]} ∪ (∅ ∪ ∅))))) ∪ ∅).

Lemma rep_node h p e s n Ds Dn sub next : h !! p = Some (cell e n s) -> p <> 0 -> (is_seq (be_encoding e) = false -> sub = Nil) -> rep h s sub Ds -> rep h n next Dn ->
  (p ∉ Ds) /\ (p ∉ Dn) /\ Ds ## Dn -> rep h p (Node e sub next) ({[p]} ∪ (Ds ∪ Dn)).
Proof. intros H H0 Hq Hs Hn (H1 & H2 & H3). split; [done|]. by exists s, n, Ds, Dn. Qed.

Lemma demo_rep : rep (heap demo_st) 1 demo demo_cells.
Proof.
  assert (Hnil : rep (heap demo_st) 0 Nil ∅) by done. unfold demo, demo_cells.
  apply (rep_node _ 1 _ 2 0); [reflexivity|done|done| |exact Hnil|set_solver]. apply (rep_node _ 2 _ 0 3); [reflexivity|done|done|exact Hnil| |set_solver].
  apply (rep_node _ 3 _ 4 5); [reflexivity|done|done|..|set_solver].
  - apply (rep_node _ 4 _ 0 0); [reflexivity|done|done|exact Hnil|exact Hnil|set_solver].
  - apply (rep_node _ 5 _ 0 0); [reflexivity|done|done|exact Hnil|exact Hnil|set_solver].
Qed.
Lemma demo_writable : fall writable demo.
Proof. cbn [fall demo]. repeat split; try done; try (intros [[=] ?]; done); try (cbn; lia); try (intros [[=]|[=]]); try (intros _; by eexists); try by intros [_ [=]]. all: by eexists. Qed.

Lemma ober_write_correct_witness : exists s', ober_write_elements (fun _ => 0) 10 1 demo_st = Some (16, s') /\
  br_wbuf (br s') = Some [0x30; 14; 2; 2; 0xff; 0x7f; 0x30; 4; 4; 2; 97; 98; 0x5f; 0x87; 0x68; 0] /\ calls s' = [(7, 10)].
Proof.
  destruct (ober_write_correct (fun _ => 0) 10 1 demo demo_cells demo_st demo_rep ltac:(discriminate) demo_writable ltac:(cbn; lia) ltac:(vm_compute; reflexivity)) as (h1 & _ & _ & E).
  eexists. split; [rewrite E; vm_compute; reflexivity|]. split; vm_compute; reflexivity.
Defined.
