(* ===== verification/BerRead.v ===== *)
(** * BerRead: the reader of ber.c reads back what the writer writes.

    What ober_read_elements makes of the encoding of a forest, element by
    element; then, of any input whatever, that it stays in bounds, ends, and
    leaves well-formed elements or none. *)

From stdpp Require Import gmultiset.
From S2P Require Import Prelude Ber BerOctets BerWrite.
Import X690.

(** ** What is received *)

(** An element fresh from calloc. *)
Definition blank : ber_element := Elm 0 0 0 0 0 false 0 0 (Word 0).

(** The value a number has after the round trip, and the buffer of a string. *)
Definition received_un (e : ber_element) : be_union :=
  if is_num (be_encoding e) then Word (sgn (8 * be_len e) (number_of (be_un e)))
  else if is_str (be_encoding e) then Buffer (payload e ++ (if be_encoding e =? BER_TYPE_BITSTRING then [] else [0]))
  else Word 0.
Definition received_element (offs : Z) (e : ber_element) (sub : forest) : ber_element :=
  Elm 0 (be_type e) (if is_seq (be_encoding e) then BER_TYPE_SEQUENCE else be_encoding e) (Z.of_nat (length (body_of e sub)))
    (offs + Z.of_nat (length (head_octets e (body_of e sub)))) (is_str (be_encoding e)) (be_class e) 0 (received_un e).
(** The forest received from the position [offs] of the stream: sets are
    sequences, and an empty sequence has one blank child. *)
Fixpoint received (offs : Z) (f : forest) : forest :=
  match f with
  | Nil => Nil
  | Node e sub next =>
      let start := offs + Z.of_nat (length (head_octets e (body_of e sub))) in
      Node (received_element offs e sub)
        (if is_seq (be_encoding e) then match sub with Nil => Node blank Nil Nil | _ => received start sub end else Nil)
        (received (start + Z.of_nat (length (body_of e sub))) next)
  end.
Definition received_children (offs : Z) (e : ber_element) (sub : forest) : forest :=
  if is_seq (be_encoding e) then match sub with Nil => Node blank Nil Nil | _ => received (offs + Z.of_nat (length (head_octets e (body_of e sub)))) sub end else Nil.

(** How the encoding of a primitive element is found. *)
Definition application (app : option (ber_element -> Z)) (e : ber_element) : Z := match app with Some f => f e | None => BER_TYPE_NULL end.
Definition is_primitive (type : Z) : bool := (type =? BER_TYPE_BOOLEAN) || (type =? BER_TYPE_INTEGER) || (type =? BER_TYPE_ENUMERATED) || (type =? BER_TYPE_NULL).

(** An element that the reader takes back. *)
Definition readable (app : option (ber_element -> Z)) (e : ber_element) (sub : forest) : Prop :=
  0 <= be_class e <= 3 /\ 0 <= be_type e < 2 ^ 28 /\ Z.of_nat (length (body_of e sub)) < 2 ^ 32 /\
  if is_seq (be_encoding e) then (be_class e = BER_CLASS_UNIVERSAL -> is_primitive (be_type e) = false) /\ Z.of_nat (siblings sub) <= BER_MAX_SEQ_ELEMENTS
  else
    (if be_class e =? BER_CLASS_UNIVERSAL then be_encoding e = be_type e
     else forall l o, application app (Elm 0 (be_type e) 0 l o false (be_class e) 0 (Word 0)) = be_encoding e) /\
    (is_num (be_encoding e) = true -> 1 <= be_len e <= 8 /\
      if be_encoding e =? BER_TYPE_BOOLEAN then be_len e = 1 else fits (be_len e) (number_of (be_un e)) /\ minimal (be_len e) (number_of (be_un e))) /\
    (is_str (be_encoding e) = true -> exists b, be_un e = Buffer b /\ 0 <= be_len e <= Z.of_nat (length b)) /\
    (is_num (be_encoding e) || is_str (be_encoding e) || (be_encoding e =? BER_TYPE_NULL)) = true.

(** ** The header *)

Lemma read_header_ok elm e sub rest s : heap s !! elm = Some blank -> readable (br_application (br s)) e sub -> 
  let body := body_of e sub in let n := Z.of_nat (length (head_octets e body)) in
  at_input s (head_octets e body ++ body ++ rest) ->
  read_header elm s = Some (Some (n + Z.of_nat (length body), Z.of_nat (length body)),
    with_heap (adv n s) (<[elm := with_read blank (be_type e) (Z.of_nat (length body)) (br_offs (br s) + n) (be_class e) (if is_seq (be_encoding e) then BER_TYPE_SEQUENCE else be_encoding e)]> (heap s))).
Proof.
  intros He (Hc & Ht & Hl & Hx) body n Hin. unfold read_header. fold body in Hl. unfold head_octets in Hin, n. rewrite <- app_assoc in Hin.
  set (c := is_seq (be_encoding e)) in *. step (get_id_ok _ _ _ _ _ Hc Ht Hin). cbv iota beta zeta. apply at_input_adv in Hin.
  step (get_len_ok (Z.of_nat (length body)) _ _ ltac:(lia) Hin). cbv iota beta zeta. apply at_input_adv in Hin. rewrite adv_adv in *.
  set (i := Z.of_nat (length (identifier (be_class e) (be_type e) c))) in *. set (o := Z.of_nat (length (length_octets (Z.of_nat (length body))))) in *.
  assert (En : i + o = n) by (unfold i, o, n; rewrite length_app; lia). rewrite En in *. set (s1 := adv n s) in *.
  assert (Hprim : (be_class e =? BER_CLASS_UNIVERSAL) && is_primitive (be_type e) && c = false).
  { destruct c; [|by rewrite andb_false_r]. destruct Hx as [Hx _]. destruct (Z.eqb_spec (be_class e) BER_CLASS_UNIVERSAL); [by rewrite (Hx ltac:(done))|done]. }
  fold (is_primitive (be_type e)). rewrite Hprim. rewrite (bind_eq get_br _ s1 (br s1) s1 eq_refl).
  destruct Hin as (r & H1 & H2 & H3 & H4). rewrite H1. cbn [default from_option id]. rewrite length_app in H3.
  destruct (Z.gtb_spec (Z.of_nat (length body)) (Z.of_nat (length r) - br_rptr (br s1))); [lia|].
  step (store_ok s1 elm (fun e0 => with_read e0 (be_type e) (Z.of_nat (length body)) (br_offs (br s1)) (be_class e) (be_encoding e0)) blank He).
  set (e1 := with_read blank _ _ _ _ _). set (s2 := with_heap s1 _). assert (He2 : heap s2 !! elm = Some e1) by (cbn; by rewrite lookup_insert_eq).
  step (load_ok s2 elm e1 He2). change (be_encoding e1 =? 0) with true. cbv iota. step (store_ok s2 elm (fun e0 => with_read e0 (be_type e) (Z.of_nat (length body)) (br_offs (br s1)) (be_class e)
    (if c then BER_TYPE_SEQUENCE else if be_class e =? BER_CLASS_UNIVERSAL then be_type e else match br_application (br s1) with Some f => f e1 | None => BER_TYPE_NULL end)) e1 He2).
  unfold mret, M_ret. replace (i + (o + Z.of_nat (length body))) with (n + Z.of_nat (length body)) by lia. do 2 f_equal.
  unfold s2. rewrite with_heap_heap. cbn. rewrite insert_insert_eq. f_equal. f_equal. unfold e1, with_read. cbn. f_equal.
  destruct c; [done|]. destruct Hx as (Hx & _). destruct (be_class e =? BER_CLASS_UNIVERSAL); [done|]. exact (Hx (Z.of_nat (length body)) (br_offs (br s) + n)).
Qed.

(** ** Content *)

Lemma sign_extended n x : 1 <= n <= 8 ->
  let v := x mod 256 ^ n in let val := sgn 64 v in
  (if (n <? 8) && negb ((val ≫ ((n - 1) * 8)) .& 0x80 =? 0) then sgn 64 (val .| shl64 (2 ^ 64 - 1) (n * 8)) else val) = sgn (8 * n) x.
Proof.
  intros Hn. assert (Ep : 256 ^ n = 2 ^ (8 * n)) by (rewrite Z.pow_mul_r by lia; done). rewrite Ep. clear Ep. intros v val. destruct (Z.ltb_spec n 8) as [H8|H8]; cbn [andb].
  2:{ assert (n = 8) as -> by lia. unfold val. apply sgn_congr. unfold v. rewrite Zminus_mod, Z.mod_mod by lia. by rewrite Z.sub_diag. }
  set (P := 2 ^ (8 * n - 8)). assert (HP : 0 < P) by (apply Z.pow_pos_nonneg; lia). assert (E0 : 2 ^ (8 * n) = 256 * P) by (unfold P; change 256 with (2 ^ 8); rewrite <- Z.pow_add_r by lia; f_equal; lia).
  assert (E1 : 2 ^ (8 * n - 1) = 128 * P) by (unfold P; change 128 with (2 ^ 7); rewrite <- Z.pow_add_r by lia; f_equal; lia).
  assert (HP8 : 256 * P <= 2 ^ 56) by (rewrite <- E0; apply Z.pow_le_mono_r; lia).
  pose proof (Z.mod_pos_bound x (2 ^ (8 * n)) ltac:(lia)) as Hv. fold v in Hv. rewrite E0 in Hv.
  assert (Ev : val = v) by (apply sgn_small; lia). rewrite Ev. rewrite Z.shiftr_div_pow2 by lia. replace ((n - 1) * 8) with (8 * n - 8) by lia. fold P.
  destruct (bit7 (v / P)) as [-> _]; [split; [apply Z.div_pos; lia|apply Z.div_lt_upper_bound; lia]|].
  unfold sgn at 2. unfold wrap. fold v. rewrite E1. destruct (Z.ltb_spec (v / P) 128) as [Hlt|Hge].
  - cbn [negb]. destruct (Z.ltb_spec v (128 * P)); [done|]. pose proof (Z.div_le_lower_bound v P 128 HP ltac:(lia)). lia.
  - cbn [negb]. destruct (Z.ltb_spec v (128 * P)) as [Hl|_]; [pose proof (Z.div_lt_upper_bound v P 128 HP ltac:(lia)); lia|].
    assert (Em : shl64 (2 ^ 64 - 1) (n * 8) = 2 ^ 64 - 256 * P).
    { unfold shl64, u64, wrap. rewrite Z.shiftl_mul_pow2 by lia. rewrite (Z.mul_comm n 8), E0. symmetry. apply (Z.mod_unique_pos _ _ (256 * P - 1)); lia. }
    rewrite Em, Z.lor_comm, (lor_tag _ v (8 * n)); [|lia|rewrite E0; lia|].
    + rewrite (sgn_congr 64 _ (v - 256 * P)) by (replace (2 ^ 64 - 256 * P + v - (v - 256 * P)) with (1 * 2 ^ 64) by lia; by rewrite Z.mod_mul).
      rewrite sgn_small by lia. lia.
    + replace (2 ^ 64) with (2 ^ (8 * n) * 2 ^ (64 - 8 * n)) by (rewrite <- Z.pow_add_r by lia; f_equal; lia). rewrite E0.
      replace (256 * P * 2 ^ (64 - 8 * n) - 256 * P) with ((2 ^ (64 - 8 * n) - 1) * (256 * P)) by lia. apply Z.mod_mul. lia.
Qed.

Lemma bind_assoc {A B C} (m : M A) (f : A -> M B) (g : B -> M C) s : ((m ≫= f) ≫= g) s = (m ≫= fun x => f x ≫= g) s.
Proof. unfold mbind, M_bind. by destruct (m s) as [[x s']|]. Qed.

Lemma with_heap_adv n s h : with_heap (adv n s) h = adv n (with_heap s h).
Proof. done. Qed.

Lemma read_number_ok elm enc e s n x rest : heap s !! elm = Some e -> 1 <= Z.of_nat n <= 8 -> (enc = BER_TYPE_BOOLEAN -> n = 1%nat) ->
  (n = 1%nat \/ fits (Z.of_nat n) x /\ minimal (Z.of_nat n) x) -> at_input s (content n x ++ rest) ->
  read_number elm enc (Z.of_nat n) s = Some (true, with_heap (adv (Z.of_nat n) s) (<[elm := with_un e (Word (sgn (8 * Z.of_nat n) x))]> (heap s))).
Proof.
  intros He Hn Hb Hm Hin. unfold read_number. replace ((enc =? BER_TYPE_BOOLEAN) && negb (Z.of_nat n =? 1)) with false.
  2:{ destruct (Z.eqb_spec enc BER_TYPE_BOOLEAN) as [Eb|]; [by rewrite (Hb Eb)|done]. }
  destruct (Z.ltb_spec (Z.of_nat n) 1); [lia|]. destruct (Z.gtb_spec (Z.of_nat n) 8); [lia|]. rewrite Nat2Z.id.
  assert (Hmo : minimal_octets (content n x)).
  { destruct Hm as [->|[Hf Hm]]; [done|by apply content_minimal]. }
  pose proof (number_octets_ok (content n x) s 0 0 0 rest (content_range n x) ltac:(lia) ltac:(done) ltac:(lia) Hin) as E.
  rewrite content_length, horner_content in E. change (sgn 64 0) with 0 in E. step E. cbv iota.
  pose proof (sign_extended (Z.of_nat n) x Hn) as Es. cbv zeta in Es. cbv zeta. rewrite Es.
  assert (He' : heap (adv (Z.of_nat n) s) !! elm = Some e) by exact He. step (store_ok _ _ (fun e => with_un e (Word (sgn (8 * Z.of_nat n) x))) _ He'). done.
Qed.

(** Buffers that have been allocated. *)
Definition owning (m : gmultiset (list Z)) (s : st) : st := with_bufs s (bufs s ⊎ m).
Lemma owning_nothing s : owning ∅ s = s.
Proof. unfold owning, with_bufs. destruct s. cbn. f_equal. multiset_solver. Qed.

Lemma read_buffer_ok elm e s bs extra rest : heap s !! elm = Some e -> oracle s = [] -> at_input s (bs ++ rest) ->
  read_buffer elm (Z.of_nat (length bs)) extra s = Some (true, owning {[+ bs ++ extra +]} (with_heap (adv (Z.of_nat (length bs)) s) (<[elm := with_buffer e (Z.of_nat (length bs)) (bs ++ extra)]> (heap s)))).
Proof.
  intros He Ho Hin. unfold read_buffer. assert (Hm : malloc s = Some (true, s)) by (rewrite malloc_ok by (by rewrite Ho); rewrite Ho; cbn; rewrite <- Ho; by destruct s).
  step Hm. cbv iota. cbn [negb]. step (ober_read_ok s bs rest Hin). set (s1 := adv _ s). set (s2 := owning {[+ bs ++ extra +]} s1). rewrite (bind_eq (own (bs ++ extra)) _ s1 tt s2 eq_refl).
  assert (He' : heap s2 !! elm = Some e) by exact He. step (store_ok _ _ (fun e => with_buffer e (Z.of_nat (length bs)) (bs ++ extra)) _ He'). done.
Qed.

(** A fresh element. *)
Definition roomy (s : st) : Prop := 0 < brk s /\ forall q, is_Some (heap s !! q) -> 0 < q < brk s.
Definition after_new (s : st) : st := St (<[brk s := blank]> (heap s)) (brk s + 1) (oracle s) (errno s) (br s) (calls s) (bufs s).
Lemma get_element_ok s : oracle s = [] -> ober_get_element 0 s = Some (brk s, after_new s).
Proof.
  intros Ho. unfold ober_get_element, new. assert (Hm : malloc s = Some (true, s)) by (rewrite malloc_ok by (by rewrite Ho); rewrite Ho; cbn; rewrite <- Ho; by destruct s).
  step Hm. done.
Qed.
Lemma roomy_new s : roomy s -> roomy (after_new s).
Proof.
  intros [Hb Hr]. split; [cbn; lia|]. intros q [e He]. cbn in *. destruct (decide (q = brk s)) as [->|Hne]; [lia|]. rewrite lookup_insert_ne in He by done.
  specialize (Hr q (ex_intro _ _ He)). lia.
Qed.

(** ** Elements *)

(** The state after [n] octets, with the heap [h] and the buffers [m] besides. *)
Definition post (s : st) (n : Z) (h : gmap Z ber_element) (b : Z) (m : gmultiset (list Z)) : st := St h b (oracle s) (errno s) (br (adv n s)) (calls s) (bufs s ⊎ m).
(** The forest [f] at [p], of cells that were fresh in [s] but for [p]; the
    others are untouched. *)
Definition received_at (s : st) (p : Z) (f : forest) (h : gmap Z ber_element) (b : Z) : Prop :=
  exists D, rep h p f D /\ (forall q, q ∈ D -> q = p \/ brk s <= q < b) /\ (forall q, q ∉ D -> h !! q = heap s !! q) /\
    brk s <= b /\ forall q, is_Some (h !! q) -> 0 < q < b.

Lemma received_cell s p h b e sub : received_at s p (Node e sub Nil) h b ->
  exists sp Ds, h !! p = Some (cell e 0 sp) /\ p <> 0 /\ (is_seq (be_encoding e) = false -> sub = Nil) /\ rep h sp sub Ds /\ (p ∉ Ds) /\
    (forall q, q ∈ Ds -> brk s <= q < b) /\ (forall q, q <> p -> q ∉ Ds -> h !! q = heap s !! q) /\ brk s <= b /\ forall q, is_Some (h !! q) -> 0 < q < b.
Proof.
  intros (D & Hr & HD & Hf & Hb & Hd). destruct Hr as (Hp & sp & np & Ds & Dn & Hc & Hq & Hs & [-> ->] & H1 & H2 & H3 & ->).
  exists sp, Ds. split; [done|]. split; [done|]. split; [done|]. split; [done|]. split; [done|]. split; [|split; [|done]].
  - intros q Hqs. destruct (HD q ltac:(set_solver)) as [->|]; [done|lia].
  - intros q Hqp Hqs. apply Hf. set_solver.
Qed.

(** What the reader has of a primitive element, a leaf. *)
Lemma received_leaf s p e : roomy s -> p <> 0 -> is_Some (heap s !! p) -> (is_seq (be_encoding e) = true -> be_un e = Word 0) -> be_next e = 0 ->
  received_at s p (Node e Nil Nil) (<[p := e]> (heap s)) (brk s).
Proof.
  intros [Hb Hr] Hp Hs Hq Hn. exists {[p]}. split; [|split; [|split; [|split]]].
  - split; [done|]. exists 0, 0, ∅, ∅. rewrite lookup_insert_eq. split; [|split; [done|]]. { unfold cell. destruct (is_seq (be_encoding e)) eqn:Eq; [specialize (Hq eq_refl)|]; destruct e; cbn in *; by subst. }
    split; [done|]. split; [done|]. set_solver.
  - set_solver.
  - intros q Hqp. rewrite lookup_insert_ne; [done|set_solver].
  - lia.
  - intros q [e' Hq']. destruct (decide (q = p)) as [->|]; [by apply Hr|]. rewrite lookup_insert_ne in Hq' by done. apply Hr. by eexists.
Qed.

Lemma rep_root h p f D : rep h p f D -> p <> 0 -> p ∈ D.
Proof. destruct f; [intros [-> _]; done|]. intros (_ & ? & ? & ? & ? & _ & _ & _ & _ & _ & _ & _ & ->) _. set_solver. Qed.

(** A forest received is put under the element [p]. *)
Lemma received_under s s' p g r h b : roomy s -> p <> 0 -> is_Some (heap s !! p) -> is_seq (be_encoding r) = true ->
  heap s' = <[p := cell r 0 (brk s)]> (<[brk s := blank]> (heap s)) -> brk s' = brk s + 1 ->
  received_at s' (brk s) g h b -> received_at s p (Node r g Nil) h b.
Proof.
  intros [Hb Hr] Hp Hs Hq Eh Eb (D & HD & Hd & Hf & Hbb & Hdom). pose proof (Hr p Hs) as Hpb. rewrite Eb in *.
  assert (HpD : p ∉ D) by (intros Hx; destruct (Hd p Hx); lia). exists ({[p]} ∪ (D ∪ ∅)). split; [|split; [|split; [|split]]].
  - split; [done|]. exists (brk s), 0, D, ∅. rewrite (Hf p HpD), Eh, lookup_insert_eq. split; [done|]. split; [by rewrite Hq|]. split; [done|]. split; [done|]. set_solver.
  - intros q Hx. apply elem_of_union in Hx as [->%elem_of_singleton|Hx]; [by left|]. rewrite union_empty_r_L in Hx. right. destruct (Hd q Hx); lia.
  - intros q Hx. destruct (decide (q = brk s)) as [->|Hqb]; [|rewrite Hf, Eh, !lookup_insert_ne by set_solver; done].
    exfalso. apply Hx. pose proof (rep_root _ _ _ _ HD ltac:(lia)). set_solver.
  - lia.
  - done.
Qed.

(** A forest received is put behind the element [p]. *)
Lemma received_behind s s' p k g r h b h' b' : received_at s p (Node r k Nil) h b ->
  heap s' = <[p := with_next (default blank (h !! p)) b]> (<[b := blank]> h) -> brk s' = b + 1 -> 0 < brk s -> p < brk s ->
  received_at s' b g h' b' -> received_at s p (Node r k g) h' b'.
Proof.
  intros H1 Eh Eb Hb0 Hpb (D & HD & Hd & Hf & Hbb & Hdom). apply received_cell in H1 as (sp & Ds & Hc & Hp & Hq & Hs & HpD & HDs & Hfs & Hbs & Hdoms).
  rewrite Hc in Eh. cbn [default from_option id] in Eh. rewrite cell_with_next in Eh. rewrite Eb in *.
  assert (HpD' : p ∉ D) by (intros Hx; destruct (Hd p Hx); lia). assert (Hdis : Ds ## D) by (intros q H1 H2; specialize (HDs q H1); destruct (Hd q H2); lia).
  assert (Hkeep : forall q, q ∈ Ds -> h' !! q = h !! q).
  { intros q Hx. rewrite Hf by set_solver. rewrite Eh, !lookup_insert_ne; [done|specialize (HDs q Hx); lia|set_solver]. }
  assert (HbD : b ∈ D) by (apply (rep_root _ _ _ _ HD); lia).
  exists ({[p]} ∪ (Ds ∪ D)). split; [|split; [|split; [|split]]].
  - split; [done|]. exists sp, b, Ds, D. rewrite (Hf p HpD'), Eh, lookup_insert_eq. split; [done|]. split; [done|].
    split; [by apply (forest_frame h)|]. done.
  - intros q Hx. apply elem_of_union in Hx as [->%elem_of_singleton|[Hx|Hx]%elem_of_union]; [by left|..]; right; [specialize (HDs q Hx)|destruct (Hd q Hx)]; lia.
  - intros q Hx. rewrite Hf by set_solver. rewrite Eh, !lookup_insert_ne by set_solver. apply Hfs; set_solver.
  - lia.
  - done.
Qed.

(** The forest [f] is read into the cell [next] and what is allocated behind it. *)
Definition reads_back (app : option (ber_element -> Z)) (f : forest) : Prop := forall fuel next elements s rest,
  heap s !! next = Some blank -> next <> 0 -> roomy s -> oracle s = [] -> br_application (br s) = app -> at_input s (encode f ++ rest) ->
  elements + Z.of_nat (siblings f) <= BER_MAX_SEQ_ELEMENTS -> (2 * fsize f + 1 <= fuel)%nat ->
  let g := match f with Nil => Node blank Nil Nil | _ => received (br_offs (br s)) f end in
  exists h b, read_content fuel next (Z.of_nat (length (encode f))) elements s = Some (true, post s (Z.of_nat (length (encode f))) h b (owned g)) /\
    received_at s next g h b.

Lemma is_seq_num x : is_seq x = true -> is_num x = false /\ is_str x = false.
Proof. intros H. apply orb_prop in H as [H%Z.eqb_eq|H%Z.eqb_eq]; by subst. Qed.

Lemma owned_under r g : is_seq (be_encoding r) = true -> owned (Node r g Nil) = owned g.
Proof. intros H. cbn [owned]. unfold buffer_owned. rewrite (proj2 (is_seq_num _ H)), andb_false_r. multiset_solver. Qed.
Lemma owned_behind r k g : owned (Node r k g) = owned (Node r k Nil) ⊎ owned g.
Proof. cbn [owned]. multiset_solver. Qed.
Lemma owned_leaf r : owned (Node r Nil Nil) = buffer_owned r.
Proof. cbn [owned]. multiset_solver. Qed.

Lemma post_blank s p : heap s !! p = Some blank -> post s 0 (<[p := blank]> (heap s)) (brk s) (owned (Node blank Nil Nil)) = s.
Proof.
  intros H. rewrite owned_leaf, insert_id by done. unfold post. rewrite adv_0. change (buffer_owned blank) with (∅ : gmultiset (list Z)).
  destruct s. cbn. f_equal. multiset_solver.
Qed.

Lemma post_leaf s m j elm e1 r o : let s1 := with_heap (adv m s) (<[elm := e1]> (heap s)) in
  owning o (with_heap (adv j s1) (<[elm := r]> (heap s1))) = post s (m + j) (<[elm := r]> (heap s)) (brk s) o.
Proof. cbv zeta. unfold post, adv, with_heap, with_br, owning, with_bufs. cbn. by rewrite insert_insert_eq, !Z.add_assoc. Qed.

Definition content_of (elm len : Z) (e : ber_element) (k : M bool) : M bool :=
  if is_num (be_encoding e) then read_number elm (be_encoding e) len
  else if be_encoding e =? BER_TYPE_BITSTRING then read_buffer elm len []
  else if (be_encoding e =? BER_TYPE_OCTETSTRING) || (be_encoding e =? BER_TYPE_OBJECT) then read_buffer elm len [0]
  else if be_encoding e =? BER_TYPE_NULL then if negb (len =? 0) then _ ← set_errno EINVAL; mret false else mret true
  else k.

(** The content of a primitive element. *)
Lemma read_primitive_ok app e elm o s rest k : is_seq (be_encoding e) = false -> readable app e Nil -> writable e Nil -> oracle s = [] ->
  let body := payload e in
  let e1 := with_read blank (be_type e) (Z.of_nat (length body)) o (be_class e) (be_encoding e) in
  heap s !! elm = Some e1 -> at_input s (body ++ rest) ->
  content_of elm (Z.of_nat (length body)) e1 k s =
    (let r := with_un (Elm 0 (be_type e) (be_encoding e) (Z.of_nat (length body)) o (is_str (be_encoding e)) (be_class e) 0 (Word 0)) (received_un e) in
     Some (true, owning (buffer_owned r) (with_heap (adv (Z.of_nat (length body)) s) (<[elm := r]> (heap s))))).
Proof.
  intros Eq (_ & _ & _ & Hx) (_ & _ & _ & Hlen & _ & Hwn & _) Ho body e1 He Hin. rewrite Eq in Hx. destruct Hx as (_ & Hnum & Hstr & Hkind).
  specialize (Hlen (or_introl Eq)). unfold body_of in Hlen. rewrite Eq in Hlen. fold body in Hlen. unfold content_of. change (be_encoding e1) with (be_encoding e).
  destruct (is_num (be_encoding e)) eqn:En.
  - destruct (Hnum eq_refl) as (Hl8 & Hfit). destruct (Hwn eq_refl) as (_ & x & Ex). rewrite Ex in Hfit. cbn [number_of] in Hfit.
    assert (Hbody : body = content (length body) x).
    { replace (length body) with (Z.to_nat (be_len e)) by lia. unfold body, payload. rewrite En, Ex. done. }
    assert (Hb1 : be_encoding e = BER_TYPE_BOOLEAN -> length body = 1%nat) by (intros Hb; rewrite Hb in Hfit; cbn in Hfit; lia).
    assert (Hfit' : length body = 1%nat \/ fits (Z.of_nat (length body)) x /\ minimal (Z.of_nat (length body)) x) by (rewrite <- Hlen; destruct (Z.eqb_spec (be_encoding e) BER_TYPE_BOOLEAN); [left; lia|by right]).
    rewrite Hbody in Hin. rewrite (read_number_ok elm (be_encoding e) e1 s (length body) x rest He ltac:(lia) Hb1 Hfit' Hin).
    unfold buffer_owned, received_un. cbn [be_free be_encoding with_un]. rewrite En, Ex, Hlen, (is_num_str _ En), owning_nothing. done.
  - destruct (is_str (be_encoding e)) eqn:Es.
    + assert (Hun : received_un e = Buffer (body ++ (if be_encoding e =? BER_TYPE_BITSTRING then [] else [0]))) by (unfold received_un; by rewrite En, Es).
      unfold buffer_owned. cbn [be_free be_encoding be_un with_un]. rewrite Hun, Es. cbn [andb]. pose proof Es as Es'. unfold is_str in Es'. destruct (Z.eqb_spec (be_encoding e) BER_TYPE_BITSTRING) as [Eb|].
      * rewrite (read_buffer_ok elm e1 s body [] rest He Ho Hin). done.
      * replace ((be_encoding e =? BER_TYPE_OCTETSTRING) || (be_encoding e =? BER_TYPE_OBJECT)) with true by (by rewrite orb_false_r in Es').
        rewrite (read_buffer_ok elm e1 s body [0] rest He Ho Hin). done.
    + cbn [orb] in Hkind. pose proof Es as Es'. unfold is_str in Es'. apply orb_false_iff in Es' as [Es' ->]. apply orb_false_iff in Es' as [-> ->]. rewrite Hkind. cbn [orb].
      assert (Hb : body = []) by (unfold body, payload; by rewrite En, Es). rewrite Hb in *. cbn [length Z.of_nat Z.eqb negb]. rewrite adv_0. unfold mret, M_ret. do 2 f_equal.
      unfold buffer_owned. cbn [be_free be_encoding with_un]. rewrite Es, owning_nothing. rewrite insert_id; [by rewrite with_heap_same|]. rewrite He. unfold e1, received_un. rewrite Hb, En, Es. done.
Qed.

Lemma roomy_insert s p e : roomy s -> is_Some (heap s !! p) -> roomy (with_heap s (<[p := e]> (heap s))).
Proof.
  intros [Hb Hr] Hs. split; [done|]. intros q [e' Hq]. cbn in *. destruct (decide (q = p)) as [->|]; [by apply Hr|]. rewrite lookup_insert_ne in Hq by done. apply Hr. by eexists.
Qed.

Lemma read_element_ok app e sub : readable app e sub -> reads_back app sub -> (is_seq (be_encoding e) = false -> sub = Nil) -> writable e sub ->
  forall fuel elm s rest, heap s !! elm = Some blank -> elm <> 0 -> roomy s -> oracle s = [] -> br_application (br s) = app ->
  let body := body_of e sub in
  at_input s (head_octets e body ++ body ++ rest) -> (2 * fsize sub + 2 <= fuel)%nat ->
  let n := Z.of_nat (length (head_octets e body)) + Z.of_nat (length body) in
  let g := Node (received_element (br_offs (br s)) e sub) (received_children (br_offs (br s)) e sub) Nil in
  exists h b, ober_read_element fuel elm s = Some (Some n, post s n h b (owned g)) /\ received_at s elm g h b.
Proof.
  intros Hrd IH Hq Hw fuel elm s rest He Hne Hroom Ho Happ body Hin Hf n. destruct fuel as [|fuel]; [lia|]. cbn [ober_read_element].
  rewrite <- Happ in Hrd. step (read_header_ok elm e sub rest s He Hrd Hin). fold body. cbv iota beta.
  set (m := Z.of_nat (length (head_octets e body))) in *. set (e1 := with_read blank _ _ _ _ _). set (s1 := with_heap (adv m s) _).
  assert (He1 : heap s1 !! elm = Some e1) by (cbn; by rewrite lookup_insert_eq). step (load_ok s1 elm e1 He1). cbv zeta.
  assert (Hin1 : at_input s1 (body ++ rest)) by (apply at_input_adv in Hin; exact Hin).
  pose proof Hrd as (_ & _ & _ & Hx). change (be_encoding e1) with (if is_seq (be_encoding e) then BER_TYPE_SEQUENCE else be_encoding e).
  assert (Hroom1 : roomy s1) by (apply (roomy_insert (adv m s)); [exact Hroom|by eexists]).
  unfold received_children, received_element. fold body. fold m. destruct (is_seq (be_encoding e)) eqn:Eq.
  - (* children *)
    change (is_num BER_TYPE_SEQUENCE) with false. change (is_seq BER_TYPE_SEQUENCE) with true. cbv iota. cbn [Z.eqb Pos.eqb orb]. cbv iota.
    assert (Hbody : body = encode sub) by (unfold body, body_of; by rewrite Eq). set (s2 := after_new s1).
    set (s3 := with_heap s2 (<[elm := with_un e1 (Word (brk s1))]> (heap s2))). assert (Hlt : 0 < elm < brk s) by (apply Hroom1; by eexists).
    assert (E1 : (n ← ober_get_element 0; _ ← store elm (fun e => with_un e (Word n)); mret n) s1 = Some (brk s1, s3)).
    { step (get_element_ok s1 Ho). assert (H2 : heap s2 !! elm = Some e1) by (cbn; rewrite lookup_insert_ne by lia; by rewrite lookup_insert_eq). by step (store_ok s2 elm (fun e => with_un e (Word (brk s1))) e1 H2). }
    unfold as_word. change (be_un e1) with (Word 0). cbv iota. rewrite bind_assoc, (bind_eq _ _ s1 0 s1 eq_refl). cbn [Z.eqb]. rewrite bind_assoc. step E1.
    replace (brk s1 =? 0) with false by (cbn; lia). clearbody body. subst body.
    assert (H3 : heap s3 !! brk s1 = Some blank) by (cbn; rewrite lookup_insert_ne by lia; by rewrite lookup_insert_eq).
    assert (Hroom3 : roomy s3) by (apply (roomy_insert s2); [by apply roomy_new|]; cbn; rewrite lookup_insert_ne by lia; rewrite lookup_insert_eq; by eexists).
    destruct (IH fuel (brk s1) 0 s3 rest H3 ltac:(cbn; lia) Hroom3 Ho Happ Hin1 ltac:(lia) ltac:(lia)) as (h & b & Er & Hrec). step Er. exists h, b. split.
    + unfold mret, M_ret. do 2 f_equal. rewrite owned_under by done. unfold post, s3, s2, s1. cbn. unfold n. by rewrite !Z.add_assoc.
    + apply (received_under s s3 elm _ _ h b Hroom Hne ltac:(by eexists)); [done| |done|exact Hrec].
      cbn. rewrite (insert_insert_ne _ (brk s) elm) by lia. rewrite insert_insert_eq. destruct (is_seq_num _ Eq) as [_ ->]. done.
  - specialize (Hq eq_refl). subst sub. pose proof Hw as (_ & _ & _ & Hlen & _). specialize (Hlen (or_introl Eq)).
    assert (Hbody : body = payload e) by (unfold body, body_of; by rewrite Eq).
    rewrite Hbody in Hin1. epose proof (read_primitive_ok _ e elm (br_offs (br s) + m) s1 rest _ Eq Hrd Hw Ho ltac:(rewrite <- Hbody; exact He1) Hin1) as E.
    cbv zeta in E. rewrite <- Hbody in E. unfold content_of in E. cbn [be_encoding with_read] in E. step E. cbv iota. unfold s1. rewrite post_leaf, owned_leaf. eexists _, _. split; [reflexivity|].
    apply received_leaf; [done|done|by eexists| |done]. cbn. by rewrite Eq.
Qed.

Definition leaf (e : ber_element) (sub : forest) : Prop := is_seq (be_encoding e) = false -> sub = Nil.

Lemma head_octets_nonempty e body : (0 < length (head_octets e body))%nat.
Proof. unfold head_octets, identifier. destruct (be_type e <=? 30); cbn; lia. Qed.
Lemma encode_nonempty f : f <> Nil -> (0 < length (encode f))%nat.
Proof. destruct f as [|e sub next]; [done|]. intros _. rewrite encode_node, length_app. pose proof (head_octets_nonempty e (body_of e sub)). lia. Qed.

Lemma read_back app f : fall (readable app) f -> fall writable f -> fall leaf f -> reads_back app f.
Proof.
  induction f as [|e sub IHs next IHn]; intros Hrd Hw Hlf fuel p elements s rest He Hne Hroom Ho Happ Hin Hmax Hf; (destruct fuel as [|fuel]; [lia|]).
  { exists (<[p := blank]> (heap s)), (brk s). split; [|apply received_leaf; [done|done|by eexists|done|done]].
    cbn [read_content encode length Z.of_nat]. rewrite post_blank by done. done. }
  destruct Hrd as (Hrd & Hrds & Hrdn). destruct Hw as (Hw & Hws & Hwn). destruct Hlf as (Hlf & Hlfs & Hlfn). specialize (IHs Hrds Hws Hlfs). specialize (IHn Hrdn Hwn Hlfn).
  cbn [fsize siblings] in Hf, Hmax. rewrite encode_node in Hin |- *. set (body := body_of e sub) in *. rewrite <- !app_assoc in Hin.
  set (m := Z.of_nat (length (head_octets e body)) + Z.of_nat (length body)).
  assert (El : Z.of_nat (length (head_octets e body ++ body ++ encode next)) = m + Z.of_nat (length (encode next))) by (rewrite !length_app; lia). rewrite El.
  pose proof (head_octets_nonempty e body) as Hh. cbn [read_content]. destruct (Z.gtb_spec (m + Z.of_nat (length (encode next))) 0); [|lia].
  destruct (Z.geb_spec elements BER_MAX_SEQ_ELEMENTS); [lia|].
  destruct (read_element_ok app e sub Hrd IHs Hlf Hw fuel p s (encode next ++ rest) He Hne Hroom Ho Happ Hin ltac:(lia)) as (h & b & E & Hrec). fold body m in E. step E. clear E. cbv iota zeta.
  pose proof (received_cell _ _ _ _ _ _ Hrec) as (sp & Ds & Hc & _ & _ & _ & _ & _ & _ & Hbs & Hdom). set (r1 := Node (received_element (br_offs (br s)) e sub) (received_children (br_offs (br s)) e sub) Nil) in *. set (s1 := post s m h b (owned r1)) in *.
  assert (Hc1 : heap s1 !! p = Some (cell (received_element (br_offs (br s)) e sub) 0 sp)) by exact Hc. step (load_ok s1 p _ Hc1). rewrite cell_next.
  replace (m + Z.of_nat (length (encode next)) - m) with (Z.of_nat (length (encode next))) by lia.
  destruct next as [|e' sub' next'] eqn:Enext.
  { exists h, b. cbn [encode length]. split; [|exact Hrec]. cbn [Z.of_nat Z.gtb Z.compare andb]. rewrite Z.add_0_r. done. }
  rewrite <- Enext in *. assert (Hnn : next <> Nil) by (by rewrite Enext). pose proof (encode_nonempty next Hnn). destruct (Z.gtb_spec (Z.of_nat (length (encode next))) 0); [|lia]. cbn [andb Z.eqb].
  destruct Hroom as [Hb Hr]. assert (Hp : 0 < p < brk s) by (apply Hr; by eexists).
  assert (Hroom1 : roomy s1) by (split; [cbn; lia|exact Hdom]).
  step (get_element_ok s1 Ho). set (s2 := after_new s1). change (brk s1) with b.
  assert (Hc2 : heap s2 !! p = Some (cell (received_element (br_offs (br s)) e sub) 0 sp)) by (cbn; rewrite lookup_insert_ne by lia; done).
  step (store_ok s2 p (fun e => with_next e b) _ Hc2). set (s3 := with_heap s2 _). destruct (Z.eqb_spec b 0); [lia|].
  assert (H3 : heap s3 !! b = Some blank) by (cbn; rewrite lookup_insert_ne by lia; by rewrite lookup_insert_eq).
  assert (Hroom3 : roomy s3) by (apply (roomy_insert s2); [by apply roomy_new|by eexists]).
  assert (Hin3 : at_input s3 (encode next ++ rest)).
  { unfold s3, s2, s1. rewrite app_assoc in Hin. apply at_input_adv in Hin. unfold m. rewrite <- Nat2Z.inj_add, <- length_app. exact Hin. }
  destruct (IHn fuel b (elements + 1) s3 rest H3 ltac:(lia) Hroom3 Ho Happ Hin3 ltac:(lia) ltac:(lia)) as (h' & b' & E & Hrec'). step E || rewrite E. exists h', b'. split.
  - unfold mret, M_ret. do 2 f_equal. replace (match next with Nil => Node blank Nil Nil | _ => received (br_offs (br s3)) next end) with (received (br_offs (br s3)) next) by (by rewrite Enext).
    cbn [received]. fold body. rewrite owned_behind. change (owned (Node _ _ Nil)) with (owned r1).
    replace (br_offs (br s) + Z.of_nat (length (head_octets e body)) + Z.of_nat (length body)) with (br_offs (br s3)) by (cbn; unfold m; lia).
    set (o2 := owned (received _ next)). unfold s3, s2, s1. generalize (owned r1) o2. intros o1 o2'. unfold post. cbn. by rewrite !Z.add_assoc, (assoc_L (⊎)).
  - cbn [received]. fold body. replace (match next with Nil => Node blank Nil Nil | _ => received (br_offs (br s3)) next end) with (received (br_offs (br s3)) next) in Hrec' by (by rewrite Enext).
    replace (br_offs (br s3)) with (br_offs (br s) + Z.of_nat (length (head_octets e body)) + Z.of_nat (length body)) in Hrec' by (cbn; unfold m; lia).
    apply (received_behind s s3 p _ _ _ h b h' b' Hrec); [|done|done|lia|exact Hrec']. rewrite Hc. done.
Qed.

(** ** Encoding again *)

Lemma content_congr n : forall m x k, (n <= m)%nat -> content n (x + k * 256 ^ Z.of_nat m) = content n x.
Proof.
  induction n as [|n IH]; intros m x k Hm; [done|]. cbn [content]. rewrite IH by lia. f_equal.
  replace (Z.of_nat m) with (Z.of_nat (m - S n) + 1 + Z.of_nat n) by lia. rewrite !Z.pow_add_r by lia. rewrite !Z.mul_assoc, Z.div_add by (apply Z.pow_nonzero; lia).
  rewrite Z.pow_1_r. by rewrite Z.mod_add.
Qed.

(** No sequence is empty. *)
Definition inhabited (e : ber_element) (sub : forest) : Prop := is_seq (be_encoding e) = true -> sub <> Nil.

Lemma received_payload offs e : 0 <= be_len e -> is_seq (be_encoding e) = false -> be_len e = Z.of_nat (length (payload e)) -> payload (received_element offs e Nil) = payload e.
Proof.
  intros Hl0 Hq Hl. unfold payload at 1, received_element. cbn [be_encoding be_len be_un]. unfold body_of, received_un. rewrite Hq. destruct (is_num (be_encoding e)) eqn:En.
  - cbn [number_of]. rewrite Nat2Z.id. unfold payload. rewrite En. rewrite content_length. destruct (sgn_mod (8 * be_len e) (number_of (be_un e))) as [k ->].
    replace (2 ^ (8 * be_len e)) with (256 ^ Z.of_nat (Z.to_nat (be_len e))) by (rewrite Z2Nat.id by done; by rewrite Z.pow_mul_r). by apply content_congr.
  - destruct (is_str (be_encoding e)) eqn:Es; [|unfold payload; by rewrite En, Es]. cbn [buffer_of]. by rewrite Nat2Z.id, take_app_length.
Qed.

Lemma received_not_nil offs f : f <> Nil -> received offs f <> Nil.
Proof. by destruct f. Qed.

Lemma encode_received f : fall writable f -> fall leaf f -> fall inhabited f -> forall offs, encode (received offs f) = encode f.
Proof.
  induction f as [|e sub IHs next IHn]; [done|]. intros (Hw & Hws & Hwn) (Hlf & Hlfs & Hlfn) (Hi & His & Hin) offs. cbn [received]. rewrite !encode_node. rewrite IHn by done.
  set (e' := received_element offs e sub). assert (Eq : is_seq (be_encoding e') = is_seq (be_encoding e)) by (cbn; destruct (is_seq (be_encoding e)) eqn:E; [done|exact E]).
  set (sub' := if is_seq (be_encoding e) then _ else _). assert (Eb : body_of e' sub' = body_of e sub).
  { unfold body_of at 1. rewrite Eq. unfold sub'. destruct (is_seq (be_encoding e)) eqn:E.
    - unfold body_of. rewrite E. destruct sub as [|e0 s0 n0] eqn:Es; [by destruct (Hi E)|]. rewrite <- Es in *. by apply IHs.
    - unfold e', body_of. rewrite (Hlf E), E in *. destruct Hw as (_ & _ & _ & Hl & _). specialize (Hl (or_intror eq_refl)). unfold body_of in Hl. rewrite E in Hl. apply received_payload; [lia|done|done]. }
  rewrite Eb. f_equal. unfold head_octets. by rewrite Eq.
Qed.

Lemma rep_leaf h f : forall p D, rep h p f D -> fall leaf f.
Proof.
  induction f as [|e sub IHs next IHn]; intros p D Hr; [done|]. destruct Hr as (_ & sp & np & Ds & Dn & _ & Hq & Hs & Hn & _). split; [exact Hq|]. split; [by eapply IHs|by eapply IHn].
Qed.

Lemma at_input_start s r : br_rbuf (br s) = Some r -> br_rptr (br s) = 0 -> at_input s r.
Proof. intros H1 H2. exists r. rewrite H2. split; [done|]. split; [done|]. split; [lia|]. apply drop_0. Qed.

Lemma head_octets_short e body : be_type e < 2 ^ 28 -> Z.of_nat (length body) < 2 ^ 32 -> (length (head_octets e body) <= 10)%nat.
Proof.
  intros Ht Hb. apply Nat2Z.inj_le. unfold head_octets. rewrite length_app, Nat2Z.inj_add, identifier_length, length_octets_length by lia.
  pose proof (digits_length 64 128 (be_type e) 4 ltac:(lia) ltac:(exact Ht)). pose proof (digits_length 64 256 (Z.of_nat (length body)) 4 ltac:(lia) ltac:(exact Hb)).
  destruct (_ >? _), (_ >=? _); lia.
Qed.

(** Writing [root], and reading what was written. *)
Definition write_and_read (junk : nat -> Z) (fuel : nat) (root : Z) : M Z :=
  n ← ober_write_elements junk fuel root;
  w ← ober_get_writebuf;
  _ ← ober_set_readbuf (take (Z.to_nat n) (default [] w));
  ober_read_elements fuel 0.


Lemma demo_readable : fall (readable None) demo.
Proof. cbn [fall demo]. repeat split; try done; try (cbn; lia); try (intros [=]); try (intros; eexists; split; [reflexivity|cbn; lia]); try (right; intros [? ?]; cbn in *; lia). Qed.

Lemma demo_roomy : roomy demo_st.
Proof.
  split; [done|]. intros q Hq. assert (Hd : q ∈ dom (heap demo_st)) by (by apply elem_of_dom). assert (E : dom (heap demo_st) = {[1; 2; 3; 4; 5]}) by (vm_compute; reflexivity).
  rewrite E in Hd. cbn. set_solver by lia.
Qed.


(** A message that is read and written again. *)
Definition read_and_write (junk : nat -> Z) (fuel : nat) (input : list Z) : M (option (list Z)) :=
  _ ← ober_set_readbuf input; root ← ober_read_elements fuel 0; _ ← ober_write_elements junk fuel root; ober_get_writebuf.
(** The blank child of a sequence that is empty is not counted and written all
    the same: what follows is lost. *)
Example empty_sequence_again : fst <$> read_and_write (fun _ => 0) 20 [0x30; 5; 0x30; 0; 2; 1; 5] demo_st = Some (Some [0x30; 5; 0x30; 0; 0; 0; 2]).
Proof. vm_compute. reflexivity. Qed.
