(* ===== verification/BerSafe.v ===== *)
(** * BerSafe: the reader of ber.c on any input whatever.

    From any buffer the reader ends, with as much fuel as there are octets and
    two; it reads within the buffer, and leaves well-typed elements or none. *)

From stdpp Require Import gmultiset.
From S2P Require Import Prelude Ber BerOctets BerWrite BerRead.
Import X690.

(** ** Ending in a state that has a property *)

Definition ensures {A} (m : M A) (s : st) (Q : A -> st -> Prop) : Prop := exists x s', m s = Some (x, s') /\ Q x s'.

Lemma ensures_ret {A} (x : A) s (Q : A -> st -> Prop) : Q x s -> ensures (mret x) s Q.
Proof. intros H. by exists x, s. Qed.
Lemma ensures_bind {A B} (m : M A) (f : A -> M B) s P (Q : B -> st -> Prop) : ensures m s P -> (forall x s', P x s' -> ensures (f x) s' Q) -> ensures (m ≫= f) s Q.
Proof. intros (x & s' & E & HP) Hf. destruct (Hf x s' HP) as (y & s'' & E' & HQ). exists y, s''. by rewrite (bind_eq _ _ _ _ _ E). Qed.
Lemma ensures_known {A B} (m : M A) (f : A -> M B) s x s' (Q : B -> st -> Prop) : m s = Some (x, s') -> ensures (f x) s' Q -> ensures (m ≫= f) s Q.
Proof. intros E (y & s'' & E' & HQ). exists y, s''. by rewrite (bind_eq _ _ _ _ _ E). Qed.
Lemma ensures_load {B} p e (f : ber_element -> M B) s (Q : B -> st -> Prop) : heap s !! p = Some e -> ensures (f e) s Q -> ensures (load p ≫= f) s Q.
Proof. intros He. apply ensures_known. by apply load_ok. Qed.
Lemma ensures_store {B} p g e (f : unit -> M B) s (Q : B -> st -> Prop) : heap s !! p = Some e -> ensures (f tt) (with_heap s (<[p := g e]> (heap s))) Q -> ensures (store p g ≫= f) s Q.
Proof. intros He. apply ensures_known. by apply store_ok. Qed.
Lemma ensures_weaken {A} (m : M A) s (P Q : A -> st -> Prop) : ensures m s P -> (forall x s', P x s' -> Q x s') -> ensures m s Q.
Proof. intros (x & s' & E & HP) H. exists x, s'. split; [done|by apply H]. Qed.

(** ** Input *)

Definition input_of (s : st) : list Z := default [] (br_rbuf (br s)).
(** The octets that are left. *)
Definition unread (s : st) : Z := Z.of_nat (length (input_of s)) - br_rptr (br s).
Definition input_ok (s : st) : Prop := bytes (input_of s) /\ 0 <= br_rptr (br s) /\ 0 <= unread s.
(** At least [n] octets are read from the same buffer, within it. *)
Definition consumes (n : Z) (s s' : st) : Prop := br_rbuf (br s') = br_rbuf (br s) /\ 0 <= unread s' <= unread s - n.
(** Besides, nothing is done to the elements. *)
Definition quiet (n : Z) (s s' : st) : Prop := heap s' = heap s /\ brk s' = brk s /\ bufs s' = bufs s /\ consumes n s s'.

Lemma consumes_refl s : input_ok s -> consumes 0 s s.
Proof. intros (_ & _ & H). split; [done|lia]. Qed.
Lemma consumes_trans a b s1 s2 s3 : consumes a s1 s2 -> consumes b s2 s3 -> consumes (a + b) s1 s3.
Proof. intros [E1 H1] [E2 H2]. split; [congruence|lia]. Qed.
Lemma consumes_less a b s s' : consumes a s s' -> b <= a -> consumes b s s'.
Proof. intros [E H] Hb. split; [done|lia]. Qed.
Lemma consumes_ok n s s' : input_ok s -> 0 <= n -> consumes n s s' -> input_ok s'.
Proof. intros (Hb & Hp & Hu) Hn [E H]. unfold input_ok, unread, input_of in *. rewrite E in *. split; [done|lia]. Qed.
Lemma quiet_refl s : input_ok s -> quiet 0 s s.
Proof. intros H. do 3 (split; [done|]). by apply consumes_refl. Qed.
Lemma quiet_trans a b s1 s2 s3 : quiet a s1 s2 -> quiet b s2 s3 -> quiet (a + b) s1 s3.
Proof. intros (Ea & Eb & Ec & H1) (Ea' & Eb' & Ec' & H2). do 3 (split; [congruence|]). by eapply consumes_trans. Qed.
Lemma quiet_less a b s s' : quiet a s s' -> b <= a -> quiet b s s'.
Proof. intros (? & ? & ? & H1) Hb. do 3 (split; [done|]). by eapply consumes_less. Qed.
Lemma quiet_ok n s s' : input_ok s -> 0 <= n -> quiet n s s' -> input_ok s'.
Proof. intros H Hn (_ & _ & _ & Hc). by eapply consumes_ok. Qed.

(** An error: errno is set and the input is as it was. *)
Lemma fails_quiet {A} n (x : A) s : input_ok s -> ensures (_ ← set_errno n; mret x) s (fun y s' => y = x /\ quiet 0 s s').
Proof. intros H. eexists _, _. split; [reflexivity|]. do 4 (split; [done|]). by apply (consumes_refl s). Qed.

(** Success after [n] octets at least, or failure. *)
Definition quiet_or {A} (n : Z) (P : A -> Prop) (s : st) (r : option A) (s' : st) : Prop :=
  match r with Some x => P x /\ quiet n s s' | None => quiet 0 s s' end.

Lemma quiet_or_fail {A} n m (P : A -> Prop) e s s' : input_ok s' -> 0 <= n -> quiet n s s' -> ensures (_ ← set_errno e; mret None) s' (quiet_or m P s).
Proof. intros Hin Hn Hq. eapply ensures_weaken; [by apply fails_quiet|]. intros x s'' [-> Hq']. eapply quiet_less; [by eapply quiet_trans|lia]. Qed.
Lemma quiet_or_some {A} n m (P : A -> Prop) s s' x : P x -> quiet n s s' -> m <= n -> ensures (mret (Some x)) s' (quiet_or m P s).
Proof. intros HP Hq Hm. apply ensures_ret. split; [done|]. by eapply quiet_less. Qed.
Lemma quiet_or_then {A} n n' m (k : M (option A)) P s s' : quiet n s s' -> 0 <= n -> m <= n + n' -> ensures k s' (quiet_or n' P s') -> ensures k s' (quiet_or m P s).
Proof.
  intros Hq Hn Hm Hk. eapply ensures_weaken; [exact Hk|]. intros [x|] s'' H.
  - destruct H as [HP H]. split; [done|]. eapply quiet_less; [by eapply quiet_trans|lia].
  - eapply quiet_less; [by eapply quiet_trans|lia].
Qed.
Lemma quiet_or_bind {A B} n (m : M (option A)) P (k : A -> M (option B)) m' Q s : input_ok s -> 0 <= n -> ensures m s (quiet_or n P s) ->
  (forall x s', P x -> quiet n s s' -> input_ok s' -> ensures (k x) s' (quiet_or m' Q s)) ->
  ensures (r ← m; match r with Some x => k x | None => mret None end) s (quiet_or m' Q s).
Proof.
  intros Hin Hn Hm Hk. eapply ensures_bind; [exact Hm|]. intros [x|] s' H; [|by apply ensures_ret]. destruct H as [HP Hq]. apply Hk; [done|done|]. by eapply quiet_ok.
Qed.

Lemma read_safe len s : input_ok s -> 0 <= len -> ensures (ober_read len) s (fun r s' =>
  match r with Some bs => Z.of_nat (length bs) = len /\ bytes bs /\ quiet len s s' | None => quiet 0 s s' /\ (unread s < len \/ br_rbuf (br s) = None) end).
Proof.
  intros Hin Hl. pose proof Hin as (Hb & Hp & Hu). unfold ober_read. apply (ensures_known _ _ s (br s) s); [done|]. unfold unread, input_of in *. destruct (br_rbuf (br s)) as [r|] eqn:Er.
  - cbn [default from_option id] in *. destruct (Z.gtb_spec len (Z.of_nat (length r) - br_rptr (br s))).
    + eapply ensures_weaken; [by apply fails_quiet|]. intros x s' [-> Hq]. split; [done|left; lia].
    + eexists _, _. split; [reflexivity|]. cbv beta iota. rewrite length_take, length_drop. split; [lia|]. split; [by apply Forall_take, Forall_drop|].
      do 3 (split; [done|]). unfold consumes, unread, input_of. cbn. rewrite Er. cbn. split; [done|lia].
  - eapply ensures_weaken; [by apply fails_quiet|]. intros x s' [-> Hq]. split; [done|by right].
Qed.

Lemma getc_safe s : input_ok s -> ensures ober_getc s (quiet_or 1 (fun c => 0 <= c < 256) s).
Proof.
  intros Hin. unfold ober_getc. eapply ensures_bind; [apply read_safe; [done|lia]|]. intros r s' H. apply ensures_ret. destruct r as [bs|]; [|tauto].
  destruct H as (Hl & Hb & Hq). destruct bs as [|c [|c' bs]]; cbn in Hl; try lia. apply Forall_cons in Hb as [Hc _]. by split.
Qed.


Ltac failed := eapply (quiet_or_fail 1); [assumption|lia|assumption].

(** ** Identifiers, lengths, numbers *)

Lemma get_tag_safe fuel : forall t i s, input_ok s -> 0 <= i -> 5 <= Z.of_nat fuel + i -> (1 <= fuel)%nat ->
  ensures (get_tag fuel t i) s (quiet_or 1 (fun _ => True) s).
Proof.
  induction fuel as [|fuel IH]; intros t i s Hin Hi Hf Hf1; [lia|]. cbn [get_tag]. eapply (quiet_or_bind 1); [done|lia|by apply getc_safe|]. intros c s' Hc Hq Hin'.
  destruct ((i =? 0) && (c .& 127 =? 0)); [failed|]. cbv zeta. destruct (Z.gtb_spec (i + 1) 4); [failed|]. destruct (negb (c .& BER_TAG_MORE =? 0)).
  - eapply (quiet_or_then 1 1); [done|lia|lia|]. apply IH; [done|lia..].
  - by eapply quiet_or_some.
Qed.

Lemma get_id_safe s : input_ok s -> ensures get_id s (quiet_or 1 (fun _ => True) s).
Proof.
  intros Hin. unfold get_id. eapply (quiet_or_bind 1); [done|lia|by apply getc_safe|]. intros c s' Hc Hq Hin'. cbv zeta. destruct (negb _); [by eapply quiet_or_some|].
  eapply ensures_bind; [apply (get_tag_safe 6); [done|lia..]|]. intros [[t i]|] s'' H; apply ensures_ret.
  - destruct H as [_ H]. split; [done|]. eapply quiet_less; [by eapply quiet_trans|lia].
  - eapply quiet_less; [by eapply quiet_trans|lia].
Qed.

Lemma sgn_range w x : 0 < w -> - 2 ^ (w - 1) <= sgn w x < 2 ^ (w - 1).
Proof.
  intros Hw. assert (E : 2 ^ w = 2 * 2 ^ (w - 1)) by (rewrite <- Z.pow_succ_r by lia; f_equal; lia). pose proof (Z.mod_pos_bound x (2 ^ w) ltac:(lia)).
  unfold sgn, wrap. destruct (Z.ltb_spec (x mod 2 ^ w) (2 ^ (w - 1))); lia.
Qed.

(** The signed value of at most eight octets. *)
Lemma next_octet x c : 0 <= c < 256 -> - 2 ^ 63 <= sgn 64 (x ≪ 8) .| c < 2 ^ 63.
Proof.
  intros Hc. set (y := sgn 64 (x ≪ 8)). pose proof (sgn_range 64 (x ≪ 8) ltac:(lia)) as Hy. fold y in Hy. set (z := y .| c).
  assert (E : z / 256 = y / 256).
  { change 256 with (2 ^ 8). rewrite <- !Z.shiftr_div_pow2 by lia. unfold z. rewrite Z.shiftr_lor, (Z.shiftr_div_pow2 c) by lia. change (2 ^ 8) with 256. rewrite (Z.div_small c) by lia. apply Z.lor_0_r. }
  pose proof (Z.div_mod z 256 ltac:(lia)). pose proof (Z.mod_pos_bound z 256 ltac:(lia)). pose proof (Z.div_mod y 256 ltac:(lia)). pose proof (Z.mod_pos_bound y 256 ltac:(lia)). lia.
Qed.

Lemma len_octets_safe n : forall x s, input_ok s -> ensures (len_octets n x) s (quiet_or (Z.of_nat n) (fun _ => True) s).
Proof.
  induction n as [|n IH]; intros x s Hin; cbn [len_octets]; [eapply quiet_or_some; [done|by apply quiet_refl|lia]|].
  eapply (quiet_or_bind 1); [done|lia|by apply getc_safe|]. intros c s' Hc Hq Hin'. eapply (quiet_or_then 1 (Z.of_nat n)); [done|lia|lia|]. by apply IH.
Qed.

Lemma get_len_safe s : input_ok s -> ensures get_len s (quiet_or 1 (fun r => 0 <= r.2) s).
Proof.
  intros Hin. unfold get_len. eapply (quiet_or_bind 1); [done|lia|by apply getc_safe|]. intros u s' Hu Hq Hin'. cbv beta in Hu.
  destruct (u .& BER_TAG_MORE =? 0); [eapply quiet_or_some; [cbn; lia|done|lia]|]. destruct (u =? 0x80); [failed|]. destruct (u =? 0xff); [failed|].
  cbv zeta. destruct (4 <? u .& 0x7f); [failed|]. eapply ensures_bind; [by apply len_octets_safe|]. intros [x|] s'' H.
  - destruct H as [_ H]. assert (Hq2 : quiet 1 s s'') by (eapply quiet_less; [by eapply quiet_trans|lia]). destruct (Z.ltb_spec x 0).
    + apply (quiet_or_fail 1); [exact (quiet_ok 1 s s'' Hin ltac:(lia) Hq2)|lia|done].
    + eapply quiet_or_some; [done|exact Hq2|lia].
  - apply ensures_ret. eapply quiet_less; [by eapply quiet_trans|lia].
Qed.

Lemma number_octets_safe n : forall i val last s, input_ok s -> - 2 ^ 63 <= val < 2 ^ 63 -> ensures (number_octets n i val last) s (quiet_or 0 (fun v => - 2 ^ 63 <= v < 2 ^ 63) s).
Proof.
  induction n as [|n IH]; intros i val last s Hin Hv; cbn [number_octets]; [eapply quiet_or_some; [done|by apply quiet_refl|lia]|].
  eapply (quiet_or_bind 1); [done|lia|by apply getc_safe|]. intros c s' Hc Hq Hin'. destruct (_ || _); [failed|].
  eapply (quiet_or_then 1 0); [done|lia|lia|]. apply IH; [done|by apply next_octet].
Qed.

Lemma read_header_safe elm s : input_ok s -> heap s !! elm = Some blank -> ensures (read_header elm) s (fun r s' =>
  match r with
  | None => quiet 0 s s'
  | Some (_, len) => brk s' = brk s /\ bufs s' = bufs s /\ consumes 2 s s' /\ 0 <= len <= unread s' /\
      exists type offs class encoding, heap s' = <[elm := with_read blank type len offs class encoding]> (heap s)
  end).
Proof.
  intros Hin He. unfold read_header. eapply ensures_bind; [by apply get_id_safe|]. intros [[[[r type] class] cstruct]|] s1 H; [|by apply ensures_ret].
  destruct H as [_ Hq1]. assert (Hin1 : input_ok s1) by exact (quiet_ok 1 s s1 Hin ltac:(lia) Hq1).
  eapply ensures_bind; [by apply get_len_safe|]. intros [[r' len]|] s2 H; [|apply ensures_ret; exact (quiet_less _ 0 _ _ (quiet_trans 1 0 _ _ _ Hq1 H) ltac:(lia))].
  destruct H as [Hlen Hq2]. cbn [snd] in Hlen. pose proof (quiet_trans 1 1 _ _ _ Hq1 Hq2) as Hq. assert (Hin2 : input_ok s2) by exact (quiet_ok 2 s s2 Hin ltac:(lia) Hq).
  assert (Hfail : forall n (P : Z * Z -> st -> Prop), ensures (_ ← set_errno n; mret None) s2 (fun r s' => match r with Some x => P x s' | None => quiet 0 s s' end)).
  { intros n P. eapply ensures_weaken; [by apply fails_quiet|]. intros x s' [-> Hq']. exact (quiet_less _ 0 _ _ (quiet_trans _ _ _ _ _ Hq Hq') ltac:(lia)). }
  cbv zeta. destruct (_ && _ && _); [exact (Hfail _ _)|].
  apply (ensures_known _ _ s2 (br s2) s2); [done|]. destruct (Z.gtb_spec len (Z.of_nat (length (default [] (br_rbuf (br s2)))) - br_rptr (br s2))) as [|Hle]; [exact (Hfail _ _)|].
  destruct Hq as (Eh & Eb & Eo & Hc). assert (He2 : heap s2 !! elm = Some blank) by (by rewrite Eh).
  eapply ensures_store; [exact He2|]. cbv beta. eapply ensures_load; [cbn; apply lookup_insert_eq|]. eapply ensures_store; [cbn; apply lookup_insert_eq|]. cbv beta.
  apply ensures_ret. split; [done|]. split; [done|]. split; [exact Hc|]. split; [split; [done|exact Hle]|]. eexists _, _, _, _. cbn. rewrite insert_insert_eq, Eh. reflexivity.
Qed.

(** ** Content *)

(** An element that the functions ober_get_* may be applied to: its numbers are
    numbers, its strings are buffers of [be_len] octets, those of octet strings
    and object identifiers with a terminator. *)
Definition typed (e : ber_element) (sub : forest) : Prop :=
  0 <= be_len e /\ (is_num (be_encoding e) = true -> exists x, be_un e = Word x /\ - 2 ^ 63 <= x < 2 ^ 63) /\
  (is_str (be_encoding e) = true -> exists bs, be_un e = Buffer (bs ++ if be_encoding e =? BER_TYPE_BITSTRING then [] else [0]) /\ Z.of_nat (length bs) = be_len e /\ bytes bs).

(** A leaf is read into the element at [elm]. *)
Definition leaf_read (elm enc : Z) (s : st) (ok : bool) (s' : st) : Prop :=
  brk s' = brk s /\ consumes 0 s s' /\ exists e, heap s' = <[elm := e]> (heap s) /\ bufs s' = bufs s ⊎ buffer_owned e /\ be_encoding e = enc /\ be_next e = 0 /\ string_ok e Nil /\ (ok = true -> typed e Nil).

(** No buffer goes with an element that has a number in its union. *)
Lemma no_buffer e x : be_un e = Word x -> buffer_owned e = ∅.
Proof. unfold buffer_owned. intros ->. by destruct (_ && _). Qed.
Lemma nothing_owned (e : ber_element) (m : gmultiset (list Z)) : buffer_owned e = ∅ -> m = m ⊎ buffer_owned e.
Proof. intros ->. multiset_solver. Qed.

Lemma leaf_unchanged elm e s s' ok : heap s !! elm = Some e -> be_next e = 0 -> buffer_owned e = ∅ -> string_ok e Nil -> (ok = true -> typed e Nil) -> quiet 0 s s' -> leaf_read elm (be_encoding e) s ok s'.
Proof.
  intros He Hn Ho Hs Ht (Eh & Eb & Eo & Hc). split; [done|]. split; [done|]. exists e. rewrite insert_id, Eo by done. split; [done|]. by split; [apply nothing_owned|].
Qed.

Lemma fails_leaf {n} elm e s : input_ok s -> heap s !! elm = Some e -> be_next e = 0 -> buffer_owned e = ∅ -> string_ok e Nil -> ensures (_ ← set_errno n; mret false) s (leaf_read elm (be_encoding e) s).
Proof. intros Hin He Hn Ho Hs. eapply ensures_weaken; [by apply fails_quiet|]. intros x s' [-> Hq]. by apply leaf_unchanged. Qed.

Lemma read_number_safe elm e len s : input_ok s -> heap s !! elm = Some e -> be_next e = 0 -> buffer_owned e = ∅ -> is_num (be_encoding e) = true -> 0 <= be_len e ->
  ensures (read_number elm (be_encoding e) len) s (leaf_read elm (be_encoding e) s).
Proof.
  intros Hin He Hn Ho Hnum Hlen. pose proof (is_num_str _ Hnum) as Hstr. assert (Hok : string_ok e Nil) by (intros _ H; by rewrite Hstr in H).
  unfold read_number. destruct (_ && _); [by apply fails_leaf|]. destruct (len <? 1); [by apply fails_leaf|]. destruct (len >? 8); [by apply fails_leaf|].
  eapply ensures_bind; [apply number_octets_safe; [done|lia]|]. intros [v|] s' H; [|apply ensures_ret; by apply leaf_unchanged]. destruct H as [Hv (Eh & Eb & Eo & Hc)]. cbv zeta.
  eapply ensures_store; [by rewrite Eh|]. apply ensures_ret. cbv beta. set (val := if _ && _ then _ else v).
  assert (Hval : - 2 ^ 63 <= val < 2 ^ 63) by (unfold val; destruct (_ && _); [exact (sgn_range 64 _ ltac:(lia))|exact Hv]).
  split; [exact Eb|]. split; [exact Hc|]. exists (with_un e (Word val)). cbn. rewrite Eh, Eo. split; [done|]. split; [by eapply nothing_owned, no_buffer|]. split; [done|]. split; [done|].
  split; [intros _ H; cbn in H; by rewrite Hstr in H|]. intros _. split; [done|]. split; [by exists val|]. cbn. by rewrite Hstr.
Qed.

Lemma malloc_safe s : exists ok s', malloc s = Some (ok, s') /\ heap s' = heap s /\ brk s' = brk s /\ br s' = br s /\ bufs s' = bufs s.
Proof. unfold malloc. destruct (oracle s) as [|[|] o]; by eexists _, _. Qed.

Lemma read_buffer_safe elm e len s : input_ok s -> br_rbuf (br s) <> None -> 0 <= len <= unread s -> heap s !! elm = Some e -> be_next e = 0 -> is_str (be_encoding e) = true ->
  ensures (read_buffer elm len (if be_encoding e =? BER_TYPE_BITSTRING then [] else [0])) s (leaf_read elm (be_encoding e) s).
Proof.
  intros Hin Hbuf Hlen He Hn Hstr. unfold read_buffer. destruct (malloc_safe s) as (ok & s1 & E & Eh & Eb & Ebr & Eo). eapply ensures_known; [exact E|].
  assert (Hq1 : quiet 0 s s1) by (split; [done|]; split; [done|]; split; [done|]; unfold consumes, unread, input_of; rewrite Ebr; destruct Hin as (_ & _ & H); unfold unread, input_of in H; split; [done|lia]).
  assert (Hin1 : input_ok s1) by exact (quiet_ok 0 _ _ Hin ltac:(lia) Hq1). assert (He1 : heap s1 !! elm = Some e) by (by rewrite Eh). destruct ok; cbn [negb].
  - eapply ensures_bind; [apply read_safe; [exact Hin1|lia]|]. intros [bs|] s2 H.
    2:{ exfalso. destruct H as [_ [H|H]]; [|by rewrite Ebr in H]. unfold unread, input_of in *. rewrite Ebr in H. lia. }
    destruct H as (Hl & Hb & (Eh2 & Eb2 & Eo2 & Hc2)). apply (ensures_known _ _ s2 tt (owning {[+ bs ++ (if be_encoding e =? BER_TYPE_BITSTRING then [] else [0]) +]} s2)); [done|].
    eapply ensures_store; [cbn; by rewrite Eh2|]. apply ensures_ret. split; [cbn; congruence|].
    split; [exact (consumes_less _ 0 _ _ (consumes_trans 0 len _ _ _ (proj2 (proj2 (proj2 Hq1))) Hc2) ltac:(lia))|].
    eexists. cbn [heap with_heap bufs owning with_bufs]. rewrite Eh2, Eh, Eo2, Eo. split; [reflexivity|].
    split; [unfold buffer_owned; cbn [be_free be_encoding be_un with_buffer]; by rewrite Hstr|]. split; [done|]. split; [done|]. split; [right; by eexists|]. intros _. split; [cbn; lia|]. cbn [be_encoding with_buffer be_un be_len].
    split; [intros H; by rewrite (is_num_str _ H) in Hstr|]. intros _. by exists bs.
  - eapply ensures_store; [exact He1|]. apply ensures_ret. split; [exact Eb|]. split; [exact (proj2 (proj2 (proj2 Hq1)))|]. exists (with_un e (Word 0)). cbn. rewrite Eh, Eo.
    split; [done|]. split; [by eapply nothing_owned, no_buffer|]. split; [done|]. split; [done|]. split; [by left|done].
Qed.

Lemma content_safe elm len type offs class enc s : input_ok s -> br_rbuf (br s) <> None -> is_seq enc = false -> 0 <= len <= unread s ->
  let e := with_read blank type len offs class enc in heap s !! elm = Some e -> ensures (content_of elm len e (mret true)) s (leaf_read elm enc s).
Proof.
  intros Hin Hbuf Hseq Hlen e He. change enc with (be_encoding e) in Hseq. change enc with (be_encoding e). unfold content_of. destruct (is_num (be_encoding e)) eqn:En; [by apply read_number_safe; [..|cbn; lia]|].
  assert (Hok : string_ok e Nil) by (by left). assert (Hty : is_str (be_encoding e) = false -> typed e Nil) by (intros Es; split; [cbn; lia|]; rewrite En, Es; done).
  destruct (is_str (be_encoding e)) eqn:Es.
  - pose proof (read_buffer_safe elm e len s Hin Hbuf Hlen He eq_refl Es) as H. unfold is_str in Es. destruct (be_encoding e =? BER_TYPE_BITSTRING); [exact H|].
    rewrite orb_false_r in Es. rewrite Es. exact H.
  - pose proof Es as Es'. unfold is_str in Es'. apply orb_false_iff in Es' as [Es' E6]. apply orb_false_iff in Es' as [E4 E3]. rewrite E3, E4, E6. cbn [orb].
    assert (Hsame : ensures (mret true) s (leaf_read elm (be_encoding e) s)) by (apply ensures_ret; apply leaf_unchanged; [done|done|by apply (no_buffer e 0)|done|by intros _; apply Hty|by apply quiet_refl]).
    destruct (be_encoding e =? BER_TYPE_NULL); [|exact Hsame]. destruct (negb (len =? 0)); [by apply fails_leaf|exact Hsame].
Qed.

(** ** Elements *)

Lemma get_element_safe s : exists p s', ober_get_element 0 s = Some (p, s') /\ br s' = br s /\ bufs s' = bufs s /\
  (p = 0 /\ heap s' = heap s /\ brk s' = brk s \/ p = brk s /\ heap s' = <[brk s := blank]> (heap s) /\ brk s' = brk s + 1).
Proof. unfold ober_get_element, new, malloc. run. destruct (oracle s) as [|[|] o]; eexists _, _; (split; [reflexivity|]); (split; [done|]); (split; [done|]); cbn; tauto. Qed.

(** [p] is an element from calloc, to read into. *)
Definition fresh_at (s : st) (p : Z) : Prop := heap s !! p = Some blank /\ p <> 0 /\ roomy s.
(** The forest [f] was read into [p]; [ok] if it is complete. *)
Definition read_into (s : st) (p : Z) (n : Z) (ok : bool) (s' : st) (f : forest) : Prop :=
  received_at s p f (heap s') (brk s') /\ bufs s' = bufs s ⊎ owned f /\ fall string_ok f /\ (ok = true -> fall typed f) /\ consumes n s s'.

Definition done_with (r : option Z) : bool := match r with Some _ => true | None => false end.
Definition elements_at (fuel : nat) : Prop := forall p s, fresh_at s p -> input_ok s -> unread s + 2 <= Z.of_nat fuel ->
  ensures (ober_read_element fuel p) s (fun r s' => exists e sub, read_into s p (if done_with r then 2 else 0) (done_with r) s' (Node e sub Nil) /\
    Z.of_nat (fsize (Node e sub Nil)) <= unread s - unread s' + (if done_with r then 0 else 1)).
Definition contents_at (fuel : nat) : Prop := forall p len elements s, fresh_at s p -> input_ok s -> unread s + 3 <= Z.of_nat fuel ->
  ensures (read_content fuel p len elements) s (fun ok s' => exists f, read_into s p 0 ok s' f /\ Z.of_nat (fsize f) <= 1 + (unread s - unread s')).

Lemma leaf_into s p e s' ok : fresh_at s p -> heap s' = <[p := e]> (heap s) -> brk s' = brk s -> bufs s' = bufs s ⊎ buffer_owned e -> be_next e = 0 -> (is_seq (be_encoding e) = true -> be_un e = Word 0) ->
  string_ok e Nil -> (ok = true -> typed e Nil) -> forall n, consumes n s s' -> read_into s p n ok s' (Node e Nil Nil).
Proof.
  intros (Hp & H0 & Hr) Eh Eb Eo Hn Hq Hs Ht n Hc. split; [rewrite Eh, Eb; apply received_leaf; [done|done|by eexists|done|done]|].
  split; [by rewrite owned_leaf|]. split; [done|]. split; [|done]. intros E. split; [by apply Ht|done].
Qed.
Lemma blank_into s p s' ok n : fresh_at s p -> heap s' = heap s -> brk s' = brk s -> bufs s' = bufs s -> consumes n s s' -> read_into s p n ok s' (Node blank Nil Nil).
Proof.
  intros Hf Eh Eb Eo Hc. apply leaf_into; [done| |done|rewrite Eo; by eapply nothing_owned, no_buffer|done|done|by left| |done].
  - rewrite insert_id; [done|apply Hf].
  - intros _. split; [done|]. by split.
Qed.

Lemma fresh_write s s1 p e : fresh_at s p -> heap s1 = <[p := e]> (heap s) -> brk s1 = brk s -> roomy s1 /\ 0 < p < brk s.
Proof.
  intros (Hp & H0 & Hr) Eh Eb. split; [|apply Hr; by eexists]. pose proof (roomy_insert s p e Hr ltac:(by eexists)) as [H1 H2]. split; [by rewrite Eb|]. rewrite Eh, Eb. exact H2.
Qed.

(** The children: a first element is allocated, and read into. *)
Lemma children_safe fuel s s1 p e len : contents_at fuel -> fresh_at s p -> input_ok s1 -> unread s1 + 3 <= Z.of_nat fuel ->
  heap s1 = <[p := e]> (heap s) -> brk s1 = brk s -> is_seq (be_encoding e) = true -> be_next e = 0 -> be_un e = Word 0 -> 0 <= be_len e ->
  ensures (next ← as_word (be_un e);
           next ← (if next =? 0 then n ← ober_get_element 0; _ ← store p (fun e => with_un e (Word n)); mret n else mret next);
           if next =? 0 then mret false else read_content fuel next len 0) s1
    (fun ok s' => exists sub, received_at s p (Node e sub Nil) (heap s') (brk s') /\ bufs s' = bufs s1 ⊎ owned sub /\ fall string_ok (Node e sub Nil) /\ (ok = true -> fall typed (Node e sub Nil)) /\ consumes 0 s1 s' /\
      Z.of_nat (fsize sub) <= 1 + (unread s1 - unread s')).
Proof.
  intros IH Hfr Hin Hf Eh Eb Hseq Hn Hun Hlen. destruct (fresh_write s s1 p e Hfr Eh Eb) as [Hroom1 Hlt]. destruct (is_seq_num _ Hseq) as [Hnum Hstr]. pose proof Hfr as (Hp & H0 & Hr).
  assert (Hso : string_ok e Nil) by (intros _ H; by rewrite Hstr in H). assert (Hty : typed e Nil) by (split; [done|]; rewrite Hnum, Hstr; done).
  rewrite Hun. apply (ensures_known _ _ s1 0 s1); [done|]. cbn [Z.eqb]. destruct (get_element_safe s1) as (n & s2 & E & Ebr & Eo & Hcase).
  assert (Hq2 : consumes 0 s1 s2) by (unfold consumes, unread, input_of; rewrite Ebr; destruct Hin as (_ & _ & H); unfold unread, input_of in H; split; [done|lia]).
  assert (He1 : heap s1 !! p = Some e) by (rewrite Eh; apply lookup_insert_eq).
  assert (He2 : heap s2 !! p = Some e) by (destruct Hcase as [(_ & -> & _)|(_ & -> & _)]; [done|rewrite lookup_insert_ne by lia; done]).
  eapply ensures_bind with (P := fun n' s3 => n' = n /\ s3 = with_heap s2 (<[p := with_un e (Word n)]> (heap s2))).
  { eapply ensures_known; [exact E|]. eapply ensures_store; [exact He2|]. by apply ensures_ret. }
  intros n' s3 [-> ->]. set (s3 := with_heap s2 _). destruct Hcase as [(-> & Eh2 & Eb2)|(-> & Eh2 & Eb2)].
  - cbn [Z.eqb]. apply ensures_ret. exists Nil. split; [|split; [cbn; rewrite Eo; multiset_solver|]; split; [done|]; split; [done|]; split; [exact Hq2|cbn; unfold s3, unread, input_of; cbn; rewrite Ebr; lia]].
    cbn. rewrite Eb2, Eb, Eh2, Eh, insert_insert_eq. replace (with_un e (Word 0)) with e by (destruct e; cbn in *; by subst). apply received_leaf; [done|done|by eexists|done|done].
  - destruct (Z.eqb_spec (brk s1) 0); [lia|].
    assert (Hfr3 : fresh_at s3 (brk s1)).
    { split; [cbn; rewrite lookup_insert_ne by lia; rewrite Eh2; by rewrite lookup_insert_eq|]. split; [done|]. apply (roomy_insert s2); [|by eexists].
      pose proof (roomy_new s1 Hroom1) as [A1 A2]. split; [by rewrite Eb2|]. rewrite Eh2, Eb2. exact A2. }
    assert (Hin3 : input_ok s3) by exact (consumes_ok 0 s1 s2 Hin ltac:(lia) Hq2). assert (Hu3 : unread s3 = unread s1) by (unfold s3, unread, input_of; cbn; by rewrite Ebr).
    eapply ensures_weaken; [apply (IH (brk s1) len 0 s3 Hfr3 Hin3); lia|]. intros ok s4 (g & (Hrec & Ho & Hs & Ht & Hc) & Hsz). exists g. split; [|split; [rewrite Ho; cbn; by rewrite Eo|]; split; [done|]; split; [by intros Hk; split; [|split; [apply Ht|]]|]; split; [|lia]].
    + apply (received_under s s3 p g e (heap s4) (brk s4) Hr H0 ltac:(by eexists) Hseq); [|by cbn; rewrite Eb2, Eb|by rewrite <- Eb].
      cbn. rewrite Eh2, Eh, Eb. rewrite (insert_insert_ne _ (brk s) p) by lia. rewrite insert_insert_eq. f_equal. unfold cell. rewrite Hseq. destruct e; cbn in *; by subst.
    + destruct Hc as [E1 E2]. split; [rewrite E1; cbn; by rewrite Ebr|lia].
Qed.

(** The code's case distinction on the encoding. *)
Lemma content_cases elm len e k : content_of elm len e (if is_seq (be_encoding e) then k else mret true) =
  if is_seq (be_encoding e) then k else content_of elm len e (mret true).
Proof.
  destruct (is_seq (be_encoding e)) eqn:Es; [|done]. unfold content_of. by apply orb_prop in Es as [->%Z.eqb_eq| ->%Z.eqb_eq].
Qed.

Lemma consumes_input n s s' : consumes n s s' -> 0 < n -> input_ok s -> br_rbuf (br s') <> None.
Proof. intros [E H] Hn (_ & Hp & _) Hnone. unfold unread, input_of in *. rewrite <- E, Hnone in H. cbn in H. lia. Qed.

Lemma element_step fuel : contents_at fuel -> elements_at (S fuel).
Proof.
  intros IH p s Hfr Hin Hf. pose proof Hfr as (Hp & H0 & Hr). cbn [ober_read_element]. eapply ensures_bind; [by apply read_header_safe|]. intros [[tot len]|] s1 H.
  2:{ destruct H as (Eh & Eb & Eo & Hc). apply ensures_ret. exists blank, Nil. split; [by apply blank_into|]. destruct Hc as [_ Hc]. cbn. lia. }
  destruct H as (Eb & Eo & Hc & Hlen & type & offs & class & enc & Eh). set (e := with_read blank type len offs class enc) in *.
  assert (Hin1 : input_ok s1) by exact (consumes_ok 2 s s1 Hin ltac:(lia) Hc). destruct Hc as [Ec1 Ec2]. eapply ensures_load; [rewrite Eh; apply lookup_insert_eq|]. cbv zeta. fold e.
  match goal with |- ensures (mbind _ ?c) _ _ => change c with (content_of p len e (if is_seq (be_encoding e) then
    next ← as_word (be_un e); next ← (if next =? 0 then n ← ober_get_element 0; _ ← store p (fun e => with_un e (Word n)); mret n else mret next);
    if next =? 0 then mret false else read_content fuel next len 0 else mret true)) end.
  rewrite content_cases. destruct (is_seq (be_encoding e)) eqn:Eseq.
  - eapply ensures_bind; [apply (children_safe fuel s s1 p e len IH Hfr Hin1 ltac:(lia) Eh Eb Eseq eq_refl eq_refl); cbn; lia|].
    intros ok s2 (sub & Hrec & Ho & Hs & Ht & [E1 E2] & Hsz). apply ensures_ret. exists e, sub. split.
    + split; [exact Hrec|]. split; [by rewrite owned_under, Ho, Eo|]. split; [done|]. split; [by destruct ok|]. split; [congruence|]. destruct ok; cbn [done_with]; lia.
    + cbn [fsize]. destruct ok; cbn [done_with]; lia.
  - eapply ensures_bind; [apply (content_safe p len type offs class enc s1 Hin1); [apply (consumes_input 2 s); [by split|lia|done]|exact Eseq|done|by rewrite Eh; apply lookup_insert_eq]|].
    intros ok s2 (Eb2 & [E1 E2] & e2 & Eh2 & Eo2 & Een & Hn & Hs & Ht). apply ensures_ret. exists e2, Nil. rewrite Eh, insert_insert_eq in Eh2. split.
    + apply leaf_into; [done|done|congruence|congruence|done| |done|by destruct ok|]; [intros H; rewrite Een in H; cbn in Eseq; congruence|]. split; [congruence|]. destruct ok; cbn [done_with]; lia.
    + cbn [fsize]. destruct ok; cbn [done_with]; lia.
Qed.

Lemma content_step fuel : elements_at fuel -> contents_at fuel -> contents_at (S fuel).
Proof.
  intros IHe IH p len elements s Hfr Hin Hf. pose proof Hfr as (Hp & H0 & Hr). cbn [read_content].
  assert (Hsame : forall ok s', heap s' = heap s -> brk s' = brk s -> br s' = br s -> bufs s' = bufs s -> exists f, read_into s p 0 ok s' f /\ Z.of_nat (fsize f) <= 1 + (unread s - unread s')).
  { intros ok s' Eh Eb Ebr Eo. exists (Node blank Nil Nil). assert (Hc : consumes 0 s s') by (unfold consumes, unread, input_of; rewrite Ebr; destruct Hin as (_ & _ & H); unfold unread, input_of in H; split; [done|lia]).
    split; [by apply blank_into|]. cbn. destruct Hc as [_ Hc]. lia. }
  destruct (len >? 0); [|apply ensures_ret; by apply Hsame]. destruct (elements >=? BER_MAX_SEQ_ELEMENTS).
  { eexists _, _. split; [reflexivity|]. by apply Hsame. }
  eapply ensures_bind; [apply IHe; [done|done|lia]|]. intros r s1 (e & sub & (Hrec & Ho & Hs & Ht & Hc) & Hsz). destruct r as [r|]; cbn [done_with] in *.
  2:{ apply ensures_ret. exists (Node e sub Nil). split; [|lia]. by split. }
  pose proof (received_cell _ _ _ _ _ _ Hrec) as (sp & Ds & Hcell & _ & _ & _ & _ & _ & _ & Hbs & Hdom). cbv zeta. eapply ensures_load; [exact Hcell|]. rewrite cell_next. cbn [Z.eqb]. rewrite andb_true_r.
  assert (Hc0 : consumes 0 s s1) by (by eapply consumes_less; [exact Hc|]). destruct (len - r >? 0).
  2:{ apply ensures_ret. exists (Node e sub Nil). split; [|lia]. by split. }
  destruct Hr as [Hb Hr]. assert (Hlt : 0 < p < brk s) by (apply Hr; by eexists). destruct Hc as [Ec1 Ec2].
  destruct (get_element_safe s1) as (n & s2 & E & Ebr & Eo2 & Hcase). eapply ensures_known; [exact E|].
  assert (He2 : heap s2 !! p = Some (cell e 0 sp)) by (destruct Hcase as [(_ & -> & _)|(_ & -> & _)]; [done|rewrite lookup_insert_ne by lia; done]).
  eapply ensures_store; [exact He2|]. rewrite cell_with_next. set (s3 := with_heap s2 _). assert (Hu3 : unread s3 = unread s1) by (unfold s3, unread, input_of; cbn; by rewrite Ebr).
  destruct Hcase as [(-> & Eh2 & Eb2)|(-> & Eh2 & Eb2)].
  - cbn [Z.eqb]. apply ensures_ret. exists (Node e sub Nil). split; [|lia]. split; [|split; [cbn [s3 bufs with_heap]; by rewrite Eo2|]; split; [done|]; split; [done|]; split; [unfold s3; cbn; congruence|lia]].
    cbn. rewrite Eb2, Eh2, insert_id by done. exact Hrec.
  - destruct (Z.eqb_spec (brk s1) 0); [lia|].
    assert (Hfr3 : fresh_at s3 (brk s1)).
    { split; [cbn; rewrite lookup_insert_ne by lia; rewrite Eh2; by rewrite lookup_insert_eq|]. split; [done|]. apply (roomy_insert s2); [|by eexists].
      assert (Hroom1 : roomy s1) by (split; [lia|exact Hdom]). pose proof (roomy_new s1 Hroom1) as [A1 A2]. split; [by rewrite Eb2|]. rewrite Eh2, Eb2. exact A2. }
    assert (Hin3 : input_ok s3) by (destruct (consumes_ok 2 s s1 Hin ltac:(lia) (conj Ec1 Ec2)) as (A1 & A2 & A3); unfold input_ok, unread, input_of in *; unfold s3; cbn; rewrite Ebr; done).
    eapply ensures_weaken; [apply (IH (brk s1) (len - r) (elements + 1) s3 Hfr3 Hin3); lia|]. intros ok s4 (g & (Hrec' & Ho' & Hs' & Ht' & [E1 E2]) & Hsz').
    exists (Node e sub g). destruct Hs as (Hs & Hss & _). split; [|cbn [fsize] in *; lia]. split; [|split; [rewrite owned_behind, Ho'; cbn [s3 bufs with_heap]; rewrite Eo2, Ho; by rewrite (assoc_L (⊎))|]; split; [done|]; split; [intros Hk; destruct (Ht eq_refl) as (Ht1 & Ht2 & _); split; [exact Ht1|]; split; [done|by apply Ht']|split; [|lia]]].
    + apply (received_behind s s3 p sub g e (heap s1) (brk s1) (heap s4) (brk s4) Hrec); [|done|lia|lia|exact Hrec']. cbn. rewrite Eh2, Hcell. cbn. by rewrite cell_with_next.
    + rewrite E1. cbn. by rewrite Ebr.
Qed.

Lemma all_safe fuel : elements_at fuel /\ contents_at fuel.
Proof.
  induction fuel as [|fuel [IHe IHc]]; [|split; [by apply element_step|by apply content_step]].
  split; intros p; intros; match goal with H : input_ok _ |- _ => destruct H as (_ & _ & H) end; lia.
Qed.

(** ** ober_read_elements *)

(** What the reader gives: nothing, or a forest that is all there is new. *)
Lemma read_elements_spec fuel s : input_ok s -> roomy s -> unread s + 2 <= Z.of_nat fuel ->
  ensures (ober_read_elements fuel 0) s (fun p s' => consumes 0 s s' /\
    (p = 0 -> heap s' = heap s /\ bufs s' = bufs s) /\
    (p <> 0 -> exists f D, rep (heap s') p f D /\ fall typed f /\ fall string_ok f /\ Z.of_nat (fsize f) <= unread s /\
      wipe D (heap s') = heap s /\ bufs s' = bufs s ⊎ owned f)).
Proof.
  intros Hin [Hb Hr] Hf. unfold ober_read_elements. cbn [Z.eqb]. destruct (get_element_safe s) as (p & s1 & E & Ebr & Eo & Hcase). eapply ensures_known; [exact E|].
  assert (Hc1 : consumes 0 s s1) by (unfold consumes, unread, input_of; rewrite Ebr; destruct Hin as (_ & _ & H); unfold unread, input_of in H; split; [done|lia]).
  destruct Hcase as [(-> & Eh & Eb)|(-> & Eh & Eb)]; [cbn [Z.eqb]; by apply ensures_ret|]. destruct (Z.eqb_spec (brk s) 0); [lia|].
  assert (Hnone : forall q, brk s <= q -> heap s !! q = None) by (intros q Hq; destruct (heap s !! q) eqn:Eq; [|done]; destruct (Hr q ltac:(by eexists)); lia).
  assert (Hfr : fresh_at s1 (brk s)).
  { split; [rewrite Eh; apply lookup_insert_eq|]. split; [done|]. pose proof (roomy_new s (conj Hb Hr)) as [A1 A2]. split; [lia|]. rewrite Eh, Eb. exact A2. }
  assert (Hu1 : unread s1 = unread s) by (unfold unread, input_of; by rewrite Ebr). destruct (all_safe fuel) as [IH _].
  eapply ensures_bind; [apply (IH (brk s) s1 Hfr); [exact (consumes_ok 0 s s1 Hin ltac:(lia) Hc1)|lia]|]. intros r s2 (e & sub & ((D & Hrep & HD & Hfree & Hbb & Hdom) & Ho & Hs & Ht & [E1 E2]) & Hsz). rewrite Eo in Ho.
  assert (Hwipe : wipe D (heap s2) = heap s).
  { apply map_eq. intros q. rewrite lookup_wipe. destruct (decide (q ∈ D)) as [Hq|Hq].
    - symmetry. apply Hnone. destruct (HD q Hq); lia.
    - assert (Hne : brk s <> q) by (intros <-; apply Hq, (rep_root _ _ _ _ Hrep); lia). rewrite (Hfree q Hq), Eh. by rewrite lookup_insert_ne. }
  destruct r as [r|]; cbn [done_with] in *.
  - apply ensures_ret. split; [split; [congruence|lia]|]. split; [done|]. intros _. exists (Node e sub Nil), D. split; [done|]. split; [by apply Ht|]. split; [done|]. split; [lia|done].
  - eapply ensures_known; [apply (free_spec (Node e sub Nil) fuel _ D); [exact Hrep|done|rewrite Ho; multiset_solver|lia]|]. apply ensures_ret. split; [split; [cbn; congruence|unfold unread, input_of in *; cbn; lia]|].
    split; [|done]. intros _. split; [done|]. cbn [freed bufs with_bufs]. rewrite Ho. multiset_solver.
Qed.

(** What the functions ober_get_* find at an element. *)
Definition accessible (q : Z) (s : st) : Prop :=
  ober_get_integer q s <> None /\ ober_get_enumerated q s <> None /\ ober_get_boolean q s <> None /\ ober_get_string q s <> None /\
  ober_get_nstring q true s <> None /\ ober_get_ostring q s <> None /\ ober_get_bitstring q true s <> None /\ ober_get_oid q s <> None.

Lemma get_word_ok {A} enc q (k : Z -> A) e n sp sub s : heap s !! q = Some (cell e n sp) -> typed e sub -> is_num enc = true ->
  (e ← load q; if be_encoding e =? enc then n ← as_word (be_un e); mret (Some (k n)) else mret None) s <> None.
Proof.
  intros He (_ & Hn & _) Henc. step (load_ok s q _ He). autorewrite with cell. destruct (Z.eqb_spec (be_encoding e) enc) as [<-|]; [|done].
  destruct (Hn Henc) as (x & Ex & _). rewrite (is_num_seq _ Henc), Ex. done.
Qed.
Lemma get_buffer_ok enc q e n sp sub s : heap s !! q = Some (cell e n sp) -> typed e sub -> is_str enc = true -> get_buffer q enc true s <> None.
Proof.
  intros He (_ & _ & Hs) Henc. unfold get_buffer. step (load_ok s q _ He). autorewrite with cell. destruct (Z.eqb_spec (be_encoding e) enc) as [<-|]; [|done].
  destruct (Hs Henc) as (bs & Ex & _). rewrite (is_str_seq _ Henc), Ex. done.
Qed.

Lemma typed_accessible q e n sp sub s : heap s !! q = Some (cell e n sp) -> typed e sub -> accessible q s.
Proof.
  intros He Ht. split; [by apply (get_word_ok _ _ _ _ _ _ _ _ He Ht)|]. split; [by apply (get_word_ok _ _ _ _ _ _ _ _ He Ht)|]. split; [by apply (get_word_ok _ _ _ _ _ _ _ _ He Ht)|].
  pose proof Ht as (Hl & Hn & Hs). split.
  { unfold ober_get_string. step (load_ok s q _ He). autorewrite with cell. destruct (Z.eqb_spec (be_encoding e) BER_TYPE_OCTETSTRING) as [E|]; [|done].
    destruct (Hs ltac:(by rewrite E)) as (bs & Ex & _). by rewrite E, Ex. }
  split; [by apply (get_buffer_ok _ _ _ _ _ _ _ He Ht)|]. split; [by apply (get_buffer_ok _ _ _ _ _ _ _ He Ht)|]. split; [by apply (get_buffer_ok _ _ _ _ _ _ _ He Ht)|].
  unfold ober_get_oid. step (load_ok s q _ He). autorewrite with cell. destruct (Z.eqb_spec (be_encoding e) BER_TYPE_OBJECT) as [E|]; [|done].
  destruct (Hs ltac:(by rewrite E)) as (bs & Ex & Hlen & _). rewrite E in Ex. change (if BER_TYPE_OBJECT =? BER_TYPE_BITSTRING then [] else [0]) with [0] in Ex.
  rewrite E, Ex. cbn [is_seq Z.eqb Pos.eqb orb]. unfold as_buffer. run. destruct (bs ++ [0]) as [|c rest] eqn:Ebs; [by destruct bs|].
  assert (Hrest : Z.of_nat (length rest) = be_len e) by (apply (f_equal length) in Ebs; rewrite length_app in Ebs; cbn in Ebs; lia).
  unfold copy. destruct (Z.ltb_spec (Z.of_nat (length rest)) (be_len e - 1)); [lia|]. run. by destruct (get_arcs (take _ _) _ _).
Qed.

Lemma rep_all (P : Z -> Prop) h (Q : ber_element -> forest -> Prop) : (forall q e n sp sub, h !! q = Some (cell e n sp) -> Q e sub -> P q) ->
  forall f p D, rep h p f D -> fall Q f -> forall q, q ∈ D -> P q.
Proof.
  intros H. induction f as [|e sub IHs next IHn]; intros p D Hr Hf q Hq; [destruct Hr as [_ ->]; set_solver|].
  destruct Hr as (Hp & sp & np & Ds & Dn & Hc & _ & Hs & Hn & _ & _ & _ & ->). destruct Hf as (H0 & H1 & H2).
  apply elem_of_union in Hq as [->%elem_of_singleton|[Hq|Hq]%elem_of_union]; [by eapply H|by eapply IHs|by eapply IHn].
Qed.

Lemma rep_size h f : forall p D, rep h p f D -> size D = fsize f.
Proof.
  induction f as [|e sub IHs next IHn]; intros p D Hr; [destruct Hr as [_ ->]; apply size_empty|].
  destruct Hr as (Hp & sp & np & Ds & Dn & _ & _ & Hs & Hn & H1 & H2 & H3 & ->). rewrite size_union by set_solver. rewrite size_union by done.
  rewrite size_singleton, (IHs _ _ Hs), (IHn _ _ Hn). done.
Qed.

(** C1: ober_read_elements, called with NULL to have the elements allocated,
    is safe on any input whatever: with as much fuel as there are octets and
    two it ends, within the buffer, whatever malloc does; when it fails it has
    freed all the elements and string buffers that it allocated, and nothing
    else; and when it succeeds ober_free_elements frees exactly those, none
    twice. *)
Theorem ober_read_safe fuel s : input_ok s -> roomy s -> unread s + 2 <= Z.of_nat fuel ->
  ensures (ober_read_elements fuel 0) s (fun p s' => consumes 0 s s' /\
    (p = 0 -> heap s' = heap s /\ bufs s' = bufs s) /\ (p <> 0 -> ober_free_elements fuel p s' = Some (tt, with_bufs (with_heap s' (heap s)) (bufs s)))).
Proof.
  intros Hin Hroom Hf. eapply ensures_weaken; [by apply read_elements_spec|]. intros p s' (Hc & H0 & H1). split; [done|]. split; [done|]. intros Hp.
  destruct (H1 Hp) as (f & D & Hrep & _ & Hs & Hsz & Hw & Ho). rewrite (free_spec f fuel p D s' Hrep Hs ltac:(rewrite Ho; multiset_solver) ltac:(lia)).
  unfold freed. rewrite Hw, Ho. do 3 f_equal. multiset_solver.
Qed.

(** An input: a sequence of a string and of a sequence that is empty; malloc
    fails from the [n]th call on. *)
Definition hostile (n : nat) : st := St (heap demo_st) 6 (replicate n true ++ replicate 9 false) 0 (Ber 0 None 0 (Some [0x30; 5; 4; 1; 97; 0x30; 0; 7]) 0 None) [] (bufs demo_st).
Lemma hostile_ok n : input_ok (hostile n) /\ roomy (hostile n) /\ unread (hostile n) + 2 <= Z.of_nat 10.
Proof.
  split; [|split; [exact demo_roomy|unfold unread; cbn; lia]]. split; [|unfold unread; cbn; lia]. repeat (apply Forall_cons; split; [unfold word; lia|]). apply List.Forall_nil.
Qed.

Lemma ober_read_safe_witness : (exists s', ober_read_elements 10 0 (hostile 3) = Some (0, s') /\ heap s' = heap demo_st /\ bufs s' = bufs demo_st) /\
  (exists s', ober_read_elements 10 0 (hostile 5) = Some (6, s') /\ multiplicity [97; 0] (bufs s') = 1%nat /\
     ober_free_elements 10 6 s' = Some (tt, with_bufs (with_heap s' (heap demo_st)) (bufs demo_st))).
Proof.
  split.
  - destruct (hostile_ok 3) as (H1 & H2 & H3). destruct (ober_read_safe 10 (hostile 3) H1 H2 H3) as (p & s' & E & _ & H0 & _).
    assert (Ep : p = 0) by (vm_compute in E; by injection E as <- _). exists s'. rewrite Ep in E. split; [exact E|exact (H0 Ep)].
  - destruct (hostile_ok 5) as (H1 & H2 & H3). destruct (ober_read_safe 10 (hostile 5) H1 H2 H3) as (p & s' & E & _ & _ & H0).
    assert (Ep : p = 6) by (vm_compute in E; by injection E as <- _). exists s'. rewrite Ep in E, H0. split; [exact E|].
    split; [|exact (H0 ltac:(discriminate))]. vm_compute in E. injection E as <-. vm_compute. reflexivity.
Defined.

(** C25: What the reader accepts is well typed: the elements form a tree (no
    element is reached twice), numbers are in the range of a long long, strings
    have the length they claim with a terminator where C expects one, and every
    accessor ober_get_* may be called on every element. *)
Theorem ober_read_typed fuel s : input_ok s -> roomy s -> unread s + 2 <= Z.of_nat fuel ->
  ensures (ober_read_elements fuel 0) s (fun p s' => p <> 0 ->
    exists f D, rep (heap s') p f D /\ fall typed f /\ (forall q, q ∈ D -> accessible q s') /\ Z.of_nat (size D) <= unread s).
Proof.
  intros Hin Hroom Hf. eapply ensures_weaken; [by apply read_elements_spec|]. intros p s' (_ & _ & H1) Hp.
  destruct (H1 Hp) as (f & D & Hrep & Ht & _ & Hsz & _ & _). exists f, D. split; [done|]. split; [done|]. split.
  - eapply rep_all; [|exact Hrep|exact Ht]. intros q e n sp sub He Hty. by eapply typed_accessible.
  - rewrite (rep_size _ _ _ _ Hrep). exact Hsz.
Qed.

Lemma ober_read_typed_witness : exists s' f D, ober_read_elements 10 0 (hostile 5) = Some (6, s') /\ rep (heap s') 6 f D /\ fall typed f /\
  ober_get_string 7 s' = Some (Some (Some [97; 0]), s').
Proof.
  destruct (hostile_ok 5) as (H1 & H2 & H3). destruct (ober_read_typed 10 (hostile 5) H1 H2 H3) as (p & s' & E & H0).
  assert (Ep : p = 6) by (vm_compute in E; by injection E as <- _). rewrite Ep in E, H0. destruct (H0 ltac:(discriminate)) as (f & D & Hr & Ht & _).
  exists s', f, D. split; [exact E|]. split; [exact Hr|]. split; [exact Ht|]. vm_compute in E. injection E as <-. vm_compute. reflexivity.
Defined.

(** The length of an element is compared with what is left of the buffer, not
    of the sequence that it is in. *)
Example longer_than_its_sequence : exists s', (_ ← ober_set_readbuf [0x30; 1; 2; 1; 5]; ober_read_elements 20 0) demo_st = Some (6, s') /\ fst <$> ober_get_integer 7 s' = Some (Some 5).
Proof. eexists. split; [vm_compute; reflexivity|vm_compute; reflexivity]. Qed.
