(* ===== verification/BerAdd.v ===== *)
(** * BerAdd: numbers and object identifiers added to a message.

    ober_add_integer stores the shortest two's complement length of its number;
    ober_get_oid reads the object identifier that ober_add_oid encodes. *)

From stdpp Require Import gmultiset.
From S2P Require Import Prelude Ber BerOctets BerWrite BerRead.
Import X690.

(** ** Adding *)

(** The element [p] is linked behind or below [prev], where it changes nothing else. *)
Lemma ober_link_ok prev p s : prev = 0 \/ is_Some (heap s !! prev) -> exists h, ober_link_elements prev p s = Some (tt, with_heap s h) /\ forall q, q <> prev -> h !! q = heap s !! q.
Proof.
  intros H. unfold ober_link_elements. destruct (Z.eqb_spec prev 0) as [->|Hp]; cbn [negb]; [exists (heap s); by rewrite with_heap_same|].
  destruct H as [|[e He]]; [done|]. step (load_ok s prev e He). destruct (is_seq (be_encoding e) && negb (nonnull (be_un e))).
  - rewrite (store_ok s prev (fun e => with_un e (Word p)) e He). eexists. split; [done|]. intros q Hq. by apply lookup_insert_ne.
  - rewrite (store_ok s prev (fun e => with_next e p) e He). eexists. split; [done|]. intros q Hq. by apply lookup_insert_ne.
Qed.

(** A new element of [encoding]. *)
Definition element (encoding : Z) : ber_element := Elm 0 encoding encoding 0 0 false 0 0 (Word 0).
Lemma new_ok encoding s : oracle s = [] -> ober_get_element encoding s = Some (brk s, St (<[brk s := element encoding]> (heap s)) (brk s + 1) [] (errno s) (br s) (calls s) (bufs s)).
Proof. intros Ho. unfold ober_get_element, new, malloc, place. run. rewrite Ho. done. Qed.

(** What [add] makes, at a place of its own. *)
Definition added (prev : Z) (e : ber_element) (s s' : st) : Prop :=
  heap s' !! brk s = Some e /\ (forall q, q <> brk s -> q <> prev -> heap s' !! q = heap s !! q) /\ brk s' = brk s + 1 /\ oracle s' = [] /\ br s' = br s /\ errno s' = errno s /\ calls s' = calls s /\
  bufs s' = bufs s ⊎ buffer_owned e.

Lemma store_link_ok prev e f s m : oracle s = [] -> prev <> brk s -> prev = 0 \/ is_Some (heap s !! prev) -> m = bufs s ⊎ buffer_owned (f e) ->
  exists s', (_ ← store (brk s) f; _ ← ober_link_elements prev (brk s); mret (brk s)) (St (<[brk s := e]> (heap s)) (brk s + 1) [] (errno s) (br s) (calls s) m) = Some (brk s, s') /\
    added prev (f e) s s'.
Proof.
  intros Ho Hne Hprev Hm. set (s1 := St _ _ _ _ _ _ _). assert (H1 : heap s1 !! brk s = Some e) by (cbn; apply lookup_insert_eq). step (store_ok s1 (brk s) f e H1).
  set (s2 := with_heap s1 _). destruct (ober_link_ok prev (brk s) s2) as (h & E & Hh); [destruct Hprev as [|Hp]; [by left|right; cbn; by rewrite !lookup_insert_ne by done]|].
  step E. eexists. split; [reflexivity|]. split; [cbn; rewrite Hh by done; cbn; apply lookup_insert_eq|]. split; [|done].
  intros q H2 H3. cbn. rewrite Hh by done. cbn. by rewrite !lookup_insert_ne by done.
Qed.

Lemma add_ok prev encoding f s : oracle s = [] -> 0 < brk s -> prev <> brk s -> prev = 0 \/ is_Some (heap s !! prev) -> buffer_owned (f (element encoding)) = ∅ ->
  exists s', add prev encoding f s = Some (brk s, s') /\ added prev (f (element encoding)) s s'.
Proof.
  intros Ho Hb Hne Hprev Hm. unfold add. step (new_ok encoding s Ho). destruct (Z.eqb_spec (brk s) 0); [lia|]. apply store_link_ok; [done..|]. rewrite Hm. multiset_solver.
Qed.

(** C27: ober_add_integer adds an element that holds the number, in a length of
    one to eight octets: the octets that are written are its two's complement,
    and no shorter two's complement has that value (X.690, 8.3.2). *)
Theorem ober_integer_minimal prev val s : oracle s = [] -> 0 < brk s -> prev <> brk s -> prev = 0 \/ is_Some (heap s !! prev) -> - 2 ^ 63 <= val < 2 ^ 63 ->
  exists e s', ober_add_integer prev val s = Some (brk s, s') /\ added prev e s s' /\ e = Elm 0 BER_TYPE_INTEGER BER_TYPE_INTEGER (be_len e) 0 false 0 0 (Word val) /\
    1 <= be_len e <= 8 /\ writable e Nil /\ sgn (8 * be_len e) (horner 256 0 (payload e)) = val /\ forall n, 1 <= n < be_len e -> ~ fits n val.
Proof.
  intros Ho Hb Hne Hprev Hv. destruct (add_ok prev BER_TYPE_INTEGER (fun e => with_len (with_un e (Word val)) (int_len val)) s Ho Hb Hne Hprev eq_refl) as (s' & E & Hadd).
  destruct (int_len_spec val Hv) as (Hl & Hf & Hm). eexists _, s'. split; [exact E|]. split; [exact Hadd|]. cbn [be_len with_len with_un element]. split; [done|]. split; [done|].
  assert (Hp : payload (with_len (with_un (element BER_TYPE_INTEGER) (Word val)) (int_len val)) = content (Z.to_nat (int_len val)) val) by done. rewrite Hp. split; [|split].
  - split; [cbn; lia|]. split; [cbn; lia|]. split; [by intros [_ ?]|]. unfold body_of. cbn [be_encoding with_len with_un element is_seq Z.eqb Pos.eqb orb]. rewrite Hp, content_length.
    cbn [be_len with_len]. split; [lia|]. split; [lia|]. split; [|done]. intros _. split; [lia|by eexists].
  - rewrite horner_content, Z2Nat.id by lia. replace (256 ^ int_len val) with (2 ^ (8 * int_len val)) by (by rewrite Z.pow_mul_r by lia).
    change (val mod 2 ^ (8 * int_len val)) with (wrap (8 * int_len val) val). rewrite sgn_wrap. apply sgn_small; [lia|exact Hf].
  - intros n Hn Hfn. destruct Hm as [Hm|Hm]; [lia|]. apply Hm. unfold fits in *.
    assert (2 ^ (8 * n - 1) <= 2 ^ (8 * (int_len val - 1) - 1)) by (apply Z.pow_le_mono_r; lia). lia.
Qed.

Lemma ober_integer_minimal_witness : exists e s', ober_add_integer 1 (-129) demo_st = Some (6, s') /\ heap s' !! 6 = Some e /\ be_len e = 2 /\ payload e = [0xff; 0x7f].
Proof.
  destruct (ober_integer_minimal 1 (-129) demo_st eq_refl ltac:(cbn; lia) ltac:(cbn; lia) ltac:(right; by eexists) ltac:(lia)) as (e & s' & E & (H & _) & Ee & _).
  exists e, s'. split; [exact E|]. split; [exact H|]. vm_compute in E. injection E as <-. vm_compute in H. injection H as <-. split; reflexivity.
Defined.

(** ** Object identifiers *)

(** [get_arcs] over the octets of one arc. *)
Definition continued (v k : Z) : list Z := if v >=? 1 ≪ k then [u8 ((v ≫ k) .| BER_TAG_MORE)] else [].
Lemma oid_arc_octets v : oid_arc v = continued v 28 ++ continued v 21 ++ continued v 14 ++ continued v 7 ++ [v .& BER_TAG_TYPE_MASK].
Proof. unfold oid_arc, continued. cbn [foldl]. repeat destruct (_ >=? _); by rewrite <- ?app_assoc. Qed.

Lemma arc_shift x v k : 0 <= v < 2 ^ 32 -> 0 <= k -> x = v ≫ (k + 7) -> u32 (shl32 x 7 + (v ≫ k) mod 128) = v ≫ k.
Proof.
  intros Hv Hk ->. rewrite Z.add_comm, <- Z.shiftr_shiftr by lia. set (y := v ≫ k).
  assert (Hy : 0 <= y < 2 ^ 32).
  { unfold y. rewrite Z.shiftr_div_pow2 by lia. assert (0 < 2 ^ k) by (apply Z.pow_pos_nonneg; lia). split; [apply Z.div_pos; lia|]. apply Z.div_lt_upper_bound; [lia|]. nia. }
  rewrite Z.shiftr_div_pow2 by lia. unfold shl32. rewrite Z.shiftl_mul_pow2 by lia. change (2 ^ 7) with 128. pose proof (Z.div_mod y 128 ltac:(lia)). pose proof (Z.mod_pos_bound y 128 ltac:(lia)).
  unfold u32. rewrite (wrap_small 32 (y / 128 * 128)) by (unfold word; lia). rewrite wrap_small by (unfold word; lia). lia.
Qed.

Lemma tag_more x : u8 (x .| BER_TAG_MORE) .& 0x7f = x mod 128 /\ (u8 (x .| BER_TAG_MORE) .& 0x80 =? 0) = false.
Proof.
  unfold u8, wrap. change (2 ^ 8) with (2 ^ 8). rewrite <- Z.land_ones by lia. split.
  - rewrite <- Z.land_assoc. change (Z.ones 8 .& 127) with (Z.ones 7). rewrite Z.land_lor_distr_l. change (128 .& Z.ones 7) with 0. rewrite Z.lor_0_r. by rewrite Z.land_ones.
  - apply Z.eqb_neq. rewrite <- Z.land_assoc. change (Z.ones 8 .& 128) with 128. intros H. assert (E : Z.testbit ((x .| 128) .& 128) 7 = true) by (rewrite Z.land_spec, Z.lor_spec; change (Z.testbit 128 7) with true; by rewrite orb_true_r).
    rewrite H in E. done.
Qed.

Lemma continued_step v k id j rest : 0 <= v < 2 ^ 32 -> 0 <= k -> (j < 64)%nat -> (j < length id)%nat -> id.[Z.of_nat j] = v ≫ (k + 7) ->
  get_arcs (continued v k ++ rest) id j = get_arcs rest (<[j := v ≫ k]> id) j.
Proof.
  intros Hv Hk Hj Hl Hid. unfold continued. rewrite Z.shiftl_mul_pow2, Z.mul_1_l by lia. destruct (Z.geb_spec v (2 ^ k)).
  - cbn [app get_arcs]. destruct (Nat.ltb_spec j 64); [|lia]. destruct (tag_more (v ≫ k)) as [-> ->]. cbn [negb]. by rewrite (arc_shift _ v k) by done.
  - cbn [app]. rewrite list_insert_id; [done|]. unfold aget in Hid. rewrite Nat2Z.id in Hid. destruct (lookup_lt_is_Some_2 id j Hl) as [x Ex]. rewrite Ex in *. cbn in Hid. rewrite Hid. f_equal.
    rewrite !Z.shiftr_div_pow2 by lia. assert (2 ^ k <= 2 ^ (k + 7)) by (apply Z.pow_le_mono_r; lia). by rewrite !Z.div_small by lia.
Qed.

Lemma aget_insert_nat (l : list Z) j x : (j < length l)%nat -> (<[j := x]> l).[Z.of_nat j] = x.
Proof. intros H. unfold aget. rewrite Nat2Z.id. by rewrite list_lookup_insert_eq. Qed.

Lemma arc_ok v id j rest : 0 <= v < 2 ^ 32 -> (j < 64)%nat -> (j < length id)%nat -> id.[Z.of_nat j] = 0 -> get_arcs (oid_arc v ++ rest) id j = get_arcs rest (<[j := v]> id) (S j).
Proof.
  intros Hv Hj Hl Hid. rewrite oid_arc_octets, <- !app_assoc.
  rewrite (continued_step v 28) by (lia || (rewrite Hid, Z.shiftr_div_pow2 by lia; symmetry; apply Z.div_small; lia)).
  do 3 rewrite continued_step by (lia || (rewrite !length_insert; lia) || (rewrite aget_insert_nat by (rewrite ?length_insert; lia); reflexivity)).
  rewrite !list_insert_insert_eq. cbn [app get_arcs]. destruct (Nat.ltb_spec j 64); [|lia]. rewrite aget_insert_nat by done.
  change BER_TAG_TYPE_MASK with (Z.ones 7). change 0x7f with (Z.ones 7). rewrite !Z.land_ones by lia. rewrite Z.mod_mod by lia.
  rewrite (arc_shift _ v 0) by (lia || reflexivity). replace (v mod 2 ^ 7 .& 128 =? 0) with true.
  2:{ symmetry. apply Z.eqb_eq. rewrite <- Z.land_ones, <- Z.land_assoc by lia. change (Z.ones 7 .& 128) with 0. apply Z.land_0_r. }
  cbn [negb]. by rewrite list_insert_insert_eq, Z.shiftr_0_r.
Qed.

(** The first [n] arcs, of an identifier of 65 cells. *)
Definition first_arcs (n : nat) (ids : list Z) : list Z := take n ids ++ replicate (65 - n) 0.

Lemma first_arcs_push j ids : (j < 65)%nat -> length ids = 65%nat -> <[j := ids.[Z.of_nat j]]> (first_arcs j ids) = first_arcs (S j) ids.
Proof.
  intros Hj Hl. unfold first_arcs. rewrite <- (Nat.add_0_r j) at 1. rewrite <- (length_take_le ids j) at 1 by lia. rewrite insert_app_r.
  replace (65 - j)%nat with (S (65 - S j)) by lia. cbn [replicate insert list_insert]. unfold aget. rewrite Nat2Z.id. destruct (lookup_lt_is_Some_2 ids j ltac:(lia)) as [x Ex]. rewrite Ex.
  cbn [default from_option id]. rewrite (take_S_r _ _ _ Ex), <- app_assoc. done.
Qed.
Lemma first_arcs_length j ids : (j <= 65)%nat -> length ids = 65%nat -> length (first_arcs j ids) = 65%nat.
Proof. intros Hj Hl. unfold first_arcs. rewrite length_app, length_take, length_replicate. lia. Qed.
Lemma first_arcs_next j ids : (j < 65)%nat -> length ids = 65%nat -> (first_arcs j ids).[Z.of_nat j] = 0.
Proof.
  intros Hj Hl. unfold first_arcs, aget. rewrite Nat2Z.id, lookup_app_r by (rewrite length_take; lia). rewrite length_take, Nat.min_l, Nat.sub_diag by lia.
  replace (65 - j)%nat with (S (65 - S j)) by lia. done.
Qed.

Lemma arcs_ok o fuel : forall j, length (bo_id o) = 65%nat -> Forall (word 32) (bo_id o) -> bo_n o <= 64 -> (2 <= j)%nat -> Z.of_nat j <= bo_n o -> bo_n o - Z.of_nat j <= Z.of_nat fuel ->
  get_arcs (oid_arcs fuel o (Z.of_nat j + 1) ((bo_id o).[Z.of_nat j])) (first_arcs j (bo_id o)) j = (first_arcs (Z.to_nat (bo_n o)) (bo_id o), Z.to_nat (bo_n o)).
Proof.
  induction fuel as [|fuel IH]; intros j Hl Hw Hn Hj Hjn Hf; cbn [oid_arcs].
  { cbn [get_arcs]. replace (Z.to_nat (bo_n o)) with j by lia. done. }
  destruct (Z.leb_spec (Z.of_nat j + 1) (bo_n o)) as [Hlt|]; [|cbn [get_arcs]; by replace (Z.to_nat (bo_n o)) with j by lia].
  assert (Hv : 0 <= (bo_id o).[Z.of_nat j] < 2 ^ 32).
  { rewrite Forall_lookup in Hw. apply (Hw j). rewrite <- (Nat2Z.id j) at 1. apply lookup_aget. lia. }
  rewrite arc_ok; [|done|lia|rewrite first_arcs_length by lia; lia|by apply first_arcs_next; lia]. rewrite first_arcs_push by lia.
  replace (Z.of_nat j + 1) with (Z.of_nat (S j)) by lia. apply IH; lia || done.
Qed.

Lemma oid_arcs_length o fuel : forall i v, (length (oid_arcs fuel o i v) <= 5 * fuel)%nat.
Proof.
  induction fuel as [|fuel IH]; intros i v; cbn [oid_arcs]; [cbn; lia|]. destruct (i <=? bo_n o); [|cbn; lia]. rewrite length_app. specialize (IH (i + 1) ((bo_id o).[i])).
  assert (length (oid_arc v) <= 5)%nat; [|lia]. rewrite oid_arc_octets, !length_app. unfold continued. repeat destruct (_ >=? _); cbn; lia.
Qed.

(** C26: ober_get_oid reads the object identifier that ober_add_oid encodes:
    the number of arcs and every arc, up to 64 of 32 bits, if the second is
    below 40. *)
Theorem ober_oid_roundtrip prev o s : oracle s = [] -> 0 < brk s -> prev <> brk s -> prev = 0 \/ is_Some (heap s !! prev) ->
  length (bo_id o) = 65%nat -> Forall (word 32) (bo_id o) -> BER_MIN_OID_LEN <= bo_n o <= BER_MAX_OID_LEN -> (bo_id o).[0] <= 2 -> (bo_id o).[1] < 40 ->
  exists e s', ober_add_oid prev o s = Some (brk s, s') /\ added prev e s s' /\ writable e Nil /\
    ober_get_oid (brk s) s' = Some (Some (Oid (first_arcs (Z.to_nat (bo_n o)) (bo_id o)) (bo_n o)), s').
Proof.
  intros Ho Hb Hne Hprev Hl Hw Hn H0 H1. set (ids := bo_id o) in *. set (c := ids.[0] * 40 + ids.[1]).
  assert (Hr : forall i, 0 <= i < 65 -> word 32 (ids.[i])) by (intros i Hi; rewrite Forall_lookup in Hw; apply (Hw (Z.to_nat i)), lookup_aget; lia).
  pose proof (Hr 0 ltac:(lia)) as Hr0. pose proof (Hr 1 ltac:(lia)) as Hr1. unfold word in Hr0, Hr1. assert (Hc : 0 <= c < 128) by lia.
  set (rest := oid_arcs (Z.to_nat (bo_n o) - 1) o (Z.of_nat 2 + 1) (ids.[Z.of_nat 2])).
  assert (Hbuf : ober_oid2ber o = c :: rest).
  { unfold ober_oid2ber. fold ids. destruct (Z.ltb_spec (bo_n o) BER_MIN_OID_LEN); [lia|]. destruct (Z.gtb_spec (bo_n o) BER_MAX_OID_LEN); [lia|]. destruct (Z.gtb_spec (ids.[0]) 2); [lia|]. destruct (Z.gtb_spec (ids.[1]) 40); [lia|].
    cbn [orb]. fold c. replace (Z.to_nat (bo_n o)) with (S (Z.to_nat (bo_n o) - 1)) at 1 by lia. cbn [oid_arcs]. destruct (Z.leb_spec 2 (bo_n o)); [|lia].
    unfold u32. rewrite wrap_small by (unfold word; lia). rewrite oid_arc_octets. unfold continued. rewrite !Z.shiftl_mul_pow2, !Z.mul_1_l by lia.
    destruct (Z.geb_spec c (2 ^ 28)), (Z.geb_spec c (2 ^ 21)), (Z.geb_spec c (2 ^ 14)), (Z.geb_spec c (2 ^ 7)); try lia. cbn [app].
    change BER_TAG_TYPE_MASK with (Z.ones 7). rewrite Z.land_ones, Z.mod_small by lia. done. }
  unfold ober_add_oid. step (new_ok BER_TYPE_OBJECT s Ho). destruct (Z.eqb_spec (brk s) 0); [lia|]. rewrite Hbuf. cbv zeta.
  set (s1 := St _ _ _ _ _ _ _). rewrite (bind_eq malloc _ s1 true s1 eq_refl). cbn [negb]. set (buf := c :: rest).
  rewrite (bind_eq (own buf) _ s1 tt (with_bufs s1 (bufs s ⊎ {[+ buf +]})) eq_refl).
  destruct (store_link_ok prev (element BER_TYPE_OBJECT) (fun e => with_buffer e (Z.of_nat (length buf)) buf) s (bufs s ⊎ {[+ buf +]}) Ho Hne Hprev eq_refl) as (s' & E & Hadd).
  eexists _, s'. split; [exact E|]. split; [exact Hadd|]. split.
  - assert (Hlen : Z.of_nat (length rest) <= 5 * bo_n o).
    { unfold rest. pose proof (oid_arcs_length o (Z.to_nat (bo_n o) - 1) (Z.of_nat 2 + 1) (ids.[Z.of_nat 2])). lia. }
    split; [cbn; lia|]. split; [cbn; lia|]. split; [by intros [_ ?]|]. unfold body_of, payload. cbn [be_encoding with_buffer element is_seq is_num is_str Z.eqb Pos.eqb orb be_len be_un buffer_of]. rewrite Nat2Z.id, take_ge by done.
    split; [done|]. split; [unfold buf; cbn [length]; lia|]. split; [done|]. intros _. by eexists.
  - destruct Hadd as [He _]. unfold ober_get_oid. step (load_ok s' (brk s) _ He). cbn [be_encoding with_buffer element Z.eqb Pos.eqb be_un be_len]. unfold as_buffer. run. unfold buf at 1.
    unfold copy. destruct (Z.ltb_spec (Z.of_nat (length rest)) (Z.of_nat (length buf) - 1)); [unfold buf in *; cbn [length] in *; lia|].
    rewrite take_ge by (unfold buf; cbn [length]; lia). run. replace (<[1%nat:=c mod 40]> (<[0%nat:=c / 40]> oid_clear)) with (first_arcs 2 ids).
    2:{ replace (c / 40) with (ids.[0]) by (unfold c; apply (Z.div_unique _ _ _ (ids.[1])); lia). replace (c mod 40) with (ids.[1]) by (unfold c; apply (Z.mod_unique _ _ (ids.[0])); lia).
        change oid_clear with (first_arcs 0 ids). change 0 with (Z.of_nat 0) at 1. rewrite first_arcs_push by lia. change 1 with (Z.of_nat 1). by rewrite first_arcs_push by lia. }
    unfold rest, ids. rewrite arcs_ok by (done || lia). by rewrite Z2Nat.id by lia.
Qed.

Lemma ober_oid_roundtrip_witness : exists s' buf, ober_add_oid 0 (Oid ([1; 3; 6; 1; 4; 1; 4294967295] ++ replicate 58 9) 7) demo_st = Some (6, s') /\
  ober_get_oid 6 s' = Some (Some (Oid ([1; 3; 6; 1; 4; 1; 4294967295] ++ replicate 58 0) 7), s') /\ heap s' !! 6 = Some (Elm 0 6 6 10 0 true 0 0 (Buffer buf)) /\ buf = [43; 6; 1; 4; 1; 143; 255; 255; 255; 127].
Proof.
  set (o := Oid ([1; 3; 6; 1; 4; 1; 4294967295] ++ replicate 58 9) 7).
  assert (Hw : Forall (word 32) (bo_id o)) by (cbn; repeat (apply Forall_cons; split; [unfold word; lia|]); apply List.Forall_nil).
  destruct (ober_oid_roundtrip 0 o demo_st eq_refl ltac:(cbn; lia) ltac:(cbn; lia) ltac:(by left) eq_refl Hw ltac:(cbn; lia) ltac:(vm_compute; discriminate) ltac:(reflexivity)) as (e & s' & E & (H & _) & _ & Hg).
  eexists s', _. split; [exact E|]. split; [exact Hg|]. vm_compute in E. injection E as <-. split; [vm_compute; reflexivity|reflexivity].
Defined.

(** The second arc may be 40 as well, which is taken for the first arc 2. *)
Example oid_second_arc_40 : ober_oid2ber (Oid ([1; 40; 5] ++ replicate 62 0) 3) = ober_oid2ber (Oid ([2; 0; 5] ++ replicate 62 0) 3).
Proof. reflexivity. Qed.
